(* ===== verification/_CoqProject ===== *)
-Q . S2P
Prelude.v
Sha256.v
I386Builtins.v
Lzvn.v
Hde.v
Hde64.v
Hde32.v
UmmMalloc.v
CsMcInst.v
CsUtils.v
CsRegisterInfo.v
CsSStream.v
CsCore.v
CsDisasm.v
CsQuery.v
CsMathExtras.v
LiluMachine.v
LiluPatcher.v
LiluRoute.v
LiluPattern.v
KryNvram.v
KryPatches.v
KryHooks.v
X86Tables.v
X86Decoder.v
X86Logic.v
X86Prefix.v
X86Safe.v
X86Decode.v
X86ModRM.v
X86Translate.v
X86Range.v
X86Disasm.v
X86Mapping.v
X86Printer.v
X86Show.v
X86Module.v
X86Engine.v
LiluDisasm.v
LiluSearch.v
Lzss.v
LzssTree.v
LzssWindow.v
LzssEncode.v
LzssDecode.v
LiluCompression.v
