(* ===== verification/Prelude.v ===== *)
(** * Kryptonite: a verification library

    Kryptonite is a macOS kernel extension that makes external GPUs work on
    Macs Apple does not support.  It is a plugin of Lilu, a kernel extension
    that patches other kernel code at run time; Lilu brings its own C
    libraries.  This library models the program from the bottom up and proves
    what each part promises to the one above it.

    ** How the program works

    At boot, Kryptonite reads its switches from the boot arguments
    ([NVRAMArgs]) and registers for a table of kexts ([PatchSet]).  When Lilu
    reports that one of them was loaded, [PatchSet::processKext] selects the
    patches for it ([Patches]): byte patterns to replace in its image and
    functions to redirect to hooks ([FunctionHooks]).  Both go through
    [PatchApplicator] to Lilu's [KernelPatcher], which finds the pattern or
    rewrites the function's entry: it measures the first instructions with the
    HDE length disassembler, copies them to a trampoline, and writes a jump,
    with [MachInfo] lifting write protection around it.  Lilu also contains a
    small heap allocator, LZVN and LZSS compression and SHA-256 for reading
    kernel images, the Capstone disassembly framework for its plugins, and,
    for 32-bit kernels, the compiler's 64-bit arithmetic.

    ** The files

    - [Prelude]: outcomes of C code ([Ok], [Ub] for undefined behaviour,
      [NoFuel] for a loop still running), fixed-width integers, arrays with
      bounds, loops, and the tactics and hints the other files share.
    - [Sha256]: [sha256/sha256.c], with the FIPS 180 digest as specification.
    - [I386Builtins]: [MacKernelSDK/Library/kmod/i386_builtins.c].
    - [Lzvn]: [lzvn/lzvn.c], the decoder with both dispatch mechanisms, and a
      byte-by-byte reference decoder.
    - [Hde], [Hde64], [Hde32]: [hde/hde64.c], [hde32.c] and their tables; [Hde]
      holds what the two decoders share, with the instruction layout that
      serves as their specification.
    - [UmmMalloc]: [umm_malloc/umm_malloc.c] on an array of bytes, and the list
      of blocks it represents.
    - [CsMcInst], [CsUtils], [CsRegisterInfo], [CsSStream]: [capstone/MCInst.c],
      [utils.c], [MCRegisterInfo.c], [SStream.c].
    - [CsCore], [CsDisasm], [CsQuery]: [capstone/cs.c]: handles and options;
      [cs_disasm], [cs_disasm_iter], [cs_malloc], [cs_free]; the queries.
    - [CsMathExtras]: [capstone/MathExtras.h], [LEB128.h], [MCInstrDesc.c], in
      the build with the compiler's built-in functions and in the portable one.
    - [X86Tables], [X86Decoder]: the tables and the decoder of Capstone's x86
      back end ([arch/X86/X86GenDisassemblerTables_reduce.inc],
      [X86DisassemblerDecoder.c]), in the configuration [CAPSTONE_X86_REDUCE]
      that the Lilu project sets; [X86Translate]: [X86Disassembler.c].
    - [X86Logic]: the program logic for the decoder's monad; [X86Prefix],
      [X86ModRM]: what prefixes and addressing forms mean; [X86Safe],
      [X86Decode]: the whole decoder; [X86Range]: the ranges of what it
      stores.
    - [X86Disasm]: the back end's entry point.
    - [X86Mapping], [X86Printer]: [X86Mapping.c] and [X86IntelInstPrinter.c]
      with their tables ([X86ImmSize.inc], [X86GenAsmWriter1_reduce.inc]);
      [X86Show]: what the printer shows.
    - [X86Module]: [X86Module.c]; [X86Engine]: the engine on the back end.
    - [LiluMachine]: kernel memory, the processor state behind
      [MachInfo::setKernelWriting], the patcher object and its monad.
    - [LiluPatcher]: routing of [Lilu/Sources/kern_patcher.cpp], its [Patch]
      objects, [Disassembler::quickInstructionSize] (on the HDE64 model),
      [MachInfo::getAddressSlot].
    - [LiluRoute]: what a route does, undoing routes, chained routes, batches.
    - [LiluPattern]: lookup patches and pattern search.
    - [LiluDisasm], [LiluSearch]: [kern_disasm.cpp] with
      [LILU_ADVANCED_DISASSEMBLY], on the x86 engine; what its searches find.
    - [Lzss]: the LZSS coder of [kern_compression.cpp]; [LzssTree]: the search
      trees of its compressor; [LzssWindow]: its ring buffer; [LzssEncode]:
      what it writes; [LzssDecode]: reading that back.  [LiluCompression]: the
      interface of the file, on this coder and on [Lzvn].
    - [KryNvram]: [kern_nvramargs.cpp], [kern_compatibility.cpp].
    - [KryPatches]: [kern_patches.cpp], [kern_patchapplicator.cpp],
      [kern_patchset.cpp], [kern_targetkexts.hpp].
    - [KryHooks]: [kern_hooks.cpp].

    C structures are records, pointers are indices into the array or memory
    they point into, integers keep their width ([u8] to [u64], [s8] to [s64]).
    An operation of the source is a definition of the same name; a loop is a
    [Fixpoint] of its own.  Definitions compute, so that the witnesses and
    examples run them.

    ** What the theorems show

    - Routing ([LiluRoute]): the routed function jumps to its target, the
      trampoline runs the displaced instructions, only the announced bytes
      change, protection, interrupts and lock are as before; [deinit] gives
      every byte back; a second route chains to the first; a batch of one
      resolves and routes its symbol, and what it reports when it cannot.
    - Patching ([LiluPattern], [KryPatches]): exactly the first occurrences of
      a pattern are replaced; a loaded kext gets the patches the table names
      and no others; probe mode touches nothing.
    - Hooks ([KryHooks]), against the [Registry] interface: what is set, what
      is left alone, and that repeating it changes nothing.
    - The C libraries: the allocator refines a best-fit allocator on a list
      of blocks, and freeing undoes allocating; the length disassemblers
      stay in bounds and report the instruction's layout; the LZVN decoder
      equals the reference decoder and is safe on arbitrary input; SHA-256
      equals its specification for any split of the message; division, shifts
      and bit counts equal their mathematical counterparts.
    - Capstone: [cs_disasm] covers the code without gaps, never leaks, whatever
      allocation fails; handles keep their invariant; the printers' text
      parses back to the number; searches equal searches in decoded tables;
      the portable bit tricks agree with the compiler's; ULEB128 decoding
      inverts encoding exactly below [2^31].
    - The x86 back end: on any bytes the decoder returns with every table
      access in bounds, and what it accepts has 1 to 15 bytes; of each group
      of prefixes the last counts; addressing forms are read as the reference
      table of [Hde] says; the machine instruction has the operands the
      tables name, in order; the printer, which reads tables generated apart
      from the decoder's, never misreads an instruction of the decoder, and
      leaves in the details the operands that [public_operands] lists; a
      listing of the engine consists of the instructions the decoder finds,
      with their public numbers and operands.  The back end discharges the
      laws that the engine is proved against: [ArchOk] (which leaves the modes
      and the states between decoding and printing to the back end), [InitOk]
      and [OptionOk].
    - Lilu's disassembler ([LiluSearch]): its methods on a region agree with a
      linear sweep of it: whole instructions, the n-th branch, instruction or
      signature; whatever the order of calls, none is undefined and [deinit]
      gives all memory back.
    - Compression: the LZSS decoder is safe on arbitrary input; the compressor
      keeps its 256 search trees a forest, only refers to what the decoder
      still holds, and what it writes is decoded to the text
      ([lzss_roundtrip]); the interface over the formats keeps to its
      buffers, leaks none and gives the text back
      ([decompress_correct], [compression_roundtrip]).
    - Boundary behaviour where the code departs from its comments or its
      intent, each as a theorem with a concrete instance.

    ** Bounds and fuel

    Structural loops need no bound.  The others take fuel and the theorems
    prove that the amount the definitions pass suffices: the HDE table
    searches ([lock_loop], [only_mem_loop]) are bounded by their tables, LZVN
    decoding by source and destination lengths, the free-list walks by the
    number of blocks, the prefixes of an x86 instruction by the bytes given,
    a duplicated x86 operand by one indirection (the tables have no other),
    the search for the size of an immediate by the size of its table, a walk
    down an LZSS tree by the slots of the ring buffer (a rank falls along it),
    LZSS decoding by the source, compression by the text,
    [quick_loop] by the bytes to cover (an instruction has at least one),
    pattern scans by the image, priming by the length of the provider chain.  A result is always proved as such, never only for runs
    that end.

    ** Assumptions

    What is not in the sources is a parameter with its documented contract:
    allocation may fail at any point ([cs.c], [Patch::create]); the decoder,
    printer and id mapping of an architecture, where the engine is modelled
    for all of them ([ArchOk]); what fresh memory and the stack hold; [PE_parse_boot_argn]
    ([BootOk]); the I/O registry ([RegistryOk]); which pages are read-only and
    whether [CR0] can be written ([env], [Granting]); the kernel's [malloc],
    [realloc] and zlib ([kernel_ok]); the symbol tables of images.  Each contract has an instance among the witnesses.  The model is
    of the 64-bit little-endian build.  [cs.c] is modelled for every
    configuration and [SStream] for the non-diet one; the x86 back end for
    [CAPSTONE_DIET] and [CAPSTONE_X86_REDUCE], as the Lilu project builds it:
    the text of an instruction is empty there, and its operands are in the
    details.  The listing of x86 code needs memory for the lookup cache whose
    contents are positions of the table ([cache_memory]): the code leaves
    entries for missing numbers uninitialised, and four prefixes that are
    decoded as instructions have such entries.  The address of an instruction
    and its relative operand are added modulo [2^64].  Interrupts and other processors do not run inside the
    write-protection window, as its lock and [cli] intend.  Log output is
    omitted.

    ** Not modelled

    Capstone's architectures other than x86, which Lilu does not build; of x86
    what the reduced diet engine leaves out or never calls: the text and the
    names, the AT&T printer, implicit registers and groups, the vector
    instructions, [X86_lockrep]; the floating-point reinterpretations of [MathExtras.h]; bindings,
    tests and tools; Lilu's reading of kernel images and symbol tables,
    kext-listening callbacks and start-up (private kernel structures and
    I/O), its device, firmware and NVRAM code and the reports of
    [kern_ubsan.c]; the kmod entry glue, MacKernelSDK's headers, installer
    and boot configuration. *)

From Stdlib Require Import ZArith Lia.
From stdpp Require Export base tactics numbers option decidable list.

#[global] Open Scope Z_scope.

(** ** Outcomes of C code

    [Ok] is normal completion, [Ub] an access outside an array or another
    operation the C standard leaves undefined, [NoFuel] a loop that was still
    running when the bound given to the model ran out. *)
Inductive outcome (A : Type) : Type :=
| Ok (a : A)
| Ub
| NoFuel.
Arguments Ok {A} a.
Arguments Ub {A}.
Arguments NoFuel {A}.

#[global] Instance outcome_ret : MRet outcome := @Ok.
#[global] Instance outcome_bind : MBind outcome := λ A B f m,
  match m with Ok a => f a | Ub => Ub | NoFuel => NoFuel end.

#[global] Instance outcome_eq_dec `{EqDecision A} : EqDecision (outcome A).
Proof. solve_decision. Defined.

Lemma bind_Ok_inv {A B} (m : outcome A) (f : A → outcome B) b :
  (x ← m; f x) = Ok b ↔ ∃ a, m = Ok a ∧ f a = Ok b.
Proof. destruct m; cbn; naive_solver. Qed.

(** ** Fixed-width integers *)

Definition wrap (w x : Z) : Z := x mod 2 ^ w.
Abbreviation u8 := (wrap 8).
Abbreviation u16 := (wrap 16).
Abbreviation u32 := (wrap 32).
Abbreviation u64 := (wrap 64).

(** Two's complement reading of the low [w] bits. *)
Definition swrap (w x : Z) : Z := (x + 2 ^ (w - 1)) mod 2 ^ w - 2 ^ (w - 1).
Abbreviation s8 := (swrap 8).
Abbreviation s32 := (swrap 32).
Abbreviation s64 := (swrap 64).

Declare Scope c_scope.
Delimit Scope c_scope with C.
Notation "x & y" := (Z.land x y) (at level 56, left associativity) : c_scope.
Notation "x .| y" := (Z.lor x y) (at level 58, left associativity) : c_scope.
Notation "x ^^ y" := (Z.lxor x y) (at level 57, left associativity) : c_scope.
Notation "x << y" := (Z.shiftl x y) (at level 54, left associativity) : c_scope.
Notation "x >> y" := (Z.shiftr x y) (at level 54, left associativity) : c_scope.

(** A C condition: non-zero is true. *)
Definition ctrue (x : Z) : bool := negb (x =? 0).
(** A C truth value as an integer. *)
Definition cbool (b : bool) : Z := if b then 1 else 0.

Definition in_u (w x : Z) : Prop := 0 ≤ x < 2 ^ w.
Abbreviation is_byte := (in_u 8).
Abbreviation bytes_ok l := (Forall (in_u 8) l).

(** ** Tactics *)

(** Turn boolean comparisons in the context and goal into propositions. *)
Ltac zify_bools :=
  repeat match goal with
  | H : (_ =? _) = true |- _ => apply Z.eqb_eq in H
  | H : (_ =? _) = false |- _ => apply Z.eqb_neq in H
  | H : (_ <? _) = true |- _ => apply Z.ltb_lt in H
  | H : (_ <? _) = false |- _ => apply Z.ltb_ge in H
  | H : (_ <=? _) = true |- _ => apply Z.leb_le in H
  | H : (_ <=? _) = false |- _ => apply Z.leb_gt in H
  | H : (_ && _)%bool = true |- _ => apply andb_true_iff in H as [? ?]
  | H : (_ || _)%bool = false |- _ => apply orb_false_iff in H as [? ?]
  | H : negb _ = true |- _ => apply negb_true_iff in H
  | H : negb _ = false |- _ => apply negb_false_iff in H
  | H : ctrue _ = true |- _ => unfold ctrue in H
  | H : ctrue _ = false |- _ => unfold ctrue in H
  end.

(** Case analysis on the next boolean test of the goal. *)
Ltac case_bool :=
  match goal with
  | |- context [if ?b then _ else _] =>
      lazymatch type of b with
      | bool => let E := fresh "E" in destruct b eqn:E; zify_bools
      end
  end.

(** Case analysis on every integer comparison of the goal. *)
Ltac zcases :=
  repeat match goal with
  | |- context [?a <? ?b] => destruct (Z.ltb_spec a b)
  | |- context [?a <=? ?b] => destruct (Z.leb_spec a b)
  | |- context [?a =? ?b] => destruct (Z.eqb_spec a b)
  end; cbn [andb orb negb].

(** Split the conjunctions visible in the goal, without unfolding. *)
Ltac split_conj := repeat match goal with |- _ ∧ _ => split end.

(** Case analysis on membership in a literal list. *)
Ltac in_cases H :=
  repeat (apply elem_of_cons in H as [H|H]); [..|by apply not_elem_of_nil in H].

(** Membership in a literal list, by evaluation. *)
Ltac isin := apply (bool_decide_unpack _); vm_compute; exact I.

(** [lia] after expanding [wrap] bounds and divisions. *)
Ltac zdiv := Z.to_euclidean_division_equations; lia.

Create HintDb cint discriminated.

(** ** Lemmas on words *)

Lemma wrap_range w x : 0 ≤ w → 0 ≤ wrap w x < 2 ^ w.
Proof. intros. apply Z.mod_pos_bound, Z.pow_pos_nonneg; lia. Qed.

Lemma wrap_in_u w x : 0 ≤ w → in_u w (wrap w x).
Proof. apply wrap_range. Qed.

Lemma wrap_small w x : in_u w x → wrap w x = x.
Proof. intros. apply Z.mod_small; done. Qed.

Lemma wrap_wrap w x : 0 ≤ w → wrap w (wrap w x) = wrap w x.
Proof. intros. apply wrap_small, wrap_in_u; lia. Qed.

Lemma wrap_add_l w x y : 0 ≤ w → wrap w (wrap w x + y) = wrap w (x + y).
Proof. intros. apply Z.add_mod_idemp_l, Z.pow_nonzero; lia. Qed.

Lemma wrap_add_r w x y : 0 ≤ w → wrap w (x + wrap w y) = wrap w (x + y).
Proof. intros. apply Z.add_mod_idemp_r, Z.pow_nonzero; lia. Qed.

(** Drop the inner truncations of a sum that is truncated as a whole. *)
Ltac unwrap_sums :=
  repeat first
    [ progress rewrite <- ?Z.add_assoc; rewrite wrap_add_l by lia
    | rewrite wrap_add_l by lia
    | progress rewrite ?Z.add_assoc; rewrite wrap_add_r by lia
    | rewrite wrap_add_r by lia ];
  rewrite ?Z.add_assoc.

Lemma wrap_testbit w x i :
  0 ≤ w → 0 ≤ i → Z.testbit (wrap w x) i = ((i <? w) && Z.testbit x i)%bool.
Proof.
  intros. unfold wrap. destruct (Z.ltb_spec i w); cbn.
  - by rewrite Z.mod_pow2_bits_low by lia.
  - by rewrite Z.mod_pow2_bits_high by lia.
Qed.

Lemma testbit_in_u w x i : 0 ≤ w → in_u w x → w ≤ i → Z.testbit x i = false.
Proof.
  intros. rewrite <- (wrap_small w x), wrap_testbit by (done || lia).
  by rewrite (proj2 (Z.ltb_ge i w)) by lia.
Qed.

Lemma in_u_testbit w x :
  0 ≤ w → 0 ≤ x → (∀ i, w ≤ i → Z.testbit x i = false) → in_u w x.
Proof.
  intros Hw Hx H. assert (x = wrap w x) as ->; [|by apply wrap_in_u].
  apply Z.bits_inj'; intros i Hi. rewrite wrap_testbit by lia.
  destruct (Z.ltb_spec i w); cbn; [done|]. apply H; lia.
Qed.

Lemma in_u_land w x y : 0 ≤ w → in_u w x → 0 ≤ y → in_u w (Z.land x y).
Proof.
  intros Hw Hx Hy. destruct Hx as [Hx0 Hx1]. apply in_u_testbit; [done| |].
  - apply Z.land_nonneg; lia.
  - intros i Hi. rewrite Z.land_spec, (testbit_in_u w x) by (done || lia). done.
Qed.

Lemma in_u_lor w x y : 0 ≤ w → in_u w x → in_u w y → in_u w (Z.lor x y).
Proof.
  intros Hw Hx Hy. apply in_u_testbit; [done| |].
  - destruct Hx, Hy. apply Z.lor_nonneg; lia.
  - intros i Hi. by rewrite Z.lor_spec, (testbit_in_u w x), (testbit_in_u w y) by (done || lia).
Qed.

Lemma in_u_lxor w x y : 0 ≤ w → in_u w x → in_u w y → in_u w (Z.lxor x y).
Proof.
  intros Hw Hx Hy. apply in_u_testbit; [done| |].
  - destruct Hx, Hy. apply Z.lxor_nonneg; lia.
  - intros i Hi. by rewrite Z.lxor_spec, (testbit_in_u w x), (testbit_in_u w y) by (done || lia).
Qed.

Lemma in_u_shiftr w x n : 0 ≤ n → in_u w x → in_u w (Z.shiftr x n).
Proof.
  intros Hn [H0 H1]. rewrite Z.shiftr_div_pow2 by lia. split.
  - apply Z.div_pos; [lia|]. apply Z.pow_pos_nonneg; lia.
  - assert (0 < 2 ^ n) by (apply Z.pow_pos_nonneg; lia).
    apply Z.le_lt_trans with x; [|lia]. apply Z.div_le_upper_bound; nia.
Qed.

Lemma swrap_small w x : 0 < w → - 2 ^ (w - 1) ≤ x < 2 ^ (w - 1) → swrap w x = x.
Proof.
  intros Hw Hx. unfold swrap. assert (2 ^ w = 2 * 2 ^ (w - 1)) as E.
  { rewrite <- Z.pow_succ_r by lia. f_equal. lia. }
  rewrite Z.mod_small; lia.
Qed.

Lemma swrap_range w x : 0 < w → - 2 ^ (w - 1) ≤ swrap w x < 2 ^ (w - 1).
Proof.
  intros Hw. unfold swrap. assert (2 ^ w = 2 * 2 ^ (w - 1)) as E.
  { rewrite <- Z.pow_succ_r by lia. f_equal. lia. }
  assert (0 < 2 ^ (w - 1)) by (apply Z.pow_pos_nonneg; lia).
  pose proof (Z.mod_pos_bound (x + 2 ^ (w - 1)) (2 ^ w)). lia.
Qed.

Lemma swrap_wrap w x : 0 < w → swrap w (wrap w x) = swrap w x.
Proof. intros. unfold swrap, wrap. rewrite Z.add_mod_idemp_l; [done|]. apply Z.pow_nonzero; lia. Qed.

Lemma wrap_swrap w x : 0 < w → wrap w (swrap w x) = wrap w x.
Proof.
  intros. unfold swrap, wrap. rewrite Zminus_mod_idemp_l. f_equal. lia.
Qed.

(** [wrap] and [swrap] only depend on the value modulo [2^w]. *)
Lemma wrap_eq w x y q : x = y + q * 2 ^ w → wrap w x = wrap w y.
Proof. intros ->. unfold wrap. apply Z_mod_plus_full. Qed.

Lemma swrap_eq w x y q : 0 < w → x = y + q * 2 ^ w → swrap w x = swrap w y.
Proof. intros Hw E. rewrite <- (swrap_wrap w x), <- (swrap_wrap w y), (wrap_eq w x y q) by done. done. Qed.

(** A mask of [n] ones keeps the value modulo [2^n]. *)
Lemma land_ones_wrap x n : 0 ≤ n → Z.land x (Z.ones n) = wrap n x.
Proof. intros. by apply Z.land_ones. Qed.

(** [lor] of numbers with disjoint bits is their sum. *)
Lemma lor_shift_add x y n : 0 ≤ n → in_u n y → Z.lor (x * 2 ^ n) y = x * 2 ^ n + y.
Proof.
  intros Hn Hy. rewrite <- Z.lxor_lor, Z.add_nocarry_lxor; try done;
    apply Z.bits_inj'; intros i Hi; rewrite Z.bits_0, Z.land_spec;
    (destruct (Z.ltb_spec i n);
     [by rewrite Z.mul_pow2_bits_low by lia
     |by rewrite (testbit_in_u n y), andb_false_r by (done || lia)]).
Qed.

Lemma ctrue_true x : ctrue x = true ↔ x ≠ 0.
Proof. unfold ctrue. destruct (Z.eqb_spec x 0); naive_solver. Qed.

Lemma ctrue_false x : ctrue x = false ↔ x = 0.
Proof. unfold ctrue. destruct (Z.eqb_spec x 0); naive_solver. Qed.

#[export] Hint Resolve in_u_lor in_u_lxor in_u_land in_u_shiftr wrap_in_u : cint.
#[export] Hint Extern 1 (_ ≤ _) => lia : cint.
#[export] Hint Extern 2 (in_u _ _) => unfold in_u; lia : cint.

(** ** Arrays indexed by C integers *)

Definition zlen {A} (l : list A) : Z := Z.of_nat (length l).

(** [a[i]]; undefined outside the array. *)
Definition aget {A} (l : list A) (i : Z) : outcome A :=
  if 0 <=? i then match l !! Z.to_nat i with Some x => Ok x | None => Ub end else Ub.

(** [a[i] = v]; undefined outside the array. *)
Definition aset {A} (l : list A) (i : Z) (v : A) : outcome (list A) :=
  if (0 <=? i) && (i <? zlen l) then Ok (<[Z.to_nat i := v]> l) else Ub.

(** Total view of an integer array, used in specifications. *)
Definition zget (l : list Z) (i : Z) : Z := default 0 (l !! Z.to_nat i).

(** Little-endian multi-byte accesses ([memcpy] to or from an integer). *)
Fixpoint loadLE (n : nat) (l : list Z) (a : Z) : outcome Z :=
  match n with
  | O => Ok 0
  | S n => b ← aget l a; r ← loadLE n l (a + 1); Ok (b + 256 * r)
  end.

Fixpoint storeLE (n : nat) (l : list Z) (a v : Z) : outcome (list Z) :=
  match n with
  | O => Ok l
  | S n => l' ← aset l a (u8 v); storeLE n l' (a + 1) (v / 256)
  end.

Section arrays.
  Context {A : Type}.
  Implicit Types (l : list A) (i : Z).

Lemma zlen_nonneg l : 0 ≤ zlen l.
Proof. unfold zlen. lia. Qed.

Lemma zlen_app l k : zlen (l ++ k) = zlen l + zlen k.
Proof. unfold zlen. rewrite length_app. lia. Qed.

Lemma zlen_insert l (n : nat) v : zlen (<[n := v]> l) = zlen l.
Proof. unfold zlen. by rewrite length_insert. Qed.

Lemma aget_Ok_inv l i x : aget l i = Ok x ↔ 0 ≤ i ∧ l !! Z.to_nat i = Some x.
Proof.
  unfold aget. destruct (Z.leb_spec 0 i).
  - destruct (l !! Z.to_nat i) eqn:E; naive_solver lia.
  - naive_solver lia.
Qed.

Lemma aget_bound l i x : aget l i = Ok x → 0 ≤ i < zlen l.
Proof.
  intros [? H]%aget_Ok_inv. apply lookup_lt_Some in H. unfold zlen. lia.
Qed.

Lemma aget_is_Ok l i : 0 ≤ i < zlen l → ∃ x, aget l i = Ok x.
Proof.
  unfold zlen. intros H. destruct (lookup_lt_is_Some_2 l (Z.to_nat i)) as [x Hx]; [lia|].
  exists x. apply aget_Ok_inv. split; [lia|done].
Qed.

Lemma aset_Ok l i v : 0 ≤ i < zlen l → aset l i v = Ok (<[Z.to_nat i := v]> l).
Proof.
  intros. unfold aset.
  by rewrite (proj2 (Z.leb_le 0 i)), (proj2 (Z.ltb_lt i (zlen l))) by lia.
Qed.

Lemma aset_Ok_inv l i v l' :
  aset l i v = Ok l' → 0 ≤ i < zlen l ∧ l' = <[Z.to_nat i := v]> l.
Proof. unfold aset. case_bool; naive_solver. Qed.

Lemma aget_insert l i j v :
  0 ≤ i < zlen l → 0 ≤ j →
  aget (<[Z.to_nat i := v]> l) j = if i =? j then Ok v else aget l j.
Proof.
  unfold zlen. intros Hi Hj. unfold aget. rewrite (proj2 (Z.leb_le 0 j)) by lia.
  destruct (Z.eqb_spec i j) as [->|Hne].
  - by rewrite list_lookup_insert_eq by lia.
  - by rewrite list_lookup_insert_ne by lia.
Qed.
End arrays.

Lemma aget_zget (l : list Z) i : 0 ≤ i < zlen l → aget l i = Ok (zget l i).
Proof.
  intros H. destruct (aget_is_Ok l i H) as [x Hx]. rewrite Hx.
  apply aget_Ok_inv in Hx as [_ Hx]. unfold zget. by rewrite Hx.
Qed.

Lemma zget_insert (l : list Z) i j v :
  0 ≤ i < zlen l → 0 ≤ j →
  zget (<[Z.to_nat i := v]> l) j = if i =? j then v else zget l j.
Proof.
  unfold zlen, zget. intros Hi Hj. destruct (Z.eqb_spec i j) as [->|Hne].
  - by rewrite list_lookup_insert_eq by lia.
  - by rewrite list_lookup_insert_ne by lia.
Qed.

Lemma zget_app_l (l k : list Z) i : 0 ≤ i < zlen l → zget (l ++ k) i = zget l i.
Proof. unfold zlen, zget. intros. rewrite lookup_app_l by lia. done. Qed.

Lemma zget_app_r (l k : list Z) i : zlen l ≤ i → zget (l ++ k) i = zget k (i - zlen l).
Proof.
  unfold zlen, zget. intros. rewrite lookup_app_r by lia. do 2 f_equal. lia.
Qed.

Lemma zget_singleton x : zget [x] 0 = x.
Proof. done. Qed.

Lemma bytes_ok_zget l i : bytes_ok l → in_u 8 (zget l i).
Proof.
  intros H. unfold zget. destruct (l !! Z.to_nat i) eqn:E; cbn.
  - eapply Forall_lookup_1; eauto.
  - unfold in_u; lia.
Qed.

Lemma bytes_ok_insert l n v : bytes_ok l → in_u 8 v → bytes_ok (<[n := v]> l).
Proof. intros. by apply Forall_insert. Qed.

(** Two integer arrays of one length with equal elements are equal. *)
Lemma zget_ext (l k : list Z) :
  zlen l = zlen k → (∀ i, 0 ≤ i < zlen l → zget l i = zget k i) → l = k.
Proof.
  unfold zlen, zget. intros Hlen H. apply list_eq_same_length with (length k); [done|lia|].
  intros i x y Hi Hx Hy. specialize (H (Z.of_nat i)). rewrite Nat2Z.id, Hx, Hy in H.
  apply H. lia.
Qed.

(** ** Counted loops

    [cfor n i body a]: [n] iterations of [body] with the counter running
    from [i] upwards, for the [for] loops whose trip count is fixed. *)
Fixpoint cfor {A} (n : nat) (i : Z) (body : Z → A → outcome A) (a : A) : outcome A :=
  match n with
  | O => Ok a
  | S n => a' ← body i a; cfor n (i + 1) body a'
  end.

(** A loop invariant for [cfor]: [P i a] at the top of iteration [i]. *)
Lemma cfor_inv {A} (P : Z → A → Prop) n i body (a : A) :
  P i a →
  (∀ j a, i ≤ j < i + Z.of_nat n → P j a → ∃ a', body j a = Ok a' ∧ P (j + 1) a') →
  ∃ a', cfor n i body a = Ok a' ∧ P (i + Z.of_nat n) a'.
Proof.
  revert i a. induction n as [|n IH]; intros i a Ha Hstep; cbn [cfor].
  - exists a. split; [done|]. by replace (i + Z.of_nat 0) with i by lia.
  - destruct (Hstep i a) as (a' & -> & Ha'); [lia|done|]. cbn.
    destruct (IH (i + 1) a') as (a'' & -> & H); [done| |].
    + intros j b Hj. apply Hstep. lia.
    + exists a''. split; [done|]. by replace (i + Z.of_nat (S n)) with (i + 1 + Z.of_nat n) by lia.
Qed.

(** ** Byte sequences *)

(** The [n] low bytes of [a], least significant first. *)
Fixpoint le_bytes (n : nat) (a : Z) : list Z :=
  match n with O => [] | S n => a mod 256 :: le_bytes n (a / 256) end.

Lemma le_bytes_range n a : bytes_ok (le_bytes n a).
Proof.
  revert a. induction n; intros; cbn; constructor; [|done].
  unfold in_u. change (2 ^ 8) with 256. zdiv.
Qed.

Lemma length_le_bytes n a : length (le_bytes n a) = n.
Proof. revert a. induction n; intros; cbn; auto. Qed.

(** The little-endian value of a byte string. *)
Fixpoint le_val (l : list Z) : Z :=
  match l with [] => 0 | b :: l => b + 256 * le_val l end.

Lemma zlen_le_bytes n v : zlen (le_bytes n v) = Z.of_nat n.
Proof. unfold zlen. by rewrite length_le_bytes. Qed.

Lemma le_val_bytes n v : le_val (le_bytes n v) = v mod 2 ^ (8 * Z.of_nat n).
Proof.
  revert v. induction n as [|n IH]; intros v; cbn [le_bytes le_val].
  - change (8 * Z.of_nat 0) with 0. change (2 ^ 0) with 1. by rewrite Z.mod_1_r.
  - rewrite IH. replace (8 * Z.of_nat (S n)) with (8 + 8 * Z.of_nat n) by lia.
    rewrite Z.pow_add_r by lia. change (2 ^ 8) with 256.
    symmetry. apply Z.rem_mul_r; [lia|]. apply Z.pow_pos_nonneg; lia.
Qed.

Lemma le_bytes_val l : bytes_ok l → le_bytes (length l) (le_val l) = l.
Proof.
  induction 1 as [|b l Hb _ IH]; cbn [le_bytes le_val length]; [done|].
  unfold in_u in Hb. change (2 ^ 8) with 256 in Hb.
  f_equal; [zdiv|]. replace ((b + 256 * le_val l) / 256) with (le_val l) by zdiv. done.
Qed.

Lemma le_val_range l : bytes_ok l → 0 ≤ le_val l < 2 ^ (8 * zlen l).
Proof.
  induction 1 as [|b l Hb _ IH]; cbn [le_val]; [unfold zlen; cbn; lia|].
  unfold in_u in Hb. change (2 ^ 8) with 256 in Hb.
  replace (8 * zlen (b :: l)) with (8 + 8 * zlen l) by (unfold zlen; cbn [length]; lia).
  rewrite Z.pow_add_r by (pose proof (zlen_nonneg l); lia). change (2 ^ 8) with 256. lia.
Qed.

(** A boolean fact about all byte values, checked by evaluation. *)
Lemma byte_cases (P : Z → bool) :
  forallb P (seqZ 0 256) = true → ∀ b, in_u 8 b → P b = true.
Proof.
  intros H b Hb. rewrite forallb_forall in H. apply H.
  apply list_elem_of_In, elem_of_seqZ. unfold in_u in Hb. lia.
Qed.
