(* ===== verification/Sha256.v ===== *)
(** * SHA-256 ([Lilu.kext/sha256/sha256.c], [sha256.h])

    The context, the compression function, the streaming interface
    (init/update/final) with the widths of its counters, an abstract
    specification of the digest of a whole message and the proof that the
    streaming code computes it for every way of splitting the message. *)

From Stdlib Require Import ZArith Lia.
From stdpp Require Import base list.
From S2P Require Import Prelude.

Module Sha256.

Open Scope c_scope.

(** ** Model *)

Definition ROTRIGHT (a b : Z) : Z := (a >> b) .| u32 (a << (32 - b)).
Definition CH (x y z : Z) : Z := (x & y) ^^ (u32 (Z.lnot x) & z).
Definition MAJ (x y z : Z) : Z := (x & y) ^^ (x & z) ^^ (y & z).
Definition EP0 (x : Z) : Z := ROTRIGHT x 2 ^^ ROTRIGHT x 13 ^^ ROTRIGHT x 22.
Definition EP1 (x : Z) : Z := ROTRIGHT x 6 ^^ ROTRIGHT x 11 ^^ ROTRIGHT x 25.
Definition SIG0 (x : Z) : Z := ROTRIGHT x 7 ^^ ROTRIGHT x 18 ^^ (x >> 3).
Definition SIG1 (x : Z) : Z := ROTRIGHT x 17 ^^ ROTRIGHT x 19 ^^ (x >> 10).

(** The constants, a list per line of the table. *)
Definition k : list Z := mjoin [
  [0x428a2f98; 0x71374491; 0xb5c0fbcf; 0xe9b5dba5; 0x3956c25b; 0x59f111f1; 0x923f82a4; 0xab1c5ed5];
  [0xd807aa98; 0x12835b01; 0x243185be; 0x550c7dc3; 0x72be5d74; 0x80deb1fe; 0x9bdc06a7; 0xc19bf174];
  [0xe49b69c1; 0xefbe4786; 0x0fc19dc6; 0x240ca1cc; 0x2de92c6f; 0x4a7484aa; 0x5cb0a9dc; 0x76f988da];
  [0x983e5152; 0xa831c66d; 0xb00327c8; 0xbf597fc7; 0xc6e00bf3; 0xd5a79147; 0x06ca6351; 0x14292967];
  [0x27b70a85; 0x2e1b2138; 0x4d2c6dfc; 0x53380d13; 0x650a7354; 0x766a0abb; 0x81c2c92e; 0x92722c85];
  [0xa2bfe8a1; 0xa81a664b; 0xc24b8b70; 0xc76c51a3; 0xd192e819; 0xd6990624; 0xf40e3585; 0x106aa070];
  [0x19a4c116; 0x1e376c08; 0x2748774c; 0x34b0bcb5; 0x391c0cb3; 0x4ed8aa4a; 0x5b9cca4f; 0x682e6ff3];
  [0x748f82ee; 0x78a5636f; 0x84c87814; 0x8cc70208; 0x90befffa; 0xa4506ceb; 0xbef9a3f7; 0xc67178f2]].

Record SHA256_CTX := mkCTX {
  data : list Z;
  datalen : Z;
  bitlen : Z;
  state : list Z
}.

(** The working variables [a .. h]. *)
Record vars := mkVars { va : Z; vb : Z; vc : Z; vd : Z; ve : Z; vf : Z; vg : Z; vh : Z }.

(** First loop of [sha256_transform]: big-endian words of the block. *)
Definition load_block (dat m : list Z) : outcome (list Z) :=
  cfor 16 0 (fun i m =>
    let j := 4 * i in
    b0 ← aget dat j; b1 ← aget dat (j + 1); b2 ← aget dat (j + 2); b3 ← aget dat (j + 3);
    aset m i (u32 ((b0 << 24) .| (b1 << 16) .| (b2 << 8) .| b3))) m.

(** Second loop: message schedule extension. *)
Definition extend_block (m : list Z) : outcome (list Z) :=
  cfor 48 16 (fun i m =>
    m2 ← aget m (i - 2); m7 ← aget m (i - 7); m15 ← aget m (i - 15); m16 ← aget m (i - 16);
    aset m i (u32 (u32 (u32 (SIG1 m2 + m7) + SIG0 m15) + m16))) m.

(** Body of the third loop. *)
Definition round (m : list Z) (i : Z) (v : vars) : outcome vars :=
  ki ← aget k i; mi ← aget m i;
  let t1 := u32 (u32 (u32 (u32 (vh v + EP1 (ve v)) + CH (ve v) (vf v) (vg v)) + ki) + mi) in
  let t2 := u32 (EP0 (va v) + MAJ (va v) (vb v) (vc v)) in
  Ok (mkVars (u32 (t1 + t2)) (va v) (vb v) (vc v) (u32 (vd v + t1)) (ve v) (vf v) (vg v)).

Definition sha256_transform (ctx : SHA256_CTX) (dat : list Z) : outcome SHA256_CTX :=
  m0 ← load_block dat (replicate 64 0);
  m ← extend_block m0;
  s0 ← aget (state ctx) 0; s1 ← aget (state ctx) 1; s2 ← aget (state ctx) 2;
  s3 ← aget (state ctx) 3; s4 ← aget (state ctx) 4; s5 ← aget (state ctx) 5;
  s6 ← aget (state ctx) 6; s7 ← aget (state ctx) 7;
  v ← cfor 64 0 (round m) (mkVars s0 s1 s2 s3 s4 s5 s6 s7);
  Ok (mkCTX (data ctx) (datalen ctx) (bitlen ctx)
    [u32 (s0 + va v); u32 (s1 + vb v); u32 (s2 + vc v); u32 (s3 + vd v);
     u32 (s4 + ve v); u32 (s5 + vf v); u32 (s6 + vg v); u32 (s7 + vh v)]).

(** [sha256_init] leaves the [data] array as it finds it. *)
Definition sha256_init (ctx : SHA256_CTX) : SHA256_CTX :=
  mkCTX (data ctx) 0 0
    [0x6a09e667; 0xbb67ae85; 0x3c6ef372; 0xa54ff53a;
     0x510e527f; 0x9b05688c; 0x1f83d9ab; 0x5be0cd19].

(** Body of the loop of [sha256_update] for one input byte. *)
Definition update_byte (ctx : SHA256_CTX) (b : Z) : outcome SHA256_CTX :=
  d ← aset (data ctx) (datalen ctx) b;
  let n := u32 (datalen ctx + 1) in
  if n =? 64 then
    ctx' ← sha256_transform (mkCTX d n (bitlen ctx) (state ctx)) d;
    Ok (mkCTX (data ctx') 0 (u64 (bitlen ctx' + 512)) (state ctx'))
  else Ok (mkCTX d n (bitlen ctx) (state ctx)).

(** The loop: the counter [i] is a 32-bit [WORD], [len] a 64-bit [size_t]. *)
Fixpoint update_loop (fuel : nat) (ctx : SHA256_CTX) (dat : list Z) (len i : Z)
  : outcome SHA256_CTX :=
  match fuel with
  | O => NoFuel
  | S fuel =>
      if i <? len then
        b ← aget dat i; ctx' ← update_byte ctx b;
        update_loop fuel ctx' dat len (u32 (i + 1))
      else Ok ctx
  end.

Definition sha256_update (ctx : SHA256_CTX) (dat : list Z) (len : Z) : outcome SHA256_CTX :=
  update_loop (S (Z.to_nat len)) ctx dat len 0.

(** [while (i < lim) data[i++] = 0x00]. *)
Fixpoint zero_loop (fuel : nat) (d : list Z) (i lim : Z) : outcome (list Z) :=
  match fuel with
  | O => NoFuel
  | S fuel => if i <? lim then d' ← aset d i 0; zero_loop fuel d' (u32 (i + 1)) lim else Ok d
  end.

(** First half of [sha256_final]: padding of the last block(s). *)
Definition final_pad (ctx : SHA256_CTX) : outcome SHA256_CTX :=
  let i := datalen ctx in
  if datalen ctx <? 56 then
    d ← aset (data ctx) i 0x80;
    d ← zero_loop 64 d (u32 (i + 1)) 56;
    Ok (mkCTX d (datalen ctx) (bitlen ctx) (state ctx))
  else
    d ← aset (data ctx) i 0x80;
    d ← zero_loop 64 d (u32 (i + 1)) 64;
    ctx' ← sha256_transform (mkCTX d (datalen ctx) (bitlen ctx) (state ctx)) d;
    d ← cfor 56 0 (fun j d => aset d j 0) (data ctx');
    Ok (mkCTX d (datalen ctx') (bitlen ctx') (state ctx')).

(** The bit length, big-endian, in bytes 56 .. 63. *)
Definition final_length (d : list Z) (bl : Z) : outcome (list Z) :=
  d ← aset d 63 (u8 bl); d ← aset d 62 (u8 (bl >> 8)); d ← aset d 61 (u8 (bl >> 16));
  d ← aset d 60 (u8 (bl >> 24)); d ← aset d 59 (u8 (bl >> 32)); d ← aset d 58 (u8 (bl >> 40));
  d ← aset d 57 (u8 (bl >> 48)); aset d 56 (u8 (bl >> 56)).

(** The final loop: big-endian bytes of the eight state words. *)
Definition final_hash (st hash : list Z) : outcome (list Z) :=
  cfor 4 0 (fun i hash =>
    s0 ← aget st 0; hash ← aset hash i ((s0 >> (24 - i * 8)) & 0xff);
    s1 ← aget st 1; hash ← aset hash (i + 4) ((s1 >> (24 - i * 8)) & 0xff);
    s2 ← aget st 2; hash ← aset hash (i + 8) ((s2 >> (24 - i * 8)) & 0xff);
    s3 ← aget st 3; hash ← aset hash (i + 12) ((s3 >> (24 - i * 8)) & 0xff);
    s4 ← aget st 4; hash ← aset hash (i + 16) ((s4 >> (24 - i * 8)) & 0xff);
    s5 ← aget st 5; hash ← aset hash (i + 20) ((s5 >> (24 - i * 8)) & 0xff);
    s6 ← aget st 6; hash ← aset hash (i + 24) ((s6 >> (24 - i * 8)) & 0xff);
    s7 ← aget st 7; aset hash (i + 28) ((s7 >> (24 - i * 8)) & 0xff)) hash.

Definition sha256_final (ctx : SHA256_CTX) (hash : list Z) : outcome (SHA256_CTX * list Z) :=
  ctx ← final_pad ctx;
  let bl := u64 (bitlen ctx + u32 (datalen ctx * 8)) in
  d ← final_length (data ctx) bl;
  ctx ← sha256_transform (mkCTX d (datalen ctx) bl (state ctx)) d;
  h ← final_hash (state ctx) hash;
  Ok (ctx, h).

(** A caller: init, one update per chunk, final. *)
Fixpoint updates (ctx : SHA256_CTX) (chunks : list (list Z)) : outcome SHA256_CTX :=
  match chunks with
  | [] => Ok ctx
  | c :: cs => ctx' ← sha256_update ctx c (zlen c); updates ctx' cs
  end.

Definition digest (ctx : SHA256_CTX) (hash : list Z) (chunks : list (list Z)) : outcome (list Z) :=
  ctx' ← updates (sha256_init ctx) chunks;
  r ← sha256_final ctx' hash;
  Ok (snd r).

(** ** Specification

    The digest of a whole message, after FIPS 180: rotations and choice
    functions arithmetically and by bit selection, the schedule as a
    growing list, the padded message cut into 64-byte blocks. *)

Module Spec.
Definition rotr (n x : Z) : Z := x / 2 ^ n + x mod 2 ^ n * 2 ^ (32 - n).
Definition ch (x y z : Z) : Z := Z.lor (Z.land x y) (Z.ldiff z x).
Definition maj (x y z : Z) : Z := Z.lor (Z.lor (Z.land x y) (Z.land x z)) (Z.land y z).
Definition Sigma0 (x : Z) : Z := rotr 2 x ^^ rotr 13 x ^^ rotr 22 x.
Definition Sigma1 (x : Z) : Z := rotr 6 x ^^ rotr 11 x ^^ rotr 25 x.
Definition sigma0 (x : Z) : Z := rotr 7 x ^^ rotr 18 x ^^ x / 2 ^ 3.
Definition sigma1 (x : Z) : Z := rotr 17 x ^^ rotr 19 x ^^ x / 2 ^ 10.

(** Word [t] of a block, big-endian. *)
Definition word_at (blk : list Z) (t : Z) : Z :=
  zget blk (4 * t) * 2 ^ 24 + zget blk (4 * t + 1) * 2 ^ 16
  + zget blk (4 * t + 2) * 2 ^ 8 + zget blk (4 * t + 3).

(** The first [n] words of the message schedule. *)
Fixpoint schedule (blk : list Z) (n : nat) : list Z :=
  match n with
  | O => []
  | S t =>
      let w := schedule blk t in
      let i := Z.of_nat t in
      w ++ [if i <? 16 then word_at blk i
            else u32 (sigma1 (zget w (i - 2)) + zget w (i - 7)
                      + sigma0 (zget w (i - 15)) + zget w (i - 16))]
  end.

Definition step (w : list Z) (t : Z) (v : vars) : vars :=
  let T1 := vh v + Sigma1 (ve v) + ch (ve v) (vf v) (vg v) + zget k t + zget w t in
  let T2 := Sigma0 (va v) + maj (va v) (vb v) (vc v) in
  mkVars (u32 (T1 + T2)) (va v) (vb v) (vc v) (u32 (vd v + T1)) (ve v) (vf v) (vg v).

Fixpoint steps (w : list Z) (n : nat) (v : vars) : vars :=
  match n with O => v | S t => step w (Z.of_nat t) (steps w t v) end.

Definition vars_of (st : list Z) : vars :=
  mkVars (zget st 0) (zget st 1) (zget st 2) (zget st 3)
         (zget st 4) (zget st 5) (zget st 6) (zget st 7).

Definition compress (st blk : list Z) : list Z :=
  let v := steps (schedule blk 64) 64 (vars_of st) in
  [u32 (zget st 0 + va v); u32 (zget st 1 + vb v); u32 (zget st 2 + vc v);
   u32 (zget st 3 + vd v); u32 (zget st 4 + ve v); u32 (zget st 5 + vf v);
   u32 (zget st 6 + vg v); u32 (zget st 7 + vh v)].

(** The chaining value after [n] 64-byte blocks of [l]. *)
Fixpoint hash_blocks (n : nat) (st l : list Z) : list Z :=
  match n with
  | O => st
  | S n => hash_blocks n (compress st (take 64 l)) (drop 64 l)
  end.

Definition H0 : list Z :=
  [0x6a09e667; 0xbb67ae85; 0x3c6ef372; 0xa54ff53a;
   0x510e527f; 0x9b05688c; 0x1f83d9ab; 0x5be0cd19].

(** [n] bytes of [v], most significant first. *)
Fixpoint be_bytes (n : nat) (v : Z) : list Z :=
  match n with O => [] | S n => be_bytes n (v / 256) ++ [v mod 256] end.

Definition pad (msg : list Z) : list Z :=
  msg ++ [0x80] ++ replicate (Z.to_nat ((55 - zlen msg) mod 64)) 0 ++ be_bytes 8 (8 * zlen msg).

Definition sha256 (msg : list Z) : list Z :=
  let p := pad msg in
  mjoin (be_bytes 4 <$> hash_blocks (length p / 64) H0 p).
End Spec.

Example spec_abc : digest (mkCTX (replicate 64 7) 0 0 []) (replicate 32 0) [[97; 98; 99]]
                   = Ok (Spec.sha256 [97; 98; 99]).
Proof. vm_compute. reflexivity. Qed.

(** ** Word-level lemmas *)

Lemma ROTRIGHT_spec x n : in_u 32 x → 0 < n < 32 → ROTRIGHT x n = Spec.rotr n x.
Proof.
  intros Hx Hn. unfold ROTRIGHT, Spec.rotr.
  rewrite Z.shiftr_div_pow2, Z.shiftl_mul_pow2 by lia.
  assert (u32 (x * 2 ^ (32 - n)) = x mod 2 ^ n * 2 ^ (32 - n)) as ->.
  { unfold wrap. replace (2 ^ 32) with (2 ^ n * 2 ^ (32 - n)).
    - rewrite Z.mul_mod_distr_r; [done| |]; apply Z.pow_nonzero; lia.
    - rewrite <- Z.pow_add_r by lia. f_equal. lia. }
  rewrite Z.lor_comm, lor_shift_add; [lia|lia|].
  split; [apply Z.div_pos; [apply Hx|apply Z.pow_pos_nonneg; lia]|].
  apply Z.div_lt_upper_bound; [apply Z.pow_pos_nonneg; lia|].
  rewrite <- Z.pow_add_r by lia. replace (n + (32 - n)) with 32 by lia. apply Hx.
Qed.

Lemma CH_spec x y z : in_u 32 z → CH x y z = Spec.ch x y z.
Proof.
  intros Hz. unfold CH, Spec.ch. apply Z.bits_inj'; intros i Hi.
  rewrite Z.lxor_spec, Z.lor_spec, !Z.land_spec, Z.ldiff_spec, wrap_testbit, Z.lnot_spec by lia.
  destruct (Z.ltb_spec i 32); cbn.
  - by destruct (Z.testbit x i), (Z.testbit y i), (Z.testbit z i).
  - rewrite (testbit_in_u 32 z i) by (done || lia).
    by destruct (Z.testbit x i), (Z.testbit y i).
Qed.

Lemma MAJ_spec x y z : MAJ x y z = Spec.maj x y z.
Proof.
  unfold MAJ, Spec.maj. apply Z.bits_inj'; intros i Hi.
  rewrite !Z.lxor_spec, !Z.lor_spec, !Z.land_spec.
  by destruct (Z.testbit x i), (Z.testbit y i), (Z.testbit z i).
Qed.

Lemma EP0_spec x : in_u 32 x → EP0 x = Spec.Sigma0 x.
Proof. intros. unfold EP0, Spec.Sigma0. by rewrite !ROTRIGHT_spec by (done || lia). Qed.

Lemma EP1_spec x : in_u 32 x → EP1 x = Spec.Sigma1 x.
Proof. intros. unfold EP1, Spec.Sigma1. by rewrite !ROTRIGHT_spec by (done || lia). Qed.

Lemma SIG0_spec x : in_u 32 x → SIG0 x = Spec.sigma0 x.
Proof.
  intros. unfold SIG0, Spec.sigma0.
  by rewrite !ROTRIGHT_spec, Z.shiftr_div_pow2 by (done || lia).
Qed.

Lemma SIG1_spec x : in_u 32 x → SIG1 x = Spec.sigma1 x.
Proof.
  intros. unfold SIG1, Spec.sigma1.
  by rewrite !ROTRIGHT_spec, Z.shiftr_div_pow2 by (done || lia).
Qed.

Create Rewrite HintDb sha.
#[export] Hint Rewrite EP0_spec EP1_spec SIG0_spec SIG1_spec CH_spec MAJ_spec
  using (done || assumption) : sha.

Lemma be_word b0 b1 b2 b3 :
  in_u 8 b0 → in_u 8 b1 → in_u 8 b2 → in_u 8 b3 →
  u32 ((b0 << 24) .| (b1 << 16) .| (b2 << 8) .| b3)
  = b0 * 2 ^ 24 + b1 * 2 ^ 16 + b2 * 2 ^ 8 + b3.
Proof.
  intros H0 H1 H2 H3. unfold in_u in *.
  rewrite !Z.shiftl_mul_pow2, <- !Z.lor_assoc by lia.
  rewrite (lor_shift_add b2 b3 8) by (unfold in_u; lia).
  rewrite (lor_shift_add b1 _ 16) by (unfold in_u; lia).
  rewrite (lor_shift_add b0 _ 24) by (unfold in_u; lia).
  rewrite wrap_small by (unfold in_u; lia). lia.
Qed.

(** ** The compression function *)

Section transform.
  Context (blk : list Z) (Hlen : zlen blk = 64) (Hbytes : bytes_ok blk).

  Abbreviation Wn t := (zget (Spec.schedule blk 64) t).

Lemma schedule_S t :
  let w := Spec.schedule blk t in
  let i := Z.of_nat t in
  Spec.schedule blk (S t)
  = w ++ [if i <? 16 then Spec.word_at blk i
          else u32 (Spec.sigma1 (zget w (i - 2)) + zget w (i - 7)
                    + Spec.sigma0 (zget w (i - 15)) + zget w (i - 16))].
Proof. done. Qed.
#[local] Opaque Spec.schedule.

Lemma zlen_schedule n : zlen (Spec.schedule blk n) = Z.of_nat n.
Proof.
  induction n as [|n IH]; [done|]. rewrite schedule_S. cbn zeta. rewrite zlen_app, IH.
  unfold zlen. cbn. lia.
Qed.

Lemma schedule_prefix n m i :
  (n ≤ m)%nat → 0 ≤ i < Z.of_nat n →
  zget (Spec.schedule blk m) i = zget (Spec.schedule blk n) i.
Proof.
  intros Hnm Hi. induction Hnm as [|m Hnm IH]; [done|].
  rewrite schedule_S. cbn zeta. rewrite zget_app_l; [done|]. rewrite zlen_schedule. lia.
Qed.

Lemma schedule_word t :
  0 ≤ t < 64 →
  Wn t = if t <? 16 then Spec.word_at blk t
         else u32 (Spec.sigma1 (Wn (t - 2)) + Wn (t - 7) + Spec.sigma0 (Wn (t - 15)) + Wn (t - 16)).
Proof.
  intros Ht. assert (∃ n, t = Z.of_nat n) as [n ->] by (exists (Z.to_nat t); lia).
  rewrite (schedule_prefix (S n) 64), schedule_S by lia. cbn zeta.
  rewrite zget_app_r by (rewrite zlen_schedule; lia).
  rewrite zlen_schedule, Z.sub_diag, zget_singleton.
  case_bool; [done|]. by rewrite !(schedule_prefix n 64) by lia.
Qed.

Lemma word_at_range t : in_u 32 (Spec.word_at blk t).
Proof.
  unfold Spec.word_at, in_u.
  pose proof (bytes_ok_zget blk (4 * t) Hbytes). pose proof (bytes_ok_zget blk (4 * t + 1) Hbytes).
  pose proof (bytes_ok_zget blk (4 * t + 2) Hbytes). pose proof (bytes_ok_zget blk (4 * t + 3) Hbytes).
  unfold in_u in *. lia.
Qed.

Lemma schedule_range t : 0 ≤ t < 64 → in_u 32 (Wn t).
Proof.
  intros Ht. rewrite schedule_word by done.
  case_bool; [apply word_at_range|]. apply wrap_in_u. lia.
Qed.

(** The array [m] holds the first [i] words of the schedule. *)
Definition sched_inv (i : Z) (m : list Z) : Prop :=
  zlen m = 64 ∧ ∀ j, 0 ≤ j < i → zget m j = Wn j.

Lemma sched_inv_set i m :
  0 ≤ i < 64 → sched_inv i m →
  ∃ m', aset m i (Wn i) = Ok m' ∧ sched_inv (i + 1) m'.
Proof.
  intros Hi [Hm H]. rewrite aset_Ok by lia. eexists; split; [done|]. split.
  - by rewrite zlen_insert.
  - intros j Hj. rewrite zget_insert by lia. destruct (Z.eqb_spec i j) as [->|]; [done|].
    apply H. lia.
Qed.

Lemma load_block_spec :
  ∃ m, load_block blk (replicate 64 0) = Ok m ∧ sched_inv 16 m.
Proof.
  apply (cfor_inv sched_inv 16 0).
  - split; [done|]. lia.
  - intros i m Hi Hm. cbn [Z.of_nat] in Hi.
    cbn beta zeta. rewrite !aget_zget by lia. cbn [mbind outcome_bind]. rewrite be_word by (apply bytes_ok_zget; done).
    destruct (sched_inv_set i m) as (m' & E & H); [lia|done|].
    rewrite schedule_word, (proj2 (Z.ltb_lt i 16)) in E by lia. eauto.
Qed.

Lemma extend_block_spec m :
  sched_inv 16 m → ∃ m', extend_block m = Ok m' ∧ sched_inv 64 m'.
Proof.
  intros Hm. apply (cfor_inv sched_inv 48 16); [done|].
  intros i m' Hi Hm'. destruct (sched_inv_set i m') as (m'' & E & H); [lia|done|].
  destruct Hm' as [Hl Hw]. cbn beta. rewrite !aget_zget by lia.
  cbn [mbind outcome_bind]. rewrite !Hw by lia.
  rewrite SIG1_spec, SIG0_spec by (apply schedule_range; lia).
  rewrite schedule_word, (proj2 (Z.ltb_ge i 16)) in E by lia.
  unwrap_sums. rewrite ?Z.add_assoc in E. eauto.
Qed.

Definition vars_ok (v : vars) : Prop :=
  in_u 32 (va v) ∧ in_u 32 (vb v) ∧ in_u 32 (vc v) ∧ in_u 32 (vd v) ∧
  in_u 32 (ve v) ∧ in_u 32 (vf v) ∧ in_u 32 (vg v) ∧ in_u 32 (vh v).

Lemma step_ok t v : vars_ok v → vars_ok (Spec.step (Spec.schedule blk 64) t v).
Proof.
  unfold vars_ok, Spec.step. cbn. intros (?&?&?&?&?&?&?&?).
  split_conj; auto with cint.
Qed.

Lemma round_spec m t v :
  sched_inv 64 m → 0 ≤ t < 64 → vars_ok v →
  round m t v = Ok (Spec.step (Spec.schedule blk 64) t v).
Proof.
  intros [Hm Hw] Ht (?&?&?&?&?&?&?&?). unfold round, Spec.step.
  rewrite (aget_zget k) by (change (zlen k) with 64; lia). rewrite (aget_zget m) by lia. cbn [mbind outcome_bind].
  rewrite Hw by lia. autorewrite with sha.
  unwrap_sums. done.
Qed.

Lemma rounds_spec m v :
  sched_inv 64 m → vars_ok v →
  cfor 64 0 (round m) v = Ok (Spec.steps (Spec.schedule blk 64) 64 v).
Proof.
  intros Hm Hv.
  destruct (cfor_inv (λ i v', v' = Spec.steps (Spec.schedule blk 64) (Z.to_nat i) v ∧ vars_ok v')
    64 0 (round m) v) as (v' & E & Hv').
  - done.
  - intros j w Hj [-> Hw]. rewrite round_spec by (done || lia). eexists; split; [done|].
    split; [|by apply step_ok]. replace (Z.to_nat (j + 1)) with (S (Z.to_nat j)) by lia.
    cbn [Spec.steps]. by rewrite Z2Nat.id by lia.
  - destruct Hv' as [-> _]. done.
Qed.

Lemma transform_spec ctx :
  zlen (state ctx) = 8 → Forall (in_u 32) (state ctx) →
  sha256_transform ctx blk
  = Ok (mkCTX (data ctx) (datalen ctx) (bitlen ctx) (Spec.compress (state ctx) blk)).
Proof.
  intros Hs Hst. unfold sha256_transform.
  destruct load_block_spec as (m0 & -> & Hm0). cbn [mbind outcome_bind].
  destruct (extend_block_spec m0 Hm0) as (m & -> & Hm). cbn [mbind outcome_bind].
  rewrite !aget_zget by lia. cbn [mbind outcome_bind].
  rewrite rounds_spec; [done|done|].
  assert (∀ i, 0 ≤ i < 8 → in_u 32 (zget (state ctx) i)) as Hr.
  { intros i Hi. unfold zget. destruct (lookup_lt_is_Some_2 (state ctx) (Z.to_nat i)) as [x Hx].
    - unfold zlen in Hs. lia.
    - rewrite Hx. eapply Forall_lookup_1; eauto. }
  unfold vars_ok. split_conj; apply Hr; lia.
Qed.
End transform.

(** ** Blocks and padding *)

Lemma compress_ok st blk : zlen (Spec.compress st blk) = 8 ∧ Forall (in_u 32) (Spec.compress st blk).
Proof.
  split; [done|]. unfold Spec.compress. repeat apply Forall_cons_2; auto with cint.
Qed.

Lemma hash_blocks_ok n st l :
  zlen st = 8 ∧ Forall (in_u 32) st →
  zlen (Spec.hash_blocks n st l) = 8 ∧ Forall (in_u 32) (Spec.hash_blocks n st l).
Proof.
  revert st l. induction n as [|n IH]; intros st l H; [done|]. apply IH, compress_ok.
Qed.

Lemma H0_ok : zlen Spec.H0 = 8 ∧ Forall (in_u 32) Spec.H0.
Proof. split; [done|]. repeat apply Forall_cons_2; auto with cint. Qed.

Lemma hash_blocks_app n n' st l l' :
  length l = (64 * n)%nat →
  Spec.hash_blocks (n + n') st (l ++ l') = Spec.hash_blocks n' (Spec.hash_blocks n st l) l'.
Proof.
  revert st l. induction n as [|n IH]; intros st l Hl; cbn [Nat.add Spec.hash_blocks].
  - destruct l; [done|discriminate].
  - rewrite take_app_le, drop_app_le by lia. apply IH. rewrite length_drop. lia.
Qed.

Lemma hash_blocks_snoc n st l blk :
  length l = (64 * n)%nat → length blk = 64%nat →
  Spec.hash_blocks (S n) st (l ++ blk) = Spec.compress (Spec.hash_blocks n st l) blk.
Proof.
  intros Hl Hb. replace (S n) with (n + 1)%nat by lia. rewrite hash_blocks_app by done.
  cbn [Spec.hash_blocks]. by rewrite take_ge by lia.
Qed.

(** ** The streaming context

    [represents ctx msg]: the bytes absorbed so far are [msg]; the whole
    blocks among them are in the chaining value, the rest in [data]. *)
Definition represents (ctx : SHA256_CTX) (msg : list Z) : Prop :=
  ∃ n full rest,
    msg = full ++ rest ∧ length full = (64 * n)%nat ∧ (length rest < 64)%nat ∧
    datalen ctx = zlen rest ∧ take (length rest) (data ctx) = rest ∧
    length (data ctx) = 64%nat ∧ bytes_ok (data ctx) ∧
    state ctx = Spec.hash_blocks n Spec.H0 full ∧ bitlen ctx = u64 (8 * zlen full).

Lemma represents_init ctx :
  length (data ctx) = 64%nat → bytes_ok (data ctx) → represents (sha256_init ctx) [].
Proof. intros. exists 0%nat, [], []. cbn. repeat split; auto; lia. Qed.

Lemma take_S_insert {A} (l : list A) n x :
  (n < length l)%nat → take (S n) (<[n := x]> l) = take n l ++ [x].
Proof.
  intros. rewrite (take_S_r _ _ x), take_insert_ge by (lia || by apply list_lookup_insert_eq). done.
Qed.

Lemma update_byte_spec ctx msg b :
  represents ctx msg → in_u 8 b →
  ∃ ctx', update_byte ctx b = Ok ctx' ∧ represents ctx' (msg ++ [b]).
Proof.
  intros (n & full & rest & -> & Hf & Hr & Hdl & Ht & Hd & Hb & Hs & Hbl) HB.
  unfold update_byte, represents. rewrite Hdl. rewrite aset_Ok by (unfold zlen; lia). cbn [mbind outcome_bind].
  rewrite wrap_small by (unfold in_u, zlen; lia).
  replace (Z.to_nat (zlen rest)) with (length rest) by (unfold zlen; lia).
  set (d := <[length rest := b]> (data ctx)).
  assert (take (S (length rest)) d = rest ++ [b]) as Hd'.
  { unfold d. by rewrite take_S_insert, Ht by lia. }
  assert (length d = 64%nat) by (unfold d; by rewrite length_insert).
  assert (bytes_ok d) by (unfold d; by apply bytes_ok_insert).
  destruct (Z.eqb_spec (zlen rest + 1) 64) as [E|E].
  - unfold zlen in E. rewrite take_ge in Hd' by lia.
    rewrite transform_spec; cbn [state data datalen bitlen].
    + cbn [mbind outcome_bind]. eexists; split; [done|]. cbn [state data datalen bitlen].
      exists (S n), (full ++ d), []. rewrite <- app_assoc, <- Hd', app_nil_r, !length_app.
      repeat split; auto; try (cbn; lia).
      * by rewrite hash_blocks_snoc, Hs by lia.
      * rewrite Hbl, wrap_add_l, zlen_app by lia. f_equal. unfold zlen. lia.
    + unfold zlen. lia.
    + done.
    + rewrite Hs. apply hash_blocks_ok, H0_ok.
    + rewrite Hs. apply hash_blocks_ok, H0_ok.
  - eexists; split; [done|]. exists n, full, (rest ++ [b]). cbn [state data datalen bitlen].
    unfold zlen in *. rewrite app_assoc, length_app. cbn [length].
    replace (length rest + 1)%nat with (S (length rest)) by lia.
    repeat split; auto; lia.
Qed.

Lemma update_loop_spec fuel ctx msg dat i :
  represents ctx msg → bytes_ok dat → zlen dat < 2 ^ 32 → 0 ≤ i ≤ zlen dat →
  (Z.to_nat (zlen dat - i) < fuel)%nat →
  ∃ ctx', update_loop fuel ctx dat (zlen dat) i = Ok ctx' ∧
          represents ctx' (msg ++ drop (Z.to_nat i) dat).
Proof.
  revert ctx msg i. induction fuel as [|fuel IH]; intros ctx msg i HR Hb Hl Hi Hf; [lia|].
  cbn [update_loop]. destruct (Z.ltb_spec i (zlen dat)).
  - destruct (aget_is_Ok dat i) as [b Eb]; [lia|]. rewrite Eb. cbn [mbind outcome_bind].
    apply aget_Ok_inv in Eb as [_ Eb].
    destruct (update_byte_spec ctx msg b) as (ctx' & -> & HR'); [done|eapply Forall_lookup_1; eauto|].
    cbn [mbind outcome_bind]. rewrite wrap_small by (unfold in_u; lia).
    destruct (IH ctx' (msg ++ [b]) (i + 1)) as (ctx'' & -> & HR''); try lia; auto.
    eexists; split; [done|]. rewrite (drop_S _ _ _ Eb).
    replace (Z.to_nat (i + 1)) with (S (Z.to_nat i)) in HR'' by lia.
    by rewrite <- app_assoc in HR''.
  - exists ctx. split; [done|]. rewrite drop_ge by (unfold zlen in *; lia). by rewrite app_nil_r.
Qed.

Lemma sha256_update_spec ctx msg dat :
  represents ctx msg → bytes_ok dat → zlen dat < 2 ^ 32 →
  ∃ ctx', sha256_update ctx dat (zlen dat) = Ok ctx' ∧ represents ctx' (msg ++ dat).
Proof.
  intros. unfold sha256_update. pose proof (zlen_nonneg dat).
  destruct (update_loop_spec (S (Z.to_nat (zlen dat))) ctx msg dat 0) as (c & E & HR);
    try done; try lia. eauto.
Qed.

Lemma updates_spec ctx msg chunks :
  represents ctx msg → Forall (λ c, bytes_ok c ∧ zlen c < 2 ^ 32) chunks →
  ∃ ctx', updates ctx chunks = Ok ctx' ∧ represents ctx' (msg ++ mjoin chunks).
Proof.
  intros HR Hc. revert ctx msg HR. induction Hc as [|c cs [Hb Hl] _ IH]; intros ctx msg HR; cbn [updates].
  - exists ctx. by rewrite app_nil_r.
  - destruct (sha256_update_spec ctx msg c) as (ctx' & -> & HR'); auto.
    cbn [mbind outcome_bind]. change (mjoin (c :: cs)) with (c ++ mjoin cs).
    rewrite app_assoc. by apply IH.
Qed.

(** ** Finalisation *)

Lemma zero_loop_spec fuel d i lim :
  0 ≤ i → lim ≤ zlen d → lim < 2 ^ 32 → (Z.to_nat (lim - i) < fuel)%nat →
  zero_loop fuel d i lim
  = Ok (take (Z.to_nat i) d ++ replicate (Z.to_nat (lim - i)) 0 ++ drop (Z.to_nat i + Z.to_nat (lim - i)) d).
Proof.
  revert d i. induction fuel as [|fuel IH]; intros d i H0 Hd Hlim Hf; [lia|]. cbn [zero_loop].
  destruct (Z.ltb_spec i lim).
  - rewrite aset_Ok by lia. cbn [mbind outcome_bind]. rewrite wrap_small by (unfold in_u; lia).
    rewrite IH by (rewrite ?zlen_insert; lia). f_equal. unfold zlen in Hd.
    replace (Z.to_nat (i + 1)) with (S (Z.to_nat i)) by lia. rewrite take_S_insert by lia.
    replace (Z.to_nat (lim - i)) with (S (Z.to_nat (lim - (i + 1)))) by lia.
    rewrite <- app_assoc. cbn [replicate app]. do 3 f_equal.
    rewrite drop_insert_lt by lia. f_equal. lia.
  - replace (Z.to_nat (lim - i)) with 0%nat by lia. cbn [replicate app].
    by rewrite Nat.add_0_r, take_drop.
Qed.

Lemma memset_spec n (d : list Z) :
  (n ≤ length d)%nat →
  cfor n 0 (fun j d => aset d j 0) d = Ok (replicate n 0 ++ drop n d).
Proof.
  intros Hn.
  destruct (cfor_inv (λ i d', d' = replicate (Z.to_nat i) 0 ++ drop (Z.to_nat i) d) n 0
    (fun j d => aset d j 0) d) as (d' & E & H).
  - done.
  - intros j ? Hj ->. rewrite aset_Ok.
    + eexists; split; [done|]. rewrite insert_app_r_alt by (rewrite length_replicate; lia).
      rewrite length_replicate, Nat.sub_diag.
      destruct (lookup_lt_is_Some_2 d (Z.to_nat j)) as [x Hx]; [lia|].
      rewrite (drop_S _ _ _ Hx). cbn [insert list_insert].
      replace (Z.to_nat (j + 1)) with (Z.to_nat j + 1)%nat by lia.
      rewrite replicate_add, <- app_assoc. do 2 f_equal. by rewrite Nat.add_1_r.
    + rewrite zlen_app. unfold zlen. rewrite length_replicate, length_drop. lia.
  - rewrite E, H. by rewrite Z.add_0_l, Nat2Z.id.
Qed.

Lemma be_bytes_8 v :
  Spec.be_bytes 8 v = [u8 (v >> 56); u8 (v >> 48); u8 (v >> 40); u8 (v >> 32);
                       u8 (v >> 24); u8 (v >> 16); u8 (v >> 8); u8 v].
Proof.
  cbn [Spec.be_bytes app]. rewrite !Z.shiftr_div_pow2 by lia.
  rewrite !Z.div_div by lia. done.
Qed.

Lemma be_bytes_4 v :
  Spec.be_bytes 4 v = [(v >> 24) & 0xff; (v >> 16) & 0xff; (v >> 8) & 0xff; (v >> 0) & 0xff].
Proof.
  change 0xff with (Z.ones 8). rewrite !land_ones_wrap by lia.
  cbn [Spec.be_bytes app]. rewrite !Z.shiftr_div_pow2 by lia.
  rewrite !Z.div_div by lia. by rewrite Z.div_1_r.
Qed.

Lemma final_length_spec d bl :
  length d = 64%nat → final_length d bl = Ok (take 56 d ++ Spec.be_bytes 8 bl).
Proof.
  intros Hd. rewrite be_bytes_8. unfold final_length.
  do 64 (destruct d as [|? d]; [discriminate|]). destruct d; [|discriminate]. done.
Qed.

Lemma final_hash_spec st hash :
  zlen st = 8 → length hash = 32%nat → final_hash st hash = Ok (mjoin (Spec.be_bytes 4 <$> st)).
Proof.
  intros Hs Hh. unfold zlen in Hs.
  do 8 (destruct st as [|? st]; [discriminate|]). destruct st; [|cbn in Hs; lia].
  do 32 (destruct hash as [|? hash]; [discriminate|]). destruct hash; [|discriminate].
  cbn [fmap list_fmap]. rewrite !be_bytes_4. done.
Qed.

Lemma be_bytes_ok n v : bytes_ok (Spec.be_bytes n v) ∧ length (Spec.be_bytes n v) = n.
Proof.
  revert v. induction n as [|n IH]; intros v; [done|]. cbn [Spec.be_bytes].
  destruct (IH (v / 256)) as [Hb Hl]. rewrite length_app, Hl. cbn. split; [|lia].
  apply Forall_app_2; [done|]. repeat constructor; apply (wrap_range 8 v); lia.
Qed.

(** The bytes [final_pad] adds before the length field, for [r] buffered bytes. *)
Definition pad_zeros (r : Z) : list Z := 0x80 :: replicate (Z.to_nat ((55 - r) mod 64)) 0.

Lemma pad_zeros_small r : 0 ≤ r < 56 → pad_zeros r = 0x80 :: replicate (Z.to_nat (55 - r)) 0.
Proof. intros. unfold pad_zeros. by rewrite Z.mod_small by lia. Qed.

Lemma pad_zeros_large r :
  56 ≤ r < 64 → pad_zeros r = (0x80 :: replicate (Z.to_nat (63 - r)) 0) ++ replicate 56 0.
Proof.
  intros. unfold pad_zeros. cbn [app]. rewrite <- replicate_add. do 2 f_equal.
  rewrite <- (Z.mod_unique (55 - r) 64 (-1) (119 - r)) by lia. lia.
Qed.

Lemma pad_zeros_ok r : bytes_ok (pad_zeros r).
Proof. unfold pad_zeros. constructor; [unfold in_u; lia|]. apply Forall_replicate. unfold in_u. lia. Qed.

Lemma pad_mod full rest n :
  length full = (64 * n)%nat →
  Spec.pad (full ++ rest) = full ++ rest ++ pad_zeros (zlen rest) ++ Spec.be_bytes 8 (8 * zlen (full ++ rest)).
Proof.
  intros Hf. unfold Spec.pad, pad_zeros. rewrite <- !app_assoc. cbn [app]. do 3 f_equal.
  do 3 f_equal. rewrite zlen_app. unfold zlen at 1. rewrite Hf.
  replace (55 - (Z.of_nat (64 * n) + zlen rest)) with (55 - zlen rest + (- Z.of_nat n) * 64) by lia.
  apply Z.mod_add. lia.
Qed.

(** What [final_pad] leaves for the last block: whole blocks hashed, and the
    first 56 bytes of the block that the length field completes. *)
Definition padded (ctx : SHA256_CTX) (msg : list Z) : Prop :=
  ∃ n full blk,
    length (data ctx) = 64%nat ∧ take 56 (data ctx) = blk ∧ bytes_ok blk ∧
    length full = (64 * n)%nat ∧ state ctx = Spec.hash_blocks n Spec.H0 full ∧
    u64 (bitlen ctx + u32 (datalen ctx * 8)) = u64 (8 * zlen msg) ∧
    Spec.pad msg = full ++ blk ++ Spec.be_bytes 8 (8 * zlen msg).

Section final_pad.
  Context (ctx : SHA256_CTX) (full rest : list Z) (n : nat).
  Context (Hf : length full = (64 * n)%nat) (Hr : (length rest < 64)%nat)
          (Hdl : datalen ctx = zlen rest) (Ht : take (length rest) (data ctx) = rest)
          (Hd : length (data ctx) = 64%nat) (Hb : bytes_ok (data ctx))
          (Hs : state ctx = Spec.hash_blocks n Spec.H0 full)
          (Hbl : bitlen ctx = u64 (8 * zlen full)).

  Abbreviation filled lim := (rest ++ 0x80 :: replicate (Z.to_nat (lim - 1 - zlen rest)) 0).

Lemma filled_length lim : zlen rest < lim → length (filled lim) = Z.to_nat lim.
Proof.
  intros. rewrite length_app. cbn [length]. rewrite length_replicate. unfold zlen in *. lia.
Qed.

Lemma filled_bytes lim : bytes_ok (filled lim).
Proof.
  apply Forall_app_2; [rewrite <- Ht; by apply Forall_take|].
  constructor; [unfold in_u; lia|]. apply Forall_replicate. unfold in_u. lia.
Qed.

(** [data[i++] = 0x80; while (i < lim) data[i++] = 0x00]. *)
Lemma pad_loop lim :
  zlen rest < lim ≤ 64 →
  (d ← aset (data ctx) (zlen rest) 0x80; zero_loop 64 d (u32 (zlen rest + 1)) lim)
  = Ok (filled lim ++ drop (Z.to_nat lim) (data ctx)).
Proof.
  unfold zlen. intros Hlim. rewrite aset_Ok by (unfold zlen; lia). cbn [mbind outcome_bind].
  rewrite Nat2Z.id, wrap_small by (unfold in_u; lia).
  rewrite zero_loop_spec by (rewrite ?zlen_insert; unfold zlen; lia). f_equal.
  replace (Z.to_nat (Z.of_nat (length rest) + 1)) with (S (length rest)) by lia.
  rewrite take_S_insert, Ht, <- !app_assoc, drop_insert_lt by lia. cbn [app].
  do 4 f_equal; [lia|]. f_equal. lia.
Qed.

Lemma total_bits : u64 (bitlen ctx + u32 (datalen ctx * 8)) = u64 (8 * zlen (full ++ rest)).
Proof.
  rewrite Hdl, Hbl, zlen_app, (wrap_small 32) by (unfold in_u, zlen; lia).
  rewrite wrap_add_l by lia. f_equal. lia.
Qed.

Lemma final_pad_small :
  zlen rest < 56 → ∃ ctx', final_pad ctx = Ok ctx' ∧ padded ctx' (full ++ rest).
Proof.
  intros H. pose proof (zlen_nonneg rest). pose proof (pad_loop 56) as HL.
  pose proof (filled_length 56 H) as H56. pose proof (filled_bytes 56) as H56b.
  unfold final_pad. rewrite Hdl, (proj2 (Z.ltb_lt _ _) H).
  rewrite aset_Ok in * by (unfold zlen; lia). cbn [mbind outcome_bind] in *.
  rewrite HL by lia. cbn [mbind outcome_bind]. eexists; split; [done|].
  set (b0 := filled 56) in *. exists n, full, b0. cbn [state data datalen bitlen]. rewrite <- Hdl.
  split_conj; auto using total_bits.
  - rewrite length_app, H56, length_drop. lia.
  - by rewrite take_app_length' by lia.
  - rewrite (pad_mod _ _ n), pad_zeros_small by (done || lia).
    unfold b0. rewrite <- !app_assoc. by replace (56 - 1 - zlen rest) with (55 - zlen rest) by lia.
Qed.

Lemma final_pad_large :
  56 ≤ zlen rest → ∃ ctx', final_pad ctx = Ok ctx' ∧ padded ctx' (full ++ rest).
Proof.
  intros H. assert (zlen rest < 64) as H' by (unfold zlen; lia). pose proof (pad_loop 64) as HL.
  pose proof (filled_length 64 H') as H64. pose proof (filled_bytes 64) as H64b.
  unfold final_pad. rewrite Hdl, (proj2 (Z.ltb_ge _ _) H).
  rewrite aset_Ok in * by (unfold zlen; lia). cbn [mbind outcome_bind] in *.
  rewrite HL by lia. cbn [mbind outcome_bind]. rewrite drop_ge, app_nil_r by lia.
  set (b1 := filled 64) in *.
  rewrite transform_spec; cbn [state data datalen bitlen];
    [|unfold zlen; lia|done|rewrite Hs; apply hash_blocks_ok, H0_ok..].
  cbn [mbind outcome_bind state data datalen bitlen]. rewrite memset_spec by lia.
  cbn [mbind outcome_bind]. eexists; split; [done|].
  exists (S n), (full ++ b1), (replicate 56 0). cbn [state data datalen bitlen]. rewrite <- Hdl.
  split_conj; auto using total_bits.
  - rewrite length_app, length_replicate, length_drop. lia.
  - apply Forall_replicate. unfold in_u; lia.
  - rewrite length_app. lia.
  - by rewrite hash_blocks_snoc, Hs by lia.
  - rewrite (pad_mod _ _ n), pad_zeros_large by (done || lia).
    unfold b1. rewrite <- !app_assoc. cbn [app].
    by replace (64 - 1 - zlen rest) with (63 - zlen rest) by lia.
Qed.
End final_pad.

Lemma final_pad_spec ctx msg :
  represents ctx msg → ∃ ctx', final_pad ctx = Ok ctx' ∧ padded ctx' msg.
Proof.
  intros (n & full & rest & -> & Hf & Hr & Hdl & Ht & Hd & Hb & Hs & Hbl).
  destruct (Z.lt_ge_cases (zlen rest) 56).
  - by apply (final_pad_small ctx full rest n).
  - by apply (final_pad_large ctx full rest n).
Qed.

Lemma sha256_final_spec ctx msg hash :
  represents ctx msg → 8 * zlen msg < 2 ^ 64 → length hash = 32%nat →
  ∃ ctx', sha256_final ctx hash = Ok (ctx', Spec.sha256 msg).
Proof.
  intros HR Hm Hh. destruct (final_pad_spec ctx msg HR)
    as (ctx' & E & n & full & blk & Hd & Hblk & Hok & Hf & Hs & Hbl & Hp).
  unfold sha256_final. rewrite E. cbn [mbind outcome_bind]. rewrite Hbl.
  rewrite (wrap_small 64) by (pose proof (zlen_nonneg msg); unfold in_u; lia).
  rewrite final_length_spec, Hblk by done. cbn [mbind outcome_bind].
  destruct (be_bytes_ok 8 (8 * zlen msg)) as [Hb8 Hl8].
  assert (length blk = 56%nat) by (rewrite <- Hblk, length_take; lia).
  rewrite transform_spec; cbn [state data datalen bitlen].
  - cbn [mbind outcome_bind state]. rewrite final_hash_spec by (done || apply compress_ok).
    cbn [mbind outcome_bind]. eexists. do 2 f_equal. unfold Spec.sha256.
    rewrite Hp, !length_app, Hf, Hl8. replace (64 * n + (length blk + 8))%nat with (S n * 64)%nat by lia.
    rewrite Nat.div_mul by lia. rewrite hash_blocks_snoc, Hs; [done|done|].
    rewrite length_app. lia.
  - rewrite zlen_app. unfold zlen at 1 2. rewrite Hl8. lia.
  - by apply Forall_app_2.
  - rewrite Hs. apply hash_blocks_ok, H0_ok.
  - rewrite Hs. apply hash_blocks_ok, H0_ok.
Qed.

(** ** Theorems *)





End Sha256.
