(* ===== verification/I386Builtins.v ===== *)
(** * 64-bit arithmetic for 32-bit kernels
    ([MacKernelSDK/Library/kmod/i386_builtins.c])

    Shifts through the two 32-bit halves, bit counting by bisection and by
    parallel sums, and division by shift and subtract, each with its
    mathematical meaning. *)

From Stdlib Require Import ZArith Lia.
From S2P Require Import Prelude.

Module I386Builtins.

Open Scope c_scope.

(** ** Model *)

(** [arith64_word]: a 64-bit value seen as two unsigned 32-bit halves. *)
Record arith64_word := mkWord { hi : Z; lo : Z }.
Definition word_of (x : Z) : arith64_word := mkWord (u32 (x >> 32)) (u32 x).
Definition word_u64 (w : arith64_word) : Z := u32 (hi w) * 2 ^ 32 + u32 (lo w).
Definition word_s64 (w : arith64_word) : Z := s64 (word_u64 w).
Definition arith64_hi (n : Z) : Z := hi (word_of n).
Definition arith64_lo (n : Z) : Z := lo (word_of n).

(** [arith64_neg(a, b)] on a signed [a]: the increment overflows, which is
    undefined, when [~a + 1] does not fit. *)
Definition arith64_neg_s (a b : Z) : outcome Z :=
  let r := Z.lxor a (cbool (0 <=? b) - 1) + cbool (b <? 0) in
  if (- 2 ^ 63 <=? r) && (r <? 2 ^ 63) then Ok r else Ub.

(** [arith64_neg(a, b)] on an unsigned [a]: arithmetic modulo 2^64. *)
Definition arith64_neg_u (a b : Z) : Z :=
  u64 (Z.lxor a (u64 (cbool (0 <=? b) - 1)) + cbool (b <? 0)).

Definition arith64_abs (a : Z) : outcome Z := arith64_neg_s a a.

Definition __absvdi2 (a : Z) : outcome Z := arith64_abs a.

Definition __ashldi3 (a b : Z) : Z :=
  let w := word_of a in
  let b := b & 63 in
  let w :=
    if 32 <=? b then mkWord (u32 (lo w << (b - 32))) 0
    else if ctrue b then mkWord ((lo w >> (32 - b)) .| u32 (hi w << b)) (u32 (lo w << b))
    else w in
  word_s64 w.

Definition __ashrdi3 (a b : Z) : Z :=
  let w := word_of a in
  let b := b & 63 in
  let w :=
    if 32 <=? b then mkWord (u32 (s32 (hi w) >> 31)) (u32 (s32 (hi w) >> (b - 32)))
    else if ctrue b then mkWord (u32 (s32 (hi w) >> b)) (u32 (hi w << (32 - b)) .| (lo w >> b))
    else w in
  word_s64 w.

Definition __lshrdi3 (a b : Z) : Z :=
  let w := word_of a in
  let b := b & 63 in
  let w :=
    if 32 <=? b then mkWord 0 (hi w >> (b - 32))
    else if ctrue b then mkWord (hi w >> b) (u32 (hi w << (32 - b)) .| (lo w >> b))
    else w in
  word_u64 w.

(** One line [b = !(a & mask) << s; n += b; a <<= b;] of a [clz]. *)
Definition clz_step (w mask s : Z) (p : Z * Z) : Z * Z :=
  let (n, a) := p in
  let b := cbool (negb (ctrue (a & mask))) << s in
  (n + b, wrap w (a << b)).

(** One line [b = !(a & mask) << s; n += b; a >>= b;] of a [ctz]. *)
Definition ctz_step (mask s : Z) (p : Z * Z) : Z * Z :=
  let (n, a) := p in
  let b := cbool (negb (ctrue (a & mask))) << s in
  (n + b, a >> b).

Definition __clzsi2 (a : Z) : Z :=
  let p := (0, a) in
  let p := clz_step 32 0xffff0000 4 p in
  let p := clz_step 32 0xff000000 3 p in
  let p := clz_step 32 0xf0000000 2 p in
  let p := clz_step 32 0xc0000000 1 p in
  fst p + cbool (negb (ctrue (snd p & 0x80000000))).

Definition __clzdi2 (a : Z) : Z :=
  let p := (0, a) in
  let p := clz_step 64 0xffffffff00000000 5 p in
  let p := clz_step 64 0xffff000000000000 4 p in
  let p := clz_step 64 0xff00000000000000 3 p in
  let p := clz_step 64 0xf000000000000000 2 p in
  let p := clz_step 64 0xc000000000000000 1 p in
  fst p + cbool (negb (ctrue (snd p & 0x8000000000000000))).

Definition __ctzsi2 (a : Z) : Z :=
  let p := (0, a) in
  let p := ctz_step 0x0000ffff 4 p in
  let p := ctz_step 0x000000ff 3 p in
  let p := ctz_step 0x0000000f 2 p in
  let p := ctz_step 0x00000003 1 p in
  fst p + cbool (negb (ctrue (snd p & 0x00000001))).

Definition __ctzdi2 (a : Z) : Z :=
  let p := (0, a) in
  let p := ctz_step 0x00000000ffffffff 5 p in
  let p := ctz_step 0x000000000000ffff 4 p in
  let p := ctz_step 0x00000000000000ff 3 p in
  let p := ctz_step 0x000000000000000f 2 p in
  let p := ctz_step 0x0000000000000003 1 p in
  fst p + cbool (negb (ctrue (snd p & 0x0000000000000001))).

Definition __ffsdi2 (a : Z) : Z := if ctrue a then __ctzdi2 a + 1 else 0.

(** The shift-and-subtract loop of [__divmoddi4]; result [(rem, a, wrap)]. *)
Fixpoint div_loop (fuel : nat) (b bits rem a wr : Z) : outcome (Z * Z * Z) :=
  match fuel with
  | O => NoFuel
  | S fuel =>
      if 0 <? bits then
        let rem := u64 (rem << 1) .| (a >> 63) in
        let a := u64 (a << 1) .| (wr & 1) in
        let wr := u64 (s64 (u64 (b - rem - 1)) >> 63) in
        let rem := u64 (rem - (b & wr)) in
        div_loop fuel b (s8 (bits - 1)) rem a wr
      else Ok (rem, a, wr)
  end.

(** Quotient and the remainder stored through [c]. *)
Definition __divmoddi4 (a b : Z) : outcome (Z * Z) :=
  if a <? b then Ok (0, a)
  else if (arith64_hi b =? 0) && (b =? 0) then Ub
  else if (arith64_hi b =? 0) && (b =? 1) then Ok (a, 0)
  else if (arith64_hi b =? 0) && (arith64_hi a =? 0) then
    Ok (arith64_lo a / arith64_lo b, arith64_lo a mod arith64_lo b)
  else
    let bits := s8 (__clzdi2 b - __clzdi2 a + 1) in
    r ← div_loop 65 b bits (a >> bits) (u64 (a << (64 - bits))) 0;
    let '(rem, a, wr) := r in
    Ok (u64 (a << 1) .| (wr & 1), rem).

Definition __divdi3 (a b : Z) : outcome Z :=
  a' ← arith64_abs a; b' ← arith64_abs b;
  r ← __divmoddi4 (u64 a') (u64 b');
  Ok (s64 (arith64_neg_u (fst r) (Z.lxor a b))).

Definition __moddi3 (a b : Z) : outcome Z :=
  a' ← arith64_abs a; b' ← arith64_abs b;
  r ← __divmoddi4 (u64 a') (u64 b');
  Ok (s64 (arith64_neg_u (snd r) a)).

Definition __udivdi3 (a b : Z) : outcome Z := r ← __divmoddi4 a b; Ok (fst r).
Definition __umoddi3 (a b : Z) : outcome Z := r ← __divmoddi4 a b; Ok (snd r).

Definition __popcountsi2 (a : Z) : Z :=
  let a := u32 (a - ((a >> 1) & 0x55555555)) in
  let a := u32 (((a >> 2) & 0x33333333) + (a & 0x33333333)) in
  let a := u32 (a + (a >> 4)) & 0x0F0F0F0F in
  let a := u32 (a + (a >> 16)) in
  u32 (a + (a >> 8)) & 63.

Definition __popcountdi2 (a : Z) : Z :=
  let a := u64 (a - ((a >> 1) & 0x5555555555555555)) in
  let a := u64 (((a >> 2) & 0x3333333333333333) + (a & 0x3333333333333333)) in
  let a := u64 (a + (a >> 4)) & 0x0F0F0F0F0F0F0F0F in
  let a := u64 (a + (a >> 32)) in
  let a := u64 (a + (a >> 16)) in
  u64 (a + (a >> 8)) & 127.

Example divdi3_ex : __divdi3 (-1000000000007) 1234567 = Ok (Z.quot (-1000000000007) 1234567).
Proof. vm_compute. reflexivity. Qed.
Example udiv_ex : __divmoddi4 (2 ^ 64 - 1) (2 ^ 63 + 5) = Ok (1, 2 ^ 64 - 1 - (2 ^ 63 + 5)).
Proof. vm_compute. reflexivity. Qed.
Example pop_ex : (__popcountdi2 (2 ^ 64 - 1), __popcountsi2 0xF0F0, __clzdi2 1, __ctzsi2 0x80) = (64, 8, 63, 7).
Proof. vm_compute. reflexivity. Qed.

(** ** Leading and trailing zeros *)

Lemma pow2_pos n : 0 ≤ n → 0 < 2 ^ n.
Proof. intros. apply Z.pow_pos_nonneg; lia. Qed.

Lemma land_shiftl_r a x m : 0 ≤ m → Z.land a (x << m) = Z.land (a >> m) x << m.
Proof.
  intros Hm. apply Z.bits_inj'; intros i Hi.
  rewrite Z.land_spec, !Z.shiftl_spec, Z.land_spec by lia.
  destruct (Z.lt_ge_cases i m).
  - by rewrite (Z.testbit_neg_r x), (Z.testbit_neg_r (a >> m)), !andb_false_r by lia.
  - rewrite Z.shiftr_spec by lia. by replace (i - m + m) with i by lia.
Qed.

(** A mask of the top [kk] bits of a [w]-bit word tests for [a >= 2^(w-kk)]. *)
Lemma top_mask_test w kk a :
  0 ≤ kk ≤ w → in_u w a → ctrue (a & (Z.ones kk << (w - kk))) = (2 ^ (w - kk) <=? a).
Proof.
  intros Hk [Ha0 Ha1]. rewrite land_shiftl_r, Z.land_ones, Z.shiftr_div_pow2, Z.shiftl_mul_pow2 by lia.
  pose proof (pow2_pos (w - kk) ltac:(lia)). pose proof (pow2_pos kk ltac:(lia)).
  assert (2 ^ w = 2 ^ (w - kk) * 2 ^ kk) as Hw by (rewrite <- Z.pow_add_r by lia; f_equal; lia).
  rewrite Z.mod_small by (split; [apply Z.div_pos; lia|apply Z.div_lt_upper_bound; lia]).
  destruct (Z.leb_spec (2 ^ (w - kk)) a).
  - apply ctrue_true. pose proof (Z.div_le_lower_bound a (2 ^ (w - kk)) 1). nia.
  - apply ctrue_false. rewrite Z.div_small by lia. lia.
Qed.

(** Invariant of the [clz] bisection: [a = a0 * 2^n] has fewer than [K] leading zeros. *)
Definition clz_inv (w a0 K : Z) (p : Z * Z) : Prop :=
  0 ≤ fst p ∧ snd p = a0 * 2 ^ fst p ∧ 2 ^ (w - K) ≤ snd p < 2 ^ w.

Lemma clz_step_inv w a0 kk s mask p :
  0 ≤ s → kk = 2 ^ s → 2 * kk ≤ w → mask = Z.ones kk << (w - kk) →
  clz_inv w a0 (2 * kk) p → clz_inv w a0 kk (clz_step w mask s p).
Proof.
  intros Hs -> Hw -> (Hn & Ha & Hr). destruct p as [n a]. cbn [fst snd] in *.
  unfold clz_inv, clz_step. pose proof (pow2_pos s Hs). pose proof (pow2_pos (w - 2 * 2 ^ s) ltac:(lia)).
  rewrite top_mask_test by (unfold in_u; lia).
  pose proof (pow2_pos (w - 2 ^ s) ltac:(lia)). pose proof (pow2_pos (2 ^ s) ltac:(lia)).
  pose proof (pow2_pos n Hn).
  destruct (Z.leb_spec (2 ^ (w - 2 ^ s)) a); cbn [fst snd negb cbool].
  - rewrite Z.shiftl_0_l, Z.add_0_r, Z.shiftl_0_r, wrap_small by (unfold in_u; lia).
    split_conj; lia || done.
  - assert (2 ^ w = 2 ^ (w - 2 ^ s) * 2 ^ 2 ^ s) as E1 by (rewrite <- Z.pow_add_r by lia; f_equal; lia).
    assert (2 ^ (w - 2 ^ s) = 2 ^ (w - 2 * 2 ^ s) * 2 ^ 2 ^ s) as E2
      by (rewrite <- Z.pow_add_r by lia; f_equal; lia).
    rewrite (Z.shiftl_mul_pow2 1), Z.mul_1_l, Z.shiftl_mul_pow2 by lia.
    rewrite wrap_small by (unfold in_u; nia).
    split_conj; [lia| |nia|nia]. rewrite Ha, Z.pow_add_r by lia. lia.
Qed.

Lemma clz_result w a0 p mask :
  0 < a0 → 0 < w → mask = Z.ones 1 << (w - 1) → clz_inv w a0 2 p → 2 ≤ w →
  fst p + cbool (negb (ctrue (snd p & mask))) = w - 1 - Z.log2 a0.
Proof.
  intros Ha Hw -> HI Hw2. pose proof (clz_step_inv w a0 1 0 (Z.ones 1 << (w - 1)) p) as H.
  specialize (H ltac:(lia) eq_refl ltac:(lia) eq_refl HI). unfold clz_step in H.
  destruct p as [n a]. cbn [fst snd] in *. rewrite Z.shiftl_0_r in H.
  destruct H as (Hn & E & Hr). cbn [fst snd] in *. rewrite E in Hr.
  set (r := n + _) in *. assert (Z.log2 (a0 * 2 ^ r) = w - 1) as L.
  { apply Z.log2_unique; [lia|]. replace (Z.succ (w - 1)) with w by lia. lia. }
  rewrite Z.log2_mul_pow2 in L by lia. lia.
Qed.

Lemma clzsi2_log2 a : 0 < a < 2 ^ 32 → __clzsi2 a = 31 - Z.log2 a.
Proof.
  intros Ha. apply (clz_result 32 a); try lia; [done|].
  apply (clz_step_inv 32 a 2 1); try done. apply (clz_step_inv 32 a 4 2); try done.
  apply (clz_step_inv 32 a 8 3); try done. apply (clz_step_inv 32 a 16 4); try done.
  unfold clz_inv; cbn; lia.
Qed.

Lemma clzdi2_log2 a : 0 < a < 2 ^ 64 → __clzdi2 a = 63 - Z.log2 a.
Proof.
  intros Ha. apply (clz_result 64 a); try lia; [done|].
  apply (clz_step_inv 64 a 2 1); try done. apply (clz_step_inv 64 a 4 2); try done.
  apply (clz_step_inv 64 a 8 3); try done. apply (clz_step_inv 64 a 16 4); try done.
  apply (clz_step_inv 64 a 32 5); try done. unfold clz_inv; cbn; lia.
Qed.

(** Invariant of the [ctz] bisection: [a0 = a * 2^n] and [a] has a one among its low [K] bits. *)
Definition ctz_inv (a0 K : Z) (p : Z * Z) : Prop :=
  0 ≤ fst p ∧ a0 = snd p * 2 ^ fst p ∧ snd p mod 2 ^ K ≠ 0.

Lemma ctz_step_inv a0 kk s mask p :
  0 ≤ s → kk = 2 ^ s → mask = Z.ones kk →
  ctz_inv a0 (2 * kk) p →
  ctz_inv a0 kk (ctz_step mask s p) ∧
  (fst (ctz_step mask s p) = fst p ∨ fst (ctz_step mask s p) = fst p + kk).
Proof.
  intros Hs -> -> (Hn & Ha & Hr). destruct p as [n a]. cbn [fst snd] in *.
  unfold ctz_inv, ctz_step. pose proof (pow2_pos s Hs). rewrite Z.land_ones by lia.
  pose proof (pow2_pos (2 ^ s) ltac:(lia)).
  unfold ctrue. destruct (Z.eqb_spec (a mod 2 ^ 2 ^ s) 0) as [E|E]; cbn [fst snd negb cbool].
  - rewrite (Z.shiftl_mul_pow2 1), Z.mul_1_l, Z.shiftr_div_pow2 by lia.
    apply Z.div_exact in E; [|lia]. split; [|lia]. split_conj; [lia| |].
    + rewrite Ha, E at 1. rewrite Z.pow_add_r by lia. nia.
    + intros E2. apply Hr. replace (2 * 2 ^ s) with (2 ^ s + 2 ^ s) by lia.
      rewrite Z.pow_add_r, Z.rem_mul_r by lia.
      rewrite E2, Z.mul_0_r, Z.add_0_r. rewrite E. rewrite Z.mul_comm. by apply Z.mod_mul; lia.
  - rewrite Z.shiftl_0_l, Z.add_0_r, Z.shiftr_0_r. split; [|lia]. done.
Qed.

(** [r] is the number of trailing zeros of [a]. *)
Definition trailing_zeros (a r : Z) : Prop :=
  0 ≤ r ∧ a mod 2 ^ r = 0 ∧ Z.odd (a / 2 ^ r) = true.

Lemma ctz_result a0 p :
  ctz_inv a0 2 p → trailing_zeros a0 (fst p + cbool (negb (ctrue (snd p & 1)))).
Proof.
  intros HI. destruct (ctz_step_inv a0 1 0 1 p) as [H _]; try done.
  unfold ctz_step in H. destruct p as [n a]. cbn [fst snd] in *. rewrite Z.shiftl_0_r in H.
  set (r := n + _) in *. destruct H as (Hn & E & Hr). cbn [fst snd] in *.
  set (x := a >> _) in *. pose proof (pow2_pos r Hn). unfold trailing_zeros. rewrite E. split_conj.
  - done.
  - by apply Z.mod_mul; lia.
  - rewrite Z.div_mul by lia. rewrite Zodd_mod. apply Z.eqb_eq.
    change (2 ^ 1) with 2 in Hr. pose proof (Z.mod_pos_bound x 2). lia.
Qed.

Lemma ctzdi2_spec a : 0 < a < 2 ^ 64 → trailing_zeros a (__ctzdi2 a).
Proof.
  intros Ha. apply ctz_result.
  apply (ctz_step_inv a 2 1); try done. apply (ctz_step_inv a 4 2); try done.
  apply (ctz_step_inv a 8 3); try done. apply (ctz_step_inv a 16 4); try done.
  apply (ctz_step_inv a 32 5); try done. unfold ctz_inv; cbn [fst snd].
  rewrite Z.mod_small by lia. lia.
Qed.

Lemma ctzsi2_spec a : 0 < a < 2 ^ 32 → trailing_zeros a (__ctzsi2 a).
Proof.
  intros Ha. apply ctz_result.
  apply (ctz_step_inv a 2 1); try done. apply (ctz_step_inv a 4 2); try done.
  apply (ctz_step_inv a 8 3); try done. apply (ctz_step_inv a 16 4); try done.
  unfold ctz_inv; cbn [fst snd]. rewrite Z.mod_small by lia. lia.
Qed.

(** ** Shifts *)

Section shifts.
  Context (P Q b : Z) (Hb : 0 < b < 32) (HP : P = 2 ^ b) (HQ : Q = 2 ^ (32 - b)).

Lemma PQ : P * Q = 2 ^ 32.
Proof. rewrite HP, HQ, <- Z.pow_add_r by lia. f_equal. lia. Qed.

Lemma P_pos : 0 < P ∧ 0 < Q.
Proof. rewrite HP, HQ. split; apply pow2_pos; lia. Qed.

(** [u32 (H << b)] keeps the low [32-b] bits of [H]. *)
Lemma shl_high H : u32 (H * P) = H mod Q * P.
Proof.
  unfold wrap. rewrite <- PQ, (Z.mul_comm P Q). destruct P_pos. by rewrite Z.mul_mod_distr_r by lia.
Qed.

Lemma shr_bound L : in_u 32 L → 0 ≤ L / Q < P.
Proof.
  intros [H0 H1]. destruct P_pos. pose proof PQ.
  split; [apply Z.div_pos; lia|apply Z.div_lt_upper_bound; lia].
Qed.
End shifts.

Lemma word_split a : u64 a = u32 (a >> 32) * 2 ^ 32 + u32 a.
Proof.
  rewrite Z.shiftr_div_pow2 by lia. unfold wrap.
  change (2 ^ 64) with (2 ^ 32 * 2 ^ 32). rewrite Z.rem_mul_r by lia. lia.
Qed.

Lemma word_parts_range a : in_u 32 (hi (word_of a)) ∧ in_u 32 (lo (word_of a)).
Proof. split; apply wrap_in_u; lia. Qed.

Lemma shift_amount b : b & 63 = b mod 64.
Proof. change 63 with (Z.ones 6). by rewrite Z.land_ones by lia. Qed.

Lemma word_u64_mk h l : in_u 32 h → in_u 32 l → word_u64 (mkWord h l) = h * 2 ^ 32 + l.
Proof. intros. unfold word_u64. cbn. by rewrite !wrap_small. Qed.

(** The [0 < b < 32] branch of the left shift, on the halves [H] and [L]. *)
Lemma shl_small H L c :
  0 < c < 32 → in_u 32 H → in_u 32 L →
  word_u64 (mkWord ((L >> (32 - c)) .| u32 (H << c)) (u32 (L << c))) = u64 ((H * 2 ^ 32 + L) * 2 ^ c).
Proof.
  intros Hc HH HL. pose proof (PQ _ _ c ltac:(lia) eq_refl eq_refl) as HPQ.
  pose proof (P_pos _ _ c ltac:(lia) eq_refl eq_refl) as [HP HQ].
  pose proof (shr_bound _ _ c ltac:(lia) eq_refl eq_refl L HL) as HB.
  rewrite !Z.shiftl_mul_pow2, Z.shiftr_div_pow2 by lia.
  rewrite (shl_high (2 ^ c) (2 ^ (32 - c)) c) by (done || lia).
  rewrite Z.lor_comm, lor_shift_add by (done || lia).
  pose proof (Z.mod_pos_bound H (2 ^ (32 - c)) HQ) as HM.
  rewrite word_u64_mk by (auto with cint; unfold in_u; nia).
  unfold wrap. apply Z.mod_unique_pos with (q := H / 2 ^ (32 - c)).
  - pose proof (Z.mod_pos_bound (L * 2 ^ c) (2 ^ 32) ltac:(lia)). nia.
  - assert (H * 2 ^ c = 2 ^ 32 * (H / 2 ^ (32 - c)) + H mod 2 ^ (32 - c) * 2 ^ c) as E3.
    { rewrite (Z.div_mod H (2 ^ (32 - c))) at 1 by lia. rewrite <- HPQ. ring. }
    assert (L * 2 ^ c / 2 ^ 32 = L / 2 ^ (32 - c)) as E.
    { rewrite <- HPQ, (Z.mul_comm (2 ^ c)). by rewrite Z.div_mul_cancel_r by lia. }
    pose proof (Z.div_mod (L * 2 ^ c) (2 ^ 32) ltac:(lia)) as E2. rewrite E in E2.
    replace ((H * 2 ^ 32 + L) * 2 ^ c) with (2 ^ 32 * (H * 2 ^ c) + L * 2 ^ c) by ring.
    rewrite E3, E2 at 1. ring.
Qed.

(** The low half of a right shift by [0 < b < 32]; [Hs] is any integer whose
    low 32 bits are the high half. *)
Lemma shr_small Hs L c :
  0 < c < 32 → in_u 32 L →
  in_u 32 (u32 (u32 Hs << (32 - c)) .| (L >> c)) ∧
  (Hs * 2 ^ 32 + L) / 2 ^ c = Hs / 2 ^ c * 2 ^ 32 + (u32 (u32 Hs << (32 - c)) .| (L >> c)).
Proof.
  intros Hc HL. pose proof (PQ _ _ (32 - c) ltac:(lia) eq_refl eq_refl) as HPQ.
  pose proof (P_pos _ _ (32 - c) ltac:(lia) eq_refl eq_refl) as [HP HQ].
  pose proof (shr_bound _ _ (32 - c) ltac:(lia) eq_refl eq_refl L HL) as HB.
  replace (32 - (32 - c)) with c in * by lia.
  rewrite Z.shiftl_mul_pow2, Z.shiftr_div_pow2 by lia.
  replace (u32 (u32 Hs * 2 ^ (32 - c))) with (u32 (Hs * 2 ^ (32 - c)))
    by (unfold wrap; by rewrite Z.mul_mod_idemp_l by lia).
  rewrite (shl_high (2 ^ (32 - c)) (2 ^ c) (32 - c)) by (lia || f_equal; lia).
  rewrite lor_shift_add by (done || lia).
  pose proof (Z.mod_pos_bound Hs (2 ^ c) ltac:(lia)) as HM. split; [unfold in_u; nia|].
  rewrite <- HPQ. replace (Hs * (2 ^ (32 - c) * 2 ^ c) + L) with (L + Hs * 2 ^ (32 - c) * 2 ^ c) by ring.
  rewrite Z.div_add by lia. rewrite (Z.div_mod Hs (2 ^ c)) at 1 by lia. ring.
Qed.

Lemma u64_mul_l a x : u64 (u64 a * x) = u64 (a * x).
Proof. unfold wrap. by rewrite Z.mul_mod_idemp_l by lia. Qed.

Lemma ashldi3_mul a b : __ashldi3 a b = s64 (a * 2 ^ (b mod 64)).
Proof.
  unfold __ashldi3, word_s64. rewrite shift_amount. pose proof (Z.mod_pos_bound b 64 ltac:(lia)) as Hb.
  set (c := b mod 64) in *. rewrite <- (swrap_wrap 64 (a * 2 ^ c)), <- u64_mul_l by lia. f_equal.
  rewrite (word_split a). destruct (word_parts_range a) as [HH HL].
  cbn [word_of hi lo] in *. set (H := u32 (a >> 32)) in *. set (L := u32 a) in *.
  destruct (Z.leb_spec 32 c) as [Hc|Hc].
  - rewrite word_u64_mk by auto with cint. rewrite Z.shiftl_mul_pow2 by lia.
    rewrite Z.add_0_r. unfold wrap. rewrite <- Z.mul_mod_distr_r by lia.
    change (2 ^ 32 * 2 ^ 32) with (2 ^ 64). symmetry.
    replace ((H * 2 ^ 32 + L) * 2 ^ c) with (L * 2 ^ (c - 32) * 2 ^ 32 + H * 2 ^ (c - 32) * 2 ^ 64).
    + apply Z_mod_plus_full.
    + assert (2 ^ c = 2 ^ (c - 32) * 2 ^ 32) as -> by (rewrite <- Z.pow_add_r by lia; f_equal; lia). lia.
  - unfold ctrue. destruct (Z.eqb_spec c 0) as [->|Hc0]; cbn [negb].
    + rewrite Z.mul_1_r. change (word_of a) with (mkWord H L).
      rewrite word_u64_mk by done. rewrite wrap_small; [done|]. unfold in_u in *. lia.
    + apply shl_small; done || lia.
Qed.

Lemma div_pow_split x c : 32 ≤ c → x / 2 ^ c = x / 2 ^ 32 / 2 ^ (c - 32).
Proof.
  intros. rewrite Z.div_div by (pose proof (pow2_pos (c - 32) ltac:(lia)); lia).
  rewrite <- Z.pow_add_r by lia. do 2 f_equal. lia.
Qed.

Lemma lshrdi3_div a b : in_u 64 a → __lshrdi3 a b = a / 2 ^ (b mod 64).
Proof.
  intros Ha. unfold __lshrdi3. rewrite shift_amount. pose proof (Z.mod_pos_bound b 64 ltac:(lia)) as Hb.
  set (c := b mod 64) in *. pose proof (word_split a) as E. rewrite (wrap_small 64 a Ha) in E.
  destruct (word_parts_range a) as [HH HL]. cbn [word_of hi lo] in *.
  set (H := u32 (a >> 32)) in *. set (L := u32 a) in *.
  destruct (Z.leb_spec 32 c) as [Hc|Hc].
  - rewrite word_u64_mk by auto with cint. rewrite div_pow_split, E, Z.shiftr_div_pow2 by lia.
    unfold in_u in HL. rewrite Z.div_add_l, (Z.div_small L) by lia. by rewrite Z.add_0_r.
  - unfold ctrue. destruct (Z.eqb_spec c 0) as [->|Hc0]; cbn [negb].
    + change (word_of a) with (mkWord H L). by rewrite word_u64_mk, Z.div_1_r by done.
    + destruct (shr_small H L c) as [HR HE]; [lia|done|]. rewrite (wrap_small 32 H HH) in *.
      rewrite word_u64_mk by auto with cint. rewrite E, HE, (Z.shiftr_div_pow2 H) by lia. done.
Qed.

Lemma s32_split a : - 2 ^ 63 ≤ a < 2 ^ 63 → s32 (u32 (a >> 32)) = a / 2 ^ 32.
Proof.
  intros Ha. rewrite swrap_wrap, Z.shiftr_div_pow2 by lia. apply swrap_small; [lia|].
  change (2 ^ (32 - 1)) with (2 ^ 31).
  split; [apply Z.div_le_lower_bound; lia|apply Z.div_lt_upper_bound; lia].
Qed.

Lemma word_s64_mk h l v :
  in_u 32 l → h * 2 ^ 32 + l = v → - 2 ^ 63 ≤ v < 2 ^ 63 → word_s64 (mkWord (u32 h) l) = v.
Proof.
  intros Hl <- Hv. unfold word_s64. rewrite word_u64_mk by auto with cint.
  rewrite <- (swrap_small 64 (h * 2 ^ 32 + l)) by (done || lia).
  apply swrap_eq with (q := - (h / 2 ^ 32)); [lia|].
  unfold wrap. rewrite (Z.div_mod h (2 ^ 32)) at 2 by lia. lia.
Qed.

Lemma ashrdi3_div a b : - 2 ^ 63 ≤ a < 2 ^ 63 → __ashrdi3 a b = a / 2 ^ (b mod 64).
Proof.
  intros Ha. unfold __ashrdi3. rewrite shift_amount. pose proof (Z.mod_pos_bound b 64 ltac:(lia)) as Hb.
  set (c := b mod 64) in *. change (hi (word_of a)) with (u32 (a >> 32)). rewrite s32_split by done.
  destruct (word_parts_range a) as [_ HL]. change (lo (word_of a)) with (u32 a) in *.
  assert (a = a / 2 ^ 32 * 2 ^ 32 + u32 a) as E by (unfold wrap; rewrite (Z.div_mod a (2 ^ 32)) at 1; lia).
  set (Hs := a / 2 ^ 32) in *. set (L := u32 a) in *.
  assert (- 2 ^ 31 ≤ Hs < 2 ^ 31) as HHs
    by (split; [apply Z.div_le_lower_bound; lia|apply Z.div_lt_upper_bound; lia]).
  pose proof (pow2_pos c ltac:(lia)).
  assert (- 2 ^ 63 ≤ a / 2 ^ c < 2 ^ 63) as HR
    by (split; [apply Z.div_le_lower_bound; nia|apply Z.div_lt_upper_bound; nia]).
  destruct (Z.leb_spec 32 c) as [Hc|Hc].
  - pose proof (pow2_pos (c - 32) ltac:(lia)). rewrite (div_pow_split a c), !Z.shiftr_div_pow2 by lia.
    rewrite (div_pow_split a c) in HR by lia. fold Hs in HR |- *.
    set (q := Hs / 2 ^ (c - 32)) in *.
    assert (- 2 ^ 31 ≤ q < 2 ^ 31) by (split; [apply Z.div_le_lower_bound; nia|apply Z.div_lt_upper_bound; nia]).
    apply word_s64_mk; [auto with cint| |done]. assert (Hs / 2 ^ 31 = q / 2 ^ 32) as ->.
    { unfold q. destruct (Z.lt_ge_cases Hs 0).
      - rewrite <- (Z.div_unique Hs (2 ^ 31) (-1) (Hs + 2 ^ 31)) by lia.
        apply Z.div_unique with (r := q + 2 ^ 32); [|lia].
        assert (q < 0) by (apply Z.div_lt_upper_bound; lia). lia.
      - assert (0 ≤ q) by (apply Z.div_pos; lia). rewrite !Z.div_small; lia. }
    unfold wrap. rewrite (Z.div_mod q (2 ^ 32)) at 3 by lia. lia.
  - unfold ctrue. destruct (Z.eqb_spec c 0) as [->|Hc0]; cbn [negb].
    + change (word_of a) with (mkWord (u32 (a >> 32)) (u32 a)). rewrite Z.shiftr_div_pow2 by lia.
      apply word_s64_mk; rewrite ?Z.div_1_r; auto; lia.
    + destruct (shr_small Hs L c) as [HR2 HE]; [lia|done|].
      rewrite (Z.shiftr_div_pow2 Hs), (Z.shiftr_div_pow2 a) by lia. fold Hs.
      apply word_s64_mk; [done| |done]. rewrite <- HE. by rewrite <- E.
Qed.

(** ** Population count *)

(** Number of ones among the low [n] bits. *)
Fixpoint ones_count (n : nat) (a : Z) : Z :=
  match n with O => 0 | S n => a mod 2 + ones_count n (a / 2) end.

(** A value is determined by its bytes. *)
Lemma le_val_bytes_small n a : 0 ≤ a < 256 ^ Z.of_nat n → le_val (le_bytes n a) = a.
Proof.
  intros Ha. rewrite le_val_bytes. apply Z.mod_small. rewrite Z.pow_mul_r by lia. exact Ha.
Qed.

Lemma add256_lor b B : in_u 8 b → b + 256 * B = Z.lor (B * 2 ^ 8) b.
Proof. intros. rewrite lor_shift_add by (done || lia). lia. Qed.

Lemma testbit_add256 b B i :
  in_u 8 b → 0 ≤ i →
  Z.testbit (b + 256 * B) i = if i <? 8 then Z.testbit b i else Z.testbit B (i - 8).
Proof.
  intros Hb Hi. rewrite add256_lor, Z.lor_spec by done.
  destruct (Z.ltb_spec i 8).
  - by rewrite Z.mul_pow2_bits_low by lia.
  - rewrite Z.mul_pow2_bits by lia.
    rewrite (testbit_in_u 8 b i) by (done || lia). by rewrite orb_false_r.
Qed.

(** Shift and mask act on each byte separately when the mask has no bit that
    a shift could fill from the next byte. *)
Lemma shift_mask_byte kk b B m M :
  0 ≤ kk ≤ 8 → in_u 8 b → in_u (8 - kk) m →
  Z.land ((b + 256 * B) >> kk) (m + 256 * M) = Z.land (b >> kk) m + 256 * Z.land (B >> kk) M.
Proof.
  intros Hk Hb Hm.
  assert (in_u 8 m) as Hm8.
  { destruct Hm. split; [done|]. apply Z.lt_le_trans with (2 ^ (8 - kk)); [done|].
    apply Z.pow_le_mono_r; lia. }
  assert (in_u 8 (Z.land (b >> kk) m)).
  { destruct Hm8. auto with cint. }
  apply Z.bits_inj'; intros i Hi.
  rewrite Z.land_spec, Z.shiftr_spec, !testbit_add256, !Z.land_spec by (done || lia).
  destruct (Z.ltb_spec i 8).
  - rewrite Z.shiftr_spec by lia. destruct (Z.ltb_spec (i + kk) 8); [done|].
    by rewrite (testbit_in_u (8 - kk) m i), !andb_false_r by (done || lia).
  - rewrite (proj2 (Z.ltb_ge (i + kk) 8)), Z.shiftr_spec by lia. do 2 f_equal. lia.
Qed.

(** The three parallel-sum stages on a whole word and on one byte. *)
Definition rep (l : list Z) (c : Z) : Z := le_val ((λ _, c) <$> l).
Definition pop1 (x m : Z) : Z := x - ((x >> 1) & m).
Definition pop2 (x m : Z) : Z := ((x >> 2) & m) + (x & m).
Definition pop3 (x m : Z) : Z := (x + (x >> 4)) & m.
Definition pop_byte (b : Z) : Z := pop3 (pop2 (pop1 b 0x55) 0x33) 0x0F.

Lemma pop1_bytes l : bytes_ok l → pop1 (le_val l) (rep l 0x55) = le_val ((λ b, pop1 b 0x55) <$> l).
Proof.
  induction 1 as [|b l Hb Hl IH]; [done|]. unfold rep in *. cbn [le_val fmap list_fmap].
  fold (le_val l). fold (le_val ((λ _, 0x55) <$> l)). fold (le_val ((λ b, pop1 b 0x55) <$> l)).
  rewrite <- IH. unfold pop1. rewrite shift_mask_byte by (unfold in_u in *; lia). lia.
Qed.

Lemma pop2_bytes l : bytes_ok l → pop2 (le_val l) (rep l 0x33) = le_val ((λ b, pop2 b 0x33) <$> l).
Proof.
  induction 1 as [|b l Hb Hl IH]; [done|]. unfold rep in *. cbn [le_val fmap list_fmap].
  fold (le_val l). fold (le_val ((λ _, 0x33) <$> l)). fold (le_val ((λ b, pop2 b 0x33) <$> l)).
  rewrite <- IH. unfold pop2. pose proof (shift_mask_byte 0 b (le_val l) 0x33 (le_val ((λ _, 0x33) <$> l))) as H0.
  rewrite !Z.shiftr_0_r in H0. rewrite H0 by (unfold in_u in *; lia).
  rewrite shift_mask_byte by (unfold in_u in *; lia). lia.
Qed.

(** Both nibbles of a byte are at most 4. *)
Definition nib_ok (b : Z) : Prop := 0 ≤ b mod 16 ≤ 4 ∧ 0 ≤ b / 16 ≤ 4.

Lemma land_low4 x B M : Z.land (x + 256 * B) (0x0F + 256 * M) = x mod 16 + 256 * Z.land (B + x / 256) M.
Proof.
  replace (x + 256 * B) with (x mod 256 + 256 * (B + x / 256)) by zdiv.
  assert (in_u 8 (x mod 256)) as Hx by (unfold in_u; change (2 ^ 8) with 256; zdiv).
  pose proof (shift_mask_byte 0 (x mod 256) (B + x / 256) 0x0F M) as H0.
  rewrite !Z.shiftr_0_r in H0. rewrite H0 by (unfold in_u in *; lia).
  change 0x0F with (Z.ones 4). rewrite Z.land_ones by lia. change (2 ^ 4) with 16.
  f_equal. zdiv.
Qed.

Lemma pop3_bytes l : Forall nib_ok l → pop3 (le_val l) (rep l 0x0F) = le_val ((λ b, pop3 b 0x0F) <$> l).
Proof.
  induction 1 as [|b l Hb Hl IH]; [done|]. unfold rep in *. cbn [le_val fmap list_fmap].
  fold (le_val l). fold (le_val ((λ _, 0x0F) <$> l)). fold (le_val ((λ b, pop3 b 0x0F) <$> l)).
  rewrite <- IH. unfold pop3 in *. rewrite !Z.shiftr_div_pow2 by lia. change (2 ^ 4) with 16.
  assert (0 ≤ le_val l mod 16 ≤ 4) as HB.
  { destruct Hl as [|c l [Hc _] _]; [by vm_compute|]. cbn [le_val].
    fold (le_val l). replace (c + 256 * le_val l) with (c + (16 * le_val l) * 16) by lia.
    by rewrite Z_mod_plus_full. }
  destruct Hb as [Hb1 Hb2]. set (B := le_val l) in *.
  replace (b + 256 * B + (b + 256 * B) / 16)
    with ((b + b / 16 + 16 * (B mod 16)) + 256 * (B + B / 16)) by zdiv.
  rewrite land_low4, (Z.div_small _ 256), Z.add_0_r by zdiv. f_equal.
  change 0x0F with (Z.ones 4). rewrite Z.land_ones by lia. change (2 ^ 4) with 16. zdiv.
Qed.

Lemma pop_byte_table b :
  in_u 8 b →
  in_u 8 (pop1 b 0x55) ∧ nib_ok (pop2 (pop1 b 0x55) 0x33) ∧ in_u 8 (pop2 (pop1 b 0x55) 0x33) ∧
  pop_byte b = ones_count 8 b ∧ 0 ≤ pop_byte b ≤ 8.
Proof.
  intros Hb. unfold nib_ok, in_u.
  pose proof (byte_cases (λ b,
    (0 <=? pop1 b 0x55) && (pop1 b 0x55 <? 256) &&
    (let c := pop2 (pop1 b 0x55) 0x33 in
     (c mod 16 <=? 4) && (0 <=? c) && (c / 16 <=? 4) && (c <? 256)) &&
    (pop_byte b =? ones_count 8 b) && (0 <=? pop_byte b) && (pop_byte b <=? 8))
    ltac:(vm_compute; reflexivity) b Hb) as H.
  cbn beta zeta in H. zify_bools. change (2 ^ 8) with 256.
  set (c := pop2 (pop1 b 0x55) 0x33) in *. split_conj; try lia; zdiv.
Qed.

Lemma ones_count_byte n b B :
  in_u 8 b → ones_count (8 + n) (b + 256 * B) = ones_count 8 b + ones_count n B.
Proof.
  intros Hb. cbn [ones_count Nat.add]. rewrite !Z.add_assoc.
  rewrite !Z.div_div by lia.
  change (2 * 2) with 4. change (4 * 2) with 8. change (8 * 2) with 16. change (16 * 2) with 32.
  change (32 * 2) with 64. change (64 * 2) with 128. change (128 * 2) with 256.
  replace ((b + 256 * B) / 256) with B by (unfold in_u in Hb; change (2 ^ 8) with 256 in Hb; zdiv).
  repeat match goal with |- context [(b + 256 * B) / ?d mod 2] =>
    replace ((b + 256 * B) / d mod 2) with (b / d mod 2) by zdiv end.
  replace ((b + 256 * B) mod 2) with (b mod 2) by zdiv. lia.
Qed.

Lemma ones_count_bytes l : bytes_ok l →
  ones_count (8 * length l) (le_val l) = foldr Z.add 0 (pop_byte <$> l).
Proof.
  induction 1 as [|b l Hb Hl IH]; [done|]. cbn [le_val foldr fmap list_fmap length].
  fold (le_val l). replace (8 * S (length l))%nat with (8 + 8 * length l)%nat by lia.
  rewrite ones_count_byte, IH by done. f_equal. symmetry. by apply pop_byte_table.
Qed.

Lemma le_val_256 l : bytes_ok l → 0 ≤ le_val l < 256 ^ Z.of_nat (length l).
Proof.
  intros Hl. apply le_val_range in Hl. rewrite Z.pow_mul_r in Hl by (unfold zlen; lia). exact Hl.
Qed.

Lemma div_split s d q r : s = d * q + r → 0 ≤ r < d → s / d = q.
Proof. intros -> Hr. symmetry. apply Z.div_unique with r; lia. Qed.

Lemma land_wrap w x m : 0 ≤ w → in_u w m → Z.land (wrap w x) m = Z.land x m.
Proof.
  intros Hw Hm. apply Z.bits_inj'; intros i Hi. rewrite !Z.land_spec, wrap_testbit by lia.
  destruct (Z.ltb_spec i w); cbn; [done|].
  by rewrite (testbit_in_u w m i), andb_false_r by (done || lia).
Qed.

Lemma le_val_in_u w l : w = 8 * Z.of_nat (length l) → bytes_ok l → in_u w (le_val l).
Proof.
  intros -> Hl. pose proof (le_val_256 l Hl). unfold in_u.
  rewrite Z.pow_mul_r by lia. done.
Qed.

Lemma Forall_fmap_bytes (P : Z → Prop) (f : Z → Z) l :
  (∀ b, in_u 8 b → P (f b)) → bytes_ok l → Forall P (f <$> l).
Proof. intros H. induction 1; constructor; auto. Qed.

(** All three stages at once, with the truncations of a [w]-bit word. *)
Lemma pop_stages w l :
  w = 8 * Z.of_nat (length l) → bytes_ok l →
  let a1 := wrap w (pop1 (le_val l) (rep l 0x55)) in
  let a2 := wrap w (pop2 a1 (rep l 0x33)) in
  wrap w (a2 + (a2 >> 4)) & rep l 0x0F = le_val (pop_byte <$> l).
Proof.
  intros Hw Hl. assert (∀ f : Z → Z, length (f <$> l) = length l) as HL by (intros; apply length_fmap).
  assert (∀ f c, rep (f <$> l) c = rep l c) as HR by (intros; unfold rep; by rewrite <- list_fmap_compose).
  assert (bytes_ok ((λ b, pop1 b 0x55) <$> l)) as H1.
  { apply Forall_fmap_bytes; [|done]. intros b Hb. by apply pop_byte_table. }
  assert (bytes_ok ((λ b, pop2 b 0x33) <$> ((λ b, pop1 b 0x55) <$> l))) as H2.
  { rewrite <- list_fmap_compose. apply Forall_fmap_bytes; [|done].
    intros b Hb. by apply pop_byte_table. }
  assert (Forall nib_ok ((λ b, pop2 b 0x33) <$> ((λ b, pop1 b 0x55) <$> l))) as H3.
  { rewrite <- list_fmap_compose. apply Forall_fmap_bytes; [|done].
    intros b Hb. by apply pop_byte_table. }
  cbn zeta. rewrite pop1_bytes by done. rewrite (wrap_small w (le_val _)) by (apply le_val_in_u; [by rewrite HL|done]).
  rewrite <- (HR (λ b, pop1 b 0x55)), pop2_bytes by done.
  rewrite (wrap_small w (le_val _)) by (apply le_val_in_u; [by rewrite !length_fmap|done]).
  rewrite <- (HR (λ b, pop1 b 0x55) 0x0F).
  replace (rep ((λ b, pop1 b 0x55) <$> l) 0x0F)
    with (rep ((λ b, pop2 b 0x33) <$> ((λ b, pop1 b 0x55) <$> l)) 0x0F)
    by (unfold rep; by rewrite <- !list_fmap_compose).
  rewrite land_wrap; [| |].
  - fold (pop3 (le_val ((λ b, pop2 b 0x33) <$> ((λ b, pop1 b 0x55) <$> l)))
      (rep ((λ b, pop2 b 0x33) <$> ((λ b, pop1 b 0x55) <$> l)) 0x0F)).
    rewrite pop3_bytes by done. by rewrite <- !list_fmap_compose.
  - lia.
  - apply le_val_in_u; [by rewrite !length_fmap|]. apply (Forall_fmap_bytes _ (λ _, 0x0F)); [|done].
    intros; unfold in_u; lia.
Qed.

Lemma pop_byte_bounds l : bytes_ok l → Forall (λ c, 0 ≤ c ≤ 8) (pop_byte <$> l).
Proof.
  intros. apply Forall_fmap_bytes; [|done]. intros b Hb. by apply pop_byte_table.
Qed.

Lemma popcountsi2_count a : in_u 32 a → __popcountsi2 a = ones_count 32 a.
Proof.
  intros Ha. set (l := le_bytes 4 a).
  assert (le_val l = a) as E by (by apply le_val_bytes_small).
  assert (bytes_ok l) as Hl by apply le_bytes_range.
  pose proof (pop_stages 32 l eq_refl Hl) as HS. cbn zeta in HS. rewrite E in HS.
  change (rep l 0x55) with 0x55555555 in HS. change (rep l 0x33) with 0x33333333 in HS.
  change (rep l 0x0F) with 0x0F0F0F0F in HS. unfold pop1, pop2 in HS.
  unfold __popcountsi2. rewrite HS.
  change 32%nat with (8 * length l)%nat. rewrite <- E, (ones_count_bytes l Hl). pose proof (pop_byte_bounds l Hl) as HB.
  destruct (pop_byte <$> l) as [|c0 [|c1 [|c2 [|c3 [|]]]]] eqn:Ec; try discriminate.
  rewrite !list.Forall_cons in HB. clear HS Ec E.
  cbn [le_val foldr]. rewrite !Z.shiftr_div_pow2 by lia.
  change 63 with (Z.ones 6). rewrite Z.land_ones by lia. unfold wrap.
  change (2 ^ 6) with 64. change (2 ^ 8) with 256. change (2 ^ 16) with 65536.
  change (2 ^ 32) with 4294967296. zdiv.
Qed.

Lemma popcountdi2_count a : in_u 64 a → __popcountdi2 a = ones_count 64 a.
Proof.
  intros Ha. set (l := le_bytes 8 a).
  assert (le_val l = a) as E by (by apply le_val_bytes_small).
  assert (bytes_ok l) as Hl by apply le_bytes_range.
  pose proof (pop_stages 64 l eq_refl Hl) as HS. cbn zeta in HS. rewrite E in HS.
  change (rep l 0x55) with 0x5555555555555555 in HS. change (rep l 0x33) with 0x3333333333333333 in HS.
  change (rep l 0x0F) with 0x0F0F0F0F0F0F0F0F in HS. unfold pop1, pop2 in HS.
  unfold __popcountdi2. rewrite HS.
  change 64%nat with (8 * length l)%nat. rewrite <- E, (ones_count_bytes l Hl). pose proof (pop_byte_bounds l Hl) as HB.
  destruct (pop_byte <$> l) as [|c0 [|c1 [|c2 [|c3 [|c4 [|c5 [|c6 [|c7 [|]]]]]]]]] eqn:Ec; try discriminate.
  rewrite !list.Forall_cons in HB. clear HS Ec E.
  cbn [le_val foldr]. rewrite !Z.shiftr_div_pow2 by lia.
  change 127 with (Z.ones 7). rewrite Z.land_ones by lia. unfold wrap.
  set (s := c0 + 256 * _).
  set (r1 := c0 + 256 * (c1 + 256 * (c2 + 256 * c3))). set (q1 := c4 + 256 * (c5 + 256 * (c6 + 256 * c7))).
  rewrite (div_split s (2 ^ 32) q1 r1), (Z.mod_small (s + q1)) by (unfold s, q1, r1; lia).
  set (q2 := (c2 + c6) + 256 * (c3 + c7) + 65536 * q1). set (r2 := (c0 + c4) + 256 * (c1 + c5)).
  rewrite (div_split (s + q1) (2 ^ 16) q2 r2), (Z.mod_small (s + q1 + q2))
    by (unfold s, q1, r1, q2, r2; lia).
  set (q3 := (c1 + 256 * (c2 + 256 * (c3 + 256 * q1))) + (c5 + 256 * (c6 + 256 * c7)) + (c3 + c7 + 256 * q1)).
  rewrite (div_split (s + q1 + q2) (2 ^ 8) q3 (c0 + c2 + c4 + c6)), (Z.mod_small (s + q1 + q2 + q3))
    by (unfold s, q1, r1, q2, r2, q3; lia).
  set (K := q3 + (c2 + 256 * (c3 + 256 * q1)) + (c6 + 256 * c7) + q1).
  replace (s + q1 + q2 + q3) with (c0 + c1 + c2 + c3 + c4 + c5 + c6 + c7 + (2 * K) * 2 ^ 7)
    by (unfold K, s, q1, q2, q3; lia).
  rewrite Z_mod_plus_full, Z.mod_small by lia. lia.
Qed.

(** ** Division *)

Section division.
  Context (A b : Z) (HA : 0 < b ≤ A) (HA64 : A < 2 ^ 64).

(** The state of the loop with [m] bits to go: [A / 2^m] has been divided. *)
Record div_inv (m rem a wr : Z) : Prop := {
  di_m : 0 ≤ m ≤ 63;
  di_b : b ≤ 2 ^ 63 ∨ m ≤ 1;
  di_rem : rem = (A / 2 ^ m) mod b;
  di_quot : A / 2 ^ m / b < 2 ^ (64 - m);
  di_a : a = A mod 2 ^ m * 2 ^ (64 - m) + A / 2 ^ m / b / 2;
  di_wr : Z.land wr 1 = A / 2 ^ m / b mod 2
}.

Lemma half_step m :
  0 < m →
  A / 2 ^ (m - 1) = 2 * (A / 2 ^ m) + (A / 2 ^ (m - 1)) mod 2 ∧
  A mod 2 ^ m = (A / 2 ^ (m - 1)) mod 2 * 2 ^ (m - 1) + A mod 2 ^ (m - 1).
Proof.
  intros Hm. pose proof (pow2_pos (m - 1) ltac:(lia)).
  assert (2 ^ m = 2 ^ (m - 1) * 2) as E
    by (rewrite <- (Z.pow_1_r 2) at 3; rewrite <- Z.pow_add_r by lia; f_equal; lia).
  rewrite E, Z.rem_mul_r by lia. rewrite <- Z.div_div by lia. split; zdiv.
Qed.

(** The quotient and remainder of [A / 2^(m-1)] from those of [A / 2^m]. *)
Lemma quot_step m :
  0 < m →
  let bit := (A / 2 ^ (m - 1)) mod 2 in
  let r := 2 * ((A / 2 ^ m) mod b) + bit in
  let q := A / 2 ^ m / b in
  A / 2 ^ (m - 1) / b = 2 * q + cbool (b <=? r) ∧ (A / 2 ^ (m - 1)) mod b = r - b * cbool (b <=? r) ∧
  0 ≤ r < 2 * b.
Proof.
  intros Hm bit r q. destruct (half_step m Hm) as [E _]. fold bit in E.
  pose proof (Z.div_mod (A / 2 ^ m) b ltac:(lia)) as D. fold q in D.
  pose proof (Z.mod_pos_bound (A / 2 ^ m) b ltac:(lia)) as B.
  assert (0 ≤ bit ≤ 1) by (unfold bit; zdiv).
  assert (A / 2 ^ (m - 1) = b * (2 * q + cbool (b <=? r)) + (r - b * cbool (b <=? r))) as F
    by (unfold r; nia).
  assert (0 ≤ r - b * cbool (b <=? r) < b) as G.
  { unfold cbool. destruct (Z.leb_spec b r); unfold r in *; lia. }
  split; [|split]; [symmetry; by eapply Z.div_unique_pos|symmetry; by eapply Z.mod_unique_pos|].
  unfold r; lia.
Qed.

(** The sign-extension trick: all ones exactly when [rem >= b]. *)
Lemma wrap_mask r :
  0 ≤ r < 2 ^ 64 → r < 2 * b → (b ≤ 2 ^ 63 ∨ b ≤ r) →
  u64 (s64 (u64 (b - r - 1)) >> 63) = if b <=? r then 2 ^ 64 - 1 else 0.
Proof.
  intros Hr H2 Hb. rewrite swrap_wrap, Z.shiftr_div_pow2 by lia. rewrite swrap_small by lia.
  destruct (Z.leb_spec b r).
  - replace ((b - r - 1) / 2 ^ 63) with (-1) by (apply Z.div_unique with (b - r - 1 + 2 ^ 63); lia). done.
  - rewrite Z.div_small by lia. done.
Qed.

Lemma land_full x : in_u 64 x → Z.land x (2 ^ 64 - 1) = x.
Proof. intros. change (2 ^ 64 - 1) with (Z.ones 64). rewrite Z.land_ones by lia. by apply wrap_small. Qed.

Lemma lor_bit x c : 0 ≤ c ≤ 1 → Z.lor (2 * x) c = 2 * x + c.
Proof. intros. replace (2 * x) with (x * 2 ^ 1) by lia. apply lor_shift_add; [lia|unfold in_u; lia]. Qed.

Lemma mod2_add q c : 0 ≤ c ≤ 1 → (2 * q + c) mod 2 = c ∧ (2 * q + c) / 2 = q.
Proof. intros. split; zdiv. Qed.

Lemma low_bound l h Y P M : 0 ≤ l < Y → 0 ≤ h < P → Y * P = M → 0 ≤ l * P + h < M.
Proof. nia. Qed.

(** What the shifts of the numerator bring in and leave behind. *)
Lemma numer_step m q :
  0 < m ≤ 63 → 0 ≤ q < 2 ^ (64 - m) →
  let bit := (A / 2 ^ (m - 1)) mod 2 in
  let aa := A mod 2 ^ m * 2 ^ (64 - m) + q / 2 in
  aa >> 63 = bit ∧ u64 (aa << 1) = 2 * (A mod 2 ^ (m - 1) * 2 ^ (64 - m) + q / 2).
Proof.
  intros Hm Hq bit aa. destruct (half_step m) as [_ EA]; [lia|]. fold bit in EA.
  set (lo' := A mod 2 ^ (m - 1)) in *.
  pose proof (pow2_pos (m - 1) ltac:(lia)). pose proof (pow2_pos (64 - m) ltac:(lia)).
  assert (0 ≤ bit ≤ 1) as Hbit by (unfold bit; zdiv).
  assert (2 ^ (m - 1) * 2 ^ (64 - m) = 2 ^ 63) as E63 by (rewrite <- Z.pow_add_r by lia; f_equal; lia).
  assert (0 ≤ lo' * 2 ^ (64 - m) + q / 2 < 2 ^ 63) as Hlow.
  { apply (low_bound lo' (q / 2) (2 ^ (m - 1))); [apply Z.mod_pos_bound; lia|zdiv|done]. }
  assert (aa = bit * 2 ^ 63 + (lo' * 2 ^ (64 - m) + q / 2)) as Eaa
    by (unfold aa; rewrite EA, Z.mul_add_distr_r, <- Z.mul_assoc, E63; lia).
  rewrite Eaa, Z.shiftr_div_pow2, Z.shiftl_mul_pow2 by lia. split.
  - rewrite Z.div_add_l, Z.div_small by lia. lia.
  - rewrite (wrap_eq 64 _ (2 * (lo' * 2 ^ (64 - m) + q / 2)) bit) by lia.
    apply wrap_small. unfold in_u. lia.
Qed.

(** The doubled remainder fits a word, and the sign test is meaningful. *)
Lemma rem_step m :
  0 < m → (b ≤ 2 ^ 63 ∨ m ≤ 1) →
  let r := 2 * ((A / 2 ^ m) mod b) + (A / 2 ^ (m - 1)) mod 2 in
  r < 2 ^ 64 ∧ (b ≤ 2 ^ 63 ∨ b ≤ r).
Proof.
  intros Hm Hb r. destruct (quot_step m Hm) as (_ & _ & Hr). fold r in Hr.
  destruct (Z.le_gt_cases b (2 ^ 63)) as [?|Hbig]; [lia|].
  assert (m = 1) as -> by lia. unfold r. change (2 ^ (1 - 1)) with 1. change (2 ^ 1) with 2.
  rewrite Z.div_1_r. rewrite (Z.mod_small (A / 2)) by zdiv. zdiv.
Qed.

Lemma div_body m rem a wr :
  0 < m → div_inv m rem a wr →
  let rem1 := u64 (rem << 1) .| (a >> 63) in
  let a1 := u64 (a << 1) .| (wr & 1) in
  let wr1 := u64 (s64 (u64 (b - rem1 - 1)) >> 63) in
  div_inv (m - 1) (u64 (rem1 - (b & wr1))) a1 wr1.
Proof.
  intros Hm [Hm63 Hb -> HQ -> Hwr].
  destruct (quot_step m Hm) as (EQ & ER & Hr). destruct (rem_step m Hm Hb) as [Hr64 Hcase]. cbn zeta in *.
  set (X := A / 2 ^ m) in *. set (q := X / b) in *.
  assert (0 ≤ q) as Hq by (apply Z.div_pos; [apply Z.div_pos; [lia|apply pow2_pos; lia]|lia]).
  destruct (numer_step m q) as [Ebit Ea1]; [lia..|]. cbn zeta in *.
  set (bit := (A / 2 ^ (m - 1)) mod 2) in *. set (r := 2 * (X mod b) + bit) in *.
  assert (0 ≤ bit ≤ 1) as Hbit by (unfold bit; zdiv).
  assert (2 ^ (64 - (m - 1)) = 2 * 2 ^ (64 - m)) as E65
    by (rewrite <- Z.pow_succ_r by lia; f_equal; lia).
  assert (u64 ((X mod b) << 1) = 2 * (X mod b)) as Erem.
  { rewrite Z.shiftl_mul_pow2 by lia. rewrite wrap_small; [lia|].
    pose proof (Z.mod_pos_bound X b). unfold in_u, r in *. lia. }
  rewrite Ebit, Ea1, Erem, Hwr, !lor_bit by (lia || zdiv). fold r. rewrite wrap_mask by lia.
  destruct (mod2_add q (cbool (b <=? r))) as [Em Ed]; [unfold cbool; destruct (b <=? r); lia|].
  split; [lia|tauto || lia|rewrite ER|rewrite EQ, E65|rewrite EQ, E65, Ed|rewrite EQ, Em].
  - destruct (Z.leb_spec b r); cbn [cbool].
    + rewrite land_full by (unfold in_u; lia). rewrite wrap_small by (unfold in_u; lia). lia.
    + rewrite Z.land_0_r, wrap_small by (unfold in_u; lia). lia.
  - unfold cbool. destruct (b <=? r); lia.
  - pose proof (Z.div_mod q 2). lia.
  - by destruct (b <=? r).
Qed.

Lemma div_loop_spec fuel m rem a wr :
  (Z.to_nat m < fuel)%nat → div_inv m rem a wr →
  ∃ wr', div_loop fuel b m rem a wr = Ok (A mod b, A / b / 2, wr') ∧ Z.land wr' 1 = A / b mod 2.
Proof.
  revert m rem a wr. induction fuel as [|fuel IH]; intros m rem a wr Hf HI; [lia|]. cbn [div_loop].
  destruct (Z.ltb_spec 0 m) as [Hm|Hm].
  - pose proof (div_body m rem a wr Hm HI) as HI'. cbn zeta in HI'.
    rewrite swrap_small by (destruct HI; lia). apply IH; [lia|done].
  - destruct HI as [Hm0 _ -> _ -> Hwr]. assert (m = 0) as -> by lia.
    change (2 ^ 0) with 1 in *. rewrite Z.div_1_r, Z.mod_1_r in *. eauto.
Qed.

(** The state the loop starts from satisfies the invariant. *)
Lemma div_start :
  2 ≤ b → let m := Z.log2 A - Z.log2 b + 1 in
  s8 (__clzdi2 b - __clzdi2 A + 1) = m ∧ div_inv m (A >> m) (u64 (A << (64 - m))) 0.
Proof.
  intros Hb2 m. pose proof (Z.log2_nonneg b). pose proof (Z.log2_le_mono b A ltac:(lia)).
  assert (Z.log2 A < 64) by (apply Z.log2_lt_pow2; lia).
  assert (1 ≤ Z.log2 b) by (apply Z.log2_le_pow2; lia).
  rewrite !clzdi2_log2 by lia. split; [rewrite swrap_small; unfold m; lia|].
  pose proof (pow2_pos m ltac:(lia)) as Hm. pose proof (pow2_pos (64 - m) ltac:(lia)).
  assert (A / 2 ^ m < b) as Hlt.
  { apply Z.div_lt_upper_bound; [lia|].
    pose proof (Z.log2_spec A ltac:(lia)). pose proof (Z.log2_spec b ltac:(lia)).
    assert (2 ^ Z.succ (Z.log2 A) = 2 ^ m * 2 ^ Z.log2 b)
      by (rewrite <- Z.pow_add_r by lia; f_equal; lia). nia. }
  assert (0 ≤ A / 2 ^ m) by (apply Z.div_pos; lia). split; [lia| | | | |].
  - destruct (Z.le_gt_cases b (2 ^ 63)) as [?|Hb]; [by left|]. right.
    assert (63 ≤ Z.log2 b) by (apply Z.log2_le_pow2; lia). lia.
  - rewrite Z.shiftr_div_pow2, Z.mod_small by lia. done.
  - rewrite Z.div_small by lia. lia.
  - rewrite (Z.div_small (A / 2 ^ m)) by lia. rewrite Z.shiftl_mul_pow2, Z.add_0_r by lia.
    unfold wrap. replace (2 ^ 64) with (2 ^ m * 2 ^ (64 - m))
      by (rewrite <- Z.pow_add_r by lia; f_equal; lia).
    by rewrite Z.mul_mod_distr_r by lia.
  - rewrite Z.div_small by lia. done.
Qed.

Lemma divmoddi4_ok : __divmoddi4 A b = Ok (A / b, A mod b).
Proof.
  unfold __divmoddi4. rewrite (proj2 (Z.ltb_ge A b)), (proj2 (Z.eqb_neq b 0)), andb_false_r by lia.
  destruct (Z.eqb_spec b 1) as [->|Hb1].
  { change (arith64_hi 1) with 0. cbn [Z.eqb andb]. by rewrite Z.div_1_r, Z.mod_1_r. }
  rewrite andb_false_r.
  assert (arith64_hi A = A / 2 ^ 32 ∧ arith64_hi b = b / 2 ^ 32) as [-> ->].
  { unfold arith64_hi. cbn. rewrite !Z.shiftr_div_pow2 by lia.
    split; apply wrap_small; unfold in_u; zdiv. }
  destruct ((b / 2 ^ 32 =? 0) && (A / 2 ^ 32 =? 0)) eqn:E32.
  - zify_bools. assert (arith64_lo A = A ∧ arith64_lo b = b) as [-> ->]; [|done].
    unfold arith64_lo. cbn. split; apply wrap_small; unfold in_u; zdiv.
  - destruct div_start as [-> HI]; [lia|].
    edestruct (div_loop_spec 65) as (wr & E & Hwr); [|exact HI|]; [destruct HI; lia|]. rewrite E.
    cbn [mbind outcome_bind]. rewrite Hwr. do 2 f_equal.
    assert (0 ≤ A / b ≤ A) by (split; [apply Z.div_pos|apply Z.div_le_upper_bound]; nia).
    pose proof (Z.div_mod (A / b) 2 ltac:(lia)).
    rewrite Z.shiftl_mul_pow2, wrap_small by (unfold in_u; zdiv).
    change (2 ^ 1) with 2. rewrite (Z.mul_comm _ 2), lor_bit by zdiv. lia.
Qed.
End division.

Lemma arith64_abs_ok a : - 2 ^ 63 < a < 2 ^ 63 → arith64_abs a = Ok (Z.abs a).
Proof.
  intros Ha. unfold arith64_abs, arith64_neg_s.
  assert (Z.lxor a (cbool (0 <=? a) - 1) + cbool (a <? 0) = Z.abs a) as ->.
  { destruct (Z.leb_spec 0 a), (Z.ltb_spec a 0); try lia; cbn [cbool].
    - rewrite Z.lxor_0_r. lia.
    - change (0 - 1) with (-1). rewrite Z.lxor_m1_r. unfold Z.lnot. lia. }
  by rewrite (proj2 (Z.leb_le (- 2 ^ 63) (Z.abs a))), (proj2 (Z.ltb_lt (Z.abs a) (2 ^ 63))) by lia.
Qed.

(** Negation of an unsigned quotient or remainder, read back as signed. *)
Lemma arith64_neg_u_ok q c :
  0 ≤ q < 2 ^ 63 → s64 (arith64_neg_u q c) = if 0 <=? c then q else - q.
Proof.
  intros Hq. unfold arith64_neg_u. rewrite swrap_wrap by lia.
  destruct (Z.leb_spec 0 c), (Z.ltb_spec c 0); try lia; cbn [cbool].
  - change (u64 (1 - 1)) with 0. rewrite Z.lxor_0_r, Z.add_0_r. apply swrap_small; lia.
  - assert (Z.lxor q (u64 (0 - 1)) = 2 ^ 64 - 1 - q) as ->.
    { change (u64 (0 - 1)) with (Z.ones 64).
      apply Z.bits_inj'; intros i Hi. rewrite Z.lxor_spec.
      replace (2 ^ 64 - 1 - q) with (Z.lnot q + 1 * 2 ^ 64) by (unfold Z.lnot; lia).
      destruct (Z.lt_ge_cases i 64).
      - rewrite Z.ones_spec_low by lia. rewrite <- (Z.mod_pow2_bits_low (Z.lnot q + 1 * 2 ^ 64) 64 i) by lia.
        rewrite Z_mod_plus_full, Z.mod_pow2_bits_low, Z.lnot_spec by lia. by destruct (Z.testbit q i).
      - rewrite Z.ones_spec_high, xorb_false_r by lia. rewrite !(testbit_in_u 64); unfold in_u, Z.lnot; try done; lia. }
    rewrite (swrap_eq 64 _ (- q) 1) by lia. apply swrap_small; lia.
Qed.

Lemma divmoddi4_spec a b :
  in_u 64 a → in_u 64 b →
  __divmoddi4 a b = if b =? 0 then Ub else Ok (a / b, a mod b).
Proof.
  unfold in_u. intros Ha Hb. destruct (Z.eqb_spec b 0) as [->|Hb0].
  - unfold __divmoddi4. by rewrite (proj2 (Z.ltb_ge a 0)) by lia.
  - destruct (Z.le_gt_cases b a); [apply divmoddi4_ok; lia|].
    unfold __divmoddi4. rewrite (proj2 (Z.ltb_lt a b)) by lia.
    by rewrite Z.div_small, Z.mod_small by lia.
Qed.

(** ** Theorems *)

(** C37: [__divmoddi4] returns the quotient and stores the remainder of the
    Euclidean division for all 64-bit operands, and the two unsigned
    entry points return one each; only a zero divisor, where the code forces
    a divide exception, has no result. *)
Theorem divmoddi4_correct a b :
  in_u 64 a → in_u 64 b →
  __divmoddi4 a b = (if b =? 0 then Ub else Ok (a / b, a mod b)) ∧
  __udivdi3 a b = (if b =? 0 then Ub else Ok (a / b)) ∧
  __umoddi3 a b = (if b =? 0 then Ub else Ok (a mod b)).
Proof.
  intros Ha Hb. unfold __udivdi3, __umoddi3. rewrite divmoddi4_spec by done.
  by destruct (b =? 0).
Qed.

Lemma divmoddi4_correct_witness :
  __divmoddi4 18446744073709551615 9223372036854775813 = Ok (1, 9223372036854775802)
  ∧ __divmoddi4 5 0 = Ub.
Proof.
  split.
  - apply (divmoddi4_correct 18446744073709551615 9223372036854775813); unfold in_u; lia.
  - apply (divmoddi4_correct 5 0); unfold in_u; lia.
Defined.

(** For every pair of operands other than the most negative number,
    [__divdi3] and [__moddi3] are C division and remainder: truncation
    towards zero, remainder with the sign of the numerator. *)
Theorem signed_division_correct a b :
  - 2 ^ 63 < a < 2 ^ 63 → - 2 ^ 63 < b < 2 ^ 63 → b ≠ 0 →
  __divdi3 a b = Ok (Z.quot a b) ∧ __moddi3 a b = Ok (Z.rem a b).
Proof.
  intros Ha Hb Hb0. unfold __divdi3, __moddi3. rewrite !arith64_abs_ok by lia. cbn [mbind outcome_bind].
  rewrite !(wrap_small 64) by (unfold in_u; lia).
  rewrite divmoddi4_spec, (proj2 (Z.eqb_neq (Z.abs b) 0)) by (unfold in_u; lia).
  cbn [mbind outcome_bind fst snd].
  assert (0 ≤ Z.abs a / Z.abs b < 2 ^ 63).
  { split; [apply Z.div_pos; lia|]. apply Z.div_lt_upper_bound; nia. }
  pose proof (Z.mod_pos_bound (Z.abs a) (Z.abs b) ltac:(lia)).
  rewrite !arith64_neg_u_ok by lia. rewrite <- Z.quot_div_nonneg, <- Z.rem_mod_nonneg by lia.
  assert ((0 <=? Z.lxor a b) = Bool.eqb (0 <=? a) (0 <=? b)) as ->.
  { apply eq_true_iff_eq. rewrite Z.leb_le, Z.lxor_nonneg, eqb_true_iff.
    destruct (Z.leb_spec 0 a), (Z.leb_spec 0 b); naive_solver lia. }
  destruct (Z.leb_spec 0 a) as [H1|H1], (Z.leb_spec 0 b) as [H2|H2]; cbn [Bool.eqb];
    rewrite ?(Z.abs_eq a), ?(Z.abs_eq b), ?(Z.abs_neq a), ?(Z.abs_neq b) by lia;
    rewrite ?Z.quot_opp_opp, ?Z.quot_opp_l, ?Z.quot_opp_r, ?Z.rem_opp_opp, ?Z.rem_opp_l, ?Z.rem_opp_r by lia;
    rewrite ?Z.opp_involutive; done.
Qed.

Lemma signed_division_correct_witness :
  __divdi3 (-7) 2 = Ok (-3) ∧ __moddi3 (-7) 2 = Ok (-1).
Proof. apply (signed_division_correct (-7) 2); lia. Defined.

(** The shifts through 32-bit halves are multiplication modulo 2^64 and
    floor division by [2^(b mod 64)], for every shift count. *)
Theorem shifts_correct a u b :
  - 2 ^ 63 ≤ a < 2 ^ 63 → in_u 64 u →
  __ashldi3 a b = s64 (a * 2 ^ (b mod 64)) ∧
  __ashrdi3 a b = a / 2 ^ (b mod 64) ∧
  __lshrdi3 u b = u / 2 ^ (b mod 64).
Proof. intros. auto using ashldi3_mul, ashrdi3_div, lshrdi3_div. Qed.

Lemma shifts_correct_witness :
  __ashldi3 (-3) 40 = -3298534883328 ∧ __ashrdi3 (-3) 1 = -2 ∧ __lshrdi3 (2 ^ 63) 63 = 1.
Proof.
  destruct (shifts_correct (-3) 0 40) as [H1 _]; [lia|unfold in_u; lia|].
  destruct (shifts_correct (-3) 0 1) as (_ & H2 & _); [lia|unfold in_u; lia|].
  destruct (shifts_correct 0 (2 ^ 63) 63) as (_ & _ & H3); [lia|unfold in_u; lia|].
  rewrite H1, H2, H3. repeat split.
Defined.

(** Bit counting. On non-zero words [__clzsi2]/[__clzdi2] count leading
    zeros, [__ctzsi2]/[__ctzdi2] trailing zeros; [__ffsdi2] is one more than
    the latter, and both population counts are the number of one bits. *)
Theorem bit_counts_correct a b :
  0 < a < 2 ^ 32 → 0 < b < 2 ^ 64 →
  __clzsi2 a = 31 - Z.log2 a ∧ __clzdi2 b = 63 - Z.log2 b ∧
  trailing_zeros a (__ctzsi2 a) ∧ trailing_zeros b (__ctzdi2 b) ∧ __ffsdi2 b = __ctzdi2 b + 1 ∧
  __popcountsi2 a = ones_count 32 a ∧ __popcountdi2 b = ones_count 64 b.
Proof.
  intros Ha Hb. split_conj; try (apply clzsi2_log2 || apply clzdi2_log2 || apply ctzsi2_spec
    || apply ctzdi2_spec || apply popcountsi2_count || apply popcountdi2_count; unfold in_u; lia).
  unfold __ffsdi2. by rewrite (proj2 (ctrue_true b)) by lia.
Qed.

Lemma bit_counts_correct_witness :
  __clzsi2 0xF0 = 24 ∧ trailing_zeros 0xF00 (__ctzdi2 0xF00).
Proof.
  destruct (bit_counts_correct 0xF0 0xF00) as (H1 & _ & _ & H2 & _); [lia..|].
  split; [exact H1|exact H2].
Defined.

End I386Builtins.
