(* ===== verification/Lzvn.v ===== *)
(** * LZVN decoder ([Lilu.kext/lzvn/lzvn.c])

    The decoder state and one definition per jump target of [lzvn_decode],
    with the wide copies, the length checks and the resumable states of the
    source; a reference decoder on lists; memory safety, termination and
    equivalence of the two. *)

From Stdlib Require Import ZArith Lia.
From S2P Require Import Prelude.

Module Lzvn.

Open Scope c_scope.

(** ** Model

    Pointers are offsets into the source buffer [inp] and the destination
    buffer [out]. *)

Record lzvn_decoder_state := mkState {
  src : Z; src_end : Z;
  dst : Z; dst_begin : Z; dst_end : Z; dst_current : Z;
  sL : Z; sM : Z; sD : Z;
  d_prev : Z;
  end_of_stream : Z
}.

(** The local variables that live across jump targets. *)
Record locals := mkLocals { src_ptr : Z; src_len : Z; dst_ptr : Z; dst_len : Z; D : Z }.

(** Where control goes after a jump target: to the next opcode or out. *)
Inductive flow :=
| Next (st : lzvn_decoder_state) (out : list Z) (r : locals)
| Return (st : lzvn_decoder_state) (out : list Z).

Definition load2 (buf : list Z) (p : Z) : outcome Z := loadLE 2 buf p.
Definition load4 (buf : list Z) (p : Z) : outcome Z := loadLE 4 buf p.
Definition load8 (buf : list Z) (p : Z) : outcome Z := loadLE 8 buf p.
Definition store4 (buf : list Z) (p v : Z) : outcome (list Z) := storeLE 4 buf p v.
Definition store8 (buf : list Z) (p v : Z) : outcome (list Z) := storeLE 8 buf p v.

Definition extract (container lsb width : Z) : Z :=
  if width =? 64 then container
  else (container >> lsb) & (u64 (1 << width) - 1).

Definition inc_src (r : locals) (n : Z) : locals :=
  mkLocals (src_ptr r + n) (u64 (src_len r - n)) (dst_ptr r) (dst_len r) (D r).
Definition inc_dst (r : locals) (n : Z) : locals :=
  mkLocals (src_ptr r) (src_len r) (dst_ptr r + n) (u64 (dst_len r - n)) (D r).
Definition set_D (r : locals) (d : Z) : locals :=
  mkLocals (src_ptr r) (src_len r) (dst_ptr r) (dst_len r) d.

Definition UPDATE_GOOD (st : lzvn_decoder_state) (r : locals) : lzvn_decoder_state :=
  mkState (src_ptr r) (src_end st) (dst_ptr r) (dst_begin st) (dst_end st) (dst_current st)
          (sL st) (sM st) (sD st) (s64 (D r)) (end_of_stream st).

(** State saved when the destination is full. *)
Definition save (st : lzvn_decoder_state) (s d l m dd : Z) : lzvn_decoder_state :=
  mkState s (src_end st) d (dst_begin st) (dst_end st) (dst_current st) l m dd
          (d_prev st) (end_of_stream st).

Inductive label :=
| sml_d | med_d | lrg_d | pre_d | sml_m | lrg_m | sml_l | lrg_l | nop | eos | udef.

#[global] Instance label_eq_dec : EqDecision label.
Proof. solve_decision. Defined.

(** [opc_tbl], eight entries per row as in the source. *)
Definition opc_tbl : list label :=
  let sp := [sml_d; sml_d; sml_d; sml_d; sml_d; sml_d; pre_d; lrg_d] in
  let su := [sml_d; sml_d; sml_d; sml_d; sml_d; sml_d; udef; lrg_d] in
  let sn := [sml_d; sml_d; sml_d; sml_d; sml_d; sml_d; nop; lrg_d] in
  let se := [sml_d; sml_d; sml_d; sml_d; sml_d; sml_d; eos; lrg_d] in
  let uu := replicate 8 udef in
  let mm := replicate 8 med_d in
  mjoin [se; sn; sn; su; su; su; su; su;
         sp; sp; sp; sp; sp; sp; uu; uu;
         sp; sp; sp; sp; mm; mm; mm; mm;
         sp; sp; uu; uu;
         lrg_l :: replicate 7 sml_l; replicate 8 sml_l;
         lrg_m :: replicate 7 sml_m; replicate 8 sml_m].

(** The [case] labels of the [switch] that replaces the jump table where
    labels are not values. *)
Definition switch_cases : list (label * list Z) :=
  [ (sml_d,
     [0; 1; 2; 3; 4; 5; 8; 9; 10; 11; 12; 13; 16; 17; 18; 19; 20; 21; 24; 25; 26; 27; 28; 29;
      32; 33; 34; 35; 36; 37; 40; 41; 42; 43; 44; 45; 48; 49; 50; 51; 52; 53; 56; 57; 58; 59;
      60; 61; 64; 65; 66; 67; 68; 69; 72; 73; 74; 75; 76; 77; 80; 81; 82; 83; 84; 85; 88; 89;
      90; 91; 92; 93; 96; 97; 98; 99; 100; 101; 104; 105; 106; 107; 108; 109; 128; 129; 130;
      131; 132; 133; 136; 137; 138; 139; 140; 141; 144; 145; 146; 147; 148; 149; 152; 153;
      154; 155; 156; 157; 192; 193; 194; 195; 196; 197; 200; 201; 202; 203; 204; 205]);
    (med_d,
     [160; 161; 162; 163; 164; 165; 166; 167; 168; 169; 170; 171; 172; 173; 174; 175; 176;
      177; 178; 179; 180; 181; 182; 183; 184; 185; 186; 187; 188; 189; 190; 191]);
    (lrg_d,
     [7; 15; 23; 31; 39; 47; 55; 63; 71; 79; 87; 95; 103; 111; 135; 143; 151; 159; 199; 207]);
    (pre_d,
     [70; 78; 86; 94; 102; 110; 134; 142; 150; 158; 198; 206]);
    (sml_m,
     [241; 242; 243; 244; 245; 246; 247; 248; 249; 250; 251; 252; 253; 254; 255]);
    (lrg_m,
     [240]);
    (sml_l,
     [225; 226; 227; 228; 229; 230; 231; 232; 233; 234; 235; 236; 237; 238; 239]);
    (lrg_l,
     [224]);
    (nop,
     [14; 22]);
    (eos,
     [6]);
    (udef,
     [30; 38; 46; 54; 62; 112; 113; 114; 115; 116; 117; 118; 119; 120; 121; 122; 123; 124;
      125; 126; 127; 208; 209; 210; 211; 212; 213; 214; 215; 216; 217; 218; 219; 220; 221;
      222; 223]) ].

(** The [switch]: the first [case] that names the opcode. *)
Definition opc_switch (opc : Z) : option label :=
  match list_find (fun c => opc ∈ c.2) switch_cases with
  | Some (_, (l, _)) => Some l
  | None => None
  end.

(** [for (i = 0; i < n; ++i) dst_ptr[i] = src_ptr[i];] *)
Definition copy_bytes (n : Z) (inp : list Z) (s : Z) (out : list Z) (d : Z) : outcome (list Z) :=
  cfor (Z.to_nat n) 0 (fun i out => b ← aget inp (s + i); aset out (d + i) b) out.

(** [for (i = 0; i < n; i += 8) store8(&dst_ptr[i], load8(&src_ptr[i]));] *)
Definition copy_wide (n : Z) (inp : list Z) (s : Z) (out : list Z) (d : Z) : outcome (list Z) :=
  cfor (Z.to_nat ((n + 7) / 8)) 0
    (fun i out => v ← load8 inp (s + 8 * i); store8 out (d + 8 * i) v) out.

(** [for (i = 0; i < n; ++i) dst_ptr[i] = *(dst_ptr + i - D);] *)
Definition match_bytes (n : Z) (out : list Z) (d dist : Z) : outcome (list Z) :=
  cfor (Z.to_nat n) 0 (fun i out => b ← aget out (d + i - dist); aset out (d + i) b) out.

(** [for (i = 0; i < n; i += 8) store8(&dst_ptr[i], load8(dst_ptr + i - D));] *)
Definition match_wide (n : Z) (out : list Z) (d dist : Z) : outcome (list Z) :=
  cfor (Z.to_nat ((n + 7) / 8)) 0
    (fun i out => v ← load8 out (d + 8 * i - dist); store8 out (d + 8 * i) v) out.

(** The label [copy_match]. *)
Definition copy_match (st : lzvn_decoder_state) (out : list Z) (r : locals) (M : Z) : outcome flow :=
  if (u64 (M + 7) <=? dst_len r) && (8 <=? D r) then
    out ← match_wide M out (dst_ptr r) (D r); Ok (Next st out (inc_dst r M))
  else if M <=? dst_len r then
    out ← match_bytes M out (dst_ptr r) (D r); Ok (Next st out (inc_dst r M))
  else
    out ← match_bytes (dst_len r) out (dst_ptr r) (D r);
    Ok (Return (save st (src_ptr r) (dst_ptr r + dst_len r) 0 (M - dst_len r) (D r)) out).

(** The label [copy_literal_and_match], up to its jump into [copy_match]. *)
Definition copy_literal_and_match (st : lzvn_decoder_state) (inp out : list Z) (r : locals)
    (opc_len L M : Z) : outcome flow :=
  let r := inc_src r opc_len in
  let continue out :=
    let r := inc_src (inc_dst r L) L in
    if (u64 (dst_ptr r - dst_begin st) <? D r) || (D r =? 0) then Ok (Return st out)
    else copy_match st out r M in
  if (4 <=? dst_len r) && (4 <=? src_len r) then
    v ← load4 inp (src_ptr r); out ← store4 out (dst_ptr r) v; continue out
  else if L <=? dst_len r then
    out ← copy_bytes L inp (src_ptr r) out (dst_ptr r); continue out
  else
    out ← copy_bytes (dst_len r) inp (src_ptr r) out (dst_ptr r);
    Ok (Return (save st (src_ptr r + dst_len r) (dst_ptr r + dst_len r) (L - dst_len r) M (D r)) out).

(** The label [copy_literal]. *)
Definition copy_literal (st : lzvn_decoder_state) (inp out : list Z) (r : locals)
    (opc_len L : Z) : outcome flow :=
  if src_len r <=? u64 (opc_len + L) then Ok (Return st out)
  else
    let r := inc_src r opc_len in
    if (u64 (L + 7) <=? dst_len r) && (u64 (L + 7) <=? src_len r) then
      out ← copy_wide L inp (src_ptr r) out (dst_ptr r); Ok (Next st out (inc_src (inc_dst r L) L))
    else if L <=? dst_len r then
      out ← copy_bytes L inp (src_ptr r) out (dst_ptr r); Ok (Next st out (inc_src (inc_dst r L) L))
    else
      out ← copy_bytes (dst_len r) inp (src_ptr r) out (dst_ptr r);
      Ok (Return (save st (src_ptr r + dst_len r) (dst_ptr r + dst_len r) (L - dst_len r) 0 (D r)) out).

Definition do_sml_d (st : lzvn_decoder_state) (inp out : list Z) (r : locals) (opc : Z) : outcome flow :=
  let st := UPDATE_GOOD st r in
  let opc_len := 2 in
  let L := extract opc 6 2 in
  let M := extract opc 3 3 + 3 in
  if src_len r <=? opc_len + L then Ok (Return st out)
  else
    b1 ← aget inp (src_ptr r + 1);
    copy_literal_and_match st inp out (set_D r ((extract opc 0 3 << 8) .| b1)) opc_len L M.

Definition do_med_d (st : lzvn_decoder_state) (inp out : list Z) (r : locals) (opc : Z) : outcome flow :=
  let st := UPDATE_GOOD st r in
  let opc_len := 3 in
  let L := extract opc 3 2 in
  if src_len r <=? opc_len + L then Ok (Return st out)
  else
    opc23 ← load2 inp (src_ptr r + 1);
    let M := ((extract opc 0 3 << 2) .| extract opc23 0 2) + 3 in
    copy_literal_and_match st inp out (set_D r (extract opc23 2 14)) opc_len L M.

Definition do_lrg_d (st : lzvn_decoder_state) (inp out : list Z) (r : locals) (opc : Z) : outcome flow :=
  let st := UPDATE_GOOD st r in
  let opc_len := 3 in
  let L := extract opc 6 2 in
  let M := extract opc 3 3 + 3 in
  if src_len r <=? opc_len + L then Ok (Return st out)
  else
    d ← load2 inp (src_ptr r + 1);
    copy_literal_and_match st inp out (set_D r d) opc_len L M.

Definition do_pre_d (st : lzvn_decoder_state) (inp out : list Z) (r : locals) (opc : Z) : outcome flow :=
  let st := UPDATE_GOOD st r in
  let opc_len := 1 in
  let L := extract opc 6 2 in
  let M := extract opc 3 3 + 3 in
  if src_len r <=? opc_len + L then Ok (Return st out)
  else copy_literal_and_match st inp out r opc_len L M.

Definition do_sml_m (st : lzvn_decoder_state) (inp out : list Z) (r : locals) (opc : Z) : outcome flow :=
  let st := UPDATE_GOOD st r in
  let opc_len := 1 in
  if src_len r <=? opc_len then Ok (Return st out)
  else
    let M := extract opc 0 4 in
    copy_match st out (inc_src r opc_len) M.

Definition do_lrg_m (st : lzvn_decoder_state) (inp out : list Z) (r : locals) : outcome flow :=
  let st := UPDATE_GOOD st r in
  let opc_len := 2 in
  if src_len r <=? opc_len then Ok (Return st out)
  else
    b1 ← aget inp (src_ptr r + 1);
    copy_match st out (inc_src r opc_len) (b1 + 16).

Definition do_sml_l (st : lzvn_decoder_state) (inp out : list Z) (r : locals) (opc : Z) : outcome flow :=
  copy_literal (UPDATE_GOOD st r) inp out r 1 (extract opc 0 4).

Definition do_lrg_l (st : lzvn_decoder_state) (inp out : list Z) (r : locals) : outcome flow :=
  let st := UPDATE_GOOD st r in
  if src_len r <=? 2 then Ok (Return st out)
  else
    b1 ← aget inp (src_ptr r + 1);
    copy_literal st inp out r 2 (b1 + 16).

Definition do_nop (st : lzvn_decoder_state) (out : list Z) (r : locals) : outcome flow :=
  let st := UPDATE_GOOD st r in
  if src_len r <=? 1 then Ok (Return st out) else Ok (Next st out (inc_src r 1)).

Definition do_eos (st : lzvn_decoder_state) (out : list Z) (r : locals) : outcome flow :=
  if src_len r <? 8 then Ok (Return st out)
  else
    let st := mkState (src st) (src_end st) (dst st) (dst_begin st) (dst_end st) (dst_current st)
                      (sL st) (sM st) (sD st) (d_prev st) 1 in
    Ok (Return (UPDATE_GOOD st (inc_src r 8)) out).

(** [goto *opc_tbl[opc]] and the code at the target. *)
Definition dispatch (st : lzvn_decoder_state) (inp out : list Z) (r : locals) (opc : Z) : outcome flow :=
  l ← aget opc_tbl opc;
  match l with
  | sml_d => do_sml_d st inp out r opc
  | med_d => do_med_d st inp out r opc
  | lrg_d => do_lrg_d st inp out r opc
  | pre_d => do_pre_d st inp out r opc
  | sml_m => do_sml_m st inp out r opc
  | lrg_m => do_lrg_m st inp out r
  | sml_l => do_sml_l st inp out r opc
  | lrg_l => do_lrg_l st inp out r
  | nop => do_nop st out r
  | eos => do_eos st out r
  | udef => Ok (Return st out)
  end.

(** [opc = src_ptr[0]; goto *opc_tbl[opc];] until a target returns. *)
Fixpoint decode_loop (fuel : nat) (st : lzvn_decoder_state) (inp out : list Z) (r : locals)
  : outcome (lzvn_decoder_state * list Z) :=
  match fuel with
  | O => NoFuel
  | S fuel =>
      opc ← aget inp (src_ptr r);
      f ← dispatch st inp out r opc;
      match f with
      | Next st out r => decode_loop fuel st inp out r
      | Return st out => Ok (st, out)
      end
  end.

(** [lzvn_decode]: the empty-buffer check, the resumption of a saved partial
    opcode, and the opcode loop.  Every opcode consumes a source byte, so a
    source of [n] bytes needs at most [n + 1] rounds. *)
Definition lzvn_decode (st : lzvn_decoder_state) (inp out : list Z)
  : outcome (lzvn_decoder_state * list Z) :=
  let slen := u64 (src_end st - src st) in
  let dlen := u64 (dst_end st - dst st) in
  if (slen =? 0) || (dlen =? 0) then Ok (st, out)
  else
    let fuel := S (Z.to_nat slen) in
    if ctrue (sL st) || ctrue (sM st) then
      let r := mkLocals (src st) slen (dst st) dlen (sD st) in
      let L := sL st in
      let M := sM st in
      let st := save st (src st) (dst st) 0 0 0 in
      f ← (if M =? 0 then copy_literal st inp out r 0 L
           else if L =? 0 then copy_match st out r M
           else copy_literal_and_match st inp out r 0 L M);
      match f with
      | Next st out r => decode_loop fuel st inp out r
      | Return st out => Ok (st, out)
      end
    else decode_loop fuel st inp out (mkLocals (src st) slen (dst st) dlen (u64 (d_prev st))).

(** [lzvn_decode_buffer]: the number of bytes written, and the buffer. *)
Definition lzvn_decode_buffer (out : list Z) (dst_size : Z) (inp : list Z) (src_size : Z)
  : outcome (Z * list Z) :=
  let st := mkState 0 src_size 0 0 dst_size 0 0 0 0 0 0 in
  r ← lzvn_decode st inp out;
  Ok (dst (fst r) - 0, snd r).

(** sml_l "abcd", pre/sml match of distance 4, end of stream. *)
Example decode_ex :
  lzvn_decode_buffer (replicate 16 255) 16
    ([0xe4; 97; 98; 99; 100] ++ [0x08; 4] ++ [6; 0; 0; 0; 0; 0; 0; 0]) 15
  = Ok (8, [97; 98; 99; 100; 97; 98; 99; 100] ++ replicate 8 255).
Proof. vm_compute. reflexivity. Qed.

(** ** Reference decoder

    The same format read from the opcode comments of the source: the output
    is a list that grows at its end, a match of distance [d] repeats the
    byte [d] places back, one byte at a time.  [Ub] stands for a match
    opcode that uses the previous distance before any distance was set. *)

Module Ref.
(** Opcode classes by their bit patterns. *)
Definition classify (b : Z) : label :=
  if b =? 6 then eos
  else if (b =? 14) || (b =? 22) then nop
  else if b <? 64 then (if b mod 8 =? 7 then lrg_d else if b mod 8 =? 6 then udef else sml_d)
  else if (b / 16 =? 7) || (b / 16 =? 13) then udef
  else if b / 32 =? 5 then med_d
  else if b =? 224 then lrg_l
  else if b / 16 =? 14 then sml_l
  else if b =? 240 then lrg_m
  else if b / 16 =? 15 then sml_m
  else if b mod 8 =? 7 then lrg_d
  else if b mod 8 =? 6 then pre_d
  else sml_d.

(** [n] bytes from offset [a]. *)
Definition slice (l : list Z) (a n : Z) : list Z := take (Z.to_nat n) (drop (Z.to_nat a) l).

Fixpoint repeat_back (o : list Z) (d : Z) (n : nat) : list Z :=
  match n with
  | O => o
  | S n => repeat_back (o ++ [zget o (zlen o - d)]) d n
  end.

(** What one opcode does: stop with this output, or go on after [used] bytes. *)
Inductive result :=
| Stop (o : list Z)
| Go (used : Z) (o : list Z) (d : Z)
| Unset.

Definition do_match (cap used : Z) (o : list Z) (d M : Z) : result :=
  if d =? 0 then Unset
  else if cap - zlen o <? M then Stop (repeat_back o d (Z.to_nat (cap - zlen o)))
  else Go used (repeat_back o d (Z.to_nat M)) d.

Definition do_literal (cap : Z) (s o : list Z) (d hdr L : Z) : result :=
  if zlen s <=? hdr + L then Stop o
  else if cap - zlen o <? L then Stop (o ++ slice s hdr (cap - zlen o))
  else Go (hdr + L) (o ++ slice s hdr L) d.

Definition do_literal_match (cap : Z) (s o : list Z) (hdr L M d : Z) : result :=
  if zlen s <=? hdr + L then Stop o
  else if cap - zlen o <? L then Stop (o ++ slice s hdr (cap - zlen o))
  else
    let o1 := o ++ slice s hdr L in
    if (zlen o1 <? d) || (d =? 0) then Stop o else do_match cap (hdr + L) o1 d M.

(** One opcode; [good] is the output length at the start of the last opcode
    that recorded its position. *)
Definition do_opcode (cap : Z) (s o : list Z) (d good : Z) : result :=
  let b := zget s 0 in
  match classify b with
  | sml_d => do_literal_match cap s o 2 (b / 64) (b / 8 mod 8 + 3) (b mod 8 * 256 + zget s 1)
  | med_d => let w := zget s 1 + 256 * zget s 2 in
             do_literal_match cap s o 3 (b / 8 mod 4) (b mod 8 * 4 + w mod 4 + 3) (w / 4)
  | lrg_d => do_literal_match cap s o 3 (b / 64) (b / 8 mod 8 + 3) (zget s 1 + 256 * zget s 2)
  | pre_d => do_literal_match cap s o 1 (b / 64) (b / 8 mod 8 + 3) d
  | sml_m => if zlen s <=? 1 then Stop o else do_match cap 1 o d (b mod 16)
  | lrg_m => if zlen s <=? 2 then Stop o else do_match cap 2 o d (zget s 1 + 16)
  | sml_l => do_literal cap s o d 1 (b mod 16)
  | lrg_l => if zlen s <=? 2 then Stop o else do_literal cap s o d 2 (zget s 1 + 16)
  | nop => if zlen s <=? 1 then Stop o else Go 1 o d
  | eos => if zlen s <? 8 then Stop (take (Z.to_nat good) o) else Stop o
  | udef => Stop (take (Z.to_nat good) o)
  end.

Fixpoint decode (fuel : nat) (cap : Z) (s o : list Z) (d good : Z) : outcome (list Z) :=
  match fuel with
  | O => NoFuel
  | S fuel =>
      match do_opcode cap s o d good with
      | Stop o => Ok o
      | Go used o' d' => decode fuel cap (drop (Z.to_nat used) s) o' d' (zlen o)
      | Unset => Ub
      end
  end.

Definition decode_buffer (cap : Z) (s : list Z) : outcome (list Z) :=
  if (zlen s =? 0) || (cap =? 0) then Ok [] else decode (S (length s)) cap s [] 0 0.
End Ref.

Example ref_ex :
  Ref.decode_buffer 16 ([0xe4; 97; 98; 99; 100] ++ [0x08; 4] ++ [6; 0; 0; 0; 0; 0; 0; 0])
  = Ok [97; 98; 99; 100; 97; 98; 99; 100].
Proof. vm_compute. reflexivity. Qed.

Lemma opc_tbl_classify opc : in_u 8 opc → aget opc_tbl opc = Ok (Ref.classify opc).
Proof.
  intros H. assert (bool_decide (aget opc_tbl opc = Ok (Ref.classify opc)) = true) as E.
  { revert opc H. apply byte_cases. vm_compute. reflexivity. }
  by apply bool_decide_eq_true in E.
Qed.

(** The jump table and the [switch] of the two builds select the same
    code for every opcode byte. *)
Theorem opc_tbl_switch (opc : Z) :
  in_u 8 opc → ∃ l, aget opc_tbl opc = Ok l ∧ opc_switch opc = Some l.
Proof.
  intros H. assert (bool_decide (opc_switch opc = Some (Ref.classify opc)) = true) as E.
  { revert opc H. apply byte_cases. vm_compute. reflexivity. }
  apply bool_decide_eq_true in E. exists (Ref.classify opc). split; [by apply opc_tbl_classify|done].
Qed.

Lemma opc_tbl_switch_witness : ∃ l, aget opc_tbl 0xa5 = Ok l ∧ opc_switch 0xa5 = Some l.
Proof. apply (opc_tbl_switch 0xa5). done. Defined.

(** ** Copies as extensions of the decoded prefix *)

(** A destination buffer of [cap] bytes that starts with the output [o]. *)
Record holds (cap : Z) (o out : list Z) : Prop := {
  holds_prefix : o `prefix_of` out;
  holds_cap : zlen out = cap;
  holds_bytes : bytes_ok out
}.

Lemma holds_zget cap o out i : holds cap o out → 0 ≤ i < zlen o → zget out i = zget o i.
Proof. intros [[k ->] _ _] Hi. by apply zget_app_l. Qed.

Lemma holds_len cap o out : holds cap o out → zlen o ≤ cap.
Proof. intros [[k ->] <- _]. rewrite zlen_app. pose proof (zlen_nonneg k). lia. Qed.

Lemma holds_app_l cap o k out : holds cap (o ++ k) out → holds cap o out.
Proof. intros [[k' ->] ? ?]. split; [|done..]. exists (k ++ k'). by rewrite app_assoc. Qed.

Lemma holds_set cap o out b :
  holds cap o out → zlen o < cap → in_u 8 b →
  ∃ out', aset out (zlen o) b = Ok out' ∧ holds cap (o ++ [b]) out'.
Proof.
  intros [[k ->] Hc Hb] Hl Hin. rewrite aset_Ok by (pose proof (zlen_nonneg o); lia).
  eexists; split; [done|]. split; [|by rewrite zlen_insert|by apply bytes_ok_insert].
  rewrite zlen_app in Hc. unfold zlen in *. rewrite Nat2Z.id.
  replace (length o) with (length o + 0)%nat by lia.
  rewrite insert_app_r. destruct k as [|x k]; [cbn in Hc; lia|]. exists k. cbn. by rewrite <- app_assoc.
Qed.

Lemma storeLE_holds cap n o out v :
  holds cap o out → zlen o + Z.of_nat n ≤ cap →
  ∃ out', storeLE n out (zlen o) v = Ok out' ∧ holds cap (o ++ le_bytes n v) out'.
Proof.
  revert o out v. induction n as [|n IH]; intros o out v Ho Hl; cbn [storeLE le_bytes].
  - exists out. by rewrite app_nil_r.
  - destruct (holds_set cap o out (u8 v)) as (out1 & -> & Ho1); [done|lia|auto with cint|]. cbn [mbind outcome_bind].
    destruct (IH (o ++ [u8 v]) out1 (v / 256)) as (out2 & E & Ho2); [done|rewrite zlen_app; unfold zlen at 2; cbn; lia|].
    rewrite zlen_app in E. change (zlen [u8 v]) with 1 in E. rewrite E.
    exists out2. by rewrite <- app_assoc in Ho2.
Qed.

Lemma slice_zlen l a n : 0 ≤ a → 0 ≤ n → a + n ≤ zlen l → zlen (Ref.slice l a n) = n.
Proof. unfold zlen, Ref.slice. intros. rewrite length_take, length_drop. lia. Qed.

Lemma slice_add l a n m : 0 ≤ a → 0 ≤ n → 0 ≤ m →
  Ref.slice l a (n + m) = Ref.slice l a n ++ Ref.slice l (a + n) m.
Proof.
  intros. unfold Ref.slice. rewrite !Z2Nat.inj_add by lia.
  by rewrite <- drop_drop, take_take_drop.
Qed.

Lemma slice_cons l a n : 0 ≤ a < zlen l → 0 ≤ n →
  Ref.slice l a (n + 1) = zget l a :: Ref.slice l (a + 1) n.
Proof.
  unfold zlen. intros Ha Hn. unfold Ref.slice, zget.
  replace (Z.to_nat (n + 1)) with (S (Z.to_nat n)) by lia.
  destruct (lookup_lt_is_Some_2 l (Z.to_nat a)) as [x Hx]; [lia|].
  rewrite (drop_S l x) by done. cbn. rewrite Hx. replace (Z.to_nat (a + 1)) with (S (Z.to_nat a)) by lia. done.
Qed.

Lemma slice_one l a : 0 ≤ a < zlen l → Ref.slice l a 1 = [zget l a].
Proof. intros. apply (slice_cons l a 0); lia. Qed.

Lemma slice_0 l a : Ref.slice l a 0 = [].
Proof. done. Qed.

(** A little-endian load is the slice read as a number. *)
Lemma loadLE_slice n l a :
  bytes_ok l → 0 ≤ a → a + Z.of_nat n ≤ zlen l →
  ∃ v, loadLE n l a = Ok v ∧ le_bytes n v = Ref.slice l a (Z.of_nat n).
Proof.
  intros Hb. revert a. induction n as [|n IH]; intros a Ha Hl; cbn [loadLE]; [by exists 0|].
  rewrite aget_zget by lia. cbn.
  destruct (IH (a + 1)) as (v & -> & Hv); [lia..|]. cbn. eexists; split; [done|].
  replace (Z.of_nat (S n)) with (Z.of_nat n + 1) by lia. rewrite slice_cons by lia.
  pose proof (bytes_ok_zget l a Hb) as Hz. unfold in_u in Hz. cbn [le_bytes].
  replace ((zget l a + 256 * v) mod 256) with (zget l a) by zdiv.
  replace ((zget l a + 256 * v) / 256) with v by zdiv. by rewrite Hv.
Qed.

(** Load [n] bytes and store them at the end of the output. *)
Lemma move_holds cap n l a o out :
  bytes_ok l → 0 ≤ a → a + Z.of_nat n ≤ zlen l → holds cap o out → zlen o + Z.of_nat n ≤ cap →
  ∃ v out', loadLE n l a = Ok v ∧ storeLE n out (zlen o) v = Ok out'
    ∧ holds cap (o ++ Ref.slice l a (Z.of_nat n)) out'.
Proof.
  intros Hb Ha Hl Ho Hc. destruct (loadLE_slice n l a) as (v & Hv & E); [done..|].
  destruct (storeLE_holds cap n o out v) as (out' & Hs & Ho'); [done..|].
  exists v, out'. by rewrite <- E.
Qed.

Lemma copy_bytes_holds cap n inp s o out :
  bytes_ok inp → 0 ≤ s → 0 ≤ n → s + n ≤ zlen inp → holds cap o out → zlen o + n ≤ cap →
  ∃ out', copy_bytes n inp s out (zlen o) = Ok out' ∧ holds cap (o ++ Ref.slice inp s n) out'.
Proof.
  intros Hb Hs Hn Hl Ho Hc. unfold copy_bytes.
  destruct (cfor_inv (fun i out => holds cap (o ++ Ref.slice inp s i) out) (Z.to_nat n) 0
    (fun i out => b ← aget inp (s + i); aset out (zlen o + i) b) out) as (out' & E & H).
  - by rewrite slice_0, app_nil_r.
  - intros i out1 Hi H1. rewrite aget_zget by lia. cbn.
    destruct (holds_set cap (o ++ Ref.slice inp s i) out1 (zget inp (s + i))) as (out2 & E2 & H2);
      [done|rewrite zlen_app, slice_zlen by lia; lia|by apply bytes_ok_zget|].
    rewrite zlen_app, slice_zlen in E2 by lia. exists out2. split; [done|].
    by rewrite slice_add, slice_one, app_assoc by lia.
  - exists out'. split; [done|]. by replace (0 + Z.of_nat (Z.to_nat n)) with n in H by lia.
Qed.

(** The eight-byte loop writes at least the bytes asked for. *)
Lemma copy_wide_holds cap n inp s o out :
  bytes_ok inp → 0 ≤ s → 0 ≤ n → s + n + 7 ≤ zlen inp → holds cap o out → zlen o + n + 7 ≤ cap →
  ∃ out', copy_wide n inp s out (zlen o) = Ok out' ∧ holds cap (o ++ Ref.slice inp s n) out'.
Proof.
  intros Hb Hs Hn Hl Ho Hc. unfold copy_wide.
  destruct (cfor_inv (fun i out => holds cap (o ++ Ref.slice inp s (8 * i)) out) (Z.to_nat ((n + 7) / 8)) 0
    (fun i out => v ← load8 inp (s + 8 * i); store8 out (zlen o + 8 * i) v) out) as (out' & E & H).
  - by rewrite slice_0, app_nil_r.
  - intros i out1 Hi H1. assert (8 * i + 8 ≤ n + 7) by zdiv.
    destruct (move_holds cap 8 inp (s + 8 * i) (o ++ Ref.slice inp s (8 * i)) out1) as (v & out2 & E1 & E2 & H2);
      [done|lia|lia|done|rewrite zlen_app, slice_zlen by lia; lia|].
    rewrite zlen_app, slice_zlen in E2 by lia. unfold load8, store8. rewrite E1. cbn [mbind outcome_bind].
    exists out2. split; [done|]. replace (8 * (i + 1)) with (8 * i + 8) by lia.
    by rewrite slice_add, app_assoc by lia.
  - exists out'. split; [done|].
    replace (8 * (0 + Z.of_nat (Z.to_nat ((n + 7) / 8)))) with (n + (8 * ((n + 7) / 8) - n)) in H by zdiv.
    rewrite slice_add, app_assoc in H by zdiv. by apply holds_app_l in H.
Qed.

Lemma repeat_back_add o d n m : Ref.repeat_back o d (n + m) = Ref.repeat_back (Ref.repeat_back o d n) d m.
Proof. revert o. induction n; intros; cbn; auto. Qed.

Lemma repeat_back_zlen o d n : zlen (Ref.repeat_back o d n) = zlen o + Z.of_nat n.
Proof.
  revert o. induction n as [|n IH]; intros; cbn [Ref.repeat_back]; [lia|].
  rewrite IH, zlen_app. unfold zlen at 2. cbn. lia.
Qed.

Lemma repeat_back_prefix o d n : o `prefix_of` Ref.repeat_back o d n.
Proof.
  revert o. induction n as [|n IH]; intros; cbn [Ref.repeat_back]; [done|].
  etrans; [|apply IH]. by exists [zget o (zlen o - d)].
Qed.

Lemma holds_repeat_le cap o d n m out :
  (n ≤ m)%nat → holds cap (Ref.repeat_back o d m) out → holds cap (Ref.repeat_back o d n) out.
Proof.
  intros Hnm [Hp ? ?]. split; [|done..]. etrans; [|exact Hp].
  replace m with (n + (m - n))%nat by lia. rewrite repeat_back_add. apply repeat_back_prefix.
Qed.

Lemma slice_prefix l k a n : 0 ≤ a → 0 ≤ n → a + n ≤ zlen l → Ref.slice (l ++ k) a n = Ref.slice l a n.
Proof.
  unfold zlen, Ref.slice. intros. rewrite drop_app_le by lia.
  rewrite take_app_le; [done|]. rewrite length_drop. lia.
Qed.

(** A block no longer than the distance is copied as a whole. *)
Lemma repeat_back_block o d n :
  Z.of_nat n ≤ d ≤ zlen o →
  Ref.repeat_back o d n = o ++ Ref.slice o (zlen o - d) (Z.of_nat n).
Proof.
  intros Hd. induction n as [|n IH]; [by rewrite slice_0, app_nil_r|].
  replace (S n) with (n + 1)%nat by lia. rewrite repeat_back_add, IH by lia. cbn [Ref.repeat_back].
  rewrite zlen_app, slice_zlen by lia.
  rewrite zget_app_l by lia. rewrite Nat2Z.inj_add. rewrite slice_add, slice_one by lia.
  rewrite <- app_assoc. do 3 f_equal. f_equal. lia.
Qed.

Lemma match_bytes_holds cap n o out d :
  0 ≤ n → 0 < d ≤ zlen o → holds cap o out → zlen o + n ≤ cap →
  ∃ out', match_bytes n out (zlen o) d = Ok out' ∧ holds cap (Ref.repeat_back o d (Z.to_nat n)) out'.
Proof.
  intros Hn Hd Ho Hc. unfold match_bytes.
  destruct (cfor_inv (fun i out => holds cap (Ref.repeat_back o d (Z.to_nat i)) out) (Z.to_nat n) 0
    (fun i out => b ← aget out (zlen o + i - d); aset out (zlen o + i) b) out) as (out' & E & H).
  - done.
  - intros i out1 Hi H1. pose proof (repeat_back_zlen o d (Z.to_nat i)) as Hz.
    rewrite aget_zget by (rewrite (holds_cap _ _ _ H1); lia). cbn.
    rewrite (holds_zget _ _ _ _ H1) by lia.
    destruct (holds_set cap _ out1 (zget (Ref.repeat_back o d (Z.to_nat i)) (zlen o + i - d)) H1)
      as (out2 & E2 & H2); [lia| |].
    { rewrite <- (holds_zget _ _ _ _ H1) by lia. apply bytes_ok_zget, H1. }
    rewrite Hz in E2. replace (Z.of_nat (Z.to_nat i)) with i in * by lia. exists out2. split; [done|].
    replace (Z.to_nat (i + 1)) with (Z.to_nat i + 1)%nat by lia.
    rewrite repeat_back_add. cbn [Ref.repeat_back]. by rewrite Hz.
  - exists out'. split; [done|]. by replace (Z.to_nat (0 + Z.of_nat (Z.to_nat n))) with (Z.to_nat n) in H by lia.
Qed.

Lemma match_wide_holds cap n o out d :
  0 ≤ n → 8 ≤ d ≤ zlen o → holds cap o out → zlen o + n + 7 ≤ cap →
  ∃ out', match_wide n out (zlen o) d = Ok out' ∧ holds cap (Ref.repeat_back o d (Z.to_nat n)) out'.
Proof.
  intros Hn Hd Ho Hc. unfold match_wide.
  destruct (cfor_inv (fun i out => holds cap (Ref.repeat_back o d (Z.to_nat (8 * i))) out) (Z.to_nat ((n + 7) / 8)) 0
    (fun i out => v ← load8 out (zlen o + 8 * i - d); store8 out (zlen o + 8 * i) v) out) as (out' & E & H).
  - done.
  - intros i out1 Hi H1. assert (8 * i + 8 ≤ n + 7) by zdiv.
    set (o1 := Ref.repeat_back o d (Z.to_nat (8 * i))) in *.
    assert (zlen o1 = zlen o + 8 * i) as Hz by (unfold o1; rewrite repeat_back_zlen; lia).
    destruct (move_holds cap 8 out1 (zlen o + 8 * i - d) o1 out1) as (v & out2 & E1 & E2 & H2);
      [apply H1|lia|rewrite (holds_cap _ _ _ H1); lia|done|lia|].
    unfold load8, store8. rewrite E1. cbn [mbind outcome_bind]. rewrite Hz in E2.
    exists out2. split; [done|].
    replace (Z.to_nat (8 * (i + 1))) with (Z.to_nat (8 * i) + 8)%nat by lia.
    rewrite repeat_back_add. fold o1. rewrite repeat_back_block by lia. rewrite Hz.
    destruct H1 as [[k ->] ? ?]. by rewrite slice_prefix in H2 by lia.
  - exists out'. split; [done|]. eapply holds_repeat_le; [|exact H]. zdiv.
Qed.

(** With distance 0 every byte is copied onto itself. *)
Lemma match_bytes_zero n out d :
  0 ≤ d → 0 ≤ n → d + n ≤ zlen out → match_bytes n out d 0 = Ok out.
Proof.
  intros Hd Hn Hl. unfold match_bytes.
  destruct (cfor_inv (fun _ out' => out' = out) (Z.to_nat n) 0
    (fun i out => b ← aget out (d + i - 0); aset out (d + i) b) out) as (out' & -> & ->); [done| |done].
  intros i out1 Hi ->. exists out. split; [|done].
  replace (d + i - 0) with (d + i) by lia. rewrite aget_zget by lia. cbn. rewrite aset_Ok by lia.
  f_equal. apply list_insert_id. unfold zget.
  destruct (lookup_lt_is_Some_2 out (Z.to_nat (d + i))) as [x Hx]; [unfold zlen in Hl; lia|]. by rewrite Hx.
Qed.

(** ** One opcode *)

Section step.
  Context (inp : list Z) (cap : Z).
  Context (Hbytes : bytes_ok inp) (Hin : zlen inp < 2 ^ 63) (Hcap : 0 ≤ cap < 2 ^ 63).

(** The local variables describe the rest of both buffers, and the distance
    stays within the bytes already written. *)
Record good_locals (r : locals) : Prop := {
  gl_src : 0 ≤ src_ptr r < zlen inp;
  gl_src_len : src_len r = zlen inp - src_ptr r;
  gl_dst : 0 ≤ dst_ptr r ≤ cap;
  gl_dst_len : dst_len r = cap - dst_ptr r;
  gl_D : 0 ≤ D r ≤ dst_ptr r
}.

(** A jump target [f] that started at source offset [p] did what the
    reference says, unless the reference has no distance to use. *)
Definition agrees (p good : Z) (res : Ref.result) (f : flow) : Prop :=
  match f with
  | Next st out r =>
      good_locals r ∧ p < src_ptr r ∧ good ≤ dst_ptr r ∧ dst st = good ∧ dst_begin st = 0 ∧
      ∃ o, holds cap o out ∧ zlen o = dst_ptr r ∧
           (res = Ref.Unset ∨ res = Ref.Go (src_ptr r - p) o (D r))
  | Return st out =>
      ∃ o, holds cap o out ∧ zlen o = dst st ∧ (res = Ref.Unset ∨ res = Ref.Stop o)
  end.

Lemma holds_take o out n :
  holds cap o out → 0 ≤ n ≤ cap → ∃ o', holds cap o' out ∧ zlen o' = n.
Proof.
  intros [_ Hc Hb] Hn. exists (take (Z.to_nat n) out). split.
  - split; [apply prefix_take|done..].
  - unfold zlen in *. rewrite length_take. lia.
Qed.

Ltac locs := cbn [src_ptr src_len dst_ptr dst_len D inc_src inc_dst set_D] in *.

(** Locals equal up to the [u64] truncations that do nothing. *)
Lemma good_inc_dst r m : good_locals r → 0 ≤ m ≤ dst_len r → good_locals (inc_dst r m).
Proof.
  intros H Hm. destruct H as [? ? ? ? ?]. split; locs; rewrite ?wrap_small by (unfold in_u; lia); lia.
Qed.

Lemma good_inc_src r n : good_locals r → 0 ≤ n < src_len r → good_locals (inc_src r n).
Proof.
  intros H Hn. destruct H as [? ? ? ? ?]. split; locs; rewrite ?wrap_small by (unfold in_u; lia); lia.
Qed.

Lemma good_set_D r d : good_locals r → 0 ≤ d ≤ dst_ptr r → good_locals (set_D r d).
Proof. intros [? ? ? ? ?] Hd. split; locs; lia. Qed.

Lemma next_match st out r o M p :
  good_locals r → holds cap (Ref.repeat_back o (D r) (Z.to_nat M)) out → zlen o = dst_ptr r →
  0 ≤ M ≤ dst_len r → p < src_ptr r → dst_begin st = 0 → dst st ≤ dst_ptr r →
  agrees p (dst st) (Ref.Go (src_ptr r - p) (Ref.repeat_back o (D r) (Z.to_nat M)) (D r))
    (Next st out (inc_dst r M)).
Proof.
  intros. cbn [agrees]. split_conj; [by apply good_inc_dst|by cbn|cbn; lia|done|done|].
  eexists; split; [done|]. split; [rewrite repeat_back_zlen; locs; lia|by right].
Qed.

(** [copy_match], entered with the source already advanced past the opcode. *)
Lemma copy_match_agrees st r o out M p :
  good_locals r → holds cap o out → zlen o = dst_ptr r → 0 ≤ M < 1000 →
  p < src_ptr r → dst_begin st = 0 → dst st ≤ dst_ptr r →
  ∃ f, copy_match st out r M = Ok f ∧
       agrees p (dst st) (Ref.do_match cap (src_ptr r - p) o (D r) M) f.
Proof.
  intros Hg Ho Hz HM Hp Hb Hds. pose proof Hg as [? ? ? Hdl ?].
  assert (u64 (M + 7) = M + 7) as E7 by (apply wrap_small; unfold in_u; lia).
  unfold copy_match, Ref.do_match. rewrite E7, <- Hz in *.
  destruct (decide (D r = 0)) as [HD|HD].
  { rewrite HD, andb_false_r. cbn.
    assert (Hcopy : ∀ n, 0 ≤ n ≤ dst_len r → match_bytes n out (zlen o) 0 = Ok out).
    { intros. apply match_bytes_zero; [lia..|]. rewrite (holds_cap _ _ _ Ho). lia. }
    case_bool.
    - rewrite Hcopy by lia. cbn. eexists; split; [done|].
      destruct (holds_take o out (zlen o + M)) as (o' & ? & ?); [done|lia|].
      cbn. split_conj; [apply good_inc_dst; [done|lia]|lia|lia|done|done|]. exists o'. split_conj; [done|lia|by left].
    - rewrite Hcopy by lia. cbn. eexists; split; [done|].
      destruct (holds_take o out (zlen o + dst_len r)) as (o' & ? & ?); [done|lia|].
      exists o'. split_conj; [done|done|by left]. }
  rewrite (proj2 (Z.eqb_neq (D r) 0)) by done. rewrite <- Hdl.
  destruct ((M + 7 <=? dst_len r) && (8 <=? D r)) eqn:E1; [|destruct (M <=? dst_len r) eqn:E3]; zify_bools.
  - rewrite (proj2 (Z.ltb_ge (dst_len r) M)) by lia.
    destruct (match_wide_holds cap M o out (D r)) as (out' & -> & H'); [lia|lia|done|lia|].
    eexists; split; [done|]. apply next_match; (done || lia).
  - rewrite (proj2 (Z.ltb_ge (dst_len r) M)) by lia.
    destruct (match_bytes_holds cap M o out (D r)) as (out' & -> & H'); [lia|lia|done|lia|].
    eexists; split; [done|]. apply next_match; (done || lia).
  - rewrite (proj2 (Z.ltb_lt (dst_len r) M)) by lia.
    destruct (match_bytes_holds cap (dst_len r) o out (D r)) as (out' & -> & H'); [lia|lia|done|lia|].
    eexists; split; [done|]. eexists; split; [exact H'|]. split; [rewrite repeat_back_zlen; cbn; lia|by right].
Qed.

(** The rest of the source. *)
Definition rest (r : locals) : list Z := drop (Z.to_nat (src_ptr r)) inp.

Lemma rest_zlen r : good_locals r → zlen (rest r) = src_len r.
Proof. intros [? ? ? ? ?]. unfold rest, zlen in *. rewrite length_drop. lia. Qed.

Lemma rest_zget r i : good_locals r → 0 ≤ i → zget (rest r) i = zget inp (src_ptr r + i).
Proof.
  intros [? ? ? ? ?] Hi. unfold rest, zget. rewrite lookup_drop. by rewrite Z2Nat.inj_add by lia.
Qed.

Lemma rest_slice r a n : good_locals r → 0 ≤ a → Ref.slice (rest r) a n = Ref.slice inp (src_ptr r + a) n.
Proof.
  intros [? ? ? ? ?] Ha. unfold rest, Ref.slice. rewrite drop_drop. by rewrite Z2Nat.inj_add by lia.
Qed.

Lemma src_len_inc_src r n : good_locals r → 0 ≤ n ≤ src_len r → src_len (inc_src r n) = src_len r - n.
Proof. intros [? ? ? ? ?] Hn. cbn. apply wrap_small. unfold in_u. lia. Qed.

Lemma good_after_literal r hdr L :
  good_locals r → 0 ≤ hdr → 0 ≤ L ≤ dst_len r → hdr + L < src_len r →
  good_locals (inc_src (inc_dst (inc_src r hdr) L) L).
Proof.
  intros Hg Hh HL Hs. apply good_inc_src.
  - apply good_inc_dst; [|done]. apply good_inc_src; [done|lia].
  - pose proof (src_len_inc_src r hdr Hg ltac:(lia)) as E. cbn in E |- *. lia.
Qed.

Lemma lit_next st out r o hdr L :
  good_locals r → holds cap (o ++ Ref.slice (rest r) hdr L) out → zlen o = dst_ptr r → dst st = zlen o →
  dst_begin st = 0 → 0 < hdr → 0 ≤ L ≤ dst_len r → hdr + L < src_len r →
  agrees (src_ptr r) (zlen o) (Ref.Go (hdr + L) (o ++ Ref.slice (rest r) hdr L) (D r))
    (Next st out (inc_src (inc_dst (inc_src r hdr) L) L)).
Proof.
  intros Hg Ho Hz Hd Hb Hh HL Hs. cbn [agrees].
  split_conj; [apply good_after_literal; (done || lia)|cbn; lia|cbn; lia|done|done|].
  eexists; split; [done|]. split.
  - rewrite zlen_app, slice_zlen by (rewrite ?rest_zlen by done; lia). cbn. lia.
  - right. f_equal. cbn. lia.
Qed.

Lemma copy_literal_agrees st r o out hdr L :
  good_locals r → holds cap o out → zlen o = dst_ptr r → dst st = zlen o → dst_begin st = 0 →
  0 < hdr < 1000 → 0 ≤ L < 1000 →
  ∃ f, copy_literal st inp out r hdr L = Ok f ∧
       agrees (src_ptr r) (zlen o) (Ref.do_literal cap (rest r) o (D r) hdr L) f.
Proof.
  intros Hg Ho Hz Hd Hb Hh HL. pose proof Hg as [? ? ? Hdl ?].
  unfold copy_literal, Ref.do_literal. rewrite rest_zlen by done.
  rewrite !(wrap_small 64) by (unfold in_u; lia).
  destruct (src_len r <=? hdr + L) eqn:E; zify_bools.
  { eexists; split; [done|]. exists o. split_conj; [done|done|by right]. }
  rewrite src_len_inc_src by (done || lia). cbn [src_ptr dst_ptr dst_len inc_src].
  rewrite <- Hz in *. rewrite <- Hdl, rest_slice by (done || lia).
  destruct ((L + 7 <=? dst_len r) && (L + 7 <=? src_len r - hdr)) eqn:E1;
    [|destruct (L <=? dst_len r) eqn:E2]; zify_bools.
  - rewrite (proj2 (Z.ltb_ge (dst_len r) L)) by lia.
    destruct (copy_wide_holds cap L inp (src_ptr r + hdr) o out) as (out' & -> & H'); [done|lia..|done|lia|].
    eexists; split; [done|]. rewrite <- rest_slice in * by (done || lia). apply lit_next; (done || lia).
  - rewrite (proj2 (Z.ltb_ge (dst_len r) L)) by lia.
    destruct (copy_bytes_holds cap L inp (src_ptr r + hdr) o out) as (out' & -> & H'); [done|lia..|done|lia|].
    eexists; split; [done|]. rewrite <- rest_slice in * by (done || lia). apply lit_next; (done || lia).
  - rewrite (proj2 (Z.ltb_lt (dst_len r) L)) by lia.
    destruct (copy_bytes_holds cap (dst_len r) inp (src_ptr r + hdr) o out) as (out' & -> & H'); [done|lia..|done|lia|].
    eexists; split; [done|]. eexists; split; [exact H'|]. split; [|by right].
    rewrite zlen_app, slice_zlen by lia. done.
Qed.

(** The part of [copy_literal_and_match] after the literal. *)
Lemma after_literal_agrees st r o out hdr L M :
  good_locals (set_D r 0) → 0 ≤ D r < 2 ^ 63 → zlen o = dst_ptr r → dst st = zlen o → dst_begin st = 0 →
  0 < hdr → 0 ≤ L ≤ dst_len r → 0 ≤ M < 1000 → hdr + L < src_len r →
  let o1 := o ++ Ref.slice (rest r) hdr L in
  let r1 := inc_src (inc_dst (inc_src r hdr) L) L in
  holds cap o1 out →
  ∃ f, (if (u64 (dst_ptr r1 - dst_begin st) <? D r1) || (D r1 =? 0) then Ok (Return st out)
        else copy_match st out r1 M) = Ok f ∧
       agrees (src_ptr r) (zlen o)
         (if (zlen o1 <? D r) || (D r =? 0) then Ref.Stop o else Ref.do_match cap (hdr + L) o1 (D r) M) f.
Proof.
  intros Hg HD Hz Hd Hb Hh HL HM Hs o1 r1 Ho1. pose proof (gl_dst _ Hg) as Hp. cbn in Hp.
  assert (Hl1 : zlen o1 = dst_ptr r1).
  { unfold o1, r1. rewrite zlen_app. change (rest r) with (rest (set_D r 0)).
    rewrite slice_zlen by (rewrite ?rest_zlen by done; locs; lia). cbn. lia. }
  pose proof (holds_len _ _ _ Ho1) as Hcap1. pose proof (zlen_nonneg o1).
  rewrite wrap_small by (unfold in_u; rewrite Hb; lia). rewrite Hb, Z.sub_0_r, <- Hl1.
  change (D r1) with (D r).
  destruct ((zlen o1 <? D r) || (D r =? 0)) eqn:E.
  { eexists; split; [done|]. exists o. split_conj; [by eapply holds_app_l|done|by right]. }
  zify_bools. rewrite <- Hd. replace (hdr + L) with (src_ptr r1 - src_ptr r) by (unfold r1; cbn; lia).
  apply (copy_match_agrees st r1 o1 out M); try done; [|unfold r1; cbn; lia..].
  pose proof (good_after_literal (set_D r 0) hdr L Hg ltac:(lia) ltac:(done) Hs) as [? ? ? ? ?].
  split; try done. change (D r1) with (D r). lia.
Qed.

(** [copy_literal_and_match], after the length check of its opcode. *)
Lemma copy_literal_and_match_agrees st r o out hdr L M :
  good_locals (set_D r 0) → 0 ≤ D r < 2 ^ 63 → holds cap o out → zlen o = dst_ptr r → dst st = zlen o →
  dst_begin st = 0 → 0 < hdr < 1000 → 0 ≤ L ≤ 3 → 0 ≤ M < 1000 → hdr + L < src_len r →
  ∃ f, copy_literal_and_match st inp out r hdr L M = Ok f ∧
       agrees (src_ptr r) (zlen o) (Ref.do_literal_match cap (rest r) o hdr L M (D r)) f.
Proof.
  intros Hg HD Ho Hz Hd Hb Hh HL HM Hs. pose proof Hg as [? ? ? Hdl ?].
  pose proof (src_len_inc_src _ hdr Hg) as Hsl. locs. rewrite <- Hz in *.
  unfold copy_literal_and_match, Ref.do_literal_match.
  assert (zlen (rest r) = src_len r) as -> by (by apply (rest_zlen (set_D r 0))).
  cbn [src_ptr src_len dst_ptr dst_len inc_src]. cbn in Hsl. rewrite Hsl by lia. rewrite <- Hz, <- Hdl.
  rewrite (proj2 (Z.leb_gt (src_len r) (hdr + L))) by lia.
  pose proof (after_literal_agrees st r o) as After. cbv zeta in After.
  assert (Hsl2 : ∀ n, Ref.slice inp (src_ptr r + hdr) n = Ref.slice (rest r) hdr n)
    by (intros; symmetry; apply (rest_slice (set_D r 0)); [done|lia]).
  destruct ((4 <=? dst_len r) && (4 <=? src_len r - hdr)) eqn:E1;
    [|destruct (L <=? dst_len r) eqn:E2]; zify_bools.
  - rewrite (proj2 (Z.ltb_ge (dst_len r) L)) by lia. unfold load4, store4.
    destruct (move_holds cap 4 inp (src_ptr r + hdr) o out) as (v & out' & -> & E4 & H'); [done|lia..|done|lia|].
    cbn [mbind outcome_bind]. rewrite E4. apply After; try (done || lia).
    rewrite Hsl2 in H'. replace (Z.of_nat 4) with (L + (4 - L)) in H' by lia.
    rewrite slice_add, app_assoc in H' by lia. by apply holds_app_l in H'.
  - rewrite (proj2 (Z.ltb_ge (dst_len r) L)) by lia.
    destruct (copy_bytes_holds cap L inp (src_ptr r + hdr) o out) as (out' & -> & H'); [done|lia..|done|lia|].
    apply After; try (done || lia). by rewrite <- Hsl2.
  - rewrite (proj2 (Z.ltb_lt (dst_len r) L)) by lia.
    destruct (copy_bytes_holds cap (dst_len r) inp (src_ptr r + hdr) o out) as (out' & -> & H'); [done|lia..|done|lia|].
    eexists; split; [done|]. rewrite <- Hsl2. eexists; split; [exact H'|]. split; [|by right].
    rewrite zlen_app, slice_zlen by lia. done.
Qed.

Lemma extract_spec c lsb w : 0 ≤ lsb → 0 ≤ w < 64 → extract c lsb w = c / 2 ^ lsb mod 2 ^ w.
Proof.
  intros Hl Hw. unfold extract. rewrite (proj2 (Z.eqb_neq w 64)) by lia.
  rewrite Z.shiftl_mul_pow2, Z.mul_1_l, Z.shiftr_div_pow2 by lia.
  rewrite wrap_small by (split; [lia|apply Z.pow_lt_mono_r; lia]).
  rewrite <- Z.land_ones by lia. by rewrite Z.ones_equiv.
Qed.

(** The bit fields of an opcode byte. *)
Lemma opc_fields b : in_u 8 b →
  extract b 6 2 = b / 64 ∧ extract b 3 3 = b / 8 mod 8 ∧ extract b 3 2 = b / 8 mod 4 ∧
  extract b 0 3 = b mod 8 ∧ extract b 0 4 = b mod 16.
Proof.
  intros Hb. unfold in_u in Hb. rewrite !extract_spec by lia.
  change (2 ^ 6) with 64. change (2 ^ 2) with 4. change (2 ^ 3) with 8. change (2 ^ 0) with 1.
  change (2 ^ 4) with 16. rewrite Z.div_1_r. split_conj; try done. zdiv.
Qed.

Lemma load2_Ok p : 0 ≤ p → p + 2 ≤ zlen inp → load2 inp p = Ok (zget inp p + 256 * zget inp (p + 1)).
Proof. intros. unfold load2. cbn. rewrite !aget_zget by lia. cbn. f_equal. lia. Qed.

Context (st : lzvn_decoder_state) (r : locals) (o out : list Z).
Context (Hg : good_locals r) (Ho : holds cap o out) (Hz : zlen o = dst_ptr r) (Hb : dst_begin st = 0).

(** The literal-and-match opcodes after their fields are read. *)
Lemma lit_match_agrees hdr L M d :
  0 < hdr < 1000 → 0 ≤ L ≤ 3 → 0 ≤ M < 1000 → 0 ≤ d < 2 ^ 63 →
  ∃ f, (if src_len r <=? hdr + L then Ok (Return (UPDATE_GOOD st r) out)
        else copy_literal_and_match (UPDATE_GOOD st r) inp out (set_D r d) hdr L M) = Ok f ∧
       agrees (src_ptr r) (zlen o) (Ref.do_literal_match cap (rest r) o hdr L M d) f.
Proof.
  intros Hh HL HM Hd. destruct (Z.leb_spec (src_len r) (hdr + L)).
  - eexists; split; [done|]. unfold Ref.do_literal_match. rewrite rest_zlen by done.
    rewrite (proj2 (Z.leb_le (src_len r) _)) by lia. exists o. split_conj; [done|done|by right].
  - apply (copy_literal_and_match_agrees (UPDATE_GOOD st r) (set_D r d)); try done.
    by destruct Hg as [? ? ? ? ?]; split; locs; lia.
Qed.

Lemma stop_here res : res = Ref.Stop o →
  ∃ f, Ok (Return (UPDATE_GOOD st r) out) = Ok f ∧ agrees (src_ptr r) (zlen o) res f.
Proof. intros ->. eexists; split; [done|]. exists o. split_conj; [done|done|by right]. Qed.

Let b := zget inp (src_ptr r).

Ltac opc :=
  destruct (opc_fields b) as (E1 & E2 & E3 & E4 & E5); [by apply bytes_ok_zget|];
  pose proof (bytes_ok_zget inp (src_ptr r) Hbytes) as Hb8; fold b in Hb8; unfold in_u in Hb8;
  pose proof Hg as [? ? ? ? ?].

Lemma sml_d_agrees :
  ∃ f, do_sml_d st inp out r b = Ok f ∧ agrees (src_ptr r) (zlen o)
    (Ref.do_literal_match cap (rest r) o 2 (b / 64) (b / 8 mod 8 + 3) (b mod 8 * 256 + zget (rest r) 1)) f.
Proof.
  opc. unfold do_sml_d. rewrite E1, E2, E4. rewrite rest_zget by (done || lia).
  pose proof (bytes_ok_zget inp (src_ptr r + 1) Hbytes) as Hb1.
  edestruct (lit_match_agrees 2 (b / 64) (b / 8 mod 8 + 3) (b mod 8 * 256 + zget inp (src_ptr r + 1)))
    as (f & Ef & Hf); [lia|zdiv|zdiv|unfold in_u in *; zdiv|].
  exists f. split; [|done]. rewrite <- Ef. destruct (src_len r <=? 2 + b / 64) eqn:E; [done|]. zify_bools.
  assert (0 ≤ b / 64) by zdiv.
  rewrite aget_zget by lia. cbn [mbind outcome_bind]. rewrite Z.shiftl_mul_pow2 by lia.
  by rewrite lor_shift_add by (done || lia).
Qed.

Lemma med_d_agrees :
  ∃ f, do_med_d st inp out r b = Ok f ∧ agrees (src_ptr r) (zlen o)
    (let w := zget (rest r) 1 + 256 * zget (rest r) 2 in
     Ref.do_literal_match cap (rest r) o 3 (b / 8 mod 4) (b mod 8 * 4 + w mod 4 + 3) (w / 4)) f.
Proof.
  opc. unfold do_med_d. rewrite E3, E4. rewrite !rest_zget by (done || lia). cbv zeta.
  pose proof (bytes_ok_zget inp (src_ptr r + 1) Hbytes) as Hb1.
  pose proof (bytes_ok_zget inp (src_ptr r + 2) Hbytes) as Hb2. unfold in_u in Hb1, Hb2.
  set (w := zget inp (src_ptr r + 1) + 256 * zget inp (src_ptr r + 2)) in *.
  edestruct (lit_match_agrees 3 (b / 8 mod 4) (b mod 8 * 4 + w mod 4 + 3) (w / 4))
    as (f & Ef & Hf); [lia|zdiv|zdiv|zdiv|].
  exists f. split; [|done]. rewrite <- Ef. destruct (src_len r <=? 3 + b / 8 mod 4) eqn:E; [done|]. zify_bools.
  assert (0 ≤ b / 8 mod 4) by zdiv.
  rewrite load2_Ok by lia. cbn [mbind outcome_bind].
  replace (src_ptr r + 1 + 1) with (src_ptr r + 2) by lia. fold w.
  rewrite !extract_spec by lia. rewrite Z.shiftl_mul_pow2 by lia.
  rewrite lor_shift_add by (try lia; apply wrap_in_u; lia).
  do 2 f_equal; [f_equal|]; zdiv.
Qed.

Lemma lrg_d_agrees :
  ∃ f, do_lrg_d st inp out r b = Ok f ∧ agrees (src_ptr r) (zlen o)
    (Ref.do_literal_match cap (rest r) o 3 (b / 64) (b / 8 mod 8 + 3)
       (zget (rest r) 1 + 256 * zget (rest r) 2)) f.
Proof.
  opc. unfold do_lrg_d. rewrite E1, E2. rewrite !rest_zget by (done || lia).
  pose proof (bytes_ok_zget inp (src_ptr r + 1) Hbytes) as Hb1.
  pose proof (bytes_ok_zget inp (src_ptr r + 2) Hbytes) as Hb2. unfold in_u in Hb1, Hb2.
  edestruct (lit_match_agrees 3 (b / 64) (b / 8 mod 8 + 3)
    (zget inp (src_ptr r + 1) + 256 * zget inp (src_ptr r + 2))) as (f & Ef & Hf); [lia|zdiv|zdiv|lia|].
  exists f. split; [|done]. rewrite <- Ef. destruct (src_len r <=? 3 + b / 64) eqn:E; [done|]. zify_bools.
  assert (0 ≤ b / 64) by zdiv. rewrite load2_Ok by lia. cbn [mbind outcome_bind].
  by replace (src_ptr r + 1 + 1) with (src_ptr r + 2) by lia.
Qed.

Lemma pre_d_agrees :
  ∃ f, do_pre_d st inp out r b = Ok f ∧ agrees (src_ptr r) (zlen o)
    (Ref.do_literal_match cap (rest r) o 1 (b / 64) (b / 8 mod 8 + 3) (D r)) f.
Proof.
  opc. unfold do_pre_d. rewrite E1, E2.
  replace r with (set_D r (D r)) at 3 by (by destruct r).
  apply lit_match_agrees; [lia|zdiv|zdiv|lia].
Qed.

(** The match-only opcodes after their fields are read. *)
Lemma match_only_agrees hdr M :
  0 < hdr → 0 ≤ M < 1000 → hdr < src_len r →
  ∃ f, copy_match (UPDATE_GOOD st r) out (inc_src r hdr) M = Ok f ∧
       agrees (src_ptr r) (zlen o) (Ref.do_match cap hdr o (D r) M) f.
Proof.
  intros Hh HM Hs. pose proof (copy_match_agrees (UPDATE_GOOD st r) (inc_src r hdr) o out M (src_ptr r)) as H.
  cbn [src_ptr dst_ptr D inc_src UPDATE_GOOD dst dst_begin] in H.
  replace (src_ptr r + hdr - src_ptr r) with hdr in H by lia. rewrite Hz. apply H; try done; [|lia].
  apply good_inc_src; [done|lia].
Qed.

Lemma sml_m_agrees :
  ∃ f, do_sml_m st inp out r b = Ok f ∧ agrees (src_ptr r) (zlen o)
    (if zlen (rest r) <=? 1 then Ref.Stop o else Ref.do_match cap 1 o (D r) (b mod 16)) f.
Proof.
  opc. unfold do_sml_m. rewrite rest_zlen, E5 by done.
  destruct (src_len r <=? 1) eqn:E; zify_bools; [by apply stop_here|].
  apply match_only_agrees; [lia|zdiv|lia].
Qed.

Lemma lrg_m_agrees :
  ∃ f, do_lrg_m st inp out r = Ok f ∧ agrees (src_ptr r) (zlen o)
    (if zlen (rest r) <=? 2 then Ref.Stop o else Ref.do_match cap 2 o (D r) (zget (rest r) 1 + 16)) f.
Proof.
  opc. unfold do_lrg_m. rewrite rest_zlen by done.
  destruct (src_len r <=? 2) eqn:E; zify_bools; [by apply stop_here|].
  pose proof (bytes_ok_zget inp (src_ptr r + 1) Hbytes) as Hb1. unfold in_u in Hb1.
  rewrite aget_zget, rest_zget by (done || lia). cbn [mbind outcome_bind].
  apply match_only_agrees; lia.
Qed.

Lemma lrg_l_agrees :
  ∃ f, do_lrg_l st inp out r = Ok f ∧ agrees (src_ptr r) (zlen o)
    (if zlen (rest r) <=? 2 then Ref.Stop o else Ref.do_literal cap (rest r) o (D r) 2 (zget (rest r) 1 + 16)) f.
Proof.
  opc. unfold do_lrg_l. rewrite rest_zlen by done.
  destruct (src_len r <=? 2) eqn:E; zify_bools; [by apply stop_here|].
  pose proof (bytes_ok_zget inp (src_ptr r + 1) Hbytes) as Hb1. unfold in_u in Hb1.
  rewrite aget_zget, rest_zget by (done || lia). cbn [mbind outcome_bind].
  apply copy_literal_agrees; (done || lia).
Qed.

Lemma nop_agrees :
  ∃ f, do_nop st out r = Ok f ∧ agrees (src_ptr r) (zlen o)
    (if zlen (rest r) <=? 1 then Ref.Stop o else Ref.Go 1 o (D r)) f.
Proof.
  opc. unfold do_nop. rewrite rest_zlen by done.
  destruct (src_len r <=? 1) eqn:E; zify_bools; [by apply stop_here|].
  eexists; split; [done|]. cbn [agrees].
  split_conj; [apply good_inc_src; [done|lia]|cbn; lia|cbn; lia|done|done|].
  exists o. cbn. split_conj; [done|done|]. right. f_equal. lia.
Qed.

(** A target that returns without recording the position. *)
Lemma stale_agrees : 0 ≤ dst st ≤ zlen o →
  agrees (src_ptr r) (zlen o) (Ref.Stop (take (Z.to_nat (dst st)) o)) (Return st out).
Proof.
  intros Hd. exists (take (Z.to_nat (dst st)) o). split_conj; [| |by right].
  - rewrite <- (take_drop (Z.to_nat (dst st)) o) in Ho. by apply holds_app_l in Ho.
  - unfold zlen in *. rewrite length_take. lia.
Qed.

(** Every opcode byte does what the reference says. *)
Lemma dispatch_agrees : 0 ≤ dst st ≤ zlen o →
  ∃ f, dispatch st inp out r b = Ok f ∧
       agrees (src_ptr r) (zlen o) (Ref.do_opcode cap (rest r) o (D r) (dst st)) f.
Proof.
  intros Hd. opc. unfold dispatch, Ref.do_opcode.
  rewrite opc_tbl_classify by (by apply bytes_ok_zget). cbn [mbind outcome_bind].
  rewrite (rest_zget r 0), Z.add_0_r by (done || lia). fold b.
  destruct (Ref.classify b).
  - apply sml_d_agrees.
  - apply med_d_agrees.
  - apply lrg_d_agrees.
  - apply pre_d_agrees.
  - apply sml_m_agrees.
  - apply lrg_m_agrees.
  - unfold do_sml_l. rewrite E5. apply copy_literal_agrees; (done || zdiv).
  - apply lrg_l_agrees.
  - apply nop_agrees.
  - unfold do_eos. rewrite rest_zlen by done.
    destruct (src_len r <? 8) eqn:E; zify_bools; eexists; (split; [done|]); [by apply stale_agrees|].
    exists o. split_conj; [done|done|by right].
  - eexists; split; [done|]. by apply stale_agrees.
Qed.

End step.

(** ** The whole stream *)

Lemma decode_loop_agrees inp cap fuel st r o out :
  bytes_ok inp → zlen inp < 2 ^ 63 → 0 ≤ cap < 2 ^ 63 →
  good_locals inp cap r → holds cap o out → zlen o = dst_ptr r → dst_begin st = 0 →
  0 ≤ dst st ≤ zlen o → zlen inp - src_ptr r < Z.of_nat fuel →
  ∃ st' out' o', decode_loop fuel st inp out r = Ok (st', out') ∧ holds cap o' out' ∧ zlen o' = dst st' ∧
    (Ref.decode fuel cap (rest inp r) o (D r) (dst st) = Ub ∨
     Ref.decode fuel cap (rest inp r) o (D r) (dst st) = Ok o').
Proof.
  intros Hi Hl Hc. revert st r o out. induction fuel as [|fuel IH]; intros st r o out Hg Ho Hz Hb Hd Hf.
  { destruct Hg as [? ? ? ? ?]. lia. }
  cbn [decode_loop Ref.decode]. rewrite aget_zget by apply Hg. cbn [mbind outcome_bind].
  destruct (dispatch_agrees inp cap Hi Hl Hc st r o out Hg Ho Hz Hb Hd) as (f & -> & Hag).
  cbn [mbind outcome_bind]. destruct f as [st1 out1 r1|st1 out1]; cbn [agrees] in Hag.
  - destruct Hag as (Hg1 & Hp & Hle & Hd1 & Hb1 & o1 & Ho1 & Hz1 & Hres).
    destruct (IH st1 r1 o1 out1) as (st' & out' & o' & E & Ho' & Hz' & Hr'); try done.
    { rewrite Hd1. pose proof (zlen_nonneg o). lia. }
    { lia. }
    exists st', out', o'. split_conj; [done..|].
    destruct Hres as [-> | ->]; [by left|].
    unfold rest in *. rewrite drop_drop.
    replace (Z.to_nat (src_ptr r) + Z.to_nat (src_ptr r1 - src_ptr r))%nat with (Z.to_nat (src_ptr r1))
      by (destruct Hg as [? ? ? ? ?]; lia). by rewrite Hd1 in Hr'.
  - destruct Hag as (o1 & Ho1 & Hz1 & Hres). exists st1, out1, o1. split_conj; [done..|].
    destruct Hres as [-> | ->]; [by left|by right].
Qed.

Lemma decode_buffer_agrees inp cap out :
  bytes_ok inp → zlen inp < 2 ^ 63 → bytes_ok out → zlen out = cap → cap < 2 ^ 63 →
  ∃ out' o', lzvn_decode_buffer out cap inp (zlen inp) = Ok (zlen o', out') ∧ holds cap o' out' ∧
    (Ref.decode_buffer cap inp = Ub ∨ Ref.decode_buffer cap inp = Ok o').
Proof.
  intros Hi Hl Hb Hc Hcap. pose proof (zlen_nonneg inp). pose proof (zlen_nonneg out).
  unfold lzvn_decode_buffer, lzvn_decode, Ref.decode_buffer.
  cbn [src src_end dst dst_begin dst_end sL sM d_prev]. rewrite !Z.sub_0_r.
  rewrite (wrap_small 64 (zlen inp)), (wrap_small 64 cap) by (unfold in_u; lia).
  assert (holds cap [] out) as Hnil by (split; [apply prefix_nil|done..]).
  destruct ((zlen inp =? 0) || (cap =? 0)) eqn:E.
  { exists out, []. split_conj; [done|done|by right]. }
  zify_bools. change (ctrue 0 || ctrue 0) with false. cbv iota. change (u64 0) with 0.
  destruct (decode_loop_agrees inp cap (S (Z.to_nat (zlen inp))) (mkState 0 (zlen inp) 0 0 cap 0 0 0 0 0 0)
    (mkLocals 0 (zlen inp) 0 cap 0) [] out) as (st' & out' & o' & -> & Ho' & Hz' & Hr'); try done.
  { lia. } { split; cbn; lia. } { cbn; lia. }
  - exists out', o'. cbn [fst snd mbind outcome_bind]. rewrite Z.sub_0_r, <- Hz'. split_conj; [done..|].
    unfold rest in Hr'. cbn [src_ptr D dst Z.to_nat drop] in Hr'. by replace (Z.to_nat (zlen inp)) with (length inp) in Hr' by (unfold zlen; lia).
Qed.

(** On any source bytes and any destination buffer, valid stream or
    not, [lzvn_decode_buffer] reads and writes only inside the two buffers,
    finishes within one round per source byte, returns a count that fits the
    destination and leaves a buffer of the same size. *)
Theorem lzvn_decode_buffer_safe (inp out : list Z) :
  bytes_ok inp → bytes_ok out → zlen inp < 2 ^ 63 → zlen out < 2 ^ 63 →
  ∃ n out', lzvn_decode_buffer out (zlen out) inp (zlen inp) = Ok (n, out') ∧
    0 ≤ n ≤ zlen out ∧ zlen out' = zlen out ∧ bytes_ok out'.
Proof.
  intros Hi Ho Hl Hc. destruct (decode_buffer_agrees inp (zlen out) out) as (out' & o' & E & H & _); [done..|].
  exists (zlen o'), out'. pose proof (holds_len _ _ _ H). pose proof (zlen_nonneg o').
  destruct H as [_ ? ?]. split_conj; (done || lia).
Qed.

Lemma lzvn_decode_buffer_safe_witness :
  ∃ n out', lzvn_decode_buffer (replicate 3 0) 3 [0xe4; 1; 2; 3; 4; 5] 6 = Ok (n, out') ∧
    0 ≤ n ≤ 3 ∧ zlen out' = 3 ∧ bytes_ok out'.
Proof.
  apply (lzvn_decode_buffer_safe [0xe4; 1; 2; 3; 4; 5] (replicate 3 0));
    [repeat constructor; lia|repeat constructor; lia|done|done].
Defined.

(** C3: The decoder with its four- and eight-byte copies computes the
    reference decoder: whenever the reference decodes the stream to [o]
    (truncated sources, full destinations and invalid distances included),
    the code returns the length of [o] and the destination starts with [o]. *)
Theorem lzvn_decode_buffer_refines (inp out o : list Z) :
  bytes_ok inp → bytes_ok out → zlen inp < 2 ^ 63 → zlen out < 2 ^ 63 →
  Ref.decode_buffer (zlen out) inp = Ok o →
  ∃ out', lzvn_decode_buffer out (zlen out) inp (zlen inp) = Ok (zlen o, out') ∧ o `prefix_of` out'.
Proof.
  intros Hi Ho Hl Hc Hr. destruct (decode_buffer_agrees inp (zlen out) out) as (out' & o' & E & [H _ _] & [?|E2]);
    [done..|congruence|].
  exists out'. assert (o = o') as -> by congruence. done.
Qed.

Lemma lzvn_decode_buffer_refines_witness :
  ∃ out', lzvn_decode_buffer (replicate 16 255) 16
            ([0xe4; 97; 98; 99; 100] ++ [0x08; 1] ++ [6; 0; 0; 0; 0; 0; 0; 0]) 15 = Ok (8, out')
          ∧ [97; 98; 99; 100; 100; 100; 100; 100] `prefix_of` out'.
Proof.
  apply (lzvn_decode_buffer_refines ([0xe4; 97; 98; 99; 100] ++ [0x08; 1] ++ [6; 0; 0; 0; 0; 0; 0; 0])
    (replicate 16 255) [97; 98; 99; 100; 100; 100; 100; 100]); [|repeat constructor; lia|done|done|done].
  repeat constructor; lia.
Defined.

(** A match-only opcode before any distance was set is not rejected:
    [lzvn_decode_buffer] reports [m] decoded bytes and hands back the old
    contents of the destination. *)
Theorem zero_distance_match_accepted (m : Z) (out : list Z) :
  0 < m < 16 → m ≤ zlen out → zlen out < 2 ^ 63 →
  lzvn_decode_buffer out (zlen out) [0xf0 + m; 6; 0; 0; 0; 0; 0; 0; 0] 9 = Ok (m, out).
Proof.
  intros Hm Hl Hc. unfold lzvn_decode_buffer, lzvn_decode.
  cbn [src src_end dst dst_begin dst_end sL sM d_prev]. rewrite !Z.sub_0_r.
  rewrite (wrap_small 64 (zlen out)) by (unfold in_u; lia).
  rewrite (proj2 (Z.eqb_neq (zlen out) 0)) by lia. change ((u64 9 =? 0) || false) with false.
  change (ctrue 0 || ctrue 0) with false. cbv iota. change (Z.to_nat (u64 9)) with 9%nat.
  cbn [decode_loop src_ptr]. change (aget (240 + m :: ?l) 0) with (Ok (240 + m)). cbn [mbind outcome_bind].
  assert (aget opc_tbl (240 + m) = Ok sml_m) as Et.
  { pose proof (byte_cases (fun b => (b <=? 240) || bool_decide (aget opc_tbl b = Ok sml_m)) eq_refl
      (240 + m) ltac:(unfold in_u; lia)) as H. apply orb_true_iff in H as [H|H]; [lia|].
    by apply bool_decide_eq_true in H. }
  assert (∀ st inp out r, dispatch st inp out r (240 + m) = do_sml_m st inp out r (240 + m)) as ->
    by (intros; unfold dispatch; by rewrite Et).
  unfold do_sml_m.
  rewrite extract_spec by lia. change (2 ^ 4) with 16. replace ((240 + m) / 2 ^ 0 mod 16) with m by zdiv.
  unfold copy_match. cbn [inc_src src_len dst_len dst_ptr D]. change (u64 9 <=? 1) with false.
  change (8 <=? u64 0) with false. rewrite andb_false_r, (proj2 (Z.leb_le m (zlen out))) by lia.
  change (u64 0) with 0. rewrite match_bytes_zero by lia.
  transitivity (Ok (m - 0, out)); [reflexivity|by rewrite Z.sub_0_r].
Qed.

Lemma zero_distance_match_accepted_witness :
  lzvn_decode_buffer [11; 22; 33; 44] 4 [0xf3; 6; 0; 0; 0; 0; 0; 0; 0] 9 = Ok (3, [11; 22; 33; 44]).
Proof. apply (zero_distance_match_accepted 3 [11; 22; 33; 44]); done. Defined.

End Lzvn.
