(* ===== verification/Hde.v ===== *)
(** * Hacker Disassembler Engine, the common part
    ([Lilu.kext/hde/hde64.c], [Lilu.kext/hde/hde32.c])

    The two length disassemblers share their control flow and differ in the
    opcode table, in a few flag values and in the REX, SIB and immediate
    steps.  This file models the shared steps once, over the table and the
    flag values of a configuration; [Hde64] and [Hde32] supply the
    configurations and the steps of their own. *)

From Stdlib Require Import ZArith Lia.
From stdpp Require Import sets.
From S2P Require Import Prelude.

Module Hde.

Open Scope c_scope.

(** ** Constants of [table64.h] and [table32.h] *)

Definition C_MODRM := 0x01.
Definition C_IMM8 := 0x02.
Definition C_IMM16 := 0x04.
Definition C_IMM_P66 := 0x10.
Definition C_REL8 := 0x20.
Definition C_REL32 := 0x40.
Definition C_GROUP := 0x80.
Definition C_ERROR := 0xff.

Definition PRE_NONE := 0x01.
Definition PRE_F2 := 0x02.
Definition PRE_F3 := 0x04.
Definition PRE_66 := 0x08.
Definition PRE_67 := 0x10.
Definition PRE_LOCK := 0x20.
Definition PRE_SEG := 0x40.

(** Flag values that the two headers share. *)
Definition F_MODRM := 0x00000001.
Definition F_SIB := 0x00000002.
Definition F_IMM8 := 0x00000004.
Definition F_IMM16 := 0x00000008.
Definition F_IMM32 := 0x00000010.
Definition F_ERROR := 0x00001000.
Definition F_ERROR_OPCODE := 0x00002000.
Definition F_ERROR_LENGTH := 0x00004000.
Definition F_ERROR_LOCK := 0x00008000.
Definition F_ERROR_OPERAND := 0x00010000.

(** What differs between the two builds of the shared code. *)
Record cfg := mkCfg {
  table : list Z;
  DELTA_FPU_REG : Z;
  DELTA_FPU_MODRM : Z;
  DELTA_PREFIXES : Z;
  DELTA_OP_LOCK_OK : Z;
  DELTA_OP2_LOCK_OK : Z;
  DELTA_OP_ONLY_MEM : Z;
  DELTA_OP2_ONLY_MEM : Z;
  F_DISP8 : Z;
  F_DISP16 : Z;
  F_DISP32 : Z;
  F_RELATIVE : Z;
  (** Whether an address-size prefix rules out a SIB byte. *)
  no_sib_67 : bool
}.
Definition DELTA_OPCODES := 0x4a.

(** ** The result structure

    [hde64s] and [hde32s] as a store of named fields (the [rex] fields stay 0
    in the 32-bit build).  [imm] and [disp] are unions: a store replaces the
    low bytes. *)
Inductive field :=
| len | p_rep | p_lock | p_seg | p_66 | p_67
| rex | rex_w | rex_r | rex_x | rex_b
| opcode | opcode2 | modrm | modrm_mod | modrm_reg | modrm_rm
| sib | sib_scale | sib_index | sib_base | imm | disp | flags.

#[global] Instance field_eq_dec : EqDecision field.
Proof. solve_decision. Defined.

Definition hdes := field → Z.

Definition set (hs : hdes) (f : field) (v : Z) : hdes :=
  fun g => if decide (g = f) then v else hs g.

Definition or_flags (hs : hdes) (v : Z) : hdes := set hs flags (hs flags .| v).

(** Store the low [w] bits of a union member. *)
Definition set_low (hs : hdes) (f : field) (w v : Z) : hdes :=
  set hs f (hs f - wrap w (hs f) + v).

(** The structure after the initial [memset]. *)
Definition hs_zero : hdes := fun _ => 0.

(** ** Prefixes *)

(** The [switch] of the prefix loop; [None] is its [default]. *)
Definition prefix_case (hs : hdes) (pref c : Z) : option (hdes * Z) :=
  if c =? 0xf3 then Some (set hs p_rep c, pref .| PRE_F3)
  else if c =? 0xf2 then Some (set hs p_rep c, pref .| PRE_F2)
  else if c =? 0xf0 then Some (set hs p_lock c, pref .| PRE_LOCK)
  else if bool_decide (c ∈ [0x26; 0x2e; 0x36; 0x3e; 0x64; 0x65]) then
    Some (set hs p_seg c, pref .| PRE_SEG)
  else if c =? 0x66 then Some (set hs p_66 c, pref .| PRE_66)
  else if c =? 0x67 then Some (set hs p_67 c, pref .| PRE_67)
  else None.

(** The prefix loop, at most [x] bytes; returns [hs], [pref], [c] and [p]. *)
Fixpoint prefix_loop (x : nat) (code : list Z) (hs : hdes) (pref c p : Z)
  : outcome (hdes * Z * Z * Z) :=
  match x with
  | O => Ok (hs, pref, c, p)
  | S x =>
      c ← aget code p;
      match prefix_case hs pref c with
      | Some (hs, pref) => prefix_loop x code hs pref c (p + 1)
      | None => Ok (hs, pref, c, p + 1)
      end
  end.

(** From the start to the assignment of [hs->flags] after [pref_done]. *)
Definition prefixes (code : list Z) : outcome (hdes * Z * Z * Z) :=
  r ← prefix_loop 16 code hs_zero 0 0 0;
  let '(hs, pref, c, p) := r in
  let hs := set hs flags (u32 (pref << 23)) in
  let pref := if ctrue pref then pref else pref .| PRE_NONE in
  Ok (hs, pref, c, p).

(** ** Opcode *)

(** [ht[ht[opcode / 4] + (opcode % 4)]] *)
Definition table_entry (T : list Z) (ht opcode : Z) : outcome Z :=
  i ← aget T (ht + opcode / 4); aget T (ht + i + opcode mod 4).

(** The label [error_opcode]: the flags and the replacement [cflags]. *)
Definition error_opcode (hs : hdes) (opcode : Z) : hdes * Z :=
  (or_flags hs (F_ERROR .| F_ERROR_OPCODE), if (opcode & -3) =? 0x24 then 1 else 0).

(** The group lookup: [cflags] and the register mask [x]. *)
Definition group (T : list Z) (ht cflags : Z) : outcome (Z * Z) :=
  if ctrue (cflags & C_GROUP) then
    t ← loadLE 2 T (ht + (cflags & 0x7f)); Ok (u8 t, u8 (t >> 8))
  else Ok (cflags, 0).

(** The table lookup, [C_ERROR] and the group lookup of an opcode; returns
    [hs], [cflags] and [x]. *)
Definition lookup_opcode (T : list Z) (hs : hdes) (ht opcode : Z) : outcome (hdes * Z * Z) :=
  cflags ← table_entry T ht opcode;
  let '(hs, cflags) := if cflags =? C_ERROR then error_opcode hs opcode else (hs, cflags) in
  g ← group T ht cflags;
  Ok (hs, g.1, g.2).

(** The prefix check of two-byte opcodes. *)
Definition check_prefixes (K : cfg) (hs : hdes) (pref opcode : Z) : outcome hdes :=
  if ctrue (hs opcode2) then
    v ← table_entry (table K) (DELTA_PREFIXES K) opcode;
    Ok (if ctrue (v & pref) then or_flags hs (F_ERROR .| F_ERROR_OPCODE) else hs)
  else Ok hs.

(** ** ModR/M checks *)

(** The register mask of a group. *)
Definition check_group (hs : hdes) (x m_reg : Z) : hdes :=
  if ctrue x && ctrue ((x << m_reg) & 0x80) then or_flags hs (F_ERROR .| F_ERROR_OPCODE) else hs.

(** The FPU opcodes [0xd9] to [0xdf]. *)
Definition check_fpu (K : cfg) (hs : hdes) (opcode m_mod m_reg m_rm : Z) : outcome hdes :=
  if negb (ctrue (hs opcode2)) && (0xd9 <=? opcode) && (opcode <=? 0xdf) then
    let t := u8 (opcode - 0xd9) in
    t ← (if m_mod =? 3 then
           v ← aget (table K) (DELTA_FPU_MODRM K + t * 8 + m_reg); Ok (u8 (v << m_rm))
         else
           v ← aget (table K) (DELTA_FPU_REG K + t); Ok (u8 (v << m_reg)));
    Ok (if ctrue (t & 0x80) then or_flags hs (F_ERROR .| F_ERROR_OPCODE) else hs)
  else Ok hs.

(** The search of the LOCK tables, pairs of an opcode and a register mask;
    [true] is [goto no_lock_error]. *)
Fixpoint lock_loop (fuel : nat) (T : list Z) (ht table_end op m_reg : Z) : outcome bool :=
  match fuel with
  | O => NoFuel
  | S fuel =>
      if ht =? table_end then Ok false
      else
        b ← aget T ht;
        if b =? op then m ← aget T (ht + 1); Ok (negb (ctrue ((m << m_reg) & 0x80)))
        else lock_loop fuel T (ht + 2) table_end op m_reg
  end.

(** The LOCK prefix; the tables have at most 15 entries. *)
Definition check_lock (K : cfg) (hs : hdes) (pref opcode m_mod m_reg : Z) : outcome hdes :=
  if ctrue (pref & PRE_LOCK) then
    if m_mod =? 3 then Ok (or_flags hs (F_ERROR .| F_ERROR_LOCK))
    else
      ok ← (if ctrue (hs opcode2) then
              lock_loop 16 (table K) (DELTA_OP2_LOCK_OK K) (DELTA_OP_ONLY_MEM K) opcode m_reg
            else
              lock_loop 16 (table K) (DELTA_OP_LOCK_OK K) (DELTA_OP2_LOCK_OK K) (opcode & -2) m_reg);
      Ok (if ok : bool then hs else or_flags hs (F_ERROR .| F_ERROR_LOCK))
  else Ok hs.

(** The search of the memory-only tables, triples of an opcode, a prefix
    mask and a register mask; [true] is [goto error_operand]. *)
Fixpoint only_mem_loop (fuel : nat) (T : list Z) (ht table_end opcode pref m_reg : Z) : outcome bool :=
  match fuel with
  | O => NoFuel
  | S fuel =>
      if ht =? table_end then Ok false
      else
        b ← aget T ht;
        if b =? opcode then
          q ← aget T (ht + 1);
          if ctrue (q & pref) then
            m ← aget T (ht + 2); Ok (negb (ctrue ((m << m_reg) & 0x80)))
          else Ok false
        else only_mem_loop fuel T (ht + 3) table_end opcode pref m_reg
  end.

(** The operand checks from [if (m_mod == 3)] on; [true] is [error_operand]. *)
Definition check_mod (K : cfg) (hs : hdes) (pref opcode m_mod m_reg : Z) : outcome bool :=
  if m_mod =? 3 then
    if ctrue (hs opcode2) then
      only_mem_loop 16 (table K) (DELTA_OP2_ONLY_MEM K) (zlen (table K)) opcode pref m_reg
    else
      only_mem_loop 16 (table K) (DELTA_OP_ONLY_MEM K) (DELTA_OP2_ONLY_MEM K) opcode pref m_reg
  else if ctrue (hs opcode2) then
    if bool_decide (opcode ∈ [0x50; 0xd7; 0xf7]) then Ok (ctrue (pref & (PRE_NONE .| PRE_66)))
    else if opcode =? 0xd6 then Ok (ctrue (pref & (PRE_F2 .| PRE_F3)))
    else Ok (opcode =? 0xc5)
  else Ok false.

(** The whole operand check: the possibly changed [m_mod] and whether
    control reaches [error_operand]. *)
Definition check_operand (K : cfg) (hs : hdes) (pref opcode m_mod m_reg : Z) : outcome (Z * bool) :=
  if ctrue (hs opcode2) && ((opcode =? 0x20) || (opcode =? 0x22)) then
    Ok (3, (4 <? m_reg) || (m_reg =? 1))
  else if ctrue (hs opcode2) && ((opcode =? 0x21) || (opcode =? 0x23)) then
    Ok (3, (m_reg =? 4) || (m_reg =? 5))
  else if negb (ctrue (hs opcode2)) && (opcode =? 0x8c) then Ok (m_mod, 5 <? m_reg)
  else if negb (ctrue (hs opcode2)) && (opcode =? 0x8e) then
    Ok (m_mod, (m_reg =? 1) || (5 <? m_reg))
  else e ← check_mod K hs pref opcode m_mod m_reg; Ok (m_mod, e).

(** ** Displacement and SIB *)

(** The [switch (m_mod)] that picks the displacement size. *)
Definition disp_size_of (pref m_mod m_rm : Z) : Z :=
  if m_mod =? 0 then
    if ctrue (pref & PRE_67) then (if m_rm =? 6 then 2 else 0) else (if m_rm =? 5 then 4 else 0)
  else if m_mod =? 1 then 1
  else if m_mod =? 2 then (if ctrue (pref & PRE_67) then 2 else 4)
  else 0.

(** The SIB byte [c], already read; returns [hs], [disp_size] and the bytes
    it adds to [p]. *)
Definition sib_step (K : cfg) (hs : hdes) (pref m_mod m_rm c disp_size : Z) : hdes * Z * Z :=
  if negb (m_mod =? 3) && (m_rm =? 4) && negb (no_sib_67 K && ctrue (pref & PRE_67)) then
    let hs := or_flags hs F_SIB in
    let hs := set hs sib c in
    let hs := set hs sib_scale (c >> 6) in
    let hs := set hs sib_index ((c & 0x3f) >> 3) in
    let hs := set hs sib_base (c & 7) in
    (hs, if (hs sib_base =? 5) && negb (ctrue (m_mod & 1)) then 4 else disp_size, 1)
  else (hs, disp_size, 0).

(** The [switch (disp_size)]. *)
Definition disp_step (K : cfg) (code : list Z) (hs : hdes) (disp_size p : Z) : outcome hdes :=
  if disp_size =? 1 then
    v ← aget code p; Ok (set_low (or_flags hs (F_DISP8 K)) disp 8 v)
  else if disp_size =? 2 then
    v ← loadLE 2 code p; Ok (set_low (or_flags hs (F_DISP16 K)) disp 16 v)
  else if disp_size =? 4 then
    v ← loadLE 4 code p; Ok (set_low (or_flags hs (F_DISP32 K)) disp 32 v)
  else Ok hs.

(** The immediate that opcodes [0xf6] and [0xf7] take for [/0] and [/1]. *)
Definition grp3_imm (opcode m_reg cflags : Z) : Z :=
  if m_reg <=? 1 then
    if opcode =? 0xf6 then cflags .| C_IMM8
    else if opcode =? 0xf7 then cflags .| C_IMM_P66
    else cflags
  else cflags.

(** The whole [if (cflags & C_MODRM)] statement; returns [hs], [cflags] and [p]. *)
Definition modrm_step (K : cfg) (code : list Z) (hs : hdes) (pref opcode cflags x p : Z)
  : outcome (hdes * Z * Z) :=
  if ctrue (cflags & C_MODRM) then
    let hs := or_flags hs F_MODRM in
    c ← aget code p;
    let p := p + 1 in
    let m_mod := c >> 6 in
    let m_rm := c & 7 in
    let m_reg := (c & 0x3f) >> 3 in
    let hs := set (set (set (set hs modrm c) modrm_mod m_mod) modrm_rm m_rm) modrm_reg m_reg in
    let hs := check_group hs x m_reg in
    hs ← check_fpu K hs opcode m_mod m_reg m_rm;
    hs ← check_lock K hs pref opcode m_mod m_reg;
    e ← check_operand K hs pref opcode m_mod m_reg;
    let m_mod := e.1 in
    let hs := if e.2 : bool then or_flags hs (F_ERROR .| F_ERROR_OPERAND) else hs in
    c ← aget code p;
    let cflags := grp3_imm opcode m_reg cflags in
    let '(hs, disp_size, n) := sib_step K hs pref m_mod m_rm c (disp_size_of pref m_mod m_rm) in
    let p := p + 1 + n - 1 in
    hs ← disp_step K code hs disp_size p;
    Ok (hs, cflags, p + disp_size)
  else if ctrue (pref & PRE_LOCK) then Ok (or_flags hs (F_ERROR .| F_ERROR_LOCK), cflags, p)
  else Ok (hs, cflags, p).

(** ** Immediates *)

(** An unaligned [n]-byte load stored in a union member of that size, with its flag. *)
Definition load_imm (code : list Z) (hs : hdes) (f : field) (n : nat) (fl p : Z) : outcome hdes :=
  v ← loadLE n code p; Ok (set_low (or_flags hs fl) f (8 * Z.of_nat n) v).

(** [if (cflags & C_IMM8)] *)
Definition imm8_step (code : list Z) (hs : hdes) (cflags p : Z) : outcome (hdes * Z) :=
  if ctrue (cflags & C_IMM8) then
    hs ← load_imm code hs imm 1 F_IMM8 p; Ok (hs, p + 1)
  else Ok (hs, p).

(** The label [rel32_ok]. *)
Definition rel32_ok (K : cfg) (code : list Z) (hs : hdes) (p : Z) : outcome (hdes * Z) :=
  hs ← load_imm code hs imm 4 (F_IMM32 .| F_RELATIVE K) p; Ok (hs, p + 4).

(** [if (cflags & C_REL32) ... else if (cflags & C_REL8) ...] *)
Definition rel_step (K : cfg) (code : list Z) (hs : hdes) (cflags p : Z) : outcome (hdes * Z) :=
  if ctrue (cflags & C_REL32) then rel32_ok K code hs p
  else if ctrue (cflags & C_REL8) then
    hs ← load_imm code hs imm 1 (F_IMM8 .| F_RELATIVE K) p; Ok (hs, p + 1)
  else Ok (hs, p).

(** [C_IMM_P66] together with [C_REL32]. *)
Definition rel_p66 (K : cfg) (code : list Z) (hs : hdes) (pref p : Z) : outcome (hdes * Z) :=
  if ctrue (pref & PRE_66) then
    hs ← load_imm code hs imm 2 (F_IMM16 .| F_RELATIVE K) p; Ok (hs, p + 2)
  else rel32_ok K code hs p.

(** The label [disasm_done]. *)
Definition disasm_done (hs : hdes) (p : Z) : hdes :=
  let hs := set hs len (u8 p) in
  if 15 <? hs len then set (or_flags hs (F_ERROR .| F_ERROR_LENGTH)) len 15 else hs.

(** ** The structure and its layout flags *)

Lemma set_eq hs f v : set hs f v f = v.
Proof. unfold set. by rewrite decide_True. Qed.

Lemma set_ne hs f g v : g ≠ f → set hs f v g = hs g.
Proof. intros. unfold set. by rewrite decide_False. Qed.

(** The flags under a mask. *)
Definition lay (M : Z) (hs : hdes) : Z := hs flags & M.

Lemma lay_set M hs f v : f ≠ flags → lay M (set hs f v) = lay M hs.
Proof. intros. unfold lay. by rewrite set_ne. Qed.

Lemma lay_or M hs v : lay M (or_flags hs v) = lay M hs .| (v & M).
Proof. unfold lay, or_flags. by rewrite set_eq, Z.land_lor_distr_l. Qed.

Lemma lay_set_low M hs f w v : f ≠ flags → lay M (set_low hs f w v) = lay M hs.
Proof. apply lay_set. Qed.

Lemma or_flags_ne hs v f : f ≠ flags → or_flags hs v f = hs f.
Proof. apply set_ne. Qed.

(** [hs'] differs from [hs] in flags outside the mask at most. *)
Definition kept (M : Z) (hs hs' : hdes) : Prop :=
  lay M hs' = lay M hs ∧ ∀ f, f ≠ flags → hs' f = hs f.

#[global] Instance kept_preorder M : PreOrder (kept M).
Proof.
  split; [by intros hs; split|]. intros a b c [E1 F1] [E2 F2]. split; [congruence|].
  intros f Hf. by rewrite F2, F1.
Qed.

Lemma kept_or M hs v : (v & M) = 0 → kept M hs (or_flags hs v).
Proof.
  intros H. split; [by rewrite lay_or, H, Z.lor_0_r|]. intros f Hf. by apply or_flags_ne.
Qed.

(** Membership of a field in a literal list. *)
Ltac notin := repeat (apply not_elem_of_cons; split; [done|]); apply not_elem_of_nil.

(** ** What the steps need of a configuration *)

(** A search range of [k] records of [n] bytes inside the table. *)
Definition records (T : list Z) (n : Z) (a e : Z) : Prop :=
  ∃ k : nat, (k ≤ 15)%nat ∧ 0 ≤ a ∧ e = a + n * Z.of_nat k ∧ e ≤ zlen T.

Definition disp_flag (K : cfg) (d : Z) : Z :=
  if d =? 1 then F_DISP8 K else if d =? 2 then F_DISP16 K else if d =? 4 then F_DISP32 K else 0.

(** The mask [M] of the layout flags does not meet the error flags of the steps. *)
Class CfgOk (K : cfg) (M : Z) : Prop := {
  ok_prefix : ∀ op, in_u 8 op → ∃ v, table_entry (table K) (DELTA_PREFIXES K) op = Ok v;
  ok_fpu_reg : 0 ≤ DELTA_FPU_REG K ∧ DELTA_FPU_REG K + 7 ≤ zlen (table K);
  ok_fpu_modrm : 0 ≤ DELTA_FPU_MODRM K ∧ DELTA_FPU_MODRM K + 56 ≤ zlen (table K);
  ok_lock : records (table K) 2 (DELTA_OP_LOCK_OK K) (DELTA_OP2_LOCK_OK K);
  ok_lock2 : records (table K) 2 (DELTA_OP2_LOCK_OK K) (DELTA_OP_ONLY_MEM K);
  ok_mem : records (table K) 3 (DELTA_OP_ONLY_MEM K) (DELTA_OP2_ONLY_MEM K);
  ok_mem2 : records (table K) 3 (DELTA_OP2_ONLY_MEM K) (zlen (table K));
  ok_mask : ((F_ERROR .| F_ERROR_OPCODE .| F_ERROR_LOCK .| F_ERROR_OPERAND) & M) = 0;
  ok_modrm : (F_MODRM & M) = F_MODRM;
  ok_sib : (F_SIB & M) = F_SIB;
  ok_disp : ∀ d, (disp_flag K d & M) = disp_flag K d;
  ok_pref : ∀ pref, in_u 7 pref → (u32 (pref << 23) & M) = 0
}.

Section steps.
  Context {K : cfg} {M : Z} `{!CfgOk K M}.

Lemma mask_errors v : Z.land v (F_ERROR .| F_ERROR_OPCODE .| F_ERROR_LOCK .| F_ERROR_OPERAND) = v → (v & M) = 0.
Proof. intros <-. by rewrite <- Z.land_assoc, ok_mask, Z.land_0_r. Qed.

Lemma kept_err hs v : Z.land v (F_ERROR .| F_ERROR_OPCODE .| F_ERROR_LOCK .| F_ERROR_OPERAND) = v →
  kept M hs (or_flags hs v).
Proof. intros. by apply kept_or, mask_errors. Qed.

Lemma kept_if (b : bool) hs hs' : kept M hs hs' → kept M hs (if b then hs' else hs).
Proof. by destruct b. Qed.

Lemma check_prefixes_ok hs pref op : in_u 8 op → ∃ hs', check_prefixes K hs pref op = Ok hs' ∧ kept M hs hs'.
Proof.
  intros Hop. unfold check_prefixes. destruct (ctrue (hs opcode2)); [|by exists hs].
  destruct (ok_prefix op Hop) as [v ->]. cbn. eexists; split; [done|]. by apply kept_if, kept_err.
Qed.

Lemma check_group_kept hs x m_reg : kept M hs (check_group hs x m_reg).
Proof. by apply kept_if, kept_err. Qed.

Lemma check_fpu_ok hs op m_mod m_reg m_rm : in_u 8 op → 0 ≤ m_reg < 8 →
  ∃ hs', check_fpu K hs op m_mod m_reg m_rm = Ok hs' ∧ kept M hs hs'.
Proof.
  intros Hop Hr. unfold check_fpu. destruct (negb _ && _ && _) eqn:E; [|by exists hs].
  zify_bools. rewrite (wrap_small 8 (op - 0xd9)) by (unfold in_u in *; lia).
  pose proof ok_fpu_reg. pose proof ok_fpu_modrm.
  destruct (m_mod =? 3).
  - rewrite aget_zget by lia. cbn. eexists; split; [done|]. by apply kept_if, kept_err.
  - rewrite aget_zget by lia. cbn. eexists; split; [done|]. by apply kept_if, kept_err.
Qed.

Lemma lock_loop_ok T k fuel a e op m_reg :
  0 ≤ a → e = a + 2 * Z.of_nat k → e ≤ zlen T → (k < fuel)%nat → ∃ b, lock_loop fuel T a e op m_reg = Ok b.
Proof.
  revert fuel a. induction k as [|k IH]; intros [|fuel] a Ha He Hl Hf; try lia; cbn [lock_loop].
  - rewrite (proj2 (Z.eqb_eq a e)) by lia. eauto.
  - rewrite (proj2 (Z.eqb_neq a e)) by lia. rewrite (aget_zget T a) by lia. cbn [mbind outcome_bind].
    case_bool; [rewrite aget_zget by lia; cbn; eauto|]. apply IH; lia.
Qed.

Lemma only_mem_loop_ok T k fuel a e op pref m_reg :
  0 ≤ a → e = a + 3 * Z.of_nat k → e ≤ zlen T → (k < fuel)%nat →
  ∃ b, only_mem_loop fuel T a e op pref m_reg = Ok b.
Proof.
  revert fuel a. induction k as [|k IH]; intros [|fuel] a Ha He Hl Hf; try lia; cbn [only_mem_loop].
  - rewrite (proj2 (Z.eqb_eq a e)) by lia. eauto.
  - rewrite (proj2 (Z.eqb_neq a e)) by lia. rewrite (aget_zget T a) by lia. cbn [mbind outcome_bind].
    case_bool; [|apply IH; lia]. rewrite (aget_zget T (a + 1)) by lia. cbn [mbind outcome_bind].
    case_bool; [|eauto]. rewrite aget_zget by lia. cbn. eauto.
Qed.

Lemma check_lock_ok hs pref op m_mod m_reg :
  ∃ hs', check_lock K hs pref op m_mod m_reg = Ok hs' ∧ kept M hs hs'.
Proof.
  unfold check_lock. destruct (ctrue _); [|by exists hs].
  destruct (m_mod =? 3); [eexists; split; [done|]; by apply kept_err|].
  destruct ok_lock as (k1 & ? & ? & ? & ?), ok_lock2 as (k2 & ? & ? & ? & ?).
  destruct (ctrue (hs opcode2)).
  - destruct (lock_loop_ok (table K) k2 16 (DELTA_OP2_LOCK_OK K) (DELTA_OP_ONLY_MEM K) op m_reg) as [[] ->];
      [lia..| |]; cbn; eexists; (split; [done|]); [done|by apply kept_err].
  - destruct (lock_loop_ok (table K) k1 16 (DELTA_OP_LOCK_OK K) (DELTA_OP2_LOCK_OK K) (op & -2) m_reg) as [[] ->];
      [lia..| |]; cbn; eexists; (split; [done|]); [done|by apply kept_err].
Qed.

Lemma check_operand_ok hs pref op m_mod m_reg :
  ∃ r, check_operand K hs pref op m_mod m_reg = Ok r ∧
    (r.1 = m_mod ∨ r.1 = 3 ∧ hs opcode2 ≠ 0 ∧ 0x20 ≤ op ≤ 0x23).
Proof.
  unfold check_operand.
  repeat (case_bool; [eexists; split; [done|]; cbn; first [by left|right; split_conj; (done || lia)]|]).
  assert (∃ e, check_mod K hs pref op m_mod m_reg = Ok e) as [e ->]; [|cbn; eexists; split; [done|]; by left].
  unfold check_mod. destruct ok_mem as (k1 & ? & ? & ? & ?), ok_mem2 as (k2 & ? & ? & ? & ?).
  repeat case_bool; eauto; [eapply (only_mem_loop_ok _ k2)|eapply (only_mem_loop_ok _ k1)]; (done || lia).
Qed.

Lemma loadLE_Ok n (l : list Z) a : 0 ≤ a → a + Z.of_nat n ≤ zlen l → ∃ v, loadLE n l a = Ok v.
Proof.
  revert a. induction n as [|n IH]; intros a Ha Hl; cbn [loadLE]; [eauto|].
  rewrite aget_zget by lia. cbn. destruct (IH (a + 1)) as [v ->]; [lia..|]. cbn. eauto.
Qed.

(** A store of a [n]-byte value into a union that is still zero. *)
Lemma set_low_zero hs f w v : 0 ≤ w → hs f = 0 → set_low hs f w v f = v.
Proof. intros Hw Hf. unfold set_low. rewrite set_eq, Hf, wrap_small; [lia|]. split; [lia|]. by apply Z.pow_pos_nonneg. Qed.

(** The addressing forms of the instruction set: whether a SIB byte follows a
    ModR/M byte and how many bytes of displacement there are, with 32- and
    64-bit addresses and with 16-bit addresses. *)
Definition form_sib (md rm : Z) : bool := negb (md =? 3) && (rm =? 4).
Definition form_disp (md rm base : Z) : Z :=
  match md with
  | 0 => if (rm =? 5) || (rm =? 4) && (base =? 5) then 4 else 0
  | 1 => 1
  | 2 => 4
  | _ => 0
  end.
Definition form16_disp (md rm : Z) : Z :=
  match md with 0 => if rm =? 6 then 2 else 0 | 1 => 1 | 2 => 2 | _ => 0 end.

(** [s] and [d] are the sizes the form asks for; the 64-bit decoder makes no
    claim for an address-size prefix. *)
Definition addressed (pref md rm base s d : Z) : Prop :=
  if ctrue (pref & PRE_67) then no_sib_67 K = true → s = 0 ∧ d = form16_disp md rm
  else s = cbool (form_sib md rm) ∧ d = form_disp md rm base.

Definition disp_ok (d : Z) : Prop := d = 0 ∨ d = 1 ∨ d = 2 ∨ d = 4.

Lemma disp_size_of_ok pref m_mod m_rm : disp_ok (disp_size_of pref m_mod m_rm).
Proof. unfold disp_size_of, disp_ok. repeat case_bool; auto. Qed.

(** The displacement is the little-endian number at [p]. *)
Lemma disp_step_spec code hs d p :
  disp_ok d → 0 ≤ p → p + 4 ≤ zlen code → hs disp = 0 →
  ∃ hs', disp_step K code hs d p = Ok hs' ∧ lay M hs' = lay M hs .| disp_flag K d ∧
    (∀ f, f ≠ flags → f ≠ disp → hs' f = hs f) ∧
    (d = 0 ∧ hs' disp = 0 ∨ loadLE (Z.to_nat d) code p = Ok (hs' disp)).
Proof.
  intros Hd Hp Hl H0. pose proof (ok_disp d) as Hm. unfold disp_flag in *.
  destruct Hd as [-> | [-> | [-> | ->]]]; cbn [disp_step Z.eqb Pos.eqb] in *;
    unfold disp_step; cbn [Z.eqb Pos.eqb].
  - exists hs. rewrite Z.lor_0_r. split_conj; [done|done|done|by left].
  - rewrite aget_zget by lia. cbn [mbind outcome_bind]. eexists; split; [done|].
    rewrite lay_set_low, lay_or, Hm by done. split_conj; [done| |].
    + intros f ? ?. unfold set_low. by rewrite set_ne, or_flags_ne.
    + right. rewrite set_low_zero by (try lia; by rewrite or_flags_ne). change (Z.to_nat 1) with 1%nat. cbn [loadLE]. rewrite aget_zget by lia. cbn. f_equal. lia.
  - destruct (loadLE_Ok 2 code p) as [v Hv]; [lia..|]. rewrite Hv. cbn [mbind outcome_bind]. eexists; split; [done|].
    rewrite lay_set_low, lay_or, Hm by done. split_conj; [done| |].
    + intros f ? ?. unfold set_low. by rewrite set_ne, or_flags_ne.
    + right. rewrite set_low_zero by (try lia; by rewrite or_flags_ne). done.
  - destruct (loadLE_Ok 4 code p) as [v Hv]; [lia..|]. rewrite Hv. cbn [mbind outcome_bind]. eexists; split; [done|].
    rewrite lay_set_low, lay_or, Hm by done. split_conj; [done| |].
    + intros f ? ?. unfold set_low. by rewrite set_ne, or_flags_ne.
    + right. rewrite set_low_zero by (try lia; by rewrite or_flags_ne). done.
Qed.

(** [hs'] has the three fields of the ModR/M or SIB byte [c]. *)
Definition split_byte (hs : hdes) (byte hi mid lo : field) (c : Z) : Prop :=
  hs byte = c ∧ hs hi = c / 64 ∧ hs mid = c / 8 mod 8 ∧ hs lo = c mod 8.

Lemma split_bits c : in_u 8 c → c >> 6 = c / 64 ∧ (c & 0x3f) >> 3 = c / 8 mod 8 ∧ (c & 7) = c mod 8.
Proof.
  intros Hc. pose proof (byte_cases (fun c => (c >> 6 =? c / 64) && ((c & 0x3f) >> 3 =? c / 8 mod 8)
    && ((c & 7) =? c mod 8)) ltac:(vm_compute; reflexivity) c Hc) as H. cbv beta in H. zify_bools. done.
Qed.

Lemma sib_step_spec hs pref m_mod m_rm c d :
  in_u 8 c → disp_ok d →
  ∃ hs' d' n, sib_step K hs pref m_mod m_rm c d = (hs', d', n) ∧ disp_ok d' ∧
    (∀ f, f ∉ [flags; sib; sib_scale; sib_index; sib_base] → hs' f = hs f) ∧
    (n = 0 ∧ hs' = hs ∨
     n = 1 ∧ lay M hs' = lay M hs .| F_SIB ∧ split_byte hs' sib sib_scale sib_index sib_base c).
Proof.
  intros Hc Hd. unfold sib_step. case_bool; [|exists hs, d, 0; split_conj; [done..|by left]].
  do 3 eexists. split; [done|]. destruct (split_bits c Hc) as (-> & -> & ->). split_conj.
  - case_bool; [unfold disp_ok; by auto|done].
  - intros f Hf. rewrite !not_elem_of_cons in Hf. rewrite !set_ne by naive_solver. apply or_flags_ne. naive_solver.
  - right. split; [done|]. split.
    + by rewrite !lay_set, lay_or, ok_sib by done.
    + repeat split; repeat (rewrite set_ne by done || rewrite set_eq); done.
Qed.

(** With the displacement size the ModR/M byte asks for, the SIB step reaches
    the sizes of the addressing form. *)
Lemma sib_step_form hs pref m_mod m_rm c :
  in_u 8 c → 0 ≤ m_mod < 4 →
  let '(_, d, n) := sib_step K hs pref m_mod m_rm c (disp_size_of pref m_mod m_rm) in
  addressed pref m_mod m_rm (c mod 8) n d.
Proof.
  intros Hc Hm. unfold sib_step, addressed, form_sib, form_disp, form16_disp, disp_size_of.
  destruct (split_bits c Hc) as (_ & _ & ->).
  destruct (ctrue (pref & PRE_67)), (no_sib_67 K); cbn [negb andb]; rewrite ?andb_false_r, ?andb_true_r;
    try (case_bool; [|intros]; done).
  all: assert (m_mod = 0 ∨ m_mod = 1 ∨ m_mod = 2 ∨ m_mod = 3) as [-> |[-> |[-> | ->]]] by lia; cbn.
  all: rewrite ?set_eq; destruct (m_rm =? 4) eqn:E4, (m_rm =? 5) eqn:E5, (c mod 8 =? 5); cbn; zify_bools; try done; try lia.
  all: intros _; destruct (m_rm =? 6); done.
Qed.

(** What the ModR/M statement did: the bytes it consumed from [p], the layout
    flags it set and the fields it filled. *)
Definition modrm_done (code : list Z) (pref op cflags p : Z) (hs hs' : hdes) (cflags' p' : Z) : Prop :=
  ∃ s d, (s = 0 ∨ s = 1) ∧ disp_ok d ∧ p' = p + 1 + s + d ∧
    lay M hs' = lay M hs .| F_MODRM .| (if s =? 1 then F_SIB else 0) .| disp_flag K d ∧
    split_byte hs' modrm modrm_mod modrm_reg modrm_rm (zget code p) ∧
    (s = 1 → split_byte hs' sib sib_scale sib_index sib_base (zget code (p + 1))) ∧
    (d = 0 ∧ hs' disp = 0 ∨ loadLE (Z.to_nat d) code (p + 1 + s) = Ok (hs' disp)) ∧
    (hs opcode2 = 0 ∨ ¬ 0x20 ≤ op ≤ 0x23 →
     addressed pref (zget code p / 64) (zget code p mod 8) (zget code (p + 1) mod 8) s d) ∧
    cflags' = grp3_imm op (hs' modrm_reg) cflags.

Definition modrm_fields : list field :=
  [flags; modrm; modrm_mod; modrm_reg; modrm_rm; sib; sib_scale; sib_index; sib_base; disp].

Lemma modrm_step_spec code hs pref op cflags x p :
  bytes_ok code → 0 ≤ p → p + 6 ≤ zlen code → in_u 8 op → hs disp = 0 →
  ∃ hs' cflags' p', modrm_step K code hs pref op cflags x p = Ok (hs', cflags', p') ∧
    (∀ f, f ∉ modrm_fields → hs' f = hs f) ∧
    (if ctrue (cflags & C_MODRM) then modrm_done code pref op cflags p hs hs' cflags' p'
     else lay M hs' = lay M hs ∧ cflags' = cflags ∧ p' = p ∧ hs' disp = 0).
Proof.
  intros Hb Hp Hl Hop Hd. unfold modrm_step. destruct (ctrue (cflags & C_MODRM)).
  2: { case_bool; do 3 eexists; (split; [done|]).
       - split_conj; [|by apply kept_err|done|done|by rewrite or_flags_ne].
         intros f Hf. apply or_flags_ne. unfold modrm_fields in Hf. rewrite not_elem_of_cons in Hf. naive_solver.
       - by auto. }
  rewrite (aget_zget code p) by lia. cbn [mbind outcome_bind]. set (c := zget code p).
  assert (in_u 8 c) as Hc by (by apply bytes_ok_zget). destruct (split_bits c Hc) as (-> & -> & ->).
  set (hs1 := set _ modrm_reg _). assert (0 ≤ c / 8 mod 8 < 8) as Hr by zdiv.
  destruct (check_fpu_ok (check_group hs1 x (c / 8 mod 8)) op (c / 64) (c / 8 mod 8) (c mod 8)) as (hs2 & -> & K2);
    [done..|]. cbn [mbind outcome_bind].
  destruct (check_lock_ok hs2 pref op (c / 64) (c / 8 mod 8)) as (hs3 & -> & K3). cbn [mbind outcome_bind].
  destruct (check_operand_ok hs3 pref op (c / 64) (c / 8 mod 8)) as ([mm e] & -> & Hmm). cbn [mbind outcome_bind fst snd].
  set (hs4 := if e then _ else _).
  assert (kept M hs1 hs4) as [L4 F4].
  { etrans; [apply (check_group_kept hs1 x (c / 8 mod 8))|]. etrans; [exact K2|]. etrans; [exact K3|].
    by apply kept_if, kept_err. }
  rewrite (aget_zget code (p + 1)) by lia. cbn [mbind outcome_bind].
  pose proof (sib_step_form hs4 pref mm (c mod 8) (zget code (p + 1))) as Hform.
  destruct (sib_step_spec hs4 pref mm (c mod 8) (zget code (p + 1)) (disp_size_of pref mm (c mod 8)))
    as (hs5 & d & n & Esib & Hd5 & F5 & S5); [by apply bytes_ok_zget|apply disp_size_of_ok|].
  rewrite Esib in Hform |- *.
  assert (n = 0 ∨ n = 1) as Hn by naive_solver.
  destruct (disp_step_spec code hs5 d (p + 1 + 1 + n - 1)) as (hs6 & -> & L6 & F6 & D6); [done|lia|lia| |].
  { rewrite F5 by notin. rewrite F4 by done. unfold hs1.
    by rewrite !set_ne, or_flags_ne by done. }
  cbn [mbind outcome_bind]. do 3 eexists. split; [done|].
  replace (p + 1 + 1 + n - 1) with (p + 1 + n) in * by lia. split.
  { intros f Hf. unfold modrm_fields in Hf. rewrite !not_elem_of_cons in Hf. destruct_and! Hf.
    rewrite F6, F5, F4 by (done || by rewrite !not_elem_of_cons). unfold hs1. by rewrite !set_ne, or_flags_ne. }
  assert (F6' : ∀ f, f ∉ [flags; sib; sib_scale; sib_index; sib_base; disp] → hs6 f = hs1 f).
  { intros f Hf. rewrite !not_elem_of_cons in Hf. destruct_and! Hf. by rewrite F6, F5, F4 by (done || by rewrite !not_elem_of_cons). }
  assert (L1 : lay M hs1 = lay M hs .| F_MODRM).
  { unfold hs1. by rewrite !lay_set, lay_or, ok_modrm. }
  assert (hs6 modrm_reg = c / 8 mod 8) as Er by (rewrite F6' by notin; apply set_eq).
  assert (hs opcode2 = 0 ∨ ¬ 0x20 ≤ op ≤ 0x23 → mm = c / 64) as Hmod.
  { cbn in Hmm. destruct Hmm as [-> |(_ & Ho & Hr2)]; [done|]. intros [H0|H0]; [|done]. exfalso. apply Ho.
    rewrite (proj2 K3), (proj2 K2), (proj2 (check_group_kept hs1 x (c / 8 mod 8))) by done.
    unfold hs1. by rewrite !set_ne, or_flags_ne. }
  exists n, d. rewrite Er. split_conj; [done|done|done| | | |done| |done]; cycle 3.
  { intros Ho. fold c. rewrite <- (Hmod Ho). apply Hform; [by apply bytes_ok_zget|]. rewrite (Hmod Ho). unfold in_u in Hc. change (2 ^ 8) with 256 in Hc. zdiv. }
  - rewrite L6. destruct S5 as [[-> ->]|(-> & -> & _)]; rewrite L4, L1; cbn; by rewrite ?Z.lor_0_r.
  - repeat split; rewrite F6' by notin; unfold hs1;
      repeat (rewrite set_ne by done || rewrite set_eq); done.
  - intros ->. destruct S5 as [[? ?]|(_ & _ & S5)]; [done|]. destruct S5 as (? & ? & ? & ?).
    repeat split; by rewrite F6.
Qed.

(** *** Prefixes *)

Definition is_prefix (b : Z) : bool :=
  bool_decide (b ∈ [0xf3; 0xf2; 0xf0; 0x26; 0x2e; 0x36; 0x3e; 0x64; 0x65; 0x66; 0x67]).

Definition prefix_fields : list field := [flags; p_rep; p_lock; p_seg; p_66; p_67].

Lemma pref_67_or pref v c : ctrue (v & PRE_67) = (c =? 0x67) →
  ctrue ((pref .| v) & PRE_67) = ctrue (pref & PRE_67) || (c =? 0x67).
Proof.
  intros <-. rewrite Z.land_lor_distr_l. unfold ctrue.
  destruct (Z.eqb_spec (pref & PRE_67) 0) as [-> |Hn]; [by rewrite Z.lor_0_l|].
  apply negb_true_iff, Z.eqb_neq. intros [? _]%Z.lor_eq_0_iff. done.
Qed.

(** The operand-size rule of the opcodes [0xa0] to [0xa3] leaves the address size. *)
Lemma pref_67_a0 pref :
  ctrue ((if ctrue (pref & PRE_67) then pref .| PRE_66 else pref & Z.lnot PRE_66) & PRE_67) = ctrue (pref & PRE_67).
Proof.
  destruct (ctrue (pref & PRE_67)) eqn:E; [by rewrite (pref_67_or pref PRE_66 0), E|].
  by rewrite <- Z.land_assoc.
Qed.

Lemma prefix_case_spec hs pref c : in_u 7 pref →
  match prefix_case hs pref c with
  | Some (hs', pref') => is_prefix c = true ∧ in_u 7 pref' ∧ (∀ f, f ∉ prefix_fields → hs' f = hs f) ∧
      ctrue (pref' & PRE_67) = ctrue (pref & PRE_67) || (c =? 0x67)
  | None => is_prefix c = false
  end.
Proof.
  intros Hp. unfold prefix_case.
  assert (∀ v, in_u 7 v → in_u 7 (pref .| v)) as Hor by auto with cint.
  repeat (case_bool; [subst; split_conj;
    [try done; match goal with H : bool_decide _ = true |- _ => apply bool_decide_eq_true in H end;
     unfold is_prefix; apply bool_decide_eq_true; set_solver
    |apply Hor; done
    |intros f Hf; unfold prefix_fields in Hf; rewrite !not_elem_of_cons in Hf; apply set_ne; naive_solver
    |first [by apply (pref_67_or _ _ 0x67)|apply pref_67_or; done|apply pref_67_or; match goal with H : bool_decide _ = true |- _ => apply bool_decide_eq_true in H; in_cases H; by subst end]]|]).
  unfold is_prefix. apply bool_decide_eq_false. intros Hin.
  repeat match goal with H : bool_decide _ = false |- _ => apply bool_decide_eq_false in H end.
  set_solver.
Qed.

(** The loop stops after [n] prefixes, or takes the last of [x] as opcode. *)
Lemma prefix_loop_spec x code hs pref c p :
  in_u 7 pref → 0 ≤ p → p + Z.of_nat x ≤ zlen code → (0 < x)%nat →
  ∃ hs' pref' n, prefix_loop x code hs pref c p = Ok (hs', pref', zget code (p + n), p + n + 1) ∧
    0 ≤ n < Z.of_nat x ∧ in_u 7 pref' ∧ (∀ f, f ∉ prefix_fields → hs' f = hs f) ∧
    (∀ i, p ≤ i < p + n → is_prefix (zget code i) = true) ∧
    (n + 1 < Z.of_nat x → is_prefix (zget code (p + n)) = false) ∧
    (ctrue (pref' & PRE_67) = true ↔ ctrue (pref & PRE_67) = true ∨ ∃ i, p ≤ i ≤ p + n ∧ zget code i = 0x67).
Proof.
  revert hs pref c p. induction x as [|x IH]; intros hs pref c p Hpref Hp Hl Hx; [lia|].
  cbn [prefix_loop]. rewrite aget_zget by lia. cbn [mbind outcome_bind].
  pose proof (prefix_case_spec hs pref (zget code p) Hpref) as Hc.
  destruct (prefix_case hs pref (zget code p)) as [[hs1 pref1]|].
  - destruct Hc as (Hc & Hpref1 & F1 & E67). destruct x as [|x].
    { exists hs1, pref1, 0. cbn. rewrite Z.add_0_r. split_conj; try done; try lia.
      rewrite E67, orb_true_iff, Z.eqb_eq. f_equiv. split; [by exists p; split; [lia|]|].
      intros (i & Hi & Ei). by replace i with p in Ei by lia. }
    destruct (IH hs1 pref1 (zget code p) (p + 1)) as (hs2 & pref2 & n & E & Hn & Hpref2 & F2 & Hall & Hlast & H67);
      [done|lia..|].
    exists hs2, pref2, (n + 1). replace (p + (n + 1)) with (p + 1 + n) by lia.
    split_conj; [done|lia|lia|done| | | |].
    + intros f Hf. by rewrite F2, F1.
    + intros i Hi. destruct (decide (i = p)) as [->|]; [done|]. apply Hall. lia.
    + intros ?. apply Hlast. lia.
    + rewrite H67, E67, orb_true_iff, Z.eqb_eq. split.
      * intros [[?|?]|(i & Hi & Ei)]; [by left|right; exists p; split; [lia|done]|right; exists i; split; [lia|done]].
      * intros [?|(i & Hi & Ei)]; [by left; left|]. destruct (decide (i = p)) as [-> |]; [by left; right|].
        right. exists i. split; [lia|done].
  - exists hs, pref, 0. rewrite Z.add_0_r. split_conj; try done; try lia.
    split; [by left|]. intros [?|(i & Hi & Ei)]; [done|]. replace i with p in Ei by lia. by rewrite Ei in Hc.
Qed.

Lemma prefixes_spec code :
  16 ≤ zlen code →
  ∃ hs pref n, prefixes code = Ok (hs, pref, zget code n, n + 1) ∧ 0 ≤ n < 16 ∧
    lay M hs = 0 ∧ (∀ f, f ∉ prefix_fields → hs f = 0) ∧
    (∀ i, 0 ≤ i < n → is_prefix (zget code i) = true) ∧
    (n < 15 → is_prefix (zget code n) = false) ∧
    (ctrue (pref & PRE_67) = true ↔ ∃ i, 0 ≤ i ≤ n ∧ zget code i = 0x67).
Proof.
  intros Hl. unfold prefixes.
  destruct (prefix_loop_spec 16 code hs_zero 0 0 0) as (hs & pref & n & -> & Hn & Hp & F & Hall & Hlast & H67); [done|lia..|].
  cbn [mbind outcome_bind]. do 3 eexists. split; [done|]. split_conj; [lia|lia|..].
  - unfold lay. rewrite set_eq. by apply ok_pref.
  - intros f Hf. rewrite set_ne by (unfold prefix_fields in Hf; rewrite not_elem_of_cons in Hf; naive_solver). by rewrite F.
  - intros i Hi. apply Hall. lia.
  - intros. apply Hlast. lia.
  - assert (ctrue ((if ctrue pref then pref else pref .| PRE_NONE) & PRE_67) = ctrue (pref & PRE_67)) as ->.
    { case_bool; [done|]. by rewrite (pref_67_or pref PRE_NONE 0), orb_false_r. }
    rewrite H67. naive_solver.
Qed.

(** *** Opcode lookup *)

(** [cflags] and [x] of an opcode, without the error flags. *)
Definition opcode_class (T : list Z) (ht opcode : Z) : outcome (Z * Z) :=
  cflags ← table_entry T ht opcode;
  group T ht (if cflags =? C_ERROR then (error_opcode hs_zero opcode).2 else cflags).

Lemma lookup_opcode_spec T hs ht op cf x :
  opcode_class T ht op = Ok (cf, x) →
  ∃ hs', lookup_opcode T hs ht op = Ok (hs', cf, x) ∧ kept M hs hs'.
Proof.
  unfold opcode_class, lookup_opcode. intros (c & -> & E)%bind_Ok_inv. cbn [mbind outcome_bind].
  destruct (c =? C_ERROR); unfold error_opcode in *; cbn [fst snd] in *; rewrite E; cbn; eexists; (split; [done|]);
    [by apply kept_err|done].
Qed.

(** *** Immediates *)

Lemma load_imm_spec code hs f n fl p :
  f ≠ flags → 0 ≤ p → p + Z.of_nat n ≤ zlen code →
  ∃ hs' v, load_imm code hs f n fl p = Ok hs' ∧ loadLE n code p = Ok v ∧
    lay M hs' = lay M hs .| (fl & M) ∧ (∀ g, g ≠ flags → g ≠ f → hs' g = hs g) ∧
    hs' f = hs f - wrap (8 * Z.of_nat n) (hs f) + v.
Proof.
  intros Hf Hp Hl. unfold load_imm. destruct (loadLE_Ok n code p Hp Hl) as [v Hv]. rewrite Hv. cbn [mbind outcome_bind].
  do 2 eexists. split; [done|]. split_conj; [done|by rewrite lay_set_low, lay_or| |].
  - intros g ? ?. unfold set_low. by rewrite set_ne, or_flags_ne.
  - unfold set_low. by rewrite set_eq, !or_flags_ne.
Qed.

(** [disasm_done]: the length is capped at 15 and the excess reported. *)
Lemma disasm_done_spec hs p :
  0 < p < 256 →
  (p ≤ 15 → disasm_done hs p = set hs len p) ∧
  (15 < p → ctrue (disasm_done hs p flags & F_ERROR_LENGTH) = true ∧ disasm_done hs p len = 15).
Proof.
  intros Hp. unfold disasm_done. rewrite set_eq, wrap_small by (unfold in_u; lia).
  split; intros H; [by rewrite (proj2 (Z.ltb_ge 15 p)) by lia|].
  rewrite (proj2 (Z.ltb_lt 15 p)) by lia. rewrite set_eq, set_ne by done. split; [|done].
  unfold or_flags. rewrite set_eq. apply ctrue_true. rewrite Z.land_lor_distr_l.
  change ((F_ERROR .| F_ERROR_LENGTH) & F_ERROR_LENGTH) with F_ERROR_LENGTH.
  intros [_ H0]%Z.lor_eq_0_iff. done.
Qed.

End steps.

End Hde.
