(* ===== verification/Hde64.v ===== *)
(** * HDE64 ([Lilu.kext/hde/hde64.c], [hde64.h], [table64.h])

    The 64-bit configuration of [Hde], the REX and immediate steps that only
    the 64-bit engine has, and [hde64_disasm]. *)

From Stdlib Require Import ZArith Lia.
From stdpp Require Import sets.
From S2P Require Import Prelude Hde.

Module Hde64.

Import Hde.
Open Scope c_scope.

Definition F_IMM64 := 0x00000020.
Definition F_PREFIX_REX := 0x40000000.

(** [hde64_table] *)
Definition hde64_table : list Z :=
  mjoin [
    [0xa5; 0xaa; 0xa5; 0xb8; 0xa5; 0xaa; 0xa5; 0xaa; 0xa5; 0xb8; 0xa5; 0xb8; 0xa5; 0xb8; 0xa5];
    [0xb8; 0xc0; 0xc0; 0xc0; 0xc0; 0xc0; 0xc0; 0xc0; 0xc0; 0xac; 0xc0; 0xcc; 0xc0; 0xa1; 0xa1];
    [0xa1; 0xa1; 0xb1; 0xa5; 0xa5; 0xa6; 0xc0; 0xc0; 0xd7; 0xda; 0xe0; 0xc0; 0xe4; 0xc0; 0xea];
    [0xea; 0xe0; 0xe0; 0x98; 0xc8; 0xee; 0xf1; 0xa5; 0xd3; 0xa5; 0xa5; 0xa1; 0xea; 0x9e; 0xc0];
    [0xc0; 0xc2; 0xc0; 0xe6; 0x03; 0x7f; 0x11; 0x7f; 0x01; 0x7f; 0x01; 0x3f; 0x01; 0x01; 0xab];
    [0x8b; 0x90; 0x64; 0x5b; 0x5b; 0x5b; 0x5b; 0x5b; 0x92; 0x5b; 0x5b; 0x76; 0x90; 0x92; 0x92];
    [0x5b; 0x5b; 0x5b; 0x5b; 0x5b; 0x5b; 0x5b; 0x5b; 0x5b; 0x5b; 0x5b; 0x5b; 0x6a; 0x73; 0x90];
    [0x5b; 0x52; 0x52; 0x52; 0x52; 0x5b; 0x5b; 0x5b; 0x5b; 0x77; 0x7c; 0x77; 0x85; 0x5b; 0x5b];
    [0x70; 0x5b; 0x7a; 0xaf; 0x76; 0x76; 0x5b; 0x5b; 0x5b; 0x5b; 0x5b; 0x5b; 0x5b; 0x5b; 0x5b];
    [0x5b; 0x5b; 0x86; 0x01; 0x03; 0x01; 0x04; 0x03; 0xd5; 0x03; 0xd5; 0x03; 0xcc; 0x01; 0xbc];
    [0x03; 0xf0; 0x03; 0x03; 0x04; 0x00; 0x50; 0x50; 0x50; 0x50; 0xff; 0x20; 0x20; 0x20; 0x20];
    [0x01; 0x01; 0x01; 0x01; 0xc4; 0x02; 0x10; 0xff; 0xff; 0xff; 0x01; 0x00; 0x03; 0x11; 0xff];
    [0x03; 0xc4; 0xc6; 0xc8; 0x02; 0x10; 0x00; 0xff; 0xcc; 0x01; 0x01; 0x01; 0x00; 0x00; 0x00];
    [0x00; 0x01; 0x01; 0x03; 0x01; 0xff; 0xff; 0xc0; 0xc2; 0x10; 0x11; 0x02; 0x03; 0x01; 0x01];
    [0x01; 0xff; 0xff; 0xff; 0x00; 0x00; 0x00; 0xff; 0x00; 0x00; 0xff; 0xff; 0xff; 0xff; 0x10];
    [0x10; 0x10; 0x10; 0x02; 0x10; 0x00; 0x00; 0xc6; 0xc8; 0x02; 0x02; 0x02; 0x02; 0x06; 0x00];
    [0x04; 0x00; 0x02; 0xff; 0x00; 0xc0; 0xc2; 0x01; 0x01; 0x03; 0x03; 0x03; 0xca; 0x40; 0x00];
    [0x0a; 0x00; 0x04; 0x00; 0x00; 0x00; 0x00; 0x7f; 0x00; 0x33; 0x01; 0x00; 0x00; 0x00; 0x00];
    [0x00; 0x00; 0xff; 0xbf; 0xff; 0xff; 0x00; 0x00; 0x00; 0x00; 0x07; 0x00; 0x00; 0xff; 0x00];
    [0x00; 0x00; 0x00; 0x00; 0x00; 0x00; 0x00; 0x00; 0x00; 0x00; 0x00; 0x00; 0x00; 0xff; 0xff];
    [0x00; 0x00; 0x00; 0xbf; 0x00; 0x00; 0x00; 0x00; 0x00; 0x00; 0x00; 0x00; 0x7f; 0x00; 0x00];
    [0xff; 0x40; 0x40; 0x40; 0x40; 0x41; 0x49; 0x40; 0x40; 0x40; 0x40; 0x4c; 0x42; 0x40; 0x40];
    [0x40; 0x40; 0x40; 0x40; 0x40; 0x40; 0x4f; 0x44; 0x53; 0x40; 0x40; 0x40; 0x44; 0x57; 0x43];
    [0x5c; 0x40; 0x60; 0x40; 0x40; 0x40; 0x40; 0x40; 0x40; 0x40; 0x40; 0x40; 0x40; 0x40; 0x40];
    [0x40; 0x40; 0x64; 0x66; 0x6e; 0x6b; 0x40; 0x40; 0x6a; 0x46; 0x40; 0x40; 0x44; 0x46; 0x40];
    [0x40; 0x5b; 0x44; 0x40; 0x40; 0x00; 0x00; 0x00; 0x00; 0x06; 0x06; 0x06; 0x06; 0x01; 0x06];
    [0x06; 0x02; 0x06; 0x06; 0x00; 0x06; 0x00; 0x0a; 0x0a; 0x00; 0x00; 0x00; 0x02; 0x07; 0x07];
    [0x06; 0x02; 0x0d; 0x06; 0x06; 0x06; 0x0e; 0x05; 0x05; 0x02; 0x02; 0x00; 0x00; 0x04; 0x04];
    [0x04; 0x04; 0x05; 0x06; 0x06; 0x06; 0x00; 0x00; 0x00; 0x0e; 0x00; 0x00; 0x08; 0x00; 0x10];
    [0x00; 0x18; 0x00; 0x20; 0x00; 0x28; 0x00; 0x30; 0x00; 0x80; 0x01; 0x82; 0x01; 0x86; 0x00];
    [0xf6; 0xcf; 0xfe; 0x3f; 0xab; 0x00; 0xb0; 0x00; 0xb1; 0x00; 0xb3; 0x00; 0xba; 0xf8; 0xbb];
    [0x00; 0xc0; 0x00; 0xc1; 0x00; 0xc7; 0xbf; 0x62; 0xff; 0x00; 0x8d; 0xff; 0x00; 0xc4; 0xff];
    [0x00; 0xc5; 0xff; 0x00; 0xff; 0xff; 0xeb; 0x01; 0xff; 0x0e; 0x12; 0x08; 0x00; 0x13; 0x09];
    [0x00; 0x16; 0x08; 0x00; 0x17; 0x09; 0x00; 0x2b; 0x09; 0x00; 0xae; 0xff; 0x07; 0xb2; 0xff];
    [0x00; 0xb4; 0xff; 0x00; 0xb5; 0xff; 0x00; 0xc3; 0x01; 0x00; 0xc7; 0xff; 0xbf; 0xe7; 0x08];
    [0x00; 0xf0; 0x02; 0x00]].

Definition cfg64 : cfg :=
  mkCfg hde64_table 0xfd 0x104 0x13c 0x1ae 0x1c6 0x1d8 0x1e7 0x40 0x80 0x100 0x200 false.

(** The REX prefix. [inr] is the jump to [error_opcode] of a second REX:
    [hs], the byte taken as opcode, [p] and [op64]. *)
Definition rex_step (code : list Z) (hs : hdes) (c p : Z)
  : outcome ((hdes * Z * Z * Z) + (hdes * Z * Z * Z)) :=
  if (c & 0xf0) =? 0x40 then
    let hs := or_flags hs F_PREFIX_REX in
    let hs := set hs rex_w ((c & 0xf) >> 3) in
    op64 ← (if ctrue (hs rex_w) then b ← aget code p; Ok (cbool ((b & 0xf8) =? 0xb8)) else Ok 0);
    let hs := set (set (set hs rex_r ((c & 7) >> 2)) rex_x ((c & 3) >> 1)) rex_b (c & 1) in
    c ← aget code p;
    if (c & 0xf0) =? 0x40 then Ok (inr (hs, c, p + 1, op64)) else Ok (inl (hs, c, p + 1, op64))
  else Ok (inl (hs, c, p, 0)).

(** From [hs->opcode = c] to the group lookup; returns [hs], [pref],
    [op64], [opcode], [cflags], [x] and [p]. *)
Definition opcode_step (code : list Z) (hs : hdes) (pref c p op64 : Z)
  : outcome (hdes * Z * Z * Z * Z * Z * Z) :=
  let hs := set hs opcode c in
  r ← (if c =? 0x0f then
         c ← aget code p; Ok (set hs opcode2 c, pref, op64, c, p + 1, DELTA_OPCODES)
       else if (0xa0 <=? c) && (c <=? 0xa3) then
         Ok (hs, if ctrue (pref & PRE_67) then pref .| PRE_66 else pref & (Z.lnot PRE_66),
             op64 + 1, c, p, 0)
       else Ok (hs, pref, op64, c, p, 0));
  let '(hs, pref, op64, c, p, ht) := r in
  r ← lookup_opcode hde64_table hs ht c;
  let '(hs, cflags, x) := r in
  Ok (hs, pref, op64, c, cflags, x, p).

(** [C_IMM_P66] to [disasm_done]. *)
Definition imm_step64 (code : list Z) (hs : hdes) (pref op64 cflags p : Z) : outcome (hdes * Z) :=
  let imm16_ok hs p := hs ← load_imm code hs imm 2 F_IMM16 p; Ok (hs, p + 2) in
  if ctrue (cflags & C_IMM_P66) && ctrue (cflags & C_REL32) then rel_p66 cfg64 code hs pref p
  else
    r ← (if ctrue (cflags & C_IMM_P66) then
           if ctrue op64 then
             hs ← load_imm code hs imm 8 F_IMM64 p; Ok (hs, p + 8, false)
           else if negb (ctrue (pref & PRE_66)) then
             hs ← load_imm code hs imm 4 F_IMM32 p; Ok (hs, p + 4, false)
           else Ok (hs, p, true)
         else Ok (hs, p, false));
    let '(hs, p, goto_imm16) := r in
    r ← (if goto_imm16 || ctrue (cflags & C_IMM16) then imm16_ok hs p else Ok (hs, p));
    r ← imm8_step code r.1 cflags r.2;
    rel_step cfg64 code r.1 cflags r.2.

(** From the REX check to the group lookup, the jump to [error_opcode] included. *)
Definition head64 (code : list Z) (hs : hdes) (pref c p : Z) : outcome (hdes * Z * Z * Z * Z * Z * Z) :=
  r ← rex_step code hs c p;
  match r with
  | inl (hs, c, p, op64) => opcode_step code hs pref c p op64
  | inr (hs, c, p, op64) =>
      let '(hs, cflags) := error_opcode hs c in
      g ← group hde64_table 0 cflags;
      Ok (hs, pref, op64, c, g.1, g.2, p)
  end.

(** The structure and the offset before [disasm_done]. *)
Definition decode64 (code : list Z) : outcome (hdes * Z) :=
  r ← prefixes code;
  let '(hs, pref, c, p) := r in
  r ← head64 code hs pref c p;
  let '(hs, pref, op64, opc, cflags, x, p) := r in
  hs ← check_prefixes cfg64 hs pref opc;
  r ← modrm_step cfg64 code hs pref opc cflags x p;
  let '(hs, cflags, p) := r in
  imm_step64 code hs pref op64 cflags p.

(** [hde64_disasm]: the filled structure; its [len] field is the value returned. *)
Definition hde64_disasm (code : list Z) : outcome hdes :=
  r ← decode64 code; Ok (disasm_done r.1 r.2).

(** ** The table *)

(** The flags that describe the layout of an instruction. *)
Definition M64 : Z := 0x400041ff.

#[global] Instance cfg64_ok : CfgOk cfg64 M64.
Proof.
  split.
  - intros op Hop.
    pose proof (byte_cases (fun op => match table_entry hde64_table 0x13c op with Ok _ => true | _ => false end)
      ltac:(vm_compute; reflexivity) op Hop) as H.
    change (table cfg64) with hde64_table. change (DELTA_PREFIXES cfg64) with 0x13c. cbv beta in H.
    destruct (table_entry hde64_table 0x13c op); naive_solver.
  - by vm_compute.
  - by vm_compute.
  - exists 12%nat. split; [lia|by vm_compute].
  - exists 9%nat. split; [lia|by vm_compute].
  - exists 5%nat. split; [lia|by vm_compute].
  - exists 14%nat. split; [lia|by vm_compute].
  - reflexivity.
  - reflexivity.
  - reflexivity.
  - intros d. unfold disp_flag. by repeat case_bool.
  - intros pref Hp. assert (in_u 8 pref) as Hp8 by (unfold in_u in *; lia).
    pose proof (byte_cases (fun b => (128 <=? b) || ((u32 (b << 23) & M64) =? 0))
      ltac:(vm_compute; reflexivity) pref Hp8) as H. cbv beta in H. apply orb_true_iff in H as [H|H]; zify_bools; [|done].
    unfold in_u in Hp. lia.
Qed.

(** The classes the table gives to opcodes. *)
Definition classes64 : list Z := [0; 1; 2; 3; 4; 6; 16; 17; 32; 80].

Lemma opcode_class_64 ht op : ht = 0 ∨ ht = DELTA_OPCODES → in_u 8 op →
  ∃ cf x, opcode_class hde64_table ht op = Ok (cf, x) ∧ cf ∈ classes64 ∧ ∀ reg, grp3_imm op reg cf ∈ classes64.
Proof.
  intros Hht Hop.
  assert (match opcode_class hde64_table ht op with
          | Ok (cf, _) => bool_decide (cf ∈ classes64) && bool_decide (grp3_imm op 0 cf ∈ classes64)
          | _ => false end = true) as H.
  { destruct Hht as [-> | ->]; revert op Hop; apply byte_cases; vm_compute; reflexivity. }
  destruct (opcode_class hde64_table ht op) as [[cf x]| |]; try done. zify_bools.
  rewrite bool_decide_eq_true in *. exists cf, x. split_conj; try done.
  intros reg. unfold grp3_imm in *. destruct (reg <=? 1); [|done]. by destruct (0 <=? 1) eqn:?.
Qed.

(** ** Immediates *)

(** The size of the immediates by their flags. *)
Definition imm_bytes (v : Z) : Z :=
  cbool (ctrue (v & F_IMM8)) + 2 * cbool (ctrue (v & F_IMM16)) +
  4 * cbool (ctrue (v & F_IMM32)) + 8 * cbool (ctrue (v & F_IMM64)).

Definition imm_flags64 : list Z := [0; F_IMM8; F_IMM16; F_IMM32; F_IMM64; F_IMM16 .| F_IMM8].

(** The number the [imm] union holds: the little-endian immediate at [p];
    for the two immediates of [enter], the second one written over the first. *)
Definition imm_at (code : list Z) (v p : Z) : outcome Z :=
  if v =? F_IMM16 .| F_IMM8 then b ← aget code (p + 1); c ← aget code (p + 2); Ok (256 * b + c)
  else loadLE (Z.to_nat (imm_bytes v)) code p.

(** Evaluate the flag tests on constants. *)
Ltac calc_ctrue :=
  repeat match goal with
  | |- context [ctrue (Z.land ?a ?b)] =>
      let v := eval vm_compute in (ctrue (Z.land a b)) in
      lazymatch v with
      | true => change (ctrue (Z.land a b)) with true
      | false => change (ctrue (Z.land a b)) with false
      end
  end; cbv iota; cbn [andb orb negb].

Lemma one_imm code hs n fl v p :
  v = (fl & M64) → v ∈ [F_IMM8; F_IMM16; F_IMM32; F_IMM64] → Z.of_nat n = imm_bytes v →
  0 ≤ p → p + 8 ≤ zlen code → hs imm = 0 →
  ∃ hs', load_imm code hs imm n fl p = Ok hs' ∧
    lay M64 hs' = lay M64 hs .| v ∧ imm_at code v p = Ok (hs' imm) ∧
    (∀ f, f ≠ flags → f ≠ imm → hs' f = hs f).
Proof.
  intros -> Hv Hn Hp Hl H0. set (v := fl & M64) in *.
  assert (imm_bytes v ≤ 8) by (pose proof Hv as Hv'; in_cases Hv'; by rewrite Hv').
  destruct (load_imm_spec (M := M64) code hs imm n fl p) as (hs' & w & -> & Hw & L & F & I); [done|lia|lia|].
  exists hs'. split_conj; [done|done| |done]. unfold imm_at.
  rewrite (proj2 (Z.eqb_neq _ _)).
  - rewrite <- Hn, Nat2Z.id, Hw. f_equal. rewrite I, H0. unfold wrap. rewrite Z.mod_0_l; [lia|]. apply Z.pow_nonzero; lia.
  - in_cases Hv; by rewrite Hv.
Qed.

(** What the immediate steps did. *)
Definition imm_done (code : list Z) (hs hs' : hdes) (p p' : Z) : Prop :=
  ∃ v, v ∈ imm_flags64 ∧ p' = p + imm_bytes v ∧ lay M64 hs' = lay M64 hs .| v ∧
    imm_at code v p = Ok (hs' imm) ∧ (∀ f, f ≠ flags → f ≠ imm → hs' f = hs f).

Lemma imm_done_one code hs n fl v p :
  v = (fl & M64) → v ∈ [F_IMM8; F_IMM16; F_IMM32; F_IMM64] → Z.of_nat n = imm_bytes v →
  0 ≤ p → p + 8 ≤ zlen code → hs imm = 0 →
  ∃ hs', load_imm code hs imm n fl p = Ok hs' ∧ imm_done code hs hs' p (p + Z.of_nat n).
Proof.
  intros Hv Hin Hn Hp Hl H0. destruct (one_imm code hs n fl v p) as (hs' & E & L & I & F); [done..|].
  exists hs'. split; [done|]. exists v. split_conj; [|by rewrite Hn|done..].
  unfold imm_flags64. in_cases Hin; subst; set_solver.
Qed.

Lemma imm_done_none code hs p : hs imm = 0 → imm_done code hs hs p p.
Proof.
  intros H0. exists 0. split_conj; [set_solver|change (imm_bytes 0) with 0; lia|by rewrite Z.lor_0_r| |done]. by rewrite H0.
Qed.

(** [enter]: the 8-bit immediate lands in the low byte of the 16-bit one. *)
Lemma imm_enter code hs p :
  bytes_ok code → 0 ≤ p → p + 8 ≤ zlen code → hs imm = 0 →
  ∃ hs1 hs', load_imm code hs imm 2 F_IMM16 p = Ok hs1 ∧ load_imm code hs1 imm 1 F_IMM8 (p + 2) = Ok hs' ∧
    imm_done code hs hs' p (p + 2 + 1).
Proof.
  intros Hb Hp Hl H0.
  destruct (load_imm_spec (M := M64) code hs imm 2 F_IMM16 p) as (hs1 & w1 & A1 & E1 & L1 & F1 & I1); [done|lia..|].
  destruct (load_imm_spec (M := M64) code hs1 imm 1 F_IMM8 (p + 2)) as (hs2 & w2 & A2 & E2 & L2 & F2 & I2); [done|lia..|].
  exists hs1, hs2. split_conj; [done..|]. exists (F_IMM16 .| F_IMM8).
  split_conj; [unfold imm_flags64; set_solver|change (imm_bytes (F_IMM16 .| F_IMM8)) with 3; lia| | |].
  - by rewrite L2, L1, <- Z.lor_assoc.
  - unfold imm_at. change (_ =? _) with true. cbv iota. cbn [loadLE] in E1, E2.
    rewrite (aget_zget code (p + 1)), (aget_zget code p) in E1 by lia. rewrite aget_zget in E2 by lia.
    rewrite (aget_zget code (p + 1)), (aget_zget code (p + 2)) by lia. cbn [mbind outcome_bind] in *. simplify_eq.
    f_equal. rewrite I2, I1, H0.
    pose proof (bytes_ok_zget code p Hb). pose proof (bytes_ok_zget code (p + 1) Hb). unfold in_u in *.
    replace (0 - wrap (8 * Z.of_nat 2) 0) with 0 by done. unfold wrap.
    replace (8 * Z.of_nat 1) with 8 by done. change (2 ^ 8) with 256 in *. zdiv.
  - intros f ? ?. by rewrite F2, F1.
Qed.

Ltac one_imm n fl :=
  match goal with
  | |- context [load_imm ?code ?hs imm n fl ?p] =>
      let hs' := fresh "hs'" in let Hd := fresh "Hd" in
      destruct (imm_done_one code hs n fl (fl & M64) p) as (hs' & -> & Hd);
        [done|isin|done|lia|lia|done|];
      do 2 eexists; split; [reflexivity|exact Hd]
  end.

Lemma imm_step64_spec code hs pref op64 cf p :
  cf ∈ classes64 → bytes_ok code → 0 ≤ p → p + 8 ≤ zlen code → hs imm = 0 →
  ∃ hs' p', imm_step64 code hs pref op64 cf p = Ok (hs', p') ∧ imm_done code hs hs' p p'.
Proof.
  intros Hcf Hb Hp Hl H0. unfold imm_step64, rel_p66, imm8_step, rel_step, rel32_ok.
  in_cases Hcf; subst cf; calc_ctrue; cbn [orb mbind outcome_bind fst snd].
  - do 2 eexists; split; [reflexivity|by apply imm_done_none].
  - do 2 eexists; split; [reflexivity|by apply imm_done_none].
  - one_imm 1%nat F_IMM8.
  - one_imm 1%nat F_IMM8.
  - one_imm 2%nat F_IMM16.
  - destruct (imm_enter code hs p) as (hs1 & hs2 & E1 & E2 & Hd); [done|lia|lia|done|].
    cbn [orb]. rewrite E1. cbn [mbind outcome_bind fst snd]. rewrite E2.
    do 2 eexists; split; [reflexivity|exact Hd].
  - destruct (ctrue op64); [one_imm 8%nat F_IMM64|].
    destruct (ctrue (pref & PRE_66)); cbn [negb orb mbind outcome_bind fst snd]; [one_imm 2%nat F_IMM16|one_imm 4%nat F_IMM32].
  - destruct (ctrue op64); [one_imm 8%nat F_IMM64|].
    destruct (ctrue (pref & PRE_66)); cbn [negb orb mbind outcome_bind fst snd]; [one_imm 2%nat F_IMM16|one_imm 4%nat F_IMM32].
  - one_imm 1%nat (F_IMM8 .| F_RELATIVE cfg64).
  - destruct (ctrue (pref & PRE_66)); [one_imm 2%nat (F_IMM16 .| F_RELATIVE cfg64)|one_imm 4%nat (F_IMM32 .| F_RELATIVE cfg64)].
Qed.

(** ** REX and opcode *)

Definition is_rex (b : Z) : bool := b / 16 =? 4.

Lemma rex_bits c : in_u 8 c → ((c & 0xf0) =? 0x40) = is_rex c ∧
  (c & 0xf) >> 3 = c / 8 mod 2 ∧ (c & 7) >> 2 = c / 4 mod 2 ∧ (c & 3) >> 1 = c / 2 mod 2 ∧ (c & 1) = c mod 2.
Proof.
  intros Hc. pose proof (byte_cases (fun c => eqb ((c & 0xf0) =? 0x40) (is_rex c) &&
    ((c & 0xf) >> 3 =? c / 8 mod 2) && ((c & 7) >> 2 =? c / 4 mod 2) && ((c & 3) >> 1 =? c / 2 mod 2)
    && ((c & 1) =? c mod 2)) ltac:(vm_compute; reflexivity) c Hc) as H. cbv beta in H. zify_bools.
  split_conj; try done. by apply eqb_prop.
Qed.

(** What the REX prefix leaves: the byte to use as opcode at [p], the flags and the four bits. *)
Record rex_done (hs hs' : hdes) (c : Z) : Prop := {
  rex_lay : lay M64 hs' = lay M64 hs .| (if is_rex c then F_PREFIX_REX else 0);
  rex_fields : ∀ f, f ∉ [flags; rex_w; rex_r; rex_x; rex_b] → hs' f = hs f;
  rex_value : is_rex c = true →
    hs' rex_w = c / 8 mod 2 ∧ hs' rex_r = c / 4 mod 2 ∧ hs' rex_x = c / 2 mod 2 ∧ hs' rex_b = c mod 2
}.

Lemma rex_step_spec code hs p :
  bytes_ok code → 0 < p < zlen code →
  let c := zget code (p - 1) in
  ∃ hs' op64, rex_done hs hs' c ∧
    rex_step code hs c p =
      Ok (if is_rex c then
            if is_rex (zget code p) then inr (hs', zget code p, p + 1, op64) else inl (hs', zget code p, p + 1, op64)
          else inl (hs', c, p, op64)).
Proof.
  intros Hb Hp c. assert (in_u 8 c) as Hc by (by apply bytes_ok_zget).
  destruct (rex_bits c Hc) as (E1 & E2 & E3 & E4 & E5).
  destruct (rex_bits (zget code p)) as (E6 & _); [by apply bytes_ok_zget|].
  unfold rex_step. rewrite E1, E2, E3, E4, E5. destruct (is_rex c) eqn:Er.
  2: { exists hs, 0. split; [|done]. split; [by rewrite Er, Z.lor_0_r|done|congruence]. }
  set (hs1 := set _ rex_w _). set (hs2 := set _ rex_b _).
  assert (rex_done hs hs2 c) as Hd.
  { split; rewrite ?Er.
    - unfold hs2, hs1. by rewrite !lay_set, lay_or.
    - intros f Hf. rewrite !not_elem_of_cons in Hf. destruct_and! Hf. unfold hs2, hs1. by rewrite !set_ne, or_flags_ne.
    - intros _. unfold hs2, hs1. split_conj; repeat (rewrite set_ne by done || rewrite set_eq); done. }
  rewrite !(aget_zget code p) by lia. cbn [mbind outcome_bind].
  destruct (ctrue (hs1 rex_w)); cbn [mbind outcome_bind]; exists hs2; eexists; (split; [done|]); rewrite E6; by destruct (is_rex (zget code p)).
Qed.

(** What the opcode steps leave; [q] is the offset of the opcode.  A second
    REX byte in its place is an error and leaves [opcode] 0. *)
Definition opcode_done (code : list Z) (hs hs' : hdes) (q op cf p : Z) : Prop :=
  in_u 8 op ∧ cf ∈ classes64 ∧ (∀ reg, grp3_imm op reg cf ∈ classes64) ∧
  hs' opcode = (if is_rex (zget code q) then hs opcode else zget code q) ∧
  p = q + (if hs' opcode =? 0x0f then 2 else 1) ∧
  (hs' opcode = 0x0f → hs' opcode2 = zget code (q + 1) ∧ op = hs' opcode2) ∧
  (hs' opcode ≠ 0x0f → hs' opcode2 = hs opcode2) ∧
  lay M64 hs' = lay M64 hs ∧ (∀ f, f ∉ [flags; opcode; opcode2] → hs' f = hs f).

Lemma opcode_step_spec code hs pref p op64 :
  bytes_ok code → 0 < p < zlen code → is_rex (zget code (p - 1)) = false →
  ∃ hs' pref' op64' op cf x p',
    opcode_step code hs pref (zget code (p - 1)) p op64 = Ok (hs', pref', op64', op, cf, x, p') ∧
    ctrue (pref' & PRE_67) = ctrue (pref & PRE_67) ∧ opcode_done code hs hs' (p - 1) op cf p'.
Proof.
  intros Hb Hp Hr. unfold opcode_step, opcode_done. rewrite Hr. set (c := zget code (p - 1)).
  assert (in_u 8 c) as Hc by (by apply bytes_ok_zget).
  destruct (Z.eqb_spec c 0x0f) as [E|E].
  - rewrite aget_zget by lia. cbn [mbind outcome_bind]. set (c2 := zget code p).
    assert (in_u 8 c2) as Hc2 by (by apply bytes_ok_zget).
    destruct (opcode_class_64 DELTA_OPCODES c2) as (cf & x & Hcl & Hin & Hg); [by right|done|].
    destruct (lookup_opcode_spec (K := cfg64) (M := M64) hde64_table (set (set hs opcode c) opcode2 c2) DELTA_OPCODES c2 cf x Hcl)
      as (hs2 & -> & L & F). cbn [mbind outcome_bind]. do 7 eexists. split; [done|].
    split_conj; [done..| | | | | |].
    + by rewrite F, set_ne, set_eq.
    + rewrite F, set_ne, set_eq, E by done. cbn. lia.
    + intros _. rewrite F, set_eq by done. split; [|done]. unfold c2. f_equal. lia.
    + rewrite F, set_ne, set_eq by done. done.
    + by rewrite L, !lay_set.
    + intros f Hf. rewrite !not_elem_of_cons in Hf. destruct_and! Hf. rewrite F by done. by rewrite !set_ne.
  - destruct (opcode_class_64 0 c) as (cf & x & Hcl & Hin & Hg); [by left|done|].
    destruct (lookup_opcode_spec (K := cfg64) (M := M64) hde64_table (set hs opcode c) 0 c cf x Hcl) as (hs2 & El & L & F).
    assert (opcode_done code hs hs2 (p - 1) c cf p) as Hd.
    { unfold opcode_done. rewrite Hr. split_conj; [done..| | | | | |]; rewrite ?F, ?L by done.
      - by rewrite set_eq.
      - rewrite set_eq, (proj2 (Z.eqb_neq c 0x0f)) by done. lia.
      - rewrite set_eq. congruence.
      - intros _. by rewrite set_ne.
      - by rewrite lay_set.
      - intros f Hf. rewrite !not_elem_of_cons in Hf. destruct_and! Hf. rewrite F by done. by rewrite set_ne. }
    destruct ((0xa0 <=? c) && (c <=? 0xa3)); cbn [mbind outcome_bind]; rewrite El; cbn; unfold opcode_done in Hd; rewrite Hr in Hd; do 7 eexists; (split; [done|]); (split; [|exact Hd]); [apply pref_67_a0|done].
Qed.

Lemma head64_spec code hs pref n :
  bytes_ok code → 0 ≤ n → n + 2 < zlen code → hs opcode = 0 →
  let q := n + cbool (is_rex (zget code n)) in
  ∃ hs1 hs' pref' op64 op cf x p',
    head64 code hs pref (zget code n) (n + 1) = Ok (hs', pref', op64, op, cf, x, p') ∧
    ctrue (pref' & PRE_67) = ctrue (pref & PRE_67) ∧
    rex_done hs hs1 (zget code n) ∧ opcode_done code hs1 hs' q op cf p'.
Proof.
  intros Hb Hn Hl H0 q. unfold head64.
  destruct (rex_step_spec code hs (n + 1)) as (hs1 & op64 & Hr & E); [done|lia|].
  replace (n + 1 - 1) with n in * by lia. rewrite E. cbn [mbind outcome_bind].
  destruct (is_rex (zget code n)) eqn:Er1.
  - unfold q, cbool. destruct (is_rex (zget code (n + 1))) eqn:Er2.
    + assert (in_u 8 (zget code (n + 1))) as Hc by (by apply bytes_ok_zget).
      set (c := zget code (n + 1)) in *.
      assert (((c & -3) =? 0x24) = false ∧ ∀ reg, grp3_imm c reg 0 = 0) as [E1 E2].
      { clearbody c. clear - Er2 Hc. unfold is_rex in Er2. zify_bools.
        assert (0x40 ≤ c < 0x50) as Hr by zdiv. split.
        - pose proof (byte_cases (fun c => negb (is_rex c) || negb ((c & -3) =? 0x24)) ltac:(vm_compute; reflexivity) c Hc) as H.
          cbv beta in H. unfold is_rex in H. rewrite (proj2 (Z.eqb_eq _ _) Er2) in H. cbn in H. by apply negb_true_iff.
        - intros reg. unfold grp3_imm. rewrite !(proj2 (Z.eqb_neq c _)) by lia. by destruct (reg <=? 1). }
      unfold error_opcode. rewrite E1. cbn [mbind outcome_bind group]. unfold group. change (ctrue (0 & C_GROUP)) with false.
      cbn [mbind outcome_bind fst snd]. exists hs1. do 7 eexists. split; [done|]. split; [done|]. split; [done|].
      destruct (kept_err (K := cfg64) (M := M64) hs1 (F_ERROR .| F_ERROR_OPCODE)) as [L F]; [done|].
      unfold opcode_done. fold c. rewrite Er2, !(F opcode) by done.
      assert (hs1 opcode = 0) as Ho by (rewrite (rex_fields _ _ _ Hr) by notin; done). rewrite Ho.
      split_conj; [done|unfold classes64; set_solver|intros reg; rewrite E2; unfold classes64; set_solver|done|cbn; lia|done|intros _; by apply F|done|].
      intros f Hf. apply F. rewrite not_elem_of_cons in Hf. naive_solver.
    + destruct (opcode_step_spec code hs1 pref (n + 1 + 1) op64) as (hs2 & ? & ? & op & cf & x & p' & Eo & E67 & Ho);
        replace (n + 1 + 1 - 1) with (n + 1) in * by lia; [done|lia|done|].
      exists hs1. do 7 eexists. done.
  - unfold q, cbool. rewrite Z.add_0_r.
    destruct (opcode_step_spec code hs1 pref (n + 1) op64) as (hs2 & ? & ? & op & cf & x & p' & Eo & E67 & Ho);
        replace (n + 1 - 1) with n in * by lia; [done|lia|done|].
    exists hs1. do 7 eexists. done.
Qed.

(** ** The whole instruction *)

Definition has (l F : Z) : bool := ctrue (l & F).

Definition disp_bytes (l : Z) : Z :=
  cbool (has l (F_DISP8 cfg64)) + 2 * cbool (has l (F_DISP16 cfg64)) + 4 * cbool (has l (F_DISP32 cfg64)).

Definition F_IMM_ALL : Z := F_IMM8 .| F_IMM16 .| F_IMM32 .| F_IMM64.

(** The layout word of an instruction: REX, then ModR/M, SIB and a
    displacement of [d] bytes, then the immediates [v]. *)
Definition layout (R s d v : Z) (m : bool) : Z :=
  R .| (if m then F_MODRM .| (if s =? 1 then F_SIB else 0) .| disp_flag cfg64 d else 0) .| v.

Lemma layout_bits R s d v (m : bool) :
  R = 0 ∨ R = F_PREFIX_REX → s = 0 ∨ s = 1 → disp_ok d → v ∈ imm_flags64 →
  let l := layout R s d v m in
  has l F_PREFIX_REX = negb (R =? 0) ∧ has l F_MODRM = m ∧ has l F_SIB = (m && (s =? 1)) ∧
  disp_bytes l = (if m then d else 0) ∧ (l & F_IMM_ALL) = v ∧ imm_bytes l = imm_bytes v ∧
  has l F_ERROR_LENGTH = false ∧ imm_bytes v ≤ 8.
Proof.
  intros HR Hs Hd Hv. destruct HR as [-> | ->], Hs as [-> | ->], Hd as [-> |[-> |[-> | ->]]], m;
    in_cases Hv; subst v; vm_compute; done.
Qed.

(** The layout flags of [hs] are those of its layout word. *)
Lemma has_lay hs F : (F & M64) = F → has (hs flags) F = has (lay M64 hs) F.
Proof. intros E. unfold has, lay. by rewrite <- Z.land_assoc, (Z.land_comm M64), E. Qed.

Lemma disp_bytes_lay hs : disp_bytes (hs flags) = disp_bytes (lay M64 hs).
Proof. unfold disp_bytes. by rewrite !(has_lay hs) by done. Qed.

Lemma imm_bytes_lay hs : imm_bytes (hs flags) = imm_bytes (lay M64 hs).
Proof.
  unfold imm_bytes. change (ctrue (?x & ?y)) with (has x y).
  rewrite !(has_lay hs) by done. done.
Qed.

(** [hs] describes the instruction at the start of [code]: [n] prefixes,
    then the REX byte, the opcode, the ModR/M and SIB bytes, the displacement
    and the immediates the flags announce, in this order and at these
    offsets, and nothing else. *)
Record decoded (code : list Z) (hs : hdes) (n : Z) : Prop := {
  d_prefixes : ∀ i, 0 ≤ i < n → is_prefix (zget code i) = true;
  d_no_prefix : is_prefix (zget code n) = false;
  d_rex : has (hs flags) F_PREFIX_REX = is_rex (zget code n);
  d_rex_bits : has (hs flags) F_PREFIX_REX = true →
    zget code n = 0x40 + 8 * hs rex_w + 4 * hs rex_r + 2 * hs rex_x + hs rex_b;
  d_opcode : let q := n + cbool (has (hs flags) F_PREFIX_REX) in
    hs opcode = (if is_rex (zget code q) then 0 else zget code q) ∧
    (hs opcode = 0x0f → hs opcode2 = zget code (q + 1));
  d_fields :
    let m := n + cbool (has (hs flags) F_PREFIX_REX) + (if hs opcode =? 0x0f then 2 else 1) in
    let e := m + cbool (has (hs flags) F_MODRM) + cbool (has (hs flags) F_SIB) in
    let i := e + disp_bytes (hs flags) in
    (has (hs flags) F_MODRM = true → split_byte hs modrm modrm_mod modrm_reg modrm_rm (zget code m)) ∧
    (has (hs flags) F_SIB = true → split_byte hs sib sib_scale sib_index sib_base (zget code (m + 1))) ∧
    loadLE (Z.to_nat (disp_bytes (hs flags))) code e = Ok (hs disp) ∧
    imm_at code (hs flags & F_IMM_ALL) i = Ok (hs imm) ∧
    hs len = i + imm_bytes (hs flags);
  d_addressing :
    let m := n + cbool (has (hs flags) F_PREFIX_REX) + (if hs opcode =? 0x0f then 2 else 1) in
    has (hs flags) F_MODRM = true → (∀ i, 0 ≤ i < n → zget code i ≠ 0x67) →
    (hs opcode = 0x0f → ¬ 0x20 ≤ hs opcode2 ≤ 0x23) →
    has (hs flags) F_SIB = form_sib (zget code m / 64) (zget code m mod 8) ∧
    disp_bytes (hs flags) = form_disp (zget code m / 64) (zget code m mod 8) (zget code (m + 1) mod 8)
}.

(** The ModR/M statement in both cases: [m] tells whether there is a ModR/M byte. *)
Definition modrm_any (code : list Z) (pref op p : Z) (hs hs' : hdes) (p' : Z) (m : bool) (s d : Z) : Prop :=
  (s = 0 ∨ s = 1) ∧ disp_ok d ∧ (m = false → s = 0 ∧ d = 0) ∧
  p' = p + cbool m + s + d ∧
  lay M64 hs' = lay M64 hs .| (if m then F_MODRM .| (if s =? 1 then F_SIB else 0) .| disp_flag cfg64 d else 0) ∧
  (m = true → split_byte hs' modrm modrm_mod modrm_reg modrm_rm (zget code p)) ∧
  (m = true → s = 1 → split_byte hs' sib sib_scale sib_index sib_base (zget code (p + 1))) ∧
  loadLE (Z.to_nat d) code (p + cbool m + s) = Ok (hs' disp) ∧
  (m = true → hs opcode2 = 0 ∨ ¬ 0x20 ≤ op ≤ 0x23 →
   addressed (K := cfg64) pref (zget code p / 64) (zget code p mod 8) (zget code (p + 1) mod 8) s d).

Lemma modrm_step_any code hs pref op cf x p :
  bytes_ok code → 0 ≤ p → p + 6 ≤ zlen code → in_u 8 op → hs disp = 0 →
  cf ∈ classes64 → (∀ reg, grp3_imm op reg cf ∈ classes64) →
  ∃ hs' cf' p' m s d, modrm_step cfg64 code hs pref op cf x p = Ok (hs', cf', p') ∧ cf' ∈ classes64 ∧
    (∀ f, f ∉ modrm_fields → hs' f = hs f) ∧ modrm_any code pref op p hs hs' p' m s d.
Proof.
  intros Hb Hp Hl Hop Hd Hcf Hg.
  destruct (modrm_step_spec (K := cfg64) (M := M64) code hs pref op cf x p) as (hs' & cf' & p' & -> & F & H); [done..|].
  destruct (ctrue (cf & C_MODRM)).
  - destruct H as (s & d & Hs & Hds & -> & L & S1 & S2 & D & A & ->).
    exists hs', (grp3_imm op (hs' modrm_reg) cf), (p + 1 + s + d), true, s, d.
    split_conj; [done|apply Hg|done|]. unfold modrm_any, cbool.
    split_conj; [done|done|done|lia|by rewrite L, !Z.lor_assoc|done|done| |done].
    destruct D as [[-> D0]|D]; [by rewrite D0|done].
  - destruct H as (L & -> & -> & D0). exists hs', cf, p, false, 0, 0. split_conj; [done|done|done|].
    unfold modrm_any, cbool, disp_ok. split_conj; try done; try lia; [by rewrite L, Z.lor_0_r|by rewrite D0].
Qed.

(** What is known when control reaches [disasm_done]. *)
Record reached (code : list Z) (hs : hdes) (n p R s d v : Z) (m : bool) : Prop := {
  r_n : 0 ≤ n < 16;
  r_prefixes : ∀ i, 0 ≤ i < n → is_prefix (zget code i) = true;
  r_no_prefix : n < 15 → is_prefix (zget code n) = false;
  r_R : R = (if is_rex (zget code n) then F_PREFIX_REX else 0);
  r_s : s = 0 ∨ s = 1;
  r_d : disp_ok d;
  r_m : m = false → s = 0 ∧ d = 0;
  r_v : v ∈ imm_flags64;
  r_lay : lay M64 hs = layout R s d v m;
  r_rex : is_rex (zget code n) = true →
    hs rex_w = zget code n / 8 mod 2 ∧ hs rex_r = zget code n / 4 mod 2 ∧
    hs rex_x = zget code n / 2 mod 2 ∧ hs rex_b = zget code n mod 2;
  r_opcode : let q := n + cbool (is_rex (zget code n)) in
    hs opcode = (if is_rex (zget code q) then 0 else zget code q) ∧
    (hs opcode = 0x0f → hs opcode2 = zget code (q + 1));
  r_fields : let o := n + cbool (is_rex (zget code n)) + (if hs opcode =? 0x0f then 2 else 1) in
    (m = true → split_byte hs modrm modrm_mod modrm_reg modrm_rm (zget code o)) ∧
    (m = true → s = 1 → split_byte hs sib sib_scale sib_index sib_base (zget code (o + 1))) ∧
    loadLE (Z.to_nat d) code (o + cbool m + s) = Ok (hs disp) ∧
    imm_at code v (o + cbool m + s + d) = Ok (hs imm) ∧
    p = o + cbool m + s + d + imm_bytes v;
  r_addressing : let o := n + cbool (is_rex (zget code n)) + (if hs opcode =? 0x0f then 2 else 1) in
    m = true → (∀ i, 0 ≤ i ≤ n → zget code i ≠ 0x67) → (hs opcode = 0x0f → ¬ 0x20 ≤ hs opcode2 ≤ 0x23) →
    s = cbool (form_sib (zget code o / 64) (zget code o mod 8)) ∧
    d = form_disp (zget code o / 64) (zget code o mod 8) (zget code (o + 1) mod 8)
}.

Lemma decode64_reached code :
  bytes_ok code → 32 ≤ zlen code →
  ∃ hs n p R s d v m, decode64 code = Ok (hs, p) ∧ reached code hs n p R s d v m.
Proof.
  intros Hb Hl. unfold decode64.
  destruct (prefixes_spec (K := cfg64) (M := M64) code) as (hs1 & pref & n & -> & Hn & L1 & F1 & Hall & Hlast & H67); [lia|].
  cbn [mbind outcome_bind].
  destruct (head64_spec code hs1 pref n) as (hs2 & hs3 & pref3 & op64 & op & cf & x & p3 & -> & E67 & Hrex & Hop);
    [done|lia|lia|by apply F1; notin|].
  cbn [mbind outcome_bind]. destruct Hop as (Ho & Hcf & Hg & Eop & Ep3 & Eop2 & Eop3 & L3 & F3). cbv zeta in *.
  set (q := n + cbool (is_rex (zget code n))) in *.
  assert (n ≤ q ≤ n + 1) by (unfold q, cbool; destruct (is_rex _); lia).
  assert (q + 1 ≤ p3 ≤ q + 2) by (destruct (_ =? 15); lia).
  destruct (check_prefixes_ok (K := cfg64) (M := M64) hs3 pref3 op Ho) as (hs4 & -> & L4 & F4). cbn [mbind outcome_bind].
  destruct Hrex as [L2 F2 V2].
  assert (∀ f, f ∉ [flags; rex_w; rex_r; rex_x; rex_b; opcode; opcode2] → f ∉ prefix_fields → hs4 f = 0) as F14.
  { intros f Hf Hf'. rewrite !not_elem_of_cons in Hf. destruct_and! Hf.
    rewrite F4, F3, F2, F1 by (done || by rewrite !not_elem_of_cons). done. }
  destruct (modrm_step_any code hs4 pref3 op cf x p3) as (hs5 & cf5 & p5 & m & s & d & -> & Hcf5 & F5 & H5);
    [done|lia|lia|done|apply F14; unfold prefix_fields; notin|done|done|].
  destruct H5 as (Hs & Hd & Hm & Ep5 & L5 & S5 & B5 & D5 & A5). cbn [mbind outcome_bind].
  assert (p3 ≤ p5 ≤ p3 + 6) by (unfold cbool in Ep5; destruct m, Hd as [-> |[-> |[-> | ->]]]; lia).
  destruct (imm_step64_spec code hs5 pref3 op64 cf5 p5) as (hs6 & p6 & -> & v & Hv & Ep6 & L6 & I6 & F6);
    [done|done|lia|lia|rewrite F5 by (unfold modrm_fields; notin); apply F14; unfold prefix_fields; notin|].
  exists hs6, n, p6, (if is_rex (zget code n) then F_PREFIX_REX else 0), s, d, v, m. split; [done|].
  assert (hs6 opcode = hs3 opcode ∧ hs6 opcode2 = hs3 opcode2) as [O6 P6].
  { split; (rewrite F6 by done; rewrite F5 by (unfold modrm_fields; notin); by rewrite F4). }
  assert (∀ f, f ∈ [rex_w; rex_r; rex_x; rex_b] → hs6 f = hs2 f) as R6.
  { intros f Hf. rewrite F6, F5, F4, F3; [done|..]; in_cases Hf; subst f; try done; unfold modrm_fields; notin. }
  assert (hs2 opcode = 0 ∧ hs2 opcode2 = 0) as [O2 P2] by (split; rewrite F2, F1 by (unfold prefix_fields; notin); done).
  rewrite O2 in Eop.
  split; try done; cbv zeta; fold q; rewrite ?O6, ?P6; try done.
  - rewrite L6, L5, L4, L3, L2, L1, Z.lor_0_l. done.
  - intros Hr. destruct (V2 Hr) as (? & ? & ? & ?). rewrite (R6 rex_w), (R6 rex_r), (R6 rex_x), (R6 rex_b) by isin. done.
  - split; [done|]. intros E. by destruct (Eop2 E).
  - rewrite <- Ep3. split_conj; [| | | |lia].
    + intros Em. destruct (S5 Em) as (? & ? & ? & ?). repeat split; by rewrite F6.
    + intros Em Es. destruct (B5 Em Es) as (? & ? & ? & ?). repeat split; by rewrite F6.
    + by rewrite F6.
    + by rewrite <- Ep5.
  - intros Em Hno Hcr. rewrite <- Ep3. unfold addressed in A5. rewrite E67 in A5.
    assert (ctrue (pref & PRE_67) = false) as E0.
    { apply not_true_is_false. intros (i & Hi & Ei)%H67. by apply (Hno i). }
    rewrite E0 in A5. apply A5; [done|]. rewrite F4 by done.
    destruct (decide (hs3 opcode = 0x0f)) as [E|E]; [|left; by rewrite Eop3].
    right. destruct (Eop2 E) as [_ ->]. by apply Hcr.
Qed.

Lemma imm_bytes_range v : v ∈ imm_flags64 → 0 ≤ imm_bytes v ≤ 8.
Proof. intros Hv. in_cases Hv; subst v; by vm_compute. Qed.

Lemma reached_bound code hs n p R s d v m : reached code hs n p R s d v m → n < p < 256.
Proof.
  intros [? _ _ _ Hs Hd _ Hv _ _ _ (_ & _ & _ & _ & Hp) _]. pose proof (imm_bytes_range v Hv).
  destruct (_ =? 15), (is_rex _), m, Hs as [-> | ->], Hd as [-> |[-> |[-> | ->]]]; cbn [cbool] in Hp; lia.
Qed.

(** A complete instruction has the described layout. *)
Lemma reached_decoded code hs n p R s d v m :
  bytes_ok code → reached code hs n p R s d v m → p ≤ 15 →
  has (hs flags) F_ERROR_LENGTH = false ∧ decoded code (set hs len p) n.
Proof.
  intros Hb Hr Hp. pose proof (reached_bound _ _ _ _ _ _ _ _ _ Hr) as Hnp.
  destruct Hr as [Hn Hall Hlast HR Hs Hd Hm Hv HL Hrex Hop Hf Ha].
  destruct (layout_bits R s d v m) as (B1 & B2 & B3 & B4 & B5 & B6 & B7 & B8); [|done..|].
  { rewrite HR. destruct (is_rex _); auto. }
  rewrite <- HL in B1, B2, B3, B4, B5, B6, B7. rewrite <- has_lay in B1, B2, B3, B7 by done.
  rewrite <- disp_bytes_lay in B4. rewrite <- imm_bytes_lay in B6.
  assert ((hs flags & F_IMM_ALL) = v) as B5'.
  { rewrite <- B5. unfold lay. by rewrite <- Z.land_assoc. }
  assert (has (hs flags) F_PREFIX_REX = is_rex (zget code n)) as Er.
  { rewrite B1, HR. by destruct (is_rex _). }
  assert (disp_bytes (hs flags) = d) as Ed by (rewrite B4; destruct m; [done|symmetry; by apply Hm]).
  assert (has (hs flags) F_SIB = true → m = true ∧ s = 1) as Hsib.
  { rewrite B3. intros H. zify_bools. done. }
  assert (cbool (has (hs flags) F_SIB) = s) as Es.
  { rewrite B3. destruct m; cbn [andb]; [by destruct Hs as [-> | ->]|]. destruct Hm as [-> _]; done. }
  split; [done|]. cbv zeta in *. destruct Hf as (M1 & M2 & M3 & M4 & M5).
  split; cbv zeta; rewrite ?(set_ne hs len flags) by done; rewrite ?set_ne by done; rewrite ?Er; auto.
  - apply Hlast. lia.
  - intros Hr. destruct (Hrex Hr) as (-> & -> & -> & ->). unfold is_rex in Hr. zify_bools.
    clear - Hr. zdiv.
  - rewrite B2, Es, Ed, B5', B6. split_conj; [done| |done|done|rewrite set_eq; lia].
    intros H. by apply M2; apply Hsib.
  - rewrite B2, Ed. intros Em Hno Hcr. destruct Ha as [A1 A2]; [done| |done|].
    + intros i Hi. destruct (decide (i = n)) as [-> |]; [|apply Hno; lia].
      intros E. rewrite E in Hlast. by discriminate Hlast; lia.
    + split; [|done]. rewrite B3, Em, A1. cbn [andb]. by destruct (form_sib _ _).
Qed.

(** C20: [hde64_disasm] on any 32 readable bytes (the precondition its header
    states): it never reads the code or its tables out of bounds, every
    table search ends, and the reported length is between 1 and 15. *)
Theorem hde64_disasm_safe (code : list Z) :
  bytes_ok code → 32 ≤ zlen code →
  ∃ hs, hde64_disasm code = Ok hs ∧ 1 ≤ hs len ≤ 15.
Proof.
  intros Hb Hl. destruct (decode64_reached code Hb Hl) as (hs & n & p & R & s & d & v & m & E & Hr).
  exists (disasm_done hs p). split; [unfold hde64_disasm; by rewrite E|].
  assert (0 < p < 256) as Hp by (pose proof (reached_bound _ _ _ _ _ _ _ _ _ Hr); pose proof (r_n _ _ _ _ _ _ _ _ _ Hr); lia).
  destruct (disasm_done_spec hs p Hp) as [H1 H2]. destruct (Z.le_gt_cases p 15).
  - rewrite H1, set_eq by done. lia.
  - destruct (H2 ltac:(lia)) as [_ ->]. lia.
Qed.


(** ** Witnesses and deviations from the instruction set *)

(** [mov rax, [rsp + 0x10]], an instruction with REX, ModR/M, SIB and disp8. *)
Definition mov_sib : list Z := [0x48; 0x8b; 0x44; 0x24; 0x10] ++ replicate 27 0x90.

Lemma mov_sib_bytes : bytes_ok mov_sib.
Proof. repeat constructor; lia. Qed.

Lemma hde64_disasm_safe_witness :
  ∃ hs, hde64_disasm mov_sib = Ok hs ∧ 1 ≤ hs len ≤ 15.
Proof. apply (hde64_disasm_safe mov_sib); [apply mov_sib_bytes|done]. Defined.


(** The immediate added for [/0] and [/1] of opcode [0xf6] is also added
    for the two-byte opcode [0x0f 0xf6] ([psadbw], which has none): with a
    register operand the length reported is 4 where the instruction has 3 bytes. *)
Theorem hde64_psadbw_length (c b : Z) (t : list Z) :
  0xc0 ≤ c < 0xd0 →
  ∃ hs, hde64_disasm (0x0f :: 0xf6 :: c :: b :: t) = Ok hs ∧
    hs opcode2 = 0xf6 ∧ hs len = 4 ∧ has (hs flags) F_IMM8 = true ∧ has (hs flags) F_ERROR = false.
Proof.
  intros Hc. assert (c ∈ seqZ 0xc0 16) as Hin by (apply elem_of_seqZ; lia).
  let l := eval vm_compute in (seqZ 0xc0 16) in change (seqZ 0xc0 16) with l in Hin.
  assert ((hs ← hde64_disasm (0x0f :: 0xf6 :: c :: b :: t);
           Ok (hs opcode2, hs len, has (hs flags) F_IMM8, has (hs flags) F_ERROR)) = Ok (0xf6, 4, true, false)) as H
    by (in_cases Hin; subst c; vm_compute; reflexivity).
  apply bind_Ok_inv in H as (hs & E & H). exists hs. split; [done|]. by simplify_eq.
Qed.

Lemma hde64_psadbw_length_witness :
  ∃ hs, hde64_disasm (0x0f :: 0xf6 :: 0xc1 :: 0x90 :: []) = Ok hs ∧
    hs opcode2 = 0xf6 ∧ hs len = 4 ∧ has (hs flags) F_IMM8 = true ∧ has (hs flags) F_ERROR = false.
Proof. apply (hde64_psadbw_length 0xc1 0x90 []). done. Defined.

(** [enter 0x1234, 0x56]: the low byte of the 16-bit immediate is overwritten by the 8-bit one. *)
Example hde64_enter_imm :
  (hs ← hde64_disasm ([0xc8; 0x34; 0x12; 0x56] ++ replicate 28 0x90); Ok (hs len, hs imm)) = Ok (4, 0x1256).
Proof. vm_compute. reflexivity. Qed.

(** An address-size prefix is taken for 16-bit addressing: [mov eax, [eip + disp32]]
    is reported with 3 bytes instead of 7. *)
Example hde64_addr32_length :
  (hs ← hde64_disasm ([0x67; 0x8b; 0x05; 1; 2; 3; 4] ++ replicate 25 0x90); Ok (hs len, hs flags & F_ERROR)) = Ok (3, 0).
Proof. vm_compute. reflexivity. Qed.

(** [lock sldt [rax]] passes as lockable: the second opcode byte is 0, and the
    tests of [opcode2] take the instruction for the one-byte opcode 0. *)
Example hde64_lock_0f00 :
  (hs ← hde64_disasm ([0xf0; 0x0f; 0x00; 0x00] ++ replicate 28 0x90); Ok (hs len, hs flags & F_ERROR)) = Ok (4, 0).
Proof. vm_compute. reflexivity. Qed.

End Hde64.
