(* ===== verification/Hde32.v ===== *)
(** * HDE32 ([Lilu.kext/hde/hde32.c], [hde32.h], [table32.h])

    The 32-bit configuration of [Hde], the opcode and immediate steps of the
    32-bit engine, and [hde32_disasm]; safety, termination and the
    decomposition of the reported length. *)

From Stdlib Require Import ZArith Lia.
From stdpp Require Import sets.
From S2P Require Import Prelude Hde.

Module Hde32.

Import Hde.
Open Scope c_scope.

Definition F_2IMM16 := 0x00000800.

(** [hde32_table] *)
Definition hde32_table : list Z :=
  mjoin [
    [0xa3; 0xa8; 0xa3; 0xa8; 0xa3; 0xa8; 0xa3; 0xa8; 0xa3; 0xa8; 0xa3; 0xa8; 0xa3; 0xa8; 0xa3];
    [0xa8; 0xaa; 0xaa; 0xaa; 0xaa; 0xaa; 0xaa; 0xaa; 0xaa; 0xac; 0xaa; 0xb2; 0xaa; 0x9f; 0x9f];
    [0x9f; 0x9f; 0xb5; 0xa3; 0xa3; 0xa4; 0xaa; 0xaa; 0xba; 0xaa; 0x96; 0xaa; 0xa8; 0xaa; 0xc3];
    [0xc3; 0x96; 0x96; 0xb7; 0xae; 0xd6; 0xbd; 0xa3; 0xc5; 0xa3; 0xa3; 0x9f; 0xc3; 0x9c; 0xaa];
    [0xaa; 0xac; 0xaa; 0xbf; 0x03; 0x7f; 0x11; 0x7f; 0x01; 0x7f; 0x01; 0x3f; 0x01; 0x01; 0x90];
    [0x82; 0x7d; 0x97; 0x59; 0x59; 0x59; 0x59; 0x59; 0x7f; 0x59; 0x59; 0x60; 0x7d; 0x7f; 0x7f];
    [0x59; 0x59; 0x59; 0x59; 0x59; 0x59; 0x59; 0x59; 0x59; 0x59; 0x59; 0x59; 0x9a; 0x88; 0x7d];
    [0x59; 0x50; 0x50; 0x50; 0x50; 0x59; 0x59; 0x59; 0x59; 0x61; 0x94; 0x61; 0x9e; 0x59; 0x59];
    [0x85; 0x59; 0x92; 0xa3; 0x60; 0x60; 0x59; 0x59; 0x59; 0x59; 0x59; 0x59; 0x59; 0x59; 0x59];
    [0x59; 0x59; 0x9f; 0x01; 0x03; 0x01; 0x04; 0x03; 0xd5; 0x03; 0xcc; 0x01; 0xbc; 0x03; 0xf0];
    [0x10; 0x10; 0x10; 0x10; 0x50; 0x50; 0x50; 0x50; 0x14; 0x20; 0x20; 0x20; 0x20; 0x01; 0x01];
    [0x01; 0x01; 0xc4; 0x02; 0x10; 0x00; 0x00; 0x00; 0x00; 0x01; 0x01; 0xc0; 0xc2; 0x10; 0x11];
    [0x02; 0x03; 0x11; 0x03; 0x03; 0x04; 0x00; 0x00; 0x14; 0x00; 0x02; 0x00; 0x00; 0xc6; 0xc8];
    [0x02; 0x02; 0x02; 0x02; 0x00; 0x00; 0xff; 0xff; 0xff; 0xff; 0x00; 0x00; 0x00; 0xff; 0xca];
    [0x01; 0x01; 0x01; 0x00; 0x06; 0x00; 0x04; 0x00; 0xc0; 0xc2; 0x01; 0x01; 0x03; 0x01; 0xff];
    [0xff; 0x01; 0x00; 0x03; 0xc4; 0xc4; 0xc6; 0x03; 0x01; 0x01; 0x01; 0xff; 0x03; 0x03; 0x03];
    [0xc8; 0x40; 0x00; 0x0a; 0x00; 0x04; 0x00; 0x00; 0x00; 0x00; 0x7f; 0x00; 0x33; 0x01; 0x00];
    [0x00; 0x00; 0x00; 0x00; 0x00; 0xff; 0xbf; 0xff; 0xff; 0x00; 0x00; 0x00; 0x00; 0x07; 0x00];
    [0x00; 0xff; 0x00; 0x00; 0x00; 0x00; 0x00; 0x00; 0x00; 0x00; 0x00; 0x00; 0x00; 0x00; 0x00];
    [0x00; 0xff; 0xff; 0x00; 0x00; 0x00; 0xbf; 0x00; 0x00; 0x00; 0x00; 0x00; 0x00; 0x00; 0x00];
    [0x7f; 0x00; 0x00; 0xff; 0x4a; 0x4a; 0x4a; 0x4a; 0x4b; 0x52; 0x4a; 0x4a; 0x4a; 0x4a; 0x4f];
    [0x4c; 0x4a; 0x4a; 0x4a; 0x4a; 0x4a; 0x4a; 0x4a; 0x4a; 0x55; 0x45; 0x40; 0x4a; 0x4a; 0x4a];
    [0x45; 0x59; 0x4d; 0x46; 0x4a; 0x5d; 0x4a; 0x4a; 0x4a; 0x4a; 0x4a; 0x4a; 0x4a; 0x4a; 0x4a];
    [0x4a; 0x4a; 0x4a; 0x4a; 0x4a; 0x61; 0x63; 0x67; 0x4e; 0x4a; 0x4a; 0x6b; 0x6d; 0x4a; 0x4a];
    [0x45; 0x6d; 0x4a; 0x4a; 0x44; 0x45; 0x4a; 0x4a; 0x00; 0x00; 0x00; 0x02; 0x0d; 0x06; 0x06];
    [0x06; 0x06; 0x0e; 0x00; 0x00; 0x00; 0x00; 0x06; 0x06; 0x06; 0x00; 0x06; 0x06; 0x02; 0x06];
    [0x00; 0x0a; 0x0a; 0x07; 0x07; 0x06; 0x02; 0x05; 0x05; 0x02; 0x02; 0x00; 0x00; 0x04; 0x04];
    [0x04; 0x04; 0x00; 0x00; 0x00; 0x0e; 0x05; 0x06; 0x06; 0x06; 0x01; 0x06; 0x00; 0x00; 0x08];
    [0x00; 0x10; 0x00; 0x18; 0x00; 0x20; 0x00; 0x28; 0x00; 0x30; 0x00; 0x80; 0x01; 0x82; 0x01];
    [0x86; 0x00; 0xf6; 0xcf; 0xfe; 0x3f; 0xab; 0x00; 0xb0; 0x00; 0xb1; 0x00; 0xb3; 0x00; 0xba];
    [0xf8; 0xbb; 0x00; 0xc0; 0x00; 0xc1; 0x00; 0xc7; 0xbf; 0x62; 0xff; 0x00; 0x8d; 0xff; 0x00];
    [0xc4; 0xff; 0x00; 0xc5; 0xff; 0x00; 0xff; 0xff; 0xeb; 0x01; 0xff; 0x0e; 0x12; 0x08; 0x00];
    [0x13; 0x09; 0x00; 0x16; 0x08; 0x00; 0x17; 0x09; 0x00; 0x2b; 0x09; 0x00; 0xae; 0xff; 0x07];
    [0xb2; 0xff; 0x00; 0xb4; 0xff; 0x00; 0xb5; 0xff; 0x00; 0xc3; 0x01; 0x00; 0xc7; 0xff; 0xbf];
    [0xe7; 0x08; 0x00; 0xf0; 0x02; 0x00]].

Definition cfg32 : cfg :=
  mkCfg hde32_table 0xf1 0xf8 0x130 0x1a1 0x1b9 0x1cb 0x1da 0x20 0x40 0x80 0x100 true.

(** The steps that are the same code over the 32-bit table and flags. *)
Definition prefixes32 : list Z → outcome (hdes * Z * Z * Z) := prefixes.
Definition check_prefixes32 : hdes → Z → Z → outcome hdes := check_prefixes cfg32.
Definition modrm_step32 : list Z → hdes → Z → Z → Z → Z → Z → outcome (hdes * Z * Z) := modrm_step cfg32.

(** From [hs->opcode = c] to the group lookup; returns [hs], [pref],
    [opcode], [cflags], [x] and [p]. *)
Definition opcode_step32 (code : list Z) (hs : hdes) (pref c p : Z)
  : outcome (hdes * Z * Z * Z * Z * Z) :=
  let hs := set hs opcode c in
  r ← (if c =? 0x0f then
         c ← aget code p; Ok (set hs opcode2 c, pref, c, p + 1, DELTA_OPCODES)
       else if (0xa0 <=? c) && (c <=? 0xa3) then
         Ok (hs, if ctrue (pref & PRE_67) then pref .| PRE_66 else pref & (Z.lnot PRE_66), c, p, 0)
       else Ok (hs, pref, c, p, 0));
  let '(hs, pref, c, p, ht) := r in
  r ← lookup_opcode hde32_table hs ht c;
  let '(hs, cflags, x) := r in
  Ok (hs, pref, c, cflags, x, p).

(** [if (cflags & C_IMM16)]: a second immediate goes to the displacement. *)
Definition imm16_step32 (code : list Z) (hs : hdes) (cflags p : Z) : outcome (hdes * Z) :=
  if ctrue (cflags & C_IMM16) then
    hs ← (if ctrue (hs flags & F_IMM32) then load_imm code hs disp 2 F_IMM16 p
          else if ctrue (hs flags & F_IMM16) then load_imm code hs disp 2 F_2IMM16 p
          else load_imm code hs imm 2 F_IMM16 p);
    Ok (hs, p + 2)
  else Ok (hs, p).

(** [C_IMM_P66] to [disasm_done]. *)
Definition imm_step32 (code : list Z) (hs : hdes) (pref cflags p : Z) : outcome (hdes * Z) :=
  if ctrue (cflags & C_IMM_P66) && ctrue (cflags & C_REL32) then rel_p66 cfg32 code hs pref p
  else
    r ← (if ctrue (cflags & C_IMM_P66) then
           if ctrue (pref & PRE_66) then hs ← load_imm code hs imm 2 F_IMM16 p; Ok (hs, p + 2)
           else hs ← load_imm code hs imm 4 F_IMM32 p; Ok (hs, p + 4)
         else Ok (hs, p));
    r ← imm16_step32 code r.1 cflags r.2;
    r ← imm8_step code r.1 cflags r.2;
    rel_step cfg32 code r.1 cflags r.2.

(** The structure and the offset before [disasm_done]. *)
Definition decode32 (code : list Z) : outcome (hdes * Z) :=
  r ← prefixes32 code;
  let '(hs, pref, c, p) := r in
  r ← opcode_step32 code hs pref c p;
  let '(hs, pref, opc, cflags, x, p) := r in
  hs ← check_prefixes32 hs pref opc;
  r ← modrm_step32 code hs pref opc cflags x p;
  let '(hs, cflags, p) := r in
  imm_step32 code hs pref cflags p.

(** [hde32_disasm]: the filled structure; its [len] field is the value returned. *)
Definition hde32_disasm (code : list Z) : outcome hdes :=
  r ← decode32 code; Ok (disasm_done r.1 r.2).

Example call_far :
  (hs ← hde32_disasm ([0x9a; 1; 2; 3; 4; 5; 6] ++ replicate 25 0x90); Ok (hs len, hs imm, hs disp, hs flags))
  = Ok (7, 0x04030201, 0x0605, F_IMM32 .| F_IMM16).
Proof. vm_compute. reflexivity. Qed.

(** ** The table *)

(** The flags that describe the layout of an instruction. *)
Definition M32 : Z := 0x48ff.

#[global] Instance cfg32_ok : CfgOk cfg32 M32.
Proof.
  split.
  - intros op Hop.
    pose proof (byte_cases (fun op => match table_entry hde32_table 0x130 op with Ok _ => true | _ => false end)
      ltac:(vm_compute; reflexivity) op Hop) as H.
    change (table cfg32) with hde32_table. change (DELTA_PREFIXES cfg32) with 0x130. cbv beta in H.
    destruct (table_entry hde32_table 0x130 op); naive_solver.
  - by vm_compute.
  - by vm_compute.
  - exists 12%nat. split; [lia|by vm_compute].
  - exists 9%nat. split; [lia|by vm_compute].
  - exists 5%nat. split; [lia|by vm_compute].
  - exists 14%nat. split; [lia|by vm_compute].
  - reflexivity.
  - reflexivity.
  - reflexivity.
  - intros d. unfold disp_flag. by repeat case_bool.
  - intros pref Hp. assert (in_u 8 pref) as Hp8 by (unfold in_u in *; lia).
    pose proof (byte_cases (fun b => (128 <=? b) || ((u32 (b << 23) & M32) =? 0))
      ltac:(vm_compute; reflexivity) pref Hp8) as H. cbv beta in H. apply orb_true_iff in H as [H|H]; zify_bools; [|done].
    unfold in_u in Hp. lia.
Qed.

Definition classes32 : list Z := [0; 1; 2; 3; 4; 6; 16; 17; 20; 32; 80].

Lemma opcode_class_32 ht op : ht = 0 ∨ ht = DELTA_OPCODES → in_u 8 op →
  ∃ cf x, opcode_class hde32_table ht op = Ok (cf, x) ∧ cf ∈ classes32 ∧ ∀ reg, grp3_imm op reg cf ∈ classes32.
Proof.
  intros Hht Hop.
  assert (match opcode_class hde32_table ht op with
          | Ok (cf, _) => bool_decide (cf ∈ classes32) && bool_decide (grp3_imm op 0 cf ∈ classes32)
          | _ => false end = true) as H.
  { destruct Hht as [-> | ->]; revert op Hop; apply byte_cases; vm_compute; reflexivity. }
  destruct (opcode_class hde32_table ht op) as [[cf x]| |]; try done. zify_bools.
  rewrite bool_decide_eq_true in *. exists cf, x. split_conj; try done.
  intros reg. unfold grp3_imm in *. destruct (reg <=? 1); [|done]. by destruct (0 <=? 1) eqn:?.
Qed.

(** ** Immediates *)

Definition imm_bytes (v : Z) : Z :=
  cbool (ctrue (v & F_IMM8)) + 2 * cbool (ctrue (v & F_IMM16)) +
  4 * cbool (ctrue (v & F_IMM32)) + 2 * cbool (ctrue (v & F_2IMM16)).

Definition imm_flags32 : list Z :=
  [0; F_IMM8; F_IMM16; F_IMM32; F_IMM16 .| F_IMM8; F_IMM32 .| F_IMM16; F_IMM16 .| F_2IMM16].

(** What the immediate steps did to the layout. *)
Definition imm_done (hs hs' : hdes) (p p' : Z) : Prop :=
  ∃ v, v ∈ imm_flags32 ∧ p' = p + imm_bytes v ∧ lay M32 hs' = lay M32 hs .| v ∧
    (∀ f, f ≠ flags → f ≠ imm → f ≠ disp → hs' f = hs f).

Lemma load_imm32 code hs f n fl p :
  f = imm ∨ f = disp → 0 ≤ p → p + Z.of_nat n ≤ zlen code →
  ∃ hs', load_imm code hs f n fl p = Ok hs' ∧ lay M32 hs' = lay M32 hs .| (fl & M32) ∧
    (∀ g, g ≠ flags → g ≠ imm → g ≠ disp → hs' g = hs g).
Proof.
  intros Hf Hp Hl. destruct (load_imm_spec (M := M32) code hs f n fl p) as (hs' & v & E & _ & L & F & _);
    [destruct Hf; congruence|done|done|].
  exists hs'. split_conj; [done|done|]. intros g ? ? ?. apply F; [done|]. destruct Hf; congruence.
Qed.

(** Evaluate the flag tests on constants. *)
Ltac calc_ctrue :=
  repeat match goal with
  | |- context [ctrue ?a] =>
      let v := eval vm_compute in (ctrue a) in
      lazymatch v with
      | true => change (ctrue a) with true
      | false => change (ctrue a) with false
      end
  end; cbv iota; cbn [andb orb negb].

(** Execute the next load of an immediate. *)
Ltac do_imm :=
  match goal with
  | |- context [load_imm ?code ?hs ?f ?n ?fl ?p] =>
      let hs' := fresh "hs" in let L := fresh "L" in let F := fresh "F" in
      destruct (load_imm32 code hs f n fl p) as (hs' & -> & L & F); [by auto|lia|lia|]
  end; cbn [mbind outcome_bind fst snd].

(** Close the specification with the flags [v] that were set. *)
Ltac imm_flags v :=
  do 2 eexists; split; [reflexivity|]; exists v; split_conj;
    [isin|let k := eval vm_compute in (imm_bytes v) in change (imm_bytes v) with k; lia
    |repeat match goal with L : lay M32 _ = _ |- _ => rewrite L; clear L end;
     rewrite ?Z.lor_0_r, <- ?Z.lor_assoc; reflexivity
    |intros f ? ? ?; repeat match goal with F : ∀ g, _ → _ → _ → _ = _ |- _ => rewrite F by done; clear F end; reflexivity].

Lemma flag_test hs F : (F & M32) = F → ctrue (hs flags & F) = ctrue (lay M32 hs & F).
Proof. intros E. unfold lay. by rewrite <- Z.land_assoc, (Z.land_comm M32), E. Qed.

Lemma imm_step32_spec code hs pref cf p :
  cf ∈ classes32 → 0 ≤ p → p + 8 ≤ zlen code → (lay M32 hs & (F_IMM16 .| F_IMM32)) = 0 →
  ∃ hs' p', imm_step32 code hs pref cf p = Ok (hs', p') ∧ imm_done hs hs' p p'.
Proof.
  intros Hcf Hp Hl H0. rewrite Z.land_lor_distr_r in H0. apply Z.lor_eq_0_iff in H0 as [H16 H32].
  unfold imm_step32, imm16_step32, rel_p66, imm8_step, rel_step, rel32_ok.
  in_cases Hcf; subst cf; calc_ctrue; cbn [mbind outcome_bind fst snd].
  - imm_flags 0.
  - imm_flags 0.
  - do_imm. imm_flags F_IMM8.
  - do_imm. imm_flags F_IMM8.
  - rewrite !flag_test, H16, H32 by done. calc_ctrue. do_imm. imm_flags F_IMM16.
  - rewrite !flag_test, H16, H32 by done. calc_ctrue. do_imm. do_imm. imm_flags (F_IMM16 .| F_IMM8).
  - destruct (ctrue (pref & PRE_66)); do_imm; [imm_flags F_IMM16|imm_flags F_IMM32].
  - destruct (ctrue (pref & PRE_66)); do_imm; [imm_flags F_IMM16|imm_flags F_IMM32].
  - destruct (ctrue (pref & PRE_66)); do_imm.
    + rewrite !flag_test by done. rewrite L, !Z.land_lor_distr_l, H16, H32. calc_ctrue.
      do_imm. imm_flags (F_IMM16 .| F_2IMM16).
    + rewrite !flag_test by done. rewrite L, !Z.land_lor_distr_l, H16, H32. calc_ctrue.
      do_imm. imm_flags (F_IMM32 .| F_IMM16).
  - do_imm. imm_flags F_IMM8.
  - destruct (ctrue (pref & PRE_66)); do_imm; [imm_flags F_IMM16|imm_flags F_IMM32].
Qed.

(** ** The whole instruction *)

Definition has (l F : Z) : bool := ctrue (l & F).

Definition disp_bytes (l : Z) : Z :=
  cbool (has l (F_DISP8 cfg32)) + 2 * cbool (has l (F_DISP16 cfg32)) + 4 * cbool (has l (F_DISP32 cfg32)).

(** The part of the length that the flags determine. *)
Definition flag_bytes (l : Z) : Z :=
  cbool (has l F_MODRM) + cbool (has l F_SIB) + disp_bytes l + imm_bytes l.

Lemma disp_bytes_lay32 hs : disp_bytes (hs flags) = disp_bytes (lay M32 hs).
Proof. unfold disp_bytes, has. by rewrite !(flag_test hs) by done. Qed.

Lemma flag_bytes_lay hs : flag_bytes (hs flags) = flag_bytes (lay M32 hs).
Proof. unfold flag_bytes, disp_bytes, imm_bytes, has. by rewrite !(flag_test hs) by done. Qed.

(** What is known when control reaches [disasm_done]: [m] and [q] are the
    ModR/M flags, [v] the immediates. *)
Definition layout (m : bool) (s d v : Z) : Z :=
  (if m then F_MODRM .| (if s =? 1 then F_SIB else 0) .| disp_flag cfg32 d else 0) .| v.

Lemma layout_bytes (m : bool) s d v :
  s = 0 ∨ s = 1 → disp_ok d → v ∈ imm_flags32 →
  flag_bytes (layout m s d v) = (if m then 1 + s + d else 0) + imm_bytes v ∧
  (layout m s d 0 & (F_IMM16 .| F_IMM32)) = 0 ∧ 0 ≤ imm_bytes v ≤ 8 ∧
  has (layout m s d v) F_MODRM = m ∧ has (layout m s d v) F_SIB = (m && (s =? 1)) ∧
  has (layout m s d v) F_ERROR_LENGTH = false ∧ disp_bytes (layout m s d v) = (if m then d else 0).
Proof.
  intros Hs Hd Hv. destruct Hs as [-> | ->], Hd as [-> |[-> |[-> | ->]]], m;
    in_cases Hv; subst v; vm_compute; done.
Qed.

(** The opcode step; [n] is the offset of the opcode. *)
Lemma opcode_step32_spec code hs pref n :
  bytes_ok code → 0 ≤ n → n + 1 < zlen code →
  ∃ hs' pref' op cf x p', opcode_step32 code hs pref (zget code n) (n + 1) = Ok (hs', pref', op, cf, x, p') ∧
    in_u 8 op ∧ cf ∈ classes32 ∧ (∀ reg, grp3_imm op reg cf ∈ classes32) ∧
    hs' opcode = zget code n ∧ (zget code n = 0x0f → hs' opcode2 = zget code (n + 1)) ∧
    (if zget code n =? 0x0f then op = zget code (n + 1) else hs' opcode2 = hs opcode2) ∧
    ctrue (pref' & PRE_67) = ctrue (pref & PRE_67) ∧
    p' = n + (if zget code n =? 0x0f then 2 else 1) ∧
    lay M32 hs' = lay M32 hs ∧ (∀ f, f ∉ [flags; opcode; opcode2] → hs' f = hs f).
Proof.
  intros Hb Hn Hl. unfold opcode_step32. set (c := zget code n).
  assert (in_u 8 c) as Hc by (by apply bytes_ok_zget).
  destruct (Z.eqb_spec c 0x0f) as [E|E].
  - rewrite aget_zget by lia. cbn [mbind outcome_bind]. set (c2 := zget code (n + 1)).
    assert (in_u 8 c2) as Hc2 by (by apply bytes_ok_zget).
    destruct (opcode_class_32 DELTA_OPCODES c2) as (cf & x & Hcl & Hin & Hg); [by right|done|].
    destruct (lookup_opcode_spec (K := cfg32) (M := M32) hde32_table (set (set hs opcode c) opcode2 c2) DELTA_OPCODES c2 cf x Hcl)
      as (hs2 & -> & L & F). cbn [mbind outcome_bind]. do 6 eexists. split; [done|].
    split_conj; [done..| | |done|done|lia| |]; rewrite ?F, ?L by done.
    + by rewrite set_ne, set_eq.
    + intros _. by rewrite set_eq.
    + by rewrite !lay_set.
    + intros f Hf. rewrite !not_elem_of_cons in Hf. destruct_and! Hf. rewrite F by done. by rewrite !set_ne.
  - destruct (opcode_class_32 0 c) as (cf & x & Hcl & Hin & Hg); [by left|done|].
    destruct (lookup_opcode_spec (K := cfg32) (M := M32) hde32_table (set hs opcode c) 0 c cf x Hcl) as (hs2 & El & L & F).
    destruct ((0xa0 <=? c) && (c <=? 0xa3)); cbn [mbind outcome_bind]; rewrite El; cbn; do 6 eexists; (split; [done|]);
      (split_conj; [done..| |done| |done || apply pref_67_a0|lia| |]; rewrite ?F, ?L by done;
       [by rewrite set_eq|by rewrite set_ne|by rewrite lay_set
       |intros f Hf; rewrite !not_elem_of_cons in Hf; destruct_and! Hf; rewrite F by done; by rewrite set_ne]).
Qed.

(** The ModR/M statement in both cases: [m] tells whether there is a ModR/M byte. *)
Lemma modrm_step32_any code hs pref op cf x p :
  bytes_ok code → 0 ≤ p → p + 6 ≤ zlen code → in_u 8 op → hs disp = 0 → lay M32 hs = 0 →
  cf ∈ classes32 → (∀ reg, grp3_imm op reg cf ∈ classes32) →
  ∃ hs' cf' p' (m : bool) s d, modrm_step cfg32 code hs pref op cf x p = Ok (hs', cf', p') ∧
    (∀ f, f ∉ modrm_fields → hs' f = hs f) ∧ (s = 0 ∨ s = 1) ∧ disp_ok d ∧
    p' = p + (if m then 1 + s + d else 0) ∧ lay M32 hs' = layout m s d 0 ∧ cf' ∈ classes32 ∧
    (m = true → split_byte hs' modrm modrm_mod modrm_reg modrm_rm (zget code p)) ∧
    (m = true → s = 1 → split_byte hs' sib sib_scale sib_index sib_base (zget code (p + 1))) ∧
    (m = true → hs opcode2 = 0 ∨ ¬ 0x20 ≤ op ≤ 0x23 →
     addressed (K := cfg32) pref (zget code p / 64) (zget code p mod 8) (zget code (p + 1) mod 8) s d).
Proof.
  intros Hb Hp Hl Ho D0 L0 Hcf Hg.
  destruct (modrm_step_spec (K := cfg32) (M := M32) code hs pref op cf x p) as (hs' & cf' & p' & -> & F & H); [done..|].
  destruct (ctrue (cf & C_MODRM)).
  - destruct H as (s & d & Hs & Hd & -> & L & S1 & B1 & _ & A & ->). do 3 eexists. exists true, s, d.
    split_conj; [done|done|done|done|lia|by rewrite L, L0, Z.lor_0_l; unfold layout; rewrite Z.lor_0_r|apply Hg|done|done|done].
  - destruct H as (L & -> & -> & _). do 3 eexists. exists false, 0, 0. rewrite L, L0.
    split_conj; [done|done|by left|by left|lia|done|done|done|done|done].
Qed.

(** The SIB byte and the displacement are those of the addressing form of the
    ModR/M byte at [o]: the 16-bit form when one of the [n] prefixes is the
    address-size prefix, else the 32-bit form. The moves of control and debug
    registers, which have no memory form, are left out. *)
Definition addressed32 (code : list Z) (hs : hdes) (n o : Z) : Prop :=
  let md := zget code o / 64 in
  let rm := zget code o mod 8 in
  has (hs flags) F_MODRM = true → (zget code n = 0x0f → ¬ 0x20 ≤ zget code (n + 1) ≤ 0x23) →
  ((∀ i, 0 ≤ i < n → zget code i ≠ 0x67) →
   has (hs flags) F_SIB = form_sib md rm ∧ disp_bytes (hs flags) = form_disp md rm (zget code (o + 1) mod 8)) ∧
  ((∃ i, 0 ≤ i < n ∧ zget code i = 0x67) →
   has (hs flags) F_SIB = false ∧ disp_bytes (hs flags) = form16_disp md rm).

Lemma addressed32_of code hs pref n o s d v m :
  (s = 0 ∨ s = 1) → disp_ok d → v ∈ imm_flags32 → lay M32 hs = layout m s d v →
  (m = true → (zget code n = 0x0f → ¬ 0x20 ≤ zget code (n + 1) ≤ 0x23) →
   addressed (K := cfg32) pref (zget code o / 64) (zget code o mod 8) (zget code (o + 1) mod 8) s d) →
  (ctrue (pref & PRE_67) = true ↔ ∃ i, 0 ≤ i < n ∧ zget code i = 0x67) →
  addressed32 code hs n o.
Proof.
  intros Hs Hd Hv L A H67. destruct (layout_bytes m s d v Hs Hd Hv) as (_ & _ & _ & B2 & B3 & _ & B4).
  unfold addressed32, has in *. rewrite !flag_test, disp_bytes_lay32, L, B2, B3, B4 by done. cbv zeta.
  intros -> Hcr. cbn [andb]. specialize (A eq_refl Hcr). unfold addressed in A. split.
  - intros Hno. assert (ctrue (pref & PRE_67) = false) as E0.
    { apply not_true_is_false. intros (i & Hi & Ei)%H67. by apply (Hno i). }
    rewrite E0 in A. destruct A as [-> ->]. by destruct (form_sib _ _).
  - intros H%H67. rewrite H in A. by destruct A as [-> ->].
Qed.

(** The structure before [disasm_done] describes the first [p] bytes. *)
Lemma decode32_spec code :
  bytes_ok code → 32 ≤ zlen code →
  ∃ hs p n, decode32 code = Ok (hs, p) ∧ 0 ≤ n < 16 ∧ n < p < 256 ∧
    (∀ i, 0 ≤ i < n → is_prefix (zget code i) = true) ∧
    (n < 15 → is_prefix (zget code n) = false) ∧ hs opcode = zget code n ∧
    let o := n + (if zget code n =? 0x0f then 2 else 1) in
    p = o + flag_bytes (hs flags) ∧
    (has (hs flags) F_MODRM = true → split_byte hs modrm modrm_mod modrm_reg modrm_rm (zget code o)) ∧
    (has (hs flags) F_SIB = true → split_byte hs sib sib_scale sib_index sib_base (zget code (o + 1))) ∧
    (n < 15 → addressed32 code hs n o).
Proof.
  intros Hb Hl. unfold decode32, prefixes32, check_prefixes32, modrm_step32.
  destruct (prefixes_spec (K := cfg32) (M := M32) code) as (hs1 & pref & n & -> & Hn & L1 & F1 & Hall & Hlast & H67); [lia|].
  cbn [mbind outcome_bind].
  destruct (opcode_step32_spec code hs1 pref n) as (hs3 & pref3 & op & cf & x & p3 & -> & Ho & Hcf & Hg & Eop & Eop2 & Eop3 & E67 & Ep3 & L3 & F3);
    [done|lia|lia|].
  cbn [mbind outcome_bind]. assert (n + 1 ≤ p3 ≤ n + 2) by (destruct (_ =? 15); lia).
  destruct (check_prefixes_ok (K := cfg32) (M := M32) hs3 pref3 op Ho) as (hs4 & -> & L4 & F4). cbn [mbind outcome_bind].
  assert (hs4 disp = 0) as D4.
  { rewrite F4 by done. rewrite F3 by notin. apply F1. unfold prefix_fields. notin. }
  destruct (modrm_step32_any code hs4 pref3 op cf x p3) as (hs5 & cf5 & p5 & m & s & d & -> & F5 & Hs & Hd & Ep5 & L5 & Hcf5 & S5 & B5 & A5);
    [done|lia|lia|done|done|by rewrite L4, L3, L1|done|done|]. cbn [mbind outcome_bind].
  assert (p3 ≤ p5 ≤ p3 + 6) by (destruct m, Hs as [-> | ->], Hd as [-> |[-> |[-> | ->]]]; lia).
  destruct (imm_step32_spec code hs5 pref3 cf5 p5) as (hs6 & p6 & -> & v & Hv & Ep6 & L6 & F6);
    [done|lia|lia|rewrite L5; by apply (layout_bytes m s d 0); [..|isin]|].
  destruct (layout_bytes m s d v Hs Hd Hv) as (B1 & _ & Hiv & B2 & B3 & _ & B4).
  assert (lay M32 hs6 = layout m s d v) as L6' by (rewrite L6, L5; unfold layout; by rewrite Z.lor_0_r).
  exists hs6, p6, n. cbv zeta. split_conj; [done|lia|lia|lia|lia|done|done| | | | |].
  - rewrite F6 by done. rewrite F5 by (unfold modrm_fields; notin). by rewrite F4.
  - rewrite flag_bytes_lay, L6', B1. lia.
  - unfold has. rewrite flag_test, L6' by done. intros Hm. unfold has in B2. rewrite B2 in Hm.
    rewrite <- Ep3. destruct (S5 Hm) as (? & ? & ? & ?). repeat split; by rewrite F6.
  - unfold has. rewrite flag_test, L6' by done. intros Hm. unfold has in B3. rewrite B3 in Hm. zify_bools.
    rewrite <- Ep3. destruct B5 as (? & ? & ? & ?); [done|done|]. repeat split; by rewrite F6.
  - intros Hn15. rewrite <- Ep3. apply (addressed32_of code hs6 pref3 n p3 s d v m); try done.
    + intros Em Hcr. apply A5; [done|]. rewrite F4 by done.
      destruct (Z.eqb_spec (zget code n) 0x0f) as [E|E]; [right; rewrite Eop3; by apply Hcr|left].
      rewrite Eop3. apply F1. unfold prefix_fields. notin.
    + rewrite E67, H67. split; intros (i & Hi & Ei); exists i; (split; [|done]); [|lia].
      destruct (decide (i = n)) as [-> |]; [|lia]. rewrite Ei in Hlast. by discriminate Hlast.
Qed.

(** C18: [hde32_disasm] on any 32 readable bytes: no access outside the code or
    the tables, every search ends, and the length is between 1 and 15; unless
    the instruction is too long, the length is the sum of the prefixes, the
    opcode and the parts the flags announce, the ModR/M and SIB fields are
    those of the bytes at their offsets, and the SIB byte and the displacement
    are those of the 32-bit or, under an address-size prefix, 16-bit form. *)
Theorem hde32_disasm_decodes (code : list Z) :
  bytes_ok code → 32 ≤ zlen code →
  ∃ hs, hde32_disasm code = Ok hs ∧ 1 ≤ hs len ≤ 15 ∧
    (has (hs flags) F_ERROR_LENGTH = false → ∃ n,
       (∀ i, 0 ≤ i < n → is_prefix (zget code i) = true) ∧ is_prefix (zget code n) = false ∧
       hs opcode = zget code n ∧
       let o := n + (if zget code n =? 0x0f then 2 else 1) in
       hs len = o + flag_bytes (hs flags) ∧
       (has (hs flags) F_MODRM = true → split_byte hs modrm modrm_mod modrm_reg modrm_rm (zget code o)) ∧
       (has (hs flags) F_SIB = true → split_byte hs sib sib_scale sib_index sib_base (zget code (o + 1))) ∧
       addressed32 code hs n o).
Proof.
  intros Hb Hl. destruct (decode32_spec code Hb Hl) as (hs & p & n & E & Hn & Hp & Hall & Hlast & Hop & Hlen & Hm & Hs & Ha).
  exists (disasm_done hs p). split; [unfold hde32_disasm; by rewrite E|].
  destruct (disasm_done_spec hs p) as [H1 H2]; [lia|]. destruct (Z.le_gt_cases p 15).
  - rewrite H1 by done. rewrite set_eq. split; [lia|]. intros _. exists n. cbv zeta in *.
    rewrite !(set_ne hs len opcode), !(set_ne hs len flags) by done.
    split_conj; [done|apply Hlast; lia|done|done|exact Hm|exact Hs|].
    unfold addressed32 in *. rewrite !(set_ne hs len flags) by done. apply Ha. lia.
  - destruct (H2 ltac:(lia)) as [H3 H4]. rewrite H4. split; [lia|]. unfold has. congruence.
Qed.

Lemma hde32_disasm_decodes_witness :
  ∃ hs, hde32_disasm ([0x8b; 0x44; 0x24; 0x10] ++ replicate 28 0x90) = Ok hs ∧ 1 ≤ hs len ≤ 15.
Proof.
  destruct (hde32_disasm_decodes ([0x8b; 0x44; 0x24; 0x10] ++ replicate 28 0x90)) as (hs & E & H & _).
  - repeat constructor; lia.
  - done.
  - exists hs. done.
Defined.

End Hde32.
