(* ===== verification/UmmMalloc.v ===== *)
(** * Heap allocator ([Lilu.kext/umm_malloc/umm_malloc.c])

    The allocator on its byte heap: 8-byte blocks whose first four bytes link
    the blocks in address order and whose last four link the free blocks.
    Built with [UMM_BEST_FIT] and a heap of [0x10000] bytes, as the project
    file configures it. *)

From Stdlib Require Import ZArith Lia.
From stdpp Require Import sets.
From S2P Require Import Prelude.

Module Umm.

Open Scope c_scope.

(** ** Model *)

Definition UMM_MALLOC_CFG_HEAP_SIZE := 0x10000.
Definition UMM_FREELIST_MASK := 0x8000.
Definition UMM_BLOCKNO_MASK := 0x7fff.
(** [sizeof(umm_block)], [sizeof(body)] and [sizeof(header)]. *)
Definition BLOCK_SIZE := 8.
Definition BODY_SIZE := 4.
Definition HEADER_SIZE := 4.

(** [default_umm_heap], whether [umm_heap] points to it, [umm_numblocks]. *)
Record umm := mkUmm { mem : list Z; umm_heap : bool; umm_numblocks : Z }.

(** The fields of block [b]. *)
Definition UMM_NBLOCK (h : list Z) (b : Z) : outcome Z := loadLE 2 h (BLOCK_SIZE * b + 0).
Definition UMM_PBLOCK (h : list Z) (b : Z) : outcome Z := loadLE 2 h (BLOCK_SIZE * b + 2).
Definition UMM_NFREE (h : list Z) (b : Z) : outcome Z := loadLE 2 h (BLOCK_SIZE * b + 4).
Definition UMM_PFREE (h : list Z) (b : Z) : outcome Z := loadLE 2 h (BLOCK_SIZE * b + 6).
Definition set_NBLOCK (h : list Z) (b v : Z) : outcome (list Z) := storeLE 2 h (BLOCK_SIZE * b + 0) v.
Definition set_PBLOCK (h : list Z) (b v : Z) : outcome (list Z) := storeLE 2 h (BLOCK_SIZE * b + 2) v.
Definition set_NFREE (h : list Z) (b v : Z) : outcome (list Z) := storeLE 2 h (BLOCK_SIZE * b + 4) v.
Definition set_PFREE (h : list Z) (b v : Z) : outcome (list Z) := storeLE 2 h (BLOCK_SIZE * b + 6) v.
(** [&UMM_DATA(b)] as an offset into the heap. *)
Definition UMM_DATA (b : Z) : Z := BLOCK_SIZE * b + 4.

Definition umm_blocks (size : Z) : Z :=
  if size <=? BODY_SIZE then 1
  else u16 (2 + u64 (size - (1 + BODY_SIZE)) / BLOCK_SIZE).

Definition umm_split_block (h : list Z) (c blocks new_freemask : Z) : outcome (list Z) :=
  n ← UMM_NBLOCK h c;
  h ← set_NBLOCK h (c + blocks) ((n & UMM_BLOCKNO_MASK) .| new_freemask);
  h ← set_PBLOCK h (c + blocks) c;
  n ← UMM_NBLOCK h c;
  h ← set_PBLOCK h (n & UMM_BLOCKNO_MASK) (c + blocks);
  set_NBLOCK h c (c + blocks).

Definition umm_disconnect_from_free_list (h : list Z) (c : Z) : outcome (list Z) :=
  p ← UMM_PFREE h c; n ← UMM_NFREE h c;
  h ← set_NFREE h p n;
  n ← UMM_NFREE h c; p ← UMM_PFREE h c;
  h ← set_PFREE h n p;
  n ← UMM_NBLOCK h c;
  set_NBLOCK h c (n & (Z.lnot UMM_FREELIST_MASK)).

Definition umm_assimilate_up (h : list Z) (c : Z) : outcome (list Z) :=
  n ← UMM_NBLOCK h c;
  nn ← UMM_NBLOCK h n;
  if ctrue (nn & UMM_FREELIST_MASK) then
    h ← umm_disconnect_from_free_list h n;
    n ← UMM_NBLOCK h c;
    nn ← UMM_NBLOCK h n;
    h ← set_PBLOCK h (nn & UMM_BLOCKNO_MASK) c;
    n ← UMM_NBLOCK h c;
    nn ← UMM_NBLOCK h n;
    set_NBLOCK h c (nn & UMM_BLOCKNO_MASK)
  else Ok h.

Definition umm_assimilate_down (h : list Z) (c freemask : Z) : outcome (list Z * Z) :=
  p ← UMM_PBLOCK h c; n ← UMM_NBLOCK h c;
  h ← set_NBLOCK h p (n .| freemask);
  n ← UMM_NBLOCK h c; p ← UMM_PBLOCK h c;
  h ← set_PBLOCK h n p;
  p ← UMM_PBLOCK h c;
  Ok (h, p).

Definition umm_init (u : umm) : outcome umm :=
  let numblocks := u16 (UMM_MALLOC_CFG_HEAP_SIZE / BLOCK_SIZE) in
  let h := replicate (Z.to_nat UMM_MALLOC_CFG_HEAP_SIZE) 0 in
  let block_last := u16 (numblocks - 1) in
  h ← set_NBLOCK h 0 1;
  h ← set_NFREE h 0 1;
  h ← set_PFREE h 0 1;
  h ← set_NBLOCK h 1 (block_last .| UMM_FREELIST_MASK);
  h ← set_NFREE h 1 0;
  h ← set_PBLOCK h 1 0;
  h ← set_PFREE h 1 0;
  h ← set_NBLOCK h block_last 0;
  h ← set_PBLOCK h block_last 1;
  Ok (mkUmm h true numblocks).

(** [umm_free] with the heap already set up; [ptr] is an offset into it. *)
Definition free_block (h : list Z) (c : Z) : outcome (list Z) :=
  h ← umm_assimilate_up h c;
  p ← UMM_PBLOCK h c;
  pn ← UMM_NBLOCK h p;
  if ctrue (pn & UMM_FREELIST_MASK) then
    r ← umm_assimilate_down h c UMM_FREELIST_MASK; Ok r.1
  else
    f ← UMM_NFREE h 0;
    h ← set_PFREE h f c;
    f ← UMM_NFREE h 0;
    h ← set_NFREE h c f;
    h ← set_PFREE h c 0;
    h ← set_NFREE h 0 c;
    n ← UMM_NBLOCK h c;
    set_NBLOCK h c (n .| UMM_FREELIST_MASK).

(** The block of a pointer into the heap. *)
Definition block_of (ptr : Z) : Z := u16 (u64 ptr / BLOCK_SIZE).

Definition umm_free (u : umm) (ptr : option Z) : outcome umm :=
  match ptr with
  | None => Ok u
  | Some ptr =>
      if umm_heap u then
        h ← free_block (mem u) (block_of ptr); Ok (mkUmm h (umm_heap u) (umm_numblocks u))
      else Ub
  end.

(** The best-fit scan; returns [blockSize], [bestSize] and [bestBlock].  The
    free list holds each block at most once. *)
Fixpoint best_fit (fuel : nat) (h : list Z) (blocks cf blockSize bestSize bestBlock : Z)
  : outcome (Z * Z * Z) :=
  match fuel with
  | O => NoFuel
  | S fuel =>
      if cf =? 0 then Ok (blockSize, bestSize, bestBlock)
      else
        n ← UMM_NBLOCK h cf;
        let blockSize := u16 ((n & UMM_BLOCKNO_MASK) - cf) in
        let better := (blocks <=? blockSize) && (blockSize <? bestSize) in
        let bestBlock := if better then cf else bestBlock in
        let bestSize := if better then blockSize else bestSize in
        next ← UMM_NFREE h cf;
        best_fit fuel h blocks next blockSize bestSize bestBlock
  end.

(** [umm_malloc] after the size is known to be positive. *)
Definition malloc_blocks (h : list Z) (numblocks blocks : Z) : outcome (list Z * option Z) :=
  cf ← UMM_NFREE h 0;
  r ← best_fit (S (Z.to_nat numblocks)) h blocks cf 0 0x7fff cf;
  let '(blockSize, bestSize, bestBlock) := r in
  let cf := if negb (bestSize =? 0x7fff) then bestBlock else 0 in
  let blockSize := if negb (bestSize =? 0x7fff) then bestSize else blockSize in
  n ← UMM_NBLOCK h cf;
  if ctrue (n & UMM_BLOCKNO_MASK) && (blocks <=? blockSize) then
    h ← (if blockSize =? blocks then umm_disconnect_from_free_list h cf
         else
           h ← umm_split_block h cf blocks UMM_FREELIST_MASK;
           p ← UMM_PFREE h cf;
           h ← set_NFREE h p (cf + blocks);
           p ← UMM_PFREE h cf;
           h ← set_PFREE h (cf + blocks) p;
           f ← UMM_NFREE h cf;
           h ← set_PFREE h f (cf + blocks);
           f ← UMM_NFREE h cf;
           set_NFREE h (cf + blocks) f);
    Ok (h, Some (UMM_DATA cf))
  else Ok (h, None).

(** [if (umm_heap == NULL) umm_init();] *)
Definition ensure_init (u : umm) : outcome umm := if umm_heap u then Ok u else umm_init u.

Definition umm_malloc (u : umm) (size : Z) : outcome (umm * option Z) :=
  u ← ensure_init u;
  if size =? 0 then Ok (u, None)
  else
    r ← malloc_blocks (mem u) (umm_numblocks u) (umm_blocks size);
    Ok (mkUmm r.1 (umm_heap u) (umm_numblocks u), r.2).

(** [memmove] and [memcpy] inside the heap: the source bytes are read first. *)
Definition memmove (h : list Z) (d s n : Z) : outcome (list Z) :=
  v ← cfor (Z.to_nat n) 0 (fun i acc => b ← aget h (s + i); Ok (acc ++ [b])) [];
  cfor (Z.to_nat n) 0 (fun i h => b ← aget v i; aset h (d + i) b) h.

Definition memset0 (h : list Z) (d n : Z) : outcome (list Z) :=
  cfor (Z.to_nat n) 0 (fun i h => aset h (d + i) 0) h.

(** The choice of [umm_realloc] among the current, next and previous
    blocks; returns the heap, the result pointer, the block and its size. *)
Definition realloc_place (u : umm) (ptr size blocks c blockSize curSize nextBlockSize prevBlockSize : Z)
  : outcome (list Z * option Z * Z * Z) :=
  let h := mem u in
  if blocks <=? blockSize then Ok (h, Some ptr, c, blockSize)
  else if blocks <=? blockSize + nextBlockSize then
    h ← umm_assimilate_up h c; Ok (h, Some ptr, c, u16 (blockSize + nextBlockSize))
  else if blocks <=? prevBlockSize + blockSize then
    p ← UMM_PBLOCK h c;
    h ← umm_disconnect_from_free_list h p;
    r ← umm_assimilate_down h c 0;
    h ← memmove r.1 (UMM_DATA r.2) ptr curSize;
    Ok (h, Some (UMM_DATA r.2), r.2, u16 (blockSize + prevBlockSize))
  else if blocks <=? prevBlockSize + blockSize + nextBlockSize then
    h ← umm_assimilate_up h c;
    p ← UMM_PBLOCK h c;
    h ← umm_disconnect_from_free_list h p;
    r ← umm_assimilate_down h c 0;
    h ← memmove r.1 (UMM_DATA r.2) ptr curSize;
    Ok (h, Some (UMM_DATA r.2), r.2, u16 (blockSize + (prevBlockSize + nextBlockSize)))
  else
    r ← umm_malloc u size;
    match r.2 with
    | Some q =>
        h ← memmove (mem r.1) q ptr curSize;
        u' ← umm_free (mkUmm h (umm_heap r.1) (umm_numblocks r.1)) (Some ptr);
        Ok (mem u', Some q, c, blocks)
    | None => Ok (mem r.1, None, c, blocks)
    end.

Definition umm_realloc (u : umm) (ptr : option Z) (size : Z) : outcome (umm * option Z) :=
  u ← ensure_init u;
  match ptr with
  | None => umm_malloc u size
  | Some ptr =>
      if size =? 0 then u ← umm_free u (Some ptr); Ok (u, None)
      else
        let h := mem u in
        let blocks := umm_blocks size in
        let c := block_of ptr in
        n ← UMM_NBLOCK h c;
        let blockSize := u16 (n - c) in
        let curSize := u64 (blockSize * BLOCK_SIZE - HEADER_SIZE) in
        nn ← UMM_NBLOCK h n;
        let nextBlockSize := if ctrue (nn & UMM_FREELIST_MASK) then u16 ((nn & UMM_BLOCKNO_MASK) - n) else 0 in
        p ← UMM_PBLOCK h c;
        pn ← UMM_NBLOCK h p;
        let prevBlockSize := if ctrue (pn & UMM_FREELIST_MASK) then u16 (c - p) else 0 in
        r ← realloc_place u ptr size blocks c blockSize curSize nextBlockSize prevBlockSize;
        let '(h, res, c, blockSize) := r in
        if blocks <? blockSize then
          h ← umm_split_block h c blocks 0;
          h ← free_block h (block_of (UMM_DATA (c + blocks)));
          Ok (mkUmm h (umm_heap u) (umm_numblocks u), res)
        else Ok (mkUmm h (umm_heap u) (umm_numblocks u), res)
  end.

Definition umm_calloc (u : umm) (num item_size : Z) : outcome (umm * option Z) :=
  r ← umm_malloc u (u64 (item_size * num));
  match r.2 with
  | Some p =>
      h ← memset0 (mem r.1) p (u64 (item_size * num));
      Ok (mkUmm h (umm_heap r.1) (umm_numblocks r.1), Some p)
  | None => Ok r
  end.

(** The allocator before its first call. *)
Definition umm_start : umm := mkUmm (replicate (Z.to_nat UMM_MALLOC_CFG_HEAP_SIZE) 0) false 0.

(** ** Fields

    The heap seen as 16-bit fields: [fld h b k] is field [k] of block [b]
    (0 and 1 link the blocks, 2 and 3 the free list), [upd] its update. *)

Definition NUMBLOCKS := 0x2000.

Definition fld (h : list Z) (b k : Z) : Z := zget h (8 * b + 2 * k) + 256 * zget h (8 * b + 2 * k + 1).
Definition upd (h : list Z) (b k v : Z) : list Z :=
  <[Z.to_nat (8 * b + 2 * k + 1) := u8 (v / 256)]> (<[Z.to_nat (8 * b + 2 * k) := u8 v]> h).

Abbreviation NB h b := (fld h b 0).
Abbreviation PB h b := (fld h b 1).
Abbreviation NF h b := (fld h b 2).
Abbreviation PF h b := (fld h b 3).

Record heap_ok (h : list Z) : Prop := {
  heap_len : zlen h = UMM_MALLOC_CFG_HEAP_SIZE;
  heap_bytes : bytes_ok h
}.

Definition is_block (b : Z) : Prop := 0 ≤ b < NUMBLOCKS.
Definition is_field (k : Z) : Prop := 0 ≤ k < 4.

Lemma fld_range h b k : bytes_ok h → 0 ≤ fld h b k < 65536.
Proof.
  intros H. unfold fld. pose proof (bytes_ok_zget h (8 * b + 2 * k) H).
  pose proof (bytes_ok_zget h (8 * b + 2 * k + 1) H). unfold in_u in *. lia.
Qed.

Lemma upd_ok h b k v : heap_ok h → heap_ok (upd h b k v).
Proof.
  intros [Hl Hb]. split.
  - unfold upd. by rewrite !zlen_insert.
  - unfold upd. apply bytes_ok_insert; [|auto with cint]. apply bytes_ok_insert; [done|auto with cint].
Qed.

Lemma load_fld h b k : heap_ok h → is_block b → is_field k → loadLE 2 h (BLOCK_SIZE * b + 2 * k) = Ok (fld h b k).
Proof.
  unfold is_block, is_field, NUMBLOCKS, BLOCK_SIZE. intros [Hl _] Hb Hk. unfold UMM_MALLOC_CFG_HEAP_SIZE in Hl. cbn [loadLE].
  rewrite (aget_zget h (8 * b + 2 * k)), (aget_zget h (8 * b + 2 * k + 1)) by lia. cbn. unfold fld. f_equal. lia.
Qed.

Lemma store_fld h b k v : heap_ok h → is_block b → is_field k → storeLE 2 h (BLOCK_SIZE * b + 2 * k) v = Ok (upd h b k v).
Proof.
  unfold is_block, is_field, NUMBLOCKS, BLOCK_SIZE. intros [Hl _] Hb Hk. unfold UMM_MALLOC_CFG_HEAP_SIZE in Hl. cbn [storeLE].
  rewrite aset_Ok by lia. cbn. rewrite aset_Ok by (rewrite zlen_insert; lia). done.
Qed.

Lemma fld_upd h b k v b' k' :
  heap_ok h → is_block b → is_field k → is_block b' → is_field k' → in_u 16 v →
  fld (upd h b k v) b' k' = if (b =? b') && (k =? k') then v else fld h b' k'.
Proof.
  unfold is_block, is_field, NUMBLOCKS. intros [Hl _] Hb Hk Hb' Hk' Hv. unfold UMM_MALLOC_CFG_HEAP_SIZE in Hl.
  unfold fld, upd. rewrite !zget_insert by (rewrite ?zlen_insert; lia).
  destruct (Z.eqb_spec b b') as [->|]; cbn [andb]; [destruct (Z.eqb_spec k k') as [->|]|].
  - rewrite (proj2 (Z.eqb_neq _ _)), !(proj2 (Z.eqb_eq _ _)) by lia.
    unfold wrap, in_u in *. change (2 ^ 8) with 256. change (2 ^ 16) with 65536 in Hv. zdiv.
  - by rewrite !(proj2 (Z.eqb_neq _ _)) by lia.
  - by rewrite !(proj2 (Z.eqb_neq _ _)) by lia.
Qed.

(** Bytes outside the field are kept. *)
Lemma upd_frame h b k v i :
  heap_ok h → is_block b → is_field k → 0 ≤ i → i ≠ 8 * b + 2 * k → i ≠ 8 * b + 2 * k + 1 →
  zget (upd h b k v) i = zget h i.
Proof.
  unfold is_block, is_field, NUMBLOCKS. intros [Hl _] Hb Hk Hi H1 H2. unfold UMM_MALLOC_CFG_HEAP_SIZE in Hl.
  unfold upd. rewrite !zget_insert by (rewrite ?zlen_insert; lia). by rewrite !(proj2 (Z.eqb_neq _ _)) by lia.
Qed.

(** ** Write lists

    Each helper of the source performs a fixed list of field writes; [upds]
    applies a list to a heap and [ap] to its view as a function of fields. *)

Definition view := Z → Z → Z.
Definition write := (Z * Z * Z)%type.

Definition vupd (V : view) (w : write) : view :=
  fun b k => if (w.1.1 =? b) && (w.1.2 =? k) then w.2 else V b k.
Definition ap (V : view) (W : list write) : view := foldl vupd V W.
Definition upds (h : list Z) (W : list write) : list Z := foldl (fun h w => upd h w.1.1 w.1.2 w.2) h W.

Definition write_ok (w : write) : Prop := is_block w.1.1 ∧ is_field w.1.2 ∧ in_u 16 w.2.

Lemma upds_ok h W : heap_ok h → heap_ok (upds h W).
Proof. revert h. induction W as [|w W IH]; intros h Hh; [done|]. apply IH. by apply upd_ok. Qed.

Lemma upds_app h W1 W2 : upds h (W1 ++ W2) = upds (upds h W1) W2.
Proof. revert h. induction W1; intros; cbn; auto. Qed.

Lemma ap_app V W1 W2 : ap V (W1 ++ W2) = ap (ap V W1) W2.
Proof. revert V. induction W1; intros; cbn; auto. Qed.

(** [h] has the view [V]. *)
Definition has_view (h : list Z) (V : view) : Prop :=
  heap_ok h ∧ ∀ b k, is_block b → is_field k → fld h b k = V b k.

Lemma has_view_upds h V W : has_view h V → Forall write_ok W → has_view (upds h W) (ap V W).
Proof.
  revert h V. induction W as [|[[b k] v] W IH]; intros h V [Hh HV] HW; [done|].
  apply Forall_cons in HW as [(Hb & Hk & Hv) HW]. cbn in Hb, Hk, Hv. apply IH; [|done]. split; [by apply upd_ok|].
  intros b' k' Hb' Hk'. cbn. rewrite fld_upd by done. unfold vupd. cbn. rewrite HV by done. done.
Qed.

(** Bytes that no write of [W] covers. *)
Definition untouched (W : list write) (i : Z) : Prop :=
  Forall (fun w => i < 8 * w.1.1 + 2 * w.1.2 ∨ 8 * w.1.1 + 2 * w.1.2 + 1 < i) W.

Lemma upds_frame h W i : heap_ok h → Forall write_ok W → 0 ≤ i → untouched W i → zget (upds h W) i = zget h i.
Proof.
  revert h. induction W as [|[[b k] v] W IH]; intros h Hh HW Hi HU; [done|].
  apply Forall_cons in HW as [(Hb & Hk & Hv) HW]. apply Forall_cons in HU as [Hu HU]. cbn in Hb, Hk, Hu.
  cbn [upds foldl]. fold (upds (upd h b k v) W). rewrite IH by (done || by apply upd_ok). cbn.
  apply upd_frame; (done || lia).
Qed.

(** Reads and writes of the source in terms of views. *)
Section exec.
  Context (h : list Z) (V : view) (Hv : has_view h V).

Lemma ex_NBLOCK b : is_block b → UMM_NBLOCK h b = Ok (V b 0).
Proof. intros. destruct Hv as [? E]. rewrite <- E by done. by apply (load_fld h b 0). Qed.
Lemma ex_PBLOCK b : is_block b → UMM_PBLOCK h b = Ok (V b 1).
Proof. intros. destruct Hv as [? E]. rewrite <- E by done. by apply (load_fld h b 1). Qed.
Lemma ex_NFREE b : is_block b → UMM_NFREE h b = Ok (V b 2).
Proof. intros. destruct Hv as [? E]. rewrite <- E by done. by apply (load_fld h b 2). Qed.
Lemma ex_PFREE b : is_block b → UMM_PFREE h b = Ok (V b 3).
Proof. intros. destruct Hv as [? E]. rewrite <- E by done. by apply (load_fld h b 3). Qed.
Lemma ex_set_NBLOCK b v : is_block b → set_NBLOCK h b v = Ok (upd h b 0 v).
Proof. intros. destruct Hv. by apply (store_fld h b 0). Qed.
Lemma ex_set_PBLOCK b v : is_block b → set_PBLOCK h b v = Ok (upd h b 1 v).
Proof. intros. destruct Hv. by apply (store_fld h b 1). Qed.
Lemma ex_set_NFREE b v : is_block b → set_NFREE h b v = Ok (upd h b 2 v).
Proof. intros. destruct Hv. by apply (store_fld h b 2). Qed.
Lemma ex_set_PFREE b v : is_block b → set_PFREE h b v = Ok (upd h b 3 v).
Proof. intros. destruct Hv. by apply (store_fld h b 3). Qed.
End exec.

Lemma has_view_upd h V b k v : has_view h V → write_ok (b, k, v) → has_view (upd h b k v) (vupd V (b, k, v)).
Proof. intros Hv Hw. apply (has_view_upds h V [(b, k, v)]); [done|]. by constructor. Qed.

(** ** The mask bit *)

Definition flag (f : bool) : Z := if f then 0x8000 else 0.

Section masks.
  Context (x : Z) (f : bool) (Hx : 0 ≤ x < 0x8000).

Lemma lor_mask : (x .| 0x8000) = x + 0x8000.
Proof. rewrite Z.lor_comm. change 0x8000 with (1 * 2 ^ 15). rewrite lor_shift_add; [lia|lia|]. unfold in_u. lia. Qed.

Lemma mask_blockno : (x + flag f) & UMM_BLOCKNO_MASK = x.
Proof.
  unfold UMM_BLOCKNO_MASK. change 0x7fff with (Z.ones 15). rewrite land_ones_wrap by lia. unfold wrap, flag.
  change (2 ^ 15) with 0x8000. destruct f; zdiv.
Qed.

Lemma mask_free : ctrue ((x + flag f) & UMM_FREELIST_MASK) = f.
Proof.
  assert (∀ y, 0 ≤ y < 0x8000 → y & 0x8000 = 0) as H0.
  { intros y Hy. apply Z.bits_inj'; intros i Hi. rewrite Z.land_spec, Z.bits_0.
    change 0x8000 with (2 ^ 15). rewrite Z.pow2_bits_eqb by lia. destruct (Z.eqb_spec 15 i) as [<-|]; [|by rewrite andb_false_r].
    rewrite (testbit_in_u 15); [done|lia| |lia]. unfold in_u. lia. }
  unfold UMM_FREELIST_MASK, flag. destruct f.
  - rewrite <- lor_mask, Z.land_lor_distr_l, H0 by done. done.
  - rewrite Z.add_0_r, H0 by done. done.
Qed.

Lemma mask_clear : (x + flag f) & Z.lnot UMM_FREELIST_MASK = x.
Proof.
  assert (∀ y, 0 ≤ y < 0x8000 → y & Z.lnot 0x8000 = y) as H0.
  { intros y Hy. apply Z.bits_inj'; intros i Hi. rewrite Z.land_spec, Z.lnot_spec by lia.
    change 0x8000 with (2 ^ 15). rewrite Z.pow2_bits_eqb by lia. destruct (Z.eqb_spec 15 i) as [<-|]; [|by rewrite andb_true_r].
    rewrite (testbit_in_u 15 y); [done|lia| |lia]. unfold in_u. lia. }
  unfold UMM_FREELIST_MASK, flag. destruct f.
  - rewrite <- lor_mask, Z.land_lor_distr_l, H0 by done. change (0x8000 & Z.lnot 0x8000) with 0. apply Z.lor_0_r.
  - by rewrite Z.add_0_r, H0.
Qed.
End masks.

(** ** The helpers as write lists *)

Lemma vupd_eq V b k v : vupd V (b, k, v) b k = v.
Proof. unfold vupd. cbn. by rewrite !Z.eqb_refl. Qed.

Lemma vupd_ne V b k v b' k' : b ≠ b' ∨ k ≠ k' → vupd V (b, k, v) b' k' = V b' k'.
Proof. intros H. unfold vupd. cbn. destruct (Z.eqb_spec b b'), (Z.eqb_spec k k'); naive_solver. Qed.

Lemma view_range h V b k : has_view h V → is_block b → is_field k → in_u 16 (V b k).
Proof. intros [[_ Hb] E] ? ?. rewrite <- E by done. by apply fld_range. Qed.

(** Simplify reads after writes; block disequalities from the context. *)
Ltac vred :=
  repeat first [ rewrite vupd_eq | rewrite vupd_ne by (first [by left; (done || lia)|right; lia]) ].

Ltac isb := first [done | unfold is_block, NUMBLOCKS in *; lia].
Ltac wok := split; [cbn; isb|split; [done|cbn; first [done|unfold is_block, NUMBLOCKS, in_u in *; lia]]].

(** Execute the next field read or write of the goal. *)
Ltac rd := match goal with
  | Hv : has_view ?h ?V |- context [UMM_NBLOCK ?h ?b] => rewrite (ex_NBLOCK h V Hv b) by isb
  | Hv : has_view ?h ?V |- context [UMM_PBLOCK ?h ?b] => rewrite (ex_PBLOCK h V Hv b) by isb
  | Hv : has_view ?h ?V |- context [UMM_NFREE ?h ?b] => rewrite (ex_NFREE h V Hv b) by isb
  | Hv : has_view ?h ?V |- context [UMM_PFREE ?h ?b] => rewrite (ex_PFREE h V Hv b) by isb
  end; cbn [mbind outcome_bind]; vred.
Ltac wr_with Hv h V b k v tac :=
  let H := fresh "Hv" in
  tac; cbn [mbind outcome_bind];
  assert (has_view (upd h b k v) (vupd V (b, k, v))) as H by (apply (has_view_upd h V b k v Hv); wok);
  clear Hv; rename H into Hv.
Ltac wr := match goal with
  | Hv : has_view ?h ?V |- context [set_NBLOCK ?h ?b ?v] => wr_with Hv h V b 0 v ltac:(rewrite (ex_set_NBLOCK h V Hv b v) by isb)
  | Hv : has_view ?h ?V |- context [set_PBLOCK ?h ?b ?v] => wr_with Hv h V b 1 v ltac:(rewrite (ex_set_PBLOCK h V Hv b v) by isb)
  | Hv : has_view ?h ?V |- context [set_NFREE ?h ?b ?v] => wr_with Hv h V b 2 v ltac:(rewrite (ex_set_NFREE h V Hv b v) by isb)
  | Hv : has_view ?h ?V |- context [set_PFREE ?h ?b ?v] => wr_with Hv h V b 3 v ltac:(rewrite (ex_set_PFREE h V Hv b v) by isb)
  end.

Definition W_disconnect (c p n x : Z) : list write := [(p, 2, n); (n, 3, p); (c, 0, x)].

Lemma exec_disconnect h V c p n x f :
  has_view h V → is_block c → is_block p → is_block n → V c 3 = p → V c 2 = n → p ≠ c →
  0 ≤ x < 0x8000 → V c 0 = x + flag f →
  umm_disconnect_from_free_list h c = Ok (upds h (W_disconnect c p n x)).
Proof.
  intros Hv Hc Hp Hn Ep En Hpc Hx Ex. unfold umm_disconnect_from_free_list.
  rd. rd. rewrite Ep, En. wr. rd. rd. rewrite Ep, En. wr. rd. rewrite Ex, mask_clear by done. wr. done.
Qed.

Definition W_split (c k y m : Z) : list write := [(c + k, 0, y + m); (c + k, 1, c); (y, 1, c + k); (c, 0, c + k)].

Lemma exec_split h V c k y f g :
  has_view h V → is_block c → is_block (c + k) → is_block y → 0 < k → V c 0 = y + flag f →
  umm_split_block h c k (flag g) = Ok (upds h (W_split c k y (flag g))).
Proof.
  intros Hv Hc Hck Hy Hk Ey. unfold umm_split_block.
  assert (0 ≤ y < 0x8000) as Hy' by (unfold is_block, NUMBLOCKS in Hy; lia).
  rd. rewrite Ey, mask_blockno by done.
  assert ((y .| flag g) = y + flag g) as -> by (destruct g; cbn [flag]; [by apply lor_mask|by rewrite Z.lor_0_r, Z.add_0_r]).
  assert (in_u 16 (y + flag g)) by (unfold in_u; destruct g; cbn [flag]; lia).
  wr. wr. rd. rewrite Ey, mask_blockno by done. wr. wr. done.
Qed.

Definition W_up (c x y p n : Z) : list write := W_disconnect x p n y ++ [(y, 1, c); (c, 0, y)].

(** [x] is the block after [c], [y] the one after [x]. *)
Lemma exec_up_free h V c x y p n :
  has_view h V → is_block c → is_block x → is_block y → is_block p → is_block n →
  V c 0 = x → V x 0 = y + flag true → V x 3 = p → V x 2 = n → p ≠ x → c ≠ x →
  umm_assimilate_up h c = Ok (upds h (W_up c x y p n)).
Proof.
  intros Hv Hc Hx Hy Hp Hn Ex Ey Ep En Hpx Hcx. unfold umm_assimilate_up.
  assert (0 ≤ y < 0x8000) as Hy' by (unfold is_block, NUMBLOCKS in Hy; lia).
  rd. rewrite Ex. rd. rewrite Ey, mask_free by done.
  rewrite (exec_disconnect h V x p n y true) by done. cbn [mbind outcome_bind].
  assert (has_view (upds h (W_disconnect x p n y)) (ap V (W_disconnect x p n y))) as Hv1.
  { apply has_view_upds; [done|]. repeat constructor; cbn; try isb; unfold is_block, NUMBLOCKS, in_u in *; lia. }
  unfold W_up. rewrite upds_app. clear Hv. set (h1 := upds h _) in *. clearbody h1.
  unfold ap, W_disconnect in Hv1. cbn [foldl] in Hv1.
  assert (y & UMM_BLOCKNO_MASK = y) as Em by (by rewrite <- (Z.add_0_r y) at 1; apply (mask_blockno y false)).
  rd. rewrite Ex. rd. rewrite Em. wr. rd. rewrite Ex. rd. rewrite Em. wr. done.
Qed.

Lemma exec_up_used h V c x y :
  has_view h V → is_block c → is_block x → is_block y → V c 0 = x → V x 0 = y + flag false →
  umm_assimilate_up h c = Ok h.
Proof.
  intros Hv Hc Hx Hy Ex Ey. unfold umm_assimilate_up.
  assert (0 ≤ y < 0x8000) as Hy' by (unfold is_block, NUMBLOCKS in Hy; lia).
  rd. rewrite Ex. rd. by rewrite Ey, mask_free by done.
Qed.

Definition W_down (p y m : Z) : list write := [(p, 0, y + m); (y, 1, p)].

(** [p] is the block before [c], [y] the one after. *)
Lemma exec_down h V c p y f :
  has_view h V → is_block c → is_block p → is_block y → V c 1 = p → V c 0 = y → p ≠ c → y ≠ c →
  umm_assimilate_down h c (flag f) = Ok (upds h (W_down p y (flag f)), p).
Proof.
  intros Hv Hc Hp Hy Ep Ey Hpc Hyc. unfold umm_assimilate_down.
  assert (0 ≤ y < 0x8000) as Hy' by (unfold is_block, NUMBLOCKS in Hy; lia).
  rd. rd. rewrite Ep, Ey.
  assert ((y .| flag f) = y + flag f) as -> by (destruct f; cbn [flag]; [by apply lor_mask|by rewrite Z.lor_0_r, Z.add_0_r]).
  assert (in_u 16 (y + flag f)) by (unfold in_u; destruct f; cbn [flag]; lia).
  wr. rd. rd. rewrite Ep, Ey. wr. rd. by rewrite Ep.
Qed.

Definition W_push (c f y : Z) : list write :=
  [(f, 3, c); (c, 2, f); (c, 3, 0); (0, 2, c); (c, 0, y + flag true)].

(** ** The block list *)

(** A block: its start, its number of 8-byte units, whether it is free. *)
Record blk := B { st : Z; sz : Z; fr : bool }.

(** The blocks [s] lie one after the other from [a] (preceded by [p]) up to
    [a'] (preceded by [p']). *)
Fixpoint seg (V : view) (p a : Z) (s : list blk) (p' a' : Z) : Prop :=
  match s with
  | [] => p' = p ∧ a' = a
  | b :: s => st b = a ∧ 1 ≤ sz b ∧ V a 0 = a + sz b + flag (fr b) ∧ V a 1 = p ∧ seg V a (a + sz b) s p' a'
  end.

(** The same up to the last block [e], whose back link is included. *)
Fixpoint tiles (V : view) (p a : Z) (s : list blk) (e : Z) : Prop :=
  match s with
  | [] => a = e ∧ V e 1 = p
  | b :: s => st b = a ∧ 1 ≤ sz b ∧ V a 0 = a + sz b + flag (fr b) ∧ V a 1 = p ∧ tiles V a (a + sz b) s e
  end.

Lemma tiles_app V p a s1 s2 e :
  tiles V p a (s1 ++ s2) e ↔ ∃ q b, seg V p a s1 q b ∧ tiles V q b s2 e.
Proof.
  revert p a. induction s1 as [|x s1 IH]; intros p a; cbn.
  - split; [intros H; by exists p, a|]. by intros (q & b & [-> ->] & H).
  - rewrite IH. naive_solver.
Qed.

Lemma seg_bounds V p a s p' a' : seg V p a s p' a' → a ≤ a' ∧ (p < a → p' < a') ∧
  (∀ b, b ∈ s → a ≤ st b ∧ 1 ≤ sz b ∧ st b + sz b ≤ a').
Proof.
  revert p a. induction s as [|x s IH]; intros p a; cbn; [intros [-> ->]|intros (<- & Hn & _ & _ & H)].
  - split_conj; [lia|lia|]. intros b Hb. by apply not_elem_of_nil in Hb.
  - destruct (IH _ _ H) as (H1 & H2 & H3). split_conj; [lia|lia|].
    intros b [->|Hb]%elem_of_cons; [lia|]. specialize (H3 b Hb). lia.
Qed.

Lemma tiles_bounds V p a s e : tiles V p a s e → a ≤ e ∧ (∀ b, b ∈ s → a ≤ st b ∧ 1 ≤ sz b ∧ st b + sz b ≤ e) ∧ V a 1 = p.
Proof.
  revert p a. induction s as [|x s IH]; intros p a; cbn; [intros [-> ?]|intros (<- & Hn & _ & ? & H)].
  - split_conj; [lia| |done]. intros b Hb. by apply not_elem_of_nil in Hb.
  - destruct (IH _ _ H) as (H1 & H2 & _). split_conj; [lia| |done].
    intros b [->|Hb]%elem_of_cons; [lia|]. specialize (H2 b Hb). lia.
Qed.

Lemma seg_frame V V' p a s p' a' :
  seg V p a s p' a' → (∀ x, a ≤ x < a' → V' x 0 = V x 0 ∧ V' x 1 = V x 1) → seg V' p a s p' a'.
Proof.
  revert p a. induction s as [|x s IH]; intros p a; cbn; [done|].
  intros (<- & Hn & E0 & E1 & H) HV. destruct (seg_bounds _ _ _ _ _ _ H) as (Hle & _ & _).
  destruct (HV (st x)) as [-> ->]; [lia|]. split_conj; try done. apply IH; [done|]. intros y Hy. apply HV. lia.
Qed.

(** The first block of a tail may get another predecessor. *)
Lemma tiles_reprev V V' p q a s e :
  tiles V p a s e → (∀ x, a ≤ x < e → V' x 0 = V x 0) → (∀ x, a < x ≤ e → V' x 1 = V x 1) →
  V' a 1 = q → tiles V' q a s e.
Proof.
  revert p q a. induction s as [|x s IH]; intros p q a; cbn; [by intros [-> _] _ _ ?|].
  intros (<- & Hn & E0 & E1 & H) H0 H1 Hq. destruct (tiles_bounds _ _ _ _ _ H) as (Hle & _ & E).
  rewrite H0 by lia. split_conj; try done. eapply IH; [done|..].
  - intros y Hy. apply H0. lia.
  - intros y Hy. apply H1. lia.
  - rewrite H1 by lia. done.
Qed.

(** ** The free list *)

Fixpoint path (V : view) (l : list Z) : Prop :=
  match l with
  | x :: l =>
      match l with y :: _ => V x 2 = y ∧ V y 3 = x ∧ path V l | [] => True end
  | [] => True
  end.

Lemma path_cons2 V x y l : path V (x :: y :: l) ↔ V x 2 = y ∧ V y 3 = x ∧ path V (y :: l).
Proof. done. Qed.

Lemma path_app V l1 x l2 : path V (l1 ++ x :: l2) ↔ path V (l1 ++ [x]) ∧ path V (x :: l2).
Proof.
  induction l1 as [|y l1 IH]; [cbn; naive_solver|].
  destruct l1 as [|z l1]; [cbn [app]; rewrite !path_cons2; cbn [path]; naive_solver|].
  cbn [app] in *. rewrite !path_cons2, IH. naive_solver.
Qed.

(** A path is kept if the links out of its nodes but the last and the links
    into its nodes but the first are kept. *)
Lemma path_frame V V' l :
  path V l → (∀ l1 x l2, l = l1 ++ x :: l2 → l2 ≠ [] → V' x 2 = V x 2) →
  (∀ l1 x l2, l = l1 ++ x :: l2 → l1 ≠ [] → V' x 3 = V x 3) → path V' l.
Proof.
  induction l as [|x l IH]; [done|]. destruct l as [|y l]; [done|]. rewrite !path_cons2.
  intros (E2 & E3 & H) H2 H3. split_conj.
  - by rewrite (H2 [] x (y :: l)).
  - by rewrite (H3 [x] y l).
  - apply IH; [done|..].
    + intros l1 z l2 El Hn. apply (H2 (x :: l1) z l2); [by rewrite El|done].
    + intros l1 z l2 El Hn. apply (H3 (x :: l1) z l2); [by rewrite El|done].
Qed.

Lemma path_frame_nd V V' l :
  path V l → NoDup l → (∀ z, z ∈ l → last l ≠ Some z → V' z 2 = V z 2) →
  (∀ z, z ∈ l → head l ≠ Some z → V' z 3 = V z 3) → path V' l.
Proof.
  intros Hp Hnd H2 H3. apply (path_frame V); [done|..]; intros l1 x l2 -> Hn.
  - apply H2; [set_solver|]. apply exists_last in Hn as (l2' & y & ->).
    rewrite app_comm_cons, app_assoc, last_snoc. intros [= ->]. apply NoDup_app in Hnd as (_ & _ & Hnd).
    apply NoDup_cons in Hnd as [Hnd _]. set_solver.
  - apply H3; [set_solver|]. destruct l1 as [|y l1]; [done|]. cbn. intros [= ->].
    cbn in Hnd. apply NoDup_cons in Hnd as [Hnd _]. set_solver.
Qed.

Lemma path_kept V V' l : path V l → (∀ z, V' z 2 = V z 2) → (∀ z, V' z 3 = V z 3) → path V' l.
Proof. intros Hp H2 H3. apply (path_frame V); auto. Qed.

(** The neighbours of a node [c] of the free list. *)
Lemma path_around V l1 c l2 :
  path V (0 :: l1 ++ c :: l2 ++ [0]) →
  ∃ A p n D, 0 :: l1 = A ++ [p] ∧ l2 ++ [0] = n :: D ∧ path V (0 :: l1) ∧ path V (l2 ++ [0]) ∧
    V p 2 = c ∧ V c 3 = p ∧ V c 2 = n ∧ V n 3 = c.
Proof.
  intros H. destruct (exists_last (l := 0 :: l1)) as (A & p & EA); [done|].
  assert (∃ n D, l2 ++ [0] = n :: D) as (n & D & ED) by (destruct l2; cbn; eauto).
  exists A, p, n, D. rewrite app_comm_cons in H. rewrite EA, ED in *. rewrite <- app_assoc in H. cbn [app] in H.
  apply path_app in H as [Ha H]. rewrite !path_cons2 in H. naive_solver.
Qed.

Lemma path_concat V A p n D :
  path V (A ++ [p]) → V p 2 = n → V n 3 = p → path V (n :: D) → path V (A ++ p :: n :: D).
Proof. intros. apply path_app. split; [done|]. by rewrite path_cons2. Qed.

Section free_list.
  Context (V V' : view) (l1 l2 : list Z) (c p n : Z).
  Context (Hpath : path V (0 :: l1 ++ c :: l2 ++ [0])) (Hnd : NoDup (0 :: l1 ++ c :: l2)).
  Context (Ep : V c 3 = p) (En : V c 2 = n).

Lemma neighbours : p ∈ 0 :: l1 ∧ n ∈ 0 :: l2 ∧ p ≠ c ∧ n ≠ c.
Proof.
  destruct (path_around V l1 c l2 Hpath) as (A & p' & n' & D & EA & ED & _ & _ & _ & E3 & E2 & _).
  assert (p' = p) as -> by congruence. assert (n' = n) as -> by congruence.
  assert (p ∈ 0 :: l1) as H1 by (rewrite EA; set_solver).
  assert (n ∈ l2 ++ [0]) as H2 by (rewrite ED; set_solver).
  assert (c ≠ 0) by (intros ->; apply NoDup_cons in Hnd as [Hnd _]; set_solver).
  rewrite app_comm_cons in Hnd. apply NoDup_app in Hnd as (_ & Hd & Hnd2). apply NoDup_cons in Hnd2 as [Hc _].
  specialize (Hd p H1).
  apply elem_of_app in H2. rewrite list_elem_of_singleton in H2. split_conj; [done| | |].
  - apply elem_of_cons. naive_solver.
  - intros ->. apply Hd, list_elem_of_here.
  - intros ->. naive_solver.
Qed.

(** The two halves are kept when only links of [p], [n] and of nodes off the
    halves change. *)
Lemma halves_kept d :
  d ∉ 0 :: l1 ++ l2 → (∀ z, z ≠ p → z ≠ d → V' z 2 = V z 2) → (∀ z, z ≠ n → z ≠ d → V' z 3 = V z 3) →
  path V' (0 :: l1) ∧ path V' (l2 ++ [0]).
Proof.
  intros Hd H2 H3.
  destruct (path_around V l1 c l2 Hpath) as (A & p' & n' & D & EA & ED & Hl & Hr & _ & E3 & E2 & _).
  assert (p' = p) as -> by congruence. assert (n' = n) as -> by congruence.
  destruct neighbours as (Hp & Hn & _ & _).
  rewrite app_comm_cons in Hnd. apply NoDup_app in Hnd as (Hnd1 & Hdis & Hnd2). apply NoDup_cons in Hnd2 as [_ Hnd2].
  assert (∀ z, z ∈ 0 :: l1 → z ∉ l2) as Hdis' by (intros z Hz Hz2; apply (Hdis z Hz); set_solver).
  split; apply (path_frame_nd V); try done.
  - intros z Hz Hlast. apply H2; [|set_solver]. intros ->. apply Hlast. by rewrite EA, last_snoc.
  - intros z Hz Hhd. apply H3; [|set_solver]. intros ->. apply elem_of_cons in Hn as [->|Hn]; [by apply Hhd|]. by apply (Hdis' n).
  - apply NoDup_app. split_conj; [done| |apply NoDup_singleton]. intros z Hz ->%list_elem_of_singleton. apply (Hdis' 0); set_solver.
  - intros z Hz Hlast. rewrite last_snoc in Hlast. assert (z ∈ l2) as Hz2 by set_solver.
    apply H2; [|set_solver]. intros ->. by apply (Hdis' p).
  - intros z Hz Hhd. apply H3; [|apply elem_of_app in Hz as [?|?]; set_solver]. intros ->. rewrite ED in Hhd. by apply Hhd.
Qed.

Lemma fl_remove :
  (∀ z, z ≠ p → V' z 2 = V z 2) → (∀ z, z ≠ n → V' z 3 = V z 3) → V' p 2 = n → V' n 3 = p →
  path V' (0 :: (l1 ++ l2) ++ [0]).
Proof.
  intros H2 H3 Hp Hn. destruct (halves_kept c) as [Hl Hr].
  { rewrite app_comm_cons in *. apply NoDup_app in Hnd as (_ & Hd & Hnd2). apply NoDup_cons in Hnd2 as [Hc _].
    intros [H|H]%elem_of_app; [apply (Hd c H)|]; set_solver. }
  { intros. by apply H2. } { intros. by apply H3. }
  destruct (path_around V l1 c l2 Hpath) as (A & p' & n' & D & EA & ED & _ & _ & _ & E3 & E2 & _).
  assert (p' = p) as -> by congruence. assert (n' = n) as -> by congruence.
  rewrite <- app_assoc, app_comm_cons, EA, ED, <- app_assoc. apply path_concat; [by rewrite <- EA|done|done|by rewrite <- ED].
Qed.

Lemma fl_replace d :
  d ∉ 0 :: l1 ++ l2 → (∀ z, z ≠ p → z ≠ d → V' z 2 = V z 2) → (∀ z, z ≠ n → z ≠ d → V' z 3 = V z 3) →
  V' p 2 = d → V' d 3 = p → V' d 2 = n → V' n 3 = d →
  path V' (0 :: (l1 ++ d :: l2) ++ [0]).
Proof.
  intros Hd H2 H3 Hp Hd3 Hd2 Hn. destruct (halves_kept d) as [Hl Hr]; [done..|].
  destruct (path_around V l1 c l2 Hpath) as (A & p' & n' & D & EA & ED & _ & _ & _ & E3 & E2 & _).
  assert (p' = p) as -> by congruence. assert (n' = n) as -> by congruence.
  rewrite <- app_assoc. cbn [app]. rewrite ED, app_comm_cons, EA, <- app_assoc. cbn [app].
  apply path_concat; [by rewrite <- EA|done|done|]. rewrite path_cons2. split_conj; [done|done|by rewrite <- ED].
Qed.
End free_list.

(** ** The heap invariant *)

(** No two neighbours are free. *)
Fixpoint nadj (l : list bool) : Prop :=
  match l with
  | x :: l => match l with y :: _ => x && y = false ∧ nadj l | [] => True end
  | [] => True
  end.

Lemma nadj_app l1 x l2 : nadj (l1 ++ x :: l2) ↔ nadj (l1 ++ [x]) ∧ nadj (x :: l2).
Proof.
  induction l1 as [|y l1 IH]; [cbn; naive_solver|].
  destruct l1 as [|z l1]; cbn [app] in *; [cbn; naive_solver|].
  change (nadj (y :: z :: l1 ++ x :: l2)) with (y && z = false ∧ nadj (z :: l1 ++ x :: l2)).
  change (nadj (y :: z :: l1 ++ [x])) with (y && z = false ∧ nadj (z :: l1 ++ [x])). naive_solver.
Qed.

Lemma nadj_snoc_false l x : nadj (l ++ [x]) → nadj (l ++ [false]).
Proof.
  induction l as [|y l IH]; [done|]. destruct l as [|z l]; cbn [app] in *; [cbn; by rewrite andb_false_r|].
  change (y && z = false ∧ nadj (z :: l ++ [x]) → y && z = false ∧ nadj (z :: l ++ [false])). naive_solver.
Qed.

Lemma nadj_cons_false x l : nadj (x :: l) → nadj (false :: l).
Proof. destruct l; cbn; naive_solver. Qed.

(** The last block of the heap, which ends the block list. *)
Definition LAST := 0x1fff.

(** The heap holds the blocks [s] and its free list runs through [fl]. *)
Record inv (V : view) (s : list blk) (fl : list Z) : Prop := {
  i_head : V 0 0 = 1;
  i_tiles : tiles V 0 1 s LAST;
  i_end : V LAST 0 = 0;
  i_path : path V (0 :: fl ++ [0]);
  i_nodup : NoDup fl;
  i_free : ∀ c, c ∈ fl ↔ ∃ n, B c n true ∈ s;
  i_nadj : nadj (fr <$> s)
}.

Lemma seg_last V p a s p' a' :
  seg V p a s p' a' →
  (s = [] ∧ p' = p ∧ a' = a) ∨
  ∃ s0 m g, s = s0 ++ [B p' m g] ∧ p' + m = a' ∧ a ≤ p' ∧ 1 ≤ m ∧ V p' 0 = a' + flag g.
Proof.
  revert p a. induction s as [|x s IH]; intros p a; cbn; [naive_solver|]. intros (<- & Hn & E0 & _ & H). right.
  destruct x as [c n f]; cbn in *.
  destruct (IH _ _ H) as [(-> & -> & ->)|(s0 & m & g & -> & Ha & ? & ? & ?)].
  - exists [], n, f. split_conj; (done || lia).
  - exists (B c n f :: s0), m, g. split_conj; (done || lia).
Qed.

(** What the invariant says around a block. *)
Record around (V : view) (s1 : list blk) (c n : Z) (f : bool) (s2 : list blk) (p : Z) : Prop := {
  ar_seg : seg V 0 1 s1 p c;
  ar_next : V c 0 = c + n + flag f;
  ar_prev : V c 1 = p;
  ar_tiles : tiles V c (c + n) s2 LAST;
  ar_bounds : 1 ≤ c ∧ 1 ≤ n ∧ c + n ≤ LAST ∧ 0 ≤ p < c;
  ar_before : ∀ b, b ∈ s1 → 1 ≤ st b ∧ 1 ≤ sz b ∧ st b + sz b ≤ c;
  ar_after : ∀ b, b ∈ s2 → c + n ≤ st b ∧ 1 ≤ sz b ∧ st b + sz b ≤ LAST;
  ar_last : s1 = [] ∧ p = 0 ∨ ∃ s0 m g, s1 = s0 ++ [B p m g] ∧ p + m = c ∧ 1 ≤ m ∧ V p 0 = c + flag g
}.

Lemma tiles_at V s1 c n f s2 :
  tiles V 0 1 (s1 ++ B c n f :: s2) LAST → ∃ p, around V s1 c n f s2 p.
Proof.
  intros (p & a & Hs & Ht)%tiles_app. cbn in Ht. destruct Ht as (<- & Hn & E0 & E1 & Ht).
  destruct (seg_bounds _ _ _ _ _ _ Hs) as (? & Hp & Hb1). destruct (tiles_bounds _ _ _ _ _ Ht) as (? & Hb2 & _).
  destruct (seg_last _ _ _ _ _ _ Hs) as [(-> & -> & ->)|(s0 & m & g & -> & ? & ? & ? & ?)];
    [exists 0|exists p]; split; try done; try (split_conj; lia).
  - by left.
  - right. exists s0, m, g. done.
Qed.

(** Change of the free flag of a block. *)
Lemma tiles_flag V V' s1 c n f g s2 :
  tiles V 0 1 (s1 ++ B c n f :: s2) LAST → V' c 0 = c + n + flag g →
  (∀ z, z ≠ c → V' z 0 = V z 0) → (∀ z, V' z 1 = V z 1) →
  tiles V' 0 1 (s1 ++ B c n g :: s2) LAST.
Proof.
  intros (p & [Hs E0 E1 Ht Hb _ _ _])%tiles_at H0 HN HP. apply tiles_app. exists p, c. split.
  - apply (seg_frame V); [done|]. intros x Hx. by rewrite HN, HP by lia.
  - cbn. rewrite HP. split_conj; [done|lia|done|done|]. apply (tiles_reprev V V' c); [done|..]; intros; rewrite ?HN, ?HP by lia; try done.
    by apply (tiles_bounds _ _ _ _ _ Ht).
Qed.

(** A block split in two. *)
Lemma tiles_split V V' s1 c n f f' g k s2 :
  tiles V 0 1 (s1 ++ B c n f :: s2) LAST → 0 < k < n →
  V' c 0 = c + k + flag f' → V' (c + k) 0 = c + n + flag g → V' (c + k) 1 = c → V' (c + n) 1 = c + k →
  (∀ z, z ≠ c → z ≠ c + k → V' z 0 = V z 0) → (∀ z, z ≠ c + k → z ≠ c + n → V' z 1 = V z 1) →
  tiles V' 0 1 (s1 ++ B c k f' :: B (c + k) (n - k) g :: s2) LAST.
Proof.
  intros (p & [Hs E0 E1 Ht Hb _ _ _])%tiles_at Hk Hc Hck Hpk Hpn HN HP. apply tiles_app. exists p, c. split.
  - apply (seg_frame V); [done|]. intros x Hx. by rewrite HN, HP by lia.
  - cbn. rewrite (HP c) by lia. replace (c + k + (n - k)) with (c + n) by lia.
    split_conj; try done; try lia. apply (tiles_reprev V V' c); [done|..]; intros; rewrite ?HN, ?HP by lia; done.
Qed.

(** Two neighbours merged into one. *)
Lemma tiles_merge V V' s1 c n f m g f' s2 :
  tiles V 0 1 (s1 ++ B c n f :: B (c + n) m g :: s2) LAST →
  V' c 0 = c + n + m + flag f' → V' (c + n + m) 1 = c →
  (∀ z, z ≠ c → z ≠ c + n → V' z 0 = V z 0) → (∀ z, z ≠ c + n + m → V' z 1 = V z 1) →
  tiles V' 0 1 (s1 ++ B c (n + m) f' :: s2) LAST.
Proof.
  intros (p & [Hs E0 E1 Ht Hb _ _ _])%tiles_at Hc Hp HN HP. cbn in Ht. destruct Ht as (_ & Hm & _ & _ & Ht).
  apply tiles_app. exists p, c. split.
  - apply (seg_frame V); [done|]. intros x Hx. by rewrite HN, HP by lia.
  - cbn. rewrite (HP c) by lia. rewrite Z.add_assoc. split_conj; try done; try lia.
    apply (tiles_reprev V V' (c + n)); [done|..]; intros; rewrite ?HN, ?HP by lia; done.
Qed.

(** ** Taking a block off the free list *)

Lemma elem_split s1 b s2 (x : blk) : x ∈ s1 ++ b :: s2 ↔ x ∈ s1 ∨ x = b ∨ x ∈ s2.
Proof. rewrite elem_of_app, elem_of_cons. naive_solver. Qed.

(** Node [c] of the free list and its block. *)
Record free_at (V : view) (s : list blk) (fl : list Z) (c n : Z) (s1 s2 : list blk) (l1 l2 : list Z) (p q : Z) : Prop := {
  fa_s : s = s1 ++ B c n true :: s2;
  fa_fl : fl = l1 ++ c :: l2;
  fa_prev : V c 3 = p;
  fa_next : V c 2 = q;
  fa_path : path V (0 :: l1 ++ c :: l2 ++ [0]);
  fa_nd : NoDup (0 :: l1 ++ c :: l2);
  fa_p : is_block p ∧ p ≠ c;
  fa_q : is_block q ∧ q ≠ c
}.

Lemma free_node_bounds V s fl c : inv V s fl → c ∈ fl → 1 ≤ c < LAST.
Proof.
  intros Hi Hc. apply (i_free _ _ _ Hi) in Hc as [n Hn].
  destruct (tiles_bounds _ _ _ _ _ (i_tiles _ _ _ Hi)) as (_ & H & _). specialize (H _ Hn). cbn in H. lia.
Qed.

Lemma inv_free_at V s fl c n : inv V s fl → B c n true ∈ s → ∃ s1 s2 l1 l2 p q, free_at V s fl c n s1 s2 l1 l2 p q.
Proof.
  intros Hi Hin. assert (c ∈ fl) as Hc by (apply (i_free _ _ _ Hi); eauto).
  apply list_elem_of_split in Hin as (s1 & s2 & Es). apply list_elem_of_split in Hc as (l1 & l2 & El).
  exists s1, s2, l1, l2, (V c 3), (V c 2).
  assert (path V (0 :: l1 ++ c :: l2 ++ [0])) as Hp.
  { pose proof (i_path _ _ _ Hi) as Hp. rewrite El in Hp. by rewrite <- app_assoc in Hp. }
  assert (NoDup (0 :: l1 ++ c :: l2)) as Hnd.
  { rewrite <- El. apply NoDup_cons. split; [|apply Hi]. intros H0. apply (free_node_bounds _ _ _ _ Hi) in H0. lia. }
  destruct (neighbours V l1 l2 c (V c 3) (V c 2) Hp Hnd eq_refl eq_refl) as (H1 & H2 & H3 & H4).
  assert (∀ z, z ∈ 0 :: l1 ∨ z ∈ 0 :: l2 → is_block z) as Hb.
  { intros z Hz. unfold is_block, NUMBLOCKS. assert (z = 0 ∨ z ∈ fl) as [->|Hz'] by (rewrite El; set_solver); [lia|].
    apply (free_node_bounds _ _ _ _ Hi) in Hz'. unfold LAST in *. lia. }
  split; try done; split; auto.
Qed.

Section alloc.
  Context (V : view) (s : list blk) (fl : list Z) (c n : Z) (s1 s2 : list blk) (l1 l2 : list Z) (p q : Z).
  Context (Hi : inv V s fl) (Hf : free_at V s fl c n s1 s2 l1 l2 p q).

Lemma alloc_around : ∃ b, around V s1 c n true s2 b.
Proof. apply tiles_at. rewrite <- (fa_s _ _ _ _ _ _ _ _ _ _ _ Hf). apply Hi. Qed.

(** The other free blocks. *)
Lemma free_others z : z ∈ l1 ++ l2 ↔ ∃ m, B z m true ∈ s1 ++ s2.
Proof.
  destruct alloc_around as [b Ha]. pose proof (i_free _ _ _ Hi z) as H.
  rewrite (fa_s _ _ _ _ _ _ _ _ _ _ _ Hf), (fa_fl _ _ _ _ _ _ _ _ _ _ _ Hf) in H.
  pose proof (fa_nd _ _ _ _ _ _ _ _ _ _ _ Hf) as Hnd. apply NoDup_cons in Hnd as [_ Hnd].
  apply NoDup_app in Hnd as (_ & Hd & Hnd2). apply NoDup_cons in Hnd2 as [Hc2 _].
  assert (c ∉ l1 ++ l2) as Hc.
  { intros [Hc|Hc]%elem_of_app; [|done]. apply (Hd c Hc), list_elem_of_here. }
  assert (∀ m g, B c m g ∉ s1 ++ s2) as Hcs.
  { destruct Ha as [_ _ _ _ ? H1 H2 _]. intros m g [Hin|Hin]%elem_of_app; [apply H1 in Hin|apply H2 in Hin]; cbn in Hin; lia. }
  split.
  - intros Hz. assert (z ≠ c) by congruence.
    destruct (proj1 H) as [m Hm]; [rewrite elem_of_app, elem_of_cons; apply elem_of_app in Hz; tauto|].
    exists m. apply elem_split in Hm as [?|[[= ->]|?]]; rewrite elem_of_app; tauto.
  - intros [m Hm]. assert (z ≠ c) by (intros ->; by apply (Hcs m true)).
    assert (z ∈ l1 ++ c :: l2) as Hz.
    { apply H. exists m. apply elem_of_app in Hm. apply elem_split. tauto. }
    rewrite elem_of_app, elem_of_cons in Hz. rewrite elem_of_app. tauto.
Qed.

Lemma nodup_others : NoDup (l1 ++ l2) ∧ c ∉ l1 ++ l2.
Proof.
  pose proof (fa_nd _ _ _ _ _ _ _ _ _ _ _ Hf) as Hnd. apply NoDup_cons in Hnd as [_ Hnd].
  apply NoDup_app in Hnd as (Hn1 & Hd & Hnd2). apply NoDup_cons in Hnd2 as [Hc2 Hn2]. split.
  - apply NoDup_app. split_conj; [done| |done]. intros z Hz Hz2. apply (Hd z Hz). by apply list_elem_of_further.
  - intros [Hc|Hc]%elem_of_app; [|done]. apply (Hd c Hc), list_elem_of_here.
Qed.

Lemma disconnect_inv :
  inv (ap V (W_disconnect c p q (c + n))) (s1 ++ B c n false :: s2) (l1 ++ l2).
Proof.
  destruct alloc_around as [b Ha]. destruct Ha as [_ _ _ _ Hb _ _ _].
  pose proof (fa_p _ _ _ _ _ _ _ _ _ _ _ Hf). pose proof (fa_q _ _ _ _ _ _ _ _ _ _ _ Hf).
  pose proof Hf as [Es El Ep Eq Hp Hnd _ _].
  unfold ap, W_disconnect; cbn [foldl]. split.
  - vred. apply Hi.
  - pose proof (i_tiles _ _ _ Hi) as Ht. rewrite Es in Ht. eapply tiles_flag; [exact Ht|..].
    + vred. cbn. lia.
    + intros z Hz. by vred.
    + intros z. by vred.
  - vred. apply Hi.
  - apply (fl_remove V _ l1 l2 c p q); try done.
    + intros z Hz. by vred.
    + intros z Hz. by vred.
    + by vred.
    + by vred.
  - apply nodup_others.
  - intros z. rewrite free_others. split; intros [m Hm]; exists m.
    + rewrite elem_split. rewrite elem_of_app in Hm. tauto.
    + rewrite elem_split in Hm. rewrite elem_of_app. destruct Hm as [?|[[=]|?]]; tauto.
  - pose proof (i_nadj _ _ _ Hi) as Hn. rewrite Es, fmap_app in Hn. rewrite fmap_app. cbn in *.
    apply nadj_app in Hn as [H1 H2]. apply nadj_app. split; [by eapply nadj_snoc_false|by eapply nadj_cons_false].
Qed.

Definition W_carve (k : Z) : list write :=
  W_split c k (c + n) (flag true) ++ [(p, 2, c + k); (c + k, 3, p); (q, 3, c + k); (c + k, 2, q)].

Lemma carve_inv k : 0 < k < n →
  inv (ap V (W_carve k)) (s1 ++ B c k false :: B (c + k) (n - k) true :: s2) (l1 ++ (c + k) :: l2).
Proof.
  intros Hk. destruct alloc_around as [b Ha]. pose proof Ha as [_ _ _ _ Hb Hb1 Hb2 _].
  pose proof (fa_p _ _ _ _ _ _ _ _ _ _ _ Hf) as [_ ?]. pose proof (fa_q _ _ _ _ _ _ _ _ _ _ _ Hf) as [_ ?].
  pose proof Hf as [Es El Ep Eq Hp Hnd _ _].
  assert (c + k ∉ l1 ++ l2) as Hck.
  { rewrite free_others. intros [m [Hm|Hm]%elem_of_app]; [apply Hb1 in Hm|apply Hb2 in Hm]; cbn in Hm; lia. }
  assert (c + k ∉ 0 :: l1 ++ l2) as Hck0 by (rewrite not_elem_of_cons; split; [lia|done]).
  destruct (neighbours V l1 l2 c p q Hp Hnd Ep Eq) as (Hpin & Hqin & _ & _).
  assert (p ≠ c + k) by (intros ->; apply Hck0; rewrite elem_of_cons, elem_of_app in *; tauto).
  assert (q ≠ c + k) by (intros ->; apply Hck0; rewrite elem_of_cons, elem_of_app in *; tauto).
  unfold ap, W_carve, W_split; cbn [foldl app]. split.
  - vred. apply Hi.
  - pose proof (i_tiles _ _ _ Hi) as Ht. rewrite Es in Ht. eapply tiles_split; [exact Ht|done|..].
    + vred. cbn. lia.
    + vred. done.
    + vred. done.
    + vred. done.
    + intros z ? ?. by vred.
    + intros z ? ?. by vred.
  - vred. apply Hi.
  - apply (fl_replace V _ l1 l2 c p q); try done.
    + intros z ? ?. by vred.
    + intros z ? ?. by vred.
    + by vred.
    + by vred.
    + by vred.
    + by vred.
  - apply NoDup_app. destruct nodup_others as [Hn0 _]. apply NoDup_app in Hn0 as (? & Hd & ?).
    split_conj; [done| |].
    + intros z Hz [->|Hz2]%elem_of_cons; [apply Hck; rewrite elem_of_app; tauto|by apply (Hd z)].
    + apply NoDup_cons. split; [|done]. intros ?. apply Hck. rewrite elem_of_app. tauto.
  - intros z. assert (z ∈ l1 ++ (c + k) :: l2 ↔ z ∈ l1 ++ l2 ∨ z = c + k) as ->
      by (rewrite !elem_of_app, elem_of_cons; tauto).
    rewrite free_others. split.
    + intros [[m Hm]| ->]; [exists m|exists (n - k)]; rewrite elem_split, elem_of_cons; [rewrite elem_of_app in Hm|]; tauto.
    + intros [m Hm]. rewrite elem_split, elem_of_cons in Hm. destruct Hm as [?|[[=]|[[= -> ->]|?]]];
        [left; exists m; rewrite elem_of_app; tauto|by right|left; exists m; rewrite elem_of_app; tauto].
  - pose proof (i_nadj _ _ _ Hi) as Hn. rewrite Es, fmap_app in Hn. rewrite fmap_app. cbn in *.
    apply nadj_app in Hn as [G1 G2]. apply nadj_app. split; [by eapply nadj_snoc_false|done].
Qed.
End alloc.

(** ** The best-fit search *)

(** The size the search computes for a free block. *)
Definition size_at (V : view) (c : Z) : Z := u16 ((V c 0 & UMM_BLOCKNO_MASK) - c).

(** The search over the nodes of the free list. *)
Fixpoint scan (V : view) (blocks : Z) (l : list Z) (blockSize bestSize bestBlock : Z) : Z * Z * Z :=
  match l with
  | [] => (blockSize, bestSize, bestBlock)
  | c :: l =>
      if (blocks <=? size_at V c) && (size_at V c <? bestSize)
      then scan V blocks l (size_at V c) (size_at V c) c
      else scan V blocks l (size_at V c) bestSize bestBlock
  end.

Lemma best_fit_scan h V blocks l fuel bs best bb :
  has_view h V → path V (l ++ [0]) → (∀ c, c ∈ l → is_block c ∧ c ≠ 0) → (length l < fuel)%nat →
  best_fit fuel h blocks (default 0 (head (l ++ [0]))) bs best bb = Ok (scan V blocks l bs best bb).
Proof.
  intros Hv. revert fuel bs best bb. induction l as [|c l IH]; intros [|fuel] bs best bb Hp Hl Hf; try (cbn in Hf; lia); [done|].
  change (default 0 (head ((c :: l) ++ [0]))) with c. destruct (Hl c) as [Hc Hc0]; [apply list_elem_of_here|].
  cbn [best_fit scan]. rewrite (proj2 (Z.eqb_neq c 0)) by done.
  rewrite (ex_NBLOCK h V Hv c Hc). cbn [mbind outcome_bind]. rewrite (ex_NFREE h V Hv c Hc). cbn [mbind outcome_bind].
  assert (V c 2 = default 0 (head (l ++ [0])) ∧ path V (l ++ [0])) as [-> Hp'].
  { destruct l as [|d l]; cbn [app] in Hp |- *; rewrite path_cons2 in Hp; naive_solver. }
  fold (size_at V c). rewrite IH; [|done|intros; apply Hl; by apply list_elem_of_further|cbn in Hf; lia].
  by destruct (_ && _).
Qed.

Lemma scan_spec V blocks l bs best bb :
  let '(bs', best', bb') := scan V blocks l bs best bb in
  (bs' = bs ∧ l = [] ∨ ∃ c, c ∈ l ∧ bs' = size_at V c) ∧ best' ≤ best ∧
  (∀ c, c ∈ l → blocks ≤ size_at V c → best' ≤ size_at V c) ∧
  (best' = best ∧ bb' = bb ∨ bb' ∈ l ∧ best' = size_at V bb' ∧ blocks ≤ best' < best).
Proof.
  revert bs best bb. induction l as [|c l IH]; intros bs best bb; cbn [scan].
  { split_conj; [by left|lia| |by left]. intros c Hc. by apply not_elem_of_nil in Hc. }
  assert (c ∈ c :: l) as Hin by apply list_elem_of_here.
  assert (∀ x, x ∈ l → x ∈ c :: l) as Hsub by (intros; by apply list_elem_of_further).
  destruct ((blocks <=? size_at V c) && (size_at V c <? best)) eqn:E.
  - zify_bools. specialize (IH (size_at V c) (size_at V c) c).
    destruct (scan V blocks l (size_at V c) (size_at V c) c) as [[bs' best'] bb'].
    destruct IH as (H1 & H2 & H3 & H4). split_conj; [|lia| |].
    + right. destruct H1 as [[-> _]|(x & Hx & ->)]; eauto.
    + intros x [->|Hx]%elem_of_cons ?; [lia|auto].
    + right. destruct H4 as [[-> ->]|(? & ? & ?)]; split_conj; try done; try lia; auto.
  - assert (size_at V c < blocks ∨ best ≤ size_at V c) as Hno.
    { apply andb_false_iff in E as [E|E]; zify_bools; lia. }
    specialize (IH (size_at V c) best bb).
    destruct (scan V blocks l (size_at V c) best bb) as [[bs' best'] bb'].
    destruct IH as (H1 & H2 & H3 & H4). split_conj; [|lia| |].
    + right. destruct H1 as [[-> _]|(x & Hx & ->)]; eauto.
    + intros x [->|Hx]%elem_of_cons ?; [lia|auto].
    + destruct H4 as [[-> ->]|(? & ? & ?)]; [by left|right]. split_conj; try done; try lia; auto.
Qed.

(** ** [umm_malloc] *)

Lemma size_at_free V s fl c n : inv V s fl → B c n true ∈ s → size_at V c = n ∧ 1 ≤ c ∧ 1 ≤ n ∧ c + n ≤ LAST.
Proof.
  intros Hi Hin. apply list_elem_of_split in Hin as (s1 & s2 & ->).
  destruct (tiles_at V s1 c n true s2) as [p [_ E _ _ Hb _ _ _]]; [apply Hi|].
  unfold size_at, LAST in *. rewrite E, mask_blockno by lia. rewrite wrap_small by (unfold in_u; lia). lia.
Qed.

Lemma exec_carve h V c n k p q :
  has_view h V → is_block c → is_block (c + n) → is_block p → is_block q → 0 < k < n →
  V c 0 = c + n + flag true → V c 3 = p → V c 2 = q → p ≠ c → q ≠ c → p ≠ c + k → q ≠ c + k →
  (h ← umm_split_block h c k UMM_FREELIST_MASK;
   p ← UMM_PFREE h c; h ← set_NFREE h p (c + k);
   p ← UMM_PFREE h c; h ← set_PFREE h (c + k) p;
   f ← UMM_NFREE h c; h ← set_PFREE h f (c + k);
   f ← UMM_NFREE h c; set_NFREE h (c + k) f) = Ok (upds h (W_carve c n p q k)).
Proof.
  intros Hv Hc Hcn Hp Hq Hk E0 Ep Eq Hpc Hqc Hpk Hqk.
  assert (is_block (c + k)) as Hck by (unfold is_block in *; lia).
  change UMM_FREELIST_MASK with (flag true). rewrite (exec_split h V c k (c + n) true true) by (done || lia).
  cbn [mbind outcome_bind].
  assert (has_view (upds h (W_split c k (c + n) (flag true))) (ap V (W_split c k (c + n) (flag true)))) as Hv1.
  { apply has_view_upds; [done|]. repeat constructor; cbn; try isb; unfold is_block, NUMBLOCKS, in_u in *; lia. }
  unfold W_carve. rewrite upds_app. clear Hv. set (h1 := upds h _) in *. clearbody h1.
  unfold ap, W_split in Hv1. cbn [foldl] in Hv1.
  rd. rewrite Ep. wr. rd. rewrite Ep. wr. rd. rewrite Eq. wr. rd. rewrite Eq. wr. done.
Qed.

(** *** The data bytes of used blocks are not written *)

Definition payload (b : blk) (i : Z) : Prop := 8 * st b + 4 ≤ i < 8 * (st b + sz b).

Lemma blocks_disjoint V p a s e b1 b2 :
  tiles V p a s e → b1 ∈ s → b2 ∈ s → b1 = b2 ∨ st b1 + sz b1 ≤ st b2 ∨ st b2 + sz b2 ≤ st b1.
Proof.
  revert p a. induction s as [|x s IH]; intros p a Ht H1 H2; [by apply not_elem_of_nil in H1|].
  cbn in Ht. destruct Ht as (Ex & _ & _ & _ & Ht). destruct (tiles_bounds _ _ _ _ _ Ht) as (_ & Hb & _).
  apply elem_of_cons in H1 as [->|H1], H2 as [->|H2]; [by left| | |by eapply IH].
  - specialize (Hb _ H2). lia.
  - specialize (Hb _ H1). lia.
Qed.

(** The decomposition of a block list around a start is unique. *)
Lemma block_unique V s1 s2 t1 t2 b1 b2 :
  tiles V 0 1 (s1 ++ b1 :: s2) LAST → s1 ++ b1 :: s2 = t1 ++ b2 :: t2 → st b1 = st b2 →
  t1 = s1 ∧ t2 = s2 ∧ b1 = b2.
Proof.
  intros Ht E Hst. assert (NoDup (st <$> s1 ++ b1 :: s2)) as Hnd.
  { clear E Hst. revert Ht. generalize 0, 1. generalize (s1 ++ b1 :: s2). intros l. induction l as [|x l IH]; intros p a Ht.
    - constructor.
    - cbn in Ht |- *. destruct Ht as (E & ? & _ & _ & Ht). apply NoDup_cons. split; [|by eapply IH].
      intros (y & Ey & Hy)%list_elem_of_fmap. destruct (tiles_bounds _ _ _ _ _ Ht) as (_ & Hb & _). specialize (Hb _ Hy). lia. }
  clear Ht. revert t1 E. induction s1 as [|x s1 IH]; intros [|y t1] E; cbn in E.
  - by simplify_eq.
  - injection E as <- E. exfalso. cbn in Hnd. apply NoDup_cons in Hnd as [Hn _]. apply Hn. rewrite E, fmap_app. cbn.
    rewrite Hst. rewrite elem_of_app, elem_of_cons. tauto.
  - injection E as -> E. exfalso. cbn in Hnd. apply NoDup_cons in Hnd as [Hn _]. apply Hn. rewrite fmap_app. cbn.
    rewrite Hst. rewrite elem_of_app, elem_of_cons. tauto.
  - injection E as -> E. cbn in Hnd. apply NoDup_cons in Hnd as [_ Hnd]. destruct (IH Hnd t1 E) as (-> & -> & ->). done.
Qed.

(** A block index inside a free block, or the list head. *)
Definition free_area (s : list blk) (x : Z) : Prop :=
  x = 0 ∨ ∃ b, b ∈ s ∧ fr b = true ∧ st b ≤ x < st b + sz b.

Section frame.
  Context (V : view) (s : list blk) (fl : list Z) (Hi : inv V s fl).
  Context (b : blk) (i : Z) (Hb : b ∈ s) (Hu : fr b = false) (Hp : payload b i).

Lemma area_untouched x k : free_area s x → is_field k → i < 8 * x + 2 * k ∨ 8 * x + 2 * k + 1 < i.
Proof.
  unfold is_field, payload in *. intros Hx Hk.
  destruct (tiles_bounds _ _ _ _ _ (i_tiles _ _ _ Hi)) as (_ & Hbd & _). pose proof (Hbd _ Hb).
  destruct Hx as [->|(b' & Hb' & Hf & Hx)]; [lia|].
  destruct (blocks_disjoint _ _ _ _ _ b b' (i_tiles _ _ _ Hi) Hb Hb') as [->|[?|?]]; [congruence|lia|lia].
Qed.

(** The header after a free block. *)
Lemma header_untouched b' k : b' ∈ s → b' ≠ b → 0 ≤ k ≤ 1 →
  let x := st b' + sz b' in i < 8 * x + 2 * k ∨ 8 * x + 2 * k + 1 < i.
Proof.
  intros Hb' Hne Hk x. unfold payload in *.
  destruct (tiles_bounds _ _ _ _ _ (i_tiles _ _ _ Hi)) as (_ & Hbd & _).
  pose proof (Hbd _ Hb). pose proof (Hbd _ Hb').
  destruct (blocks_disjoint _ _ _ _ _ b b' (i_tiles _ _ _ Hi) Hb Hb') as [->|[?|?]]; [done|unfold x; lia..].
Qed.

Lemma node_area z : z = 0 ∨ z ∈ fl → free_area s z.
Proof.
  intros [->|Hz]; [by left|]. apply (i_free _ _ _ Hi) in Hz as [m Hm]. right. eexists. split_conj; [done|done|cbn; lia|].
  apply (size_at_free _ _ _ _ _ Hi) in Hm. cbn. lia.
Qed.
End frame.

(** What replaces a free block of [n] units when [k] are taken from it. *)
Definition carved (c n k : Z) : list blk :=
  if n =? k then [B c n false] else [B c k false; B (c + k) (n - k) true].

(** The bytes of the blocks in use. *)
Definition data_kept (s : list blk) (h h' : list Z) : Prop :=
  ∀ b i, b ∈ s → fr b = false → payload b i → zget h' i = zget h i.

Lemma fl_length V s fl : inv V s fl → (length fl ≤ 8192)%nat.
Proof.
  intros Hi. assert (fl ⊆ seqZ 0 8192) as Hsub.
  { intros z Hz. apply (free_node_bounds _ _ _ _ Hi) in Hz. apply elem_of_seqZ. unfold LAST in Hz. lia. }
  apply NoDup_submseteq in Hsub; [|apply Hi]. apply submseteq_length in Hsub. by rewrite length_seqZ in Hsub.
Qed.

Section malloc.
  Context (h : list Z) (V : view) (s : list blk) (fl : list Z) (c n : Z) (s1 s2 : list blk) (l1 l2 : list Z) (p q : Z).
  Context (Hv : has_view h V) (Hi : inv V s fl) (Hf : free_at V s fl c n s1 s2 l1 l2 p q).

Lemma taken_bounds : is_block c ∧ is_block (c + n) ∧ 1 ≤ n ∧ B c n true ∈ s.
Proof.
  assert (B c n true ∈ s) as Hin by (rewrite (fa_s _ _ _ _ _ _ _ _ _ _ _ Hf); apply elem_split; tauto).
  destruct (size_at_free _ _ _ _ _ Hi Hin) as (_ & ? & ? & ?). unfold is_block, NUMBLOCKS, LAST in *. split_conj; (done || lia).
Qed.

Lemma neighbour_nodes : (p = 0 ∨ p ∈ fl) ∧ (q = 0 ∨ q ∈ fl) ∧ (∀ k, 0 < k < n → p ≠ c + k ∧ q ≠ c + k).
Proof.
  pose proof Hf as [Es El Ep Eq Hpath Hnd _ _].
  destruct (neighbours V l1 l2 c p q Hpath Hnd Ep Eq) as (Hpin & Hqin & _ & _).
  destruct taken_bounds as (Hc & Hcn & Hn & Hin).
  assert (p = 0 ∨ p ∈ fl) as H1 by (rewrite El, elem_of_app, elem_of_cons; apply elem_of_cons in Hpin; tauto).
  assert (q = 0 ∨ q ∈ fl) as H2 by (rewrite El, elem_of_app, elem_of_cons; apply elem_of_cons in Hqin; tauto).
  split_conj; [done|done|]. intros k Hk.
  assert (∀ z, z = 0 ∨ z ∈ fl → z ≠ c + k) as Hz.
  { intros z [->|Hz] Ez; [unfold is_block in Hc; lia|subst z]. apply (i_free _ _ _ Hi) in Hz as [m Hm].
    destruct (blocks_disjoint _ _ _ _ _ _ _ (i_tiles _ _ _ Hi) Hin Hm) as [[=]|[?|?]]; cbn in *; [lia|lia|].
    apply (size_at_free _ _ _ _ _ Hi) in Hm. lia. }
  auto.
Qed.

(** The writes of an allocation of [k] units from this block. *)
Definition W_alloc (k : Z) : list write :=
  if n =? k then W_disconnect c p q (c + n) else W_carve c n p q k.

Lemma W_alloc_ok k : 0 < k ≤ n → Forall write_ok (W_alloc k).
Proof.
  intros Hk. destruct taken_bounds as (Hc & Hcn & Hn & _).
  pose proof (fa_p _ _ _ _ _ _ _ _ _ _ _ Hf) as [? _]. pose proof (fa_q _ _ _ _ _ _ _ _ _ _ _ Hf) as [? _].
  unfold W_alloc. case_bool; repeat constructor; cbn; unfold is_block, NUMBLOCKS, in_u in *; lia.
Qed.

Lemma W_alloc_inv k : 0 < k ≤ n →
  ∃ fl', inv (ap V (W_alloc k)) (s1 ++ carved c n k ++ s2) fl'.
Proof.
  intros Hk. unfold W_alloc, carved. case_bool.
  - exists (l1 ++ l2). by eapply disconnect_inv.
  - exists (l1 ++ (c + k) :: l2). cbn. eapply carve_inv; [done|done|lia].
Qed.

Lemma W_alloc_data k : 0 < k ≤ n → data_kept s h (upds h (W_alloc k)).
Proof.
  intros Hk b i Hb Hu Hp. destruct taken_bounds as (Hc & Hcn & Hn & Hin). destruct neighbour_nodes as (H1 & H2 & _).
  pose proof (area_untouched V s fl Hi b i Hb Hu Hp) as Hau.
  assert (∀ x, c ≤ x < c + n → free_area s x) as Har by (intros x Hx; right; exists (B c n true); done).
  pose proof (node_area V s fl Hi p H1) as Hpa. pose proof (node_area V s fl Hi q H2) as Hqa.
  assert (B c n true ≠ b) as Hne by (intros <-; done).
  pose proof (header_untouched V s fl Hi b i Hb Hu Hp _ 1 Hin Hne ltac:(lia)) as Hh. cbn in Hh.
  assert (0 ≤ i) by (unfold payload in Hp; destruct (tiles_bounds _ _ _ _ _ (i_tiles _ _ _ Hi)) as (_ & Hbd & _); specialize (Hbd _ Hb); lia).
  apply upds_frame; [apply Hv|by apply W_alloc_ok|done|].
  unfold untouched, W_alloc, W_carve, W_split, W_disconnect. cbn [app].
  case_bool; repeat (apply List.Forall_cons; [cbn|]); try apply List.Forall_nil; try done;
    (apply Hau; [first [done|apply Har; lia]|unfold is_field; lia]).
Qed.
End malloc.

(** The outcome of an allocation of [k] units in a heap with blocks [s]. *)
Definition malloc_post (h : list Z) (s : list blk) (k : Z) (h' : list Z) (r : option Z) : Prop :=
  match r with
  | None => h' = h ∧ ∀ c n, B c n true ∈ s → n < k
  | Some ptr =>
      ∃ s1 c n s2 V' fl', s = s1 ++ B c n true :: s2 ∧ ptr = UMM_DATA c ∧ k ≤ n ∧
        (∀ c' n', B c' n' true ∈ s → k ≤ n' → n ≤ n') ∧
        has_view h' V' ∧ inv V' (s1 ++ carved c n k ++ s2) fl' ∧ data_kept s h h'
  end.

(** The second half of [umm_malloc], once the search has picked a block. *)
Lemma take_best h V s fl c n k :
  has_view h V → inv V s fl → B c n true ∈ s → 0 < k ≤ n →
  (∀ c' n', B c' n' true ∈ s → k ≤ n' → n ≤ n') →
  ∃ h', (if n =? k then umm_disconnect_from_free_list h c
         else
           h ← umm_split_block h c k UMM_FREELIST_MASK;
           p ← UMM_PFREE h c; h ← set_NFREE h p (c + k);
           p ← UMM_PFREE h c; h ← set_PFREE h (c + k) p;
           f ← UMM_NFREE h c; h ← set_PFREE h f (c + k);
           f ← UMM_NFREE h c; set_NFREE h (c + k) f) = Ok h' ∧ malloc_post h s k h' (Some (UMM_DATA c)).
Proof.
  intros Hv Hi Hin Hk Hmin. destruct (inv_free_at V s fl c n Hi Hin) as (s1 & s2 & l1 & l2 & p & q & Hf).
  destruct (taken_bounds V s fl c n s1 s2 l1 l2 p q Hi Hf) as (Hc & Hcn & _).
  destruct (neighbour_nodes V s fl c n s1 s2 l1 l2 p q Hi Hf) as (_ & _ & Hpq).
  pose proof Hf as [Es El Ep Eq _ _ [Hp Hpc] [Hq Hqc]].
  assert (V c 0 = c + n + flag true) as E0.
  { destruct (alloc_around V s fl c n s1 s2 l1 l2 p q Hi Hf) as [? [_ E _ _ _ _ _ _]]. done. }
  exists (upds h (W_alloc c n p q k)). split.
  - unfold W_alloc. case_bool.
    + eapply (exec_disconnect h V c p q (c + n) true); try done. unfold is_block, NUMBLOCKS in *. lia.
    + destruct (Hpq k); [lia|]. eapply exec_carve; try done. lia.
  - destruct (W_alloc_inv V s fl c n s1 s2 l1 l2 p q Hi Hf k Hk) as [fl' Hinv].
    exists s1, c, n, s2, (ap V (W_alloc c n p q k)), fl'. split_conj; try done; [lia| |].
    + apply has_view_upds; [done|]. by apply (W_alloc_ok V s fl c n s1 s2 l1 l2 p q Hi Hf).
    + by apply (W_alloc_data h V s fl c n s1 s2 l1 l2 p q Hv Hi Hf).
Qed.

Lemma malloc_blocks_spec h V s fl k :
  has_view h V → inv V s fl → 0 < k →
  ∃ h' r, malloc_blocks h NUMBLOCKS k = Ok (h', r) ∧ malloc_post h s k h' r.
Proof.
  intros Hv Hi Hk. unfold malloc_blocks. pose proof (i_path _ _ _ Hi) as Hp.
  assert (V 0 2 = default 0 (head (fl ++ [0])) ∧ path V (fl ++ [0])) as [E0 Hp'].
  { destruct fl as [|d fl]; cbn [app] in Hp |- *; rewrite path_cons2 in Hp; naive_solver. }
  rewrite (ex_NFREE h V Hv 0) by isb. cbn [mbind outcome_bind]. rewrite E0.
  rewrite (best_fit_scan h V) ; [|done|done| |pose proof (fl_length _ _ _ Hi); change (Z.to_nat NUMBLOCKS) with 8192%nat; lia].
  2: { intros c Hc. apply (free_node_bounds _ _ _ _ Hi) in Hc. unfold is_block, NUMBLOCKS, LAST in *. lia. }
  cbn [mbind outcome_bind]. pose proof (scan_spec V k fl 0 0x7fff (default 0 (head (fl ++ [0])))) as Hs.
  destruct (scan _ _ _ _ _ _) as [[bs best] bb]. destruct Hs as (H1 & H2 & H3 & H4).
  assert (Hsz : ∀ c n, B c n true ∈ s → c ∈ fl ∧ size_at V c = n ∧ 1 ≤ n < 0x7fff).
  { intros c n Hin. destruct (size_at_free _ _ _ _ _ Hi Hin) as (? & ? & ? & ?). unfold LAST in *.
    split_conj; try lia. apply (i_free _ _ _ Hi). eauto. }
  destruct H4 as [[-> ->]|(Hbb & Hbest & Hfit)].
  - change (0x7fff =? 0x7fff) with true. cbn [negb]. rewrite (ex_NBLOCK h V Hv 0) by isb. cbn [mbind outcome_bind].
    assert (∀ c n, B c n true ∈ s → n < k) as Hnone.
    { intros c n Hin. destruct (Hsz c n Hin) as (Hc & E & ?). destruct (Z.lt_ge_cases n k); [done|].
      specialize (H3 c Hc). lia. }
    assert (bs < k) as Hbs.
    { destruct H1 as [[-> _]|(c & Hc & ->)]; [lia|]. apply (i_free _ _ _ Hi) in Hc as [n Hn].
      destruct (Hsz c n Hn) as (_ & -> & _). by apply (Hnone c n). }
    rewrite (proj2 (Z.leb_gt k bs)), andb_false_r by lia. exists h, None. split; [done|]. by split.
  - rewrite (proj2 (Z.eqb_neq best 0x7fff)) by lia. cbn [negb].
    apply (i_free _ _ _ Hi) in Hbb as [n Hin]. destruct (Hsz bb n Hin) as (_ & En & Hn). rewrite En in Hbest. subst best.
    destruct (size_at_free _ _ _ _ _ Hi Hin) as (_ & ? & _ & ?).
    assert (is_block bb) as Hb by (unfold is_block, NUMBLOCKS, LAST in *; lia).
    rewrite (ex_NBLOCK h V Hv bb Hb). cbn [mbind outcome_bind].
    assert (V bb 0 = bb + n + flag true) as ->.
    { apply list_elem_of_split in Hin as (t1 & t2 & ->). destruct (tiles_at V t1 bb n true t2) as [? [_ E _ _ _ _ _ _]]; [apply Hi|done]. }
    rewrite mask_blockno by (unfold LAST in *; lia). rewrite (proj2 (ctrue_true (bb + n))) by lia.
    rewrite (proj2 (Z.leb_le k n)) by lia. cbn [andb].
    destruct (take_best h V s fl bb n k Hv Hi Hin) as (h' & -> & Hpost); [lia| |].
    { intros c' n' Hin' ?. destruct (Hsz c' n' Hin') as (Hc' & <- & _). by apply H3. }
    cbn [mbind outcome_bind]. exists h', (Some (UMM_DATA bb)). done.
Qed.

(** ** [umm_free] *)

(** The next block is not free. *)
Definition next_used (s2 : list blk) : Prop := match s2 with b :: _ => fr b = false | [] => True end.

(** What [umm_assimilate_up] makes of a block of [n] units followed by [s2]. *)
Definition merge_up (n : Z) (s2 : list blk) : Z * list blk :=
  match s2 with B _ m true :: s2' => (n + m, s2') | _ => (n, s2) end.

Section up.
  Context (h : list Z) (V : view) (s1 : list blk) (c n m : Z) (s2 : list blk) (fl l1 l2 : list Z) (p q : Z).
Let s := s1 ++ B c n false :: B (c + n) m true :: s2.
  Context (Hv : has_view h V) (Hi : inv V s fl)
    (Hf : free_at V s fl (c + n) m (s1 ++ [B c n false]) s2 l1 l2 p q).

Lemma up_around : ∃ b, around V s1 c n false (B (c + n) m true :: s2) b.
Proof. apply tiles_at. apply Hi. Qed.

Lemma up_facts : is_block c ∧ is_block (c + n) ∧ is_block (c + n + m) ∧ 1 ≤ c ∧ 1 ≤ n ∧ 1 ≤ m ∧
  c + n + m ≤ LAST ∧ V c 0 = c + n ∧ V (c + n) 0 = c + n + m + flag true ∧ p ≠ c + n ∧ is_block p ∧ is_block q.
Proof.
  destruct up_around as [b [_ E _ Ht Hb _ Ha _]]. cbn in Ht. destruct Ht as (_ & Hm & E2 & _ & Ht).
  destruct (tiles_bounds _ _ _ _ _ Ht) as (? & _ & _). pose proof Hf as [_ _ _ _ _ _ [? ?] [? ?]].
  unfold is_block, NUMBLOCKS, LAST in *. split_conj; try done; try lia. rewrite E. cbn. lia.
Qed.

Lemma up_inv : inv (ap V (W_up c (c + n) (c + n + m) p q)) (s1 ++ B c (n + m) false :: s2) (l1 ++ l2).
Proof.
  destruct up_facts as (? & ? & ? & ? & ? & ? & ? & E0 & E1 & ? & _).
  pose proof (disconnect_inv V s fl (c + n) m _ s2 l1 l2 p q Hi Hf) as Hd.
  unfold W_up. rewrite ap_app. set (V1 := ap V _) in *. rewrite <- app_assoc in Hd. cbn [app] in Hd.
  assert (V1 c 0 = c + n) as Ec by (unfold V1, ap, W_disconnect; cbn [foldl]; by vred).
  unfold ap; cbn [foldl]. split.
  - vred. apply Hd.
  - eapply (tiles_merge V1); [apply Hd|..].
    + vred. cbn. lia.
    + by vred.
    + intros z ? ?. by vred.
    + intros z ?. by vred.
  - vred. apply Hd.
  - apply (path_kept V1); [apply Hd|..]; intros; by vred.
  - apply Hd.
  - intros z. rewrite (i_free _ _ _ Hd). split; intros [k Hk]; exists k; rewrite elem_split in *; rewrite ?elem_of_cons in *.
    + destruct Hk as [?|[[=]|[[=]|?]]]; tauto.
    + destruct Hk as [?|[[=]|?]]; tauto.
  - pose proof (i_nadj _ _ _ Hd) as Hn. rewrite fmap_app in *. cbn in *. apply nadj_app in Hn as [G1 G2].
    apply nadj_app. split; [done|]. by apply G2.
Qed.
End up.

(** Like [data_kept], for the used blocks other than the one at [c]. *)
Definition data_kept_but (c : Z) (s : list blk) (h h' : list Z) : Prop :=
  ∀ b i, b ∈ s → fr b = false → st b ≠ c → payload b i → zget h' i = zget h i.

(** Writes that miss the data of every used block but the one at [c]: free
    nodes, the block [c] and the headers that follow blocks. *)
Definition harmless (s : list blk) (c : Z) (w : write) : Prop :=
  free_area s w.1.1 ∨ (∃ b, b ∈ s ∧ st b = c ∧ st b ≤ w.1.1 < st b + sz b) ∨
  (w.1.2 ≤ 1 ∧ ∃ b, b ∈ s ∧ (fr b = true ∨ st b = c) ∧ w.1.1 = st b + sz b).

Lemma harmless_kept h V s fl c W :
  has_view h V → inv V s fl → Forall write_ok W → Forall (harmless s c) W → data_kept_but c s h (upds h W).
Proof.
  intros Hv Hi Hok HW b i Hb Hu Hc Hp.
  assert (0 ≤ i) by (unfold payload in Hp; destruct (tiles_bounds _ _ _ _ _ (i_tiles _ _ _ Hi)) as (_ & Hbd & _); specialize (Hbd _ Hb); lia).
  apply upds_frame; [apply Hv|done|done|]. unfold untouched. rewrite Forall_forall in *. intros w Hw.
  destruct (Hok w Hw) as (_ & Hk & _). destruct (HW w Hw) as [Ha|[(b' & Hb' & Ec & Hx)|(Hk1 & b' & Hb' & Hfc & Ex)]].
  - by apply (area_untouched V s fl Hi b i Hb Hu Hp).
  - unfold payload, is_field in *.
    destruct (blocks_disjoint _ _ _ _ _ b b' (i_tiles _ _ _ Hi) Hb Hb') as [->|[?|?]]; [congruence|lia|lia].
  - rewrite Ex. apply (header_untouched V s fl Hi b i Hb Hu Hp b'); [done| |unfold is_field in Hk; lia].
    intros ->. destruct Hfc; congruence.
Qed.

Lemma up_stage h V s1 c n s2 fl :
  has_view h V → inv V (s1 ++ B c n false :: s2) fl →
  ∃ h' V' fl', umm_assimilate_up h c = Ok h' ∧ has_view h' V' ∧
    inv V' (s1 ++ B c (merge_up n s2).1 false :: (merge_up n s2).2) fl' ∧ next_used (merge_up n s2).2 ∧
    data_kept_but c (s1 ++ B c n false :: s2) h h'.
Proof.
  intros Hv Hi. destruct (tiles_at V s1 c n false s2) as [b0 [_ E0 _ Ht Hb _ _ _]]; [apply Hi|].
  cbn [flag] in E0. rewrite Z.add_0_r in E0. destruct Hb as (Hc1 & Hn1 & Hle & _).
  assert (is_block c ∧ is_block (c + n)) as [Hc Hcn] by (unfold is_block, NUMBLOCKS, LAST in *; lia).
  assert (∀ y, is_block y → V (c + n) 0 = y + flag false → next_used s2 → merge_up n s2 = (n, s2) →
    ∃ h' V' fl', umm_assimilate_up h c = Ok h' ∧ has_view h' V' ∧
    inv V' (s1 ++ B c (merge_up n s2).1 false :: (merge_up n s2).2) fl' ∧ next_used (merge_up n s2).2 ∧
    data_kept_but c (s1 ++ B c n false :: s2) h h') as Hused.
  { intros y Hy Ey Hnu Em. exists h, V, fl. rewrite Em. cbn. split_conj; try done. by apply (exec_up_used h V c (c + n) y). }
  destruct s2 as [|[a m g] s2].
  { cbn in Ht. destruct Ht as [El _]. apply (Hused 0); [isb| |done|done]. rewrite El, (i_end _ _ _ Hi). done. }
  cbn in Ht. destruct Ht as (Ea & Hm & E1 & _ & Ht). subst a. destruct (tiles_bounds _ _ _ _ _ Ht) as (Hle2 & _ & _).
  destruct g; [|apply (Hused (c + n + m)); [unfold is_block, NUMBLOCKS, LAST in *; lia|done..]].
  set (s := s1 ++ B c n false :: B (c + n) m true :: s2) in *.
  assert (B (c + n) m true ∈ s) as Hin by (unfold s; rewrite elem_split, elem_of_cons; tauto).
  destruct (inv_free_at V s fl (c + n) m Hi Hin) as (t1 & t2 & l1 & l2 & p & q & Hf).
  assert (t1 = s1 ++ [B c n false] ∧ t2 = s2) as [-> ->] by (unfold s in Hi, Hf; pose proof (fa_s _ _ _ _ _ _ _ _ _ _ _ Hf) as Es;
    destruct (block_unique V (s1 ++ [B c n false]) s2 t1 t2 (B (c + n) m true) (B (c + n) m true)) as (? & ? & _);
    [rewrite <- app_assoc; apply Hi|by rewrite <- app_assoc|done|done]).
  destruct (up_facts V s1 c n m s2 fl l1 l2 p q Hi Hf) as (_ & _ & Hcnm & _ & _ & _ & _ & E2 & E3 & Hpc & Hp & Hq).
  pose proof Hf as [_ _ Ep Eq _ _ _ _].
  assert (Forall write_ok (W_up c (c + n) (c + n + m) p q)) as Hok.
  { repeat constructor; cbn; unfold is_block, NUMBLOCKS, in_u in *; lia. }
  exists (upds h (W_up c (c + n) (c + n + m) p q)), (ap V (W_up c (c + n) (c + n + m) p q)), (l1 ++ l2).
  cbn [merge_up fst snd]. split_conj.
  - apply (exec_up_free h V); try done. lia.
  - by apply has_view_upds.
  - eapply up_inv; done.
  - pose proof (i_nadj _ _ _ Hi) as Hn. unfold s in Hn. rewrite fmap_app in Hn. cbn in Hn. apply nadj_app in Hn as [_ Hn].
    destruct s2 as [|x s2]; [done|]. cbn in Hn |- *. by destruct Hn as (_ & ? & _).
  - eapply harmless_kept; [done|done|done|].
    destruct (neighbour_nodes V s fl (c + n) m _ s2 l1 l2 p q Hi Hf) as (Hpn & Hqn & _).
    assert (B c n false ∈ s) as Hin2 by (unfold s; rewrite elem_split; tauto).
    unfold W_up, W_disconnect. cbn [app]. repeat (apply List.Forall_cons; [|]); try apply List.Forall_nil.
    + left. by apply (node_area V s fl Hi).
    + left. by apply (node_area V s fl Hi).
    + left. right. exists (B (c + n) m true). cbn. split_conj; (done || lia).
    + right; right. cbn. split; [lia|]. exists (B (c + n) m true). cbn. auto.
    + right; left. exists (B c n false). cbn. split_conj; (done || lia).
Qed.

(** The previous block, if any, is not free. *)
Definition merge_down (s1 : list blk) (c n : Z) : list blk :=
  match last s1 with
  | Some (B p m true) => removelast s1 ++ [B p (m + n) true]
  | _ => s1 ++ [B c n true]
  end.

(** The blocks after the block of [n] units at [c] is freed. *)
Definition freed (s1 : list blk) (c n : Z) (s2 : list blk) : list blk :=
  merge_down s1 c (merge_up n s2).1 ++ (merge_up n s2).2.

Section down.
  Context (V : view) (s0 : list blk) (p m c n : Z) (s2 : list blk) (fl : list Z).
  Context (Hi : inv V (s0 ++ B p m true :: B c n false :: s2) fl) (Hc : c = p + m) (Hnu : next_used s2).

Lemma down_inv : inv (ap V (W_down p (c + n) (flag true))) (s0 ++ B p (m + n) true :: s2) fl.
Proof.
  pose proof (i_tiles _ _ _ Hi) as Ht. rewrite Hc in Ht.
  destruct (tiles_at _ _ _ _ _ _ Ht) as [b [_ _ _ Ht2 Hb _ Ha _]]. cbn in Ht2. destruct Ht2 as (_ & Hn & _ & _ & Ht2).
  destruct (tiles_bounds _ _ _ _ _ Ht2) as (? & _ & _).
  unfold ap, W_down; cbn [foldl]. split.
  - vred. apply Hi.
  - eapply (tiles_merge V); [exact Ht|..].
    + vred. lia.
    + rewrite <- Hc. by vred.
    + intros z ? ?. by vred.
    + intros z ?. rewrite Hc. by vred.
  - vred. apply Hi.
  - apply (path_kept V); [apply Hi|..]; intros; by vred.
  - apply Hi.
  - intros z. rewrite (i_free _ _ _ Hi). split; intros [k Hk]; rewrite ?elem_split, ?elem_of_cons in Hk.
    + destruct Hk as [?|[[= -> ->]|[[=]|?]]]; [exists k|exists (m + n)|exists k]; rewrite elem_split; tauto.
    + destruct Hk as [?|[[= -> ->]|?]]; [exists k|exists m|exists k]; rewrite elem_split, elem_of_cons; tauto.
  - pose proof (i_nadj _ _ _ Hi) as Hnj. rewrite fmap_app in *. cbn in *. apply nadj_app in Hnj as [G1 G2].
    apply nadj_app. split; [done|]. destruct s2 as [|x s2']; [done|]. cbn in *.
    destruct G2 as (_ & _ & G2). split; [by rewrite Hnu|exact G2].
Qed.
End down.

Section push.
  Context (V : view) (s1 : list blk) (c n : Z) (s2 : list blk) (fl : list Z).
  Context (Hi : inv V (s1 ++ B c n false :: s2) fl) (Hnu : next_used s2)
    (Hpu : ∀ b, last s1 = Some b → fr b = false).

Lemma push_not_free : c ∉ fl ∧ c ≠ 0 ∧ c ≠ LAST.
Proof.
  destruct (tiles_at _ _ _ _ _ _ (i_tiles _ _ _ Hi)) as [b [_ _ _ _ Hb H1 H2 _]]. split_conj; [|lia|lia].
  intros Hc. apply (i_free _ _ _ Hi) in Hc as [k Hk]. rewrite elem_split in Hk.
  destruct Hk as [Hk|[[=]|Hk]]; [apply H1 in Hk|apply H2 in Hk]; cbn in Hk; lia.
Qed.

Lemma push_inv : inv (ap V (W_push c (V 0 2) (c + n))) (s1 ++ B c n true :: s2) (c :: fl).
Proof.
  destruct push_not_free as (Hnc & Hc0 & HcL). pose proof (i_path _ _ _ Hi) as Hp.
  assert (∃ f D, fl ++ [0] = f :: D ∧ V 0 2 = f ∧ path V (fl ++ [0])) as (f & D & ED & Ef & Hp').
  { destruct fl as [|d l]; cbn [app] in *; rewrite path_cons2 in Hp; naive_solver. }
  rewrite Ef. unfold ap, W_push; cbn [foldl]. assert (0 ≠ LAST) by done.
  assert (f = 0 ∨ f ∈ fl) as Hfin.
  { assert (f ∈ fl ++ [0]) as H0 by (rewrite ED; apply list_elem_of_here).
    apply elem_of_app in H0 as [?|?%list_elem_of_singleton]; auto. }
  assert (f ≠ c) as Hfc by (intros ->; destruct Hfin; done).
  assert (0 ∉ fl) as H0fl by (intros H0; apply (free_node_bounds _ _ _ _ Hi) in H0; lia).
  split.
  - vred. apply Hi.
  - eapply (tiles_flag V); [apply Hi|..].
    + by vred.
    + intros z ?. by vred.
    + intros z. by vred.
  - vred. apply Hi.
  - cbn [app]. rewrite ED, !path_cons2. split_conj; [by vred..|]. rewrite <- ED.
    apply (path_frame_nd V); [done| | |].
    + apply NoDup_app. split_conj; [apply Hi| |apply NoDup_singleton]. intros z Hz ->%list_elem_of_singleton. done.
    + intros z Hz Hl. rewrite last_snoc in Hl. assert (z ≠ 0) by congruence.
      assert (z ≠ c) by (intros ->; apply elem_of_app in Hz as [?|?%list_elem_of_singleton]; done). by vred.
    + intros z Hz Hh. rewrite ED in Hh. cbn in Hh. assert (z ≠ f) by congruence.
      assert (z ≠ c) by (intros ->; apply elem_of_app in Hz as [?|?%list_elem_of_singleton]; done). by vred.
  - apply NoDup_cons. split; [done|apply Hi].
  - intros z. rewrite elem_of_cons, (i_free _ _ _ Hi). split.
    + intros [->|[k Hk]]; [exists n; rewrite elem_split; tauto|]. exists k. rewrite elem_split in *.
      destruct Hk as [?|[[=]|?]]; tauto.
    + intros [k Hk]. rewrite elem_split in Hk. destruct Hk as [?|[[= -> ->]|?]]; [right|by left|right];
        exists k; rewrite elem_split; tauto.
  - pose proof (i_nadj _ _ _ Hi) as Hn. rewrite fmap_app in *. cbn in *. apply nadj_app in Hn as [G1 G2]. apply nadj_app. split.
    + destruct s1 as [|b s1'] using rev_ind; [done|]. specialize (Hpu b). rewrite last_snoc in Hpu. specialize (Hpu eq_refl).
      rewrite fmap_app in *. cbn in *. rewrite <- app_assoc in *. cbn [app] in *. apply nadj_app in G1 as [G1 _].
      apply nadj_app. split; [done|]. cbn. by rewrite Hpu.
    + destruct s2 as [|x s2']; [done|]. cbn in *. destruct G2 as [_ G2]. split; [by rewrite Hnu|exact G2].
Qed.
End push.

Lemma exec_push h V c y :
  has_view h V → is_block c → is_block (V 0 2) → V 0 2 ≠ c → c ≠ 0 → 0 ≤ y < 0x8000 → V c 0 = y →
  (f ← UMM_NFREE h 0; h ← set_PFREE h f c;
   f ← UMM_NFREE h 0; h ← set_NFREE h c f;
   h ← set_PFREE h c 0; h ← set_NFREE h 0 c;
   n ← UMM_NBLOCK h c; set_NBLOCK h c (n .| UMM_FREELIST_MASK)) = Ok (upds h (W_push c (V 0 2) y)).
Proof.
  intros Hv Hc Hf Hfc Hc0 Hy Ey. assert (is_block 0) by isb.
  assert (in_u 16 (y + flag true)) by (unfold in_u; cbn; lia).
  rd. wr. rd. wr. wr. wr. rd. rewrite Ey. unfold UMM_FREELIST_MASK. rewrite lor_mask by done.
  change (y + 0x8000) with (y + flag true). wr. done.
Qed.

(** The second stage of [umm_free], where the next block is not free any more. *)
Section stage2.
  Context (h : list Z) (V : view) (s1 : list blk) (c n : Z) (s2 : list blk) (fl : list Z).
  Context (Hv : has_view h V) (Hi : inv V (s1 ++ B c n false :: s2) fl) (Hnu : next_used s2).

Lemma stage2_here : B c n false ∈ s1 ++ B c n false :: s2 ∧ is_block c ∧ is_block (c + n) ∧ 1 ≤ c ∧ 1 ≤ n ∧ c + n ≤ LAST ∧ V c 0 = c + n.
Proof.
  destruct (tiles_at _ _ _ _ _ _ (i_tiles _ _ _ Hi)) as [p [_ E0 _ _ Hb _ _ _]]. cbn in E0. rewrite Z.add_0_r in E0.
  split; [rewrite elem_split; tauto|]. unfold is_block, NUMBLOCKS, LAST in *. split_conj; (done || lia).
Qed.

Lemma push_stage : (∀ b, last s1 = Some b → fr b = false) →
  ∃ h' V' fl',
    (f ← UMM_NFREE h 0; h ← set_PFREE h f c;
     f ← UMM_NFREE h 0; h ← set_NFREE h c f;
     h ← set_PFREE h c 0; h ← set_NFREE h 0 c;
     n ← UMM_NBLOCK h c; set_NBLOCK h c (n .| UMM_FREELIST_MASK)) = Ok h' ∧
    has_view h' V' ∧ inv V' (s1 ++ B c n true :: s2) fl' ∧ data_kept_but c (s1 ++ B c n false :: s2) h h'.
Proof.
  intros Hpu. destruct stage2_here as (Hin & Hc & Hcn & ? & ? & ? & E0).
  destruct (push_not_free V s1 c n s2 fl Hi) as (Hnc & Hc0 & _).
  assert (V 0 2 = 0 ∨ V 0 2 ∈ fl) as Hf0.
  { pose proof (i_path _ _ _ Hi) as Hp0. destruct fl as [|d l]; cbn [app] in Hp0; rewrite path_cons2 in Hp0;
      destruct Hp0 as [-> _]; [by left|right; apply list_elem_of_here]. }
  assert (is_block (V 0 2)) as Hb0.
  { destruct Hf0 as [->|Hf0]; [isb|]. apply (free_node_bounds _ _ _ _ Hi) in Hf0. unfold is_block, NUMBLOCKS, LAST in *. lia. }
  assert (V 0 2 ≠ c) by (intros Eq0; rewrite Eq0 in Hf0; destruct Hf0; done).
  rewrite (exec_push h V c (c + n)) by (done || unfold LAST in *; lia). do 3 eexists. split; [done|].
  assert (Forall write_ok (W_push c (V 0 2) (c + n))) as Hok.
  { repeat constructor; cbn; unfold is_block, NUMBLOCKS, in_u in *; lia. }
  split_conj; [by apply has_view_upds|by apply push_inv|].
  apply (harmless_kept h V _ fl c); [done|done|done|]. repeat (apply List.Forall_cons; [|]); try apply List.Forall_nil;
    first [left; by apply (node_area V _ fl Hi)|left; by left
          |right; left; exists (B c n false); cbn; split_conj; (done || lia)].
Qed.

Lemma merge_stage s0 p m : s1 = s0 ++ [B p m true] → p + m = c → V c 1 = p → 0 ≤ p < c → 1 ≤ m →
  ∃ h' V' fl', umm_assimilate_down h c UMM_FREELIST_MASK = Ok (h', p) ∧
    has_view h' V' ∧ inv V' (s0 ++ B p (m + n) true :: s2) fl' ∧ data_kept_but c (s1 ++ B c n false :: s2) h h'.
Proof.
  intros E1 E2 Ep Hp Hm. destruct stage2_here as (Hin & Hc & Hcn & ? & ? & ? & E0).
  assert (is_block p) by (unfold is_block in *; lia).
  assert (s1 ++ B c n false :: s2 = s0 ++ B p m true :: B c n false :: s2) as Es by (rewrite E1, <- app_assoc; done).
  change UMM_FREELIST_MASK with (flag true). rewrite (exec_down h V c p (c + n) true) by (done || lia).
  do 3 eexists. split; [done|].
  assert (Forall write_ok (W_down p (c + n) (flag true))) as Hok.
  { repeat constructor; cbn; unfold is_block, NUMBLOCKS, in_u in *; lia. }
  split_conj; [by apply has_view_upds|rewrite Es in Hi; by apply down_inv|].
  apply (harmless_kept h V _ fl c); [done|done|done|]. repeat (apply List.Forall_cons; [|]); try apply List.Forall_nil.
  - left. right. exists (B p m true). rewrite Es, elem_split. cbn. split_conj; (tauto || lia).
  - right; right. cbn. split; [lia|]. exists (B c n false). cbn. auto.
Qed.

Lemma down_stage :
  ∃ h' V' fl', (p ← UMM_PBLOCK h c; pn ← UMM_NBLOCK h p;
    if ctrue (pn & UMM_FREELIST_MASK) then r ← umm_assimilate_down h c UMM_FREELIST_MASK; Ok r.1
    else
      f ← UMM_NFREE h 0; h ← set_PFREE h f c;
      f ← UMM_NFREE h 0; h ← set_NFREE h c f;
      h ← set_PFREE h c 0; h ← set_NFREE h 0 c;
      n ← UMM_NBLOCK h c; set_NBLOCK h c (n .| UMM_FREELIST_MASK)) = Ok h' ∧
    has_view h' V' ∧ inv V' (merge_down s1 c n ++ s2) fl' ∧ data_kept_but c (s1 ++ B c n false :: s2) h h'.
Proof.
  destruct (tiles_at _ _ _ _ _ _ (i_tiles _ _ _ Hi)) as [p [_ _ Ep _ Hb _ _ Hlast]].
  assert (is_block p ∧ is_block c) as [Hp Hc] by (unfold is_block, NUMBLOCKS, LAST in *; lia).
  rewrite (ex_PBLOCK h V Hv c Hc), Ep. cbn [mbind outcome_bind]. rewrite (ex_NBLOCK h V Hv p Hp). cbn [mbind outcome_bind].
  assert (∀ g, V p 0 = c + flag g → ctrue (V p 0 & UMM_FREELIST_MASK) = g) as Hflag.
  { intros g ->. apply mask_free. unfold LAST in *. lia. }
  unfold merge_down. destruct Hlast as [[E1 E2]|(s0 & m & [|] & E1 & E2 & Hm & E3)].
  - assert (ctrue (V p 0 & UMM_FREELIST_MASK) = false) as -> by (rewrite E2, (i_head _ _ _ Hi); done).
    assert (last s1 = None) as -> by (by rewrite E1).
    rewrite <- app_assoc. apply push_stage. intros b. by rewrite E1.
  - rewrite (Hflag true E3). destruct (merge_stage s0 p m) as (h' & V' & fl' & -> & H1 & H2 & H3); [done|done|done|lia|done|].
    exists h', V', fl'. assert (last s1 = Some (B p m true) ∧ removelast s1 = s0) as [-> ->]
      by (by rewrite E1, last_snoc, removelast_last). by rewrite <- app_assoc.
  - rewrite (Hflag false E3). assert (last s1 = Some (B p m false)) as -> by (by rewrite E1, last_snoc).
    rewrite <- app_assoc. apply push_stage. intros b.
    rewrite E1, last_snoc. by intros [= <-].
Qed.
End stage2.

(** ** The allocator's interface *)

(** The allocator is set up and its heap holds the blocks [s]. *)
Definition heap_state (u : umm) (s : list blk) : Prop :=
  umm_heap u = true ∧ umm_numblocks u = NUMBLOCKS ∧ ∃ V fl, has_view (mem u) V ∧ inv V s fl.

Lemma free_block_spec h V s1 c n s2 fl :
  has_view h V → inv V (s1 ++ B c n false :: s2) fl →
  ∃ h' V' fl', free_block h c = Ok h' ∧ has_view h' V' ∧ inv V' (freed s1 c n s2) fl' ∧
    data_kept_but c (s1 ++ B c n false :: s2) h h'.
Proof.
  intros Hv Hi. unfold free_block. destruct (up_stage h V s1 c n s2 fl Hv Hi) as (h1 & V1 & fl1 & -> & Hv1 & Hi1 & Hnu & D1).
  cbn [mbind outcome_bind]. destruct (down_stage h1 V1 s1 c _ _ fl1 Hv1 Hi1 Hnu) as (h2 & V2 & fl2 & -> & Hv2 & Hi2 & D2).
  exists h2, V2, fl2. split_conj; [done|done|done|]. intros b i Hb Hu Hc Hp. etrans; [apply (D2 b i)|apply (D1 b i)]; try done.
  rewrite elem_split in Hb |- *. destruct Hb as [?|[->|Hb]]; [by left|done|right; right].
  unfold merge_up. destruct s2 as [|[a m [|]] s2]; try done. cbn. apply elem_of_cons in Hb as [->|?]; done.
Qed.

Definition init_view : view := fun _ _ => 0.
Definition init_blocks : list blk := [B 1 0x1ffe true].

Lemma zget_zeros n i : zget (replicate n 0) i = 0.
Proof. unfold zget. destruct (_ !! _) eqn:E; [|done]. by apply lookup_replicate in E as [-> _]. Qed.

Lemma zeros_view n : Z.of_nat n = UMM_MALLOC_CFG_HEAP_SIZE → has_view (replicate n 0) init_view.
Proof.
  intros Hn. split; [split|].
  - unfold zlen. by rewrite length_replicate.
  - by apply Forall_replicate.
  - intros b k _ _. unfold fld. by rewrite !zget_zeros.
Qed.

Lemma umm_init_spec u : ∃ u', umm_init u = Ok u' ∧ heap_state u' init_blocks.
Proof.
  unfold umm_init. change (u16 (UMM_MALLOC_CFG_HEAP_SIZE / BLOCK_SIZE)) with NUMBLOCKS.
  change (u16 (NUMBLOCKS - 1)) with LAST. cbv zeta.
  assert (Z.of_nat (Z.to_nat UMM_MALLOC_CFG_HEAP_SIZE) = UMM_MALLOC_CFG_HEAP_SIZE) as Hn by (apply Z2Nat.id; unfold UMM_MALLOC_CFG_HEAP_SIZE; lia).
  revert Hn. generalize (Z.to_nat UMM_MALLOC_CFG_HEAP_SIZE). intros n Hn. apply zeros_view in Hn as Hv.
  revert Hv. generalize (replicate n 0). intros h0 Hv.
  assert (is_block 0 ∧ is_block 1 ∧ is_block LAST) as (? & ? & ?) by (unfold LAST; repeat split; isb).
  change (LAST .| UMM_FREELIST_MASK) with (LAST + flag true). assert (in_u 16 (LAST + flag true)) by done.
  do 9 wr. eexists. split; [done|]. unfold heap_state. split_conj; [done|done|]. cbn [mem]. do 2 eexists. split; [exact Hv|].
  assert (0 ≠ LAST ∧ 1 ≠ LAST) as [? ?] by done.
  instantiate (1 := [1]). split.
  - by vred.
  - cbn. split_conj; by vred.
  - by vred.
  - cbn. split_conj; by vred.
  - apply NoDup_singleton.
  - intros c. unfold init_blocks. rewrite list_elem_of_singleton. split.
    + intros ->. exists 0x1ffe. apply list_elem_of_here.
    + intros [m Hm]. apply list_elem_of_singleton in Hm. congruence.
  - done.
Qed.

(** The blocks a request finds: those of the heap, or of a fresh heap before the first call. *)
Definition usable (u : umm) (s : list blk) : Prop :=
  heap_state u s ∨ umm_heap u = false ∧ s = init_blocks.

Lemma ensure_init_spec u s : usable u s → ∃ u', ensure_init u = Ok u' ∧ heap_state u' s ∧ (umm_heap u = true → u' = u).
Proof.
  intros [H|[E ->]]; unfold ensure_init.
  - destruct H as (E & H). exists u. rewrite E. split_conj; [done|by split|done].
  - rewrite E. destruct (umm_init_spec u) as (u' & -> & H). exists u'. done.
Qed.

(** The number of 8-byte units of a request, header included. *)
Definition units (size : Z) : Z := (size + 11) / 8.

Lemma umm_blocks_units size : 0 < size ≤ 524276 →
  umm_blocks size = units size ∧ 0 < units size < 65536 ∧ size ≤ 8 * units size - 4.
Proof.
  intros Hs. unfold umm_blocks, units, BODY_SIZE, BLOCK_SIZE. case_bool.
  - split_conj; try zdiv.
  - rewrite (wrap_small 64) by (unfold in_u; lia).
    assert (2 + (size - (1 + 4)) / 8 = (size + 11) / 8) as -> by zdiv.
    rewrite wrap_small by (unfold in_u; change (2 ^ 16) with 65536; zdiv). split_conj; zdiv.
Qed.

(** The outcome of [umm_malloc] on a heap with blocks [s]. *)
Definition malloc_result (u : umm) (s : list blk) (size : Z) (u' : umm) (r : option Z) : Prop :=
  match r with
  | None => heap_state u' s ∧ ∀ c n, B c n true ∈ s → n < units size
  | Some ptr =>
      ∃ s1 c n s2, s = s1 ++ B c n true :: s2 ∧ ptr = 8 * c + 4 ∧
        units size ≤ n ∧ size ≤ 8 * units size - 4 ∧
        (∀ c' n', B c' n' true ∈ s → units size ≤ n' → n ≤ n') ∧
        heap_state u' (s1 ++ carved c n (units size) ++ s2) ∧
        (umm_heap u = true → data_kept s (mem u) (mem u'))
  end.

Lemma umm_malloc_spec u s size :
  usable u s → 0 < size ≤ 524276 → ∃ u' r, umm_malloc u size = Ok (u', r) ∧ malloc_result u s size u' r.
Proof.
  intros Hu Hs. destruct (ensure_init_spec u s Hu) as (u1 & E1 & (Hh & Hn & V & fl & Hv & Hi) & Hsame).
  destruct (umm_blocks_units size Hs) as (Eb & Hk & Hfit).
  unfold umm_malloc. rewrite E1. cbn [mbind outcome_bind]. rewrite (proj2 (Z.eqb_neq size 0)) by lia.
  rewrite Hn, Eb. destruct (malloc_blocks_spec (mem u1) V s fl (units size)) as (h' & r & -> & Hpost); [done|done|lia|].
  cbn [mbind outcome_bind fst snd]. do 2 eexists. split; [done|]. destruct r as [ptr|]; cbn [malloc_post] in Hpost.
  - destruct Hpost as (s1 & c & n & s2 & V' & fl' & Es & -> & Hkn & Hmin & Hv' & Hi' & Hd).
    exists s1, c, n, s2. split_conj; try done. { rewrite Hh. unfold heap_state. split_conj; [done|done|]. by exists V', fl'. }
    cbn [mem]. intros Hi0. by rewrite <- (Hsame Hi0).
  - destruct Hpost as [-> Hnone]. split; [|done]. rewrite Hh. unfold heap_state. split_conj; [done|done|]. by exists V, fl.
Qed.



Lemma block_of_data c : 0 ≤ c < 0x2000 → block_of (UMM_DATA c) = c.
Proof.
  intros Hc. unfold block_of, UMM_DATA, BLOCK_SIZE. rewrite (wrap_small 64) by (unfold in_u; lia).
  replace ((8 * c + 4) / 8) with c by zdiv. apply wrap_small. unfold in_u. lia.
Qed.

Lemma umm_free_spec (u : umm) (s1 : list blk) (c n : Z) (s2 : list blk) :
  heap_state u (s1 ++ B c n false :: s2) →
  ∃ u', umm_free u (Some (8 * c + 4)) = Ok u' ∧ heap_state u' (freed s1 c n s2) ∧
    data_kept_but c (s1 ++ B c n false :: s2) (mem u) (mem u').
Proof.
  intros (Hh & Hn & V & fl & Hv & Hi). unfold umm_free. rewrite Hh.
  destruct (tiles_at _ _ _ _ _ _ (i_tiles _ _ _ Hi)) as [p [_ _ _ _ Hb _ _ _]]. unfold LAST in Hb.
  change (8 * c + 4) with (UMM_DATA c). rewrite block_of_data by lia.
  destruct (free_block_spec (mem u) V s1 c n s2 fl Hv Hi) as (h' & V' & fl' & -> & Hv' & Hi' & Hd).
  cbn [mbind outcome_bind]. eexists. split; [done|]. split; [|done]. rewrite Hn. unfold heap_state. split_conj; [done|done|]. by exists V', fl'.
Qed.

(** C14: Freeing the data pointer of a used block: the block is merged with the
    neighbours that are free, the heap stays well formed (no two free
    neighbours) and the data of the other used blocks is untouched. *)
Theorem umm_free_correct (u : umm) (s1 : list blk) (c n : Z) (s2 : list blk) :
  heap_state u (s1 ++ B c n false :: s2) →
  ∃ u', umm_free u (Some (8 * c + 4)) = Ok u' ∧ heap_state u' (freed s1 c n s2) ∧
    data_kept_but c (s1 ++ B c n false :: s2) (mem u) (mem u').
Proof. apply umm_free_spec. Qed.

(** A well-formed heap with one used block, for the witnesses. *)
Lemma one_block : ∃ u, umm_malloc umm_start 100 = Ok (u, Some 12) ∧ heap_state u [B 1 13 false; B 14 0x1ff1 true].
Proof.
  destruct (ensure_init_spec umm_start init_blocks) as (u1 & E1 & (Hh & Hn & V & fl & Hv & Hi) & _); [right; split; reflexivity|].
  unfold umm_malloc. rewrite E1. clear E1. cbn [mbind outcome_bind Z.eqb]. rewrite Hn.
  change (umm_blocks 100) with 13.
  destruct (malloc_blocks_spec (mem u1) V init_blocks fl 13) as (h' & r & -> & Hpost); [done|done|lia|].
  cbn [mbind outcome_bind fst snd]. destruct r as [ptr|]; cbn [malloc_post] in Hpost.
  - destruct Hpost as (s1 & c & n & s2 & V' & fl' & Es & -> & _ & _ & Hv' & Hi' & _).
    assert (s1 = [] ∧ c = 1 ∧ n = 0x1ffe ∧ s2 = []) as (-> & -> & -> & ->).
    { unfold init_blocks in Es. destruct s1 as [|x s1]; cbn [app] in Es; [by injection Es as <- <- <-|].
      injection Es as _ Es. by apply app_cons_not_nil in Es. }
    eexists. split; [done|]. rewrite Hh. unfold heap_state. split_conj; [done|done|]. by exists V', fl'.
  - destruct Hpost as [_ Hnone]. specialize (Hnone 1 0x1ffe ltac:(apply list_elem_of_here)). lia.
Qed.

Lemma umm_free_correct_witness :
  ∃ u u', umm_malloc umm_start 100 = Ok (u, Some 12) ∧ umm_free u (Some 12) = Ok u' ∧ heap_state u' init_blocks.
Proof.
  destruct one_block as (u & E & H).
  destruct (umm_free_correct u [] 1 13 [B 14 0x1ff1 true]) as (u' & E' & H' & _); [exact H|].
  exists u, u'. split; [exact E|]. split; [exact E'|exact H'].
Defined.

(** Carving a block and freeing the part undo each other. *)
Lemma freed_carved s1 c n s2 k :
  nadj (fr <$> s1 ++ B c n true :: s2) → 0 < k ≤ n →
  freed s1 c (if n =? k then n else k) (if n =? k then s2 else B (c + k) (n - k) true :: s2) = s1 ++ B c n true :: s2.
Proof.
  intros Hn Hk. rewrite fmap_app in Hn. cbn in Hn. apply nadj_app in Hn as [H1 H2].
  assert (merge_up (if n =? k then n else k) (if n =? k then s2 else B (c + k) (n - k) true :: s2) = (n, s2)) as E.
  { case_bool; cbn; [|f_equal; lia]. destruct s2 as [|[a m [|]] s2]; try done. cbn in H2. by destruct H2. }
  unfold freed. rewrite E. cbn. unfold merge_down.
  assert (match last s1 with Some (B p m true) => removelast s1 ++ [B p (m + n) true] | _ => s1 ++ [B c n true] end
    = s1 ++ [B c n true]) as ->; [|by rewrite <- app_assoc].
  destruct s1 as [|[p m f] s1] using rev_ind; [done|]. rewrite last_snoc. destruct f; [|done].
  rewrite fmap_app, <- app_assoc in H1. cbn in H1. apply nadj_app in H1 as [_ H1]. cbn in H1. naive_solver.
Qed.



(** The number of units is kept in 16 bits: a request of 524277 bytes is
    taken for one of 0 units, and [umm_malloc] returns a pointer into the
    heap of 65536 bytes and leaves a block list that loops at its first block. *)
Theorem umm_malloc_truncates :
  ∃ u, umm_malloc umm_start 524277 = Ok (u, Some 12) ∧ UMM_NBLOCK (mem u) 1 = Ok 1.
Proof.
  assert ((r ← umm_malloc umm_start 524277; n ← UMM_NBLOCK (mem r.1) 1; Ok (r.2, n)) = Ok (Some 12, 1)) as H
    by (vm_compute; reflexivity).
  apply bind_Ok_inv in H as ([u p] & E & H). apply bind_Ok_inv in H as (n & E1 & H). cbn [fst snd] in *.
  injection H as -> ->. exists u. split; [exact E|exact E1].
Qed.

End Umm.
