(* ===== verification/CsMcInst.v ===== *)
(** * Capstone: machine instructions ([Lilu.kext/capstone/MCInst.c])

    The operand array of [MCInst] and its operations, and their meaning as
    operations on the list of the first [size] operands. *)

From Stdlib Require Import ZArith Lia.
From S2P Require Import Prelude.

Module McInst.

Open Scope c_scope.

(** ** Model *)

Definition kInvalid := 0.
Definition kRegister := 1.
Definition kImmediate := 2.
Definition kFPImmediate := 3.

(** [MCOperand]; the union is its 64 bits, a double by its representation. *)
Record MCOperand := mkOp { Kind : Z; bits : Z }.

(** [MCInst] without its pointers and its address, which is that of the
    public instruction. *)
Record MCInst := mkInst {
  OpcodePub : Z;
  size : Z;
  has_imm : bool;
  op1_size : Z;
  Opcode : Z;
  Operands : list MCOperand;
  x86opsize : Z;
  x86_prefix : list Z;
  imm_size : Z;
  writeback : bool
}.

Definition MAX_OPERANDS := 48.
(** [MCINST_CACHE] *)
Definition MCINST_CACHE := MAX_OPERANDS - 1.

Definition set_Operands (inst : MCInst) (ops : list MCOperand) : MCInst :=
  mkInst (OpcodePub inst) (size inst) (has_imm inst) (op1_size inst) (Opcode inst) ops (x86opsize inst) (x86_prefix inst) (imm_size inst) (writeback inst).
Definition set_size (inst : MCInst) (n : Z) : MCInst :=
  mkInst (OpcodePub inst) n (has_imm inst) (op1_size inst) (Opcode inst) (Operands inst) (x86opsize inst) (x86_prefix inst) (imm_size inst) (writeback inst).

Definition set_Kind (op : MCOperand) (k : Z) : MCOperand := mkOp k (bits op).

Definition MCInst_Init (inst : MCInst) : outcome MCInst :=
  ops ← cfor 48 0 (fun i ops => op ← aget ops i; aset ops i (set_Kind op kInvalid)) (Operands inst);
  Ok (mkInst 0 0 false 0 0 ops (x86opsize inst) (x86_prefix inst) (imm_size inst) false).

Definition MCInst_clear (inst : MCInst) : MCInst := set_size inst 0.

(** [for (i = inst->size; i > index; i--) Operands[i] = Operands[i-1];] *)
Fixpoint shift_loop (n : nat) (ops : list MCOperand) (i : Z) : outcome (list MCOperand) :=
  match n with
  | O => Ok ops
  | S n => op ← aget ops (i - 1); ops ← aset ops i op; shift_loop n ops (i - 1)
  end.

(** An [MCOperand *] argument: an object outside the instruction, or one of
    the instruction's own slots (as returned by [CreateReg1]/[CreateImm1]). *)
Inductive opref :=
| Outside (op : MCOperand)
| Slot (i : Z).

Definition deref (ops : list MCOperand) (r : opref) : outcome MCOperand :=
  match r with Outside op => Ok op | Slot i => aget ops i end.

(** [*Op] is read after the shift, so an operand kept in a slot the shift
    overwrites is read from the shifted array. *)
Definition MCInst_insert0 (inst : MCInst) (index : Z) (Op : opref) : outcome MCInst :=
  ops ← shift_loop (Z.to_nat (size inst - index)) (Operands inst) (size inst);
  op ← deref ops Op;
  ops ← aset ops index op;
  Ok (set_size (set_Operands inst ops) (u8 (size inst + 1))).

Definition MCInst_setOpcode (inst : MCInst) (Op : Z) : MCInst :=
  mkInst (OpcodePub inst) (size inst) (has_imm inst) (op1_size inst) Op (Operands inst) (x86opsize inst) (x86_prefix inst) (imm_size inst) (writeback inst).
Definition MCInst_setOpcodePub (inst : MCInst) (Op : Z) : MCInst :=
  mkInst Op (size inst) (has_imm inst) (op1_size inst) (Opcode inst) (Operands inst) (x86opsize inst) (x86_prefix inst) (imm_size inst) (writeback inst).
Definition MCInst_getOpcode (inst : MCInst) : Z := Opcode inst.
Definition MCInst_getOpcodePub (inst : MCInst) : Z := OpcodePub inst.

Definition MCInst_getOperand (inst : MCInst) (i : Z) : outcome MCOperand := aget (Operands inst) i.
Definition MCInst_getNumOperands (inst : MCInst) : Z := size inst.

Definition MCInst_addOperand2 (inst : MCInst) (Op : opref) : outcome MCInst :=
  op ← deref (Operands inst) Op;
  ops ← aset (Operands inst) (size inst) op;
  Ok (set_size (set_Operands inst ops) (u8 (size inst + 1))).

Definition MCOperand_Init (op : MCOperand) : MCOperand := mkOp kInvalid 0.
Definition MCOperand_isValid (op : MCOperand) : bool := negb (Kind op =? kInvalid).
Definition MCOperand_isReg (op : MCOperand) : bool := Kind op =? kRegister.
Definition MCOperand_isImm (op : MCOperand) : bool := Kind op =? kImmediate.
Definition MCOperand_isFPImm (op : MCOperand) : bool := Kind op =? kFPImmediate.

(** The union: the register is its low 32 bits. *)
Definition MCOperand_getReg (op : MCOperand) : Z := u32 (bits op).
Definition MCOperand_setReg (op : MCOperand) (Reg : Z) : MCOperand :=
  mkOp (Kind op) (bits op - u32 (bits op) + u32 Reg).
Definition MCOperand_getImm (op : MCOperand) : Z := s64 (bits op).
Definition MCOperand_setImm (op : MCOperand) (Val : Z) : MCOperand := mkOp (Kind op) (u64 Val).
Definition MCOperand_getFPImm (op : MCOperand) : Z := bits op.
Definition MCOperand_setFPImm (op : MCOperand) (Val : Z) : MCOperand := mkOp (Kind op) Val.

(** The operand created in slot [i]. *)
Definition create_reg (inst : MCInst) (i Reg : Z) : outcome (list MCOperand) :=
  op ← aget (Operands inst) i;
  aset (Operands inst) i (MCOperand_setReg (set_Kind op kRegister) Reg).
Definition create_imm (inst : MCInst) (i Val : Z) : outcome (list MCOperand) :=
  op ← aget (Operands inst) i;
  aset (Operands inst) i (MCOperand_setImm (set_Kind op kImmediate) Val).

(** [CreateReg1] and [CreateImm1] use the last slot and return a pointer to it. *)
Definition MCOperand_CreateReg1 (inst : MCInst) (Reg : Z) : outcome (MCInst * opref) :=
  ops ← create_reg inst MCINST_CACHE Reg; Ok (set_Operands inst ops, Slot MCINST_CACHE).
Definition MCOperand_CreateReg0 (inst : MCInst) (Reg : Z) : outcome MCInst :=
  ops ← create_reg inst (size inst) Reg; Ok (set_size (set_Operands inst ops) (u8 (size inst + 1))).
Definition MCOperand_CreateImm1 (inst : MCInst) (Val : Z) : outcome (MCInst * opref) :=
  ops ← create_imm inst MCINST_CACHE Val; Ok (set_Operands inst ops, Slot MCINST_CACHE).
Definition MCOperand_CreateImm0 (inst : MCInst) (Val : Z) : outcome MCInst :=
  ops ← create_imm inst (size inst) Val; Ok (set_size (set_Operands inst ops) (u8 (size inst + 1))).

(** ** The operand list *)

Record inst_ok (inst : MCInst) : Prop := {
  ok_len : zlen (Operands inst) = MAX_OPERANDS;
  ok_size : 0 ≤ size inst ≤ MAX_OPERANDS;
  ok_bits : Forall (fun op => in_u 64 (bits op)) (Operands inst)
}.

(** The operands in use. *)
Definition operands (inst : MCInst) : list MCOperand := take (Z.to_nat (size inst)) (Operands inst).

Lemma take_insert_snoc {A} (l : list A) (n : nat) x :
  (n < length l)%nat → take (S n) (<[n := x]> l) = take n l ++ [x].
Proof.
  intros Hn. rewrite (take_S_r _ _ x) by (by apply list_lookup_insert_eq).
  by rewrite take_insert_ge by lia.
Qed.

(** A write to the next free slot appends to the list. *)
Lemma append_slot inst op :
  inst_ok inst → size inst < MAX_OPERANDS → in_u 64 (bits op) →
  ∃ ops, aset (Operands inst) (size inst) op = Ok ops ∧
    let inst' := set_size (set_Operands inst ops) (u8 (size inst + 1)) in
    inst_ok inst' ∧ operands inst' = operands inst ++ [op].
Proof.
  intros [Hl Hs Hb] Hlt Hop. unfold MAX_OPERANDS in *. rewrite aset_Ok by lia. eexists. split; [done|].
  cbv zeta. rewrite wrap_small by (unfold in_u; lia). split.
  - split; cbn; [by rewrite zlen_insert|unfold MAX_OPERANDS; lia|by apply Forall_insert].
  - unfold operands. cbn. replace (Z.to_nat (size inst + 1)) with (S (Z.to_nat (size inst))) by lia.
    apply take_insert_snoc. unfold zlen in Hl. lia.
Qed.

(** The operand array, whatever it holds. *)
Definition slots_ok (inst : MCInst) : Prop :=
  zlen (Operands inst) = MAX_OPERANDS ∧ Forall (fun op => in_u 64 (bits op)) (Operands inst).

(** An initialised instruction. *)
Definition blank (inst : MCInst) : Prop := inst_ok inst ∧ size inst = 0 ∧ OpcodePub inst = 0.

(** Initialisation only needs the operand array. *)
Lemma MCInst_Init_Ok inst : slots_ok inst → ∃ inst', MCInst_Init inst = Ok inst' ∧ blank inst'.
Proof.
  intros [Hl Hb]. unfold MCInst_Init.
  destruct (cfor_inv (fun _ ops => zlen ops = MAX_OPERANDS ∧ Forall (fun op => in_u 64 (bits op)) ops) 48 0
    (fun i ops => op ← aget ops i; aset ops i (set_Kind op kInvalid)) (Operands inst)) as (ops & -> & Hl' & Hb');
    [done| |eexists; split; [done|]; split; [by split|by split]].
  intros j ops Hj [Ho Hbo]. unfold MAX_OPERANDS in *. destruct (aget_is_Ok ops j) as [op Eop]; [lia|]. rewrite Eop.
  cbn [mbind outcome_bind]. rewrite aset_Ok by lia. eexists. split; [done|]. rewrite zlen_insert. split; [done|].
  apply Forall_insert; [done|]. apply aget_Ok_inv in Eop as [_ Eop]. exact (Forall_lookup_1 _ _ _ _ Hbo Eop).
Qed.

Lemma setReg_bits op r : in_u 64 (bits op) → in_u 64 (bits (MCOperand_setReg op r)).
Proof. unfold in_u, MCOperand_setReg. cbn. intros H. unfold wrap. zdiv. Qed.

Lemma getReg_setReg op r : in_u 32 r → MCOperand_getReg (MCOperand_setReg op r) = r.
Proof. unfold in_u, MCOperand_getReg, MCOperand_setReg. cbn. intros H. unfold wrap. zdiv. Qed.

Lemma getImm_setImm op v : - 2 ^ 63 ≤ v < 2 ^ 63 → MCOperand_getImm (MCOperand_setImm op v) = v.
Proof. intros H. unfold MCOperand_getImm, MCOperand_setImm. cbn. rewrite swrap_wrap by lia. by apply swrap_small. Qed.

Lemma slot_bits inst op : inst_ok inst → aget (Operands inst) (size inst) = Ok op → in_u 64 (bits op).
Proof. intros [_ _ Hb] [_ H]%aget_Ok_inv. by eapply Forall_lookup_1 in Hb. Qed.

(** The three ways of adding an operand append it to the operand list:
    with room for it, [addOperand2], [CreateReg0] and [CreateImm0] succeed and
    the new last operand is the given one, a register or an immediate that
    reads back with its kind and value. *)
Theorem add_operand_appends (inst : MCInst) (op : MCOperand) (reg imm : Z) :
  inst_ok inst → size inst < MAX_OPERANDS →
  in_u 64 (bits op) → in_u 32 reg → - 2 ^ 63 ≤ imm < 2 ^ 63 →
  (∃ i', MCInst_addOperand2 inst (Outside op) = Ok i' ∧ inst_ok i' ∧ operands i' = operands inst ++ [op]) ∧
  (∃ i' r, MCOperand_CreateReg0 inst reg = Ok i' ∧ inst_ok i' ∧ operands i' = operands inst ++ [r] ∧
     MCOperand_isReg r = true ∧ MCOperand_getReg r = reg) ∧
  (∃ i' r, MCOperand_CreateImm0 inst imm = Ok i' ∧ inst_ok i' ∧ operands i' = operands inst ++ [r] ∧
     MCOperand_isImm r = true ∧ MCOperand_getImm r = imm).
Proof.
  intros Hi Hlt Hop Hr Hv. pose proof Hi as [Hl Hs _].
  destruct (aget_is_Ok (Operands inst) (size inst)) as [o Ho]; [lia|]. pose proof (slot_bits inst o Hi Ho) as Hob.
  split_conj.
  - unfold MCInst_addOperand2. cbn [deref mbind outcome_bind]. destruct (append_slot inst op) as (ops & -> & H1 & H2); [done..|]. by eexists.
  - unfold MCOperand_CreateReg0, create_reg. rewrite Ho. cbn [mbind outcome_bind].
    destruct (append_slot inst (MCOperand_setReg (set_Kind o kRegister) reg)) as (ops & -> & H1 & H2);
      [done|done|by apply setReg_bits|].
    do 2 eexists. split_conj; [done|done|exact H2|done|by apply getReg_setReg].
  - unfold MCOperand_CreateImm0, create_imm. rewrite Ho. cbn [mbind outcome_bind].
    destruct (append_slot inst (MCOperand_setImm (set_Kind o kImmediate) imm)) as (ops & -> & H1 & H2);
      [done|done|cbn; auto with cint|].
    do 2 eexists. split_conj; [done|done|exact H2|done|by apply getImm_setImm].
Qed.

(** An instruction with two operands in use, for the examples. *)
Definition inst0 : MCInst :=
  mkInst 0 2 false 0 7 (mkOp kRegister 5 :: mkOp kImmediate 9 :: replicate 46 (mkOp 0 0)) 0 [0; 0; 0; 0] 0 false.

Lemma inst0_ok : inst_ok inst0.
Proof. split; [done|vm_compute; done|]. apply (bool_decide_unpack _). by vm_compute. Defined.

Lemma add_operand_appends_witness :
  ∃ i', MCInst_addOperand2 inst0 (Outside (mkOp kImmediate 3)) = Ok i' ∧ inst_ok i' ∧
    operands i' = [mkOp kRegister 5; mkOp kImmediate 9; mkOp kImmediate 3].
Proof.
  pose proof (add_operand_appends inst0 (mkOp kImmediate 3) 1 (-1) inst0_ok) as [H _];
    [by vm_compute|unfold in_u; cbn; lia|unfold in_u; lia|lia|]. exact H.
Defined.

(** ** Insertion *)

Lemma shift_loop_spec n ops i :
  0 ≤ i - Z.of_nat n → i < zlen ops →
  ∃ ops', shift_loop n ops i = Ok ops' ∧ length ops' = length ops ∧
    ∀ j : nat, ops' !! j = if (i - Z.of_nat n <? Z.of_nat j) && (Z.of_nat j <=? i)
                           then ops !! (j - 1)%nat else ops !! j.
Proof.
  revert ops i. induction n as [|n IH]; intros ops i Hi Hl; cbn [shift_loop].
  - exists ops. split_conj; [done..|]. intros j. zcases; lia || done.
  - destruct (aget_is_Ok ops (i - 1)) as [op Hop]; [lia|]. rewrite Hop. cbn [mbind outcome_bind].
    rewrite aset_Ok by lia. cbn [mbind outcome_bind].
    destruct (IH (<[Z.to_nat i := op]> ops) (i - 1)) as (ops' & -> & Hl' & H);
      [lia|rewrite zlen_insert; lia|].
    exists ops'. split_conj; [done|by rewrite Hl', length_insert|]. intros j. rewrite H.
    apply aget_Ok_inv in Hop as [_ Hop]. unfold zlen in Hl.
    destruct (decide (j = Z.to_nat i)) as [->|Hj].
    + zcases; try lia. rewrite list_lookup_insert_eq by lia. rewrite <- Hop. f_equal. lia.
    + destruct (decide ((j - 1)%nat = Z.to_nat i)); [zcases; try lia; by rewrite list_lookup_insert_ne by lia|].
      rewrite !list_lookup_insert_ne by lia. zcases; lia || done.
Qed.

(** Insertion with the inserted operand known after the shift. *)
Lemma insert0_spec inst index r op :
  inst_ok inst → 0 ≤ index ≤ size inst → size inst < MAX_OPERANDS → in_u 64 (bits op) →
  (r = Outside op ∨ ∃ i, r = Slot i ∧ size inst < i ∧ Operands inst !! Z.to_nat i = Some op) →
  ∃ i', MCInst_insert0 inst index r = Ok i' ∧ inst_ok i' ∧
    operands i' = take (Z.to_nat index) (operands inst) ++ op :: drop (Z.to_nat index) (operands inst).
Proof.
  intros [Hl Hs Hb] Hi Hlt Hop Hr. unfold MAX_OPERANDS in *. unfold MCInst_insert0.
  destruct (shift_loop_spec (Z.to_nat (size inst - index)) (Operands inst) (size inst))
    as (ops & -> & Hlen & H); [lia..|]. cbn [mbind outcome_bind].
  replace (size inst - Z.of_nat (Z.to_nat (size inst - index))) with index in H by lia.
  assert (deref ops r = Ok op) as ->.
  { destruct Hr as [->|(i & -> & Hsi & Hi')]; [done|]. cbn. apply aget_Ok_inv. split; [lia|].
    rewrite H. zcases; lia || done. }
  cbn [mbind outcome_bind]. assert (zlen ops = 48) as Hzl by (unfold zlen in *; lia).
  rewrite aset_Ok by lia. eexists. split; [done|]. rewrite wrap_small by (unfold in_u; lia). split.
  - split; cbn; [by rewrite zlen_insert|unfold MAX_OPERANDS; lia|].
    apply Forall_insert; [|done]. apply Forall_lookup. intros j x Hj. rewrite H in Hj.
    destruct (_ && _); by eapply Forall_lookup_1 in Hb.
  - unfold operands. cbn. unfold zlen in *.
    apply list_eq. intros j. rewrite take_take, Nat.min_l by lia.
    destruct (Nat.lt_trichotomy j (Z.to_nat index)) as [Hj|[->|Hj]].
    + rewrite lookup_app_l by (rewrite length_take; lia).
      rewrite !lookup_take_lt by lia. rewrite list_lookup_insert_ne, H by lia. zcases; lia || done.
    + rewrite lookup_take_lt, list_lookup_insert_eq by lia.
      rewrite lookup_app_r by (rewrite length_take; lia). rewrite length_take, Nat.min_l by lia.
      by rewrite Nat.sub_diag.
    + rewrite lookup_app_r by (rewrite length_take; lia). rewrite length_take, Nat.min_l by lia.
      replace (j - Z.to_nat index)%nat with (S (j - 1 - Z.to_nat index)) by lia.
      rewrite lookup_cons, lookup_drop. replace (Z.to_nat index + (j - 1 - Z.to_nat index))%nat with (j - 1)%nat by lia.
      destruct (decide (j < Z.to_nat (size inst + 1))%nat).
      * rewrite !lookup_take_lt by lia. rewrite list_lookup_insert_ne, H by lia. zcases; lia || done.
      * by rewrite !lookup_take_ge by lia.
Qed.

(** Writing the scratch slot keeps the operands in use. *)
Lemma scratch_slot inst op :
  inst_ok inst → size inst < MCINST_CACHE → in_u 64 (bits op) →
  ∃ ops, aset (Operands inst) MCINST_CACHE op = Ok ops ∧
    inst_ok (set_Operands inst ops) ∧ operands (set_Operands inst ops) = operands inst ∧
    ops !! Z.to_nat MCINST_CACHE = Some op.
Proof.
  intros [Hl Hs Hb] Hlt Hop. unfold MCINST_CACHE, MAX_OPERANDS in *. rewrite aset_Ok by lia.
  eexists. split; [done|]. split_conj.
  - split; cbn; [by rewrite zlen_insert|done|by apply Forall_insert].
  - unfold operands. cbn. apply take_insert_ge. lia.
  - unfold zlen in Hl. by rewrite list_lookup_insert_eq by lia.
Qed.

(** [l] with [op] at position [index]. *)
Definition inserted (index : Z) (op : MCOperand) (l : list MCOperand) : list MCOperand :=
  take (Z.to_nat index) l ++ op :: drop (Z.to_nat index) l.

(** [MCInst_insert0] is insertion into the operand list, for an operand
    outside the instruction, and also for the register or immediate that
    [CreateReg1] or [CreateImm1] leaves in the last slot of the same
    instruction, as long as the shift does not reach that slot. *)
Theorem insert0_inserts (inst : MCInst) (index : Z) (op : MCOperand) (reg imm : Z) :
  inst_ok inst → 0 ≤ index ≤ size inst → size inst < MAX_OPERANDS →
  in_u 64 (bits op) → in_u 32 reg → - 2 ^ 63 ≤ imm < 2 ^ 63 →
  (∃ i', MCInst_insert0 inst index (Outside op) = Ok i' ∧ inst_ok i' ∧
     operands i' = inserted index op (operands inst)) ∧
  (size inst < MCINST_CACHE →
   (∃ i' o, ('(i, r) ← MCOperand_CreateReg1 inst reg; MCInst_insert0 i index r) = Ok i' ∧ inst_ok i' ∧
      operands i' = inserted index o (operands inst) ∧ MCOperand_isReg o = true ∧ MCOperand_getReg o = reg) ∧
   (∃ i' o, ('(i, r) ← MCOperand_CreateImm1 inst imm; MCInst_insert0 i index r) = Ok i' ∧ inst_ok i' ∧
      operands i' = inserted index o (operands inst) ∧ MCOperand_isImm o = true ∧ MCOperand_getImm o = imm)).
Proof.
  intros Hi Hx Hlt Hop Hr Hv. split; [apply insert0_spec; auto|]. intros Hc.
  assert (∀ o, in_u 64 (bits o) → ∃ ops i', aset (Operands inst) MCINST_CACHE o = Ok ops ∧
    MCInst_insert0 (set_Operands inst ops) index (Slot MCINST_CACHE) = Ok i' ∧ inst_ok i' ∧
    operands i' = inserted index o (operands inst)) as Hgen.
  { intros o Ho. destruct (scratch_slot inst o Hi Hc Ho) as (ops & Hs & H1 & H2 & H3).
    destruct (insert0_spec (set_Operands inst ops) index (Slot MCINST_CACHE) o)
      as (i' & H4 & H5 & H6); [done..|naive_solver|].
    exists ops, i'. by rewrite <- H2. }
  destruct (aget_is_Ok (Operands inst) MCINST_CACHE) as [o Ho];
    [destruct Hi as [-> _ _]; unfold MCINST_CACHE, MAX_OPERANDS; lia|].
  assert (in_u 64 (bits o)) as Hob.
  { destruct Hi as [_ _ Hb]. apply aget_Ok_inv in Ho as [_ Ho]. by eapply Forall_lookup_1 in Hb. }
  unfold MCOperand_CreateReg1, MCOperand_CreateImm1, create_reg, create_imm. rewrite Ho. cbn [mbind outcome_bind].
  split.
  - destruct (Hgen (MCOperand_setReg (set_Kind o kRegister) reg)) as (ops & i' & -> & H1 & H2 & H3);
      [by apply setReg_bits|]. cbn [mbind outcome_bind]. do 2 eexists. split_conj; [done..|by apply getReg_setReg].
  - destruct (Hgen (MCOperand_setImm (set_Kind o kImmediate) imm)) as (ops & i' & -> & H1 & H2 & H3);
      [cbn; auto with cint|]. cbn [mbind outcome_bind]. do 2 eexists. split_conj; [done..|by apply getImm_setImm].
Qed.

Lemma insert0_inserts_witness :
  ∃ i', MCInst_insert0 inst0 1 (Outside (mkOp kImmediate 3)) = Ok i' ∧ inst_ok i' ∧
    operands i' = [mkOp kRegister 5; mkOp kImmediate 3; mkOp kImmediate 9].
Proof.
  pose proof (insert0_inserts inst0 1 (mkOp kImmediate 3) 1 (-1) inst0_ok) as [H _];
    [cbn; lia|by vm_compute|unfold in_u; cbn; lia|unfold in_u; lia|lia|]. exact H.
Defined.

(** With 47 operands in use the shift overwrites the scratch slot before it
    is read: the operand inserted is the old last one. *)
Definition inst47 : MCInst :=
  mkInst 0 47 false 0 7 (replicate 46 (mkOp kRegister 1) ++ [mkOp kRegister 2; mkOp 0 0]) 0 [0; 0; 0; 0] 0 false.

Example insert0_scratch_overwritten :
  ('(i, r) ← MCOperand_CreateReg1 inst47 9; i' ← MCInst_insert0 i 0 r; MCInst_getOperand i' 0)
  = Ok (mkOp kRegister 2).
Proof. reflexivity. Qed.

End McInst.
