(* ===== verification/CsUtils.v ===== *)
(** * Capstone: shared helpers ([Lilu.kext/capstone/utils.c], [utils.h])

    The instruction-id cache behind [insn_find], name lookup, the length of
    zero-terminated lists, string duplication and bounded formatting.  The
    allocator ([cs_mem_malloc], a function pointer the client of the library
    installs) is an argument: it maps a size in bytes to [NULL] or to the
    initial contents of a block, which C leaves unspecified. *)

From Stdlib Require Import ZArith Lia.
From S2P Require Import Prelude.

Module Utils.

Open Scope c_scope.

(** ** Model *)

(** Threshold above which numbers are printed in hexadecimal. *)
Definition HEX_THRESHOLD := 9.

Record insn_map := mkInsnMap {
  im_id : Z;
  im_mapid : Z;
  regs_use : list Z;
  regs_mod : list Z;
  im_groups : list Z;
  branch : bool;
  indirect_branch : bool
}.

(** [name] is [None] for a [NULL] pointer; the bytes exclude the final NUL. *)
Record name_map := mkNameMap { nm_id : Z; nm_name : option (list Z) }.

(** [p[i] = v] where [p] may be [NULL]. *)
Definition ptr_set (p : option (list Z)) (i v : Z) : outcome (option (list Z)) :=
  match p with None => Ub | Some l => l ← aset l i v; Ok (Some l) end.

Definition ptr_get (p : option (list Z)) (i : Z) : outcome Z :=
  match p with None => Ub | Some l => aget l i end.

(** [for (i = 1; i < size; i++) cache[insns[i].id] = i;] with a 16-bit [i]. *)
Fixpoint fill_loop (fuel : nat) (insns : list insn_map) (size i : Z)
    (cache : option (list Z)) : outcome (option (list Z)) :=
  if i <? size then
    match fuel with
    | O => NoFuel
    | S fuel =>
        m ← aget insns i;
        cache ← ptr_set cache (im_id m) i;
        fill_loop fuel insns size (u16 (i + 1)) cache
    end
  else Ok cache.

(** The allocated array of [unsigned short], by its elements. *)
Definition make_id2insn (malloc : Z → option (list Z)) (insns : list insn_map) (size : Z)
    : outcome (option (list Z)) :=
  last ← aget insns (u32 (size - 1));
  let max_id := im_id last in
  let cache := malloc (2 * (max_id + 1)) in
  fill_loop (Z.to_nat size) insns size 1 cache.

(** The index found and the updated [*cache]. *)
Definition insn_find (malloc : Z → option (list Z)) (insns : list insn_map) (max id : Z)
    (cache : option (list Z)) : outcome (Z * option (list Z)) :=
  last ← aget insns (u32 (max - 1));
  if im_id last <? id then Ok (0, cache) else
  cache ← match cache with None => make_id2insn malloc insns max | Some _ => Ok cache end;
  i ← ptr_get cache id;
  Ok (i, cache).

Fixpoint name2id_loop (fuel : nat) (map : list name_map) (i : Z) (name : list Z) : outcome Z :=
  match fuel with
  | O => Ok (-1)
  | S fuel =>
      m ← aget map i;
      match nm_name m with
      | None => Ub
      | Some s => if decide (s = name) then Ok (s32 (nm_id m)) else name2id_loop fuel map (i + 1) name
      end
  end.

Definition name2id (map : list name_map) (max : Z) (name : list Z) : outcome Z :=
  name2id_loop (Z.to_nat max) map 0 name.

(** [for (c = 0; list[c] > 0; c++);] — reading past the array is undefined, so
    one step per element and one more suffice. *)
Fixpoint count_loop (fuel : nat) (l : list Z) (c : Z) : outcome Z :=
  match fuel with
  | O => NoFuel
  | S fuel => b ← aget l c; if 0 <? b then count_loop fuel l (c + 1) else Ok c
  end.

Definition count_positive (l : list Z) : outcome Z :=
  c ← count_loop (S (length l)) l 0; Ok (u32 c).

(** [strlen] of the string that starts at the beginning of a buffer. *)
Definition strlen (l : list Z) : outcome Z := count_loop (S (length l)) l 0.

(** [memcpy(buf + off, src, strlen)] of the bytes [src]. *)
Fixpoint blit (buf : list Z) (off : Z) (src : list Z) : outcome (list Z) :=
  match src with
  | [] => Ok buf
  | b :: src => buf ← aset buf off b; blit buf (off + 1) src
  end.

Definition cs_strdup (malloc : Z → option (list Z)) (str : list Z) : outcome (option (list Z)) :=
  n ← strlen str;
  let len := n + 1 in
  match malloc len with
  | None => Ok None
  | Some new => new ← blit new 0 (take (Z.to_nat len) str); Ok (Some new)
  end.

(** [vsnprintf(buf + off, size, fmt, ap)], where the format expands to [text]:
    at most [size - 1] bytes of it and a NUL are stored, nothing when [size]
    is zero; the result is the length of the whole expansion. *)
Definition vsnprintf (buf : list Z) (off size : Z) (text : list Z) : outcome (list Z * Z) :=
  buf ← (if size =? 0 then Ok buf else blit buf off (take (Z.to_nat (Z.min (size - 1) (zlen text))) text ++ [0]));
  Ok (buf, zlen text).

Definition cs_snprintf (buf : list Z) (size : Z) (text : list Z) : outcome (list Z * Z) :=
  vsnprintf buf 0 size text.

(** ** Copies *)

Lemma blit_Ok buf off src :
  0 ≤ off → off + zlen src ≤ zlen buf →
  blit buf off src = Ok (take (Z.to_nat off) buf ++ src ++ drop (Z.to_nat (off + zlen src)) buf).
Proof.
  unfold zlen. revert buf off. induction src as [|b src IH]; intros buf off Ho Hl; cbn [blit length] in *.
  - rewrite Z.add_0_r. cbn. by rewrite take_drop.
  - rewrite aset_Ok by (unfold zlen; lia). cbn [mbind outcome_bind].
    rewrite IH by (rewrite ?length_insert; lia). f_equal.
    replace (Z.to_nat (off + 1)) with (S (Z.to_nat off)) by lia.
    rewrite (take_S_r _ _ b) by (apply list_lookup_insert_eq; lia).
    rewrite take_insert_ge by lia. rewrite drop_insert_lt by lia. rewrite <- app_assoc. cbn. do 4 f_equal. lia.
Qed.

Lemma blit_len buf off src buf' : blit buf off src = Ok buf' → zlen buf' = zlen buf.
Proof.
  revert buf off. induction src as [|b src IH]; intros buf off; cbn [blit]; [by intros [= ->]|].
  intros (b1 & [_ ->]%aset_Ok_inv & H)%bind_Ok_inv. apply IH in H. by rewrite H, zlen_insert.
Qed.

Lemma blit_snoc buf off src x :
  blit buf off (src ++ [x]) = (b ← blit buf off src; aset b (off + zlen src) x).
Proof.
  revert buf off. induction src as [|b src IH]; intros buf off; cbn [blit app].
  - cbn [mbind outcome_bind]. change (zlen []) with 0. rewrite Z.add_0_r. by destruct (aset buf off x).
  - destruct (aset buf off b) as [b1| |]; cbn [mbind outcome_bind]; [|done..]. rewrite IH.
    replace (off + 1 + zlen src) with (off + zlen (b :: src)) by (unfold zlen; cbn; lia). done.
Qed.

(** The string a NUL-terminated buffer holds. *)
Definition holds_string (l s : list Z) : Prop :=
  ∃ rest, l = s ++ 0 :: rest ∧ Forall (fun b => 0 < b) s.

Lemma aget_mid {A} (p : list A) b rest : aget (p ++ b :: rest) (zlen p) = Ok b.
Proof.
  apply aget_Ok_inv. unfold zlen. rewrite Nat2Z.id. split; [lia|].
  rewrite lookup_app_r by lia. by rewrite Nat.sub_diag.
Qed.

Lemma aset_mid {A} (p : list A) b rest v : aset (p ++ b :: rest) (zlen p) v = Ok (p ++ v :: rest).
Proof.
  rewrite aset_Ok by (rewrite zlen_app; unfold zlen; cbn; lia). f_equal. unfold zlen. rewrite Nat2Z.id.
  rewrite insert_app_r_alt by lia. by rewrite Nat.sub_diag.
Qed.

Lemma count_loop_spec fuel p s rest :
  Forall (fun b => 0 < b) s → (length s < fuel)%nat →
  count_loop fuel (p ++ s ++ 0 :: rest) (zlen p) = Ok (zlen p + zlen s).
Proof.
  revert fuel p. induction s as [|b s IH]; intros [|fuel] p Hs Hf; cbn [length] in Hf; try lia; cbn [count_loop].
  - cbn [app]. rewrite aget_mid. cbn. f_equal. unfold zlen. cbn. lia.
  - apply Forall_cons in Hs as [Hb Hs].
    cbn [app]. rewrite aget_mid.
    cbn [mbind outcome_bind]. rewrite (proj2 (Z.ltb_lt 0 b)) by lia.
    specialize (IH fuel (p ++ [b]) Hs ltac:(lia)). rewrite <- app_assoc in IH. cbn [app] in *.
    rewrite zlen_app in IH. change (zlen [b]) with 1 in IH. rewrite IH. f_equal. unfold zlen. cbn. lia.
Qed.

Lemma strlen_spec l s : holds_string l s → strlen l = Ok (zlen s).
Proof.
  intros (rest & -> & Hs). unfold strlen.
  pose proof (count_loop_spec (S (length (s ++ 0 :: rest))) [] s rest Hs) as H.
  rewrite length_app in H. specialize (H ltac:(cbn; lia)). cbn [app] in H.
  change (zlen []) with 0 in H. rewrite length_app. rewrite H. f_equal.
Qed.

(** ** Instruction lookup *)

(** A sequence of lookups through one cache. *)
Fixpoint finds (malloc : Z → option (list Z)) (insns : list insn_map) (ids : list Z)
    (cache : option (list Z)) : outcome (list Z) :=
  match ids with
  | [] => Ok []
  | id :: ids =>
      '(r, cache) ← insn_find malloc insns (zlen insns) id cache;
      rs ← finds malloc insns ids cache;
      Ok (r :: rs)
  end.

(** The position of [id] in the table, its first entry (a dummy) excluded; 0
    when there is none. *)
Fixpoint index_from (l : list insn_map) (i id : Z) : Z :=
  match l with
  | [] => 0
  | m :: l => if im_id m =? id then i else index_from l (i + 1) id
  end.

Definition index_of (insns : list insn_map) (id : Z) : Z := index_from (tail insns) 1 id.

Definition last_id (insns : list insn_map) : Z :=
  match last insns with Some m => im_id m | None => 0 end.

Record table_ok (insns : list insn_map) : Prop := {
  tbl_size : 1 ≤ zlen insns ≤ 65535;
  tbl_id : Forall (fun m => 0 ≤ im_id m ≤ last_id insns) insns;
  tbl_nodup : NoDup (im_id <$> tail insns)
}.

Lemma index_from_spec l i id :
  NoDup (im_id <$> l) → 0 < i →
  ∀ (j : nat) m, l !! j = Some m → im_id m = id → index_from l i id = i + Z.of_nat j.
Proof.
  revert i. induction l as [|m l IH]; intros i Hn Hi j m' Hj Hm; [done|].
  apply NoDup_cons in Hn as [Hni Hn]. cbn. destruct j as [|j].
  - injection Hj as <-. rewrite Hm, Z.eqb_refl. lia.
  - cbn in Hj. destruct (Z.eqb_spec (im_id m) id) as [E|E].
    + destruct Hni. rewrite E, <- Hm. apply list_elem_of_fmap. exists m'. split; [done|].
      by eapply list_elem_of_lookup_2.
    + rewrite (IH (i + 1) Hn ltac:(lia) j m') by done. lia.
Qed.

Lemma index_from_none l i id :
  (∀ (j : nat) m, l !! j = Some m → im_id m ≠ id) → index_from l i id = 0.
Proof.
  revert i. induction l as [|m l IH]; intros i H; [done|]. cbn.
  destruct (Z.eqb_spec (im_id m) id) as [E|_]; [by destruct (H 0%nat m)|].
  apply IH. intros j m' Hj. by apply (H (S j)).
Qed.

(** The contents of the cache once built from the block [c0]. *)
Definition cached (insns : list insn_map) (c0 : list Z) (id : Z) : Z :=
  if index_of insns id =? 0 then zget c0 id else index_of insns id.

(** The cache after the entries below [i] have been stored. *)
Definition filled (insns : list insn_map) (c0 : list Z) (i : Z) (c : list Z) : Prop :=
  zlen c = zlen c0 ∧
  (∀ j m, 1 ≤ j < i → aget insns j = Ok m → zget c (im_id m) = j) ∧
  (∀ id, 0 ≤ id → (∀ j m, 1 ≤ j < i → aget insns j = Ok m → im_id m ≠ id) → zget c id = zget c0 id).

Lemma tail_lookup (insns : list insn_map) j :
  1 ≤ j → tail insns !! (Z.to_nat (j - 1)) = insns !! Z.to_nat j.
Proof. intros. destruct insns; [done|]. cbn [tail]. by replace (Z.to_nat j) with (S (Z.to_nat (j - 1))) by lia. Qed.

(** Distinct entries have distinct ids. *)
Lemma ids_inj insns i j m m' :
  table_ok insns → 1 ≤ i → 1 ≤ j → aget insns i = Ok m → aget insns j = Ok m' → im_id m = im_id m' → i = j.
Proof.
  intros Ht Hi Hj [_ Hm]%aget_Ok_inv [_ Hm']%aget_Ok_inv E. rewrite <- tail_lookup in Hm, Hm' by lia.
  pose proof (index_from_spec _ 1 _ (tbl_nodup _ Ht) ltac:(lia) _ _ Hm eq_refl) as H1.
  pose proof (index_from_spec _ 1 _ (tbl_nodup _ Ht) ltac:(lia) _ _ Hm' eq_refl) as H2.
  rewrite E in H1. lia.
Qed.

Lemma id_bound insns j m : table_ok insns → aget insns j = Ok m → 0 ≤ im_id m ≤ last_id insns.
Proof. intros Ht [_ Hm]%aget_Ok_inv. exact (Forall_lookup_1 _ _ _ _ (tbl_id _ Ht) Hm). Qed.

(** Either some entry has the id, or none has. *)
Lemma id_or_not (l : list insn_map) id :
  (∃ (j : nat) m, l !! j = Some m ∧ im_id m = id) ∨ (∀ (j : nat) m, l !! j = Some m → im_id m ≠ id).
Proof.
  destruct (decide (id ∈ im_id <$> l)) as [(m & -> & Hm)%list_elem_of_fmap|Hn].
  - left. apply list_elem_of_lookup in Hm as [j Hj]. eauto.
  - right. intros j m Hj E. apply Hn. apply list_elem_of_fmap. exists m. split; [done|].
    by eapply list_elem_of_lookup_2.
Qed.

Lemma fill_loop_spec insns c0 fuel i c :
  table_ok insns → zlen c0 = last_id insns + 1 → 1 ≤ i ≤ zlen insns → zlen insns - i ≤ Z.of_nat fuel →
  filled insns c0 i c →
  ∃ c', fill_loop fuel insns (zlen insns) i (Some c) = Ok (Some c') ∧ filled insns c0 (zlen insns) c'.
Proof.
  intros Ht Hc0. revert i c. induction fuel as [|fuel IH]; intros i c Hi Hf Hc; cbn [fill_loop];
    destruct (Z.ltb_spec i (zlen insns)) as [Hlt|Hge]; try lia;
    try (exists c; by replace (zlen insns) with i by lia).
  destruct (aget_is_Ok insns i) as [m Hm]; [lia|]. rewrite Hm. cbn [mbind outcome_bind ptr_set].
  pose proof (id_bound _ _ _ Ht Hm) as Hid. pose proof (tbl_size _ Ht). destruct Hc as (Hlen & H1 & H2).
  rewrite aset_Ok by lia. cbn [mbind outcome_bind]. rewrite wrap_small by (unfold in_u; lia).
  apply IH; [lia..|]. unfold filled. split_conj.
  - by rewrite zlen_insert.
  - intros j m2 Hj Hm2. pose proof (id_bound _ _ _ Ht Hm2). rewrite zget_insert by lia.
    destruct (Z.eqb_spec (im_id m) (im_id m2)) as [E|E]; [by eapply ids_inj; eauto; lia|].
    apply H1; [|done]. assert (i ≠ j) by congruence. lia.
  - intros id Hid0 Hno. rewrite zget_insert by lia.
    destruct (Z.eqb_spec (im_id m) id) as [E|E]; [by destruct (Hno i m ltac:(lia) Hm)|].
    apply H2; [done|]. intros j m2 Hj. apply Hno. lia.
Qed.

(** Everything the allocator and the table have to provide. *)
Section lookups.
  Context (malloc : Z → option (list Z)) (insns : list insn_map) (c0 : list Z).
  Context (Htbl : table_ok insns).
  Context (Hmalloc : malloc (2 * (last_id insns + 1)) = Some c0) (Hc0 : zlen c0 = last_id insns + 1).

Lemma aget_last : ∃ m, aget insns (u32 (zlen insns - 1)) = Ok m ∧ im_id m = last_id insns.
Proof using Htbl.
  pose proof (tbl_size _ Htbl) as Hs. rewrite wrap_small by (unfold in_u; lia).
  destruct (aget_is_Ok insns (zlen insns - 1)) as [m Hm]; [lia|]. exists m. split; [done|].
  apply aget_Ok_inv in Hm as [_ Hm]. unfold last_id. rewrite last_lookup.
  replace (Nat.pred (length insns)) with (Z.to_nat (zlen insns - 1)) by (unfold zlen; lia). by rewrite Hm.
Qed.

Lemma make_id2insn_spec : ∃ c, make_id2insn malloc insns (zlen insns) = Ok (Some c) ∧ filled insns c0 (zlen insns) c.
Proof using Type*.
  pose proof (tbl_size _ Htbl). unfold make_id2insn. destruct aget_last as (m & -> & E). cbn [mbind outcome_bind].
  rewrite E, Hmalloc. apply fill_loop_spec; [done|done|lia|lia|]. unfold filled. split_conj; [done|lia|done].
Qed.

Lemma filled_cached c id :
  filled insns c0 (zlen insns) c → 0 ≤ id ≤ last_id insns → aget c id = Ok (cached insns c0 id).
Proof using Type*.
  intros (Hlen & H1 & H2) Hid. rewrite aget_zget by lia. f_equal. unfold cached, index_of.
  destruct (id_or_not (tail insns) id) as [(j & m & Hj & E)|Hno].
  - rewrite (index_from_spec _ 1 _ (tbl_nodup _ Htbl) ltac:(lia) _ _ Hj E).
    rewrite (proj2 (Z.eqb_neq _ 0)) by lia. rewrite <- E.
    assert (aget insns (1 + Z.of_nat j) = Ok m) as Hm.
    { apply aget_Ok_inv. split; [lia|]. rewrite <- tail_lookup by lia. rewrite <- Hj. f_equal. lia. }
    apply H1; [|done]. apply aget_bound in Hm. lia.
  - rewrite index_from_none by done. cbn. apply H2; [lia|]. intros j m Hj [_ Hm]%aget_Ok_inv.
    rewrite <- tail_lookup in Hm by lia. by eapply Hno.
Qed.

(** What a lookup answers. *)
Definition answer (id : Z) : Z := if last_id insns <? id then 0 else cached insns c0 id.

Lemma insn_find_spec cache id :
  0 ≤ id → (cache = None ∨ ∃ c, cache = Some c ∧ filled insns c0 (zlen insns) c) →
  ∃ cache', insn_find malloc insns (zlen insns) id cache = Ok (answer id, cache') ∧
    (cache' = None ∨ ∃ c, cache' = Some c ∧ filled insns c0 (zlen insns) c).
Proof using Type*.
  intros Hid Hc. unfold insn_find, answer. destruct aget_last as (m & -> & E). cbn [mbind outcome_bind].
  rewrite E. destruct (Z.ltb_spec (last_id insns) id) as [Hlt|Hge]; [by exists cache|].
  assert (∃ c, match cache with None => make_id2insn malloc insns (zlen insns) | Some _ => Ok cache end
               = Ok (Some c) ∧ filled insns c0 (zlen insns) c) as (c & -> & Hf).
  { destruct Hc as [->|(c & -> & Hf)]; [apply make_id2insn_spec|by exists c]. }
  cbn [mbind outcome_bind ptr_get]. rewrite (filled_cached c) by (done || lia). cbn.
  eexists. split; [done|]. right. by exists c.
Qed.

Lemma finds_spec ids cache :
  Forall (fun id => 0 ≤ id) ids →
  (cache = None ∨ ∃ c, cache = Some c ∧ filled insns c0 (zlen insns) c) →
  finds malloc insns ids cache = Ok (answer <$> ids).
Proof using Type*.
  intros Hids. revert cache. induction Hids as [|id ids Hid _ IH]; intros cache Hc; [done|]. cbn [finds].
  destruct (insn_find_spec cache id Hid Hc) as (cache' & -> & Hc'). cbn [mbind outcome_bind].
  by rewrite (IH cache' Hc').
Qed.
End lookups.

(** Lookups through the cache: on a table whose last entry carries the
    largest id and whose entries after the first have distinct ids, any
    sequence of lookups through one handle, with a first call that builds the
    cache, succeeds; each finds the index of its id in the table, and an id
    that is absent gives 0 when the allocator returns zeroed memory. *)
Theorem insn_find_finds (malloc : Z → option (list Z)) (insns : list insn_map) (ids : list Z) :
  table_ok insns →
  malloc (2 * (last_id insns + 1)) = Some (replicate (Z.to_nat (last_id insns + 1)) 0) →
  Forall (fun id => 0 ≤ id) ids →
  finds malloc insns ids None = Ok (index_of insns <$> ids).
Proof.
  intros Ht Hm Hids. assert (0 ≤ last_id insns) as Hl.
  { unfold last_id. destruct (last insns) as [m|] eqn:E; [|lia].
    rewrite last_lookup in E. apply (Forall_lookup_1 _ _ _ _ (tbl_id _ Ht)) in E. lia. }
  rewrite (finds_spec malloc insns (replicate (Z.to_nat (last_id insns + 1)) 0));
    [|done|done|unfold zlen; rewrite length_replicate; lia|done|by left].
  f_equal. apply list_fmap_ext. intros k id Hk. pose proof (Forall_lookup_1 _ _ _ _ Hids Hk) as H0. cbn in H0.
  unfold answer, cached. destruct (Z.ltb_spec (last_id insns) id) as [Hlt|Hge].
  - unfold index_of. rewrite index_from_none; [done|]. intros j m Hj E.
    assert (aget insns (1 + Z.of_nat j) = Ok m) as Hg.
    { apply aget_Ok_inv. split; [lia|]. rewrite <- tail_lookup by lia. rewrite <- Hj. f_equal. lia. }
    apply (id_bound _ _ _ Ht) in Hg. lia.
  - destruct (Z.eqb_spec (index_of insns id) 0) as [->|]; [|done]. unfold zget.
    destruct (_ !! Z.to_nat id) as [x|] eqn:E; [|done]. by apply lookup_replicate in E as [-> _].
Qed.

Definition im0 (id : Z) : insn_map := mkInsnMap id 0 [] [] [] false false.
Definition table0 : list insn_map := im0 <$> [0; 3; 2; 6].
Definition zalloc (n : Z) : option (list Z) := Some (replicate (Z.to_nat (n / 2)) 0).

Lemma insn_find_finds_witness :
  finds zalloc table0 [2; 9; 3; 5; 6] None = Ok [2; 0; 1; 0; 3].
Proof.
  rewrite (insn_find_finds zalloc table0); [reflexivity| |reflexivity|].
  - split; [vm_compute; split; discriminate| |]; apply (bool_decide_unpack _); vm_compute; exact I.
  - apply (bool_decide_unpack _); vm_compute; exact I.
Defined.

(** Memory that is not zeroed shows through for an id that is absent, and a
    failed allocation is dereferenced. *)
Example insn_find_stale : finds (fun _ => Some (replicate 7 77)) table0 [5; 2] None = Ok [77; 2].
Proof. reflexivity. Qed.

Example insn_find_null : finds (fun _ => None) table0 [5] None = Ub.
Proof. reflexivity. Qed.

(** ** Names, lists and strings *)

(** The id of the first entry with the given name, -1 without one. *)
Fixpoint first_id (map : list name_map) (name : list Z) : Z :=
  match map with
  | [] => -1
  | m :: map => if decide (nm_name m = Some name) then s32 (nm_id m) else first_id map name
  end.

Lemma name2id_loop_spec p map rest name :
  Forall (fun m => is_Some (nm_name m)) map →
  name2id_loop (length map) (p ++ map ++ rest) (zlen p) name = Ok (first_id map name).
Proof.
  revert p. induction map as [|m map IH]; intros p Hm; [done|]. apply Forall_cons in Hm as [[s Hs] Hm].
  cbn [length name2id_loop app first_id]. rewrite aget_mid. cbn [mbind outcome_bind]. rewrite Hs.
  destruct (decide (s = name)) as [->|Hne]; [by rewrite decide_True|].
  rewrite decide_False by congruence. specialize (IH (p ++ [m]) Hm). rewrite <- app_assoc in IH.
  cbn [app] in IH. rewrite zlen_app in IH. exact IH.
Qed.

(** Name lookup and list helpers: [name2id] gives the id of the first of
    the [max] entries with that name and -1 when there is none;
    [count_positive] counts the elements before the terminating zero; and
    [cs_strdup] returns a block that starts with a copy of the string, or
    [NULL] when the allocation failed. *)
Theorem utils_lookup_correct (map rest : list name_map) (name l s tl : list Z) (malloc : Z → option (list Z)) :
  Forall (fun m => is_Some (nm_name m)) map →
  l = s ++ 0 :: tl → Forall (fun b => 0 < b) s → zlen l < 2 ^ 32 →
  name2id (map ++ rest) (zlen map) name = Ok (first_id map name) ∧
  count_positive l = Ok (zlen s) ∧
  (malloc (zlen s + 1) = None → cs_strdup malloc l = Ok None) ∧
  (∀ b, malloc (zlen s + 1) = Some b → zlen b = zlen s + 1 → cs_strdup malloc l = Ok (Some (s ++ [0]))).
Proof.
  intros Hm -> Hs Hl. assert (holds_string (s ++ 0 :: tl) s) as Hh by (by exists tl).
  split_conj.
  - unfold name2id, zlen. rewrite Nat2Z.id. exact (name2id_loop_spec [] map rest name Hm).
  - unfold count_positive. fold (strlen (s ++ 0 :: tl)). rewrite (strlen_spec _ _ Hh). cbn.
    rewrite wrap_small; [done|]. rewrite zlen_app in Hl. unfold in_u, zlen in *. cbn in Hl. lia.
  - unfold cs_strdup. rewrite (strlen_spec _ _ Hh). cbn [mbind outcome_bind]. by intros ->.
  - intros b Hb Hlb. unfold cs_strdup. rewrite (strlen_spec _ _ Hh). cbn [mbind outcome_bind]. rewrite Hb.
    assert (take (Z.to_nat (zlen s + 1)) (s ++ 0 :: tl) = s ++ [0]) as ->.
    { replace (Z.to_nat (zlen s + 1)) with (length s + 1)%nat by (unfold zlen; lia).
      by rewrite take_app_add. }
    rewrite blit_Ok by (rewrite ?zlen_app; change (zlen [0]) with 1; lia). cbn [mbind outcome_bind].
    rewrite drop_ge; [by rewrite app_nil_r|]. rewrite zlen_app. change (zlen [0]) with 1. unfold zlen in *. lia.
Qed.

Lemma utils_lookup_correct_witness :
  name2id [mkNameMap 4 (Some [97]); mkNameMap 5 (Some [98; 99])] 2 [98; 99] = Ok 5.
Proof.
  apply (utils_lookup_correct [mkNameMap 4 (Some [97]); mkNameMap 5 (Some [98; 99])] [] [98; 99] [7; 0] [7] [] (fun _ => None));
    [repeat constructor; eexists; reflexivity|reflexivity|repeat constructor|reflexivity].
Defined.

End Utils.
