(* ===== verification/CsRegisterInfo.v ===== *)
(** * Capstone: register tables ([Lilu.kext/capstone/MCRegisterInfo.c], [.h])

    The register description tables, the iterator over their differentially
    encoded lists, and sub- and super-register search, against the decoded
    lists. *)

From Stdlib Require Import ZArith Lia.
From S2P Require Import Prelude CsUtils.

Module RegInfo.

Open Scope c_scope.

(** ** Model *)

Record MCRegisterClass := mkRegClass {
  rc_Name : Z;
  RegsBegin : list Z;
  RegSet : list Z;
  RegsSize : Z;
  RegSetSize : Z;
  rc_ID : Z;
  RegSize : Z;
  Alignment : Z;
  CopyCost : Z;
  Allocatable : bool
}.

Record MCRegisterDesc := mkRegDesc {
  rd_Name : Z;
  SubRegs : Z;
  SuperRegs : Z;
  rd_SubRegIndices : Z;
  RegUnits : Z
}.

(** The tables are immutable arrays, pointers into them are offsets. *)
Record MCRegisterInfo := mkRegInfo {
  Desc : list MCRegisterDesc;
  NumRegs : Z;
  RAReg : Z;
  PCReg : Z;
  Classes : list MCRegisterClass;
  NumClasses : Z;
  NumRegUnits : Z;
  RegUnitRoots : list (Z * Z);
  DiffLists : list Z;
  RegStrings : list Z;
  SubRegIndices : list Z;
  NumSubRegIndices : Z;
  RegEncodingTable : list Z
}.

Definition MCRegisterInfo_InitMCRegisterInfo (D : list MCRegisterDesc) (NR RA PC : Z)
    (C : list MCRegisterClass) (NC : Z) (RURoots : list (Z * Z)) (NRU : Z) (DL Strings : list Z)
    (SubIndices : list Z) (NumIndices : Z) (RET : list Z) : MCRegisterInfo :=
  mkRegInfo D NR RA PC C NC NRU RURoots DL Strings SubIndices NumIndices RET.

(** [List]: [None] when [NULL], otherwise an offset into [DiffLists]. *)
Record DiffListIterator := mkIter { Val : Z; List : option Z }.

Definition DiffListIterator_init (InitVal DiffList : Z) : DiffListIterator := mkIter InitVal (Some DiffList).
Definition DiffListIterator_getVal (d : DiffListIterator) : Z := Val d.

(** The updated iterator and the result. *)
Definition DiffListIterator_next (DL : list Z) (d : DiffListIterator) : outcome (DiffListIterator * bool) :=
  match List d with
  | None => Ok (d, false)
  | Some p =>
      D ← aget DL p;
      Ok (mkIter (u16 (Val d + D)) (if D =? 0 then None else Some (p + 1)), negb (D =? 0))
  end.

Definition DiffListIterator_isValid (d : DiffListIterator) : bool :=
  match List d with None => false | Some _ => true end.

Definition MCRegisterClass_contains (c : MCRegisterClass) (Reg : Z) : outcome bool :=
  let InByte := Reg mod 8 in
  let Byte := Reg / 8 in
  if RegSetSize c <=? Byte then Ok false else
  b ← aget (RegSet c) Byte;
  Ok (negb (b & (1 << InByte) =? 0)).

(** The body of the search: [SRI] is an offset into [SubRegIndices].  Every
    iteration advances in [DiffLists], so its length bounds their number. *)
Fixpoint subreg_loop (fuel : nat) (RI : MCRegisterInfo) (Idx SRI : Z) (iter : DiffListIterator) : outcome Z :=
  if DiffListIterator_isValid iter then
    match fuel with
    | O => NoFuel
    | S fuel =>
        i ← aget (SubRegIndices RI) SRI;
        if i =? Idx then Ok (DiffListIterator_getVal iter) else
        '(iter, _) ← DiffListIterator_next (DiffLists RI) iter;
        subreg_loop fuel RI Idx (SRI + 1) iter
    end
  else Ok 0.

Definition MCRegisterInfo_getSubReg (RI : MCRegisterInfo) (Reg Idx : Z) : outcome Z :=
  d ← aget (Desc RI) Reg;
  let SRI := rd_SubRegIndices d in
  let iter := DiffListIterator_init (u16 Reg) (SubRegs d) in
  '(iter, _) ← DiffListIterator_next (DiffLists RI) iter;
  subreg_loop (length (DiffLists RI)) RI Idx SRI iter.

Fixpoint super_loop (fuel : nat) (RI : MCRegisterInfo) (Reg SubIdx : Z) (RC : MCRegisterClass)
    (iter : DiffListIterator) : outcome Z :=
  if DiffListIterator_isValid iter then
    match fuel with
    | O => NoFuel
    | S fuel =>
        let val := DiffListIterator_getVal iter in
        c ← MCRegisterClass_contains RC val;
        hit ← (if c : bool then s ← MCRegisterInfo_getSubReg RI val SubIdx; Ok (Reg =? s) else Ok false);
        if hit : bool then Ok val else
        '(iter, _) ← DiffListIterator_next (DiffLists RI) iter;
        super_loop fuel RI Reg SubIdx RC iter
    end
  else Ok 0.

Definition MCRegisterInfo_getMatchingSuperReg (RI : MCRegisterInfo) (Reg SubIdx : Z) (RC : MCRegisterClass)
    : outcome Z :=
  if NumRegs RI <=? Reg then Ok 0 else
  d ← aget (Desc RI) Reg;
  let iter := DiffListIterator_init (u16 Reg) (SuperRegs d) in
  '(iter, _) ← DiffListIterator_next (DiffLists RI) iter;
  super_loop (length (DiffLists RI)) RI Reg SubIdx RC iter.

(** A pointer into [Classes], by its index. *)
Definition MCRegisterInfo_getRegClass (RI : MCRegisterInfo) (i : Z) : option Z :=
  if NumClasses RI <=? i then None else Some i.

(** ** The decoded lists *)

(** The registers a difference list denotes, starting from [v]: running sums
    modulo 2^16. *)
Fixpoint sums (v : Z) (ds : list Z) : list Z :=
  match ds with
  | [] => []
  | d :: ds => let v' := u16 (v + d) in v' :: sums v' ds
  end.

(** [ds] is the list stored at offset [p], up to its zero terminator. *)
Definition diff_list (DL : list Z) (p : Z) (ds : list Z) : Prop :=
  ∃ pre rest, DL = pre ++ ds ++ 0 :: rest ∧ zlen pre = p ∧ Forall (fun d => d ≠ 0) ds.

(** The first register of [regs] whose index in the parallel list [idxs] is
    [Idx]; 0 when there is none. *)
Fixpoint first_with (Idx : Z) (regs idxs : list Z) : Z :=
  match regs, idxs with
  | r :: regs, i :: idxs => if i =? Idx then r else first_with Idx regs idxs
  | _, _ => 0
  end.

(** The tables describe register [r]: its sub- and super-registers and the
    indices of the former. *)
Record described (RI : MCRegisterInfo) (r : Z) (subs supers idxs : list Z) : Prop := {
  desc_range : in_u 16 r ∧ r < NumRegs RI;
  desc_entry : ∃ d ds es pre rest, aget (Desc RI) r = Ok d ∧
    diff_list (DiffLists RI) (SubRegs d) ds ∧ subs = sums r ds ∧
    diff_list (DiffLists RI) (SuperRegs d) es ∧ supers = sums r es ∧
    SubRegIndices RI = pre ++ idxs ++ rest ∧ zlen pre = rd_SubRegIndices d;
  desc_idxs : length idxs = length subs
}.

(** One step of the iterator at the head of a list. *)
Lemma next_cons DL p d ds v :
  diff_list DL p (d :: ds) →
  DiffListIterator_next DL (mkIter v (Some p)) = Ok (mkIter (u16 (v + d)) (Some (p + 1)), true) ∧
  diff_list DL (p + 1) ds.
Proof.
  intros (pre & rest & -> & <- & Hd). apply Forall_cons in Hd as [Hd Hds]. split.
  - unfold DiffListIterator_next. cbn [List Val app]. rewrite Utils.aget_mid. cbn.
    by rewrite (proj2 (Z.eqb_neq d 0)).
  - exists (pre ++ [d]), rest. rewrite <- app_assoc. split_conj; [done| |done]. by rewrite zlen_app.
Qed.

Lemma next_nil DL p v :
  diff_list DL p [] → DiffListIterator_next DL (mkIter v (Some p)) = Ok (mkIter (u16 (v + 0)) None, false).
Proof.
  intros (pre & rest & -> & <- & _). unfold DiffListIterator_next. cbn [List Val app].
  by rewrite Utils.aget_mid.
Qed.

Lemma diff_list_length DL p ds : diff_list DL p ds → (length ds < length DL)%nat.
Proof. intros (pre & rest & -> & _ & _). rewrite !length_app. cbn. lia. Qed.

Lemma subreg_loop_spec RI Idx fuel p v ds pre idxs rest :
  diff_list (DiffLists RI) p ds → (length ds < fuel)%nat →
  SubRegIndices RI = pre ++ idxs ++ rest → length idxs = length ds →
  ('(iter, _) ← DiffListIterator_next (DiffLists RI) (mkIter v (Some p));
   subreg_loop fuel RI Idx (zlen pre) iter) = Ok (first_with Idx (sums v ds) idxs).
Proof.
  revert fuel p v pre idxs. induction ds as [|d ds IH]; intros [|fuel] p v pre idxs Hd Hf Hi Hl;
    cbn [length] in Hf; try lia.
  - rewrite next_nil by done. by cbn.
  - destruct idxs as [|i idxs]; [done|]. destruct (next_cons _ _ _ _ v Hd) as [-> Hd']. cbn [mbind outcome_bind].
    cbn [subreg_loop DiffListIterator_isValid List sums first_with].
    rewrite Hi. cbn [app]. rewrite Utils.aget_mid. cbn [mbind outcome_bind].
    destruct (i =? Idx); [done|].
    specialize (IH fuel (p + 1) (u16 (v + d)) (pre ++ [i]) idxs Hd' ltac:(lia)).
    rewrite zlen_app in IH. rewrite <- IH; [done| |cbn in Hl; lia]. rewrite Hi, <- app_assoc. done.
Qed.

(** Sub-register search is a search in the decoded list. *)
Lemma getSubReg_spec RI r subs supers idxs Idx :
  described RI r subs supers idxs →
  MCRegisterInfo_getSubReg RI r Idx = Ok (first_with Idx subs idxs).
Proof.
  intros [[Hr _] (d & ds & es & pre & rest & Hd & Hds & -> & _ & _ & Hi & Hpre) Hl].
  unfold MCRegisterInfo_getSubReg. rewrite Hd. cbn [mbind outcome_bind]. unfold DiffListIterator_init.
  rewrite wrap_small by done. rewrite <- Hpre. eapply subreg_loop_spec; try done; [by eapply diff_list_length|].
  rewrite Hl. clear. revert r. induction ds; intros; cbn; auto.
Qed.

(** ** Register classes and super-registers *)

(** [Reg] is in the class, as a bit of its set. *)
Definition class_has (c : MCRegisterClass) (Reg : Z) : bool :=
  (Reg / 8 <? RegSetSize c) && Z.testbit (zget (RegSet c) (Reg / 8)) (Reg mod 8).

Lemma land_one_bit b i : 0 ≤ i → negb (b & (1 << i) =? 0) = Z.testbit b i.
Proof.
  intros Hi. destruct (Z.eqb_spec (b & (1 << i)) 0) as [E|E]; cbn.
  - apply (f_equal (fun x => Z.testbit x i)) in E. rewrite Z.land_spec, Z.shiftl_spec, Z.sub_diag, Z.bits_0 in E by lia.
    by destruct (Z.testbit b i).
  - destruct (Z.testbit b i) eqn:Hb; [done|]. destruct E. apply Z.bits_inj'. intros n Hn.
    rewrite Z.land_spec, Z.shiftl_spec, Z.bits_0 by lia. destruct (decide (n = i)) as [->|]; [by rewrite Hb|].
    replace (Z.testbit 1 (n - i)) with false; [by rewrite andb_false_r|].
    symmetry. destruct (Z_lt_le_dec (n - i) 0); [by apply Z.testbit_neg_r|].
    apply (testbit_in_u 1); [lia|unfold in_u; lia|lia].
Qed.

Lemma contains_spec c Reg :
  0 ≤ Reg → RegSetSize c ≤ zlen (RegSet c) → MCRegisterClass_contains c Reg = Ok (class_has c Reg).
Proof.
  intros Hr Hs. unfold MCRegisterClass_contains, class_has. assert (0 ≤ Reg / 8) by zdiv.
  rewrite Z.leb_antisym. destruct (Z.ltb_spec (Reg / 8) (RegSetSize c)) as [Hlt|Hge]; cbn [negb andb]; [|done].
  rewrite aget_zget by lia. cbn [mbind outcome_bind]. f_equal. apply land_one_bit. zdiv.
Qed.

(** The first of [regs] that satisfies the test, 0 if none does. *)
Fixpoint first_sat (f : Z → bool) (regs : list Z) : Z :=
  match regs with
  | [] => 0
  | r :: regs => if f r then r else first_sat f regs
  end.

Section supers.
  Context (RI : MCRegisterInfo) (RC : MCRegisterClass) (Reg SubIdx : Z).
  (** The sub-registers of a register and their indices. *)
  Context (descr : Z → list Z * list Z).
  Context (Hclass : RegSetSize RC ≤ zlen (RegSet RC)).

(** [v] is in the class and its [SubIdx] sub-register is [Reg]. *)
Definition is_match (v : Z) : bool :=
  class_has RC v && (Reg =? first_with SubIdx (descr v).1 (descr v).2).

Lemma super_loop_spec fuel p v ds :
  diff_list (DiffLists RI) p ds → (length ds < fuel)%nat →
  Forall (fun r => ∃ supers, described RI r (descr r).1 supers (descr r).2) (sums v ds) →
  ('(iter, _) ← DiffListIterator_next (DiffLists RI) (mkIter v (Some p));
   super_loop fuel RI Reg SubIdx RC iter) = Ok (first_sat is_match (sums v ds)).
Proof using Hclass.
  revert fuel p v. induction ds as [|d ds IH]; intros [|fuel] p v Hd Hf Hall; cbn [length] in Hf; try lia.
  - rewrite next_nil by done. by cbn.
  - destruct (next_cons _ _ _ _ v Hd) as [-> Hd']. cbn [mbind outcome_bind].
    cbn [sums] in Hall. apply Forall_cons in Hall as [[sup Hdesc] Hall].
    cbn [super_loop DiffListIterator_isValid List sums first_sat DiffListIterator_getVal Val].
    pose proof (desc_range _ _ _ _ _ Hdesc) as [[Hv0 _] _].
    rewrite contains_spec by done. cbn [mbind outcome_bind].
    specialize (IH fuel (p + 1) (u16 (v + d)) Hd' ltac:(lia) Hall).
    unfold is_match at 1. destruct (class_has RC (u16 (v + d))); cbn [andb mbind outcome_bind].
    + rewrite (getSubReg_spec _ _ _ _ _ _ Hdesc). cbn [mbind outcome_bind].
      destruct (Reg =? _); [done|exact IH].
    + exact IH.
Qed.
End supers.

(** The register queries are searches in the lists the tables encode:
    [getSubReg] returns the sub-register with the given index,
    [getMatchingSuperReg] the first super-register in the class whose
    sub-register of that index is [Reg], both 0 when there is none, and
    [MCRegisterClass_contains] tests the bit of the class's set.  The loops
    end, and no access leaves a table. *)
Theorem register_search_correct (RI : MCRegisterInfo) (RC : MCRegisterClass) (Reg SubIdx : Z)
    (supers : list Z) (descr : Z → list Z * list Z) :
  described RI Reg (descr Reg).1 supers (descr Reg).2 →
  Forall (fun r => ∃ supers, described RI r (descr r).1 supers (descr r).2) supers →
  RegSetSize RC ≤ zlen (RegSet RC) →
  MCRegisterInfo_getSubReg RI Reg SubIdx = Ok (first_with SubIdx (descr Reg).1 (descr Reg).2) ∧
  MCRegisterInfo_getMatchingSuperReg RI Reg SubIdx RC = Ok (first_sat (is_match RC Reg SubIdx descr) supers) ∧
  MCRegisterClass_contains RC Reg = Ok (class_has RC Reg).
Proof.
  intros Hd Hall Hc. pose proof (desc_range _ _ _ _ _ Hd) as [Hr Hn]. split_conj.
  - by eapply getSubReg_spec.
  - destruct (desc_entry _ _ _ _ _ Hd) as (d & ds & es & pre & rest & Hde & _ & _ & Hes & -> & _).
    unfold MCRegisterInfo_getMatchingSuperReg. rewrite (proj2 (Z.leb_gt _ _)) by lia.
    rewrite Hde. cbn [mbind outcome_bind]. unfold DiffListIterator_init. rewrite wrap_small by done.
    apply super_loop_spec; [done..|by eapply diff_list_length|done].
  - apply contains_spec; [|done]. destruct Hr. lia.
Qed.

(** A register file with AX (3) above AL (1) and AH (2), sub-register indices
    1 (low) and 2 (high). *)
Definition RI0 : MCRegisterInfo :=
  MCRegisterInfo_InitMCRegisterInfo
    [mkRegDesc 0 0 0 0 0; mkRegDesc 0 0 1 0 0; mkRegDesc 0 0 3 0 0; mkRegDesc 0 5 0 0 0] 4 0 0
    [mkRegClass 0 [3] [8] 1 1 0 2 2 1 true] 1 [] 0
    [0; 2; 0; 1; 0; 65534; 1; 0] [] [1; 2] 2 [].
Definition descr0 (r : Z) : list Z * list Z := if r =? 3 then ([1; 2], [1; 2]) else ([], []).

Lemma register_search_correct_witness :
  MCRegisterInfo_getSubReg RI0 2 2 = Ok 0 ∧
  MCRegisterInfo_getMatchingSuperReg RI0 2 2 (mkRegClass 0 [3] [8] 1 1 0 2 2 1 true) = Ok 3 ∧
  MCRegisterClass_contains (mkRegClass 0 [3] [8] 1 1 0 2 2 1 true) 2 = Ok false.
Proof.
  apply (register_search_correct RI0 (mkRegClass 0 [3] [8] 1 1 0 2 2 1 true) 2 2 [3] descr0).
  - split; [split; [split; [lia|reflexivity]|reflexivity]| |reflexivity].
    exists (mkRegDesc 0 0 3 0 0), [], [1], [], [1; 2]. split_conj; try reflexivity.
    + exists [], [2; 0; 1; 0; 65534; 1; 0]. split_conj; [reflexivity..|constructor].
    + exists [0; 2; 0], [65534; 1; 0]. split_conj; [reflexivity..|]. repeat constructor; discriminate.
  - repeat constructor. exists []. split; [split; [split; [lia|reflexivity]|reflexivity]| |reflexivity].
    exists (mkRegDesc 0 5 0 0 0), [65534; 1], [], [], []. split_conj; try reflexivity.
    + exists [0; 2; 0; 1; 0], []. split_conj; [reflexivity..|]. repeat constructor; discriminate.
    + exists [], [2; 0; 1; 0; 65534; 1; 0]. split_conj; [reflexivity..|constructor].
  - discriminate.
Defined.

End RegInfo.
