(* ===== verification/CsSStream.v ===== *)
(** * Capstone: output streams ([Lilu.kext/capstone/SStream.c])

    The fixed-size text buffer instructions are printed into, and the number
    printers, whose output is shown to parse back to the number. *)

From Stdlib Require Import ZArith Lia.
From S2P Require Import Prelude CsUtils.

Module SStream.
Import Utils.

Open Scope c_scope.

(** ** Model *)

Record SStream := mkSS { buffer : list Z; index : Z }.

Definition BUFSIZE := 512.

Definition SStream_Init (ss : SStream) : outcome SStream :=
  b ← aset (buffer ss) 0 0; Ok (mkSS b 0).

(** [s] is the string without its NUL; its length is truncated to 32 bits. *)
Definition SStream_concat0 (ss : SStream) (s : list Z) : outcome SStream :=
  let len := u32 (zlen s) in
  b ← blit (buffer ss) (index ss) (take (Z.to_nat len) s);
  let idx := s32 (index ss + len) in
  b ← aset b idx 0;
  Ok (mkSS b idx).

(** [text] is the expansion of the format; the size is computed in [size_t]. *)
Definition SStream_concat (ss : SStream) (text : list Z) : outcome SStream :=
  '(b, ret) ← vsnprintf (buffer ss) (index ss) (u64 (BUFSIZE - (index ss + 1))) text;
  Ok (mkSS b (s32 (index ss + s32 ret))).

(** Digits of [n], most significant first; 64 digits hold any 64-bit number. *)
Fixpoint digits (fuel : nat) (base n : Z) : list Z :=
  match fuel with
  | O => []
  | S fuel => if n <? base then [n] else digits fuel base (n / base) ++ [n mod base]
  end.

Definition digit_char (d : Z) : Z := if d <? 10 then 48 + d else 87 + d.

(** [%u], [%llu] and [%x], [%llx] of an argument of [w] bits. *)
Definition fmt_u (w n : Z) : list Z := digit_char <$> digits 64 10 (wrap w n).
Definition fmt_x (w n : Z) : list Z := digit_char <$> digits 64 16 (wrap w n).

Definition bang := [35].
Definition minus := [45].
Definition hexpre := [48; 120].

(** [-val]: undefined for the smallest number of the type. *)
Definition neg (w val : Z) : outcome Z := if val =? - 2 ^ (w - 1) then Ub else Ok (- val).

(** The text for a signed [w]-bit number; [MIN] is the constant the code
    compares with ([LONG_MIN] or [INT_MIN]). *)
Definition signed_text (w MIN val : Z) : outcome (list Z) :=
  if 0 <=? val then
    if HEX_THRESHOLD <? val then Ok (hexpre ++ fmt_x w val) else Ok (fmt_u w val)
  else if val <? - HEX_THRESHOLD then
    if val =? MIN then Ok (minus ++ hexpre ++ fmt_x w val)
    else n ← neg w val; Ok (minus ++ hexpre ++ fmt_x w n)
  else n ← neg w val; Ok (minus ++ fmt_u w n).

Definition unsigned_text (w val : Z) : list Z :=
  if HEX_THRESHOLD <? val then hexpre ++ fmt_x w val else fmt_u w val.

(** [LONG_MIN] of the data model: [-2^63] on x86_64, [-2^31] on i386. *)
Definition LONG_MIN (longbits : Z) : Z := - 2 ^ (longbits - 1).
Definition INT_MIN := - 2 ^ 31.

Definition printInt64Bang (longbits : Z) (O : SStream) (val : Z) : outcome SStream :=
  t ← signed_text 64 (LONG_MIN longbits) val; SStream_concat O (bang ++ t).
Definition printUInt64Bang (O : SStream) (val : Z) : outcome SStream :=
  SStream_concat O (bang ++ unsigned_text 64 val).
Definition printInt64 (longbits : Z) (O : SStream) (val : Z) : outcome SStream :=
  t ← signed_text 64 (LONG_MIN longbits) val; SStream_concat O t.
Definition printInt32BangDec (O : SStream) (val : Z) : outcome SStream :=
  if 0 <=? val then SStream_concat O (bang ++ fmt_u 32 val)
  else if val =? INT_MIN then SStream_concat O (bang ++ minus ++ fmt_u 32 val)
  else n ← neg 32 val; SStream_concat O (bang ++ minus ++ fmt_u 32 n).
Definition printInt32Bang (O : SStream) (val : Z) : outcome SStream :=
  t ← signed_text 32 INT_MIN val; SStream_concat O (bang ++ t).
Definition printInt32 (O : SStream) (val : Z) : outcome SStream :=
  t ← signed_text 32 INT_MIN val; SStream_concat O t.
Definition printUInt32Bang (O : SStream) (val : Z) : outcome SStream :=
  SStream_concat O (bang ++ unsigned_text 32 val).
Definition printUInt32 (O : SStream) (val : Z) : outcome SStream :=
  SStream_concat O (unsigned_text 32 val).

(** ** Streams as strings *)

(** The stream holds [s]: the buffer starts with it and a NUL, and the index
    is its end. *)
Definition holds (ss : SStream) (s : list Z) : Prop :=
  zlen (buffer ss) = BUFSIZE ∧ index ss = zlen s ∧ zlen s < BUFSIZE ∧ ∃ rest, buffer ss = s ++ 0 :: rest.

Lemma blit_append b s rest t :
  b = s ++ 0 :: rest → zlen s + zlen t < zlen b →
  ∃ rest', blit b (zlen s) (t ++ [0]) = Ok (s ++ t ++ 0 :: rest') ∧ zlen (s ++ t ++ 0 :: rest') = zlen b.
Proof.
  intros -> Hl. assert (zlen s + zlen (t ++ [0]) ≤ zlen (s ++ 0 :: rest)) as Hl'.
  { rewrite (zlen_app t). change (zlen [0]) with 1. lia. }
  pose proof (blit_Ok _ _ _ (zlen_nonneg s) Hl') as Hb.
  replace (Z.to_nat (zlen s)) with (length s) in Hb by (unfold zlen; lia).
  rewrite take_app_length, <- (app_assoc t) in Hb. eexists. split; [exact Hb|]. by apply blit_len in Hb.
Qed.

Lemma concat_spec ss s t :
  holds ss s → zlen s + zlen t < BUFSIZE - 1 →
  ∃ ss', SStream_concat ss t = Ok ss' ∧ SStream_concat0 ss t = Ok ss' ∧ holds ss' (s ++ t).
Proof.
  intros (Hb & Hi & Hs & rest & E) Hl. unfold BUFSIZE in *. pose proof (zlen_nonneg s). pose proof (zlen_nonneg t).
  destruct (blit_append (buffer ss) s rest t E) as (r' & Hbl & Hlen); [lia|].
  exists (mkSS (s ++ t ++ 0 :: r') (zlen (s ++ t))). split_conj.
  - unfold SStream_concat, vsnprintf, BUFSIZE. rewrite wrap_small by (unfold in_u; lia).
    rewrite (proj2 (Z.eqb_neq _ 0)) by lia. rewrite take_ge by (unfold zlen in *; lia). rewrite Hi, Hbl.
    cbn [mbind outcome_bind]. rewrite (swrap_small 32 (zlen t)), (swrap_small 32) by lia.
    by rewrite <- zlen_app.
  - unfold SStream_concat0. rewrite wrap_small by (unfold in_u; lia). rewrite Hi.
    rewrite take_ge by (unfold zlen; lia). rewrite blit_snoc in Hbl. rewrite swrap_small by lia.
    rewrite <- zlen_app in *. apply bind_Ok_inv in Hbl as (b1 & -> & Hb1). cbn [mbind outcome_bind]. by rewrite Hb1.
  - unfold holds, BUFSIZE. cbn [buffer index]. split_conj; [by rewrite Hlen|done|rewrite zlen_app; lia|].
    exists r'. by rewrite <- app_assoc.
Qed.

Lemma Init_spec ss : zlen (buffer ss) = BUFSIZE → ∃ ss', SStream_Init ss = Ok ss' ∧ holds ss' [].
Proof.
  intros Hb. unfold SStream_Init, BUFSIZE in *. rewrite aset_Ok by lia. cbn [mbind outcome_bind].
  eexists. split; [done|]. unfold holds, BUFSIZE. cbn [buffer index]. rewrite zlen_insert. split_conj; [done..|].
  destruct (buffer ss) as [|b0 b]; [done|]. cbn. eauto.
Qed.

(** A sequence of appends, formatted or plain. *)
Inductive piece := Fmt (text : list Z) | Plain (text : list Z).

Definition piece_text (p : piece) : list Z := match p with Fmt t | Plain t => t end.

Fixpoint append_all (ss : SStream) (ps : list piece) : outcome SStream :=
  match ps with
  | [] => Ok ss
  | Fmt t :: ps => ss ← SStream_concat ss t; append_all ss ps
  | Plain t :: ps => ss ← SStream_concat0 ss t; append_all ss ps
  end.

Definition texts (ps : list piece) : list Z := concat (piece_text <$> ps).

Lemma append_all_spec ps ss s :
  holds ss s → zlen s + zlen (texts ps) < BUFSIZE - 1 →
  ∃ ss', append_all ss ps = Ok ss' ∧ holds ss' (s ++ texts ps).
Proof.
  revert ss s. unfold texts. induction ps as [|p ps IH]; intros ss s Hh Hl; cbn [append_all fmap list_fmap concat] in *.
  - exists ss. by rewrite app_nil_r.
  - rewrite zlen_app in Hl. pose proof (zlen_nonneg (concat (piece_text <$> ps))).
    destruct (concat_spec ss s (piece_text p) Hh) as (ss1 & H1 & H2 & Hh1); [unfold fmap in *; lia|].
    destruct (IH ss1 _ Hh1) as (ss' & Ha & Hh'); [rewrite zlen_app; unfold fmap in *; lia|].
    exists ss'. rewrite app_assoc. split; [|done]. destruct p; cbn [piece_text] in *; by rewrite ?H1, ?H2.
Qed.

(** Streams collect text: after [SStream_Init], any sequence of formatted
    ([SStream_concat]) and plain ([SStream_concat0]) appends whose texts fit
    in the buffer with a NUL leaves the stream holding their concatenation,
    NUL-terminated, with [index] at its end. *)
Theorem stream_collects (ss : SStream) (ps : list piece) :
  zlen (buffer ss) = BUFSIZE → zlen (texts ps) < BUFSIZE - 1 →
  ∃ ss', (ss ← SStream_Init ss; append_all ss ps) = Ok ss' ∧ holds ss' (texts ps).
Proof.
  intros Hb Hl. destruct (Init_spec ss Hb) as (ss0 & -> & H0). cbn [mbind outcome_bind].
  by apply (append_all_spec ps ss0 []).
Qed.

Definition ss0 : SStream := mkSS (replicate 512 7) 99.

Lemma stream_collects_witness :
  ∃ ss', (ss ← SStream_Init ss0; append_all ss [Fmt [97; 98]; Plain [99]]) = Ok ss' ∧ holds ss' [97; 98; 99].
Proof. apply (stream_collects ss0 [Fmt [97; 98]; Plain [99]]); [reflexivity|reflexivity]. Defined.

(** Formatted text that does not fit is truncated by [vsnprintf], but
    [index] advances by the whole length: it passes the NUL and then the end
    of the buffer, where the next size computation wraps around and the next
    append writes outside the buffer. *)
Theorem stream_overruns :
  let run := (ss ← SStream_Init ss0; append_all ss [Fmt (replicate 500 97); Fmt (replicate 20 98)]) in
  (ss ← run; Ok (index ss)) = Ok 520 ∧
  (ss ← run; b ← aget (buffer ss) 510; Ok b) = Ok 0 ∧
  (ss ← run; SStream_concat ss [99]) = Ub.
Proof. cbv zeta. split_conj; vm_compute; reflexivity. Qed.

(** ** Numbers *)

Definition digit_val (c : Z) : option Z :=
  if (48 <=? c) && (c <=? 57) then Some (c - 48)
  else if (97 <=? c) && (c <=? 102) then Some (c - 87) else None.

Fixpoint parse_digits (base acc : Z) (l : list Z) : option Z :=
  match l with
  | [] => Some acc
  | c :: l => d ← digit_val c; if d <? base then parse_digits base (acc * base + d) l else None
  end.

(** A number in decimal, or in hexadecimal after [0x]. *)
Definition parse_unsigned (l : list Z) : option Z :=
  match l with
  | [] => None
  | a :: b :: _ :: _ => if (a =? 48) && (b =? 120) then parse_digits 16 0 (drop 2 l) else parse_digits 10 0 l
  | _ => parse_digits 10 0 l
  end.

(** An optional minus sign. *)
Definition parse_signed (l : list Z) : option Z :=
  match l with
  | c :: r => if c =? 45 then n ← parse_unsigned r; Some (- n) else parse_unsigned l
  | [] => None
  end.

(** The number after a mandatory (or absent) leading sharp. *)
Definition parse_number (sharp : bool) (l : list Z) : option Z :=
  if sharp then match l with c :: r => if c =? 35 then parse_signed r else None | [] => None end
  else parse_signed l.

Lemma digit_val_char d : 0 ≤ d < 16 → digit_val (digit_char d) = Some d.
Proof.
  intros Hd. unfold digit_val, digit_char. zcases; try lia; f_equal; lia.
Qed.

Lemma parse_digits_app base acc l c :
  parse_digits base acc (l ++ [c]) =
    (a ← parse_digits base acc l; d ← digit_val c; if d <? base then Some (a * base + d) else None).
Proof.
  revert acc. induction l as [|x l IH]; intros acc; cbn; [done|].
  destruct (digit_val x) as [d|]; cbn; [|done]. destruct (d <? base); [apply IH|done].
Qed.

Lemma parse_digits_spec fuel base n :
  2 ≤ base ≤ 16 → 0 ≤ n < base ^ Z.of_nat fuel →
  parse_digits base 0 (digit_char <$> digits fuel base n) = Some n.
Proof.
  intros Hb. revert n. induction fuel as [|fuel IH]; intros n Hn.
  - cbn in *. f_equal. lia.
  - cbn [digits]. destruct (Z.ltb_spec n base) as [Hlt|Hge].
    + cbn. rewrite digit_val_char by lia. cbn. by rewrite (proj2 (Z.ltb_lt n base)) by lia.
    + rewrite Nat2Z.inj_succ, Z.pow_succ_r in Hn by lia.
      pose proof (Z.mod_pos_bound n base ltac:(lia)). pose proof (Z.div_mod n base ltac:(lia)).
      rewrite fmap_app. cbn [fmap list_fmap]. rewrite parse_digits_app.
      rewrite IH by (split; [apply Z.div_pos; lia|apply Z.div_lt_upper_bound; lia]). cbn.
      rewrite digit_val_char by lia. cbn. rewrite (proj2 (Z.ltb_lt _ base)) by lia. f_equal. lia.
Qed.

Lemma digits_length fuel base n k :
  2 ≤ base → 0 ≤ n < base ^ Z.of_nat (S k) → (length (digits fuel base n) ≤ S k)%nat.
Proof.
  intros Hb. revert n k. induction fuel as [|fuel IH]; intros n k Hn; cbn [digits]; [cbn; lia|].
  destruct (Z.ltb_spec n base) as [Hlt|Hge]; [cbn; lia|].
  destruct k as [|k]; [cbn [Z.of_nat] in Hn; rewrite Z.pow_1_r in Hn; lia|].
  rewrite length_app. cbn [length]. rewrite (Nat2Z.inj_succ (S k)), Z.pow_succ_r in Hn by lia.
  specialize (IH (n / base) k ltac:(split; [apply Z.div_pos; lia|apply Z.div_lt_upper_bound; lia])). lia.
Qed.

(** A width the printers use, and a number that fits. *)
Definition width (w : Z) : Prop := w = 32 ∨ w = 64.

Lemma fits_64 w n : width w → 0 ≤ n < 2 ^ w → wrap w n = n ∧ 0 ≤ n < 2 ^ 64.
Proof. intros [->| ->] H; (split; [by apply wrap_small|lia]). Qed.

(** Every character printed is a digit. *)
Lemma digit_chars fuel base n :
  2 ≤ base ≤ 10 → 0 ≤ n → Forall (fun c => 48 ≤ c ≤ 57) (digit_char <$> digits fuel base n).
Proof.
  intros Hb. revert n. induction fuel as [|fuel IH]; intros n Hn; cbn [digits]; [constructor|].
  destruct (Z.ltb_spec n base) as [Hlt|Hge].
  - repeat constructor; unfold digit_char; zcases; lia.
  - rewrite fmap_app. apply Forall_app. split; [apply IH, Z.div_pos; lia|].
    pose proof (Z.mod_pos_bound n base ltac:(lia)). repeat constructor; unfold digit_char; zcases; lia.
Qed.

Lemma digits_nonempty fuel base n : digits (S fuel) base n ≠ [].
Proof. cbn. case_bool; [done|]. by destruct (digits _ _ _). Qed.

(** Decimal and hexadecimal texts parse back and are short. *)
Lemma fmt_u_parse w n :
  width w → 0 ≤ n < 2 ^ w →
  parse_unsigned (fmt_u w n) = Some n ∧ zlen (fmt_u w n) ≤ 20 ∧ Forall (fun c => 48 ≤ c ≤ 57) (fmt_u w n) ∧
  fmt_u w n ≠ [].
Proof.
  intros Hw Hn. destruct (fits_64 w n Hw Hn) as [E H64]. unfold fmt_u. rewrite E.
  pose proof (digit_chars 64 10 n ltac:(lia) ltac:(lia)) as Hc.
  pose proof (parse_digits_spec 64 10 n ltac:(lia) ltac:(lia)) as Hp.
  pose proof (digits_length 64 10 n 19 ltac:(lia) ltac:(lia)) as Hl.
  assert (digit_char <$> digits 64 10 n ≠ []) as Hne.
  { intros Hnil%fmap_nil_inv. by apply (digits_nonempty 63 10 n). }
  split_conj; [|unfold zlen; rewrite length_fmap; lia|done|done].
  destruct (digit_char <$> digits 64 10 n) as [|a [|b [|c r]]]; [done..|]. cbn [parse_unsigned].
  apply Forall_cons in Hc as [_ [Hb _]%Forall_cons]. rewrite (proj2 (Z.eqb_neq b 120)) by lia.
  by rewrite andb_false_r.
Qed.

Lemma fmt_x_parse w n :
  width w → 0 ≤ n < 2 ^ w →
  parse_unsigned (hexpre ++ fmt_x w n) = Some n ∧ zlen (hexpre ++ fmt_x w n) ≤ 18.
Proof.
  intros Hw Hn. destruct (fits_64 w n Hw Hn) as [E H64]. unfold fmt_x. rewrite E.
  pose proof (parse_digits_spec 64 16 n ltac:(lia) ltac:(lia)) as Hp.
  pose proof (digits_length 64 16 n 15 ltac:(lia) ltac:(lia)) as Hl.
  assert (digit_char <$> digits 64 16 n ≠ []) as Hne.
  { intros Hnil%fmap_nil_inv. by apply (digits_nonempty 63 16 n). }
  split; [|rewrite zlen_app; unfold zlen at 2; rewrite length_fmap; change (zlen hexpre) with 2; lia].
  by destruct (digit_char <$> digits 64 16 n) as [|a r].
Qed.

Lemma unsigned_text_parse w n :
  width w → 0 ≤ n < 2 ^ w →
  parse_signed (unsigned_text w n) = Some n ∧ zlen (unsigned_text w n) ≤ 20.
Proof.
  intros Hw Hn. unfold unsigned_text.
  destruct (fmt_u_parse w n Hw Hn) as (Hu & Hul & Hc & Hne). destruct (fmt_x_parse w n Hw Hn) as [Hx Hxl].
  case_bool; [by split; [|lia]|]. split; [|done]. destruct (fmt_u w n) as [|a r] eqn:Ef; [done|].
  apply Forall_cons in Hc as [Ha _]. unfold parse_signed. by rewrite (proj2 (Z.eqb_neq a 45)) by lia.
Qed.

Lemma parse_minus t n : parse_unsigned t = Some (- n) → parse_signed (minus ++ t) = Some n.
Proof. intros Ht. cbn. rewrite Ht. cbn. f_equal. lia. Qed.

Lemma signed_text_parse w MIN n :
  width w → MIN = - 2 ^ (w - 1) → - 2 ^ (w - 1) ≤ n < 2 ^ (w - 1) →
  ∃ t, signed_text w MIN n = Ok t ∧ parse_signed t = Some n ∧ zlen t ≤ 21.
Proof.
  intros Hw -> Hn. assert (2 ^ w = 2 * 2 ^ (w - 1)) as Ew by (destruct Hw as [->| ->]; reflexivity).
  assert (9 < 2 ^ (w - 1)) by (destruct Hw as [->| ->]; reflexivity).
  unfold signed_text, neg, HEX_THRESHOLD. destruct (Z.leb_spec 0 n) as [Hp|Hneg].
  - destruct (unsigned_text_parse w n Hw ltac:(lia)) as [Hu Hl]. unfold unsigned_text, HEX_THRESHOLD in *.
    case_bool; eexists; (split_conj; [done|done|lia]).
  - destruct (fmt_u_parse w (- n) Hw ltac:(lia)) as (Hu & Hul & _). destruct (fmt_x_parse w (- n) Hw ltac:(lia)) as [Hx Hxl].
    pose proof (fun t => parse_minus t n) as Hm.
    assert (∀ t, zlen (minus ++ t) = 1 + zlen t) as Hml by (intros; apply zlen_app).
    destruct (Z.ltb_spec n (- (9))) as [Hlt|Hge].
    + destruct (Z.eqb_spec n (- 2 ^ (w - 1))) as [Em|Em]; cbn [mbind outcome_bind]; eexists.
      * assert (fmt_x w n = fmt_x w (- n)) as ->.
        { unfold fmt_x. do 2 f_equal. apply (wrap_eq w _ _ (-1)). lia. }
        split_conj; [done|by apply Hm|rewrite Hml; lia].
      * split_conj; [done|by apply Hm|rewrite Hml; lia].
    + rewrite (proj2 (Z.eqb_neq n _)) by lia. cbn [mbind outcome_bind]. eexists.
      split_conj; [done|by apply Hm|rewrite Hml; lia].
Qed.

(** The printer appended a text that denotes [val]. *)
Definition prints (r : outcome SStream) (s : list Z) (sharp : bool) (val : Z) : Prop :=
  ∃ ss' t, r = Ok ss' ∧ holds ss' (s ++ t) ∧ parse_number sharp t = Some val.

Lemma concat_prints ss s t (sharp : bool) val :
  holds ss s → zlen s ≤ 480 → parse_signed t = Some val → zlen t ≤ 21 →
  prints (SStream_concat ss (if sharp then bang ++ t else t)) s sharp val.
Proof.
  intros Hh Hs Hp Hl. pose proof (zlen_nonneg t).
  destruct (concat_spec ss s (if sharp then bang ++ t else t) Hh) as (ss' & H1 & _ & H2).
  { destruct sharp; rewrite ?(zlen_app bang); unfold BUFSIZE; change (zlen bang) with 1; lia. }
  exists ss', (if sharp then bang ++ t else t). split_conj; [done|done|]. by destruct sharp.
Qed.

Lemma dec_prints ss s val :
  holds ss s → zlen s ≤ 480 → - 2 ^ 31 ≤ val < 2 ^ 31 → prints (printInt32BangDec ss val) s true val.
Proof.
  intros Hh Hs Hv. assert (width 32) as Hw by (by left). unfold printInt32BangDec, neg, INT_MIN.
  destruct (Z.leb_spec 0 val).
  - destruct (fmt_u_parse 32 val Hw ltac:(lia)) as (Hu & Hl & Hc & Hne).
    apply (concat_prints ss s (fmt_u 32 val) true); [done..| |lia].
    destruct (fmt_u 32 val) as [|a r] eqn:E; [done|]. apply Forall_cons in Hc as [Ha _].
    unfold parse_signed. by rewrite (proj2 (Z.eqb_neq a 45)) by lia.
  - destruct (fmt_u_parse 32 (- val) Hw ltac:(lia)) as (Hu & Hl & _ & _).
    assert (prints (SStream_concat ss (bang ++ minus ++ fmt_u 32 (- val))) s true val) as Hgoal.
    { apply (concat_prints ss s (minus ++ fmt_u 32 (- val)) true); [done..| |].
      - by apply parse_minus.
      - rewrite zlen_app. change (zlen minus) with 1. lia. }
    destruct (Z.eqb_spec val (- 2 ^ 31)) as [E|E].
    + assert (fmt_u 32 val = fmt_u 32 (- val)) as ->; [|done].
      unfold fmt_u. do 2 f_equal. apply (wrap_eq 32 _ _ (-1)). lia.
    + rewrite (proj2 (Z.eqb_neq _ _)) by (change (32 - 1) with 31; lia). exact Hgoal.
Qed.

(** Number printing round trip: on a 64-bit machine, every printer of the
    stream appends a text that reads back as the number it was given (with a
    leading sharp for the Bang variants), for all values of the argument's
    type, the smallest ones included. *)
Theorem printers_roundtrip (ss : SStream) (s : list Z) (i64 u64 i32 u32 : Z) :
  holds ss s → zlen s ≤ 480 →
  - 2 ^ 63 ≤ i64 < 2 ^ 63 → 0 ≤ u64 < 2 ^ 64 → - 2 ^ 31 ≤ i32 < 2 ^ 31 → 0 ≤ u32 < 2 ^ 32 →
  prints (printInt64Bang 64 ss i64) s true i64 ∧ prints (printInt64 64 ss i64) s false i64 ∧
  prints (printUInt64Bang ss u64) s true u64 ∧
  prints (printInt32Bang ss i32) s true i32 ∧ prints (printInt32 ss i32) s false i32 ∧
  prints (printInt32BangDec ss i32) s true i32 ∧
  prints (printUInt32Bang ss u32) s true u32 ∧ prints (printUInt32 ss u32) s false u32.
Proof.
  intros Hh Hs H1 H2 H3 H4. assert (width 64 ∧ width 32) as [Hw Hw'] by (unfold width; lia).
  destruct (signed_text_parse 64 (LONG_MIN 64) i64 Hw eq_refl H1) as (t1 & E1 & P1 & L1).
  destruct (signed_text_parse 32 INT_MIN i32 Hw' eq_refl H3) as (t3 & E3 & P3 & L3).
  destruct (unsigned_text_parse 64 u64 Hw H2) as [P2 L2]. destruct (unsigned_text_parse 32 u32 Hw' H4) as [P4 L4].
  unfold printInt64Bang, printInt64, printUInt64Bang, printInt32Bang, printInt32, printUInt32Bang, printUInt32.
  rewrite E1, E3. cbn [mbind outcome_bind]. split_conj;
    first [by apply dec_prints
          |by apply (concat_prints ss s t1 true)|by apply (concat_prints ss s t1 false)
          |by apply (concat_prints ss s t3 true)|by apply (concat_prints ss s t3 false)
          |apply (concat_prints ss s (unsigned_text 64 u64) true); (done || lia)
          |apply (concat_prints ss s (unsigned_text 32 u32) true); (done || lia)
          |apply (concat_prints ss s (unsigned_text 32 u32) false); (done || lia)].
Qed.

Lemma printers_roundtrip_witness :
  prints (printInt64Bang 64 (mkSS (replicate 512 0) 0) (- 2 ^ 63)) [] true (- 2 ^ 63).
Proof.
  apply (printers_roundtrip (mkSS (replicate 512 0) 0) [] (- 2 ^ 63) 0 0 0);
    [|vm_compute; discriminate|lia|lia|lia|lia].
  unfold holds. split_conj; [reflexivity|reflexivity|reflexivity|]. eexists. reflexivity.
Defined.

(** Where [long] has 32 bits (the i386 build), the comparison with
    [LONG_MIN] is meant for the smallest 64-bit number but catches [-2^31],
    which is printed with the bits of its two's complement, and the negation
    of the smallest 64-bit number overflows. *)
Theorem printInt64_ilp32 :
  signed_text 64 (LONG_MIN 32) (- 2 ^ 31) = Ok (minus ++ hexpre ++ fmt_x 64 (2 ^ 64 - 2 ^ 31)) ∧
  signed_text 64 (LONG_MIN 32) (- 2 ^ 63) = Ub.
Proof. split; reflexivity. Qed.

End SStream.
