(* ===== verification/CsCore.v ===== *)
(** * Capstone: the engine's handle and text ([Lilu.kext/capstone/cs.c], first half)

    Build configuration, error codes, the handle and its options, opening and
    closing, and the conversion of printed text into the public instruction.
    The architecture back ends are reached through the function pointers a
    handle carries; here they are arguments.  The heap is a set of live blocks
    with an oracle that decides which requests succeed, so that leaks, double
    frees and failure paths are visible. *)

From Stdlib Require Import ZArith Lia String.
From stdpp Require Import gmap.
From S2P Require Import Prelude CsUtils CsMcInst CsSStream.

(** ** The details of an x86 instruction ([include/x86.h]) *)
Module X86Data.

(** The union of [cs_x86_op], by the member that was written last; cleared
    memory reads as 0 through all of them. *)
Inductive op_value :=
| V0
| VReg (reg : Z)
| VImm (imm : Z)
| VMem (segment base index scale disp : Z).

Record cs_x86_op := mkX86Op { xo_type : Z; xo_value : op_value; xo_size : Z; xo_avx_bcast : Z; xo_avx_zero_opmask : bool }.
Definition op0 : cs_x86_op := mkX86Op 0 V0 0 0 false.

Record cs_x86 := mkX86 {
  x_prefix : list Z;
  x_opcode : list Z;
  x_rex : Z;
  x_addr_size : Z;
  x_modrm : Z;
  x_sib : Z;
  x_disp : Z;
  x_sib_index : Z;
  x_sib_scale : Z;
  x_sib_base : Z;
  x_sse_cc : Z;
  x_avx_cc : Z;
  x_avx_sae : bool;
  x_avx_rm : Z;
  x_op_count : Z;
  x_operands : list cs_x86_op
}.

End X86Data.

Module Cs.
Import Utils X86Data.

Open Scope c_scope.

(** ** Constants *)

Definition CS_ARCH_ARM := 0.
Definition CS_ARCH_ARM64 := 1.
Definition CS_ARCH_MIPS := 2.
Definition CS_ARCH_X86 := 3.
Definition CS_ARCH_PPC := 4.
Definition CS_ARCH_SPARC := 5.
Definition CS_ARCH_SYSZ := 6.
Definition CS_ARCH_XCORE := 7.
Definition CS_ARCH_MAX := 8.
Definition CS_ARCH_ALL := 0xFFFF.
Definition CS_SUPPORT_DIET := CS_ARCH_ALL + 1.
Definition CS_SUPPORT_X86_REDUCE := CS_ARCH_ALL + 2.

Definition CS_MODE_LITTLE_ENDIAN := 0.
Definition CS_MODE_ARM := 0.
Definition CS_MODE_16 := 1 << 1.
Definition CS_MODE_32 := 1 << 2.
Definition CS_MODE_64 := 1 << 3.
Definition CS_MODE_THUMB := 1 << 4.
Definition CS_MODE_MCLASS := 1 << 5.
Definition CS_MODE_V8 := 1 << 6.
Definition CS_MODE_MICRO := 1 << 4.
Definition CS_MODE_MIPS32R6 := 1 << 6.
Definition CS_MODE_MIPSGP64 := 1 << 7.
Definition CS_MODE_V9 := 1 << 4.
Definition CS_MODE_BIG_ENDIAN := 1 << 31.

Definition CS_ERR_OK := 0.
Definition CS_ERR_MEM := 1.
Definition CS_ERR_ARCH := 2.
Definition CS_ERR_HANDLE := 3.
Definition CS_ERR_CSH := 4.
Definition CS_ERR_MODE := 5.
Definition CS_ERR_OPTION := 6.
Definition CS_ERR_DETAIL := 7.
Definition CS_ERR_MEMSETUP := 8.
Definition CS_ERR_VERSION := 9.
Definition CS_ERR_DIET := 10.
Definition CS_ERR_SKIPDATA := 11.

Definition CS_OPT_SYNTAX := 1.
Definition CS_OPT_DETAIL := 2.
Definition CS_OPT_MODE := 3.
Definition CS_OPT_MEM := 4.
Definition CS_OPT_SKIPDATA := 5.
Definition CS_OPT_SKIPDATA_SETUP := 6.
Definition CS_OPT_OFF := 0.
Definition CS_OPT_ON := 3.

(** ** Build configuration

    The preprocessor symbols the file tests: the architectures built in, the
    diet engine (no text), the reduced x86 engine, the system allocator and
    the kernel extension build. *)
Record build := mkBuild {
  has_arch : Z → bool;
  diet : bool;
  x86_reduce : bool;
  sys_dyn_mem : bool;
  osxkernel : bool
}.

Definition INSN_CACHE_SIZE (b : build) : Z := if osxkernel b || diet b then 8 else 32.

(** [cs_arch_disallowed_mode_mask]: the complement, as an [int], of the
    modes each architecture accepts; 0 when it is not built in. *)
Definition allowed_modes (arch : Z) : Z :=
  if arch =? CS_ARCH_ARM then CS_MODE_V8 .| CS_MODE_MCLASS .| CS_MODE_THUMB .| CS_MODE_BIG_ENDIAN
  else if arch =? CS_ARCH_ARM64 then CS_MODE_BIG_ENDIAN
  else if arch =? CS_ARCH_MIPS then
    CS_MODE_32 .| CS_MODE_64 .| CS_MODE_MICRO .| CS_MODE_MIPS32R6 .| CS_MODE_MIPSGP64 .| CS_MODE_BIG_ENDIAN
  else if arch =? CS_ARCH_X86 then CS_MODE_32 .| CS_MODE_64 .| CS_MODE_16
  else if arch =? CS_ARCH_PPC then CS_MODE_32 .| CS_MODE_64 .| CS_MODE_BIG_ENDIAN
  else if arch =? CS_ARCH_SPARC then CS_MODE_BIG_ENDIAN .| CS_MODE_V9
  else CS_MODE_BIG_ENDIAN.

Definition cs_arch_disallowed_mode_mask (b : build) (arch : Z) : outcome Z :=
  if (0 <=? arch) && (arch <? CS_ARCH_MAX) then
    Ok (if has_arch b arch then s32 (Z.lnot (allowed_modes arch)) else 0)
  else Ub.

(** [all_arch]: one bit per architecture built in. *)
Definition all_arch (b : build) : Z :=
  foldr (fun a r => (if has_arch b a then 1 << a else 0) .| r) 0 (seqZ 0 8).

Definition CS_API_MAJOR := 3.
Definition CS_API_MINOR := 0.

(** The values stored through [major] and [minor] (when both are given) and
    the result. *)
Definition cs_version (both : bool) : option (Z * Z) * Z :=
  (if both then Some (CS_API_MAJOR, CS_API_MINOR) else None, (CS_API_MAJOR << 8) + CS_API_MINOR).

Definition cs_support (b : build) (query : Z) : bool :=
  if query =? CS_ARCH_ALL then all_arch b =? 255
  else if u32 query <? CS_ARCH_MAX then ctrue (all_arch b & (1 << query))
  else if query =? CS_SUPPORT_DIET then diet b
  else if query =? CS_SUPPORT_X86_REDUCE then has_arch b CS_ARCH_X86 && x86_reduce b
  else false.

(** ** The heap *)

(** Blocks are numbered by the request that created them. *)
Record mem := mkMem { next : Z; live : gset Z }.

Section heap.
  (** Whether request number [n], of the given size, is served. *)
  Context (avail : Z → Z → bool).

Definition cs_mem_malloc (sz : Z) (m : mem) : option Z * mem :=
  if avail (next m) sz then (Some (next m), mkMem (next m + 1) ({[next m]} ∪ live m))
  else (None, mkMem (next m + 1) (live m)).

(** Freeing [NULL] does nothing; a block that is not live is a double free. *)
Definition cs_mem_free (p : option Z) (m : mem) : outcome mem :=
  match p with
  | None => Ok m
  | Some b => if decide (b ∈ live m) then Ok (mkMem (next m) (live m ∖ {[b]})) else Ub
  end.

(** A failed [realloc] keeps the old block. *)
Definition cs_mem_realloc (b sz : Z) (m : mem) : outcome (option Z * mem) :=
  if decide (b ∈ live m) then
    if avail (next m) sz then Ok (Some (next m), mkMem (next m + 1) ({[next m]} ∪ (live m ∖ {[b]})))
    else Ok (None, mkMem (next m + 1) (live m))
  else Ub.
End heap.

(** ** Data *)

(** [cs_detail]: the architecture part is a union, of which a handle uses the
    member of its architecture; that of x86 is [x86], and [other a] is the
    reading as the structure of another architecture [a], as the operand count
    and the types in its operand array. *)
Record cs_detail := mkDetail {
  regs_read : list Z;
  regs_read_count : Z;
  regs_write : list Z;
  regs_write_count : Z;
  groups : list Z;
  groups_count : Z;
  x86 : cs_x86;
  other : Z → Z * list Z
}.

Definition set_x86_detail (d : cs_detail) (x : cs_x86) : cs_detail :=
  mkDetail (regs_read d) (regs_read_count d) (regs_write d) (regs_write_count d) (groups d) (groups_count d) x (other d).

(** The operand count and the operand types. *)
Definition view (d : cs_detail) (a : Z) : Z * list Z :=
  if a =? CS_ARCH_X86 then (x_op_count (x86 d), xo_type <$> x_operands (x86 d)) else other d a.

(** Details without operands. *)
Definition empty_x86 : cs_x86 := mkX86 [] [] 0 0 0 0 0 0 0 0 0 0 false 0 0 [].

(** [detail] is the block and its contents. *)
Record cs_insn := mkInsn {
  i_id : Z;
  i_address : Z;
  i_size : Z;
  i_bytes : list Z;
  i_mnemonic : list Z;
  i_op_str : list Z;
  i_detail : option (Z * cs_detail)
}.

Definition set_id (i : cs_insn) (x : Z) : cs_insn :=
  mkInsn x (i_address i) (i_size i) (i_bytes i) (i_mnemonic i) (i_op_str i) (i_detail i).
Definition set_address (i : cs_insn) (x : Z) : cs_insn :=
  mkInsn (i_id i) x (i_size i) (i_bytes i) (i_mnemonic i) (i_op_str i) (i_detail i).
Definition set_isize (i : cs_insn) (x : Z) : cs_insn :=
  mkInsn (i_id i) (i_address i) x (i_bytes i) (i_mnemonic i) (i_op_str i) (i_detail i).
Definition set_bytes (i : cs_insn) (x : list Z) : cs_insn :=
  mkInsn (i_id i) (i_address i) (i_size i) x (i_mnemonic i) (i_op_str i) (i_detail i).
Definition set_text (i : cs_insn) (mn os : list Z) : cs_insn :=
  mkInsn (i_id i) (i_address i) (i_size i) (i_bytes i) mn os (i_detail i).
Definition set_detail (i : cs_insn) (d : option (Z * cs_detail)) : cs_insn :=
  mkInsn (i_id i) (i_address i) (i_size i) (i_bytes i) (i_mnemonic i) (i_op_str i) d.

(** [cs_opt_skipdata]: a [NULL] mnemonic or callback is [None]; the callback
    is given the buffer, its size and the position, with its user data
    applied. *)
Record cs_opt_skipdata := mkSkip {
  sk_mnemonic : option (list Z);
  callback : option (list Z → Z → Z → Z)
}.

(** The data fields of [cs_struct]. *)
Record cs_struct := mkCs {
  arch : Z;
  mode : Z;
  printer_info : option Z;
  errnum : Z;
  ITBlock_size : Z;
  detail : Z;
  insn_cache : option Z;
  skipdata : bool;
  skipdata_size : Z;
  skipdata_setup : cs_opt_skipdata
}.

Definition set_errnum (h : cs_struct) (e : Z) : cs_struct :=
  mkCs (arch h) (mode h) (printer_info h) e (ITBlock_size h) (detail h) (insn_cache h) (skipdata h)
    (skipdata_size h) (skipdata_setup h).
Definition set_ITBlock_size (h : cs_struct) (n : Z) : cs_struct :=
  mkCs (arch h) (mode h) (printer_info h) (errnum h) n (detail h) (insn_cache h) (skipdata h)
    (skipdata_size h) (skipdata_setup h).
Definition set_insn_cache (h : cs_struct) (p : option Z) : cs_struct :=
  mkCs (arch h) (mode h) (printer_info h) (errnum h) (ITBlock_size h) (detail h) p (skipdata h)
    (skipdata_size h) (skipdata_setup h).
Definition set_hdetail (h : cs_struct) (d : Z) : cs_struct :=
  mkCs (arch h) (mode h) (printer_info h) (errnum h) (ITBlock_size h) d (insn_cache h) (skipdata h)
    (skipdata_size h) (skipdata_setup h).
Definition set_skipdata (h : cs_struct) (b : bool) (n : Z) : cs_struct :=
  mkCs (arch h) (mode h) (printer_info h) (errnum h) (ITBlock_size h) (detail h) (insn_cache h) b n
    (skipdata_setup h).
Definition set_setup (h : cs_struct) (s : cs_opt_skipdata) : cs_struct :=
  mkCs (arch h) (mode h) (printer_info h) (errnum h) (ITBlock_size h) (detail h) (insn_cache h) (skipdata h)
    (skipdata_size h) s.

(** [".byte"] *)
Definition SKIPDATA_MNEM (b : build) : option (list Z) :=
  if diet b then None else Some [46; 98; 121; 116; 101].

(** ** Errors *)

Definition cs_errno (handle : option cs_struct) : Z :=
  match handle with None => CS_ERR_CSH | Some ud => errnum ud end.

Definition cs_strerror (code : Z) : string :=
  (if (code =? CS_ERR_OK)%Z then "OK (CS_ERR_OK)"
   else if (code =? CS_ERR_MEM)%Z then "Out of memory (CS_ERR_MEM)"
   else if (code =? CS_ERR_ARCH)%Z then "Invalid architecture (CS_ERR_ARCH)"
   else if (code =? CS_ERR_HANDLE)%Z then "Invalid handle (CS_ERR_HANDLE)"
   else if (code =? CS_ERR_CSH)%Z then "Invalid csh (CS_ERR_CSH)"
   else if (code =? CS_ERR_MODE)%Z then "Invalid mode (CS_ERR_MODE)"
   else if (code =? CS_ERR_OPTION)%Z then "Invalid option (CS_ERR_OPTION)"
   else if (code =? CS_ERR_DETAIL)%Z then "Details are unavailable (CS_ERR_DETAIL)"
   else if (code =? CS_ERR_MEMSETUP)%Z then "Dynamic memory management uninitialized (CS_ERR_MEMSETUP)"
   else if (code =? CS_ERR_VERSION)%Z then "Different API version between core & binding (CS_ERR_VERSION)"
   else if (code =? CS_ERR_DIET)%Z then "Information irrelevant in diet engine (CS_ERR_DIET)"
   else if (code =? CS_ERR_SKIPDATA)%Z then
     "Information irrelevant for 'data' instruction in SKIPDATA mode (CS_ERR_SKIPDATA)"
   else "Unknown error code")%string.

(** ** Opening and closing *)

(** [cs_mem_malloc] and the other function pointers: set or [NULL]. *)
Record mem_setup := mkSetup {
  have_malloc : bool; have_calloc : bool; have_realloc : bool; have_free : bool; have_vsnprintf : bool
}.

Definition setup_ready (g : mem_setup) : bool :=
  have_malloc g && have_calloc g && have_realloc g && have_free g && have_vsnprintf g.

(** Their initial values. *)
Definition initial_setup (b : build) : mem_setup :=
  let s := sys_dyn_mem b in mkSetup s s s s s.

Section handles.
  Context (b : build) (avail : Z → Z → bool) (sizeof_cs_struct : Z).
  (** The back ends' [_global_init] and [_option] functions. *)
  Context (global_init : Z → cs_struct → mem → outcome (Z * cs_struct * mem)).
  Context (global_option : Z → cs_struct → Z → Z → Z * cs_struct).

Definition cs_arch_init (a : Z) : option (cs_struct → mem → outcome (Z * cs_struct * mem)) :=
  if has_arch b a then Some (global_init a) else None.

(** What happened to [*handle]: left alone, zeroed, or set to a new engine. *)
Inductive handle_out :=
| Untouched
| Zeroed
| Opened (p : Z) (ud : cs_struct).

(** A zeroed structure with the fields [cs_open] sets. *)
Definition fresh_struct (a md : Z) : cs_struct :=
  mkCs a md None CS_ERR_OK 0 CS_OPT_OFF None false 0 (mkSkip (SKIPDATA_MNEM b) None).

Definition cs_open (g : mem_setup) (a md : Z) (m : mem) : outcome (Z * handle_out * mem) :=
  if negb (setup_ready g) then Ok (CS_ERR_MEMSETUP, Untouched, m) else
  if a <? CS_ARCH_MAX then
    match cs_arch_init a with
    | Some init =>
        mask ← cs_arch_disallowed_mode_mask b a;
        if ctrue (md & mask) then Ok (CS_ERR_MODE, Zeroed, m) else
        match cs_mem_malloc avail sizeof_cs_struct m with
        | (None, m) => Ok (CS_ERR_MEM, Untouched, m)
        | (Some p, m) =>
            '(err, ud, m) ← init (fresh_struct a md) m;
            if ctrue err then
              m ← cs_mem_free (Some p) m;
              Ok (err, Zeroed, m)
            else Ok (CS_ERR_OK, Opened p ud, m)
        end
    | None => Ok (CS_ERR_ARCH, Zeroed, m)
    end
  else Ok (CS_ERR_ARCH, Zeroed, m).

(** The result, the new [*handle] and the heap. *)
Definition cs_close (handle : option (Z * cs_struct)) (m : mem)
    : outcome (Z * option (Z * cs_struct) * mem) :=
  match handle with
  | None => Ok (CS_ERR_CSH, None, m)
  | Some (p, ud) =>
      m ← cs_mem_free (printer_info ud) m;
      m ← cs_mem_free (insn_cache ud) m;
      m ← cs_mem_free (Some p) m;
      Ok (CS_ERR_OK, None, m)
  end.

(** [skipdata_size]: bytes skipped per step of data. *)
Definition default_skipdata_size (h : cs_struct) : Z :=
  if arch h =? CS_ARCH_ARM then if ctrue (mode h & CS_MODE_THUMB) then 2 else 4
  else if (arch h =? CS_ARCH_ARM64) || (arch h =? CS_ARCH_MIPS) || (arch h =? CS_ARCH_PPC) || (arch h =? CS_ARCH_SPARC) then 4
  else if arch h =? CS_ARCH_SYSZ then 2
  else if arch h =? CS_ARCH_X86 then 1
  else if arch h =? CS_ARCH_XCORE then 2
  else u8 (-1).

(** The [value] argument, an integer or a pointer to one of two structures. *)
Inductive opt_value :=
| Int (n : Z)
| Mem (s : mem_setup)
| Setup (s : option cs_opt_skipdata).

(** The result, the handle and the allocator setup; a value of another type
    than the option's is not a valid call. *)
Definition cs_option (ud : option cs_struct) (type : Z) (value : opt_value) (g : mem_setup)
    : outcome (Z * option cs_struct * mem_setup) :=
  if type =? CS_OPT_MEM then
    match value with Mem s => Ok (CS_ERR_OK, ud, s) | _ => Ub end
  else
  match ud with
  | None => Ok (CS_ERR_CSH, None, g)
  | Some handle =>
      if type =? CS_OPT_SKIPDATA_SETUP then
        match value with
        | Setup (Some s) => Ok (CS_ERR_OK, Some (set_setup handle s), g)
        | Setup None => Ok (CS_ERR_OK, Some handle, g)
        | _ => Ub
        end
      else
      match value with
      | Int v =>
          let rest := let '(e, h) := global_option (arch handle) handle type v in Ok (e, Some h, g) in
          if type =? CS_OPT_DETAIL then Ok (CS_ERR_OK, Some (set_hdetail handle (u32 v)), g)
          else if type =? CS_OPT_SKIPDATA then
            let on := v =? CS_OPT_ON in
            let n := if on && (skipdata_size handle =? 0) then default_skipdata_size handle
                     else skipdata_size handle in
            Ok (CS_ERR_OK, Some (set_skipdata handle on n), g)
          else if type =? CS_OPT_MODE then
            mask ← cs_arch_disallowed_mode_mask b (arch handle);
            if ctrue (v & mask) then Ok (CS_ERR_OPTION, Some handle, g) else rest
          else rest
      | _ => Ub
      end
  end.
End handles.

(** ** Text *)

Definition is_blank (c : Z) : bool := (c =? 32) || (c =? 9).

(** [for (sp = buffer; *sp; sp++) ...]: copies the mnemonic, turning [|] into
    a space; returns the buffer, the mnemonic, and the two positions. *)
Fixpoint mnem_loop (fuel : nat) (buf mnem : list Z) (sp mp : Z) : outcome (list Z * list Z * Z * Z) :=
  match fuel with
  | O => NoFuel
  | S fuel =>
      c ← aget buf sp;
      if (c =? 0) || is_blank c then Ok (buf, mnem, sp, mp) else
      buf ← (if c =? 124 then aset buf sp 32 else Ok buf);
      c ← aget buf sp;
      mnem ← aset mnem mp c;
      mnem_loop fuel buf mnem (sp + 1) (mp + 1)
  end.

(** [for (; ( *sp == ' ') || ( *sp == '\t'); sp++);] *)
Fixpoint blank_loop (fuel : nat) (buf : list Z) (sp : Z) : outcome Z :=
  match fuel with
  | O => NoFuel
  | S fuel => c ← aget buf sp; if is_blank c then blank_loop fuel buf (sp + 1) else Ok sp
  end.

(** At most [n] characters of the string at [off], its NUL excluded. *)
Fixpoint read_str (n : nat) (buf : list Z) (off : Z) : outcome (list Z) :=
  match n with
  | O => Ok []
  | S n =>
      c ← aget buf off;
      if c =? 0 then Ok [] else r ← read_str n buf (off + 1); Ok (c :: r)
  end.

(** [strncpy(dst, src, n)]: pads with NULs up to [n]. *)
Definition strncpy (dst src : list Z) (n : nat) : outcome (list Z) :=
  let s := take n src in blit dst 0 (s ++ replicate (n - length s) 0).

Definition sizeof_op_str := 160.

(** The mnemonic and the operand string from the printed text. *)
Definition split_text (buffer mnemonic op_str : list Z) : outcome (list Z * list Z) :=
  '(buffer, mn, sp, mp) ← mnem_loop (S (length buffer)) buffer mnemonic 0 0;
  mn ← aset mn mp 0;
  c ← aget buffer sp;
  os ← (if ctrue c then
          sp ← blank_loop (S (length buffer)) buffer (sp + 1);
          s ← read_str 159 buffer sp;
          os ← strncpy op_str s 159;
          aset os (sizeof_op_str - 1) 0
        else aset op_str 0 0);
  Ok (mn, os).

(** A hook that may adjust the instruction and its text. *)
Definition PostPrinter_t : Type := cs_insn → list Z → McInst.MCInst → outcome (cs_insn * list Z).

Definition fill_insn (b : build) (insn : cs_insn) (buffer : list Z) (mci : McInst.MCInst)
    (postprinter : option PostPrinter_t) (code : list Z) : outcome cs_insn :=
  let copy_size := if 16 <? i_size insn then 16 else i_size insn in
  bytes ← (if i_size insn <=? zlen code then
             blit (i_bytes insn) 0 (take (Z.to_nat copy_size) (drop (Z.to_nat (i_size insn - copy_size)) code))
           else Ub);
  let insn := set_isize (set_bytes insn bytes) copy_size in
  let insn := if ctrue (McInst.MCInst_getOpcodePub mci) then set_id insn (McInst.MCInst_getOpcodePub mci) else insn in
  '(insn, buffer) ← match postprinter with
                    | Some pp => pp insn buffer mci
                    | None => Ok (insn, buffer)
                    end;
  if diet b then Ok insn else
  '(mn, os) ← split_text buffer (i_mnemonic insn) (i_op_str insn);
  Ok (set_text insn mn os).

(** [0x%02x] *)
Definition fmt_02x (n : Z) : list Z := [48; 120; SStream.digit_char (n / 16); SStream.digit_char (n mod 16)].

(** The bytes after the first; [p] and [available] as in the code. *)
Fixpoint opstr_loop (opstr : list Z) (p available : Z) (rest : list Z) : outcome (list Z) :=
  match rest with
  | [] => Ok opstr
  | x :: rest =>
      '(opstr, len) ← vsnprintf opstr p available ([44; 32] ++ fmt_02x x);
      if s32 len <? 0 then Ok opstr
      else if u64 (available - 1) <? len then Ok opstr
      else opstr_loop opstr (p + len) (u64 (available - len)) rest
  end.

(** [size] bytes of [buffer] as text. *)
Definition skipdata_opstr (opstr buffer : list Z) (size : Z) : outcome (list Z) :=
  if size =? 0 then aset opstr 0 0 else
  x ← aget buffer 0;
  '(opstr, len) ← vsnprintf opstr 0 sizeof_op_str (fmt_02x x);
  if size <=? zlen buffer then
    opstr_loop opstr len (u64 (sizeof_op_str - len)) (drop 1 (take (Z.to_nat size) buffer))
  else Ub.

(** ** What the text conversion computes *)

(** The mnemonic, the first word of a printed line. *)
Fixpoint token (s : list Z) : list Z :=
  match s with
  | [] => []
  | c :: s => if is_blank c then [] else c :: token s
  end.

Fixpoint skip_blanks (s : list Z) : list Z :=
  match s with
  | [] => []
  | c :: r => if is_blank c then skip_blanks r else s
  end.

(** The operands, what follows the first word and the blanks after it. *)
Fixpoint operands_of (s : list Z) : list Z :=
  match s with
  | [] => []
  | c :: s => if is_blank c then skip_blanks s else operands_of s
  end.

(** The separator of a prefix and its instruction becomes a space. *)
Definition unbar (c : Z) : Z := if c =? 124 then 32 else c.

Lemma mnem_loop_spec fuel s pre rest mpre mrest :
  Forall (fun c => 0 < c) s → (length s < fuel)%nat → (length (token s) ≤ length mrest)%nat →
  mnem_loop fuel (pre ++ s ++ 0 :: rest) (mpre ++ mrest) (zlen pre) (zlen mpre) =
    Ok (pre ++ (unbar <$> token s) ++ drop (length (token s)) s ++ 0 :: rest,
        mpre ++ (unbar <$> token s) ++ drop (length (token s)) mrest,
        zlen pre + zlen (token s), zlen mpre + zlen (token s)).
Proof.
  revert fuel pre mpre mrest. induction s as [|c s IH]; intros [|fuel] pre mpre mrest Hs Hf Hm;
    cbn [length] in Hf; try lia; cbn [mnem_loop].
  - cbn [app token length fmap list_fmap drop]. rewrite aget_mid. cbn. by rewrite !Z.add_0_r.
  - apply Forall_cons in Hs as [Hc Hs]. cbn [app]. rewrite aget_mid. cbn [mbind outcome_bind token].
    cbn [token] in Hm. rewrite (proj2 (Z.eqb_neq c 0)) by lia. cbn [orb].
    destruct (is_blank c).
    { cbn. by rewrite !Z.add_0_r. }
    assert ((if c =? 124 then aset (pre ++ c :: s ++ 0 :: rest) (zlen pre) 32 else Ok (pre ++ c :: s ++ 0 :: rest))
      = Ok (pre ++ unbar c :: s ++ 0 :: rest)) as ->.
    { unfold unbar. destruct (c =? 124); [apply aset_mid|done]. }
    cbn [mbind outcome_bind]. rewrite aget_mid. cbn [mbind outcome_bind].
    destruct mrest as [|x mrest]; cbn [length] in Hm; [lia|]. rewrite aset_mid. cbn [mbind outcome_bind].
    specialize (IH fuel (pre ++ [unbar c]) (mpre ++ [unbar c]) mrest Hs ltac:(lia) ltac:(lia)).
    rewrite !zlen_app, <- !app_assoc in IH. change (zlen [unbar c]) with 1 in IH. cbn [app] in IH.
    rewrite IH. cbn [fmap list_fmap app length drop]. replace (zlen (c :: token s)) with (1 + zlen (token s)) by (unfold zlen; cbn; lia).
    by rewrite !Z.add_assoc.
Qed.

Lemma blank_loop_spec fuel s pre rest :
  Forall (fun c => 0 < c) s → (length s < fuel)%nat →
  ∃ bs, s = bs ++ skip_blanks s ∧
    blank_loop fuel (pre ++ s ++ 0 :: rest) (zlen pre) = Ok (zlen (pre ++ bs)).
Proof.
  revert fuel pre. induction s as [|c s IH]; intros [|fuel] pre Hs Hf; cbn [length] in Hf; try lia; cbn [blank_loop].
  - exists []. split; [done|]. cbn [app]. rewrite aget_mid. cbn. by rewrite app_nil_r.
  - apply Forall_cons in Hs as [Hc Hs]. cbn [app]. rewrite aget_mid. cbn [mbind outcome_bind skip_blanks].
    destruct (is_blank c); [|exists []; by rewrite app_nil_r].
    destruct (IH fuel (pre ++ [c]) Hs ltac:(lia)) as (bs & E & Hb). exists (c :: bs). split; [cbn; by rewrite <- E|].
    rewrite zlen_app, <- app_assoc in Hb. cbn [app] in Hb. change (zlen [c]) with 1 in Hb. rewrite Hb.
    by rewrite <- app_assoc.
Qed.

Lemma read_str_spec n s pre rest :
  Forall (fun c => 0 < c) s → read_str n (pre ++ s ++ 0 :: rest) (zlen pre) = Ok (take n s).
Proof.
  revert n pre. induction s as [|c s IH]; intros [|n] pre Hs; cbn [read_str]; [done| |done|].
  - cbn [app]. rewrite aget_mid. done.
  - apply Forall_cons in Hs as [Hc Hs]. cbn [app]. rewrite aget_mid. cbn [mbind outcome_bind].
    rewrite (proj2 (Z.eqb_neq c 0)) by lia. specialize (IH n (pre ++ [c]) Hs).
    rewrite zlen_app, <- app_assoc in IH. cbn [app] in IH. change (zlen [c]) with 1 in IH. by rewrite IH.
Qed.

Lemma strncpy_spec dst src (n : nat) :
  Z.of_nat n ≤ zlen dst →
  strncpy dst src n = Ok (take n src ++ replicate (n - length (take n src)) 0 ++ drop n dst).
Proof.
  intros Hn. unfold strncpy. set (s := take n src). assert (length s ≤ n)%nat as Hs by (unfold s; rewrite length_take; lia).
  assert (zlen (s ++ replicate (n - length s) 0) = Z.of_nat n) as Hl.
  { unfold zlen. rewrite length_app, length_replicate. lia. }
  rewrite blit_Ok by lia. rewrite Hl. cbn. by rewrite <- app_assoc, Z.add_0_l, Nat2Z.id.
Qed.

Lemma token_tail s :
  (drop (length (token s)) s = [] ∧ operands_of s = []) ∨
  (∃ c s', drop (length (token s)) s = c :: s' ∧ is_blank c = true ∧ operands_of s = skip_blanks s').
Proof.
  induction s as [|c s IH]; [by left|]. cbn [token operands_of]. destruct (is_blank c) eqn:E; [|exact IH].
  right. exists c, s. by rewrite E.
Qed.

Lemma token_pos s : Forall (fun c => 0 < c) s → Forall (fun c => 0 < c) (unbar <$> token s).
Proof.
  induction 1 as [|c s Hc Hs IH]; cbn; [constructor|]. destruct (is_blank c); [constructor|].
  cbn. constructor; [unfold unbar; zcases; lia|done].
Qed.

Lemma skip_blanks_pos s : Forall (fun c => 0 < c) s → Forall (fun c => 0 < c) (skip_blanks s).
Proof. induction 1 as [|c s Hc Hs IH]; cbn; [constructor|]. destruct (is_blank c); [done|by constructor]. Qed.

(** The operand part, when there is one. *)
Lemma opstr_part pre s rest os :
  Forall (fun c => 0 < c) s → zlen os = sizeof_op_str →
  ∃ os', (sp ← blank_loop (S (length (pre ++ s ++ 0 :: rest))) (pre ++ s ++ 0 :: rest) (zlen pre);
          t ← read_str 159 (pre ++ s ++ 0 :: rest) sp;
          o ← strncpy os t 159; aset o (sizeof_op_str - 1) 0) = Ok os' ∧
    zlen os' = zlen os ∧ holds_string os' (take 159 (skip_blanks s)).
Proof.
  intros Hs Hos. unfold sizeof_op_str in *.
  destruct (blank_loop_spec (S (length (pre ++ s ++ 0 :: rest))) s pre rest Hs) as (bs & E & ->);
    [rewrite !length_app; cbn; lia|]. cbn [mbind outcome_bind].
  pose proof (skip_blanks_pos s Hs) as Hp. revert E Hp. generalize (skip_blanks s). intros ops -> Hp.
  replace (pre ++ (bs ++ ops) ++ 0 :: rest) with ((pre ++ bs) ++ ops ++ 0 :: rest) by (by rewrite <- !app_assoc).
  rewrite read_str_spec by done. cbn [mbind outcome_bind]. rewrite strncpy_spec by lia. cbn [mbind outcome_bind].
  rewrite take_take, Nat.min_id. set (t := take 159 ops).
  assert (length t ≤ 159)%nat as Ht by (unfold t; rewrite length_take; lia).
  set (o := t ++ replicate (159 - length t) 0 ++ drop 159 os).
  assert (zlen o = 160) as Ho.
  { unfold o, zlen in *. rewrite !length_app, length_replicate, length_drop. lia. }
  rewrite aset_Ok by lia. eexists. split; [done|]. split; [by rewrite zlen_insert, Ho|].
  exists (drop (S (length t)) (<[Z.to_nat (160 - 1) := 0]> o)). split; [|by apply Forall_take].
  assert (∃ o', <[Z.to_nat (160 - 1) := 0]> o = t ++ 0 :: o') as [o' Eo].
  { unfold o. destruct (decide (length t = 159)%nat) as [E159|Hlt].
    - rewrite E159. cbn [replicate Nat.sub app]. replace (Z.to_nat (160 - 1)) with (length t + 0)%nat by lia.
      rewrite insert_app_r. destruct (drop 159 os) as [|x r] eqn:Ed; [|cbn; eauto].
      apply (f_equal length) in Ed. rewrite length_drop in Ed. unfold zlen in Hos. cbn in Ed. lia.
    - replace (159 - length t)%nat with (S (158 - length t)) by lia. cbn [replicate app].
      rewrite insert_app_r_alt by lia. replace (Z.to_nat (160 - 1) - length t)%nat with (S (158 - length t)) by lia.
      cbn. eauto. }
  rewrite Eo. f_equal. replace (t ++ 0 :: o') with ((t ++ [0]) ++ o') by (by rewrite <- app_assoc).
  rewrite drop_app_length'; [done|]. rewrite length_app. cbn. lia.
Qed.

(** The text conversion, for a printed line [s] in a NUL-terminated buffer. *)
Lemma split_text_spec s rest mn os :
  Forall (fun c => 0 < c) s → zlen (token s) < zlen mn → zlen os = sizeof_op_str →
  ∃ mn' os', split_text (s ++ 0 :: rest) mn os = Ok (mn', os') ∧
    zlen mn' = zlen mn ∧ zlen os' = zlen os ∧
    holds_string mn' (unbar <$> token s) ∧ holds_string os' (take 159 (operands_of s)).
Proof.
  intros Hs Hm Hos. unfold split_text. unfold zlen in Hm.
  pose proof (mnem_loop_spec (S (length (s ++ 0 :: rest))) s [] rest [] mn Hs) as Hloop.
  rewrite length_app in Hloop. specialize (Hloop ltac:(cbn; lia) ltac:(lia)). cbn [app] in Hloop.
  change (zlen []) with 0 in Hloop. rewrite length_app, Hloop. clear Hloop. cbn [mbind outcome_bind].
  set (u := unbar <$> token s) in *. assert (zlen u = zlen (token s)) as Hu by (unfold zlen, u; by rewrite length_fmap).
  rewrite Z.add_0_l, <- Hu. destruct (drop (length (token s)) mn) as [|x mr] eqn:Em.
  { apply (f_equal length) in Em. rewrite length_drop in Em. cbn in Em. lia. }
  rewrite aset_mid. cbn [mbind outcome_bind].
  assert (zlen (u ++ 0 :: mr) = zlen mn) as Hlm.
  { apply (f_equal length) in Em. rewrite length_drop in Em. unfold zlen in *. rewrite length_app. cbn [length] in *. lia. }
  assert (holds_string (u ++ 0 :: mr) u) as Hh by (exists mr; split; [done|by apply token_pos]).
  destruct (token_tail s) as [[E1 E2]|(c & s' & E1 & Hb & E2)]; rewrite E1, E2.
  - cbn [app]. rewrite aget_mid. cbn [mbind outcome_bind ctrue Z.eqb negb].
    unfold sizeof_op_str in Hos. rewrite aset_Ok by lia. cbn [mbind outcome_bind].
    do 2 eexists. split; [done|]. split_conj; [done|by rewrite zlen_insert|done|].
    destruct os as [|o os]; [done|]. exists os. split; [done|constructor].
  - assert (0 < c ∧ Forall (fun c => 0 < c) s') as [Hc Hs'].
    { apply Forall_cons. rewrite <- E1. by apply Forall_drop. }
    cbn [app]. rewrite aget_mid. cbn [mbind outcome_bind]. unfold ctrue. rewrite (proj2 (Z.eqb_neq c 0)) by lia.
    cbn [negb]. destruct (opstr_part (u ++ [c]) s' rest os Hs' Hos) as (os' & Hos' & Hl & Ho).
    rewrite zlen_app, <- app_assoc in Hos'. cbn [app] in Hos'. change (zlen [c]) with 1 in Hos'.
    rewrite Hos'. cbn [mbind outcome_bind]. eauto 10.
Qed.

(** The text of skipped data. *)
Definition data_text (bs : list Z) : list Z :=
  match bs with
  | [] => []
  | x :: bs => fmt_02x x ++ concat ((fun y => [44; 32] ++ fmt_02x y) <$> bs)
  end.

Lemma fmt_02x_pos x : in_u 8 x → Forall (fun c => 0 < c) (fmt_02x x).
Proof.
  intros Hx. unfold in_u in Hx. unfold fmt_02x, SStream.digit_char.
  assert (0 ≤ x / 16 < 16 ∧ 0 ≤ x mod 16 < 16) as [H1 H2] by zdiv.
  repeat constructor; zcases; lia.
Qed.

Lemma opstr_loop_spec rest s r :
  bytes_ok rest → zlen (s ++ 0 :: r) = sizeof_op_str → zlen s + 6 * zlen rest < sizeof_op_str →
  ∃ o, opstr_loop (s ++ 0 :: r) (zlen s) (sizeof_op_str - zlen s) rest = Ok o ∧ zlen o = sizeof_op_str ∧
    ∃ r', o = (s ++ concat ((fun y => [44; 32] ++ fmt_02x y) <$> rest)) ++ 0 :: r'.
Proof.
  unfold sizeof_op_str. revert s r. induction rest as [|x rest IH]; intros s r Hb Hl Hs; cbn [opstr_loop fmap list_fmap concat].
  - eexists. split; [done|]. split; [done|]. exists r. by rewrite app_nil_r.
  - apply Forall_cons in Hb as [Hx Hb]. assert (zlen (x :: rest) = 1 + zlen rest) as Ec by (unfold zlen; cbn; lia).
    rewrite Ec in Hs. pose proof (zlen_nonneg rest). pose proof (zlen_nonneg s).
    set (t := [44; 32] ++ fmt_02x x). assert (zlen t = 6) as Ht by done.
    destruct (SStream.blit_append _ s r t eq_refl) as (r' & Hbl & Hlen); [lia|].
    unfold vsnprintf. rewrite (proj2 (Z.eqb_neq _ 0)) by lia. rewrite Z.min_r by lia.
    rewrite take_ge by (unfold zlen in *; lia). rewrite Hbl. cbn [mbind outcome_bind]. rewrite Ht.
    change (s32 6 <? 0) with false. cbn iota. rewrite !wrap_small by (unfold in_u; lia).
    rewrite (proj2 (Z.ltb_ge _ 6)) by lia. rewrite (app_assoc s) in Hlen |- *.
    replace (zlen s + 6) with (zlen (s ++ t)) by (rewrite zlen_app; lia).
    replace (160 - zlen s - 6) with (160 - zlen (s ++ t)) by (rewrite zlen_app; lia).
    destruct (IH (s ++ t) r' Hb) as (o & Ho & Hol & r2 & E); [lia|rewrite zlen_app; lia|].
    exists o. split; [done|]. split; [done|]. exists r2. rewrite E. by rewrite <- !app_assoc.
Qed.

(** Up to 16 bytes of data fit in the operand string. *)
Lemma skipdata_opstr_spec os code n :
  bytes_ok code → zlen os = sizeof_op_str → 0 ≤ n ≤ 16 → n ≤ zlen code →
  ∃ os', skipdata_opstr os code n = Ok os' ∧ zlen os' = zlen os ∧
    ∃ r, os' = data_text (take (Z.to_nat n) code) ++ 0 :: r.
Proof.
  intros Hb Hos Hn Hc. unfold skipdata_opstr. destruct (Z.eqb_spec n 0) as [->|Hn0].
  - unfold sizeof_op_str in Hos. rewrite aset_Ok by lia. eexists. split; [done|]. rewrite zlen_insert. split; [done|].
    destruct os as [|o os]; [done|]. by exists os.
  - destruct code as [|x code]; [unfold zlen in Hc; cbn in Hc; lia|]. cbn [mbind outcome_bind].
    change (aget (x :: code) 0) with (Ok x). cbn [mbind outcome_bind].
    unfold vsnprintf at 1. cbn [Z.eqb sizeof_op_str]. change (160 =? 0) with false. cbn iota.
    change (Z.min (sizeof_op_str - 1) (zlen (fmt_02x x))) with 4.
    change (take (Z.to_nat 4) (fmt_02x x)) with (fmt_02x x).
    rewrite blit_Ok; [|lia|rewrite Hos; vm_compute; discriminate]. cbn [mbind outcome_bind].
    rewrite (proj2 (Z.leb_le n _)) by lia. change (zlen (fmt_02x x)) with 4.
    change (u64 (sizeof_op_str - 4)) with (sizeof_op_str - 4).
    replace (Z.to_nat n) with (S (Z.to_nat (n - 1))) by lia. cbn [take drop app Z.to_nat].
    rewrite drop_0, <- app_assoc. set (r0 := drop _ os). apply Forall_cons in Hb as [Hx Hb].
    destruct (opstr_loop_spec (take (Z.to_nat (n - 1)) code) (fmt_02x x) r0) as (o & Ho & Hol & r' & E).
    + by apply Forall_take.
    + unfold r0, sizeof_op_str, zlen in *. rewrite length_app. cbn [length] in *. rewrite length_drop.
      change (length (fmt_02x x)) with 4%nat. cbn -[Nat.sub] in *. lia.
    + unfold sizeof_op_str, zlen. change (length (fmt_02x x)) with 4%nat. rewrite length_take. lia.
    + exists o. change (zlen (fmt_02x x)) with 4 in Ho. split; [exact Ho|]. split; [by rewrite Hos|]. exists r'. exact E.
Qed.

(** ** Ownership

    [owns base m ps]: the live blocks are those of [base] and, besides them,
    the distinct blocks [ps]. *)
Definition owns (base : gset Z) (m : mem) (ps : list Z) : Prop :=
  NoDup ps ∧ (∀ p, p ∈ ps → p ∉ base) ∧ live m = base ∪ list_to_set ps ∧ (∀ p, p ∈ live m → p < next m).

#[global] Instance owns_proper base m : Proper ((≡ₚ) ==> iff) (owns base m).
Proof.
  intros ps qs E. unfold owns. setoid_rewrite E. split; intros (?&?&?&?); split_conj; try done; set_solver.
Qed.

Lemma owns_nil base m ps : owns base m ps → ps = [] → live m = base.
Proof. intros (_ & _ & -> & _) ->. set_solver. Qed.

Section ownership.
  Context (base : gset Z).
  Implicit Types (m : mem) (ps : list Z).

Lemma fresh_next m ps p : owns base m ps → p ∈ base ∨ p ∈ ps → p ≠ next m.
Proof.
  intros (_ & _ & El & Hn) Hp E. assert (p ∈ live m) as H by (rewrite El; set_solver).
  apply Hn in H. lia.
Qed.

Lemma owns_free m ps p : owns base m (p :: ps) → ∃ m', cs_mem_free (Some p) m = Ok m' ∧ owns base m' ps.
Proof.
  intros (Hn & Hd & El & Hlt). unfold cs_mem_free. apply NoDup_cons in Hn as [Hni Hn].
  assert (p ∉ base) by (apply Hd; set_solver).
  rewrite decide_True by (rewrite El; set_solver). eexists. split; [done|]. unfold owns. cbn [live next].
  split_conj; [done|set_solver| |set_solver]. rewrite El. set_solver.
Qed.

(** Freeing a pointer that may be [NULL]. *)
Lemma owns_free_opt m ps q :
  owns base m (option_list q ++ ps) → ∃ m', cs_mem_free q m = Ok m' ∧ owns base m' ps.
Proof. destruct q; cbn; [apply owns_free|by exists m]. Qed.
End ownership.

Section allocation.
  Context (avail : Z → Z → bool) (base : gset Z).
  Implicit Types (m : mem) (ps : list Z).

Lemma owns_malloc sz m ps p m' :
  owns base m ps → cs_mem_malloc avail sz m = (Some p, m') → owns base m' (p :: ps).
Proof.
  intros Ho. unfold cs_mem_malloc. destruct (avail _ _); [|done]. intros [= <- <-].
  pose proof (fresh_next base m ps) as Hf. destruct Ho as (Hn & Hd & El & Hlt). unfold owns. cbn [live next]. split_conj.
  - constructor; [|done]. intros Hin. by eapply Hf; eauto; split_conj.
  - intros p [->|Hp]%elem_of_cons; [|auto]. intros Hb. eapply Hf; eauto. done.
  - rewrite El. set_solver.
  - intros p [->%elem_of_singleton|Hp]%elem_of_union; [lia|]. apply Hlt in Hp. lia.
Qed.

Lemma owns_malloc_none sz m ps m' :
  owns base m ps → cs_mem_malloc avail sz m = (None, m') → owns base m' ps.
Proof.
  intros (Hn & Hd & El & Hlt). unfold cs_mem_malloc. destruct (avail _ _); [done|]. intros [= <-].
  unfold owns. cbn [live next]. split_conj; [done..|]. intros p Hp. apply Hlt in Hp. lia.
Qed.

Lemma owns_realloc sz m ps p :
  owns base m (p :: ps) →
  (∃ q m', cs_mem_realloc avail p sz m = Ok (Some q, m') ∧ owns base m' (q :: ps)) ∨
  (∃ m', cs_mem_realloc avail p sz m = Ok (None, m') ∧ owns base m' (p :: ps)).
Proof.
  intros Ho. pose proof (fresh_next base m (p :: ps)) as Hf. pose proof Ho as (Hn & Hd & El & Hlt).
  unfold cs_mem_realloc. rewrite decide_True by (rewrite El; set_solver).
  apply NoDup_cons in Hn as [Hni Hn]. assert (p ∉ base) by (apply Hd; set_solver).
  destruct (avail _ _).
  - left. do 2 eexists. split; [done|]. unfold owns. cbn [live next]. split_conj.
    + constructor; [|done]. intros Hin. eapply Hf; eauto. right. set_solver.
    + intros x [->|Hx]%elem_of_cons; [|apply Hd; set_solver]. intros Hb. by eapply Hf; eauto.
    + rewrite El. set_solver.
    + intros x [->%elem_of_singleton|Hx]%elem_of_union; [lia|].
      assert (x ∈ live m) as Hx' by set_solver. apply Hlt in Hx'. lia.
  - right. eexists. split; [done|]. unfold owns. cbn [live next].
    split_conj; [by constructor|done|done|]. intros x Hx. apply Hlt in Hx. lia.
Qed.
End allocation.

(** A block can be moved from the owned part to the base. *)
Lemma owns_move base m p ps : owns base m (p :: ps) → owns ({[p]} ∪ base) m ps.
Proof.
  intros (Hn & Hd & El & Hlt). apply NoDup_cons in Hn as [Hni Hn]. unfold owns.
  split_conj; [done| |rewrite El; set_solver|done].
  intros q Hq. apply not_elem_of_union. split; [set_solver|apply Hd; set_solver].
Qed.

(** ** Back ends as an interface

    What the engine relies on when it calls a back end's initialisation and
    option functions. *)

(** The handle invariant: a known architecture, and a positive number of
    bytes to skip whenever data is to be skipped. *)
Definition handle_ok (h : cs_struct) : Prop :=
  0 ≤ arch h < CS_ARCH_MAX ∧ 0 ≤ skipdata_size h ≤ 4 ∧ (skipdata h = true → 1 ≤ skipdata_size h).

Class InitOk (global_init : Z → cs_struct → mem → outcome (Z * cs_struct * mem)) : Prop :=
  init_ok : ∀ a ud m base ps,
    owns base m ps → handle_ok ud → printer_info ud = None → insn_cache ud = None →
    ∃ err ud' m', global_init a ud m = Ok (err, ud', m') ∧
      handle_ok ud' ∧ insn_cache ud' = None ∧
      (err = CS_ERR_OK → owns base m' (option_list (printer_info ud') ++ ps)) ∧
      (err ≠ CS_ERR_OK → owns base m' ps).

Class OptionOk (global_option : Z → cs_struct → Z → Z → Z * cs_struct) : Prop :=
  option_ok : ∀ a h type v, handle_ok h → handle_ok (global_option a h type v).2.

(** The error [cs_open] must report before it allocates anything. *)
Definition open_error (b : build) (g : mem_setup) (a md : Z) : option Z :=
  if negb (setup_ready g) then Some CS_ERR_MEMSETUP
  else if negb ((a <? CS_ARCH_MAX) && has_arch b a) then Some CS_ERR_ARCH
  else if ctrue (md & s32 (Z.lnot (allowed_modes a))) then Some CS_ERR_MODE
  else None.

Lemma close_spec base m p ud :
  owns base m (option_list (printer_info ud) ++ option_list (insn_cache ud) ++ [p]) →
  ∃ m', cs_close (Some (p, ud)) m = Ok (CS_ERR_OK, None, m') ∧ live m' = base.
Proof.
  intros Ho. cbn [cs_close].
  destruct (owns_free_opt base m _ _ Ho) as (m1 & -> & H1). cbn [mbind outcome_bind].
  destruct (owns_free_opt base m1 _ _ H1) as (m2 & -> & H2). cbn [mbind outcome_bind].
  destruct (owns_free base m2 _ _ H2) as (m3 & -> & H3). cbn [mbind outcome_bind].
  exists m3. split; [done|]. by eapply owns_nil.
Qed.

(** C32: Opening an engine: [cs_open] reports a missing allocator, an
    architecture that is unknown or not built in, and a mode the architecture
    does not allow, before it allocates; every failure, also of the allocator
    or of the back end, leaves no block behind; and an engine it opens
    satisfies the handle invariant and is released completely by
    [cs_close]. *)
Theorem cs_open_close (b : build) (avail : Z → Z → bool) (sz : Z) (g : mem_setup) (a md : Z) (m : mem)
    (global_init : Z → cs_struct → mem → outcome (Z * cs_struct * mem)) :
  InitOk global_init → 0 ≤ a → (∀ p, p ∈ live m → p < next m) →
  ∃ err out m', cs_open b avail sz global_init g a md m = Ok (err, out, m') ∧
    (∀ e, open_error b g a md = Some e → err = e ∧ m' = m) ∧
    match out with
    | Opened p ud => err = CS_ERR_OK ∧ open_error b g a md = None ∧ handle_ok ud ∧
        ∃ m'', cs_close (Some (p, ud)) m' = Ok (CS_ERR_OK, None, m'') ∧ live m'' = live m
    | _ => err ≠ CS_ERR_OK ∧ live m' = live m
    end.
Proof.
  intros Hinit Ha Hm. unfold cs_open, open_error, cs_arch_init.
  destruct (setup_ready g); cbn [negb];
    [|do 3 eexists; split; [done|]; split_conj; [by intros e [= <-]|done|done]].
  destruct (Z.ltb_spec a CS_ARCH_MAX) as [Hlt|Hge]; cbn [andb negb];
    [|do 3 eexists; split; [done|]; split_conj; [by intros e [= <-]|done|done]].
  destruct (has_arch b a) eqn:Hhas; cbn [negb];
    [|do 3 eexists; split; [done|]; split_conj; [by intros e [= <-]|done|done]].
  unfold cs_arch_disallowed_mode_mask. rewrite (proj2 (Z.leb_le 0 a)), (proj2 (Z.ltb_lt a CS_ARCH_MAX)), Hhas by lia.
  cbn [andb mbind outcome_bind].
  destruct (ctrue (md & _)) eqn:Hmode;
    [do 3 eexists; split; [done|]; split_conj; [by intros e [= <-]|done|done]|].
  assert (owns (live m) m []) as Ho by (unfold owns; split_conj; [constructor|set_solver|set_solver|done]).
  destruct (cs_mem_malloc avail sz m) as [[p|] m1] eqn:Em.
  - pose proof (owns_malloc _ _ _ _ _ _ _ Ho Em) as Ho1.
    assert (handle_ok (fresh_struct b a md)) as Hfresh.
    { unfold handle_ok, fresh_struct. cbn [arch skipdata_size skipdata]. split_conj; [lia|lia|lia|lia|done]. }
    destruct (init_ok a _ _ _ _ Ho1 Hfresh eq_refl eq_refl)
      as (err & ud & m2 & -> & Hok & Hcache & Hz & Hnz). cbn [mbind outcome_bind].
    destruct (ctrue err) eqn:Eerr; [apply ctrue_true in Eerr|apply ctrue_false in Eerr].
    + destruct (owns_free _ _ _ _ (Hnz Eerr)) as (m3 & -> & Ho3). cbn [mbind outcome_bind].
      do 3 eexists. split; [done|]. split_conj; [done|done|by eapply owns_nil].
    + do 3 eexists. split; [done|]. split_conj; [done|done|done|done|].
      apply close_spec. rewrite Hcache. cbn [option_list app]. by apply Hz.
  - do 3 eexists. split; [done|]. split_conj; [done|done|].
    pose proof (owns_malloc_none _ _ _ _ _ _ Ho Em) as Ho1. by eapply owns_nil.
Qed.

(** A build with the x86 engine only and the system allocator, and a back end
    that allocates its register tables. *)
Definition build0 : build := mkBuild (fun a => a =? CS_ARCH_X86) false true true true.
Definition init0 (a : Z) (ud : cs_struct) (m : mem) : outcome (Z * cs_struct * mem) :=
  let '(p, m) := cs_mem_malloc (fun _ _ => true) 100 m in
  Ok (CS_ERR_OK, mkCs (arch ud) (mode ud) p (errnum ud) (ITBlock_size ud) (detail ud) (insn_cache ud)
        (skipdata ud) (skipdata_size ud) (skipdata_setup ud), m).

Lemma init0_ok : InitOk init0.
Proof.
  intros a ud m base ps Ho Hok _ Hc. unfold init0.
  destruct (cs_mem_malloc (fun _ _ => true) 100 m) as [[p|] m1] eqn:Em; [|done].
  do 3 eexists. split; [done|]. split_conj; [done|done| |done]. intros _. cbn.
  by eapply owns_malloc.
Defined.

Lemma cs_open_close_witness :
  ∃ err out m', cs_open build0 (fun _ _ => true) 200 init0 (initial_setup build0) CS_ARCH_X86 CS_MODE_64 (mkMem 0 ∅)
    = Ok (err, out, m') ∧ err = CS_ERR_OK.
Proof.
  destruct (cs_open_close build0 (fun _ _ => true) 200 (initial_setup build0) CS_ARCH_X86 CS_MODE_64 (mkMem 0 ∅) init0 init0_ok)
    as (err & out & m' & H & _ & _); [discriminate|set_solver|].
  exists err, out, m'. split; [exact H|]. cbn in H. by injection H as <- _ _.
Defined.

(** Options: [cs_option] on any handle satisfying the invariant returns,
    keeps the invariant (switching data skipping on sets a skip width where
    none was set), rejects a mode the architecture does not allow without
    touching the handle, and, with no handle, fails except for the allocator
    setup. *)
Theorem cs_option_keeps_handle (b : build) (global_option : Z → cs_struct → Z → Z → Z * cs_struct)
    (h : cs_struct) (g : mem_setup) (type v : Z) :
  OptionOk global_option → handle_ok h → type ≠ CS_OPT_MEM → type ≠ CS_OPT_SKIPDATA_SETUP →
  ∃ err h', cs_option b global_option (Some h) type (Int v) g = Ok (err, Some h', g) ∧ handle_ok h' ∧
    (type = CS_OPT_SKIPDATA → err = CS_ERR_OK ∧ skipdata h' = (v =? CS_OPT_ON)) ∧
    (type = CS_OPT_MODE → has_arch b (arch h) = true →
       ctrue (v & s32 (Z.lnot (allowed_modes (arch h)))) = true → err = CS_ERR_OPTION ∧ h' = h) ∧
    cs_option b global_option None type (Int v) g = Ok (CS_ERR_CSH, None, g).
Proof.
  intros Hopt Hok Hmem Hset. unfold cs_option.
  rewrite (proj2 (Z.eqb_neq type CS_OPT_MEM)), (proj2 (Z.eqb_neq type CS_OPT_SKIPDATA_SETUP)) by done.
  pose proof (option_ok (arch h) h type v Hok) as Hgo. destruct (global_option (arch h) h type v) as [e h'] eqn:Eg.
  cbn [snd] in Hgo. pose proof Hok as (Harch & Hsz & Hskip).
  destruct (Z.eqb_spec type CS_OPT_DETAIL) as [->|Hnd].
  { do 2 eexists. split; [done|]. split_conj; [exact Hok|discriminate|discriminate|done]. }
  destruct (Z.eqb_spec type CS_OPT_SKIPDATA) as [->|Hns].
  { do 2 eexists. split; [done|]. split_conj; [|done|discriminate|done].
    assert (1 ≤ default_skipdata_size h ≤ 4) as Hd.
    { unfold default_skipdata_size, CS_ARCH_MAX in *. repeat case_bool; try lia. exfalso.
      unfold CS_ARCH_ARM, CS_ARCH_ARM64, CS_ARCH_MIPS, CS_ARCH_PPC, CS_ARCH_SPARC, CS_ARCH_SYSZ, CS_ARCH_X86, CS_ARCH_XCORE in *. lia. }
    unfold handle_ok, set_skipdata. cbn [arch skipdata skipdata_size].
    destruct (v =? CS_OPT_ON); cbn [andb]; [|split_conj; (lia || done)]. destruct (Z.eqb_spec (skipdata_size h) 0); split_conj; lia. }
  destruct (Z.eqb_spec type CS_OPT_MODE) as [->|Hnm].
  - unfold cs_arch_disallowed_mode_mask.
    rewrite (proj2 (Z.leb_le 0 (arch h))), (proj2 (Z.ltb_lt (arch h) CS_ARCH_MAX)) by lia. cbn [andb mbind outcome_bind].
    destruct (has_arch b (arch h)); [|rewrite Z.land_0_r; cbn [ctrue Z.eqb negb]; do 2 eexists; split_conj; eauto; discriminate].
    destruct (ctrue (v & _)); do 2 eexists; (split; [done|]); split_conj; try done.
  - do 2 eexists. split; [done|]. by split_conj.
Qed.

Definition handle0 : cs_struct := fresh_struct build0 CS_ARCH_X86 CS_MODE_64.

Lemma cs_option_keeps_handle_witness :
  ∃ err h', cs_option build0 (fun _ h _ _ => (CS_ERR_OK, h)) (Some handle0) CS_OPT_SKIPDATA (Int CS_OPT_ON)
    (initial_setup build0) = Ok (err, Some h', initial_setup build0) ∧ skipdata h' = true.
Proof.
  destruct (cs_option_keeps_handle build0 (fun _ h _ _ => (CS_ERR_OK, h)) handle0 (initial_setup build0) CS_OPT_SKIPDATA CS_OPT_ON)
    as (err & h' & H & _ & Hs & _); [intros a h t v H; exact H| |discriminate|discriminate|].
  - unfold handle_ok. split_conj; first [reflexivity|discriminate|vm_compute; discriminate].
  - exists err, h'. split; [exact H|]. apply Hs. reflexivity.
Defined.

End Cs.
