(* ===== verification/CsDisasm.v ===== *)
(** * Capstone: disassembling ([Lilu.kext/capstone/cs.c], [cs_disasm] to [cs_disasm_iter])

    The disassembly loop with its growing result array, instruction details on
    the heap, data skipping and every failure path; the single-step iterator;
    allocation and release of instructions.  The back end a handle points to
    is an interface ([arch_ops]) with its laws ([ArchOk]); the theorems about
    the loop are proved against it. *)

From Stdlib Require Import ZArith Lia.
From stdpp Require Import gmap.
From S2P Require Import Prelude CsUtils CsMcInst CsSStream CsCore.

Module CsDisasm.
Import Utils Cs.

Open Scope c_scope.

(** ** The back end's entry points

    [disasm] decodes the bytes [code] at an address into the internal and the
    public instruction and reports success and the length; [insn_id] maps the
    opcode to the public id and may allocate the handle's lookup cache;
    [printer] fills in operands and text. *)
Record arch_ops := mkOps {
  op_disasm : cs_struct → list Z → McInst.MCInst → cs_insn → Z → outcome (bool * McInst.MCInst * cs_insn * Z);
  op_insn_id : cs_struct → mem → cs_insn → Z → outcome (cs_struct * mem * cs_insn);
  op_printer : cs_struct → McInst.MCInst → cs_insn → SStream.SStream → outcome (McInst.MCInst * cs_insn * SStream.SStream);
  op_post : option PostPrinter_t
}.

Definition sizeof_cs_insn := 240.

(** The block behind an instruction's [detail] pointer. *)
Definition detail_ptr (i : cs_insn) : option Z := fst <$> i_detail i.

(** The caller's [*insn]: not written, [NULL], or the array and its block. *)
Inductive insn_out :=
| Kept
| Null
| Arr (p : Z) (l : list cs_insn).

Section disasm.
  Context (b : build) (avail : Z → Z → bool) (sizeof_cs_detail : Z) (ops : arch_ops).
  (** Contents of memory that is not initialised. *)
  Context (junk : cs_insn) (junk_detail : cs_detail) (junk_mci : McInst.MCInst) (junk_ss : SStream.SStream).

(** ** One instruction *)

(** The diet engine clears the text. *)
Definition diet_clear (insn : cs_insn) : outcome cs_insn :=
  if diet b then
    mn ← aset (i_mnemonic insn) 0 0;
    os ← aset (i_op_str insn) 0 0;
    Ok (set_text insn mn os)
  else Ok insn.

(** The instruction was decoded: map its id, print it, fill in its text. *)
Definition emit_insn (h : cs_struct) (m : mem) (mci : McInst.MCInst) (insn : cs_insn) (insn_size : Z) (code : list Z)
    : outcome (cs_struct * mem * cs_insn) :=
  ss ← SStream.SStream_Init junk_ss;
  let insn := set_isize insn insn_size in
  '(h, m, insn) ← op_insn_id ops h m insn (McInst.Opcode mci);
  '(mci, insn, ss) ← op_printer ops h mci insn ss;
  insn ← fill_insn b insn (SStream.buffer ss) mci (op_post ops) code;
  Ok (h, m, insn).

(** How many bytes of data to skip; [None] to stop.  [org] and [pos] are the
    buffer and the position handed to the callback. *)
Definition skip_amount (h : cs_struct) (size : Z) (org : list Z) (pos : Z) : option Z :=
  if negb (skipdata h) || (size <? skipdata_size h) then None else
  match callback (skipdata_setup h) with
  | Some cb =>
      let n := cb org (zlen org) pos in
      if size <? n then None else if n =? 0 then None else Some n
  | None => Some (skipdata_size h)
  end.

(** The instruction that stands for [n] bytes of data. *)
Definition data_insn (h : cs_struct) (insn : cs_insn) (offset : Z) (code : list Z) (n : Z) : outcome cs_insn :=
  let insn := set_isize (set_address (set_id insn 0) offset) (u16 n) in
  bytes ← (if n <=? zlen code then blit (i_bytes insn) 0 (take (Z.to_nat n) code) else Ub);
  let insn := set_bytes insn bytes in
  if diet b then diet_clear insn
  else
    match sk_mnemonic (skipdata_setup h) with
    | None => Ub
    | Some s =>
        mn ← strncpy (i_mnemonic insn) s 31;
        os ← skipdata_opstr (i_op_str insn) code n;
        Ok (set_text insn mn os)
    end.

(** ** The disassembly loop *)

(** The locals of [cs_disasm]: [total] is the array behind the block [ptr],
    [pos] the index [insn_cache] points to, [code] the bytes from [buffer]. *)
Record loop_st := mkSt {
  s_h : cs_struct;
  s_m : mem;
  s_ptr : Z;
  s_total : list cs_insn;
  s_total_size : Z;
  s_f : Z;
  s_c : Z;
  s_cache_size : Z;
  s_pos : Z;
  s_code : list Z;
  s_offset : Z
}.

Inductive iter_res :=
| Continue (st : loop_st)
| Break (st : loop_st)
| NoMem (h : cs_struct) (m : mem).

(** [realloc] of the array to [n] entries. *)
Definition resize (n : Z) (l : list cs_insn) : list cs_insn :=
  take (Z.to_nat n) l ++ replicate (Z.to_nat n - length l) junk.

(** [for (i = 0; i < c; i++, insn_cache++) cs_mem_free(insn_cache->detail);] *)
Fixpoint free_details (n : nat) (l : list cs_insn) (i : Z) (m : mem) : outcome mem :=
  match n with
  | O => Ok m
  | S n => x ← aget l i; m ← cs_mem_free (detail_ptr x) m; free_details n l (i + 1) m
  end.

(** The clean-up after a failed [realloc]. *)
Definition out_of_memory (h : cs_struct) (m : mem) (ptr : Z) (total : list cs_insn) (c : Z)
    : outcome (cs_struct * mem) :=
  m ← (if ctrue (detail h) then free_details (Z.to_nat c) total 0 m else Ok m);
  m ← cs_mem_free (Some ptr) m;
  Ok (set_errnum h CS_ERR_MEM, m).

(** After an instruction was stored: count it, stop at [count], grow the array
    when the current cache is full, and advance. *)
Definition advance (count : Z) (st : loop_st) (next_offset : Z) : outcome iter_res :=
  let f := u32 (s_f st + 1) in
  let c := s_c st + 1 in
  if (0 <? count) && (c =? count) then
    Ok (Break (mkSt (s_h st) (s_m st) (s_ptr st) (s_total st) (s_total_size st) f c (s_cache_size st) (s_pos st) (s_code st) (s_offset st)))
  else
  let code := drop (Z.to_nat next_offset) (s_code st) in
  let offset := u64 (s_offset st + next_offset) in
  if f =? s_cache_size st then
    let cache_size := u32 (s_cache_size st * 8) / 5 in
    let total_size := s_total_size st + sizeof_cs_insn * cache_size in
    '(tmp, m) ← cs_mem_realloc avail (s_ptr st) total_size (s_m st);
    match tmp with
    | None => '(h, m) ← out_of_memory (s_h st) m (s_ptr st) (s_total st) c; Ok (NoMem h m)
    | Some q =>
        Ok (Continue (mkSt (s_h st) m q (resize (total_size / sizeof_cs_insn) (s_total st)) total_size 0 c cache_size c code offset))
    end
  else
    Ok (Continue (mkSt (s_h st) (s_m st) (s_ptr st) (s_total st) (s_total_size st) f c (s_cache_size st) (s_pos st + 1) code offset)).

(** The state with the instruction at [pos] written back. *)
Definition put_insn (st : loop_st) (h : cs_struct) (m : mem) (insn : cs_insn) : outcome loop_st :=
  total ← aset (s_total st) (s_pos st) insn;
  Ok (mkSt h m (s_ptr st) total (s_total_size st) (s_f st) (s_c st) (s_cache_size st) (s_pos st) (s_code st) (s_offset st)).

(** One iteration of [while (size > 0)]. *)
Definition disasm_step (org : list Z) (offset_org count : Z) (st : loop_st) : outcome iter_res :=
  let h := s_h st in
  let code := s_code st in
  mci ← McInst.MCInst_Init junk_mci;
  let '(d, m) := if ctrue (detail h) then cs_mem_malloc avail sizeof_cs_detail (s_m st) else (None, s_m st) in
  insn ← aget (s_total st) (s_pos st);
  let insn := set_address (set_detail insn ((fun p => (p, junk_detail)) <$> d)) (s_offset st) in
  insn ← diet_clear insn;
  '(r, mci, insn, insn_size) ← op_disasm ops h code mci insn (s_offset st);
  if r : bool then
    '(h, m, insn) ← emit_insn h m mci insn insn_size code;
    st ← put_insn st h m insn;
    advance count st insn_size
  else
    m ← (if ctrue (detail h) then cs_mem_free (detail_ptr insn) m else Ok m);
    match skip_amount h (zlen code) org (u64 (s_offset st - offset_org)) with
    | None => st ← put_insn st h m insn; Ok (Break st)
    | Some n =>
        insn ← data_insn h insn (s_offset st) code n;
        st ← put_insn st h m (set_detail insn None);
        advance count st n
    end.

Fixpoint disasm_loop (fuel : nat) (org : list Z) (offset_org count : Z) (st : loop_st) : outcome iter_res :=
  match s_code st with
  | [] => Ok (Break st)
  | _ =>
      match fuel with
      | O => NoFuel
      | S fuel =>
          r ← disasm_step org offset_org count st;
          match r with
          | Continue st => disasm_loop fuel org offset_org count st
          | _ => Ok r
          end
      end
  end.

(** After the loop: release or shrink the array. *)
Definition finish (st : loop_st) : outcome (Z * cs_struct * mem * insn_out) :=
  if s_c st =? 0 then
    m ← cs_mem_free (Some (s_ptr st)) (s_m st);
    Ok (s_c st, s_h st, m, Null)
  else if negb (s_f st =? s_cache_size st) then
    let n := s_total_size st - u32 (s_cache_size st - s_f st) * sizeof_cs_insn in
    '(tmp, m) ← cs_mem_realloc avail (s_ptr st) n (s_m st);
    match tmp with
    | None => '(h, m) ← out_of_memory (s_h st) m (s_ptr st) (s_total st) (s_c st); Ok (0, h, m, Null)
    | Some q => Ok (s_c st, s_h st, m, Arr q (resize (n / sizeof_cs_insn) (s_total st)))
    end
  else Ok (s_c st, s_h st, s_m st, Arr (s_ptr st) (s_total st)).

(** The handle as it enters the loop. *)
Definition enter (h : cs_struct) : cs_struct :=
  let h := set_errnum h CS_ERR_OK in
  if arch h =? CS_ARCH_ARM then set_ITBlock_size h 0 else h.

Definition first_cache_size (count : Z) : Z :=
  if sys_dyn_mem b && (0 <? count) && (count <=? INSN_CACHE_SIZE b) then count else INSN_CACHE_SIZE b.

(** The number of instructions, the handle, the heap and [*insn]. *)
Definition cs_disasm (ud : option cs_struct) (buffer : list Z) (offset count : Z) (m : mem)
    : outcome (Z * option cs_struct * mem * insn_out) :=
  match ud with
  | None => Ok (0, None, m, Kept)
  | Some h =>
      let h := enter h in
      let cache_size := first_cache_size count in
      let total_size := sizeof_cs_insn * cache_size in
      match cs_mem_malloc avail total_size m with
      | (None, m) => Ok (0, Some (set_errnum h CS_ERR_MEM), m, Kept)
      | (Some p, m) =>
          let st := mkSt h m p (replicate (Z.to_nat cache_size) junk) total_size 0 0 cache_size 0 buffer offset in
          r ← disasm_loop (length buffer) buffer offset count st;
          match r with
          | Break st => '(c, h, m, out) ← finish st; Ok (c, Some h, m, out)
          | NoMem h m => Ok (0, Some h, m, Null)
          | Continue _ => NoFuel
          end
      end
  end.

Definition cs_disasm_ex := cs_disasm.

Definition cs_free (p : option Z) (insns : list cs_insn) (count : Z) (m : mem) : outcome mem :=
  m ← free_details (Z.to_nat count) insns 0 m;
  cs_mem_free p m.

(** The new instruction and its block. *)
Definition cs_malloc (ud : cs_struct) (m : mem) : outcome (option (Z * cs_insn) * cs_struct * mem) :=
  match cs_mem_malloc avail sizeof_cs_insn m with
  | (None, m) => Ok (None, set_errnum ud CS_ERR_MEM, m)
  | (Some p, m) =>
      if ctrue (detail ud) then
        match cs_mem_malloc avail sizeof_cs_detail m with
        | (None, m) => m ← cs_mem_free (Some p) m; Ok (None, set_errnum ud CS_ERR_MEM, m)
        | (Some d, m) => Ok (Some (p, set_detail junk (Some (d, junk_detail))), ud, m)
        end
      else Ok (Some (p, set_detail junk None), ud, m)
  end.

(** The result; the handle, the heap, the remaining code, the address and the
    instruction are updated in place. *)
Definition cs_disasm_iter (ud : option cs_struct) (code : list Z) (address : Z) (insn : cs_insn) (m : mem)
    : outcome (bool * option cs_struct * mem * list Z * Z * cs_insn) :=
  match ud with
  | None => Ok (false, None, m, code, address, insn)
  | Some h =>
      let h := set_errnum h CS_ERR_OK in
      mci ← McInst.MCInst_Init junk_mci;
      insn ← diet_clear (set_address insn address);
      '(r, mci, insn, insn_size) ← op_disasm ops h code mci insn address;
      if r : bool then
        '(h, m, insn) ← emit_insn h m mci insn insn_size code;
        Ok (true, Some h, m, drop (Z.to_nat insn_size) code, u64 (address + insn_size), insn)
      else
        match skip_amount h (zlen code) code 0 with
        | None => Ok (false, Some h, m, code, address, insn)
        | Some n =>
            insn ← data_insn h insn address code n;
            Ok (true, Some h, m, drop (Z.to_nat n) code, u64 (address + n), insn)
        end
  end.
End disasm.

(** ** Laws of a back end *)

(** The arrays of a [cs_insn] have their declared sizes. *)
Definition insn_wf (i : cs_insn) : Prop :=
  zlen (i_bytes i) = 16 ∧ zlen (i_mnemonic i) = 32 ∧ zlen (i_op_str i) = sizeof_op_str.

(** What a back end leaves alone: the address and the detail block. *)
Definition keeps (i i' : cs_insn) : Prop :=
  i_address i' = i_address i ∧ detail_ptr i' = detail_ptr i ∧ insn_wf i'.

(** In detail mode the instruction has a detail block. *)
Definition has_detail (h : cs_struct) (i : cs_insn) : Prop :=
  ctrue (detail h) = true → is_Some (detail_ptr i).

(** A printed line: NUL-terminated, its first word shorter than the field. *)
Definition output_ok (buf : list Z) : Prop :=
  ∃ s rest, buf = s ++ 0 :: rest ∧ Forall (fun c => 0 < c) s ∧ zlen (token s) < 32.

(** The handle's lookup cache is allocated at most once. *)
Definition cache_step (avail : Z → Z → bool) (h : cs_struct) (m : mem) (h' : cs_struct) (m' : mem) : Prop :=
  (h' = h ∧ m' = m) ∨
  (insn_cache h = None ∧ ∃ sz p, cs_mem_malloc avail sz m = (Some p, m') ∧ h' = set_insn_cache h (Some p)).

(** The modes the back end accepts, and what it guarantees of an instruction
    it has decoded, with the details so far, until it is printed. *)
Class ArchOk (avail : Z → Z → bool) (ops : arch_ops) := {
  ak_mode : Z → Prop;
  ak_accepted : cs_struct → McInst.MCInst → option (Z * cs_detail) → Prop;
  ak_disasm : ∀ h code mci insn addr, ak_mode (mode h) → bytes_ok code → zlen code < 2 ^ 64 → in_u 64 addr → insn_wf insn → has_detail h insn →
    McInst.blank mci →
    ∃ r mci' insn' n, op_disasm ops h code mci insn addr = Ok (r, mci', insn', n) ∧
      keeps insn insn' ∧ (r = true → 1 ≤ n ≤ zlen code ∧ n < 2 ^ 16 ∧ ak_accepted h mci' (i_detail insn'));
  ak_insn_id : ∀ h m mci insn, ak_mode (mode h) → ak_accepted h mci (i_detail insn) → insn_wf insn → has_detail h insn →
    ∃ h' m' insn', op_insn_id ops h m insn (McInst.Opcode mci) = Ok (h', m', insn') ∧
      keeps insn insn' ∧ i_size insn' = i_size insn ∧ cache_step avail h m h' m' ∧ ak_accepted h' mci (i_detail insn');
  ak_printer : ∀ h mci insn ss, ak_mode (mode h) → ak_accepted h mci (i_detail insn) → insn_wf insn → has_detail h insn →
    SStream.holds ss [] →
    ∃ mci' insn' ss', op_printer ops h mci insn ss = Ok (mci', insn', ss') ∧
      keeps insn insn' ∧ i_size insn' = i_size insn ∧ output_ok (SStream.buffer ss');
  ak_post : ∀ pp, op_post ops = Some pp → ∀ insn buf mci, insn_wf insn → output_ok buf →
    ∃ insn' buf', pp insn buf mci = Ok (insn', buf') ∧
      keeps insn insn' ∧ i_size insn' = i_size insn ∧ i_bytes insn' = i_bytes insn ∧ output_ok buf'
}.

(** The user's data-skipping setup: at most 16 bytes at a time, and a mnemonic
    where text is printed. *)
Definition setup_ok (b : build) (h : cs_struct) : Prop :=
  (∀ cb, callback (skipdata_setup h) = Some cb → ∀ org n pos, 0 ≤ cb org n pos ≤ 16) ∧
  (diet b = false → is_Some (sk_mnemonic (skipdata_setup h))).

(** ** One instruction covers a piece of the code *)

(** [i] is the instruction at [addr] made of the first [n] bytes of [code];
    of more than 16 bytes the last 16 are kept. *)
Definition covers (code : list Z) (addr n : Z) (i : cs_insn) : Prop :=
  1 ≤ n ≤ zlen code ∧ i_address i = addr ∧ i_size i = Z.min 16 n ∧
  take (Z.to_nat (i_size i)) (i_bytes i) = drop (Z.to_nat (n - i_size i)) (take (Z.to_nat n) code).

Lemma keeps_refl i : insn_wf i → keeps i i.
Proof. done. Qed.

Lemma keeps_trans i j k : keeps i j → keeps j k → keeps i k.
Proof. intros (?&?&?) (?&?&?). unfold keeps. split_conj; [congruence|congruence|done]. Qed.

Lemma keeps_detail h i j : keeps i j → has_detail h i → has_detail h j.
Proof. intros (_ & E & _). unfold has_detail. by rewrite E. Qed.

Lemma diet_clear_spec b i : insn_wf i → ∃ i', diet_clear b i = Ok i' ∧ keeps i i' ∧ i_size i' = i_size i ∧ i_bytes i' = i_bytes i.
Proof.
  intros (H1 & H2 & H3). unfold diet_clear, sizeof_op_str in *. destruct (diet b); [|by exists i].
  rewrite !aset_Ok by lia. eexists. split; [done|]. unfold keeps, insn_wf. cbn. by rewrite !zlen_insert.
Qed.

(** The bytes and the text of a decoded instruction. *)
Lemma fill_insn_spec b avail ops `{!ArchOk avail ops} insn buf mci code :
  insn_wf insn → output_ok buf → 1 ≤ i_size insn ≤ zlen code →
  ∃ insn', fill_insn b insn buf mci (op_post ops) code = Ok insn' ∧ keeps insn insn' ∧
    covers code (i_address insn) (i_size insn) insn'.
Proof.
  intros Hwf Hout Hn. pose proof Hwf as (Hb & Hm & Ho). unfold fill_insn. set (n := i_size insn) in *.
  set (k := if 16 <? n then 16 else n). assert (k = Z.min 16 n) as Ek by (unfold k; zcases; lia).
  rewrite (proj2 (Z.leb_le n _)) by lia.
  set (src := take (Z.to_nat k) (drop (Z.to_nat (n - k)) code)).
  assert (zlen src = k) as Hsrc.
  { unfold src, zlen in *. rewrite length_take, length_drop. lia. }
  rewrite blit_Ok by lia. rewrite Hsrc. cbn [mbind outcome_bind take app Z.to_nat]. rewrite take_0. cbn [app].
  set (bytes := src ++ drop _ _). assert (zlen bytes = 16) as Hbytes.
  { unfold bytes. rewrite zlen_app, Hsrc. unfold zlen in *. rewrite length_drop. lia. }
  set (i1 := set_isize (set_bytes insn bytes) k).
  set (i2 := if ctrue (McInst.MCInst_getOpcodePub mci) then set_id i1 (McInst.MCInst_getOpcodePub mci) else i1).
  assert (keeps insn i2 ∧ i_size i2 = k ∧ i_bytes i2 = bytes) as (K2 & S2 & B2).
  { unfold i2. destruct (ctrue _); (split_conj; [|done|done]); (split; [done|]; split; [done|]; by split_conj). }
  assert (∃ i3 buf3, match op_post ops with Some pp => pp i2 buf mci | None => Ok (i2, buf) end = Ok (i3, buf3) ∧
    keeps i2 i3 ∧ i_size i3 = k ∧ i_bytes i3 = bytes ∧ output_ok buf3) as (i3 & buf3 & -> & K3 & S3 & B3 & O3).
  { destruct K2 as (_ & _ & W2). destruct (op_post ops) as [pp|] eqn:Epp; [|by exists i2, buf].
    destruct (ak_post pp Epp i2 buf mci W2 Hout) as (i3 & buf3 & E & K & S3 & B3 & O). exists i3, buf3.
    rewrite S3, B3. done. }
  cbn [mbind outcome_bind]. pose proof (keeps_trans _ _ _ K2 K3) as K.
  assert (∀ i4, i_address i4 = i_address i3 → i_size i4 = k → i_bytes i4 = bytes → covers code (i_address insn) n i4) as Hcov.
  { intros i4 A4 S4 B4. destruct K as (A & _ & _). unfold covers. rewrite A4, S4, B4. split_conj; [lia|lia|done|lia|].
    unfold bytes. rewrite take_app_length' by (unfold zlen in Hsrc; lia). unfold src.
    rewrite take_drop_commute. do 2 f_equal. lia. }
  destruct (diet b); [exists i3; split; [done|]; split; [done|by apply Hcov]|].
  destruct O3 as (s & rest & -> & Hs & Ht). destruct K as (A & D & W). pose proof W as (Wb & Wm & Wo).
  destruct (split_text_spec s rest (i_mnemonic i3) (i_op_str i3) Hs) as (mn & os & -> & Lm & Lo & _ & _); [lia|done|].
  cbn [mbind outcome_bind]. eexists. split; [done|]. split; [|by apply Hcov].
  unfold keeps. split_conj; [exact A|exact D|]. unfold insn_wf. cbn. split_conj; [done|by rewrite Lm|by rewrite Lo].
Qed.

(** A sequence of instructions that covers the code from [addr] up to what is
    left; the pieces satisfy [P]. *)
Section tiles.
  Context (P : list Z → Z → Z → cs_insn → Prop).

Inductive tiles : list Z → Z → list cs_insn → list Z → Z → Prop :=
| tiles_nil code addr : tiles code addr [] code addr
| tiles_cons code addr n i l code' addr' :
    covers code addr n i → P code addr n i → tiles (drop (Z.to_nat n) code) (u64 (addr + n)) l code' addr' →
    tiles code addr (i :: l) code' addr'.

Lemma tiles_snoc code addr l code' addr' n i :
  tiles code addr l code' addr' → covers code' addr' n i → P code' addr' n i →
  tiles code addr (l ++ [i]) (drop (Z.to_nat n) code') (u64 (addr' + n)).
Proof. induction 1; intros Hc Hp; cbn; econstructor; eauto. constructor. Qed.

Lemma tiles_length code addr l code' addr' :
  tiles code addr l code' addr' → zlen l + zlen code' ≤ zlen code.
Proof.
  induction 1 as [|code addr n i l code' addr' (Hn & _) _ _ IH]; [unfold zlen; cbn; lia|].
  unfold zlen in *. rewrite length_drop in IH. cbn [length]. lia.
Qed.

Lemma tiles_bytes code addr l code' addr' : tiles code addr l code' addr' → bytes_ok code → bytes_ok code'.
Proof. induction 1; [done|]. intros. apply IHtiles. by apply Forall_drop. Qed.

Lemma tiles_address code addr l code' addr' : tiles code addr l code' addr' → in_u 64 addr → in_u 64 addr'.
Proof. induction 1; [done|]. intros _. apply IHtiles. auto with cint. Qed.
End tiles.

(** What is known of one piece may follow from all of the state. *)
Lemma tiles_weaken (P Q : list Z → Z → Z → cs_insn → Prop) code addr l code' addr' :
  tiles P code addr l code' addr' → bytes_ok code → zlen code < 2 ^ 64 → in_u 64 addr →
  (∀ c a n i, bytes_ok c → zlen c < 2 ^ 64 → in_u 64 a → P c a n i → Q c a n i) → tiles Q code addr l code' addr'.
Proof.
  intros Ht Hb Hl Ha HPQ. induction Ht as [|code addr n i l code' addr' Hc Hp Ht IH]; [constructor|].
  econstructor; [done|by apply HPQ|]. apply IH; [by apply Forall_drop| |auto with cint].
  unfold zlen in *. rewrite length_drop. lia.
Qed.

Lemma skip_amount_range b h size org pos n :
  handle_ok h → setup_ok b h → skip_amount h size org pos = Some n → 1 ≤ n ≤ 16 ∧ n ≤ size.
Proof.
  intros (_ & Hsz & Hpos) [Hcb _]. unfold skip_amount. destruct (skipdata h); cbn [negb orb]; [|done].
  specialize (Hpos eq_refl). destruct (Z.ltb_spec size (skipdata_size h)); [done|].
  destruct (callback _) as [cb|] eqn:E.
  - specialize (Hcb cb eq_refl org (zlen org) pos). case_bool; [done|]. case_bool; [done|]. intros [= <-]. lia.
  - intros [= <-]. lia.
Qed.

Lemma data_insn_spec b h insn addr code n :
  setup_ok b h → insn_wf insn → bytes_ok code → 1 ≤ n ≤ 16 → n ≤ zlen code →
  ∃ insn', data_insn b h insn addr code n = Ok insn' ∧ insn_wf insn' ∧ detail_ptr insn' = detail_ptr insn ∧
    i_id insn' = 0 ∧ covers code addr n insn'.
Proof.
  intros [_ Hmn] (Hb & Hm & Ho) Hbytes Hn Hc. unfold data_insn. rewrite wrap_small by (unfold in_u; lia).
  cbn [set_isize set_address set_id i_bytes]. rewrite (proj2 (Z.leb_le n _)) by lia.
  assert (zlen (take (Z.to_nat n) code) = n) as Hl by (unfold zlen in *; rewrite length_take; lia).
  rewrite blit_Ok by lia. rewrite Hl. cbn [mbind outcome_bind].
  set (bs := take (Z.to_nat 0) _ ++ _). assert (zlen bs = 16) as Hbs.
  { unfold bs. rewrite !zlen_app, Hl. unfold zlen in *. rewrite length_take, length_drop. lia. }
  assert (∀ mn os, covers code addr n (mkInsn 0 addr n bs mn os (i_detail insn))) as Hcov.
  { intros. unfold covers. cbn. split_conj; [lia|lia|done|lia|]. rewrite Z.sub_diag. unfold bs.
    change (Z.to_nat 0) with 0%nat. rewrite take_0, drop_0. cbn [app]. apply take_app_length'. unfold zlen in Hl. lia. }
  unfold sizeof_op_str in *. destruct (diet b) eqn:Ed.
  - unfold diet_clear. rewrite Ed. cbn [i_mnemonic i_op_str set_bytes set_isize set_address set_id]. rewrite !aset_Ok by lia.
    cbn [mbind outcome_bind]. eexists. split; [done|]. unfold insn_wf, detail_ptr. cbn. rewrite !zlen_insert. split_conj; try done; apply Hcov.
  - destruct (Hmn eq_refl) as [s ->]. cbn [i_mnemonic i_op_str set_bytes set_isize set_address set_id]. rewrite strncpy_spec by lia. cbn [mbind outcome_bind].
    destruct (skipdata_opstr_spec (i_op_str insn) code n Hbytes Ho) as (os & -> & Hlo & _); [lia|lia|].
    cbn [mbind outcome_bind]. eexists. split; [done|]. unfold insn_wf, detail_ptr. cbn.
    split; [|split; [done|split; [done|apply Hcov]]]. split_conj; [done| |unfold sizeof_op_str; lia].
    rewrite !zlen_app. unfold zlen in *. rewrite length_replicate, length_drop, length_take. lia.
Qed.

Section one.
  Context (b : build) (avail : Z → Z → bool) (ops : arch_ops) `{!ArchOk avail ops}.
  Context (junk_ss : SStream.SStream) (Hss : zlen (SStream.buffer junk_ss) = SStream.BUFSIZE).

Lemma cache_step_detail h m h' m' : cache_step avail h m h' m' → ∀ i, has_detail h i → has_detail h' i.
Proof using Type. by intros [[-> _]|(_ & ? & ? & _ & ->)]. Qed.

Lemma cache_step_mode h m h' m' : cache_step avail h m h' m' → mode h' = mode h.
Proof using Type. by intros [[-> _]|(_ & ? & ? & _ & ->)]. Qed.

Lemma emit_insn_spec h m mci insn n code :
  ak_mode (mode h) → ak_accepted h mci (i_detail insn) → insn_wf insn → has_detail h insn → 1 ≤ n ≤ zlen code →
  ∃ h' m' insn', emit_insn b ops junk_ss h m mci insn n code = Ok (h', m', insn') ∧
    cache_step avail h m h' m' ∧ keeps insn insn' ∧ covers code (i_address insn) n insn'.
Proof using Type*.
  intros Hmode Hacc Hwf Hd Hn. unfold emit_insn. destruct (SStream.Init_spec junk_ss Hss) as (ss & -> & Hh). cbn [mbind outcome_bind].
  set (i0 := set_isize insn n). assert (keeps insn i0) as K0 by done.
  destruct (ak_insn_id h m mci i0) as (h' & m' & i1 & -> & K1 & S1 & C1 & A1);
    [done|done|apply K0|by eapply keeps_detail|]. cbn [mbind outcome_bind].
  pose proof (keeps_trans _ _ _ K0 K1) as K01.
  assert (has_detail h' i1) as Hd' by (eapply cache_step_detail; [done|by eapply keeps_detail]).
  destruct (ak_printer h' mci i1 ss) as (mci' & i2 & ss' & -> & K2 & S2 & O2);
    [by rewrite (cache_step_mode _ _ _ _ C1)|done|apply K01|done|done|].
  cbn [mbind outcome_bind]. pose proof (keeps_trans _ _ _ K01 K2) as K02.
  assert (i_size i2 = n) as Hsz by (by rewrite S2, S1).
  destruct (fill_insn_spec b avail ops i2 (SStream.buffer ss') mci' code) as (i3 & -> & K3 & Hcov);
    [apply K02|done|lia|]. cbn [mbind outcome_bind]. rewrite Hsz in Hcov.
  exists h', m', i3. split; [done|]. split; [done|]. split; [by eapply keeps_trans|].
  destruct K02 as (<- & _ & _). done.
Qed.

End one.

(** ** Ownership along the loop *)

(** The detail blocks of some instructions. *)
Definition dets (l : list cs_insn) : list Z := omap detail_ptr l.

Lemma dets_app l k : dets (l ++ k) = dets l ++ dets k.
Proof. apply omap_app. Qed.

Lemma dets_one i : dets [i] = option_list (detail_ptr i).
Proof. unfold dets. cbn. by destruct (detail_ptr i). Qed.

Definition cacheset (h : cs_struct) : gset Z :=
  match insn_cache h with Some p => {[p]} | None => ∅ end.

Lemma cache_step_owns avail base h m h' m' ps :
  cache_step avail h m h' m' → owns (base ∪ cacheset h) m ps → owns (base ∪ cacheset h') m' ps.
Proof.
  intros [[-> ->]|(Hc & sz & p & Hm & ->)]; [done|]. unfold cacheset. rewrite Hc. cbn [set_insn_cache insn_cache].
  intros Ho. pose proof (owns_move _ _ _ _ (owns_malloc _ _ _ _ _ _ _ Ho Hm)) as H.
  by replace (base ∪ {[p]}) with ({[p]} ∪ (base ∪ ∅) : gset Z) by set_solver.
Qed.

(** [h] is [h0] but for the lookup cache. *)
Definition cfg (h0 h : cs_struct) : Prop := h = set_insn_cache h0 (insn_cache h).

Lemma cfg_refl h : cfg h h.
Proof. by destruct h. Qed.

Lemma cfg_step avail h0 h m h' m' : cfg h0 h → cache_step avail h m h' m' → cfg h0 h'.
Proof. intros Hc [[-> _]|(_ & sz & p & _ & ->)]; [done|]. rewrite Hc. done. Qed.

(** The cache of [h0] is kept; a new one is none of the blocks in [base]. *)
Definition cache_fresh (base : gset Z) (h0 h : cs_struct) : Prop :=
  insn_cache h = insn_cache h0 ∨ (insn_cache h0 = None ∧ cacheset h ## base).

Lemma cache_fresh_step avail base h0 h m h' m' ps :
  cache_step avail h m h' m' → owns (base ∪ cacheset h) m ps → cache_fresh base h0 h → cache_fresh base h0 h'.
Proof.
  intros [[-> _]|(Hc & sz & p & Hm & ->)] Ho Hf; [done|]. right. split; [destruct Hf as [E|[E _]]; congruence|].
  unfold cacheset. cbn [insn_cache set_insn_cache]. unfold cs_mem_malloc in Hm. destruct (avail _ _); [|done]. injection Hm as <- _.
  destruct Ho as (_ & _ & El & Hlt). assert (next m ∉ base); [|set_solver]. intros Hin.
  assert (next m ∈ live m) as H%Hlt by (rewrite El; set_solver). lia.
Qed.

Lemma free_details_spec base n l i m ps :
  0 ≤ i → i + Z.of_nat n ≤ zlen l → owns base m (dets (take n (drop (Z.to_nat i) l)) ++ ps) →
  ∃ m', free_details n l i m = Ok m' ∧ owns base m' ps.
Proof.
  revert i m. induction n as [|n IH]; intros i m Hi Hl Ho; cbn [free_details]; [by exists m|].
  destruct (aget_is_Ok l i) as [x Hx]; [lia|]. rewrite Hx. cbn [mbind outcome_bind].
  apply aget_Ok_inv in Hx as [_ Hx]. rewrite (drop_S _ _ _ Hx) in Ho. cbn [take] in Ho.
  change (x :: ?t) with ([x] ++ t) in Ho.
  rewrite dets_app, dets_one, <- app_assoc in Ho. destruct (owns_free_opt _ _ _ _ Ho) as (m1 & -> & H1).
  cbn [mbind outcome_bind]. apply IH; [lia|lia|]. by replace (Z.to_nat (i + 1)) with (S (Z.to_nat i)) by lia.
Qed.

Lemma cs_free_spec base l p m qs :
  owns base m ((p :: dets l) ++ qs) → ∃ m', cs_free (Some p) l (zlen l) m = Ok m' ∧ owns base m' qs.
Proof.
  intros Ho. unfold cs_free.
  destruct (free_details_spec base (Z.to_nat (zlen l)) l 0 m (p :: qs)) as (m1 & -> & H1); [lia|pose proof (zlen_nonneg l); lia| |].
  - rewrite drop_0, take_ge by (unfold zlen; lia). by rewrite <- Permutation_middle.
  - cbn [mbind outcome_bind]. by apply owns_free.
Qed.

Lemma out_of_memory_spec base h m ptr total c :
  0 ≤ c ≤ zlen total → owns base m (ptr :: dets (take (Z.to_nat c) total)) →
  (ctrue (detail h) = false → dets (take (Z.to_nat c) total) = []) →
  ∃ m', out_of_memory h m ptr total c = Ok (set_errnum h CS_ERR_MEM, m') ∧ owns base m' [].
Proof.
  intros Hc Ho Hd. unfold out_of_memory.
  assert (∃ m1, (if ctrue (detail h) then free_details (Z.to_nat c) total 0 m else Ok m) = Ok m1 ∧ owns base m1 [ptr])
    as (m1 & -> & H1).
  { destruct (ctrue (detail h)).
    - apply (free_details_spec base); [lia|lia|]. rewrite drop_0. by rewrite Permutation_app_comm.
    - exists m. rewrite Hd in Ho by done. done. }
  cbn [mbind outcome_bind]. destruct (owns_free _ _ _ _ H1) as (m2 & -> & H2). cbn [mbind outcome_bind]. eauto.
Qed.

(** ** The loop invariant *)

Section loop.
  Context (b : build) (avail : Z → Z → bool) (szd : Z) (ops : arch_ops) `{!ArchOk avail ops}.
  Context (junk : cs_insn) (junk_detail : cs_detail) (junk_mci : McInst.MCInst) (junk_ss : SStream.SStream).
  Context (Hjunk : insn_wf junk) (Hmci : McInst.slots_ok junk_mci).
  Context (Hss : zlen (SStream.buffer junk_ss) = SStream.BUFSIZE).
  (** The call: the handle on entry, the code, its address, the limit, and the
      blocks that were live before. *)
  Context (h0 : cs_struct) (org : list Z) (off0 count : Z) (base : gset Z).
  Context (Hh0 : handle_ok h0) (Hset : setup_ok b h0) (Horg : bytes_ok org) (Hlen : zlen org < 2 ^ 28) (Hoff : in_u 64 off0) (Hcount : 0 ≤ count).
  Context (Hdet : ctrue (detail h0) = true → ∀ n, avail n szd = true) (Hmode : ak_mode (mode h0)).

(** The instructions disassembled so far. *)
Definition out_insns (st : loop_st) : list cs_insn := take (Z.to_nat (s_c st)) (s_total st).

Record arr_inv (st : loop_st) : Prop := {
  ai_h : cfg h0 (s_h st);
  ai_cap : s_total_size st = sizeof_cs_insn * zlen (s_total st);
  ai_rel : s_c st - s_f st = zlen (s_total st) - s_cache_size st;
  ai_f : 0 ≤ s_f st ≤ s_cache_size st ∧ s_f st ≤ s_c st;
  ai_cache : 1 ≤ s_cache_size st < 2 ^ 31;
  ai_wf : Forall insn_wf (s_total st);
  ai_nodet : ctrue (detail h0) = false → dets (out_insns st) = [];
  ai_own : owns (base ∪ cacheset (s_h st)) (s_m st) (s_ptr st :: dets (out_insns st));
  ai_count : count = 0 ∨ s_c st ≤ count;
  ai_fresh : cache_fresh base h0 (s_h st)
}.

(** The back end, asked for the instruction at [addr] with an initialised
    machine instruction, answers [r], [n] and the two instructions. *)
Definition answers (h : cs_struct) (r : bool) (code : list Z) (addr n : Z) (mci' : McInst.MCInst) (insn' : cs_insn) : Prop :=
  ∃ mci insn, McInst.blank mci ∧ insn_wf insn ∧ (has_detail h insn ∧ (ctrue (detail h) = false → i_detail insn = None)) ∧ i_address insn = addr ∧
    op_disasm ops h code mci insn addr = Ok (r, mci', insn', n).

(** It accepts and [i] is the outcome. *)
Definition emitted (code : list Z) (addr n : Z) (i : cs_insn) : Prop :=
  ∃ h m mci insn h' m', cfg h0 h ∧ answers h true code addr n mci insn ∧ emit_insn b ops junk_ss h m mci insn n code = Ok (h', m', i).

(** What is skipped of code it rejects. *)
Definition skips (code : list Z) (addr : Z) (k : option Z) : Prop :=
  (∃ h n mci insn, cfg h0 h ∧ answers h false code addr n mci insn) ∧
  ∃ h, cfg h0 h ∧ skip_amount h (zlen code) org (u64 (addr - off0)) = k.

(** A piece of the code: an instruction, or data that is skipped. *)
Definition piece (code : list Z) (addr n : Z) (i : cs_insn) : Prop :=
  emitted code addr n i ∨ (skips code addr (Some n) ∧ i_id i = 0 ∧ i_detail i = None).

Record loop_inv (st : loop_st) : Prop := {
  li_arr : arr_inv st;
  li_pos : s_pos st = s_c st;
  li_f : s_f st < s_cache_size st;
  li_tiles : tiles piece org off0 (out_insns st) (s_code st) (s_offset st);
  li_count : count = 0 ∨ s_c st < count
}.

(** Why the disassembly stops with [code] left at [addr]: the limit is
    reached, nothing is left, or the back end rejects what is left and it is
    not to be skipped. *)
Definition stop_reason (c : Z) (code : list Z) (addr : Z) : Prop :=
  (0 < count ∧ c = count) ∨ code = [] ∨ skips code addr None.

Definition exit_ok (st : loop_st) : Prop :=
  arr_inv st ∧ ∃ code' addr', tiles piece org off0 (out_insns st) code' addr' ∧ stop_reason (s_c st) code' addr'.

(** What an iteration that started in [st] leaves. *)
Definition step_post (st : loop_st) (r : iter_res) : Prop :=
  match r with
  | Continue st' => loop_inv st' ∧ zlen (s_code st') < zlen (s_code st)
  | Break st' => exit_ok st'
  | NoMem h m => h = set_errnum (set_insn_cache h0 (insn_cache h)) CS_ERR_MEM ∧ owns (base ∪ cacheset h) m [] ∧ cache_fresh base h0 h
  end.

Lemma loop_inv_exit st : loop_inv st → s_code st = [] → exit_ok st.
Proof. intros [Ha _ _ Ht _] E. split; [done|]. do 2 eexists. split; [done|]. by right; left. Qed.

Lemma resize_grow (l : list cs_insn) n :
  zlen l ≤ n → resize junk n l = l ++ replicate (Z.to_nat (n - zlen l)) junk.
Proof.
  intros Hn. unfold resize, zlen in *. rewrite take_ge by lia. do 2 f_equal. lia.
Qed.

(** The invariant after the array has grown by [k] entries. *)
Lemma grown_inv st h m q total k :
  cfg h0 h → zlen total = s_c st + 1 → 0 ≤ s_c st → 1 ≤ k < 2 ^ 31 → Forall insn_wf total →
  (ctrue (detail h0) = false → dets (take (Z.to_nat (s_c st + 1)) total) = []) →
  owns (base ∪ cacheset h) m (q :: dets (take (Z.to_nat (s_c st + 1)) total)) →
  count = 0 ∨ s_c st + 1 < count → cache_fresh base h0 h →
  ∀ ts code' off', ts = sizeof_cs_insn * (zlen total + k) →
  tiles piece org off0 total code' off' → zlen code' < zlen (s_code st) →
  step_post st (Continue (mkSt h m q (resize junk (zlen total + k) total) ts 0 (s_c st + 1) k (s_c st + 1) code' off')).
Proof.
  intros Hcfg Hl Hc Hk Hwf Hnd Ho Hcnt Hfr ts code' off' -> Ht Hless. rewrite resize_grow by lia.
  set (big := total ++ _). assert (zlen big = zlen total + k) as Hbig.
  { unfold big. rewrite zlen_app. unfold zlen in *. rewrite length_replicate. lia. }
  assert (take (Z.to_nat (s_c st + 1)) big = total) as Htk.
  { unfold big. rewrite take_app_length'; [done|]. unfold zlen in Hl. lia. }
  assert (take (Z.to_nat (s_c st + 1)) total = total) as Htk' by (apply take_ge; unfold zlen in Hl; lia).
  rewrite Htk' in *. split; [|done].
  split; [|done|cbn [s_f s_cache_size]; lia|unfold out_insns; cbn [s_c s_total s_code s_offset]; by rewrite Htk|done].
  split; unfold out_insns; cbn [s_h s_m s_ptr s_total s_total_size s_f s_c s_cache_size]; rewrite ?Htk, ?Hbig; try done; try lia.
  apply Forall_app. split; [done|]. by apply Forall_replicate.
Qed.

(** Storing an instruction and advancing past it. *)
Lemma put_advance st h m insn n :
  loop_inv st → cfg h0 h → insn_wf insn → covers (s_code st) (s_offset st) n insn → piece (s_code st) (s_offset st) n insn →
  (ctrue (detail h0) = false → detail_ptr insn = None) →
  owns (base ∪ cacheset h) m (s_ptr st :: option_list (detail_ptr insn) ++ dets (out_insns st)) → cache_fresh base h0 h →
  ∃ r, (st' ← put_insn st h m insn; advance avail junk count st' n) = Ok r ∧ step_post st r.
Proof.
  intros [[Hh Hcap Hrel Hf Hcs Hwf Hnd Ho _ _] Hpos Hlt Ht Hcnt] Hcfg Hiw Hcov Hpc Hdp Hown Hfr.
  pose proof (tiles_length _ _ _ _ _ _ Ht) as Htl. pose proof Hcov as (Hn & _ & _ & _).
  assert (0 ≤ s_c st < zlen (s_total st)) as Hc by lia.
  set (total := <[Z.to_nat (s_c st) := insn]> (s_total st)).
  assert (zlen total = zlen (s_total st)) as Hltot by (unfold total; apply zlen_insert).
  assert (take (Z.to_nat (s_c st + 1)) total = out_insns st ++ [insn]) as Htake.
  { replace (Z.to_nat (s_c st + 1)) with (S (Z.to_nat (s_c st))) by lia. apply McInst.take_insert_snoc.
    unfold zlen in Hc. lia. }
  assert (zlen (out_insns st) = s_c st) as Hol.
  { unfold out_insns, zlen in *. rewrite length_take. lia. }
  pose proof (tiles_snoc _ _ _ _ _ _ _ _ Ht Hcov Hpc) as Ht'.
  unfold put_insn. rewrite Hpos, aset_Ok by lia. cbn [mbind outcome_bind]. fold total.
  unfold advance. cbn [s_h s_m s_ptr s_total s_total_size s_f s_c s_cache_size s_pos s_code s_offset].
  rewrite (wrap_small 32 (s_f st + 1)) by (unfold in_u; lia).
  assert (∀ pos' code' off', arr_inv (mkSt h m (s_ptr st) total (s_total_size st) (s_f st + 1) (s_c st + 1)
    (s_cache_size st) pos' code' off')) as Hai.
  { intros. split; unfold out_insns; cbn [s_h s_m s_ptr s_total s_total_size s_f s_c s_cache_size]; rewrite ?Htake, ?Hltot;
      try done; try lia; [by apply Forall_insert| |].
    - intros Hz. rewrite dets_app, dets_one, Hdp, Hnd by done. done.
    - rewrite dets_app, dets_one. by rewrite (Permutation_app_comm (dets _)). }
  destruct ((0 <? count) && (s_c st + 1 =? count)) eqn:Estop.
  { eexists. split; [done|]. split; [apply Hai|]. unfold out_insns. cbn [s_c s_total]. rewrite Htake.
    do 2 eexists. split; [done|]. left. zify_bools. lia. }
  assert (count = 0 ∨ s_c st + 1 < count) as Hcnt'.
  { destruct Hcnt as [->|Hcnt]; [by left|]. right. apply andb_false_iff in Estop as [E%Z.ltb_ge|E%Z.eqb_neq]; lia. }
  assert (zlen (drop (Z.to_nat n) (s_code st)) < zlen (s_code st)) as Hless by (unfold zlen in *; rewrite length_drop; lia).
  destruct (Z.eqb_spec (s_f st + 1) (s_cache_size st)) as [Efull|Hnf].
  - rewrite (wrap_small 32) by (unfold in_u; lia). destruct (Hai 0 [] 0) as [_ Hcap' Hrel' _ _ Hwf' Hnd' Hown' _ _].
    cbn [s_h s_m s_ptr s_total s_total_size s_f s_c s_cache_size] in *.
    destruct (owns_realloc avail _ (s_total_size st + sizeof_cs_insn * (s_cache_size st * 8 / 5)) _ _ _ Hown')
      as [(q & m' & -> & Ho')|(m' & -> & Ho')]; cbn [mbind outcome_bind].
    + eexists. split; [done|].
      assert (1 ≤ s_cache_size st * 8 / 5 < 2 ^ 31) as Hnew by zdiv.
      replace ((s_total_size st + sizeof_cs_insn * (s_cache_size st * 8 / 5)) / sizeof_cs_insn)
        with (zlen total + s_cache_size st * 8 / 5)
        by (rewrite Hcap'; unfold sizeof_cs_insn; rewrite <- Z.mul_add_distr_l, (Z.mul_comm 240), Z.div_mul; lia).
      apply (grown_inv st h m' q total (s_cache_size st * 8 / 5)); try done; try lia.
      rewrite take_ge in Htake by (unfold zlen in *; lia). by rewrite Htake.
    + assert (ctrue (detail h) = ctrue (detail h0)) as Ed by (by rewrite Hcfg).
      destruct (out_of_memory_spec (base ∪ cacheset h) h m' (s_ptr st) total (s_c st + 1)) as (m2 & -> & Ho2);
        [lia|done|by rewrite Ed|]. cbn [mbind outcome_bind]. eexists. split; [done|]. split; [|by split].
      exact (f_equal (fun x => set_errnum x CS_ERR_MEM) Hcfg).
  - eexists. split; [done|]. split; [|done]. split; cbn [s_pos s_c s_f s_cache_size s_code s_offset]; [apply Hai|lia|lia| |done].
    unfold out_insns. cbn [s_c s_total]. by rewrite Htake.
Qed.
(** The detail block of the next instruction. *)
Lemma alloc_detail st :
  arr_inv st →
  ∃ d m, (if ctrue (detail (s_h st)) then cs_mem_malloc avail szd (s_m st) else (None, s_m st)) = (d, m) ∧
    owns (base ∪ cacheset (s_h st)) m (s_ptr st :: option_list d ++ dets (out_insns st)) ∧
    (ctrue (detail h0) = true → is_Some d) ∧ (ctrue (detail h0) = false → d = None).
Proof.
  intros Ha. pose proof (ai_own _ Ha) as Ho. assert (detail (s_h st) = detail h0) as -> by (by rewrite (ai_h _ Ha)).
  destruct (ctrue (detail h0)) eqn:Ed; [|by exists None, (s_m st)].
  destruct (cs_mem_malloc avail szd (s_m st)) as [[d|] m] eqn:Em.
  - exists (Some d), m. split; [done|]. split; [|done].
    change (option_list (Some d) ++ ?l) with (d :: l).
    pose proof (owns_malloc _ _ _ _ _ _ _ Ho Em) as H. by rewrite perm_swap.
  - unfold cs_mem_malloc in Em. rewrite (Hdet eq_refl) in Em. done.
Qed.

(** Storing an entry that is not counted. *)
Lemma put_exit st m insn :
  loop_inv st → insn_wf insn → owns (base ∪ cacheset (s_h st)) m (s_ptr st :: dets (out_insns st)) →
  stop_reason (s_c st) (s_code st) (s_offset st) →
  ∃ st', put_insn st (s_h st) m insn = Ok st' ∧ exit_ok st'.
Proof.
  intros [[Hh Hcap Hrel Hf Hcs Hwf Hnd Ho Hcnt Hfr] Hpos Hlt Ht _] Hiw Hown Hstop. unfold put_insn.
  rewrite Hpos, aset_Ok by lia. cbn [mbind outcome_bind]. eexists. split; [done|].
  assert (∀ h m p ts f cs pos code off, out_insns (mkSt h m p (<[Z.to_nat (s_c st):=insn]> (s_total st)) ts f (s_c st) cs pos code off)
    = out_insns st) as Hout by (intros; unfold out_insns; cbn [s_c s_total]; apply take_insert_ge; lia).
  split; [|rewrite Hout; eauto].
  split; rewrite ?Hout; cbn [s_h s_m s_ptr s_total s_total_size s_f s_c s_cache_size]; rewrite ?zlen_insert; try done.
  by apply Forall_insert.
Qed.

Lemma disasm_step_spec st :
  loop_inv st →
  ∃ r, disasm_step b avail szd ops junk junk_detail junk_mci junk_ss org off0 count st = Ok r ∧ step_post st r.
Proof.
  intros Hinv. pose proof (li_arr _ Hinv) as Ha. unfold disasm_step.
  destruct (McInst.MCInst_Init_Ok junk_mci Hmci) as (mci & -> & Hmi). cbn [mbind outcome_bind].
  destruct (alloc_detail st Ha) as (d & m & -> & Hown & Hsome & Hnone).
  pose proof (ai_rel _ Ha). pose proof (ai_f _ Ha). pose proof (li_f _ Hinv). pose proof (li_pos _ Hinv).
  destruct (aget_is_Ok (s_total st) (s_pos st)) as [i0 Hi0]; [lia|]. rewrite Hi0. cbn [mbind outcome_bind].
  assert (insn_wf i0) as Hw0.
  { apply aget_Ok_inv in Hi0 as [_ Hi0]. exact (Forall_lookup_1 _ _ _ _ (ai_wf _ Ha) Hi0). }
  set (i1 := set_address _ _). assert (insn_wf i1 ∧ detail_ptr i1 = d ∧ i_address i1 = s_offset st) as (Hw1 & Hd1 & Ha1).
  { split; [done|]. split; [|done]. unfold detail_ptr, i1. cbn. by destruct d. }
  destruct (diet_clear_spec b i1 Hw1) as (i2 & -> & K2 & _). cbn [mbind outcome_bind].
  assert (detail (s_h st) = detail h0 ∧ cfg h0 (s_h st)) as [Ed Hcfg].
  { pose proof (ai_h _ Ha) as E. split; [by rewrite E|done]. }
  assert (has_detail (s_h st) i2) as Hhd.
  { destruct K2 as (_ & E & _). unfold has_detail. rewrite E, Hd1, Ed. done. }
  pose proof (li_tiles _ Hinv) as Htl. pose proof (tiles_length _ _ _ _ _ _ Htl). pose proof (zlen_nonneg (out_insns st)).
  destruct (ak_disasm (s_h st) (s_code st) mci i2 (s_offset st)) as (r & mci' & i3 & n & Edis & K3 & Hn);
    [by rewrite Hcfg|by eapply tiles_bytes|lia|by eapply tiles_address|apply K2|done|done|]. rewrite Edis. cbn [mbind outcome_bind]. pose proof (keeps_trans _ _ _ K2 K3) as K.
  assert (answers (s_h st) r (s_code st) (s_offset st) n mci' i3) as Hask.
  { exists mci, i2. destruct K2 as (A2 & D2 & W2). split_conj; [done..| |by rewrite A2|done]. rewrite Ed. intros Hno.
    rewrite Hd1, (Hnone Hno) in D2. unfold detail_ptr in D2. by destruct (i_detail i2). }
  destruct K as (A3 & D3 & W3). rewrite Hd1 in D3. rewrite Ha1 in A3.
  destruct r.
  - destruct (Hn eq_refl) as (Hn' & _ & Hacc).
    destruct (emit_insn_spec b avail ops junk_ss Hss (s_h st) m mci' i3 n (s_code st)) as (h' & m' & i4 & Eem & Hstep & K4 & Hcov);
      [by rewrite Hcfg|done|done|by eapply keeps_detail|done|]. rewrite Eem. cbn [mbind outcome_bind]. destruct K4 as (_ & D4 & W4).
    apply put_advance; [done|by eapply cfg_step|done|by rewrite A3 in Hcov|left|rewrite D4, D3; done| |].
    { by exists (s_h st), m, mci', i3, h', m'. }
    { rewrite D4, D3. by eapply cache_step_owns. }
    by eapply cache_fresh_step; [| |apply Ha].
  - rewrite Ed. assert (∃ m', (if ctrue (detail h0) then cs_mem_free (detail_ptr i3) m else Ok m) = Ok m' ∧
      owns (base ∪ cacheset (s_h st)) m' (s_ptr st :: dets (out_insns st))) as (m' & -> & Hown').
    { rewrite D3. destruct (ctrue (detail h0)).
      - apply owns_free_opt. by rewrite Permutation_middle in Hown.
      - exists m. rewrite (Hnone eq_refl) in Hown. done. }
    cbn [mbind outcome_bind].
    assert (handle_ok (s_h st) ∧ setup_ok b (s_h st)) as [Hok Hsok] by (rewrite Hcfg; done).
    destruct (skip_amount _ _ _ _) as [k|] eqn:Esk.
    + destruct (skip_amount_range _ _ _ _ _ _ Hok Hsok Esk) as [Hk Hk'].
      destruct (data_insn_spec b (s_h st) i3 (s_offset st) (s_code st) k) as (i4 & -> & W4 & D4 & I4 & Hcov);
        [done|done|by eapply tiles_bytes; [apply Hinv|]|done|done|]. cbn [mbind outcome_bind].
      apply put_advance; [done|done|done|done|right; split_conj; [split; [by exists (s_h st), n, mci', i3|eauto]|done|done]|done|exact Hown'|apply Ha].
    + destruct (put_exit st m' i3 Hinv W3 Hown') as (st' & -> & He); [right; right; split; [by exists (s_h st), n, mci', i3|eauto]|]. cbn [mbind outcome_bind]. by eexists.
Qed.

Lemma disasm_loop_spec fuel st :
  loop_inv st → zlen (s_code st) ≤ Z.of_nat fuel →
  ∃ r, disasm_loop b avail szd ops junk junk_detail junk_mci junk_ss fuel org off0 count st = Ok r ∧
    match r with Continue _ => False | _ => step_post st r end.
Proof.
  revert st. induction fuel as [|fuel IH]; intros st Hinv Hf; cbn [disasm_loop];
    destruct (s_code st) as [|x code] eqn:Ec;
    try (eexists; split; [done|]; by apply loop_inv_exit); try (unfold zlen in Hf; cbn in Hf; lia).
  destruct (disasm_step_spec st Hinv) as (r & -> & Hr). cbn [mbind outcome_bind].
  destruct r as [st'| |]; [|by eexists..]. destruct Hr as [Hi Hl]. rewrite Ec in Hl.
  destruct (IH st' Hi) as (r & -> & Hr); [lia|]. exists r. split; [done|]. by destruct r.
Qed.

(** The result of the last, shrinking reallocation. *)
Lemma finish_spec st :
  exit_ok st →
  ∃ c h m out, finish avail junk st = Ok (c, h, m, out) ∧ (cfg h0 (set_errnum h (errnum h0)) ∧ cache_fresh base h0 h) ∧
    match out with
    | Arr p l => h = s_h st ∧ c = zlen l ∧ 0 < c ∧ (count = 0 ∨ c ≤ count) ∧
        (∃ code' addr', tiles piece org off0 l code' addr' ∧ stop_reason c code' addr') ∧
        owns (base ∪ cacheset h) m (p :: dets l)
    | Null => c = 0 ∧ owns (base ∪ cacheset h) m [] ∧
        (errnum h = CS_ERR_MEM ∨ (h = s_h st ∧ stop_reason 0 org off0))
    | Kept => False
    end.
Proof.
  intros [[Hh Hcap Hrel Hf Hcs Hwf Hnd Ho Hcnt Hfr] (code' & addr' & Ht & Hstop)]. unfold finish, sizeof_cs_insn in *.
  assert (cfg h0 (set_errnum (s_h st) (errnum h0)) ∧ cache_fresh base h0 (s_h st)) as Hcfg by (split; [by rewrite Hh|done]).
  assert (zlen (out_insns st) = s_c st) as Hol by (unfold out_insns, zlen in *; rewrite length_take; lia).
  destruct (Z.eqb_spec (s_c st) 0) as [Ec|Hc].
  - assert (out_insns st = []) as Enil by (unfold out_insns; by rewrite Ec). rewrite Enil in *.
    destruct (owns_free _ _ _ _ Ho) as (m' & -> & Ho'). cbn [mbind outcome_bind]. do 4 eexists. split; [done|].
    split; [done|]. split_conj; [done|done|right]. inversion Ht; subst. by rewrite Ec in Hstop.
  - destruct (Z.eqb_spec (s_f st) (s_cache_size st)) as [Ef|Hnf]; cbn [negb].
    + assert (out_insns st = s_total st) as Eo by (unfold out_insns; apply take_ge; unfold zlen in *; lia).
      rewrite Eo in *. do 4 eexists. split; [done|]. split; [done|]. split_conj; [done|lia|lia|done|eauto|done].
    + rewrite wrap_small by (unfold in_u; lia).
      destruct (owns_realloc avail _ (s_total_size st - (s_cache_size st - s_f st) * 240) _ _ _ Ho)
        as [(q & m' & -> & Ho')|(m' & -> & Ho')]; cbn [mbind outcome_bind].
      * replace ((s_total_size st - (s_cache_size st - s_f st) * 240) / 240) with (s_c st) by zdiv.
        assert (resize junk (s_c st) (s_total st) = out_insns st) as ->.
        { unfold resize, out_insns. replace (Z.to_nat (s_c st) - length (s_total st))%nat with 0%nat by (unfold zlen in *; lia).
          cbn. apply app_nil_r. }
        do 4 eexists. split; [done|]. split; [done|]. split_conj; [done|lia|lia|done|eauto|done].
      * destruct (out_of_memory_spec (base ∪ cacheset (s_h st)) (s_h st) m' (s_ptr st) (s_total st) (s_c st))
          as (m2 & -> & Ho2); [lia|done|by rewrite Hh|]. cbn [mbind outcome_bind].
        do 4 eexists. split; [done|]. split; [done|]. split_conj; [done|exact Ho2|by left].
Qed.
End loop.

(** ** The entry points *)

Section calls.
  Context (b : build) (avail : Z → Z → bool) (szd : Z) (ops : arch_ops).
  Context (junk : cs_insn) (junk_detail : cs_detail) (junk_mci : McInst.MCInst) (junk_ss : SStream.SStream).

(** Uninitialised objects have the sizes of their types. *)
Definition scratch_ok : Prop :=
  insn_wf junk ∧ McInst.slots_ok junk_mci ∧
  zlen (SStream.buffer junk_ss) = SStream.BUFSIZE.

(** A valid call: the handle invariant and the user's setup, fewer than 2^28
    bytes of code, a 64-bit address, a heap whose live blocks include the handle's cache, and
    details that can be allocated when they are asked for. *)
Record call_ok (h : cs_struct) (code : list Z) (offset count : Z) (m : mem) : Prop := {
  co_handle : handle_ok h;
  co_setup : setup_ok b h;
  co_bytes : bytes_ok code;
  co_len : zlen code < 2 ^ 28;
  co_offset : in_u 64 offset;
  co_count : 0 ≤ count;
  co_fresh : ∀ p, p ∈ live m → p < next m;
  co_cache : cacheset h ⊆ live m;
  co_detail : ctrue (detail h) = true → ∀ n, avail n szd = true
}.

Lemma enter_same h : handle_ok h → setup_ok b h →
  handle_ok (enter h) ∧ setup_ok b (enter h) ∧ detail (enter h) = detail h ∧ insn_cache (enter h) = insn_cache h ∧
  errnum (enter h) = CS_ERR_OK ∧ mode (enter h) = mode h.
Proof. unfold enter. destruct (arch _ =? _); done. Qed.

Lemma first_cache_size_range count : 0 ≤ count → 1 ≤ first_cache_size b count ≤ 32.
Proof.
  intros Hc. unfold first_cache_size, INSN_CACHE_SIZE.
  destruct (sys_dyn_mem b), (osxkernel b || diet b); cbn [andb]; zcases; lia.
Qed.

Lemma cfg_errnum h0 h e :
  errnum h0 = CS_ERR_OK → h = set_errnum (set_insn_cache h0 (insn_cache h)) e → cfg h0 (set_errnum h CS_ERR_OK).
Proof. destruct h0, h. cbn. intros -> [= -> -> -> -> -> -> -> -> ->]. done. Qed.

(** What [cs_disasm] leaves: the handle up to its cache and error number, and
    the result. *)
Definition disasm_post (h : cs_struct) (code : list Z) (offset count : Z) (m : mem)
    (c : Z) (h' : cs_struct) (m' : mem) (out : insn_out) : Prop :=
  (cfg (enter h) (set_errnum h' CS_ERR_OK) ∧ cache_fresh (live m) h h') ∧
  match out with
  | Arr p l => errnum h' = CS_ERR_OK ∧ c = zlen l ∧ 0 < c ∧ (count = 0 ∨ c ≤ count) ∧
      (∃ code' addr', tiles (piece b ops junk_ss (enter h) code offset) code offset l code' addr' ∧ stop_reason ops (enter h) code offset count c code' addr') ∧
      owns (live m ∪ cacheset h') m' (p :: dets l)
  | _ => c = 0 ∧ owns (live m ∪ cacheset h') m' [] ∧
      (errnum h' = CS_ERR_MEM ∨ (errnum h' = CS_ERR_OK ∧ stop_reason ops (enter h) code offset count 0 code offset))
  end.

Lemma cs_disasm_spec `{!ArchOk avail ops} h code offset count m :
  ak_mode (mode h) → scratch_ok → call_ok h code offset count m →
  ∃ c h' m' out,
    cs_disasm b avail szd ops junk junk_detail junk_mci junk_ss (Some h) code offset count m = Ok (c, Some h', m', out) ∧
    disasm_post h code offset count m c h' m' out.
Proof.
  intros Hmode (Hj & Hmci & Hss) [Hok Hset Hb Hlen Hoff Hcnt Hfresh Hcache Hdet].
  destruct (enter_same h Hok Hset) as (Hok' & Hset' & Ed & Ec & Ee & Em0). rewrite <- Em0 in Hmode. unfold cs_disasm.
  pose proof (first_cache_size_range count Hcnt) as Hcs. set (cs := first_cache_size b count) in *.
  assert (live m ∪ cacheset (enter h) = live m) as Ebase.
  { unfold cacheset in *. rewrite Ec. set_solver. }
  assert (owns (live m ∪ cacheset (enter h)) m []) as Ho.
  { rewrite Ebase. unfold owns. split_conj; [constructor|set_solver|set_solver|done]. }
  destruct (cs_mem_malloc avail (sizeof_cs_insn * cs) m) as [[p|] m1] eqn:Em.
  - pose proof (owns_malloc _ _ _ _ _ _ _ Ho Em) as Ho1. rewrite <- Ed in Hdet.
    set (st0 := mkSt _ _ _ _ _ _ _ _ _ _ _).
    assert (loop_inv b ops junk_ss (enter h) code offset count (live m) st0) as Hinv.
    { unfold st0. split; cbn [s_pos s_c s_f s_cache_size]; [|done|lia|unfold out_insns; cbn; constructor|lia].
      assert (zlen (replicate (Z.to_nat cs) junk) = cs) as Hl by (unfold zlen; rewrite length_replicate; lia).
      split; unfold out_insns; cbn [s_h s_m s_ptr s_total s_total_size s_f s_c s_cache_size]; rewrite ?Hl; try done; try lia.
      - apply cfg_refl.
      - by apply Forall_replicate.
      - by left. }
    destruct (disasm_loop_spec b avail szd ops junk junk_detail junk_mci junk_ss Hj Hmci Hss (enter h) code offset count (live m)
      Hok' Hset' Hb Hlen Hoff Hcnt Hdet Hmode (length code) st0 Hinv) as (r & -> & Hr); [unfold zlen; cbn; lia|]. cbn [mbind outcome_bind].
    assert (∀ h', cache_fresh (live m) (enter h) h' → cache_fresh (live m) h h') as Hfr.
    { unfold cache_fresh. by rewrite Ec. }
    destruct r as [|st|h' m']; [done| |].
    + destruct (finish_spec b avail ops junk junk_ss (enter h) code offset count (live m) st Hr)
        as (c & h' & m' & out & -> & [Hcfg Hfr'] & Hout). cbn [mbind outcome_bind].
      do 4 eexists. split; [done|]. rewrite Ee in Hcfg. split; [split; [done|by apply Hfr]|]. destruct Hr as [Ha _].
      assert (errnum (s_h st) = CS_ERR_OK) as Ees by (by rewrite (ai_h _ _ _ _ Ha)).
      destruct out as [| |q l]; [done| |].
      * destruct Hout as (-> & Ho' & Hreason). split_conj; [done|exact Ho'|].
        destruct Hreason as [?|[-> Hs]]; [by left|by right].
      * destruct Hout as (-> & Hc & Hc0 & Hcc & Ht & Ho'). by split_conj.
    + do 4 eexists. split; [done|]. destruct Hr as (Eh & Ho' & Hfr').
      split; [split; [by eapply cfg_errnum|by apply Hfr]|].
      split_conj; [done|exact Ho'|left; by rewrite Eh].
  - do 4 eexists. split; [done|]. pose proof (owns_malloc_none _ _ _ _ _ _ Ho Em) as Ho1. split.
    + split; [apply (cfg_errnum _ _ CS_ERR_MEM); [done|]; by destruct (enter h)|left; exact Ec].
    + split_conj; [done|exact Ho1|by left].
Qed.
End calls.

(** A back end that knows the one-byte instruction [nop]. *)
Definition ops0 : arch_ops :=
  mkOps
    (fun h code mci insn addr =>
       Ok (match code with 144 :: _ => (true, mci, insn, 1) | _ => (false, mci, insn, 0) end))
    (fun h m insn opc => Ok (h, m, set_id insn 1))
    (fun h mci insn ss => ss ← SStream.SStream_concat0 ss [110; 111; 112]; Ok (mci, insn, ss))
    None.

#[global] Instance ops0_ok avail : ArchOk avail ops0.
Proof.
  refine {| ak_mode := fun _ => True; ak_accepted := fun _ _ _ => True |}.
  - intros h code mci insn addr _ _ _ _ Hw _ _. cbn [op_disasm ops0].
    assert (∀ x rest, code = x :: rest → 1 ≤ 1 ≤ zlen code ∧ 1 < 2 ^ 16 ∧ True) as Hz.
    { intros x rest ->. unfold zlen. cbn [length]. lia. }
    destruct code as [|x rest]; [do 4 eexists; split; [reflexivity|]; by split|].
    destruct (decide (x = 144)) as [->|Hne].
    + do 4 eexists. split; [reflexivity|]. split; [done|]. intros _. by eapply Hz.
    + exists false, mci, insn, 0. split; [|by split].
      repeat match goal with |- context [match ?z with _ => _ end] => is_var z; destruct z; try reflexivity; try done end.
  - intros h m mci insn _ _ Hw _. do 3 eexists. split; [reflexivity|]. split; [done|]. split; [done|]. split; [by left|done].
  - intros h mci insn ss _ _ Hw _ Hh. destruct (SStream.concat_spec ss [] [110; 111; 112] Hh) as (ss' & _ & E & _ & _ & _ & rest & Er);
      [reflexivity|]. exists mci, insn, ss'. cbn [op_printer ops0]. rewrite E. split; [done|]. split; [done|]. split; [done|].
    exists [110; 111; 112], rest. split; [done|]. split; [repeat constructor|reflexivity].
  - discriminate.
Defined.

Definition insn0 : cs_insn := mkInsn 0 0 0 (replicate 16 0) (replicate 32 0) (replicate 160 0) None.
Definition detail0 : cs_detail := mkDetail [] 0 [] 0 [] 0 empty_x86 (fun _ => (0, [])).
Definition ss0 : SStream.SStream := SStream.mkSS (replicate 512 0) 0.

Lemma scratch0_ok : scratch_ok insn0 McInst.inst0 ss0.
Proof.
  unfold scratch_ok, insn_wf, McInst.slots_ok. split_conj; try reflexivity. repeat constructor; vm_compute; discriminate.
Defined.

Lemma call0_ok code : bytes_ok code → zlen code < 2 ^ 28 → call_ok build0 (fun _ _ => true) 100 handle0 code 4096 0 (mkMem 0 ∅).
Proof.
  intros Hb Hl. split; [| |done|done|by unfold in_u|done|set_solver|set_solver|done].
  - unfold handle_ok. split_conj; first [reflexivity|discriminate|vm_compute; discriminate].
  - split; [discriminate|]. intros _. eexists. reflexivity.
Defined.



(** Releasing the result: [cs_free] with the array and the count that
    [cs_disasm] returned frees every block the call allocated exactly once;
    only the handle's lookup cache stays. *)
Theorem cs_disasm_free (b : build) (avail : Z → Z → bool) (szd : Z) (ops : arch_ops)
    (junk : cs_insn) (junk_detail : cs_detail) (junk_mci : McInst.MCInst) (junk_ss : SStream.SStream)
    (h h' : cs_struct) (code : list Z) (offset count c p : Z) (m m' : mem) (l : list cs_insn) :
  ∀ ok : ArchOk avail ops, ak_mode (mode h) → scratch_ok junk junk_mci junk_ss → call_ok b avail szd h code offset count m →
  cs_disasm b avail szd ops junk junk_detail junk_mci junk_ss (Some h) code offset count m = Ok (c, Some h', m', Arr p l) →
  ∃ m'', cs_free (Some p) l c m' = Ok m'' ∧ live m'' = live m ∪ cacheset h'.
Proof.
  intros Hops Hmode Hs Hc E.
  destruct (cs_disasm_spec b avail szd ops junk junk_detail junk_mci junk_ss h code offset count m Hmode Hs Hc)
    as (c1 & h1 & m1 & out & E1 & _ & Hpost). rewrite E in E1. injection E1 as <- <- <- <-.
  destruct Hpost as (_ & -> & _ & _ & _ & Ho). rewrite <- (app_nil_r (_ :: _)) in Ho.
  destruct (cs_free_spec _ _ _ _ _ Ho) as (m2 & E2 & H2). exists m2. split; [done|]. by eapply owns_nil.
Qed.

(** The handle of the examples with details switched on. *)
Definition handle1 : cs_struct := set_hdetail handle0 CS_OPT_ON.

Lemma cs_disasm_free_witness :
  match cs_disasm build0 (fun _ _ => true) 100 ops0 insn0 detail0 McInst.inst0 ss0 (Some handle1) [144; 144; 7] 4096 0 (mkMem 0 ∅) with
  | Ok (c, Some h', m', Arr p l) => ∃ m'', cs_free (Some p) l c m' = Ok m'' ∧ live m'' = ∅ ∪ cacheset h'
  | _ => False
  end.
Proof.
  destruct (cs_disasm _ _ _ _ _ _ _ _ _ _ _ _ _) as [[[[c [h'|]] m'] [| |p l]]| |] eqn:H;
    try (vm_compute in H; discriminate H).
  refine (cs_disasm_free build0 (fun _ _ => true) 100 ops0 insn0 detail0 McInst.inst0 ss0 handle1 h'
    [144; 144; 7] 4096 0 c p (mkMem 0 ∅) m' l (ops0_ok _) I scratch0_ok _ H).
  destruct (call0_ok [144; 144; 7]) as [H1 H2 H3 H4 H5 H6 H7 H8 H9];
    [apply (bool_decide_unpack _); vm_compute; exact I|reflexivity|]. by split.
Defined.

(** Single-stepping: [cs_disasm_iter] never fails; when it returns true
    the instruction covers a prefix of the code, and code and address have
    moved past exactly that prefix; when it returns false both are unchanged,
    and the back end rejected the code and it was not to be skipped. *)
Theorem cs_disasm_iter_steps (b : build) (avail : Z → Z → bool) (ops : arch_ops)
    (junk_mci : McInst.MCInst) (junk_ss : SStream.SStream)
    (h : cs_struct) (code : list Z) (address : Z) (insn : cs_insn) (m : mem) :
  ∀ ok : ArchOk avail ops, ak_mode (mode h) → scratch_ok insn junk_mci junk_ss → handle_ok h → setup_ok b h → bytes_ok code → zlen code < 2 ^ 64 → in_u 64 address → has_detail h insn →
  ∃ r h' m' code' address' insn',
    cs_disasm_iter b ops junk_mci junk_ss (Some h) code address insn m = Ok (r, Some h', m', code', address', insn') ∧
    insn_wf insn' ∧ detail_ptr insn' = detail_ptr insn ∧ cache_step avail (set_errnum h CS_ERR_OK) m h' m' ∧
    if r : bool
    then ∃ n, covers code address n insn' ∧ code' = drop (Z.to_nat n) code ∧ address' = u64 (address + n)
    else code' = code ∧ address' = address ∧ skip_amount h' (zlen code) code 0 = None.
Proof.
  intros Hops Hmode (Hw & Hmci & Hss) Hok Hset Hb Hlen Haddr Hd. unfold cs_disasm_iter.
  destruct (McInst.MCInst_Init_Ok junk_mci Hmci) as (mci & -> & Hmi). cbn [mbind outcome_bind].
  destruct (diet_clear_spec b (set_address insn address) Hw) as (i1 & -> & K1 & _). cbn [mbind outcome_bind].
  set (h1 := set_errnum h CS_ERR_OK). assert (has_detail h1 i1) as Hd1 by (by eapply keeps_detail).
  destruct (ak_disasm h1 code mci i1 address) as (r & mci' & i2 & n & -> & K2 & Hn); [done|done|done|done|apply K1|done|done|].
  cbn [mbind outcome_bind]. pose proof (keeps_trans _ _ _ K1 K2) as (A2 & D2 & W2). destruct r.
  - destruct (Hn eq_refl) as (Hn' & _ & Hacc).
    destruct (emit_insn_spec b avail ops junk_ss Hss h1 m mci' i2 n code) as (h' & m' & i3 & -> & Hst & (A3 & D3 & W3) & Hcov);
      [done|done|done|by eapply keeps_detail|done|]. cbn [mbind outcome_bind]. do 6 eexists. split; [done|].
    split; [done|]. split; [by rewrite D3, D2|]. split; [done|]. exists n. rewrite A2 in Hcov. done.
  - destruct (skip_amount h1 _ _ _) as [k|] eqn:Esk.
    + destruct (skip_amount_range _ _ _ _ _ _ Hok Hset Esk) as [Hk Hk'].
      destruct (data_insn_spec b h1 i2 address code k) as (i3 & -> & W3 & D3 & _ & Hcov); [done..|].
      cbn [mbind outcome_bind]. do 6 eexists. split; [done|]. split; [done|]. split; [by rewrite D3, D2|].
      split; [by left|]. by exists k.
    + do 6 eexists. split; [done|]. split; [done|]. split; [by rewrite D2|]. split; [by left|]. done.
Qed.

Lemma cs_disasm_iter_steps_witness :
  ∃ r h' m' code' address' insn',
    cs_disasm_iter build0 ops0 McInst.inst0 ss0 (Some handle0) [144; 7] 4096 insn0 (mkMem 0 ∅)
      = Ok (r, Some h', m', code', address', insn') ∧ r = true ∧ code' = [7] ∧ address' = 4097.
Proof.
  destruct (call0_ok [144; 7]) as [H1 H2 H3 _ _ _ _ _ _]; [apply (bool_decide_unpack _); vm_compute; exact I|reflexivity|].
  destruct (cs_disasm_iter_steps build0 (fun _ _ => true) ops0 McInst.inst0 ss0 handle0 [144; 7] 4096 insn0 (mkMem 0 ∅)
    (ops0_ok _) I scratch0_ok H1 H2 H3) as (r & h' & m' & code' & a' & i' & H & _); [reflexivity|unfold in_u; lia|discriminate|].
  exists r, h', m', code', a', i'. split; [exact H|]. vm_compute in H. by injection H as <- _ _ <- <- _.
Defined.

(** [cs_malloc] returns an instruction, with a detail block exactly in
    detail mode, or fails with the out-of-memory error and leaves no block
    behind; [cs_free] of one instruction releases what it allocated. *)
Theorem cs_malloc_free (avail : Z → Z → bool) (szd : Z) (junk : cs_insn) (junk_detail : cs_detail) (h : cs_struct) (m : mem) :
  (∀ p, p ∈ live m → p < next m) →
  ∃ out h' m', cs_malloc avail szd junk junk_detail h m = Ok (out, h', m') ∧
    match out with
    | None => errnum h' = CS_ERR_MEM ∧ live m' = live m
    | Some (p, insn) => h' = h ∧ (is_Some (detail_ptr insn) ↔ ctrue (detail h) = true) ∧
        ∃ m'', cs_free (Some p) [insn] 1 m' = Ok m'' ∧ live m'' = live m
    end.
Proof.
  intros Hm. assert (owns (live m) m []) as Ho by (unfold owns; split_conj; [constructor|set_solver|set_solver|done]).
  assert (∀ p insn m', owns (live m) m' (option_list (detail_ptr insn) ++ [p]) →
    ∃ m'', cs_free (Some p) [insn] 1 m' = Ok m'' ∧ live m'' = live m) as Hfree.
  { intros p insn m' H. unfold cs_free.
    destruct (free_details_spec (live m) 1 [insn] 0 m' [p]) as (m1 & E1 & H1); [lia|done|by change (take 1 (drop (Z.to_nat 0) [insn])) with [insn]; rewrite dets_one|].
    change (Z.to_nat 1) with 1%nat. rewrite E1. cbn [mbind outcome_bind].
    destruct (owns_free _ _ _ _ H1) as (m2 & -> & H2). exists m2. split; [done|]. by eapply owns_nil. }
  unfold cs_malloc. destruct (cs_mem_malloc avail sizeof_cs_insn m) as [[p|] m1] eqn:E1.
  - pose proof (owns_malloc _ _ _ _ _ _ _ Ho E1) as H1. destruct (ctrue (detail h)) eqn:Ed.
    + destruct (cs_mem_malloc avail szd m1) as [[d|] m2] eqn:E2.
      * pose proof (owns_malloc _ _ _ _ _ _ _ H1 E2) as H2. do 3 eexists. split; [done|].
        split; [done|]. split; [done|]. by apply Hfree.
      * destruct (owns_free _ _ _ _ (owns_malloc_none _ _ _ _ _ _ H1 E2)) as (m3 & -> & H3). cbn [mbind outcome_bind].
        do 3 eexists. split; [done|]. split; [done|]. by eapply owns_nil.
    + do 3 eexists. split; [done|]. split; [done|]. split; [by split; [intros [? ?]|]|]. by apply Hfree.
  - do 3 eexists. split; [done|]. split; [done|]. eapply owns_nil; [by eapply owns_malloc_none|done].
Qed.

Lemma cs_malloc_free_witness :
  ∃ out h' m', cs_malloc (fun n _ => n =? 0) 100 insn0 detail0 handle1 (mkMem 0 ∅) = Ok (out, h', m') ∧ out = None ∧ live m' = ∅.
Proof.
  destruct (cs_malloc_free (fun n _ => n =? 0) 100 insn0 detail0 handle1 (mkMem 0 ∅)) as (out & h' & m' & H & Hp); [set_solver|].
  exists out, h', m'. split; [exact H|]. assert (out = None) as -> by (vm_compute in H; by injection H).
  split; [reflexivity|]. exact (proj2 Hp).
Defined.

(** A callback that skips more than 16 bytes overruns [bytes], and a setup
    without a mnemonic is dereferenced. *)
Definition skip17 : cs_struct :=
  set_setup (set_skipdata handle0 true 1) (mkSkip (Some [46]) (Some (fun _ _ _ => 17))).
Definition no_mnemonic : cs_struct := set_setup (set_skipdata handle0 true 1) (mkSkip None None).

(** Data skipping trusts the user's setup: a callback that asks for 17
    bytes makes the copy leave the 16-byte field of the instruction, and a
    setup without a mnemonic makes [cs_disasm] read through a null pointer. *)
Theorem skipdata_unchecked :
  let run h := cs_disasm build0 (fun _ _ => true) 100 ops0 insn0 detail0 McInst.inst0 ss0 (Some h) (replicate 20 7) 0 0 (mkMem 0 ∅) in
  run skip17 = Ub ∧ run no_mnemonic = Ub.
Proof. cbv zeta. split; vm_compute; reflexivity. Qed.

End CsDisasm.
