(* ===== verification/CsQuery.v ===== *)
(** * Capstone: queries on instructions ([Lilu.kext/capstone/cs.c], [cs_reg_name] to [cs_op_index])

    Names of registers, instructions and groups through the back end, and the
    membership and operand queries on the detail of an instruction. *)

From Stdlib Require Import ZArith Lia.
From S2P Require Import Prelude CsUtils CsCore.

Module CsQuery.
Import Utils X86Data Cs.

Open Scope c_scope.

(** ** Model *)

(** A name through one of the handle's function pointers ([NULL]: [None]). *)
Definition name_query (ud : option cs_struct) (get : option (Z → option (list Z))) (id : Z) : option (list Z) :=
  match ud, get with
  | Some _, Some f => f id
  | _, _ => None
  end.

Definition cs_reg_name := name_query.
Definition cs_insn_name := name_query.
Definition cs_group_name := name_query.

(** [for (i = 0; i < max; i++) if (arr[i] == id) return true;] *)
Fixpoint arr_exist_loop (n : nat) (arr : list Z) (i id : Z) : outcome bool :=
  match n with
  | O => Ok false
  | S n => x ← aget arr i; if x =? id then Ok true else arr_exist_loop n arr (i + 1) id
  end.

Definition arr_exist (arr : list Z) (max id : Z) : outcome bool := arr_exist_loop (Z.to_nat max) arr 0 id.

(** The checks every detail query starts with: the error, or the detail. *)
Definition check_detail (h : cs_struct) (insn : cs_insn) : Z + cs_detail :=
  if detail h =? 0 then inl CS_ERR_DETAIL
  else if i_id insn =? 0 then inl CS_ERR_SKIPDATA
  else match i_detail insn with
       | None => inl CS_ERR_DETAIL
       | Some (_, d) => inr d
       end.

(** A membership query and its error number. *)
Definition detail_query (ud : option cs_struct) (insn : cs_insn) (field : cs_detail → list Z * Z) (id : Z)
    : outcome (bool * option cs_struct) :=
  match ud with
  | None => Ok (false, None)
  | Some h =>
      match check_detail h insn with
      | inl e => Ok (false, Some (set_errnum h e))
      | inr d => r ← arr_exist (field d).1 (field d).2 id; Ok (r, Some h)
      end
  end.

Definition cs_insn_group (ud : option cs_struct) (insn : cs_insn) (group_id : Z) : outcome (bool * option cs_struct) :=
  detail_query ud insn (fun d => (groups d, groups_count d)) group_id.
Definition cs_reg_read (ud : option cs_struct) (insn : cs_insn) (reg_id : Z) : outcome (bool * option cs_struct) :=
  detail_query ud insn (fun d => (regs_read d, regs_read_count d)) reg_id.
Definition cs_reg_write (ud : option cs_struct) (insn : cs_insn) (reg_id : Z) : outcome (bool * option cs_struct) :=
  detail_query ud insn (fun d => (regs_write d, regs_write_count d)) reg_id.

(** The operand loop of each architecture's case. *)
Fixpoint count_ops (n : nat) (types : list Z) (i op_type count : Z) : outcome Z :=
  match n with
  | O => Ok count
  | S n =>
      x ← aget types i;
      count_ops n types (i + 1) op_type (if x =? op_type then u32 (count + 1) else count)
  end.

Fixpoint index_ops (n : nat) (types : list Z) (i op_type post count : Z) : outcome Z :=
  match n with
  | O => Ok (-1)
  | S n =>
      x ← aget types i;
      let count := if x =? op_type then u32 (count + 1) else count in
      if count =? post then Ok (s32 i) else index_ops n types (i + 1) op_type post count
  end.

(** The shared frame of the operand queries; [loop] runs over the operand
    count and the operand types of the handle's architecture. *)
Definition op_query (ud : option cs_struct) (insn : cs_insn) (loop : Z → list Z → outcome Z)
    : outcome (Z * option cs_struct) :=
  match ud with
  | None => Ok (-1, None)
  | Some h =>
      match check_detail h insn with
      | inl e => Ok (-1, Some (set_errnum h e))
      | inr d =>
          let h := set_errnum h CS_ERR_OK in
          if (0 <=? arch h) && (arch h <? CS_ARCH_MAX) then
            r ← loop (view d (arch h)).1 (view d (arch h)).2; Ok (r, Some h)
          else Ok (-1, Some (set_errnum h CS_ERR_HANDLE))
      end
  end.

Definition cs_op_count (ud : option cs_struct) (insn : cs_insn) (op_type : Z) : outcome (Z * option cs_struct) :=
  op_query ud insn (fun n types => c ← count_ops (Z.to_nat n) types 0 op_type 0; Ok (s32 c)).

Definition cs_op_index (ud : option cs_struct) (insn : cs_insn) (op_type post : Z) : outcome (Z * option cs_struct) :=
  op_query ud insn (fun n types => index_ops (Z.to_nat n) types 0 op_type post 0).

(** ** Properties *)

Lemma arr_exist_loop_spec arr p rest id :
  arr_exist_loop (length arr) (p ++ arr ++ rest) (zlen p) id = Ok (bool_decide (id ∈ arr)).
Proof.
  revert p. induction arr as [|x arr IH]; intros p; [done|]. cbn [length arr_exist_loop app].
  rewrite aget_mid. cbn [mbind outcome_bind]. destruct (Z.eqb_spec x id) as [->|Hne].
  - rewrite bool_decide_true; [done|]. apply list_elem_of_here.
  - specialize (IH (p ++ [x])). rewrite zlen_app, <- app_assoc in IH. cbn [app] in IH. change (zlen [x]) with 1 in IH.
    rewrite IH. f_equal. apply bool_decide_ext. rewrite elem_of_cons. naive_solver.
Qed.

(** A field of the detail with its count within its array. *)
Definition field_ok (f : list Z * Z) : Prop := 0 ≤ f.2 ≤ zlen f.1.

Lemma arr_exist_spec f id :
  field_ok f → arr_exist f.1 f.2 id = Ok (bool_decide (id ∈ take (Z.to_nat f.2) f.1)).
Proof.
  intros Hf. unfold arr_exist. rewrite <- (take_drop (Z.to_nat f.2) f.1) at 1.
  pose proof (arr_exist_loop_spec (take (Z.to_nat f.2) f.1) [] (drop (Z.to_nat f.2) f.1) id) as H.
  cbn [app] in H. rewrite length_take, Nat.min_l in H by (unfold field_ok, zlen in Hf; lia). exact H.
Qed.

(** Membership queries: with details switched on and present,
    [cs_insn_group], [cs_reg_read] and [cs_reg_write] answer whether the id is
    among the counted entries of their list and leave the handle alone;
    otherwise they answer false and set the error that says why. *)
Theorem detail_queries_correct (h : cs_struct) (insn : cs_insn) (id : Z) (d : cs_detail) :
  field_ok (groups d, groups_count d) → field_ok (regs_read d, regs_read_count d) → field_ok (regs_write d, regs_write_count d) →
  match check_detail h insn with
  | inl e => cs_insn_group (Some h) insn id = Ok (false, Some (set_errnum h e)) ∧
      cs_reg_read (Some h) insn id = Ok (false, Some (set_errnum h e)) ∧
      cs_reg_write (Some h) insn id = Ok (false, Some (set_errnum h e)) ∧
      ((e = CS_ERR_DETAIL ∧ (detail h = 0 ∨ i_detail insn = None)) ∨ (e = CS_ERR_SKIPDATA ∧ i_id insn = 0))
  | inr d' => d' = d →
      cs_insn_group (Some h) insn id = Ok (bool_decide (id ∈ take (Z.to_nat (groups_count d)) (groups d)), Some h) ∧
      cs_reg_read (Some h) insn id = Ok (bool_decide (id ∈ take (Z.to_nat (regs_read_count d)) (regs_read d)), Some h) ∧
      cs_reg_write (Some h) insn id = Ok (bool_decide (id ∈ take (Z.to_nat (regs_write_count d)) (regs_write d)), Some h)
  end.
Proof.
  intros H1 H2 H3. unfold cs_insn_group, cs_reg_read, cs_reg_write, detail_query.
  destruct (check_detail h insn) as [e|d'] eqn:E.
  - split_conj; try done. unfold check_detail in E. destruct (Z.eqb_spec (detail h) 0); [injection E as <-; by left; split; [|left]|].
    destruct (Z.eqb_spec (i_id insn) 0); [injection E as <-; by right|].
    destruct (i_detail insn) as [[? ?]|]; [done|]. injection E as <-. by left; split; [|right].
  - intros ->. rewrite (arr_exist_spec _ id H1), (arr_exist_spec _ id H2), (arr_exist_spec _ id H3). done.
Qed.

(** The positions of the operands of type [t]. *)
Fixpoint positions (t : Z) (l : list Z) (i : Z) : list Z :=
  match l with
  | [] => []
  | x :: l => if x =? t then i :: positions t l (i + 1) else positions t l (i + 1)
  end.

Lemma positions_length t l i : zlen (positions t l i) ≤ zlen l.
Proof.
  revert i. induction l as [|x l IH]; intros i; [done|]. cbn. specialize (IH (i + 1)). unfold zlen in *.
  destruct (x =? t); cbn [length]; lia.
Qed.

Lemma count_ops_spec l p rest t c :
  0 ≤ c → c + zlen l < 2 ^ 31 →
  count_ops (length l) (p ++ l ++ rest) (zlen p) t c = Ok (c + zlen (positions t l (zlen p))).
Proof.
  revert p c. induction l as [|x l IH]; intros p c Hc Hl; cbn [length count_ops app positions]; [f_equal; unfold zlen; cbn; lia|].
  rewrite aget_mid. cbn [mbind outcome_bind]. unfold zlen in Hl. cbn [length] in Hl.
  rewrite (wrap_small 32) by (unfold in_u; lia).
  specialize (IH (p ++ [x]) (if x =? t then c + 1 else c)). rewrite zlen_app, <- app_assoc in IH. cbn [app] in IH.
  change (zlen [x]) with 1 in IH. rewrite IH by (unfold zlen; destruct (x =? t); lia). f_equal.
  unfold zlen. destruct (x =? t); cbn [length]; lia.
Qed.

Lemma index_ops_spec l p rest t post c :
  0 ≤ c < post → c + zlen l < 2 ^ 31 → zlen p + zlen l < 2 ^ 31 →
  index_ops (length l) (p ++ l ++ rest) (zlen p) t post c
  = Ok (default (-1) (positions t l (zlen p) !! Z.to_nat (post - c - 1))).
Proof.
  revert p c. induction l as [|x l IH]; intros p c Hc Hl Hp; cbn [length index_ops app positions]; [done|].
  rewrite aget_mid. cbn [mbind outcome_bind]. unfold zlen in Hl, Hp. cbn [length] in Hl, Hp.
  rewrite (wrap_small 32) by (unfold in_u; lia).
  assert (∀ c', 0 ≤ c' < post → c' ≤ c + 1 → index_ops (length l) (p ++ x :: l ++ rest) (zlen p + 1) t post c'
    = Ok (default (-1) (positions t l (zlen p + 1) !! Z.to_nat (post - c' - 1)))) as Hrec.
  { intros c' H1 H2. specialize (IH (p ++ [x]) c' H1). rewrite zlen_app, <- app_assoc in IH. cbn [app] in IH.
    change (zlen [x]) with 1 in IH. apply IH; unfold zlen; lia. }
  destruct (x =? t).
  - destruct (Z.eqb_spec (c + 1) post) as [<-|Hne].
    + replace (Z.to_nat (c + 1 - c - 1)) with 0%nat by lia. cbn. f_equal. apply swrap_small; unfold zlen; lia.
    + rewrite Hrec by lia. replace (Z.to_nat (post - c - 1)) with (S (Z.to_nat (post - (c + 1) - 1))) by lia. done.
  - rewrite (proj2 (Z.eqb_neq c post)) by lia. apply Hrec; lia.
Qed.

(** Operand queries: [cs_op_count] is the number of operands of the given
    type and [cs_op_index] the position of the [post]-th of them, counting
    from 1, or -1 when there are fewer; both reset the error number. *)
Theorem op_queries_correct (h : cs_struct) (insn : cs_insn) (d : cs_detail) (t post : Z) :
  check_detail h insn = inr d → 0 ≤ arch h < CS_ARCH_MAX →
  field_ok ((view d (arch h)).2, (view d (arch h)).1) → (view d (arch h)).1 < 2 ^ 31 → 1 ≤ post →
  let ps := positions t (take (Z.to_nat (view d (arch h)).1) (view d (arch h)).2) 0 in
  cs_op_count (Some h) insn t = Ok (zlen ps, Some (set_errnum h CS_ERR_OK)) ∧
  cs_op_index (Some h) insn t post = Ok (default (-1) (ps !! Z.to_nat (post - 1)), Some (set_errnum h CS_ERR_OK)).
Proof.
  intros Hd Ha Hf Hn Hp. cbv zeta. unfold cs_op_count, cs_op_index, op_query. rewrite Hd. cbn [arch set_errnum].
  rewrite (proj2 (Z.leb_le 0 (arch h))), (proj2 (Z.ltb_lt (arch h) CS_ARCH_MAX)) by lia. cbn [andb].
  destruct (view d (arch h)) as [n types]. cbn [fst snd] in *. unfold field_ok in Hf. cbn [fst snd] in Hf.
  set (l := take (Z.to_nat n) types). assert (zlen l = n) as Hl by (unfold l, zlen in *; rewrite length_take; lia).
  assert (types = [] ++ l ++ drop (Z.to_nat n) types) as Et by (cbn; unfold l; by rewrite take_drop).
  pose proof (positions_length t l 0) as Hpl. pose proof (zlen_nonneg (positions t l 0)).
  pose proof (count_ops_spec l [] (drop (Z.to_nat n) types) t 0) as H1.
  pose proof (index_ops_spec l [] (drop (Z.to_nat n) types) t post 0) as H2.
  rewrite <- Et in H1, H2. change (zlen []) with 0 in H1, H2.
  replace (length l) with (Z.to_nat n) in H1, H2 by (unfold zlen in Hl; lia).
  rewrite H1, H2 by lia. cbn [mbind outcome_bind]. rewrite Z.sub_0_r, swrap_small by lia. done.
Qed.

(** An instruction with the operands register, immediate, register. *)
Definition detail_rir : cs_detail :=
  mkDetail [9; 4] 1 [] 0 [7; 2] 2
    (mkX86 [] [] 0 0 0 0 0 0 0 0 0 0 false 0 3 ((fun t => mkX86Op t V0 0 0 false) <$> [1; 2; 1; 0])) (fun _ => (0, [])).
Definition insn_rir : cs_insn := mkInsn 5 0 3 [] [] [] (Some (8, detail_rir)).
Definition handle_rir : cs_struct := set_hdetail handle0 CS_OPT_ON.

Lemma detail_queries_correct_witness :
  cs_insn_group (Some handle_rir) insn_rir 2 = Ok (true, Some handle_rir) ∧
  cs_reg_read (Some handle_rir) insn_rir 4 = Ok (false, Some handle_rir).
Proof.
  destruct (detail_queries_correct handle_rir insn_rir 2 detail_rir) as (H1 & _ & _);
    [split; vm_compute; discriminate..|reflexivity|].
  destruct (detail_queries_correct handle_rir insn_rir 4 detail_rir) as (_ & H2 & _);
    [split; vm_compute; discriminate..|reflexivity|]. exact (conj H1 H2).
Defined.

Lemma op_queries_correct_witness :
  cs_op_count (Some handle_rir) insn_rir 1 = Ok (2, Some (set_errnum handle_rir CS_ERR_OK)) ∧
  cs_op_index (Some handle_rir) insn_rir 1 2 = Ok (2, Some (set_errnum handle_rir CS_ERR_OK)).
Proof.
  apply (op_queries_correct handle_rir insn_rir detail_rir 1 2);
    [reflexivity|split; [discriminate|reflexivity]|split; discriminate|reflexivity|discriminate].
Defined.

End CsQuery.
