(* ===== verification/CsMathExtras.v ===== *)
(** * Capstone: bit tricks and ULEB128
      ([capstone/MathExtras.h], [LEB128.h], [MCInstrDesc.c])

    The helpers the architecture back ends share, in both builds: with the
    compiler's built-in functions ([gnuc = true]) and with the portable code.
    Shifts by the width or more, the overflow of a signed result and division
    by zero are undefined. *)

From Stdlib Require Import ZArith Lia Znumtheory.
From S2P Require Import Prelude I386Builtins.

Module MathExtras.
Import I386Builtins.

Open Scope c_scope.

(** ** Built-in functions, undefined on zero where the compiler says so *)

Definition __builtin_clz (w v : Z) : outcome Z := if v =? 0 then Ub else Ok (w - 1 - Z.log2 v).
Fixpoint lowest_bit (n : nat) (v : Z) : Z :=
  match n with O => 0 | S n => if Z.odd v then 0 else 1 + lowest_bit n (v >> 1) end.
Definition __builtin_ctz (w v : Z) : outcome Z := if v =? 0 then Ub else Ok (lowest_bit (Z.to_nat w) v).
Definition __builtin_popcount (w v : Z) : Z := ones_count (Z.to_nat w) v.

(** ** [MathExtras.h] *)

Definition Hi_32 (Value : Z) : Z := u32 (Value >> 32).
Definition Lo_32 (Value : Z) : Z := u32 Value.

Definition isUIntN (N x : Z) : outcome bool :=
  if (1 <=? N) && (N <=? 64) then Ok (x =? (x & (u64 (Z.lnot 0) >> (64 - N)))) else Ub.

Definition isMask_32 (Value : Z) : bool := ctrue Value && ((u32 (Value + 1) & Value) =? 0).
Definition isMask_64 (Value : Z) : bool := ctrue Value && ((u64 (Value + 1) & Value) =? 0).
Definition isShiftedMask_32 (Value : Z) : bool := isMask_32 (u32 (Value - 1) .| Value).
Definition isShiftedMask_64 (Value : Z) : bool := isMask_64 (u64 (Value - 1) .| Value).
Definition isPowerOf2_32 (Value : Z) : bool := ctrue Value && negb (ctrue (Value & u32 (Value - 1))).

(** [for (Shift = width >> 1; Shift; Shift >>= 1) ...]. *)
Fixpoint bisect_loop (fuel : nat) (Shift Value Count : Z) : outcome Z :=
  if Shift =? 0 then Ok Count
  else match fuel with
  | O => NoFuel
  | S fuel =>
      let Tmp := Value >> Shift in
      if ctrue Tmp then bisect_loop fuel (Shift >> 1) Tmp Count
      else bisect_loop fuel (Shift >> 1) Value (Count .| Shift)
  end.

Definition CountLeadingZeros_32 (gnuc : bool) (Value : Z) : outcome Z :=
  if Value =? 0 then Ok 32
  else if gnuc then __builtin_clz 32 Value
  else bisect_loop 5 (32 >> 1) Value 0.

Definition CountLeadingOnes_32 (gnuc : bool) (Value : Z) : outcome Z := CountLeadingZeros_32 gnuc (u32 (Z.lnot Value)).

(** [long64]: [sizeof(long) == sizeof(int64_t)]. *)
Definition CountLeadingZeros_64 (gnuc long64 : bool) (Value : Z) : outcome Z :=
  if gnuc then if Value =? 0 then Ok 64 else __builtin_clz 64 Value
  else if long64 then if Value =? 0 then Ok 64 else bisect_loop 6 (64 >> 1) Value 0
  else
    let Hi := Hi_32 Value in
    if ctrue Hi then CountLeadingZeros_32 gnuc Hi
    else c ← CountLeadingZeros_32 gnuc (Lo_32 Value); Ok (c + 32).

Definition CountLeadingOnes_64 (gnuc long64 : bool) (Value : Z) : outcome Z :=
  CountLeadingZeros_64 gnuc long64 (u64 (Z.lnot Value)).

Definition Mod37BitPosition : list Z :=
  [32; 0; 1; 26; 2; 23; 27; 0; 3; 16; 24; 30; 28; 11; 0; 13;
   4; 7; 17; 0; 25; 22; 31; 15; 29; 10; 12; 6; 0; 21; 14; 9;
   5; 20; 8; 19; 18].

Definition CountTrailingZeros_32 (gnuc : bool) (Value : Z) : outcome Z :=
  if gnuc then if ctrue Value then __builtin_ctz 32 Value else Ok 32
  else aget Mod37BitPosition ((u32 (1 + Z.lnot Value) & Value) mod 37).

Definition CountTrailingOnes_32 (gnuc : bool) (Value : Z) : outcome Z := CountTrailingZeros_32 gnuc (u32 (Z.lnot Value)).

Definition Mod67Position : list Z :=
  [64; 0; 1; 39; 2; 15; 40; 23; 3; 12; 16; 59; 41; 19; 24; 54;
   4; 64; 13; 10; 17; 62; 60; 28; 42; 30; 20; 51; 25; 44; 55;
   47; 5; 32; 65; 38; 14; 22; 11; 58; 18; 53; 63; 9; 61; 27;
   29; 50; 43; 46; 31; 37; 21; 57; 52; 8; 26; 49; 45; 36; 56;
   7; 48; 35; 6; 34; 33; 0].

Definition CountTrailingZeros_64 (gnuc : bool) (Value : Z) : outcome Z :=
  if gnuc then if ctrue Value then __builtin_ctz 64 Value else Ok 64
  else aget Mod67Position ((u64 (1 + Z.lnot Value) & Value) mod 67).

Definition CountTrailingOnes_64 (gnuc : bool) (Value : Z) : outcome Z := CountTrailingZeros_64 gnuc (u64 (Z.lnot Value)).

Definition CountPopulation_32 (gnuc : bool) (Value : Z) : Z :=
  if gnuc then __builtin_popcount 32 Value
  else
    let v := u32 (Value - ((Value >> 1) & 0x55555555)) in
    let v := u32 ((v & 0x33333333) + ((v >> 2) & 0x33333333)) in
    u32 ((u32 (v + (v >> 4)) & 0xF0F0F0F) * 0x1010101) >> 24.

Definition CountPopulation_64 (gnuc : bool) (Value : Z) : Z :=
  if gnuc then __builtin_popcount 64 Value
  else
    let v := u64 (Value - ((Value >> 1) & 0x5555555555555555)) in
    let v := u64 ((v & 0x3333333333333333) + ((v >> 2) & 0x3333333333333333)) in
    let v := u64 (v + (v >> 4)) & 0x0F0F0F0F0F0F0F0F in
    u32 (u64 (v * 0x0101010101010101) >> 56).

Definition Log2_32 (gnuc : bool) (Value : Z) : outcome Z := c ← CountLeadingZeros_32 gnuc Value; Ok (u32 (31 - c)).
Definition Log2_64 (gnuc long64 : bool) (Value : Z) : outcome Z := c ← CountLeadingZeros_64 gnuc long64 Value; Ok (u32 (63 - c)).
Definition Log2_32_Ceil (gnuc : bool) (Value : Z) : outcome Z :=
  c ← CountLeadingZeros_32 gnuc (u32 (Value - 1)); Ok (u32 (32 - c)).
Definition Log2_64_Ceil (gnuc long64 : bool) (Value : Z) : outcome Z :=
  c ← CountLeadingZeros_64 gnuc long64 (u64 (Value - 1)); Ok (u32 (64 - c)).

Fixpoint gcd_loop (fuel : nat) (A B : Z) : outcome Z :=
  if ctrue B then match fuel with O => NoFuel | S fuel => gcd_loop fuel B (A mod B) end
  else Ok A.

(** Two steps halve the second number, so 129 are enough for 64 bits. *)
Definition GreatestCommonDivisor64 (A B : Z) : outcome Z := gcd_loop 129 A B.

Definition MinAlign (A B : Z) : Z := (A .| B) & u64 (1 + Z.lnot (A .| B)).

Definition NextPowerOf2 (A : Z) : Z :=
  let A := A .| (A >> 1) in
  let A := A .| (A >> 2) in
  let A := A .| (A >> 4) in
  let A := A .| (A >> 8) in
  let A := A .| (A >> 16) in
  let A := A .| (A >> 32) in
  u64 (A + 1).

Definition RoundUpToAlignment (Value Align : Z) : outcome Z :=
  if Align =? 0 then Ub else Ok (u64 (u64 (Value + Align - 1) / Align * Align)).

Definition OffsetToAlignment (Value Align : Z) : outcome Z :=
  r ← RoundUpToAlignment Value Align; Ok (u64 (r - Value)).

Definition abs64 (x : Z) : outcome Z := if x <? 0 then if x =? - 2 ^ 63 then Ub else Ok (- x) else Ok x.

Definition SignExtend32 (X B : Z) : outcome Z :=
  if (1 <=? B) && (B <=? 32) then Ok (s32 (u32 (X << (32 - B))) >> (32 - B)) else Ub.
Definition SignExtend64 (X B : Z) : outcome Z :=
  if (1 <=? B) && (B <=? 64) then Ok (s64 (u64 (X << (64 - B))) >> (64 - B)) else Ub.

(** [for (i = bits; --i; ) ...]: [n] is the value of [i] before the test. *)
Fixpoint clz_loop (n : nat) (x count : Z) : Z :=
  match n with
  | S (S _ as n) => if x =? 0 then count else clz_loop n (x >> 1) (count - 1)
  | _ => count
  end.
Definition countLeadingZeros (x : Z) : Z := if x <? 0 then 0 else clz_loop 32 x 32.

(** ** [LEB128.h] *)

(** [( *p & 0x7f) << Shift] is computed as an [int]. *)
Definition group_value (b Shift : Z) : outcome Z :=
  if (Shift <? 32) && (((b & 0x7f) << Shift) <? 2 ^ 31) then Ok ((b & 0x7f) << Shift) else Ub.

Fixpoint uleb_loop (p : list Z) (Value Shift n : Z) : outcome (Z * Z) :=
  match p with
  | [] => Ub
  | b :: p =>
      g ← group_value b Shift;
      let Value := u64 (Value + g) in
      if 128 <=? b then uleb_loop p Value (Shift + 7) (n + 1) else Ok (Value, n + 1)
  end.

(** The value and [*n]. *)
Definition decodeULEB128 (p : list Z) : outcome (Z * Z) := uleb_loop p 0 0 0.

(** ** [MCInstrDesc.c] *)

Definition MCOI_Predicate : Z := 1.
Definition MCOI_OptionalDef : Z := 2.
Definition MCOperandInfo_isPredicate (Flags : Z) : bool := ctrue (Flags & (1 << MCOI_Predicate)).
Definition MCOperandInfo_isOptionalDef (Flags : Z) : bool := ctrue (Flags & (1 << MCOI_OptionalDef)).

(** ** Examples *)

Example ex_clz : CountLeadingZeros_32 false 0x00F000FF = Ok 8.
Proof. reflexivity. Qed.
Example ex_ctz : CountTrailingZeros_32 false 0xFF00FF00 = Ok 8.
Proof. reflexivity. Qed.
Example ex_pop : CountPopulation_32 false 0xF000F000 = 8.
Proof. reflexivity. Qed.
Example ex_round : RoundUpToAlignment (2 ^ 64 - 1) 8 = Ok 0.
Proof. reflexivity. Qed.
Example ex_uleb : decodeULEB128 [0xE5; 0x8E; 0x26] = Ok (624485, 3).
Proof. reflexivity. Qed.

(** ** Leading zeros *)

Lemma bisect_loop_spec k v c :
  0 < v < 2 ^ 2 ^ Z.of_nat k → c mod 2 ^ Z.of_nat k = 0 →
  bisect_loop k (2 ^ Z.of_nat k >> 1) v c = Ok (c + (2 ^ Z.of_nat k - 1 - Z.log2 v)).
Proof.
  revert v c. induction k as [|k IH]; intros v c Hv Hc.
  { change (2 ^ 2 ^ Z.of_nat 0) with 2 in Hv. assert (v = 1) as -> by lia. cbn. f_equal. lia. }
  assert (2 ^ Z.of_nat (S k) = 2 * 2 ^ Z.of_nat k) as E by (rewrite Nat2Z.inj_succ, Z.pow_succ_r; lia).
  rewrite E in *. set (s := 2 ^ Z.of_nat k) in *. assert (0 < s) as Hs by (apply Z.pow_pos_nonneg; lia).
  assert (2 * s >> 1 = s) as -> by (rewrite Z.shiftr_div_pow2 by lia; change (2 ^ 1) with 2; zdiv).
  cbn [bisect_loop]. rewrite (proj2 (Z.eqb_neq s 0)) by lia.
  assert (c = (c / (2 * s)) * (2 * s)) as Ec by (rewrite Z.mul_comm; apply Z.div_exact; lia).
  set (q := c / (2 * s)) in *.
  destruct (Z.eq_dec (v >> s) 0) as [Hz|Hz].
  - assert (v < 2 ^ s) as Hlt.
    { rewrite Z.shiftr_div_pow2 in Hz by lia. apply Z.div_small_iff in Hz; [lia|]. apply Z.pow_nonzero; lia. }
    rewrite (proj2 (ctrue_false _)) by done.
    assert (c .| s = (2 * q + 1) * s) as ->.
    { rewrite Ec. replace (q * (2 * s)) with (q * 2 ^ (Z.of_nat (S k))) by lia.
      rewrite lor_shift_add; [lia|lia|]. unfold in_u. lia. }
    rewrite IH by (try apply Z.mod_mul; lia). f_equal. lia.
  - rewrite (proj2 (ctrue_true _)) by done.
    assert (0 < v >> s) as Hpos by (pose proof (proj2 (Z.shiftr_nonneg v s)); lia).
    rewrite IH; [| |].
    + rewrite Z.log2_shiftr by lia. f_equal.
      assert (s ≤ Z.log2 v); [|lia]. rewrite <- Z.log2_le_pow2 by lia.
      rewrite Z.shiftr_div_pow2 in Hpos by lia. destruct (Z.lt_ge_cases v (2 ^ s)); [|done].
      rewrite Z.div_small in Hpos by lia. lia.
    + split; [done|]. rewrite Z.shiftr_div_pow2 by lia. apply Z.div_lt_upper_bound; [apply Z.pow_pos_nonneg; lia|].
      rewrite <- Z.pow_add_r by lia. replace (s + s) with (2 * s) by lia. lia.
    + rewrite Ec. replace (q * (2 * s)) with (2 * q * s) by lia. apply Z.mod_mul. lia.
Qed.

Lemma CountLeadingZeros_32_spec gnuc v :
  in_u 32 v → CountLeadingZeros_32 gnuc v = Ok (if v =? 0 then 32 else 31 - Z.log2 v).
Proof.
  intros Hv. unfold CountLeadingZeros_32, __builtin_clz. destruct (Z.eqb_spec v 0) as [->|Hn]; [done|].
  unfold in_u in Hv. destruct gnuc; [f_equal; lia|].
  change (32 >> 1) with (2 ^ Z.of_nat 5 >> 1). rewrite bisect_loop_spec; [f_equal; cbn; lia|cbn; lia|done].
Qed.

Lemma CountLeadingZeros_64_spec gnuc long64 v :
  in_u 64 v → CountLeadingZeros_64 gnuc long64 v = Ok (if v =? 0 then 64 else 63 - Z.log2 v).
Proof.
  intros Hv. unfold CountLeadingZeros_64, __builtin_clz, Hi_32, Lo_32. unfold in_u in Hv.
  destruct gnuc; [destruct (v =? 0); [done|]; f_equal; lia|]. destruct long64.
  - destruct (Z.eqb_spec v 0) as [->|Hn]; [done|].
    change (64 >> 1) with (2 ^ Z.of_nat 6 >> 1). rewrite bisect_loop_spec; [f_equal; cbn; lia|cbn; lia|done].
  - rewrite (wrap_small 32 (v >> 32)) by (unfold in_u; rewrite Z.shiftr_div_pow2 by lia; zdiv).
    destruct (Z.eq_dec (v >> 32) 0) as [Hz|Hz].
    + assert (v < 2 ^ 32) by (rewrite Z.shiftr_div_pow2 in Hz by lia; zdiv).
      rewrite (proj2 (ctrue_false _)), wrap_small by (done || (unfold in_u; lia)).
      rewrite CountLeadingZeros_32_spec by (unfold in_u; lia). cbn [mbind outcome_bind]. f_equal.
      destruct (v =? 0); lia.
    + rewrite (proj2 (ctrue_true _)) by done. assert (0 < v >> 32 < 2 ^ 32).
      { rewrite Z.shiftr_div_pow2 in * by lia. zdiv. }
      rewrite CountLeadingZeros_32_spec by (unfold in_u; lia). rewrite (proj2 (Z.eqb_neq (v >> 32) 0)) by lia.
      destruct (Z.eqb_spec v 0) as [->|]; [done|]. rewrite Z.log2_shiftr by lia. f_equal.
      assert (32 ≤ Z.log2 v); [|lia]. rewrite <- Z.log2_le_pow2 by lia. rewrite Z.shiftr_div_pow2 in * by lia. zdiv.
Qed.

(** ** Trailing zeros *)

(** The lowest one bit of a word. *)
Lemma isolate w t q : 0 ≤ t → in_u w (2 ^ t * (2 * q + 1)) → 0 ≤ w →
  wrap w (1 + Z.lnot (2 ^ t * (2 * q + 1))) & (2 ^ t * (2 * q + 1)) = 2 ^ t.
Proof.
  intros Ht Hv Hw. rewrite land_wrap by done. unfold Z.lnot.
  replace (1 + Z.pred (- (2 ^ t * (2 * q + 1)))) with ((2 * Z.lnot q + 1) * 2 ^ t) by (unfold Z.lnot; nia).
  replace (2 ^ t * (2 * q + 1)) with ((2 * q + 1) * 2 ^ t) by lia.
  rewrite <- !Z.shiftl_mul_pow2, <- Z.shiftl_land by done.
  assert (Z.land (2 * Z.lnot q + 1) (2 * q + 1) = 1) as ->; [|by rewrite Z.shiftl_mul_pow2, Z.mul_1_l].
  apply Z.bits_inj'; intros i Hi. rewrite Z.land_spec. destruct (Z.eq_dec i 0) as [->|].
  - by rewrite !Z.testbit_odd_0.
  - replace i with (Z.succ (i - 1)) by lia. rewrite !Z.testbit_odd_succ, Z.lnot_spec by lia.
    replace (Z.testbit 1 (Z.succ (i - 1))) with false; [by destruct (Z.testbit q (i - 1))|].
    symmetry. replace 1 with (2 * 0 + 1) by lia. rewrite Z.testbit_odd_succ by lia. apply Z.bits_0.
Qed.

Lemma trailing_split v t : trailing_zeros v t → ∃ q, v = 2 ^ t * (2 * q + 1).
Proof.
  intros (Ht & Hm & Ho). rewrite Zodd_bool_iff, Zodd_ex_iff in Ho. destruct Ho as [q Hq]. exists q.
  rewrite <- Hq. apply Z.div_exact; [|done]. apply Z.pow_nonzero; lia.
Qed.

Lemma trailing_bound w v t : 0 < v < 2 ^ w → trailing_zeros v t → 0 ≤ t < w.
Proof.
  intros Hv Ht. split; [apply Ht|]. destruct (trailing_split v t Ht) as [q ->].
  apply (Z.pow_lt_mono_r_iff 2); [lia| |].
  - destruct (Z.neg_nonneg_cases w); [|done]. rewrite (Z.pow_neg_r 2 w) in Hv by done. lia.
  - assert (0 < 2 ^ t) as Hp by (apply Z.pow_pos_nonneg; [lia|apply Ht]). clear Ht. set (x := 2 ^ t) in *.
    assert (0 < 2 * q + 1) by (apply (Z.mul_pos_cancel_l x); lia). nia.
Qed.

Lemma lowest_bit_spec n v t : trailing_zeros v t → t < Z.of_nat n → lowest_bit n v = t.
Proof.
  revert v t. induction n as [|n IH]; intros v t Ht Hn; [destruct Ht; lia|]. cbn [lowest_bit].
  destruct (trailing_split v t Ht) as [q Ev]. destruct Ht as (Ht & _).
  destruct (Z.eq_dec t 0) as [->|Hne].
  - rewrite Ev, Z.mul_1_l. by rewrite Z.add_1_r, Z.odd_succ, Z.even_mul.
  - assert (v = 2 * (2 ^ (t - 1) * (2 * q + 1))) as Ev'.
    { rewrite Ev, Z.mul_assoc, <- Z.pow_succ_r by lia. do 3 f_equal. lia. }
    assert (Z.odd v = false) as -> by (rewrite Ev', Z.odd_mul; done).
    rewrite (IH _ (t - 1)); [lia| |lia]. rewrite Z.shiftr_div_pow2, Ev' by lia. change (2 ^ 1) with 2.
    rewrite Z.mul_comm, Z.div_mul by lia. pose proof (Z.pow_pos_nonneg 2 (t - 1)).
    unfold trailing_zeros. split_conj; [lia| |].
    + rewrite Z.mul_comm, Z.mod_mul; lia.
    + rewrite Z.mul_comm, Z.div_mul, Z.add_1_r, Z.odd_succ, Z.even_mul by lia. done.
Qed.

(** The tables hold the position of each power of two. *)
Lemma table_position (l : list Z) (m : Z) (n : nat) t :
  forallb (λ k, bool_decide (aget l (2 ^ Z.of_nat k mod m) = Ok (Z.of_nat k))) (seq 0 n) = true →
  0 ≤ t < Z.of_nat n → aget l (2 ^ t mod m) = Ok t.
Proof.
  intros H Ht. rewrite forallb_forall in H. specialize (H (Z.to_nat t)). rewrite Z2Nat.id in H by lia.
  eapply bool_decide_eq_true_1, H. apply in_seq. lia.
Qed.

Lemma CountTrailingZeros_32_spec gnuc v t : 0 < v < 2 ^ 32 → trailing_zeros v t → CountTrailingZeros_32 gnuc v = Ok t.
Proof.
  intros Hv Ht. pose proof (trailing_bound 32 v t Hv Ht) as Hb. unfold CountTrailingZeros_32, __builtin_ctz. destruct gnuc.
  - rewrite (proj2 (ctrue_true v)), (proj2 (Z.eqb_neq v 0)) by lia. f_equal. apply lowest_bit_spec; [done|lia].
  - destruct (trailing_split v t Ht) as [q ->]. rewrite isolate by (unfold in_u; lia).
    apply (table_position _ _ 32); [vm_compute; reflexivity|lia].
Qed.

Lemma CountTrailingZeros_64_spec gnuc v t : 0 < v < 2 ^ 64 → trailing_zeros v t → CountTrailingZeros_64 gnuc v = Ok t.
Proof.
  intros Hv Ht. pose proof (trailing_bound 64 v t Hv Ht) as Hb. unfold CountTrailingZeros_64, __builtin_ctz. destruct gnuc.
  - rewrite (proj2 (ctrue_true v)), (proj2 (Z.eqb_neq v 0)) by lia. f_equal. apply lowest_bit_spec; [done|lia].
  - destruct (trailing_split v t Ht) as [q ->]. rewrite isolate by (unfold in_u; lia).
    apply (table_position _ _ 64); [vm_compute; reflexivity|lia].
Qed.

(** ** Population *)

Lemma CountPopulation_32_spec gnuc v : in_u 32 v → CountPopulation_32 gnuc v = ones_count 32 v.
Proof.
  intros Hv. unfold CountPopulation_32. destruct gnuc; [done|]. set (l := le_bytes 4 v).
  assert (le_val l = v) as E by (by apply le_val_bytes_small).
  assert (bytes_ok l) as Hl by apply le_bytes_range.
  pose proof (pop_stages 32 l eq_refl Hl) as HS. cbn zeta in HS. rewrite E in HS.
  change (rep l 0x55) with 0x55555555 in HS. change (rep l 0x33) with 0x33333333 in HS.
  change (rep l 0x0F) with 0x0F0F0F0F in HS. unfold pop1, pop2 in HS. cbv zeta.
  rewrite (Z.add_comm (_ & 0x33333333)), HS.
  change 32%nat with (8 * length l)%nat. rewrite <- E, (ones_count_bytes l Hl). pose proof (pop_byte_bounds l Hl) as HB.
  destruct (pop_byte <$> l) as [|c0 [|c1 [|c2 [|c3 [|]]]]] eqn:Ec; try discriminate.
  rewrite !list.Forall_cons in HB. clear HS Ec E. cbn [le_val foldr].
  set (low := c0 + 2 ^ 8 * (c0 + c1) + 2 ^ 16 * (c0 + c1 + c2)).
  rewrite (wrap_eq 32 _ (2 ^ 24 * (c0 + c1 + c2 + c3) + low)
    (c1 + c2 + c3 + 256 * (c2 + c3) + 65536 * c3)) by (unfold low; lia).
  rewrite wrap_small, Z.shiftr_div_pow2 by (unfold in_u, low; lia).
  rewrite (div_split _ (2 ^ 24) (c0 + c1 + c2 + c3) low); unfold low; lia.
Qed.

Lemma CountPopulation_64_spec gnuc v : in_u 64 v → CountPopulation_64 gnuc v = ones_count 64 v.
Proof.
  intros Hv. unfold CountPopulation_64. destruct gnuc; [done|]. set (l := le_bytes 8 v).
  assert (le_val l = v) as E by (by apply le_val_bytes_small).
  assert (bytes_ok l) as Hl by apply le_bytes_range.
  pose proof (pop_stages 64 l eq_refl Hl) as HS. cbn zeta in HS. rewrite E in HS.
  change (rep l 0x55) with 0x5555555555555555 in HS. change (rep l 0x33) with 0x3333333333333333 in HS.
  change (rep l 0x0F) with 0x0F0F0F0F0F0F0F0F in HS. unfold pop1, pop2 in HS. cbv zeta.
  rewrite (Z.add_comm (_ & 0x3333333333333333)), HS.
  change 64%nat with (8 * length l)%nat. rewrite <- E, (ones_count_bytes l Hl). pose proof (pop_byte_bounds l Hl) as HB.
  destruct (pop_byte <$> l) as [|c0 [|c1 [|c2 [|c3 [|c4 [|c5 [|c6 [|c7 [|]]]]]]]]] eqn:Ec; try discriminate.
  rewrite !list.Forall_cons in HB. clear HS Ec E. cbn [le_val foldr].
  set (low := c0 + 2 ^ 8 * (c0 + c1) + 2 ^ 16 * (c0 + c1 + c2) + 2 ^ 24 * (c0 + c1 + c2 + c3) +
    2 ^ 32 * (c0 + c1 + c2 + c3 + c4) + 2 ^ 40 * (c0 + c1 + c2 + c3 + c4 + c5) +
    2 ^ 48 * (c0 + c1 + c2 + c3 + c4 + c5 + c6)).
  rewrite (wrap_eq 64 _ (2 ^ 56 * (c0 + c1 + c2 + c3 + c4 + c5 + c6 + c7) + low)
    (c1 + c2 + c3 + c4 + c5 + c6 + c7 + 2 ^ 8 * (c2 + c3 + c4 + c5 + c6 + c7) + 2 ^ 16 * (c3 + c4 + c5 + c6 + c7) +
     2 ^ 24 * (c4 + c5 + c6 + c7) + 2 ^ 32 * (c5 + c6 + c7) + 2 ^ 40 * (c6 + c7) + 2 ^ 48 * c7)) by (unfold low; lia).
  rewrite (wrap_small 64), Z.shiftr_div_pow2 by (unfold in_u, low; lia).
  rewrite (div_split _ (2 ^ 56) (c0 + c1 + c2 + c3 + c4 + c5 + c6 + c7) low) by (unfold low; lia).
  rewrite wrap_small by (unfold in_u; lia). lia.
Qed.

(** Bit counting in both builds and with either size of [long]: the
    bisection, the perfect-hash tables and the parallel sums count leading
    zeros, trailing zeros and ones of every word, 0 included, as the
    compiler's built-in functions do. *)
Theorem bit_tricks_correct v w t :
  in_u 32 v → 0 < w < 2 ^ 64 → trailing_zeros w t →
  (∀ gnuc, CountLeadingZeros_32 gnuc v = Ok (if v =? 0 then 32 else 31 - Z.log2 v)) ∧
  (∀ gnuc long64, CountLeadingZeros_64 gnuc long64 w = Ok (63 - Z.log2 w)) ∧
  (∀ gnuc, CountTrailingZeros_64 gnuc w = Ok t ∧ (w < 2 ^ 32 → CountTrailingZeros_32 gnuc w = Ok t)) ∧
  (∀ gnuc, CountPopulation_32 gnuc v = ones_count 32 v ∧ CountPopulation_64 gnuc w = ones_count 64 w) ∧
  (∀ gnuc long64, CountLeadingZeros_64 gnuc long64 0 = Ok 64 ∧ CountTrailingZeros_32 gnuc 0 = Ok 32 ∧
     CountTrailingZeros_64 gnuc 0 = Ok 64).
Proof.
  intros Hv Hw Ht. split_conj.
  - intros gnuc. by apply CountLeadingZeros_32_spec.
  - intros gnuc long64. rewrite CountLeadingZeros_64_spec by (unfold in_u; lia).
    by rewrite (proj2 (Z.eqb_neq w 0)) by lia.
  - intros gnuc. split; [by apply CountTrailingZeros_64_spec|]. intros. apply CountTrailingZeros_32_spec; (done || lia).
  - intros gnuc. split; [by apply CountPopulation_32_spec|]. apply CountPopulation_64_spec. unfold in_u; lia.
  - intros [] []; done.
Qed.

Lemma bit_tricks_correct_witness :
  CountLeadingZeros_32 false 0x00F000FF = Ok (31 - Z.log2 0x00F000FF) ∧ CountTrailingZeros_64 false (2 ^ 40) = Ok 40.
Proof.
  destruct (bit_tricks_correct 0x00F000FF (2 ^ 40) 40) as (H1 & _ & H2 & _);
    [unfold in_u; lia|lia|unfold trailing_zeros; split_conj; (lia || reflexivity)|].
  split; [exact (H1 false)|exact (proj1 (H2 false))].
Defined.

(** ** Arithmetic *)

Lemma gcd_loop_spec k fuel A B :
  0 ≤ A → 0 ≤ B < 2 ^ Z.of_nat k → (2 * k ≤ fuel)%nat → gcd_loop fuel A B = Ok (Z.gcd A B).
Proof.
  revert fuel A B. induction k as [|k IH]; intros fuel A B HA HB Hf.
  { change (2 ^ Z.of_nat 0) with 1 in HB. assert (B = 0) as -> by lia. rewrite Z.gcd_0_r, Z.abs_eq by done. by destruct fuel. }
  rewrite Nat2Z.inj_succ, Z.pow_succ_r in HB by lia.
  assert (∀ f X, 0 ≤ X → gcd_loop f X 0 = Ok (Z.gcd X 0)) as H0.
  { intros f X HX. rewrite Z.gcd_0_r, Z.abs_eq by done. by destruct f. }
  destruct (Z.eq_dec B 0) as [->|HBn]; [by apply H0|].
  destruct fuel as [|[|fuel]]; [lia|lia|]. cbn [gcd_loop]. rewrite (proj2 (ctrue_true B)) by done.
  assert (∀ X Y, Y ≠ 0 → Z.gcd X Y = Z.gcd Y (X mod Y)) as HG.
  { intros X Y HY. rewrite (Z.gcd_comm Y), Z.gcd_mod by done. apply Z.gcd_comm. }
  rewrite HG by done. pose proof (Z.mod_pos_bound A B). set (R := A mod B) in *.
  destruct (Z.eq_dec R 0) as [->|HR]; [apply (H0 (S fuel)); lia|].
  rewrite (proj2 (ctrue_true R)), HG by done. apply IH; [lia| |lia].
  pose proof (Z.mod_pos_bound B R). split; [lia|]. destruct (Z.le_gt_cases R (2 ^ Z.of_nat k)); [lia|].
  replace (B mod R) with (B - R); [lia|]. apply Z.mod_unique with 1; lia.
Qed.

(** Bits [L], [L-1], ... down to [L-s+1] are set, and none above [L]. *)
Definition smeared (L s x : Z) : Prop :=
  (∀ i, L < i → Z.testbit x i = false) ∧ (∀ i, 0 ≤ i → L - s < i ≤ L → Z.testbit x i = true).

Lemma smear_step L s s' x : s' = 2 * s → 0 ≤ s → 0 ≤ L → smeared L s x → smeared L s' (x .| (x >> s)).
Proof.
  intros -> Hs HL [Hz Ho]. split; intros i Hi.
  - rewrite Z.lor_spec, Z.shiftr_spec, !Hz by lia. done.
  - intros Hr. rewrite Z.lor_spec, Z.shiftr_spec by lia.
    destruct (Z.le_gt_cases i (L - s)); [rewrite (Ho (i + s)) by lia; apply orb_true_r|by rewrite Ho by lia].
Qed.

Lemma smeared_log2 A : 0 < A → smeared (Z.log2 A) 1 A.
Proof.
  intros HA. split; intros i Hi; [by apply Z.bits_above_log2; lia|].
  intros Hr. replace i with (Z.log2 A) by lia. by apply Z.bit_log2.
Qed.

Lemma smeared_ones L s x : 0 ≤ L < s → smeared L s x → x = Z.ones (L + 1).
Proof.
  intros HL [Hz Ho]. apply Z.bits_inj'. intros i Hi. destruct (Z.le_gt_cases i L).
  - rewrite Ho, Z.ones_spec_low by lia. done.
  - rewrite Hz, Z.ones_spec_high by lia. done.
Qed.

Lemma NextPowerOf2_spec A : 0 < A < 2 ^ 64 → NextPowerOf2 A = u64 (2 ^ (Z.log2 A + 1)).
Proof.
  intros HA. assert (0 ≤ Z.log2 A < 64) as HL.
  { split; [apply Z.log2_nonneg|]. apply Z.log2_lt_pow2; lia. }
  unfold NextPowerOf2. cbv zeta.
  match goal with |- u64 (?x + 1) = _ => assert (smeared (Z.log2 A) 64 x) as Hx end.
  { apply (smear_step _ 32), (smear_step _ 16), (smear_step _ 8), (smear_step _ 4), (smear_step _ 2), (smear_step _ 1); try lia.
    apply smeared_log2; lia. }
  apply smeared_ones in Hx; [|lia]. rewrite Hx, Z.ones_equiv. f_equal. lia.
Qed.

Lemma SignExtend_spec w X B : 0 < B ≤ w → swrap w (wrap w (X << (w - B))) >> (w - B) = swrap B X.
Proof.
  intros HB. rewrite swrap_wrap by lia. rewrite Z.shiftl_mul_pow2, Z.shiftr_div_pow2 by lia.
  set (p := 2 ^ (w - B)). assert (0 < p) as Hp by (apply Z.pow_pos_nonneg; lia).
  assert (2 ^ w = 2 ^ B * p) as Ew by (unfold p; rewrite <- Z.pow_add_r by lia; f_equal; lia).
  assert (2 ^ (w - 1) = 2 ^ (B - 1) * p) as Ew1 by (unfold p; rewrite <- Z.pow_add_r by lia; f_equal; lia).
  unfold swrap. rewrite Ew, Ew1, <- Z.mul_add_distr_r, Z.mul_mod_distr_r by (lia || (apply Z.pow_nonzero; lia)).
  rewrite <- Z.mul_sub_distr_r, Z.div_mul by lia. done.
Qed.

(** The remaining helpers: the greatest common divisor is found within the
    loop bound; the next power of two is exact and 0 on overflow; sign
    extension keeps the low bits' two's complement value; rounding up gives the
    least multiple that is large enough, while that fits. *)
Theorem arithmetic_correct A B X n Value Align :
  in_u 64 A → in_u 64 B → 0 < n ≤ 32 → 0 < Align → 0 ≤ Value → Value + Align ≤ 2 ^ 64 →
  GreatestCommonDivisor64 A B = Ok (Z.gcd A B) ∧
  (A ≠ 0 → NextPowerOf2 A = if Z.log2 A =? 63 then 0 else 2 ^ (Z.log2 A + 1)) ∧
  SignExtend32 X n = Ok (swrap n X) ∧ SignExtend64 X n = Ok (swrap n X) ∧
  ∃ r, RoundUpToAlignment Value Align = Ok r ∧ OffsetToAlignment Value Align = Ok (r - Value) ∧
    r mod Align = 0 ∧ Value ≤ r < Value + Align.
Proof.
  unfold in_u. intros HA HB Hn Hal Hval Hsum. split_conj.
  - apply (gcd_loop_spec 64); (lia || (cbn; lia)).
  - intros HA0. rewrite NextPowerOf2_spec by lia. assert (0 ≤ Z.log2 A < 64) as HL.
    { split; [apply Z.log2_nonneg|]. apply Z.log2_lt_pow2; lia. }
    destruct (Z.eqb_spec (Z.log2 A) 63) as [->|]; [reflexivity|]. apply wrap_small. unfold in_u.
    split; [apply Z.pow_nonneg; lia|]. apply Z.pow_lt_mono_r; lia.
  - unfold SignExtend32. rewrite (proj2 (Z.leb_le 1 n)), (proj2 (Z.leb_le n 32)) by lia. cbn [andb]. by rewrite SignExtend_spec by lia.
  - unfold SignExtend64. rewrite (proj2 (Z.leb_le 1 n)), (proj2 (Z.leb_le n 64)) by lia. cbn [andb]. by rewrite SignExtend_spec by lia.
  - set (k := (Value + Align - 1) / Align).
    assert (Value ≤ k * Align < Value + Align) as Hk.
    { unfold k. pose proof (Z.div_mod (Value + Align - 1) Align). pose proof (Z.mod_pos_bound (Value + Align - 1) Align). nia. }
    assert (RoundUpToAlignment Value Align = Ok (k * Align)) as Hr.
    { unfold RoundUpToAlignment. rewrite (proj2 (Z.eqb_neq Align 0)) by lia.
      rewrite (wrap_small 64 (Value + Align - 1)) by (unfold in_u; lia). fold k.
      by rewrite wrap_small by (unfold in_u; lia). }
    exists (k * Align). unfold OffsetToAlignment. rewrite Hr. cbn [mbind outcome_bind].
    rewrite wrap_small by (unfold in_u; lia). split_conj; try done; try lia. apply Z.mod_mul. lia.
Qed.

(** ** ULEB128 *)

(** The encoding: groups of seven bits, least significant first, all but the
    last with the top bit set. *)
Fixpoint uleb128 (fuel : nat) (v : Z) : list Z :=
  match fuel with
  | O => []
  | S fuel => if v <? 128 then [v] else (v mod 128 + 128) :: uleb128 fuel (v / 128)
  end.

Lemma group_value_spec b Shift : 0 ≤ Shift →
  group_value b Shift = if (Shift <? 32) && (b mod 128 * 2 ^ Shift <? 2 ^ 31) then Ok (b mod 128 * 2 ^ Shift) else Ub.
Proof.
  intros Hs. unfold group_value. change 0x7f with (Z.ones 7). rewrite Z.land_ones by lia.
  by rewrite Z.shiftl_mul_pow2 by done.
Qed.

(** A group that fits an [int] fits on top of the groups below it. *)
Lemma groups_fit acc g k : 0 ≤ k → 0 ≤ acc < 2 ^ k → acc < 2 ^ 31 → 0 ≤ g → g * 2 ^ k < 2 ^ 31 → acc + g * 2 ^ k < 2 ^ 31.
Proof.
  intros Hk Hacc Ha Hg Hlt. destruct (Z.eq_dec g 0) as [->|]; [lia|].
  assert (k < 31) as Hk31. { apply (Z.pow_lt_mono_r_iff 2); [lia|lia|nia]. }
  assert (2 ^ 31 = 2 ^ (31 - k) * 2 ^ k) as E by (rewrite <- Z.pow_add_r by lia; f_equal; lia).
  rewrite E in *. assert (g < 2 ^ (31 - k)) by nia. nia.
Qed.

Lemma uleb_loop_spec fuel v acc Shift n rest :
  0 ≤ Shift → 0 ≤ acc < 2 ^ Shift → acc < 2 ^ 31 → 0 ≤ v < 128 ^ Z.of_nat fuel → 0 < v ∨ Shift = 0 → (0 < fuel)%nat →
  uleb_loop (uleb128 fuel v ++ rest) acc Shift n =
  if acc + v * 2 ^ Shift <? 2 ^ 31 then Ok (acc + v * 2 ^ Shift, n + zlen (uleb128 fuel v)) else Ub.
Proof.
  revert v acc Shift n. induction fuel as [|fuel IH]; intros v acc Shift n Hs Hacc Ha Hv Hz Hf; [lia|]. clear Hf.
  assert (0 < 2 ^ Shift) as Hp by (apply Z.pow_pos_nonneg; lia).
  assert (32 ≤ Shift → 2 ^ 32 ≤ 2 ^ Shift) as H32 by (intros; apply Z.pow_le_mono_r; lia).
  assert (2 ^ (Shift + 7) = 2 ^ Shift * 128) as E7 by (rewrite Z.pow_add_r by lia; done).
  rewrite Nat2Z.inj_succ, Z.pow_succ_r in Hv by lia. cbn [uleb128].
  destruct (Z.ltb_spec v 128) as [Hsm|Hbig]; cbn [app uleb_loop].
  - rewrite group_value_spec, (Z.mod_small v 128), (proj2 (Z.leb_gt 128 v)) by lia. cbn [mbind outcome_bind].
    destruct (Z.ltb_spec (v * 2 ^ Shift) (2 ^ 31)) as [Hlt|Hge]; rewrite ?andb_false_r, ?andb_true_r.
    + pose proof (groups_fit acc v Shift). rewrite (proj2 (Z.ltb_lt (acc + v * 2 ^ Shift) (2 ^ 31))) by lia.
      rewrite (proj2 (Z.ltb_lt Shift 32)) by (destruct Hz as [Hz| ->]; [destruct (Z.lt_ge_cases Shift 32); [done|nia]|lia]).
      cbn [mbind outcome_bind]. rewrite wrap_small by (unfold in_u; nia). done.
    + by rewrite (proj2 (Z.ltb_ge (acc + v * 2 ^ Shift) (2 ^ 31))) by lia.
  - rewrite group_value_spec by lia.
    replace ((v mod 128 + 128) mod 128) with (v mod 128) by zdiv.
    rewrite (proj2 (Z.leb_le 128 (v mod 128 + 128))) by zdiv.
    assert (v = v mod 128 + 128 * (v / 128)) as Ev by zdiv. assert (0 ≤ v mod 128 < 128) as Hg by zdiv.
    assert (1 ≤ v / 128) as Hq by zdiv. assert (v / 128 < 128 ^ Z.of_nat fuel) as Hqf by zdiv.
    set (g := v mod 128) in *. set (q := v / 128) in *.
    destruct (Z.ltb_spec Shift 32) as [Hs32|Hs32]; cbn [andb]; cycle 1.
    { cbn [mbind outcome_bind]. rewrite (proj2 (Z.ltb_ge _ _)) by nia. done. }
    destruct (Z.ltb_spec (g * 2 ^ Shift) (2 ^ 31)) as [Hlt|Hge]; cycle 1.
    { cbn [mbind outcome_bind]. rewrite (proj2 (Z.ltb_ge _ _)) by nia. done. }
    cbn [mbind outcome_bind]. pose proof (groups_fit acc g Shift). rewrite wrap_small by (unfold in_u; nia).
    rewrite IH; [|lia|nia|lia|lia|lia|destruct fuel; [cbn in Hqf; lia|lia]].
    rewrite E7. replace (acc + g * 2 ^ Shift + q * (2 ^ Shift * 128)) with (acc + v * 2 ^ Shift) by nia.
    destruct (_ <? _); [|done]. do 2 f_equal. unfold zlen. cbn [length]. lia.
Qed.

(** C38: decoding an encoded number gives the number and its length back for
    all numbers below [2^31]; for every larger 64-bit number the shift of an
    [int] is undefined, although the result is 64 bits wide. *)
Theorem decodeULEB128_roundtrip v rest :
  in_u 64 v →
  decodeULEB128 (uleb128 10 v ++ rest) = if v <? 2 ^ 31 then Ok (v, zlen (uleb128 10 v)) else Ub.
Proof.
  unfold in_u, decodeULEB128. intros Hv. rewrite uleb_loop_spec; try (lia || (cbn; lia)).
  rewrite Z.pow_0_r, Z.mul_1_r, !Z.add_0_l. done.
Qed.

Lemma decodeULEB128_roundtrip_witness :
  decodeULEB128 (uleb128 10 624485 ++ [7]) = Ok (624485, 3) ∧ decodeULEB128 (uleb128 10 (2 ^ 31) ++ []) = Ub.
Proof.
  split; [exact (decodeULEB128_roundtrip 624485 [7] ltac:(unfold in_u; lia))
         |exact (decodeULEB128_roundtrip (2 ^ 31) [] ltac:(unfold in_u; lia))].
Defined.
End MathExtras.
