(* ===== verification/LiluMachine.v ===== *)
(** * Lilu: the machine the patcher runs on

    Kernel memory, the processor state that [MachInfo::setKernelWriting]
    ([Lilu/Sources/kern_mach.cpp]) toggles, the state of the [KernelPatcher]
    object and the monad in which its methods are written.  A store to a
    read-only page faults unless write protection is off, a lock taken twice
    by the same thread deadlocks and [PANIC] is an outcome of its own, so
    that a theorem that a method returns says that none of these happens. *)

From Stdlib Require Import ZArith Lia.
From stdpp Require Import gmap strings.
From S2P Require Import Prelude.

Module Machine.

Open Scope c_scope.

(** ** Kernel memory *)

(** Mapped bytes by address. *)
Abbreviation mem := (gmap Z Z).

(** The bytes at [a], [a + 1], ...; nothing if one of them is not mapped. *)
Fixpoint rd (m : mem) (a : Z) (n : nat) : option (list Z) :=
  match n with
  | O => Some []
  | S n => b ← m !! a; l ← rd m (a + 1) n; Some (b :: l)
  end.

(** The memory with [l] written from [a]. *)
Fixpoint wr (m : mem) (a : Z) (l : list Z) : mem :=
  match l with
  | [] => m
  | b :: l => wr (<[a := b]> m) (a + 1) l
  end.

(** The mapped bytes from [a] on, [n] at most. *)
Fixpoint window (m : mem) (a : Z) (n : nat) : list Z :=
  match n with
  | O => []
  | S n => match m !! a with Some b => b :: window m (a + 1) n | None => [] end
  end.

(** ** State *)

(** [CR0.WP], [EFLAGS.IF], the two [static] flags of [setWPBit] and
    [setKernelWriting], and whether [kernelWriteLock] is held. *)
Record cpu := mkCpu {
  cr0_wp : bool;
  eflags_if : bool;
  writeProtectionDisabled : bool;
  interruptsDisabled : bool;
  lock_held : bool
}.

(** [KernelPatcher::Error]. *)
Inductive Error :=
| NoError | NoKinfoFound | NoSymbolFound | KernInitFailure | KernRunningInitFailure
| KextListeningFailure | DisasmFailure | MemoryIssue | MemoryProtection | PointerRange
| AlreadyDone | LockError | Unsupported | InvalidSymbolFound.

#[global] Instance Error_eq_dec : EqDecision Error.
Proof. solve_decision. Defined.

(** [Patch::P]: the width in bytes stands for the [Variant] tag. *)
Record patch := mkPatch {
  p_width : nat;
  p_address : Z;
  p_original : Z;
  p_replaced : Z
}.

(** What the patcher uses of a [MachInfo]: its symbol table, where the image
    runs and the free bytes it may place jump targets in. *)
Record kinfo := mkKinfo {
  objectId : string;
  k_symbols : string → Z;
  running_mh : Z;
  memory_size : Z;
  address_slots : Z;
  address_slots_end : Z
}.

(** The [KernelPatcher] object with the machine under it.  [heap] holds the
    [Patch::All] objects by their address, [kpatches] the addresses to
    restore; [ticks] counts the requests made of the environment. *)
Record kst := mkKst {
  kmem : mem;
  kcpu : cpu;
  ticks : nat;
  heap : gmap Z patch;
  heap_next : Z;
  kinfos : list kinfo;
  kpatches : list Z;
  code : Error;
  tempExecutableMemoryOff : Z
}.

(** The environment: which pages are read-only, which writes of [CR0] take
    effect, which allocations succeed, where [tempExecutableMemory] lies and
    the running kernel's version. *)
Record env := mkEnv {
  e_ro : Z → bool;
  e_cr0 : nat → bool;
  e_avail : nat → bool;
  tempExecutableMemory : Z;
  e_kernel_version : Z
}.

Definition set_mem (s : kst) (m : mem) : kst :=
  mkKst m (kcpu s) (ticks s) (heap s) (heap_next s) (kinfos s) (kpatches s) (code s) (tempExecutableMemoryOff s).
Definition set_cpu (s : kst) (c : cpu) : kst :=
  mkKst (kmem s) c (ticks s) (heap s) (heap_next s) (kinfos s) (kpatches s) (code s) (tempExecutableMemoryOff s).
Definition tick (s : kst) : kst :=
  mkKst (kmem s) (kcpu s) (S (ticks s)) (heap s) (heap_next s) (kinfos s) (kpatches s) (code s) (tempExecutableMemoryOff s).
Definition set_heap (s : kst) (h : gmap Z patch) (n : Z) : kst :=
  mkKst (kmem s) (kcpu s) (ticks s) h n (kinfos s) (kpatches s) (code s) (tempExecutableMemoryOff s).
Definition set_kinfos (s : kst) (k : list kinfo) : kst :=
  mkKst (kmem s) (kcpu s) (ticks s) (heap s) (heap_next s) k (kpatches s) (code s) (tempExecutableMemoryOff s).
Definition set_kpatches (s : kst) (l : list Z) : kst :=
  mkKst (kmem s) (kcpu s) (ticks s) (heap s) (heap_next s) (kinfos s) l (code s) (tempExecutableMemoryOff s).
Definition set_code (s : kst) (e : Error) : kst :=
  mkKst (kmem s) (kcpu s) (ticks s) (heap s) (heap_next s) (kinfos s) (kpatches s) e (tempExecutableMemoryOff s).
Definition set_tempOff (s : kst) (n : Z) : kst :=
  mkKst (kmem s) (kcpu s) (ticks s) (heap s) (heap_next s) (kinfos s) (kpatches s) (code s) n.

(** ** The monad *)

(** [Ret] returns; [Fault] is an access the processor or the language
    refuses, [Deadlock] a lock the thread already holds, [Fuel] a loop that
    was still running when the bound given to the model ran out. *)
Inductive res (A : Type) : Type :=
| Ret (a : A) (s : kst)
| Panic
| Fault
| Deadlock
| Fuel.
Arguments Ret {A} a s.
Arguments Panic {A}.
Arguments Fault {A}.
Arguments Deadlock {A}.
Arguments Fuel {A}.

Definition M (A : Type) : Type := kst → res A.

#[global] Instance M_ret : MRet M := λ A a s, Ret a s.
#[global] Instance M_bind : MBind M := λ A B f c s,
  match c s with
  | Ret a s => f a s
  | Panic => Panic
  | Fault => Fault
  | Deadlock => Deadlock
  | Fuel => Fuel
  end.

Definition get : M kst := λ s, Ret s s.
Definition update (f : kst → kst) : M () := λ s, Ret tt (f s).
Definition fail {A} (r : res A) : M A := λ _, r.

(** A pure computation with C's undefined cases. *)
Definition lift {A} (o : outcome A) : M A :=
  match o with Ok a => mret a | Ub => fail Fault | NoFuel => fail Fuel end.

(** ** Memory accesses *)

Definition load (a : Z) (n : nat) : M (list Z) :=
  λ s, match rd (kmem s) a n with Some l => Ret l s | None => Fault end.

(** May the byte at [a] be written now? *)
Definition can_store (E : env) (s : kst) (a : Z) : bool :=
  match kmem s !! a with Some _ => negb (cr0_wp (kcpu s) && e_ro E a) | None => false end.

Fixpoint store (E : env) (a : Z) (l : list Z) : M () :=
  match l with
  | [] => mret tt
  | b :: l => λ s, if can_store E s a then store E (a + 1) l (set_mem s (<[a := b]> (kmem s))) else Fault
  end.

Definition load_int (a : Z) (n : nat) : M Z := l ← load a n; mret (le_val l).
Definition store_int (E : env) (a : Z) (n : nat) (v : Z) : M () := store E a (le_bytes n v).

(** [setKernelWriting] and what it calls. *)
Section cpu.
  Context (E : env).

(** [set_cr0] with the WP bit changed to [v]. *)
Definition set_cr0_wp (v : bool) : M () := λ s,
  let c := kcpu s in
  Ret tt (if e_cr0 E (ticks s)
          then set_cpu (tick s) (mkCpu v (eflags_if c) (writeProtectionDisabled c) (interruptsDisabled c) (lock_held c))
          else tick s).

Definition get_cr0_wp : M bool := λ s, Ret (cr0_wp (kcpu s)) s.

(** [true] stands for [KERN_SUCCESS]. *)
Definition setWPBit (enable : bool) : M bool :=
  s ← get;
  let c := kcpu s in
  if enable && negb (writeProtectionDisabled c) then
    set_cr0_wp true;; get_cr0_wp
  else
    (if negb enable then
       update (λ s, set_cpu s (mkCpu (cr0_wp c) (eflags_if c) (negb (cr0_wp c)) (interruptsDisabled c) (lock_held c)));;
       if cr0_wp c then set_cr0_wp false else mret tt
     else mret tt);;
    w ← get_cr0_wp; mret (negb w).

Definition setInterrupts (enable : bool) : M bool := λ s,
  let c := kcpu s in
  Ret (negb (Bool.eqb (eflags_if c) enable))
      (set_cpu s (mkCpu (cr0_wp c) enable (writeProtectionDisabled c) (interruptsDisabled c) (lock_held c))).

Definition lock_lock : M () := λ s,
  let c := kcpu s in
  if lock_held c then Deadlock
  else Ret tt (set_cpu s (mkCpu (cr0_wp c) (eflags_if c) (writeProtectionDisabled c) (interruptsDisabled c) true)).

Definition lock_unlock : M () := λ s,
  let c := kcpu s in
  Ret tt (set_cpu s (mkCpu (cr0_wp c) (eflags_if c) (writeProtectionDisabled c) (interruptsDisabled c) false)).

Definition set_interruptsDisabled (b : bool) : M () := λ s,
  let c := kcpu s in
  Ret tt (set_cpu s (mkCpu (cr0_wp c) (eflags_if c) (writeProtectionDisabled c) b (lock_held c))).

(** [MachInfo::setKernelWriting] with the patcher's lock. *)
Definition setKernelWriting (enable : bool) : M bool :=
  (if enable then
     lock_lock;;
     r ← setInterrupts false;
     set_interruptsDisabled (negb r)
   else mret tt);;
  w ← setWPBit (negb enable);
  let enable := enable && w in
  (if negb enable then
     s ← get;
     (if negb (interruptsDisabled (kcpu s)) then setInterrupts true;; mret tt else mret tt);;
     lock_unlock
   else mret tt);;
  mret w.

(** ** The heap of patches *)

(** [new Patch::All(...)]; [None] is a null pointer. *)
Definition new_patch (p : patch) : M (option Z) := λ s,
  if e_avail E (ticks s)
  then Ret (Some (heap_next s)) (set_heap (tick s) (<[heap_next s := p]> (heap s)) (heap_next s + 1))
  else Ret None (tick s).

(** [delete]; deleting null does nothing, deleting twice is undefined. *)
Definition deleter (p : option Z) : M () := λ s,
  match p with
  | None => Ret tt s
  | Some a => match heap s !! a with
              | Some _ => Ret tt (set_heap s (delete a (heap s)) (heap_next s))
              | None => Fault
              end
  end.

Definition deref (p : option Z) : M patch := λ s,
  match p with
  | None => Fault
  | Some a => match heap s !! a with Some x => Ret x s | None => Fault end
  end.

(** [kpatches.push_back]. *)
Definition push_back (p : Z) : M bool := λ s,
  if e_avail E (ticks s) then Ret true (set_kpatches (tick s) (kpatches s ++ [p])) else Ret false (tick s).

(** [kpatches.erase(index)]. *)
Definition erase (i : nat) : M () :=
  s ← get;
  match kpatches s !! i with
  | Some p => deleter (Some p);; update (λ s, set_kpatches s (base.delete i (kpatches s)))
  | None => fail Fault
  end.
End cpu.

(** ** Lemmas: memory *)

Lemma lookup_wr m a l x :
  wr m a l !! x = if (a <=? x) && (x <? a + zlen l) then l !! Z.to_nat (x - a) else m !! x.
Proof.
  revert m a. induction l as [|b l IH]; intros m a; cbn [wr].
  - change (zlen []) with 0. zcases; try lia; done.
  - rewrite IH. replace (zlen (b :: l)) with (zlen l + 1) by (unfold zlen; cbn [length]; lia).
    pose proof (zlen_nonneg l). destruct (Z.eq_dec x a) as [->|Hx].
    + rewrite lookup_insert_eq. replace (Z.to_nat (a - a)) with 0%nat by lia. zcases; (lia || done).
    + rewrite lookup_insert_ne by done. zcases; try lia; try done.
      by replace (Z.to_nat (x - a)) with (S (Z.to_nat (x - (a + 1)))) by lia.
Qed.

Lemma lookup_wr_in m a l x : a ≤ x < a + zlen l → wr m a l !! x = l !! Z.to_nat (x - a).
Proof. intros. rewrite lookup_wr. zcases; try lia; done. Qed.

Lemma lookup_wr_out m a l x : x < a ∨ a + zlen l ≤ x → wr m a l !! x = m !! x.
Proof. intros. rewrite lookup_wr. zcases; try lia; done. Qed.

Lemma rd_Some m a n l :
  rd m a n = Some l ↔ length l = n ∧ ∀ i, (i < n)%nat → m !! (a + Z.of_nat i) = l !! i.
Proof.
  revert a l. induction n as [|n IH]; intros a l; cbn [rd].
  - split; [intros [= <-]; split; [done|lia]|]. intros [Hl _]. by destruct l.
  - split.
    + intros H. destruct (m !! a) as [b|] eqn:Eb; [|done]. cbn in H.
      destruct (rd m (a + 1) n) as [l'|] eqn:El; [|done]. injection H as <-.
      apply IH in El as [Hl H]. split; [cbn; lia|]. intros [|i] Hi; cbn.
      * by rewrite Z.add_0_r.
      * rewrite <- H by lia. f_equal. lia.
    + intros [Hl H]. destruct l as [|b l]; [done|].
      pose proof (H 0%nat ltac:(lia)) as H0. cbn in H0. rewrite Z.add_0_r in H0. rewrite H0. cbn.
      rewrite (proj2 (IH (a + 1) l)); [done|]. split; [cbn in Hl; lia|].
      intros i Hi. specialize (H (S i) ltac:(lia)).
      change ((b :: l) !! S i) with (l !! i) in H. rewrite <- H. f_equal. lia.
Qed.

Lemma rd_length m a n l : rd m a n = Some l → length l = n.
Proof. by intros [? _]%rd_Some. Qed.

(** Reads of memory that agrees on the bytes read. *)
Lemma rd_agree m m' a n : (∀ x, a ≤ x < a + Z.of_nat n → m' !! x = m !! x) → rd m' a n = rd m a n.
Proof.
  revert a. induction n as [|n IH]; intros a H; cbn [rd]; [done|].
  rewrite (H a) by lia. rewrite IH; [done|]. intros; apply H; lia.
Qed.

Lemma rd_wr_same m a l : rd (wr m a l) a (length l) = Some l.
Proof.
  apply rd_Some. split; [done|]. intros i Hi. rewrite lookup_wr_in by (unfold zlen; lia).
  f_equal. lia.
Qed.

Lemma rd_wr_in m a l x (n : nat) : a ≤ x → x + Z.of_nat n ≤ a + zlen l →
  rd (wr m a l) x n = Some (take n (drop (Z.to_nat (x - a)) l)).
Proof.
  unfold zlen. intros H1 H2. apply rd_Some. split.
  - rewrite length_take, length_drop. lia.
  - intros i Hi. rewrite lookup_wr_in by (unfold zlen; lia).
    rewrite lookup_take_lt, lookup_drop by lia. f_equal. lia.
Qed.

Lemma rd_wr_out m a l x (n : nat) : x + Z.of_nat n ≤ a ∨ a + zlen l ≤ x → rd (wr m a l) x n = rd m x n.
Proof. intros H. apply rd_agree. intros y Hy. apply lookup_wr_out. lia. Qed.

Lemma rd_app m a n k : rd m a (n + k) = l1 ← rd m a n; l2 ← rd m (a + Z.of_nat n) k; Some (l1 ++ l2).
Proof.
  revert a. induction n as [|n IH]; intros a; cbn [rd Nat.add].
  - cbn. replace (a + Z.of_nat 0) with a by lia. by destruct (rd m a k).
  - rewrite IH. replace (a + Z.of_nat (S n)) with (a + 1 + Z.of_nat n) by lia.
    destruct (m !! a); [|done]; cbn. destruct (rd m (a + 1) n); [|done]; cbn.
    by destruct (rd m (a + 1 + Z.of_nat n) k).
Qed.

(** Memory is determined by its bytes. *)
Lemma wr_app m a l k : wr m a (l ++ k) = wr (wr m a l) (a + zlen l) k.
Proof.
  revert m a. induction l as [|b l IH]; intros m a; cbn [wr app].
  - f_equal. unfold zlen; cbn; lia.
  - rewrite IH. f_equal. unfold zlen; cbn [length]; lia.
Qed.

Lemma wr_rd m a n l : rd m a n = Some l → wr m a l = m.
Proof.
  intros [Hl H]%rd_Some. apply map_eq; intros x. rewrite lookup_wr. zcases; try done.
  unfold zlen in *. rewrite <- H by lia. f_equal. lia.
Qed.

(** Writing over what was written. *)
Lemma wr_over m a l k : length l = length k → wr (wr m a l) a k = wr m a k.
Proof.
  intros Hl. apply map_eq; intros x. rewrite !lookup_wr. unfold zlen. rewrite Hl. zcases; done.
Qed.

Lemma wr_comm m a l b k : a + zlen l ≤ b ∨ b + zlen k ≤ a →
  wr (wr m a l) b k = wr (wr m b k) a l.
Proof. intros H. apply map_eq; intros x. rewrite !lookup_wr. zcases; try done; lia. Qed.

(** Every cell of the memory holds a byte. *)
Definition mem_ok (m : mem) : Prop := ∀ a b, m !! a = Some b → in_u 8 b.

Lemma mem_ok_wr m a l : mem_ok m → bytes_ok l → mem_ok (wr m a l).
Proof.
  intros Hm Hl x b. rewrite lookup_wr. zcases; [|by apply Hm..].
  intros Hx. by eapply Forall_lookup_1 in Hx.
Qed.

Lemma rd_bytes m a n l : mem_ok m → rd m a n = Some l → bytes_ok l.
Proof.
  intros Hm [Hl H]%rd_Some. apply Forall_lookup. intros i b Hi. eapply Hm.
  rewrite H; [exact Hi|]. apply lookup_lt_Some in Hi. lia.
Qed.

(** The [n] bytes from [a] are mapped. *)
Definition mapped (m : mem) (a n : Z) : Prop := ∀ x, a ≤ x < a + n → is_Some (m !! x).

Lemma mapped_rd m a n : mapped m a (Z.of_nat n) → ∃ l, rd m a n = Some l.
Proof.
  revert a. induction n as [|n IH]; intros a H; cbn [rd]; [eauto|].
  destruct (H a) as [b ->]; [lia|]. cbn. destruct (IH (a + 1)) as [l ->]; [|cbn; eauto].
  intros x Hx. apply H. lia.
Qed.

Lemma mapped_sub m a n b k : mapped m a n → a ≤ b → b + k ≤ a + n → mapped m b k.
Proof. intros H ?? x ?. apply H. lia. Qed.

Lemma mapped_wr m a l b n : mapped m b n → mapped (wr m a l) b n.
Proof.
  intros Hm x Hx. rewrite lookup_wr. zcases; try by apply Hm.
  unfold zlen in *. apply lookup_lt_is_Some. lia.
Qed.

Lemma window_rd m a n : mapped m a (Z.of_nat n) → rd m a n = Some (window m a n).
Proof.
  revert a. induction n as [|n IH]; intros a H; cbn [rd window]; [done|].
  destruct (H a) as [b Eb]; [lia|]. rewrite Eb. cbn. rewrite IH; [done|].
  intros x Hx. apply H. lia.
Qed.

(** ** Lemmas: little-endian values *)

(** ** Lemmas: runs of the monad *)

(** [c] started in [s] returns, with a result and a state that satisfy [Q]. *)
Definition runs {A} (c : M A) (s : kst) (Q : A → kst → Prop) : Prop :=
  match c s with Ret a s' => Q a s' | _ => False end.

Lemma bind_Ret {A B} (c : M A) (f : A → M B) s a s' : c s = Ret a s' → (c ≫= f) s = f a s'.
Proof. unfold mbind, M_bind. by intros ->. Qed.

Lemma runs_bind {A B} (c : M A) (f : A → M B) s Q : runs c s (λ a s', runs (f a) s' Q) → runs (c ≫= f) s Q.
Proof. unfold runs, mbind, M_bind. by destruct (c s). Qed.

Lemma runs_mono {A} (c : M A) s (Q Q' : A → kst → Prop) :
  runs c s Q → (∀ a s', Q a s' → Q' a s') → runs c s Q'.
Proof. unfold runs. destruct (c s); naive_solver. Qed.

Lemma runs_Ret {A} (c : M A) s Q : runs c s Q ↔ ∃ a s', c s = Ret a s' ∧ Q a s'.
Proof. unfold runs. destruct (c s); naive_solver. Qed.

Lemma load_Ret a n s l : rd (kmem s) a n = Some l → load a n s = Ret l s.
Proof. intros H. unfold load. by rewrite H. Qed.

(** Write protection is off, so mapped bytes can be written. *)
Definition writable (E : env) (s : kst) (a n : Z) : Prop :=
  mapped (kmem s) a n ∧ (cr0_wp (kcpu s) = false ∨ ∀ x, a ≤ x < a + n → e_ro E x = false).

Lemma store_Ret E a l s : writable E s a (zlen l) → store E a l s = Ret tt (set_mem s (wr (kmem s) a l)).
Proof.
  revert a s. induction l as [|b l IH]; intros a s [Hm Hw]; cbn [store wr].
  - by destruct s.
  - assert (zlen (b :: l) = 1 + zlen l) as El by (unfold zlen; cbn [length]; lia).
    pose proof (zlen_nonneg l) as Hl. rewrite El in *.
    assert (can_store E s a = true) as ->.
    { unfold can_store. destruct (Hm a) as [x ->]; [lia|]. destruct Hw as [->|Hw]; [done|].
      by rewrite Hw, andb_false_r by lia. }
    rewrite IH; [by destruct s|]. split; cbn [kmem kcpu set_mem].
    + apply (mapped_wr _ a [b]). eapply mapped_sub; [exact Hm|lia|lia].
    + destruct Hw as [Hw|Hw]; [by left|right]. intros x Hx. apply Hw. lia.
Qed.

Lemma store_int_Ret E a n v s :
  writable E s a (Z.of_nat n) → store_int E a n v s = Ret tt (set_mem s (wr (kmem s) a (le_bytes n v))).
Proof. intros H. apply store_Ret. unfold zlen. by rewrite length_le_bytes. Qed.

(** ** Lemmas: the write-protection window *)

(** The processor while kernel text is writable, and after. *)
Definition on_cpu (c : cpu) : cpu := mkCpu false false (negb (cr0_wp c)) (negb (eflags_if c)) true.
Definition off_cpu (c : cpu) : cpu :=
  mkCpu (cr0_wp c) (eflags_if c) (negb (cr0_wp c)) (negb (eflags_if c)) false.

Definition with_cpu (s : kst) (c : cpu) (t : nat) : kst :=
  mkKst (kmem s) c t (heap s) (heap_next s) (kinfos s) (kpatches s) (code s) (tempExecutableMemoryOff s).

(** [CR0] writes that [setWPBit] needs: one if protection is on. *)
Definition wp_cost (c : cpu) : nat := if cr0_wp c then 1 else 0.

Ltac exec_cpu :=
  cbv [setKernelWriting setWPBit set_cr0_wp get_cr0_wp setInterrupts set_interruptsDisabled lock_lock lock_unlock
       mbind M_bind mret M_ret get update with_cpu on_cpu off_cpu wp_cost];
  cbn [kcpu set_cpu cr0_wp eflags_if writeProtectionDisabled interruptsDisabled lock_held negb andb Bool.eqb tick ticks].

Lemma setKernelWriting_on E s :
  lock_held (kcpu s) = false → (cr0_wp (kcpu s) = true → e_cr0 E (ticks s) = true) →
  setKernelWriting E true s = Ret true (with_cpu s (on_cpu (kcpu s)) (ticks s + wp_cost (kcpu s))).
Proof.
  destruct s as [m [wp fi wd id lk] t h hn ki kp e off]; cbn [kcpu cr0_wp lock_held ticks]. intros -> Hok.
  exec_cpu. destruct wp; cbn; [rewrite Hok by done|]; cbn; destruct fi; cbn;
    by rewrite ?Nat.add_0_r, ?Nat.add_1_r.
Qed.

Lemma setKernelWriting_refused E s :
  lock_held (kcpu s) = false → cr0_wp (kcpu s) = true → e_cr0 E (ticks s) = false →
  setKernelWriting E true s = Ret false (with_cpu s (off_cpu (kcpu s)) (S (ticks s))).
Proof.
  destruct s as [m [wp fi wd id lk] t h hn ki kp e off]; cbn [kcpu cr0_wp lock_held ticks]. intros -> -> Hno.
  exec_cpu. rewrite Hno. cbn. by destruct fi.
Qed.

Lemma setKernelWriting_off E s c :
  kcpu s = on_cpu c → (cr0_wp c = true → e_cr0 E (ticks s) = true) →
  setKernelWriting E false s = Ret true (with_cpu s (off_cpu c) (ticks s + wp_cost c)).
Proof.
  destruct s as [m cp t h hn ki kp e off], c as [wp fi wd id lk]; cbn [kcpu cr0_wp ticks]. intros -> Hok.
  exec_cpu. destruct wp; cbn; [rewrite Hok by done|]; cbn; destruct fi; cbn;
    by rewrite ?Nat.add_0_r, ?Nat.add_1_r.
Qed.

(** The environment grants every request. *)
Class Granting (E : env) : Prop := {
  g_cr0 n : e_cr0 E n = true;
  g_avail n : e_avail E n = true
}.
End Machine.
