(* ===== verification/LiluPatcher.v ===== *)
(** * Lilu: the kernel patcher ([Lilu/Sources/kern_patcher.cpp], [kern_disasm.cpp])

    Function routing with its three jump encodings, trampolines, chained
    routes and their removal; pattern search and replacement; symbol lookup
    and the batch interface the plugins call.  The methods of
    [KernelPatcher] are programs in the monad of [Machine]. *)

From Stdlib Require Import ZArith Lia.
From stdpp Require Import gmap strings.
From S2P Require Import Prelude Hde Hde64 LiluMachine.

Module Patcher.
Import Machine.

Open Scope c_scope.
Open Scope Z_scope.

(** ** Constants *)

Definition EINVAL := 22.
Definition PAGE_SIZE := 4096.
Definition HeaderSize := PAGE_SIZE * 2.
Definition KernelID := 0%nat.
Definition KernelAny := 0.
Definition UINTPTR_MAX := 2 ^ 64 - 1.

Definition SmallJump := 5.
Definition LongJump := 14.
Definition MediumJump := 6.
Definition SmallJumpPrefix := 0xE9.
Definition LongJumpPrefix := 0x25FF.
Definition TempExecutableMemorySize := 4096.

Inductive JumpType := Auto | Long | Short | Medium.

#[global] Instance JumpType_eq_dec : EqDecision JumpType.
Proof. solve_decision. Defined.

(** ** Instruction lengths *)

(** [Disassembler::quickInstructionSize]: whole instructions of at least
    [min] bytes; the decoder sees the mapped bytes at the address. *)
Fixpoint quick_loop (fuel : nat) (m : mem) (addr min total : Z) : outcome Z :=
  match fuel with
  | O => NoFuel
  | S fuel =>
      hs ← Hde64.hde64_disasm (window m addr 32);
      if ctrue (hs Hde.flags & Hde.F_ERROR) then Ok 0
      else
        let len := hs Hde.len in
        let addr := u64 (addr + len) in
        let total := u64 (total + len) in
        if total <? min then quick_loop fuel m addr min total else Ok total
  end.

Definition quickInstructionSize (addr min : Z) : M Z :=
  s ← get; lift (quick_loop (S (Z.to_nat min)) (kmem s) addr min 0).

(** ** The object's error code *)

Definition getError : M Error := s ← get; mret (code s).
Definition set_error (e : Error) : M () := update (λ s, set_code s e).
Definition clearError : M () := set_error NoError.

(** ** Patches *)

Definition create (E : env) (width : nat) (addr rep : Z) : M (option Z) :=
  o ← load_int addr width; new_patch E (mkPatch width addr o rep).

Definition writeType (E : env) (width : nat) (addr value : Z) : M () := store_int E addr width value.

Definition p_patch (E : env) (p : option Z) : M () :=
  x ← deref p; writeType E (p_width x) (p_address x) (p_replaced x).

Definition p_restore (E : env) (p : option Z) : M () :=
  x ← deref p; writeType E (p_width x) (p_address x) (p_original x).

(** [MachInfo::getAddressSlot] of the image [i]. *)
Definition getAddressSlot (i : nat) : M Z :=
  s ← get;
  match kinfos s !! i with
  | None => fail Fault
  | Some k =>
      let slot := address_slots k in
      if ctrue slot && (u64 (slot + 8) <=? address_slots_end k) then
        update (λ s, set_kinfos s (<[i := mkKinfo (objectId k) (k_symbols k) (running_mh k) (memory_size k)
                                                 (u64 (slot + 8)) (address_slots_end k)]> (kinfos s)));;
        mret slot
      else mret 0
  end.

Section patcher.
  Context (E : env).

(** Where a jump at [from] leads and of which kind it is; 0 if there is none. *)
Definition readChain (from : Z) : M (Z * option JumpType) :=
  op ← load_int from 2;
  if op =? LongJumpPrefix then
    d ← load_int (from + 2) 4;
    let disp := s32 d in
    t ← load_int (u64 (from + MediumJump + disp)) 8;
    mret (t, Some (if ctrue disp then Medium else Long))
  else
    b ← load_int from 1;
    if b =? SmallJumpPrefix then
      a ← load_int (from + 1) 4;
      mret (u64 (from + SmallJump + s32 a), Some Short)
    else mret (0, None).

(** ** Installing a jump *)

(** The jump as [FunctionPatch] holds it, padded with the function's own
    bytes ([sourceIt]), and the patches that write its parts. *)
Definition make_jump (from to : Z) (absolute : bool) (addressSlot newArgument : Z)
    : M (list Z * option Z * option Z * option Z) :=
  if ctrue addressSlot then
    let argument := u32 (addressSlot - (from + MediumJump)) in
    org ← load (from + 6) 2;
    opcode ← create E 2 from LongJumpPrefix;
    arg ← create E 4 (from + 2) argument;
    disp ← create E 8 addressSlot to;
    mret (le_bytes 2 LongJumpPrefix ++ le_bytes 4 argument ++ org, opcode, arg, disp)
  else if absolute then
    org ← load (from + 14) 2;
    opcode ← create E 2 from LongJumpPrefix;
    arg ← create E 4 (from + 2) 0;
    disp ← create E 8 (from + 6) to;
    mret (le_bytes 2 LongJumpPrefix ++ le_bytes 4 0 ++ le_bytes 8 to ++ org, opcode, arg, disp)
  else
    org ← load (from + 5) 3;
    opcode ← create E 1 from SmallJumpPrefix;
    arg ← create E 4 (from + 1) (u32 newArgument);
    mret (le_bytes 1 SmallJumpPrefix ++ le_bytes 4 (u32 newArgument) ++ org, opcode, arg, None).

Definition is_null {A} (p : option A) : bool := match p with None => true | Some _ => false end.

Definition delete_patches (opcode argument disp : option Z) : M () :=
  deleter opcode;; deleter argument;;
  match disp with None => mret tt | Some _ => deleter disp end.

(** Write the jump: in one aligned store where possible. *)
Definition write_jump (from : Z) (absolute : bool) (addressSlot : Z) (value : list Z)
    (opcode argument disp : option Z) : M () :=
  (if ctrue addressSlot then p_patch E disp else mret tt);;
  if ctrue addressSlot || negb absolute then
    if (from & 7) =? 0 then store E from value
    else p_patch E opcode;; p_patch E argument
  else if (from & 15) =? 0 then store E from value
  else p_patch E disp;; p_patch E opcode;; p_patch E argument.

(** Keep the patches for [deinit]; [false] if that failed. *)
Definition keep_patches (opcode argument disp : option Z) : M bool :=
  match opcode, argument with
  | Some o, Some a =>
      oidx ← push_back E o;
      aidx ← push_back E a;
      didx ← match disp with Some d => push_back E d | None => mret false end;
      if oidx && aidx && (is_null disp || didx) then mret true
      else
        (if oidx : bool then erase 1 else mret tt);;
        (if aidx : bool then erase 1 else mret tt);;
        (if didx : bool then erase 1 else mret tt);;
        mret false
  | _, _ => fail Fault
  end.

(** The second half of [routeFunctionInternal], from the choice of the
    encoding on. *)
Definition install_route (from to : Z) (kernelRoute revertible absolute : bool)
    (addressSlot newArgument trampoline : Z) : M Z :=
  '(value, opcode, argument, disp) ← make_jump from to absolute addressSlot newArgument;
  if is_null opcode || is_null argument || (absolute && is_null disp) then
    set_error MemoryIssue;; delete_patches opcode argument disp;; mret EINVAL
  else
    w ← (if kernelRoute then setKernelWriting E true else mret true);
    if negb w then
      set_error MemoryProtection;; delete_patches opcode argument disp;; mret EINVAL
    else
      write_jump from absolute addressSlot value opcode argument disp;;
      kept ← (if kernelRoute then
                setKernelWriting E false;;
                if revertible then keep_patches opcode argument disp else mret false
              else mret false);
      if kept : bool then mret trampoline
      else delete_patches opcode argument disp;; mret trampoline.

(** ** Routing a function *)

Definition jt_eqb (a b : JumpType) : bool := bool_decide (a = b).

(** [routeFunctionInternal], given [createTrampoline]; [info] is the image
    whose slots may be used, [org] the cell that receives the original
    function (0 for none). *)
Definition route_body (mk : Z → Z → list Z → M Z)
    (from to : Z) (buildWrapper kernelRoute revertible : bool) (jumpType : JumpType)
    (info : option nat) (org : Z) : M Z :=
  let diff := u64 (to - (from + SmallJump)) in
  let newArgument := s32 diff in
  let absolute := negb (diff =? u64 newArgument) || jt_eqb jumpType Long in
  if jt_eqb jumpType Short && absolute then
    set_error MemoryIssue;; mret EINVAL
  else
    '(trampoline, prevJump) ← readChain from;
    r ← (if ctrue trampoline then
           let trampoline := if buildWrapper then trampoline else 0 in
           if bool_decide (prevJump = Some Short) || jt_eqb jumpType Short then fail Panic
           else if bool_decide (prevJump = Some Medium) then
             match info with
             | None => fail Panic
             | Some i =>
                 slot ← getAddressSlot i;
                 if slot =? 0 then fail Panic else mret (Some (trampoline, slot, false))
             end
           else mret (Some (trampoline, 0, false))
         else if buildWrapper then
           slot ← match info with
                  | Some i => if absolute && (jt_eqb jumpType Auto || jt_eqb jumpType Long) then getAddressSlot i
                              else mret 0
                  | None => mret 0
                  end;
           t ← mk from (if absolute then (if ctrue slot then MediumJump else LongJump) else SmallJump) [];
           if t =? 0 then mret None else mret (Some (t, slot, revertible))
         else mret (Some (0, 0, revertible)));
    match r with
    | None => mret EINVAL
    | Some (trampoline, addressSlot, revertible) =>
        (if ctrue org then store_int E org 8 trampoline else mret tt);;
        install_route from to kernelRoute revertible absolute addressSlot newArgument trampoline
    end.

(** [createTrampoline], given [routeFunctionInternal]. *)
Definition trampoline_body (route : Z → Z → M Z) (func min : Z) (opcodes : list Z) : M Z :=
  w ← setKernelWriting E true;
  if negb w then set_error MemoryProtection;; mret 0
  else
    off ← quickInstructionSize func min;
    if (off =? 0) || (PAGE_SIZE - LongJump <? off) then
      setKernelWriting E false;; set_error DisasmFailure;; mret 0
    else
      s ← get;
      let opnum := zlen opcodes in
      let tempDataPtr := u64 (tempExecutableMemory E + tempExecutableMemoryOff s) in
      let tempOff := u64 (tempExecutableMemoryOff s + (off + LongJump + opnum)) in
      update (λ s, set_tempOff s tempOff);;
      if TempExecutableMemorySize <=? tempOff then
        setKernelWriting E false;; set_error DisasmFailure;; mret 0
      else
        (if 0 <? opnum then store E tempDataPtr opcodes else mret tt);;
        prologue ← load func (Z.to_nat off);
        store E (tempDataPtr + opnum) prologue;;
        setKernelWriting E false;;
        clearError;;
        route (u64 (tempDataPtr + opnum + off)) (u64 (func + off));;
        e ← getError;
        if bool_decide (e = NoError) then mret tempDataPtr else mret 0.

(** The inner route of a trampoline builds no wrapper, so the recursion
    between the two functions is one level deep. *)
Definition route_plain (from to : Z) (kernelRoute revertible : bool) : M Z :=
  route_body (λ _ _ _, fail Fuel) from to false kernelRoute revertible Auto None 0.

Definition createTrampoline (func min : Z) (opcodes : list Z) : M Z :=
  trampoline_body (λ from to, route_plain from to true false) func min opcodes.

Definition routeFunctionInternal : Z → Z → bool → bool → bool → JumpType → option nat → Z → M Z :=
  route_body createTrampoline.

Definition routeFunction (from to : Z) (buildWrapper kernelRoute revertible : bool) : M Z :=
  routeFunctionInternal from to buildWrapper kernelRoute revertible Auto None 0.
Definition routeFunctionLong (from to : Z) (buildWrapper kernelRoute revertible : bool) : M Z :=
  routeFunctionInternal from to buildWrapper kernelRoute revertible Long None 0.
Definition routeFunctionShort (from to : Z) (buildWrapper kernelRoute revertible : bool) : M Z :=
  routeFunctionInternal from to buildWrapper kernelRoute revertible Short None 0.

Definition routeBlock (from : Z) (opcodes : list Z) (buildWrapper kernelRoute : bool) : M Z :=
  if negb buildWrapper then
    w ← (if kernelRoute then setKernelWriting E true else mret true);
    if w : bool then
      store E from opcodes;;
      (if kernelRoute then setKernelWriting E false;; mret tt else mret tt);;
      mret 0
    else set_error MemoryProtection;; mret EINVAL
  else if negb kernelRoute then
    set_error MemoryProtection;; mret EINVAL
  else
    trampoline ← createTrampoline from LongJump opcodes;
    if trampoline =? 0 then mret EINVAL
    else
      r ← routeFunctionInternal from trampoline false true true Auto None 0;
      mret (if r =? 0 then trampoline else EINVAL).

(** ** Coverage counters *)

Definition IncInstPrefix := [0x48; 0xFF; 0x05].
Definition IncInstSize := 7.

(** [eraseCoverageInstPrefix]: turn [inc qword ptr [rip + disp32]] among the
    first [count] instructions into [nop]s. *)
Fixpoint eraseCoverageInstPrefix (count : nat) (addr limit total : Z) : M () :=
  match count with
  | O => mret tt
  | S count =>
      instSize ← quickInstructionSize addr 1;
      if instSize =? 0 then mret tt
      else
        isInc ← (if instSize =? IncInstSize then head ← load addr 3; mret (bool_decide (head = IncInstPrefix))
                 else mret false);
        (if isInc : bool then
           w ← setKernelWriting E true;
           if w : bool then store E addr (replicate 7 0x90);; setKernelWriting E false;; mret tt
           else mret tt
         else mret tt);;
        let total := total + instSize in
        let addr := u64 (addr + instSize) in
        if (0 <? limit) && (limit <=? total) then mret tt
        else eraseCoverageInstPrefix count addr limit total
  end.

(** ** Symbols and batches of routes *)

Definition solveSymbol (id : nat) (symbol : string) : M Z :=
  s ← get;
  let addr := match kinfos s !! id with Some k => k_symbols k symbol | None => 0 end in
  if ctrue addr then mret addr else set_error NoSymbolFound;; mret 0.

(** The template that also checks that the symbol lies in an image. *)
Definition solveSymbolIn (id : nat) (symbol : string) (start size : Z) (crash : bool) : M Z :=
  addr ← solveSymbol id symbol;
  if ctrue addr then
    if (start <=? addr) && (addr <? u64 (start + size)) then mret addr
    else set_error InvalidSymbolFound;; (if crash then fail Panic else mret 0)
  else mret 0.

Record RouteRequest := mkReq {
  r_symbol : option string;
  r_from : Z;
  r_to : Z;
  r_orgp : Z
}.

Definition set_from (r : RouteRequest) (a : Z) : RouteRequest := mkReq (r_symbol r) a (r_to r) (r_orgp r).

(** First pass: the requests with their addresses, whether the call goes on,
    and whether errors were found. *)
Fixpoint solve_requests (id : nat) (start size : Z) (force : bool) (l : list RouteRequest) (errors : bool)
    : M (list RouteRequest * bool * bool) :=
  match l with
  | [] => mret ([], true, errors)
  | r :: l =>
      match r_symbol r with
      | None =>
          '(l, go, errors) ← solve_requests id start size force l errors; mret (r :: l, go, errors)
      | Some sym =>
          from ← (if ctrue start || ctrue size then solveSymbolIn id sym start size true else solveSymbol id sym);
          let r := set_from r from in
          if ctrue from then
            '(l, go, errors) ← solve_requests id start size force l errors; mret (r :: l, go, errors)
          else
            clearError;;
            if force then
              '(l, go, errors) ← solve_requests id start size force l true; mret (r :: l, go, errors)
            else mret (r :: l, false, true)
      end
  end.

(** Second pass: [false] if it was abandoned. *)
Fixpoint route_requests (id : nat) (kernelRoute force : bool) (jump : JumpType) (l : list RouteRequest) (errors : bool)
    : M (bool * bool) :=
  match l with
  | [] => mret (true, errors)
  | r :: l =>
      if negb (ctrue (r_from r)) then route_requests id kernelRoute force jump l errors
      else
        (if ctrue (r_to r) then eraseCoverageInstPrefix 5 (r_from r) LongJump 0 else mret tt);;
        s ← get;
        (if is_null (kinfos s !! id) then fail Fault else mret tt);;
        wrapper ← routeFunctionInternal (r_from r) (r_to r) (ctrue (r_orgp r)) kernelRoute true jump (Some id) (r_orgp r);
        if (if ctrue (r_orgp r) then ctrue wrapper else wrapper =? 0) then
          route_requests id kernelRoute force jump l errors
        else
          clearError;;
          if force then route_requests id kernelRoute force jump l true else mret (false, true)
  end.

Definition routeMultipleInternal (id : nat) (requests : list RouteRequest) (start size : Z)
    (kernelRoute force : bool) (jump : JumpType) : M (bool * list RouteRequest) :=
  '(requests, go, errors) ← solve_requests id start size force requests false;
  if negb go then mret (false, requests)
  else
    '(go, errors) ← route_requests id kernelRoute force jump requests errors;
    mret (go && negb errors, requests).

Definition routeMultiple (id : nat) (requests : list RouteRequest) (start size : Z) (kernelRoute force : bool)
    : M (bool * list RouteRequest) :=
  routeMultipleInternal id requests start size kernelRoute force Auto.
Definition routeMultipleLong (id : nat) (requests : list RouteRequest) (start size : Z) (kernelRoute force : bool)
    : M (bool * list RouteRequest) :=
  routeMultipleInternal id requests start size kernelRoute force Long.
Definition routeMultipleShort (id : nat) (requests : list RouteRequest) (start size : Z) (kernelRoute force : bool)
    : M (bool * list RouteRequest) :=
  routeMultipleInternal id requests start size kernelRoute force Short.

(** ** Removing the patches *)

Fixpoint restore_all (l : list Z) : M () :=
  match l with [] => mret tt | p :: l => p_restore E (Some p);; restore_all l end.

Fixpoint delete_all (l : list Z) : M () :=
  match l with [] => mret tt | p :: l => deleter (Some p);; delete_all l end.

(** [KernelPatcher::deinit], up to the release of its lock. *)
Definition deinit : M () :=
  s ← get;
  (if (0 <? length (kinfos s))%nat then
     w ← setKernelWriting E true;
     if w : bool then restore_all (kpatches s);; setKernelWriting E false;; mret tt else mret tt
   else mret tt);;
  delete_all (kpatches s);;
  update (λ s, set_kinfos (set_kpatches s []) []).

Definition compatibleKernel (min max : Z) : bool :=
  ((min =? KernelAny) || (min <=? e_kernel_version E)) && ((max =? KernelAny) || (e_kernel_version E <=? max)).

(** ** Installing a jump: what it does *)

(** The instruction that leads from [from] to [to]. *)
Definition jump_bytes (from to : Z) (absolute : bool) (addressSlot newArgument : Z) : list Z :=
  if ctrue addressSlot then le_bytes 2 LongJumpPrefix ++ le_bytes 4 (u32 (addressSlot - (from + MediumJump)))
  else if absolute then le_bytes 2 LongJumpPrefix ++ le_bytes 4 0 ++ le_bytes 8 to
  else le_bytes 1 SmallJumpPrefix ++ le_bytes 4 (u32 newArgument).

(** How many bytes at [from] the patcher looks at. *)
Definition jump_span (absolute : bool) (addressSlot : Z) : Z :=
  if ctrue addressSlot || negb absolute then 8 else 16.

Definition patch_at (m : mem) (w : nat) (a v : Z) : patch :=
  mkPatch w a (le_val (default [] (rd m a w))) v.

Definition jump_patches (m : mem) (from to : Z) (absolute : bool) (addressSlot newArgument : Z) : list patch :=
  if ctrue addressSlot then
    [patch_at m 2 from LongJumpPrefix; patch_at m 4 (from + 2) (u32 (addressSlot - (from + MediumJump)));
     patch_at m 8 addressSlot to]
  else if absolute then
    [patch_at m 2 from LongJumpPrefix; patch_at m 4 (from + 2) 0; patch_at m 8 (from + 6) to]
  else [patch_at m 1 from SmallJumpPrefix; patch_at m 4 (from + 1) (u32 newArgument)].

(** The heap with the patches [l] allocated from [n] on. *)
Fixpoint add_patches (h : gmap Z patch) (n : Z) (l : list patch) : gmap Z patch :=
  match l with [] => h | p :: l => add_patches (<[n := p]> h) (n + 1) l end.

(** The memory with the slot and the jump written. *)
Definition jumped (m : mem) (from to : Z) (absolute : bool) (addressSlot newArgument : Z) : mem :=
  wr (if ctrue addressSlot then wr m addressSlot (le_bytes 8 to) else m) from
     (jump_bytes from to absolute addressSlot newArgument).

Definition heap_ok (s : kst) : Prop := ∀ a, is_Some (heap s !! a) → a < heap_next s.

(** What [install_route] relies on. *)
Record install_pre (s : kst) (from : Z) (absolute : bool) (slot : Z) : Prop := {
  ip_lock : lock_held (kcpu s) = false;
  ip_heap : heap_ok s;
  ip_from : mapped (kmem s) from (jump_span absolute slot);
  ip_slot : slot ≠ 0 → mapped (kmem s) slot 8 ∧ (slot + 8 ≤ from ∨ from + 8 ≤ slot)
}.

Lemma create_Ret `{!Granting E} w a v s :
  mapped (kmem s) a (Z.of_nat w) →
  create E w a v s = Ret (Some (heap_next s))
    (set_heap (tick s) (<[heap_next s := patch_at (kmem s) w a v]> (heap s)) (heap_next s + 1)).
Proof.
  intros [l Hl]%mapped_rd. unfold create, load_int, patch_at. unfold mbind, M_bind.
  rewrite (load_Ret _ _ _ _ Hl). cbn. unfold new_patch. by rewrite g_avail, Hl.
Qed.

(** [s] after the allocation of the patches [l]. *)
Definition alloced (s : kst) (l : list patch) : kst :=
  mkKst (kmem s) (kcpu s) (ticks s + length l) (add_patches (heap s) (heap_next s) l) (heap_next s + zlen l)
        (kinfos s) (kpatches s) (code s) (tempExecutableMemoryOff s).

Lemma create_alloced `{!Granting E} s l w a v :
  mapped (kmem s) a (Z.of_nat w) →
  create E w a v (alloced s l) = Ret (Some (heap_next s + zlen l)) (alloced s (l ++ [patch_at (kmem s) w a v])).
Proof.
  intros H. rewrite create_Ret by done. unfold alloced, set_heap, tick. cbn [kmem kcpu heap heap_next ticks kinfos kpatches code tempExecutableMemoryOff].
  f_equal. rewrite zlen_app. change (zlen [_]) with 1. rewrite length_app. cbn [length].
  replace (heap_next s + zlen l + 1) with (heap_next s + (zlen l + 1)) by lia.
  replace (S (ticks s + length l)) with (ticks s + (length l + 1))%nat by lia.
  f_equal. generalize (heap s), (heap_next s). clear. induction l as [|p l IH]; intros h n; cbn [add_patches app].
  - f_equal. unfold zlen; cbn; lia.
  - rewrite <- IH. f_equal. unfold zlen; cbn [length]; lia.
Qed.

Lemma alloced_nil s : alloced s [] = s.
Proof. destruct s. unfold alloced; cbn. by rewrite Nat.add_0_r, Z.add_0_r. Qed.

Lemma create_first `{!Granting E} s w a v :
  mapped (kmem s) a (Z.of_nat w) →
  create E w a v s = Ret (Some (heap_next s)) (alloced s [patch_at (kmem s) w a v]).
Proof.
  intros H. rewrite <- (alloced_nil s) at 1. rewrite create_alloced by done.
  by rewrite Z.add_0_r.
Qed.

Lemma make_jump_Ret `{!Granting E} s from to absolute slot arg :
  install_pre s from absolute slot →
  ∃ org, let ps := jump_patches (kmem s) from to absolute slot arg in
    let J := jump_bytes from to absolute slot arg in
    zlen J + zlen org = jump_span absolute slot ∧ rd (kmem s) (from + zlen J) (length org) = Some org ∧
    make_jump from to absolute slot arg s =
      Ret (J ++ org, Some (heap_next s), Some (heap_next s + 1),
           if ctrue slot || absolute then Some (heap_next s + 2) else None) (alloced s ps).
Proof.
  intros [_ _ Hf Hs]. unfold make_jump, jump_bytes, jump_patches, jump_span in *.
  assert (∀ k n, 0 ≤ k → k + Z.of_nat n ≤ 8 ∨ (k + Z.of_nat n ≤ 16 ∧ ctrue slot || negb absolute = false) →
          mapped (kmem s) (from + k) (Z.of_nat n)) as Hm.
  { intros k n Hk Hn. eapply mapped_sub; [exact Hf|lia|]. case_bool; destruct Hn as [?|[? ?]]; (lia || congruence). }
  destruct (ctrue slot) eqn:Es; cbn [orb negb] in *.
  - apply ctrue_true in Es. destruct (Hs Es) as [Hsl _].
    destruct (mapped_rd (kmem s) (from + 6) 2) as [org Horg]; [apply Hm; lia|].
    exists org. split_conj; [apply rd_length in Horg; unfold zlen; rewrite Horg; done|by rewrite (rd_length _ _ _ _ Horg)|].
    erewrite bind_Ret by (by apply load_Ret).
    erewrite bind_Ret by (apply create_first; rewrite <- (Z.add_0_r from); apply (Hm 0 2%nat); lia).
    erewrite bind_Ret by (apply create_alloced; apply (Hm 2 4%nat); lia).
    erewrite bind_Ret by (apply create_alloced; done). cbn. repeat f_equal; lia.
  - destruct absolute; cbn [negb] in *.
    + destruct (mapped_rd (kmem s) (from + 14) 2) as [org Horg]; [apply Hm; [lia|right; split; [lia|done]]|].
      exists org. split_conj; [apply rd_length in Horg; unfold zlen; rewrite Horg; done|by rewrite (rd_length _ _ _ _ Horg)|].
      erewrite bind_Ret by (by apply load_Ret).
      erewrite bind_Ret by (apply create_first; rewrite <- (Z.add_0_r from); apply (Hm 0 2%nat); lia).
      erewrite bind_Ret by (apply create_alloced; apply (Hm 2 4%nat); lia).
      erewrite bind_Ret by (apply create_alloced; apply (Hm 6 8%nat); [lia|right; split; [lia|done]]). cbn. repeat f_equal; lia.
    + destruct (mapped_rd (kmem s) (from + 5) 3) as [org Horg]; [apply Hm; lia|].
      exists org. split_conj; [apply rd_length in Horg; unfold zlen; rewrite Horg; done|by rewrite (rd_length _ _ _ _ Horg)|].
      erewrite bind_Ret by (by apply load_Ret).
      erewrite bind_Ret by (apply create_first; rewrite <- (Z.add_0_r from); apply (Hm 0 1%nat); lia).
      erewrite bind_Ret by (apply create_alloced; apply (Hm 1 4%nat); lia). cbn. repeat f_equal; lia.
Qed.

Lemma p_patch_Ret s a p m :
  heap s !! a = Some p → cr0_wp (kcpu s) = false → mapped m (p_address p) (Z.of_nat (p_width p)) →
  p_patch E (Some a) (set_mem s m) = Ret tt (set_mem s (wr m (p_address p) (le_bytes (p_width p) (p_replaced p)))).
Proof.
  intros Hp Hw Hm. unfold p_patch. erewrite bind_Ret by (cbn; by rewrite Hp).
  unfold writeType. rewrite store_int_Ret; [done|]. split; [done|by left].
Qed.

(** Padding with the bytes that are there changes nothing. *)
Lemma wr_pad m a l k : rd m (a + zlen l) (length k) = Some k → wr m a (l ++ k) = wr m a l.
Proof.
  intros Hk. rewrite wr_app. apply (wr_rd _ _ (length k)). rewrite rd_wr_out by lia. done.
Qed.

Lemma mapped_span m from absolute slot k n :
  mapped m from (jump_span absolute slot) → 0 ≤ k →
  k + n ≤ jump_span absolute slot → mapped m (from + k) n.
Proof. intros H Hk Hn. eapply mapped_sub; [exact H|lia|lia]. Qed.

Lemma set_mem_id s : set_mem s (kmem s) = s.
Proof. by destruct s. Qed.

Lemma mapped_span0 m from absolute slot n :
  mapped m from (jump_span absolute slot) → n ≤ 8 → mapped m from n.
Proof. intros H Hn. eapply mapped_sub; [exact H|lia|]. unfold jump_span. case_bool; lia. Qed.

(** The parts of a jump lie inside the bytes looked at. *)
Ltac span := cbn [p_address p_width patch_at]; repeat apply mapped_wr;
  first [eassumption
        | eapply mapped_span; [eassumption|lia|]; match goal with H : jump_span _ _ = _ |- _ => rewrite H end; lia
        | eapply mapped_span0; [eassumption|lia]].

Lemma write_jump_Ret s n org from to absolute slot arg :
  let J := jump_bytes from to absolute slot arg in
  mapped (kmem s) from (jump_span absolute slot) →
  (slot ≠ 0 → mapped (kmem s) slot 8 ∧ (slot + 8 ≤ from ∨ from + 8 ≤ slot)) →
  cr0_wp (kcpu s) = false →
  (∀ i p, jump_patches (kmem s) from to absolute slot arg !! i = Some p → heap s !! (n + Z.of_nat i) = Some p) →
  zlen J + zlen org = jump_span absolute slot → rd (kmem s) (from + zlen J) (length org) = Some org →
  write_jump from absolute slot (J ++ org) (Some n) (Some (n + 1))
    (if ctrue slot || absolute then Some (n + 2) else None) s =
  Ret tt (set_mem s (jumped (kmem s) from to absolute slot arg)).
Proof.
  intros J Hf Hs Hw Hh HJ Horg. subst J. pose proof (zlen_nonneg org) as Ho.
  pose proof (Hh 0%nat) as H0. pose proof (Hh 1%nat) as H1. pose proof (Hh 2%nat) as H2. clear Hh.
  rewrite Z.add_0_r in H0. rewrite <- (set_mem_id s) at 1.
  unfold write_jump, jumped, jump_bytes, jump_patches in *. destruct (ctrue slot) eqn:Es; cbn [orb negb] in *.
  - specialize (H0 _ eq_refl). specialize (H1 _ eq_refl). specialize (H2 _ eq_refl).
    assert (jump_span absolute slot = 8) as E8 by (unfold jump_span; by rewrite Es).
    apply ctrue_true in Es as Es'. destruct (Hs Es') as [Hsl Hd].
    erewrite bind_Ret by (eapply p_patch_Ret; [exact H2|done|span]). cbn [p_address p_width p_replaced patch_at].
    case_bool.
    + rewrite store_Ret; [|split; [apply mapped_wr; rewrite zlen_app, HJ; exact Hf|by left]].
      cbn [kmem set_mem]. rewrite wr_pad; [done|].
      rewrite rd_wr_out; [exact Horg|]. change (zlen (le_bytes 8 to)) with 8. rewrite E8 in HJ.
      change (Z.of_nat (length org)) with (zlen org). pose proof (zlen_nonneg (le_bytes 2 LongJumpPrefix ++ le_bytes 4 (u32 (slot - (from + MediumJump))))). lia.
    + erewrite bind_Ret by (eapply p_patch_Ret; [exact H0|done|span]).
      erewrite p_patch_Ret; [|exact H1|done|span].
      cbn [p_address p_width p_replaced patch_at]. by rewrite wr_app.
  - unfold mbind at 1, M_bind at 1. cbn [mret M_ret]. destruct absolute; cbn [negb] in *.
    + assert (jump_span true slot = 16) as E16 by (unfold jump_span; by rewrite Es). specialize (H0 _ eq_refl). specialize (H1 _ eq_refl). specialize (H2 _ eq_refl). case_bool.
      * rewrite store_Ret; [|split; [rewrite zlen_app, HJ; exact Hf|by left]]. by rewrite wr_pad.
      * erewrite bind_Ret by (eapply p_patch_Ret; [exact H2|done|span]).
        erewrite bind_Ret by (eapply p_patch_Ret; [exact H0|done|span]).
        erewrite p_patch_Ret; [|exact H1|done|span].
        cbn [p_address p_width p_replaced patch_at]. do 2 f_equal. rewrite !wr_app.
        rewrite (wr_comm _ (from + 6)) by (rewrite !zlen_le_bytes; lia). rewrite (wr_comm _ (from + 6)) by (rewrite !zlen_le_bytes; lia).
        by rewrite !zlen_le_bytes, <- Z.add_assoc.
    + assert (jump_span false slot = 8) as E8 by (unfold jump_span; by rewrite orb_true_r).
      specialize (H0 _ eq_refl). specialize (H1 _ eq_refl). case_bool.
      * rewrite store_Ret; [|split; [rewrite zlen_app, HJ; exact Hf|by left]]. by rewrite wr_pad.
      * erewrite bind_Ret by (eapply p_patch_Ret; [exact H0|done|span]).
        erewrite p_patch_Ret; [|exact H1|done|span].
        cbn [p_address p_width p_replaced patch_at]. by rewrite wr_app.
Qed.

Lemma add_patches_ne h n l a : a < n → add_patches h n l !! a = h !! a.
Proof.
  revert h n. induction l as [|p l IH]; intros h n Ha; cbn [add_patches]; [done|].
  rewrite IH by lia. by rewrite lookup_insert_ne by lia.
Qed.

Lemma add_patches_lookup h n l (i : nat) p : l !! i = Some p → add_patches h n l !! (n + Z.of_nat i) = Some p.
Proof.
  revert h n i. induction l as [|q l IH]; intros h n [|i] Hi; try done; cbn [add_patches].
  - injection Hi as ->. rewrite add_patches_ne by lia. by rewrite Z.add_0_r, lookup_insert_eq.
  - replace (n + Z.of_nat (S i)) with (n + 1 + Z.of_nat i) by lia. by apply IH.
Qed.

Lemma jump_patches_length m from to absolute slot arg :
  zlen (jump_patches m from to absolute slot arg) = if ctrue slot || absolute then 3 else 2.
Proof. unfold jump_patches. destruct (ctrue slot), absolute; done. Qed.

Lemma deleter_Ret a p s : heap s !! a = Some p →
  deleter (Some a) s = Ret tt (set_heap s (base.delete a (heap s)) (heap_next s)).
Proof. intros H. unfold deleter. by rewrite H. Qed.

(** Freeing what was just allocated. *)
Lemma delete_patches_Ret s h n ps disp :
  (∀ a, is_Some (h !! a) → a < n) → heap s = add_patches h n ps →
  (disp = None ∧ zlen ps = 2 ∨ disp = Some (n + 2) ∧ zlen ps = 3) →
  delete_patches (Some n) (Some (n + 1)) disp s = Ret tt (set_heap s h (heap_next s)).
Proof.
  intros Hh Es Hd.
  assert (∀ a, n ≤ a → h !! a = None) as Hn.
  { intros a Ha. destruct (h !! a) eqn:E1; [|done]. specialize (Hh a ltac:(eauto)). lia. }
  destruct s as [m c t hp hn ki kp e off]. cbn in Es. subst hp. unfold delete_patches.
  destruct ps as [|p [|q ps]]; [unfold zlen in Hd; cbn in Hd; lia..|].
  pose proof (add_patches_lookup h n (p :: q :: ps) 0 p eq_refl) as L0. rewrite Z.add_0_r in L0.
  pose proof (add_patches_lookup h n (p :: q :: ps) 1 q eq_refl) as L1.
  erewrite bind_Ret by (apply (deleter_Ret _ p); exact L0).
  erewrite bind_Ret by (apply (deleter_Ret _ q); cbn [heap set_heap]; rewrite lookup_delete_ne by lia; exact L1).
  destruct Hd as [[-> Hl]|[-> Hl]].
  - destruct ps; [|unfold zlen in Hl; cbn in Hl; lia]. cbn. unfold mret, M_ret, set_heap. cbn. do 2 f_equal.
    apply map_eq; intros a. rewrite !lookup_delete, !lookup_insert. repeat case_decide; try done; by rewrite Hn by lia.
  - destruct ps as [|r [|]]; [unfold zlen in Hl; cbn in Hl; lia| |unfold zlen in Hl; cbn in Hl; lia].
    rewrite (deleter_Ret _ r); [|cbn [heap set_heap]; rewrite !lookup_delete_ne by lia; by apply (add_patches_lookup _ _ _ 2)].
    cbn. unfold set_heap. cbn. do 2 f_equal. replace (n + 1 + 1) with (n + 2) by lia.
    apply map_eq; intros a. rewrite !lookup_delete, !lookup_insert. repeat case_decide; try done; by rewrite Hn by lia.
Qed.

Lemma keep_patches_Ret `{!Granting E} s n disp k :
  (disp = None ∧ k = 2 ∨ disp = Some (n + 2) ∧ k = 3) →
  ∃ t, keep_patches (Some n) (Some (n + 1)) disp s =
  Ret true (mkKst (kmem s) (kcpu s) t (heap s) (heap_next s) (kinfos s) (kpatches s ++ seqZ n k) (code s) (tempExecutableMemoryOff s)).
Proof.
  assert (∀ p s, push_back E p s = Ret true (set_kpatches (tick s) (kpatches s ++ [p]))) as Hp
    by (intros; unfold push_back; by rewrite g_avail).
  assert (seqZ n 2 = [n; n + 1] ∧ seqZ n 3 = [n; n + 1; n + 2]) as [E2 E3]
    by (split; rewrite !seqZ_cons by lia; unfold Z.succ; rewrite <- ?Z.add_assoc; done).
  intros [[-> ->]|[-> ->]]; unfold keep_patches; eexists; rewrite ?E2, ?E3.
  all: erewrite bind_Ret by apply Hp; erewrite bind_Ret by apply Hp.
  - cbn. unfold mret, M_ret. unfold set_kpatches, tick. cbn. rewrite <- app_assoc. done.
  - erewrite bind_Ret by apply Hp. cbn. unfold mret, M_ret, set_kpatches, tick. cbn. by rewrite <- !app_assoc.
Qed.

(** [s] after a jump was installed: memory [m], [t] requests made, and the
    patches [ps] kept for later removal or freed. *)
Definition installed (s : kst) (m : mem) (ps : list patch) (revertible : bool) (t : nat) : kst :=
  mkKst m (off_cpu (kcpu s)) t
        (if revertible then add_patches (heap s) (heap_next s) ps else heap s) (heap_next s + zlen ps)
        (kinfos s) (kpatches s ++ if revertible then seqZ (heap_next s) (zlen ps) else [])
        (code s) (tempExecutableMemoryOff s).

Lemma install_route_Ret `{!Granting E} s from to revertible absolute slot arg tramp :
  install_pre s from absolute slot →
  ∃ t, install_route from to true revertible absolute slot arg tramp s =
    Ret tramp (installed s (jumped (kmem s) from to absolute slot arg)
                         (jump_patches (kmem s) from to absolute slot arg) revertible t).
Proof.
  intros Hpre. pose proof Hpre as [Hlock Hheap Hf Hs].
  destruct (make_jump_Ret s from to absolute slot arg Hpre) as (org & Hspan & Horg & Hmake).
  set (ps := jump_patches _ _ _ _ _ _) in *. set (J := jump_bytes _ _ _ _ _) in *.
  set (disp := if ctrue slot || absolute then Some (heap_next s + 2) else None) in *.
  assert (disp = None ∧ zlen ps = 2 ∨ disp = Some (heap_next s + 2) ∧ zlen ps = 3) as Hdisp.
  { subst ps disp. rewrite jump_patches_length. destruct (ctrue slot || absolute); auto. }
  assert (absolute && is_null disp = false) as Hnn by (subst disp; destruct (ctrue slot), absolute; done).
  unfold install_route. erewrite bind_Ret by exact Hmake. cbn [is_null orb]. rewrite Hnn.
  erewrite bind_Ret by (apply setKernelWriting_on; [exact Hlock|intros; apply g_cr0]). cbn [negb].
  erewrite bind_Ret by
    (apply write_jump_Ret; try done; intros i p Hp; apply add_patches_lookup; exact Hp).
  set (s1 := set_mem _ _).
  assert (kcpu s1 = on_cpu (kcpu s)) as Hon by done.
  destruct revertible.
  - edestruct (keep_patches_Ret (with_cpu s1 (off_cpu (kcpu s)) (ticks s1 + wp_cost (kcpu s))) (heap_next s) disp (zlen ps) Hdisp) as [t Hk].
    exists t. erewrite bind_Ret.
    2:{ erewrite bind_Ret by (eapply setKernelWriting_off; [exact Hon|intros; apply g_cr0]). exact Hk. }
    done.
  - exists (ticks s1 + wp_cost (kcpu s))%nat. erewrite bind_Ret.
    2:{ erewrite bind_Ret by (eapply setKernelWriting_off; [exact Hon|intros; apply g_cr0]). done. }
    cbv beta iota. erewrite bind_Ret by (apply (delete_patches_Ret _ (heap s) _ ps); [exact Hheap|done|exact Hdisp]).
    unfold installed. by rewrite app_nil_r.
Qed.
End patcher.

(** ** Instruction lengths: what they mean *)

(** Whole instructions lie between two addresses. *)
Inductive insn_run (m : mem) : Z → Z → Prop :=
| run_nil a : insn_run m a a
| run_cons a hs b :
    Hde64.hde64_disasm (window m a 32) = Ok hs → ctrue (hs Hde.flags & Hde.F_ERROR) = false →
    1 ≤ hs Hde.len ≤ 15 → insn_run m (a + hs Hde.len) b → insn_run m a b.

Lemma window_length m a (n : nat) : mapped m a (Z.of_nat n) → zlen (window m a n) = Z.of_nat n.
Proof. intros H. apply window_rd, rd_length in H. unfold zlen. by rewrite H. Qed.

Lemma window_bytes m a n : mem_ok m → bytes_ok (window m a n).
Proof.
  intros Hm. revert a. induction n as [|n IH]; intros a; cbn [window]; [constructor|].
  destruct (m !! a) eqn:E1; constructor; [by eapply Hm|apply IH].
Qed.

Lemma quick_loop_Ok m fuel addr min total :
  mem_ok m → 0 ≤ addr → 0 ≤ total → (total < min ∨ total = 0) →
  (Z.to_nat (min - total) < fuel)%nat → addr + (min - total) + 47 ≤ 2 ^ 64 → 0 ≤ min ≤ 2 ^ 32 →
  mapped m addr (Z.max (min - total) 1 + 31) →
  ∃ off, quick_loop fuel m addr min total = Ok off ∧
    (off = 0 ∨ min ≤ off ∧ total < off < Z.max min 1 + 15 ∧ insn_run m addr (addr + (off - total))).
Proof.
  intros Hm. revert addr total. induction fuel as [|fuel IH]; intros addr total Ha Ht Hlt Hf Hw Hmin Hmap; [lia|].
  cbn [quick_loop]. destruct (Hde64.hde64_disasm_safe (window m addr 32)) as (hs & Ehs & Hlen).
  { by apply window_bytes. }
  { rewrite window_length; [lia|]. eapply mapped_sub; [exact Hmap|lia|lia]. }
  rewrite Ehs. cbn. destruct (ctrue (hs Hde.flags & Hde.F_ERROR)) eqn:Ee; [eauto|].
  assert (2 ^ 32 < 2 ^ 64) as H64 by lia.
  rewrite !wrap_small by (unfold in_u; lia). destruct (Z.ltb_spec (total + hs Hde.len) min) as [Hc|Hc].
  - destruct (IH (addr + hs Hde.len) (total + hs Hde.len)) as (off & -> & H); try lia.
    { eapply mapped_sub; [exact Hmap|lia|lia]. }
    exists off. split; [done|]. destruct H as [->|(? & ? & Hr)]; [by left|right]. split_conj; try lia.
    eapply run_cons; [exact Ehs|exact Ee|lia|]. by replace (addr + hs Hde.len + (off - (total + hs Hde.len))) with (addr + (off - total)) in Hr by lia.
  - exists (total + hs Hde.len). split; [done|right]. split_conj; try lia.
    eapply run_cons; [exact Ehs|exact Ee|lia|].
    replace (addr + (total + hs Hde.len - total)) with (addr + hs Hde.len) by lia. constructor.
Qed.
End Patcher.
