(* ===== verification/LiluRoute.v ===== *)
(** * Lilu: what function routing guarantees

    The theorems about [KernelPatcher::routeFunctionInternal],
    [createTrampoline] and [deinit] of [LiluPatcher]: jumps lead where they
    should, trampolines behave as the original function, routes chain, and
    removing the patches gives the kernel its bytes back. *)

From Stdlib Require Import ZArith Lia.
From stdpp Require Import gmap strings.
From S2P Require Import Prelude Hde Hde64 LiluMachine LiluPatcher.

Module Route.
Import Machine Patcher.

Open Scope c_scope.
Open Scope Z_scope.

(** ** Jumps *)

(** Where the processor goes from an instruction [jmp rel32] ([E9]) or
    [jmp [rip + disp32]] ([FF 25]) at [a]; nothing for other instructions. *)
Definition jump_target (m : mem) (a : Z) : option Z :=
  b ← m !! a;
  if b =? 0xE9 then
    l ← rd m (a + 1) 4; Some (u64 (a + 5 + s32 (le_val l)))
  else if b =? 0xFF then
    b' ← m !! (a + 1);
    if b' =? 0x25 then
      l ← rd m (a + 2) 4;
      t ← rd m (u64 (a + 6 + s32 (le_val l))) 8;
      Some (le_val t)
    else None
  else None.

(** The code at [a] does not start with a jump. *)
Definition no_jump (m : mem) (a : Z) : Prop :=
  ∃ b b', rd m a 2 = Some [b; b'] ∧ b ≠ 0xE9 ∧ (b = 0xFF → b' ≠ 0x25).

Lemma rd1 m a b : m !! a = Some b → rd m a 1 = Some [b].
Proof. intros H. cbn. by rewrite H. Qed.

Lemma load_int_Ret s a n l : rd (kmem s) a n = Some l → load_int a n s = Ret (le_val l) s.
Proof. intros H. unfold load_int. by erewrite bind_Ret by (by apply load_Ret). Qed.

Lemma rd2 m a b b' : rd m a 2 = Some [b; b'] ↔ m !! a = Some b ∧ m !! (a + 1) = Some b'.
Proof.
  cbn. destruct (m !! a), (m !! (a + 1)); cbn; naive_solver.
Qed.

(** The two-byte opcode as [readChain] compares it. *)
Lemma long_prefix b b' : in_u 8 b → in_u 8 b' → (le_val [b; b'] =? LongJumpPrefix) = (b =? 0xFF) && (b' =? 0x25).
Proof.
  unfold in_u, LongJumpPrefix. change (2 ^ 8) with 256. intros ??. cbn [le_val]. zcases; try done; exfalso; lia.
Qed.

Lemma readChain_none s from : mem_ok (kmem s) → no_jump (kmem s) from → readChain from s = Ret (0, None) s.
Proof.
  intros Hm (b & b' & Hr & Hb & Hb'). pose proof Hr as [H0 H1]%rd2.
  unfold readChain. erewrite bind_Ret by (by apply load_int_Ret).
  rewrite long_prefix by (by eapply Hm).
  destruct (Z.eqb_spec b 0xFF) as [Eb|_]; cbn [andb].
  - rewrite (proj2 (Z.eqb_neq b' 0x25)) by auto. subst b.
    erewrite bind_Ret by (apply load_int_Ret, rd1; done). done.
  - erewrite bind_Ret by (apply load_int_Ret, rd1; done). cbn [le_val].
    rewrite (proj2 (Z.eqb_neq (b + 256 * 0) SmallJumpPrefix)) by (unfold SmallJumpPrefix; lia). done.
Qed.

(** [readChain] follows jumps as the processor does. *)
Lemma readChain_jump s from t : mem_ok (kmem s) → mapped (kmem s) from 2 → jump_target (kmem s) from = Some t →
  ∃ k, readChain from s = Ret (t, Some k) s ∧ (k = Short ↔ kmem s !! from = Some 0xE9).
Proof.
  intros Hm Hmap Ht. destruct (Hmap from) as [b H0]; [lia|]. destruct (Hmap (from + 1)) as [b' H1]; [lia|].
  revert Ht. unfold jump_target. rewrite H0. cbn [mbind option_bind]. unfold readChain.
  erewrite bind_Ret by (apply load_int_Ret, rd2; done). rewrite long_prefix by (by eapply Hm).
  destruct (Z.eqb_spec b 0xE9) as [Eb|Hb].
  - rewrite Eb in *. cbn [andb Z.eqb Pos.eqb].
    destruct (rd (kmem s) (from + 1) 4) as [l|] eqn:El; intros [= <-]. exists Short.
    erewrite bind_Ret by (apply load_int_Ret, rd1; done). change (le_val [233] =? SmallJumpPrefix) with true.
    cbv iota. erewrite bind_Ret by (apply load_int_Ret; done). done.
  - destruct (Z.eqb_spec b 0xFF) as [Eb|]; [|done]. rewrite Eb in *. rewrite H1. cbn [mbind option_bind].
    destruct (Z.eqb_spec b' 0x25) as [Eb'|]; [|done]. rewrite Eb' in *. cbn [andb].
    destruct (rd (kmem s) (from + 2) 4) as [l|] eqn:El; [|done]. cbn [mbind option_bind].
    destruct (rd (kmem s) (u64 (from + 6 + s32 (le_val l))) 8) as [l'|] eqn:El'; [|done]. intros [= <-].
    eexists. erewrite bind_Ret by (apply load_int_Ret; done).
    erewrite bind_Ret by (apply load_int_Ret; done). split; [done|]. destruct (ctrue _); naive_solver.
Qed.

(** The encodings of a jump from [from] to [to]. *)
Record encodes (from to : Z) (absolute : bool) (slot arg : Z) : Prop := {
  en_from : 0 ≤ from ∧ from + 16 ≤ 2 ^ 64;
  en_to : in_u 64 to;
  en_arg : - 2 ^ 31 ≤ arg < 2 ^ 31;
  en_near : absolute = false → slot = 0 → u64 (to - (from + 5)) = u64 arg;
  en_slot : slot ≠ 0 → in_u 64 slot ∧ (slot + 8 ≤ from ∨ from + 6 ≤ slot) ∧ - 2 ^ 31 ≤ slot - (from + 6) < 2 ^ 31
}.

Lemma s32_u32 x : s32 (u32 x) = s32 x.
Proof. by apply swrap_wrap. Qed.

Lemma rd_cut m a J x n l : a ≤ x → x + Z.of_nat n ≤ a + zlen J → take n (drop (Z.to_nat (x - a)) J) = l →
  rd (wr m a J) x n = Some l.
Proof. intros ?? <-. by apply rd_wr_in. Qed.

Lemma lookup_cut m a J x b : a ≤ x < a + zlen J → J !! Z.to_nat (x - a) = Some b → wr m a J !! x = Some b.
Proof. intros ? <-. by apply lookup_wr_in. Qed.

(** The bytes of the jump are at [from], and its target in the slot. *)
Definition jump_at (m : mem) (from to : Z) (absolute : bool) (slot arg : Z) : Prop :=
  let J := jump_bytes from to absolute slot arg in
  rd m from (length J) = Some J ∧ (slot ≠ 0 → rd m slot 8 = Some (le_bytes 8 to)).

Lemma jump_at_agree m m' from to absolute slot arg :
  jump_at m from to absolute slot arg →
  (∀ x, from ≤ x < from + zlen (jump_bytes from to absolute slot arg) → m' !! x = m !! x) →
  (slot ≠ 0 → ∀ x, slot ≤ x < slot + 8 → m' !! x = m !! x) →
  jump_at m' from to absolute slot arg.
Proof.
  intros [H1 H2] A1 A2. split.
  - by rewrite (rd_agree m m') by exact A1.
  - intros Hs. rewrite (rd_agree m m'); [by apply H2|]. by apply A2.
Qed.

Lemma jump_at_jumped m from to absolute slot arg :
  encodes from to absolute slot arg → jump_at (jumped m from to absolute slot arg) from to absolute slot arg.
Proof.
  intros [_ _ _ _ Hslot]. unfold jumped. split; [apply rd_wr_same|]. intros Hs.
  destruct (Hslot Hs) as (_ & Hd & _). rewrite (proj2 (ctrue_true slot)) by done.
  rewrite rd_wr_out, (rd_cut _ _ _ _ 8 (le_bytes 8 to)); rewrite ?zlen_le_bytes, ?Z.sub_diag; try (lia || done).
  unfold jump_bytes. rewrite (proj2 (ctrue_true slot)), zlen_app, !zlen_le_bytes by done. lia.
Qed.

(** Such bytes lead to [to]. *)
Lemma jump_at_target m from to absolute slot arg :
  encodes from to absolute slot arg → jump_at m from to absolute slot arg → jump_target m from = Some to.
Proof.
  intros [Hf Hto Harg Hnear Hslot] [HJr Hsr]. pose proof (wr_rd _ _ _ _ HJr) as Em. revert Em.
  unfold jump_bytes. destruct (ctrue slot) eqn:Es; [|destruct absolute].
  - apply ctrue_true in Es. destruct (Hslot Es) as (Hs64 & Hd & Hr). specialize (Hsr Es).
    set (J := le_bytes 2 _ ++ _). assert (zlen J = 6) as HJ by done. intros Em. rewrite <- Em in Hsr |- *.
    unfold jump_target.
    rewrite (lookup_cut _ _ J from 0xFF) by (rewrite ?Z.sub_diag; (lia || done)). cbn [mbind option_bind].
    rewrite (lookup_cut _ _ J (from + 1) 0x25) by (replace (from + 1 - from) with 1 by lia; (lia || done)).
    rewrite (rd_cut _ _ J (from + 2) 4 (le_bytes 4 (u32 (slot - (from + MediumJump))))) by (replace (from + 2 - from) with 2 by lia; (lia || done)).
    change ((0xFF =? 0xE9)) with false. cbv iota. cbn [mbind option_bind Z.eqb Pos.eqb].
    rewrite le_val_bytes. change (u32 (slot - (from + MediumJump)) mod 2 ^ (8 * Z.of_nat 4)) with (u32 (u32 (slot - (from + 6)))).
    rewrite wrap_wrap, s32_u32, swrap_small by lia. replace (from + 6 + (slot - (from + 6))) with slot by lia.
    rewrite wrap_small, Hsr by done. cbn [mbind option_bind].
    rewrite le_val_bytes. f_equal. apply Z.mod_small. done.
  - set (J := le_bytes 2 _ ++ _). assert (zlen J = 14) as HJ by done. intros <-. unfold jump_target.
    rewrite (lookup_cut _ _ J from 0xFF) by (rewrite ?Z.sub_diag; (lia || done)). cbn [mbind option_bind].
    rewrite (lookup_cut _ _ J (from + 1) 0x25) by (replace (from + 1 - from) with 1 by lia; (lia || done)).
    rewrite (rd_cut _ _ J (from + 2) 4 (le_bytes 4 0)) by (replace (from + 2 - from) with 2 by lia; (lia || done)).
    change ((0xFF =? 0xE9)) with false. cbv iota. cbn [mbind option_bind Z.eqb Pos.eqb].
    change (s32 (le_val (le_bytes 4 0))) with 0. rewrite Z.add_0_r, wrap_small by (unfold in_u; lia).
    rewrite (rd_cut _ _ J (from + 6) 8 (le_bytes 8 to)) by (replace (from + 6 - from) with 6 by lia; (lia || done)). cbn [mbind option_bind].
    rewrite le_val_bytes. f_equal. apply Z.mod_small. done.
  - apply ctrue_false in Es. set (J := le_bytes 1 _ ++ _). assert (zlen J = 5) as HJ by done. intros <-. unfold jump_target.
    rewrite (lookup_cut _ _ J from 0xE9) by (rewrite ?Z.sub_diag; (lia || done)). cbn [mbind option_bind].
    rewrite (rd_cut _ _ J (from + 1) 4 (le_bytes 4 (u32 arg))) by (replace (from + 1 - from) with 1 by lia; (lia || done)).
    cbn [mbind option_bind Z.eqb Pos.eqb]. f_equal.
    rewrite le_val_bytes. change (u32 arg mod 2 ^ (8 * Z.of_nat 4)) with (u32 (u32 arg)).
    rewrite wrap_wrap, s32_u32, swrap_small by lia. rewrite <- wrap_add_r, <- Hnear, wrap_add_r by (done || lia).
    rewrite wrap_small; [lia|]. by replace (from + 5 + (to - (from + 5))) with to by lia.
Qed.

(** The choice [routeFunctionInternal] makes is an encoding. *)
Lemma encodes_chosen from to jt :
  0 ≤ from ∧ from + 16 ≤ 2 ^ 64 → in_u 64 to →
  let diff := u64 (to - (from + SmallJump)) in
  encodes from to (negb (diff =? u64 (s32 diff)) || jt_eqb jt Long) 0 (s32 diff).
Proof.
  intros Hf Ht diff. split; try done; [by apply (swrap_range 32)|]. intros Ha _.
  apply orb_false_iff in Ha as [Ha _]. zify_bools. done.
Qed.

(** ** Routing *)

Section routes.
  Context (E : env) `{!Granting E}.

(** The encoding [routeFunctionInternal] picks without slots. *)
Definition route_arg (from to : Z) : Z := s32 (u64 (to - (from + SmallJump))).
Definition route_abs (from to : Z) (jt : JumpType) : bool :=
  negb (u64 (to - (from + SmallJump)) =? u64 (route_arg from to)) || jt_eqb jt Long.

(** A function that does not start with a jump, routed without a wrapper. *)
Lemma route_body_direct mk s from to revertible jt info :
  mem_ok (kmem s) → no_jump (kmem s) from → install_pre s from (route_abs from to jt) 0 →
  (jt = Short → route_abs from to jt = false) →
  ∃ t, let a := route_abs from to jt in let g := route_arg from to in
    route_body E mk from to false true revertible jt info 0 s =
    Ret 0 (installed s (jumped (kmem s) from to a 0 g) (jump_patches (kmem s) from to a 0 g) revertible t).
Proof.
  intros Hm Hn Hpre Hshort.
  destruct (install_route_Ret E s from to revertible (route_abs from to jt) 0 (route_arg from to) 0 Hpre) as [t Ht].
  exists t. cbv zeta. unfold route_body. fold (route_arg from to). fold (route_abs from to jt).
  replace (jt_eqb jt Short && route_abs from to jt) with false; cycle 1.
  { unfold jt_eqb. case_bool_decide; [|done]. by rewrite Hshort. }
  cbv iota. erewrite bind_Ret by (by apply readChain_none). exact Ht.
Qed.

Lemma off_cpu_off c : off_cpu (off_cpu c) = off_cpu c.
Proof. done. Qed.

(** What a trampoline relies on: [T] is where it goes. *)
Record tramp_pre (s : kst) (func off : Z) (ops prologue : list Z) (T : Z) : Prop := {
  tp_lock : lock_held (kcpu s) = false;
  tp_heap : heap_ok s;
  tp_mem : mem_ok (kmem s);
  tp_func : 0 ≤ func ∧ func + off < 2 ^ 64;
  tp_off : 0 < off ≤ PAGE_SIZE - LongJump;
  tp_T : T = tempExecutableMemory E + tempExecutableMemoryOff s ∧ 0 ≤ tempExecutableMemoryOff s ∧
         tempExecutableMemoryOff s + (off + LongJump + zlen ops) < TempExecutableMemorySize ∧
         0 ≤ tempExecutableMemory E ∧ tempExecutableMemory E + TempExecutableMemorySize + 16 ≤ 2 ^ 64;
  tp_map : mapped (kmem s) T (zlen ops + off + 16);
  tp_fresh : no_jump (kmem s) (T + zlen ops + off);
  tp_prologue : rd (kmem s) func (Z.to_nat off) = Some prologue;
  tp_apart : func + off ≤ T ∨ T + zlen ops ≤ func;
  tp_ops : bytes_ok ops
}.

(** The memory with the opcodes, the prologue and the jump back. *)
Definition tramp_mem (m : mem) (func off : Z) (ops prologue : list Z) (T : Z) : mem :=
  let m1 := wr (wr m T ops) (T + zlen ops) prologue in
  let p := T + zlen ops + off in
  jumped m1 p (func + off) (route_abs p (func + off) Auto) 0 (route_arg p (func + off)).

Lemma no_jump_agree m m' a : no_jump m a → (∀ x, a ≤ x < a + 2 → m' !! x = m !! x) → no_jump m' a.
Proof. intros (b & b' & H & H1) A. exists b, b'. by rewrite (rd_agree m m') by exact A. Qed.

Lemma createTrampoline_Ret s func min ops off prologue T :
  quick_loop (S (Z.to_nat min)) (kmem s) func min 0 = Ok off →
  tramp_pre s func off ops prologue T →
  ∃ t hn, heap_next s ≤ hn ∧
    createTrampoline E func min ops s =
    Ret T (mkKst (tramp_mem (kmem s) func off ops prologue T) (off_cpu (kcpu s)) t (heap s) hn (kinfos s) (kpatches s)
                 NoError (tempExecutableMemoryOff s + (off + LongJump + zlen ops))).
Proof.
  intros Hq [Hlock Hheap Hm Hfu Hoff (HT & Ht0 & Htemp & He0 & He1) Hmap Hfr Hpro Hap Hops].
  pose proof (zlen_nonneg ops) as Hlo. unfold PAGE_SIZE, LongJump, TempExecutableMemorySize in *.
  assert (zlen prologue = off) as Hlp by (apply rd_length in Hpro; unfold zlen; lia).
  set (m1 := wr (wr (kmem s) T ops) (T + zlen ops) prologue). set (p := T + zlen ops + off).
  set (s1 := with_cpu s (on_cpu (kcpu s)) (ticks s + wp_cost (kcpu s))).
  set (s2 := set_code (set_mem (set_tempOff (with_cpu s1 (off_cpu (kcpu s)) (ticks s1 + wp_cost (kcpu s)))
                      (tempExecutableMemoryOff s + (off + 14 + zlen ops))) m1) NoError).
  destruct (route_body_direct (λ _ _ _, fail Fuel) s2 p (func + off) false Auto None) as [t Hr].
  { repeat apply mem_ok_wr; try done. by eapply rd_bytes. }
  { eapply no_jump_agree; [exact Hfr|]. intros x Hx. cbn [kmem s2 set_mem set_code]. subst m1 p.
    rewrite !lookup_wr_out by lia. done. }
  { split; [done|done| |done]. cbn [kmem s2 set_mem set_code]. subst m1 p. repeat apply mapped_wr.
    eapply mapped_sub; [exact Hmap|lia|]. unfold jump_span. case_bool; lia. }
  { done. }
  exists t, (heap_next s + zlen (jump_patches m1 p (func + off) (route_abs p (func + off) Auto) 0 (route_arg p (func + off)))).
  split; [pose proof (zlen_nonneg (jump_patches m1 p (func + off) (route_abs p (func + off) Auto) 0 (route_arg p (func + off)))); lia|].
  unfold createTrampoline, trampoline_body.
  erewrite bind_Ret by (apply setKernelWriting_on; [exact Hlock|intros; apply g_cr0]). cbn [negb]. fold s1.
  erewrite bind_Ret by (unfold quickInstructionSize; erewrite bind_Ret by done; cbn [kmem s1 with_cpu]; rewrite Hq; done).
  rewrite (proj2 (Z.eqb_neq off 0)), (proj2 (Z.ltb_ge _ off)) by (unfold PAGE_SIZE, LongJump; lia). cbn [orb].
  erewrite bind_Ret by done. change (tempExecutableMemoryOff s1) with (tempExecutableMemoryOff s).
  unfold LongJump, TempExecutableMemorySize. rewrite !wrap_small by (unfold in_u; lia).
  erewrite bind_Ret by done. rewrite (proj2 (Z.leb_gt _ _)) by lia. rewrite <- HT.
  erewrite bind_Ret.
  2:{ instantiate (1 := set_mem (set_tempOff s1 (tempExecutableMemoryOff s + (off + 14 + zlen ops))) (wr (kmem s) T ops)).
      case_bool; [|destruct ops; [done|unfold zlen in *; cbn in *; lia]].
      rewrite store_Ret; [done|]. split; [|by left]. eapply mapped_sub; [exact Hmap|lia|lia]. }
  erewrite bind_Ret.
  2:{ apply load_Ret. cbn [kmem set_mem]. rewrite rd_wr_out; [exact Hpro|lia]. }
  erewrite bind_Ret.
  2:{ apply store_Ret. split; [|by left]. cbn [kmem set_mem]. apply mapped_wr. eapply mapped_sub; [exact Hmap|lia|lia]. }
  erewrite bind_Ret by (eapply setKernelWriting_off; [done|intros; apply g_cr0]).
  erewrite bind_Ret by done. fold p.
  replace (u64 (func + off)) with (func + off) by (symmetry; apply wrap_small; unfold in_u; lia).
  erewrite bind_Ret.
  2:{ exact Hr. }
  erewrite bind_Ret by done.
  cbn [code installed s2 set_code]. rewrite bool_decide_true by done. unfold installed. cbn. by rewrite app_nil_r.
Qed.

(** Code that decodes has a length. *)
Lemma quick_loop_run m a b fuel min total :
  insn_run m a b → 0 ≤ a → b < 2 ^ 64 → 0 ≤ total → min - total ≤ b - a → a < b → total < min ∨ total = 0 →
  (Z.to_nat (min - total) < fuel)%nat → 0 ≤ min ≤ 2 ^ 32 →
  ∃ off, quick_loop fuel m a min total = Ok off ∧ total < off.
Proof.
  intros Hr. revert fuel total.
  induction Hr as [|a hs b Ehs Ee Hlen Hr IH]; intros fuel total Ha Hb Ht Hlt Hab Hmin Hf Hm; [lia|].
  destruct fuel as [|fuel]; [lia|]. cbn [quick_loop]. rewrite Ehs. cbn. rewrite Ee.
  assert (a + hs Hde.len ≤ b) as Hle by (inversion Hr; subst; [lia|]; clear -Hr; induction Hr; lia).
  rewrite !wrap_small by (unfold in_u; lia). destruct (Z.ltb_spec (total + hs Hde.len) min) as [Hc|Hc].
  - destruct (IH fuel (total + hs Hde.len)) as (off & -> & Hoff); try lia. exists off. split; [done|lia].
  - eexists. split; [done|lia].
Qed.

Definition apart (a n b k : Z) : Prop := a + n ≤ b ∨ b + k ≤ a.

(** The pool trampolines are cut from is mapped and unused from its offset on. *)
Record temp_ok (s : kst) : Prop := {
  to_range : 0 < tempExecutableMemory E ∧ tempExecutableMemory E + 4112 ≤ 2 ^ 64;
  to_off : 0 ≤ tempExecutableMemoryOff s;
  to_map : mapped (kmem s) (tempExecutableMemory E) 4112;
  to_zero : ∀ x, tempExecutableMemory E + tempExecutableMemoryOff s ≤ x < tempExecutableMemory E + 4096 →
            kmem s !! x = Some 0
}.

(** The next address slot of the image, if there is one, can hold the target
    of a jump at [from]. *)
Definition slot_ok (s : kst) (k : kinfo) (from org : Z) : Prop :=
  let slot := address_slots k in
  slot ≠ 0 → u64 (slot + 8) ≤ address_slots_end k →
  0 < slot ∧ slot + 8 < 2 ^ 64 ∧ mapped (kmem s) slot 8 ∧ - 2 ^ 31 ≤ slot - (from + 6) < 2 ^ 31 ∧
  apart slot 8 from 64 ∧ apart slot 8 (tempExecutableMemory E) 4112 ∧ apart slot 8 org 8.

(** What routing a function with a wrapper relies on: decodable code that is
    not routed yet, room for the trampoline and for the original's address. *)
Record route_pre (s : kst) (from to org : Z) (info : option nat) : Prop := {
  q_lock : lock_held (kcpu s) = false;
  q_heap : heap_ok s;
  q_mem : mem_ok (kmem s);
  q_from : 0 ≤ from ∧ from + 64 ≤ 2 ^ 64;
  q_map : mapped (kmem s) from 64;
  q_to : in_u 64 to;
  q_code : no_jump (kmem s) from;
  q_insns : ∃ e, insn_run (kmem s) from e ∧ from + 14 ≤ e < 2 ^ 64;
  q_temp : temp_ok s;
  q_room : tempExecutableMemoryOff s + 42 < TempExecutableMemorySize;
  q_org : 0 < org ∧ mapped (kmem s) org 8 ∧ ∀ x, org ≤ x < org + 8 → e_ro E x = false;
  q_apart : apart from 64 (tempExecutableMemory E) 4112 ∧ apart org 8 from 64 ∧ apart org 8 (tempExecutableMemory E) 4112;
  q_slots : ∀ i, info = Some i → ∃ k, kinfos s !! i = Some k ∧ slot_ok s k from org
}.

(** The bytes a route may change. *)
Definition touched (s : kst) (from org slot x : Z) : Prop :=
  from ≤ x < from + 14 ∨ org ≤ x < org + 8 ∨ (slot ≠ 0 ∧ slot ≤ x < slot + 8) ∨
  tempExecutableMemory E + tempExecutableMemoryOff s ≤ x < tempExecutableMemory E + 4096.

(** [from] now leads to [to], and [T] behaves as the original function: it
    holds the function's first instructions and a jump to the rest. *)
Record wrapped (s s' : kst) (from to org T : Z) : Prop := {
  w_jump : jump_target (kmem s') from = Some to;
  w_tramp : ∃ off prologue,
    5 ≤ off ≤ 28 ∧ rd (kmem s) from (Z.to_nat off) = Some prologue ∧ insn_run (kmem s) from (from + off) ∧
    rd (kmem s') T (Z.to_nat off) = Some prologue ∧ jump_target (kmem s') (T + off) = Some (from + off);
  w_org : rd (kmem s') org 8 = Some (le_bytes 8 T);
  w_frame : ∃ slot, ∀ x, ¬ touched s from org slot x → kmem s' !! x = kmem s !! x;
  w_code : code s' = NoError;
  w_cpu : kcpu s' = off_cpu (kcpu s);
  w_temp : temp_ok s'
}.

(** [getAddressSlot] as [routeFunctionInternal] uses it. *)
Definition slot_choice (s : kst) (info : option nat) (absolute : bool) : Z :=
  match info with
  | Some i => if absolute then match kinfos s !! i with
                               | Some k => if ctrue (address_slots k) && (u64 (address_slots k + 8) <=? address_slots_end k)
                                           then address_slots k else 0
                               | None => 0 end else 0
  | None => 0
  end.

Lemma getAddressSlot_Ret s i k absolute :
  kinfos s !! i = Some k →
  ∃ ki, (if absolute : bool then getAddressSlot i else mret 0) s = Ret (slot_choice s (Some i) absolute) (set_kinfos s ki).
Proof.
  intros Hk. unfold getAddressSlot, slot_choice. destruct absolute; [|exists (kinfos s); by destruct s].
  erewrite bind_Ret by done. rewrite Hk. case_bool.
  - eexists. by erewrite bind_Ret by done.
  - exists (kinfos s). by destruct s.
Qed.

Lemma mapped_jumped m from to absolute slot arg b n : mapped m b n → mapped (jumped m from to absolute slot arg) b n.
Proof. intros H. unfold jumped. apply mapped_wr. case_bool; [by apply mapped_wr|done]. Qed.

Lemma mapped_tramp m func off ops prologue T b n : mapped m b n → mapped (tramp_mem m func off ops prologue T) b n.
Proof. intros H. unfold tramp_mem. apply mapped_jumped. by repeat apply mapped_wr. Qed.

(** The jump that is installed fits the bytes replaced by the trampoline. *)
Definition jump_len (absolute : bool) (slot : Z) : Z :=
  if absolute then (if ctrue slot then MediumJump else LongJump) else SmallJump.

Lemma jump_len_range absolute slot : 5 ≤ jump_len absolute slot ≤ 14.
Proof. unfold jump_len, MediumJump, LongJump, SmallJump. repeat case_bool; lia. Qed.

Lemma route_insns s from to org info absolute slot :
  route_pre s from to org info →
  ∃ off prologue, quick_loop (S (Z.to_nat (jump_len absolute slot))) (kmem s) from (jump_len absolute slot) 0 = Ok off ∧
    jump_len absolute slot ≤ off ≤ 28 ∧ insn_run (kmem s) from (from + off) ∧
    rd (kmem s) from (Z.to_nat off) = Some prologue.
Proof.
  intros H. destruct (q_insns _ _ _ _ _ H) as (e & Hr & He). pose proof (q_from _ _ _ _ _ H) as Hf.
  set (n := jump_len absolute slot).
  pose proof (jump_len_range absolute slot : 5 ≤ n ≤ 14) as Hn.
  destruct (quick_loop_run (kmem s) from e (S (Z.to_nat n)) n 0 Hr) as (off & Hq & Ho); try lia.
  destruct (quick_loop_Ok (kmem s) (S (Z.to_nat n)) from n 0) as (off' & Hq' & Ho'); try lia.
  { apply (q_mem _ _ _ _ _ H). }
  { eapply mapped_sub; [apply (q_map _ _ _ _ _ H)|lia|lia]. }
  assert (off' = off) as -> by congruence. destruct Ho' as [->|(? & ? & Hrun)]; [lia|]. rewrite Z.sub_0_r in Hrun.
  destruct (mapped_rd (kmem s) from (Z.to_nat off)) as [l Hl].
  { eapply mapped_sub; [apply (q_map _ _ _ _ _ H)|lia|lia]. }
  exists off, l. split_conj; try done; lia.
Qed.

Lemma route_tramp_pre s from to org info off prologue ki :
  route_pre s from to org info → 5 ≤ off ≤ 28 → rd (kmem s) from (Z.to_nat off) = Some prologue →
  tramp_pre (set_kinfos s ki) from off [] prologue (tempExecutableMemory E + tempExecutableMemoryOff s).
Proof.
  intros H Ho Hp. pose proof (q_temp _ _ _ _ _ H) as [Ht1 Ht2 Ht3 Ht4]. pose proof (q_room _ _ _ _ _ H).
  pose proof (q_from _ _ _ _ _ H). destruct (q_apart _ _ _ _ _ H) as ([Ha|Ha] & _ & _);
  unfold TempExecutableMemorySize, LongJump, PAGE_SIZE in *.
  all: split; cbn [kcpu kmem set_kinfos tempExecutableMemoryOff heap]; change (zlen []) with 0;
    unfold LongJump, TempExecutableMemorySize, PAGE_SIZE; try lia.
  all: try (eapply mapped_sub; [exact Ht3|lia|lia]); try done; try apply (q_lock _ _ _ _ _ H);
    try apply (q_heap _ _ _ _ _ H); try apply (q_mem _ _ _ _ _ H); try (split_conj; (done || lia)).
  all: exists 0, 0; (split; [apply rd2; split; apply Ht4; lia|done]).
Qed.

(** What routing with a wrapper computes. *)
Lemma route_wrapper_Ret s from to org info revertible jt :
  route_pre s from to org info → jt = Auto ∨ jt = Long →
  let absolute := route_abs from to jt in let arg := route_arg from to in
  let slot := slot_choice s info absolute in
  let T := tempExecutableMemory E + tempExecutableMemoryOff s in
  ∃ off prologue t hn ki ps,
    jump_len absolute slot ≤ off ≤ 28 ∧ insn_run (kmem s) from (from + off) ∧
    rd (kmem s) from (Z.to_nat off) = Some prologue ∧
    let m2 := wr (tramp_mem (kmem s) from off [] prologue T) org (le_bytes 8 T) in
    let s2 := mkKst m2 (off_cpu (kcpu s)) t (heap s) hn ki (kpatches s) NoError
                    (tempExecutableMemoryOff s + (off + LongJump + 0)) in
    heap_next s ≤ hn ∧ ps = jump_patches m2 from to absolute slot arg ∧
    ∃ t', routeFunctionInternal E from to true true revertible jt info org s =
      Ret T (installed s2 (jumped m2 from to absolute slot arg) ps revertible t').
Proof.
  intros H Hjt absolute arg slot T.
  destruct (route_insns s from to org info absolute slot H) as (off & prologue & Hq & Ho & Hrun & Hp).
  pose proof (jump_len_range absolute slot) as H5.
  assert (∃ ki, match info with
          | Some i => if absolute && (jt_eqb jt Auto || jt_eqb jt Long) then getAddressSlot i else mret 0
          | None => mret 0 end s = Ret slot (set_kinfos s ki)) as [ki Hslot].
  { replace (jt_eqb jt Auto || jt_eqb jt Long) with true by (destruct Hjt as [-> | ->]; done). rewrite andb_true_r.
    destruct info as [i|]; [|exists (kinfos s); by destruct s].
    destruct (q_slots _ _ _ _ _ H i eq_refl) as (k & Hk & _). by apply (getAddressSlot_Ret s i k). }
  pose proof (route_tramp_pre s from to org info off prologue ki H ltac:(lia) Hp) as Htp. fold T in Htp.
  destruct (createTrampoline_Ret (set_kinfos s ki) from (jump_len absolute slot) [] off prologue T Hq Htp) as (t & hn & Hhn & Htr).
  set (m2 := wr (tramp_mem (kmem s) from off [] prologue T) org (le_bytes 8 T)).
  set (s2 := mkKst m2 (off_cpu (kcpu s)) t (heap s) hn ki (kpatches s) NoError (tempExecutableMemoryOff s + (off + LongJump + 0))).
  destruct (q_org _ _ _ _ _ H) as (Ho0 & Hom & Hro).
  assert (install_pre s2 from absolute slot) as Hpre.
  { split.
    - done.
    - intros a Ha. pose proof (q_heap _ _ _ _ _ H a Ha). cbn in *. lia.
    - cbn [kmem s2]. apply mapped_wr, mapped_tramp. eapply mapped_sub; [apply (q_map _ _ _ _ _ H)|lia|]. unfold jump_span. case_bool; lia.
    - intros Hs. subst slot. unfold slot_choice in Hs |- *. destruct info as [i|]; [|done]. destruct absolute; [|done].
      destruct (q_slots _ _ _ _ _ H i eq_refl) as (k & Hk & Hok). rewrite Hk in Hs |- *.
      revert Hs. case_bool; [|done]. intros Hs. destruct Hok as (? & ? & Hm & ? & [?|?] & ?); [done|done|..].
      all: split; [cbn [kmem s2]; apply mapped_wr, mapped_tramp; exact Hm|lia]. }
  destruct (install_route_Ret E s2 from to revertible absolute slot arg T Hpre) as [t' Hi].
  exists off, prologue, t, hn, ki, (jump_patches m2 from to absolute slot arg). split_conj; try done; try lia.
  cbv zeta. split_conj; [exact Hhn|done|]. exists t'.
  unfold routeFunctionInternal, route_body. fold (route_arg from to). fold (route_abs from to jt). fold absolute arg.
  replace (jt_eqb jt Short && absolute) with false by (destruct Hjt as [-> | ->]; done). cbv iota zeta.
  erewrite bind_Ret by (apply readChain_none; [apply (q_mem _ _ _ _ _ H)|apply (q_code _ _ _ _ _ H)]).
  cbv iota beta. change (ctrue 0) with false. cbv iota.
  assert (T ≠ 0) as HT0.
  { pose proof (q_temp _ _ _ _ _ H) as [? ? ? ?]. lia. }
  erewrite bind_Ret.
  2:{ erewrite bind_Ret by exact Hslot. fold (jump_len absolute slot). erewrite bind_Ret by exact Htr.
      rewrite (proj2 (Z.eqb_neq T 0)) by done. done. }
  cbv beta iota. rewrite (proj2 (ctrue_true org)) by lia.
  erewrite bind_Ret by (apply store_int_Ret; split; [cbn [kmem]; apply mapped_tramp; exact Hom|right; exact Hro]).
  exact Hi.
Qed.

Lemma jump_bytes_length from to absolute slot arg : 5 ≤ zlen (jump_bytes from to absolute slot arg) ≤ 14.
Proof. unfold jump_bytes. repeat case_bool; rewrite ?zlen_app, ?zlen_le_bytes; lia. Qed.

Lemma lookup_jumped_out m from to absolute slot arg x :
  ¬ from ≤ x < from + 14 → (slot ≠ 0 → ¬ slot ≤ x < slot + 8) → jumped m from to absolute slot arg !! x = m !! x.
Proof.
  intros Hx Hs. pose proof (jump_bytes_length from to absolute slot arg). unfold jumped.
  rewrite lookup_wr_out by lia. case_bool; [|done]. rewrite lookup_wr_out; [done|]. rewrite zlen_le_bytes. lia.
Qed.

Lemma route_encodes s from to org info jt :
  route_pre s from to org info →
  let absolute := route_abs from to jt in
  encodes from to absolute (slot_choice s info absolute) (route_arg from to).
Proof.
  intros H absolute. pose proof (q_from _ _ _ _ _ H) as Hf.
  destruct (encodes_chosen from to jt) as [E1 E2 E3 E4 _]; [lia|apply (q_to _ _ _ _ _ H)|].
  split; [exact E1|exact E2|exact E3|intros Ha _; by apply E4|].
  unfold slot_choice. destruct info as [i|]; [|done]. destruct absolute; [|done].
  destruct (q_slots _ _ _ _ _ H i eq_refl) as (k & -> & Hok). case_bool; [|done]. intros Hs.
  destruct Hok as (? & ? & ? & ? & [?|?] & ?); [done|done|..]; split_conj; try (unfold in_u; lia).
Qed.

Lemma tramp_mem_nil m func off prologue T :
  tramp_mem m func off [] prologue T =
  jumped (wr m T prologue) (T + off) (func + off) (route_abs (T + off) (func + off) Auto) 0 (route_arg (T + off) (func + off)).
Proof. unfold tramp_mem. change (zlen (@nil Z)) with 0. by rewrite Z.add_0_r. Qed.

(** Writes away from the trampoline leave it as it is. *)
Lemma tramp_kept m m' func off prologue T :
  0 ≤ func ∧ func + off < 2 ^ 64 → 0 ≤ T ∧ T + off + 16 ≤ 2 ^ 64 → zlen prologue = off →
  (∀ x, T ≤ x < T + off + 14 → m' !! x = tramp_mem m func off [] prologue T !! x) →
  rd m' T (Z.to_nat off) = Some prologue ∧ jump_target m' (T + off) = Some (func + off).
Proof.
  intros Hf HT Hl Ha. pose proof (zlen_nonneg prologue). rewrite tramp_mem_nil in Ha.
  assert (encodes (T + off) (func + off) (route_abs (T + off) (func + off) Auto) 0 (route_arg (T + off) (func + off))) as He
    by (apply encodes_chosen; [lia|unfold in_u; lia]). split.
  - rewrite (rd_agree (wr m T prologue)); [|intros x Hx; rewrite Ha by lia; apply lookup_jumped_out; [lia|done]].
    replace (Z.to_nat off) with (length prologue) by (unfold zlen in Hl; lia). apply rd_wr_same.
  - eapply jump_at_target; [exact He|]. eapply jump_at_agree; [apply jump_at_jumped; exact He| |done].
    intros x Hx. apply Ha.
    pose proof (jump_bytes_length (T + off) (func + off) (route_abs (T + off) (func + off) Auto) 0 (route_arg (T + off) (func + off))). lia.
Qed.

Lemma lookup_tramp_out m func off prologue T x :
  zlen prologue = off → ¬ T ≤ x < T + off + 14 → tramp_mem m func off [] prologue T !! x = m !! x.
Proof.
  intros Hl Hx. rewrite tramp_mem_nil. pose proof (zlen_nonneg prologue).
  rewrite lookup_jumped_out by (done || lia). apply lookup_wr_out. lia.
Qed.

(** The slot a route takes is apart from the other bytes it touches. *)
Lemma slot_apart s from to org info absolute :
  route_pre s from to org info → let slot := slot_choice s info absolute in slot ≠ 0 →
  mapped (kmem s) slot 8 ∧ apart slot 8 from 64 ∧ apart slot 8 (tempExecutableMemory E) 4112 ∧ apart slot 8 org 8.
Proof.
  intros H slot. subst slot. unfold slot_choice. destruct info as [i|]; [|done]. destruct absolute; [|done].
  destruct (q_slots _ _ _ _ _ H i eq_refl) as (k & -> & Hok). case_bool; [|done]. intros Hs.
  destruct Hok as (? & ? & ? & ? & ? & ? & ?); [done|done|]. done.
Qed.

Lemma route_wraps_core s from to org info revertible jt :
  route_pre s from to org info → jt = Auto ∨ jt = Long →
  ∃ T s', routeFunctionInternal E from to true true revertible jt info org s = Ret T s' ∧
    T ≠ 0 ∧ wrapped s s' from to org T.
Proof.
  intros H Hjt. pose proof (route_encodes s from to org info jt H) as He.
  destruct (route_wrapper_Ret s from to org info revertible jt H Hjt)
    as (off & prologue & t & hn & ki & ps & Ho & Hrun & Hp & _ & _ & t' & Hr).
  pose proof (slot_apart s from to org info (route_abs from to jt) H) as Hsl. cbv zeta in Hr, He, Hsl.
  set (absolute := route_abs from to jt) in *. set (arg := route_arg from to) in *.
  set (slot := slot_choice s info absolute) in *. set (T := tempExecutableMemory E + tempExecutableMemoryOff s) in *.
  pose proof (q_temp _ _ _ _ _ H) as [Ht1 Ht2 Ht3 Ht4]. pose proof (q_room _ _ _ _ _ H) as Hroom.
  pose proof (q_from _ _ _ _ _ H) as Hf. destruct (q_apart _ _ _ _ _ H) as (A1 & A2 & A3).
  unfold TempExecutableMemorySize, apart in *.
  pose proof (jump_len_range absolute slot) as H5.
  assert (zlen prologue = off) as Hlp by (apply rd_length in Hp; unfold zlen; lia).
  set (tm := tramp_mem (kmem s) from off [] prologue T) in *.
  set (m3 := jumped (wr tm org (le_bytes 8 T)) from to absolute slot arg) in *.
  assert (∀ x, tempExecutableMemory E ≤ x < tempExecutableMemory E + 4112 → m3 !! x = tm !! x) as Hm3.
  { intros x Hx. subst m3. rewrite lookup_jumped_out by lia. apply lookup_wr_out. rewrite zlen_le_bytes. lia. }
  exists T. eexists. split; [exact Hr|]. split; [subst T; lia|]. split; cbn [kmem kcpu code installed].
  - eapply jump_at_target; [exact He|]. by apply jump_at_jumped.
  - destruct (tramp_kept (kmem s) m3 from off prologue T) as [K1 K2];
      [lia|subst T; lia|done|intros x Hx; apply Hm3; subst T; lia|].
    exists off, prologue. split_conj; try done; lia.
  - subst m3. rewrite (rd_agree (wr tm org (le_bytes 8 T))).
    + replace 8%nat with (length (le_bytes 8 T)) at 1 by apply length_le_bytes. apply rd_wr_same.
    + intros x Hx. apply lookup_jumped_out; lia.
  - exists slot. intros x Hx. unfold touched in Hx. subst m3. rewrite lookup_jumped_out by lia.
    rewrite lookup_wr_out by (rewrite zlen_le_bytes; lia). apply lookup_tramp_out; [done|]. subst T. lia.
  - done.
  - done.
  - split; cbn [kmem tempExecutableMemoryOff installed]; unfold LongJump; try lia.
    + subst m3. apply mapped_jumped, mapped_wr, mapped_tramp, Ht3.
    + intros x Hx. rewrite Hm3 by lia. subst tm. rewrite lookup_tramp_out by (done || (subst T; lia)). apply Ht4. lia.
Qed.


(** ** Removing routes *)

Definition covers (p : patch) (x : Z) : Prop := p_address p ≤ x < p_address p + Z.of_nat (p_width p).

(** The patch holds what memory [m0] has at its address. *)
Definition holds (m0 : mem) (p : patch) : Prop :=
  ∃ l, rd m0 (p_address p) (p_width p) = Some l ∧ p_original p = le_val l.

(** Restoring the kept patches gives back [m0], except at the addresses [V]
    that are not the patcher's to restore. *)
Record undo (m0 : mem) (V : Z → Prop) (s : kst) : Prop := {
  u_bytes : mem_ok m0;
  u_nodup : NoDup (kpatches s);
  u_holds : ∀ a, a ∈ kpatches s → ∃ p, heap s !! a = Some p ∧ holds m0 p ∧ mapped (kmem s) (p_address p) (Z.of_nat (p_width p));
  u_rest : ∀ x, ¬ V x → kmem s !! x = m0 !! x ∨ ∃ a p, a ∈ kpatches s ∧ heap s !! a = Some p ∧ covers p x
}.

Lemma p_restore_Ret s a p m :
  heap s !! a = Some p → cr0_wp (kcpu s) = false → mapped m (p_address p) (Z.of_nat (p_width p)) →
  p_restore E (Some a) (set_mem s m) = Ret tt (set_mem s (wr m (p_address p) (le_bytes (p_width p) (p_original p)))).
Proof.
  intros Hp Hw Hm. unfold p_restore. erewrite bind_Ret by (cbn; by rewrite Hp).
  unfold writeType. rewrite store_int_Ret; [done|]. split; [done|by left].
Qed.

Lemma holds_bytes m0 p : mem_ok m0 → holds m0 p → rd m0 (p_address p) (p_width p) = Some (le_bytes (p_width p) (p_original p)).
Proof.
  intros Hm (l & Hl & ->). rewrite <- (rd_length _ _ _ _ Hl) at 2. rewrite le_bytes_val; [done|].
  by eapply rd_bytes.
Qed.

Lemma restore_all_Ret m0 s l m :
  mem_ok m0 → cr0_wp (kcpu s) = false →
  (∀ a, a ∈ l → ∃ p, heap s !! a = Some p ∧ holds m0 p ∧ mapped m (p_address p) (Z.of_nat (p_width p))) →
  ∃ m', restore_all E l (set_mem s m) = Ret tt (set_mem s m') ∧
    (∀ b n, mapped m b n → mapped m' b n) ∧
    ∀ x, m' !! x = m !! x ∧ (∀ a p, a ∈ l → heap s !! a = Some p → ¬ covers p x) ∨ m' !! x = m0 !! x.
Proof.
  intros Hm0 Hw. revert m. induction l as [|a l IH]; intros m Hl; cbn [restore_all].
  - exists m. split_conj; [done|done|]. intros x. left. split; [done|]. intros a p Ha. by apply not_elem_of_nil in Ha.
  - destruct (Hl a) as (p & Hp & Hh & Hmp); [left|]. set (m1 := wr m (p_address p) (le_bytes (p_width p) (p_original p))).
    destruct (IH m1) as (m' & Hr & Hmap & Hx).
    { intros b Hb. destruct (Hl b) as (q & Hq & Hhq & Hmq); [by right|]. exists q. split_conj; try done. by apply mapped_wr. }
    exists m'. split_conj.
    + erewrite bind_Ret by (eapply p_restore_Ret; done). exact Hr.
    + intros b n Hb. by apply Hmap, mapped_wr.
    + intros x. destruct (Hx x) as [[-> Hn]|Hx']; [|by right]. subst m1. rewrite lookup_wr, zlen_le_bytes. case_bool.
      * right. pose proof (holds_bytes m0 p Hm0 Hh) as [_ Hb]%rd_Some. rewrite <- Hb by lia. f_equal. lia.
      * left. split; [done|]. intros b q Hb Hq. apply elem_of_cons in Hb as [->|Hb]; [|by eapply Hn].
        assert (q = p) as -> by congruence. unfold covers. apply andb_false_iff in E0. destruct E0; zify_bools; lia.
Qed.

Lemma delete_all_Ret s l :
  NoDup l → (∀ a, a ∈ l → is_Some (heap s !! a)) → ∃ h, delete_all l s = Ret tt (set_heap s h (heap_next s)).
Proof.
  intros Hn. revert s. induction Hn as [|a l Ha Hn IH]; intros s Hl; cbn [delete_all].
  - exists (heap s). by destruct s.
  - destruct (Hl a) as [p Hp]; [left|]. erewrite bind_Ret by (by eapply deleter_Ret).
    destruct (IH (set_heap s (base.delete a (heap s)) (heap_next s))) as [h Hh]; [|exists h; by rewrite Hh].
    intros b Hb. cbn. rewrite lookup_delete_ne by (intros ->; done). apply Hl. by right.
Qed.

Lemma deinit_restores m0 V s :
  undo m0 V s → lock_held (kcpu s) = false → kinfos s ≠ [] →
  ∃ s', deinit E s = Ret tt s' ∧ kcpu s' = off_cpu (kcpu s) ∧ kpatches s' = [] ∧
    ∀ x, ¬ V x → kmem s' !! x = m0 !! x.
Proof.
  intros [Hm0 Hnd Hh Hr] Hl Hk. unfold deinit. erewrite bind_Ret by done.
  rewrite (proj2 (Nat.ltb_lt 0 (length (kinfos s)))) by (destruct (kinfos s); [done|cbn; lia]).
  set (s1 := with_cpu s (on_cpu (kcpu s)) (ticks s + wp_cost (kcpu s))).
  destruct (restore_all_Ret m0 s1 (kpatches s) (kmem s) Hm0) as (m' & Hres & _ & Hx); [done|exact Hh|].
  assert (set_mem s1 (kmem s) = s1) as E1 by by destruct s.
  destruct (delete_all_Ret (with_cpu (set_mem s1 m') (off_cpu (kcpu s)) (ticks s1 + wp_cost (kcpu s))) (kpatches s) Hnd) as [h Hd].
  { intros a Ha. destruct (Hh a Ha) as (p & Hp & _). exists p. exact Hp. }
  eexists. split.
  - erewrite bind_Ret.
    2:{ erewrite bind_Ret by (apply setKernelWriting_on; [done|intros; apply g_cr0]). fold s1. cbv iota.
        erewrite bind_Ret by (rewrite <- E1; exact Hres).
        erewrite bind_Ret by (eapply setKernelWriting_off; [done|intros; apply g_cr0]). done. }
    erewrite bind_Ret by exact Hd. done.
  - split_conj; [done|done|]. intros x HV. cbn [kmem set_kinfos set_kpatches set_heap with_cpu set_mem].
    destruct (Hx x) as [[-> Hn]|Hx']; [|done]. destruct (Hr x HV) as [?|(a & p & Ha & Hp & Hc)]; [done|].
    by destruct (Hn a p Ha Hp).
Qed.

(** The patches of a jump cover what it overwrites and hold what was there. *)
Lemma jump_patches_cover m from to absolute slot arg x :
  from ≤ x < from + zlen (jump_bytes from to absolute slot arg) ∨ (slot ≠ 0 ∧ slot ≤ x < slot + 8) →
  ∃ p, p ∈ jump_patches m from to absolute slot arg ∧ covers p x.
Proof.
  unfold jump_bytes, jump_patches, covers. rewrite <- (ctrue_true slot). intros Hx.
  destruct (ctrue slot); [|destruct Hx as [Hx|[? _]]; [|done]; destruct absolute];
    rewrite ?zlen_app, ?zlen_le_bytes in Hx.
  - destruct Hx as [Hx|[_ Hx]]; [destruct (Z.le_gt_cases (from + 2) x)|];
      [exists (patch_at m 4 (from + 2) (u32 (slot - (from + MediumJump))))|exists (patch_at m 2 from LongJumpPrefix)|exists (patch_at m 8 slot to)];
      cbn; (split; [set_solver|lia]).
  - destruct (Z.le_gt_cases (from + 6) x); [|destruct (Z.le_gt_cases (from + 2) x)];
      [exists (patch_at m 8 (from + 6) to)|exists (patch_at m 4 (from + 2) 0)|exists (patch_at m 2 from LongJumpPrefix)];
      cbn; (split; [set_solver|lia]).
  - destruct (Z.le_gt_cases (from + 1) x);
      [exists (patch_at m 4 (from + 1) (u32 arg))|exists (patch_at m 1 from SmallJumpPrefix)]; cbn; (split; [set_solver|lia]).
Qed.

Lemma jump_patches_hold m m0 from to absolute slot arg p :
  (∀ x, from ≤ x < from + 14 ∨ (slot ≠ 0 ∧ slot ≤ x < slot + 8) → m !! x = m0 !! x ∧ is_Some (m !! x)) →
  p ∈ jump_patches m from to absolute slot arg →
  holds m0 p ∧ mapped m (p_address p) (Z.of_nat (p_width p)).
Proof.
  intros Ha Hp.
  assert (∀ w a v, (∀ x, a ≤ x < a + Z.of_nat w → from ≤ x < from + 14 ∨ (slot ≠ 0 ∧ slot ≤ x < slot + 8)) →
          holds m0 (patch_at m w a v) ∧ mapped m a (Z.of_nat w)) as Hw.
  { intros w a v Hin. assert (mapped m a (Z.of_nat w)) as Hmap by (intros x Hx; by apply Ha, Hin). split; [|done].
    destruct (mapped_rd _ _ _ Hmap) as [l Hl]. exists l. cbn. rewrite Hl. split; [|done].
    rewrite <- Hl. symmetry. apply rd_agree. intros x Hx. by apply Ha, Hin. }
  unfold jump_patches in Hp. destruct (ctrue slot) eqn:Es; [apply ctrue_true in Es|destruct absolute]; in_cases Hp; subst p;
    apply Hw; cbn [p_address p_width patch_at]; intros x Hx; lia.
Qed.

Lemma elem_add_patches h n l p : p ∈ l → ∃ a, a ∈ seqZ n (zlen l) ∧ add_patches h n l !! a = Some p.
Proof.
  intros [i Hi]%list_elem_of_lookup. exists (n + Z.of_nat i). split; [|by apply add_patches_lookup].
  apply lookup_lt_Some in Hi. apply elem_of_seqZ. unfold zlen. lia.
Qed.

Lemma add_patches_elem h n l a : a ∈ seqZ n (zlen l) → ∃ p, p ∈ l ∧ add_patches h n l !! a = Some p.
Proof.
  intros Ha%elem_of_seqZ. unfold zlen in Ha. destruct (lookup_lt_is_Some_2 l (Z.to_nat (a - n))) as [p Hp]; [lia|].
  exists p. split; [by eapply list_elem_of_lookup_2|]. apply (add_patches_lookup h n) in Hp.
  by replace (n + Z.of_nat (Z.to_nat (a - n))) with a in Hp by lia.
Qed.

(** Keeping the patches of a jump keeps the record complete. *)
Lemma installed_undo m0 V s s2 from to absolute slot arg t :
  undo m0 V s → heap_ok s →
  heap s2 = heap s → kpatches s2 = kpatches s → heap_next s ≤ heap_next s2 →
  (∀ b n, mapped (kmem s) b n → mapped (kmem s2) b n) →
  (∀ x, ¬ V x → kmem s2 !! x = kmem s !! x) →
  (∀ x, from ≤ x < from + 14 ∨ (slot ≠ 0 ∧ slot ≤ x < slot + 8) →
     ¬ V x ∧ is_Some (kmem s !! x) ∧ ∀ a p, a ∈ kpatches s → heap s !! a = Some p → ¬ covers p x) →
  undo m0 V (installed s2 (jumped (kmem s2) from to absolute slot arg)
                          (jump_patches (kmem s2) from to absolute slot arg) true t).
Proof.
  intros [Hm0 Hnd Hh Hr] Hok Eh Ek Hn Hmap Hag Hnew.
  set (ps := jump_patches (kmem s2) from to absolute slot arg).
  assert (∀ a, a ∈ kpatches s → a < heap_next s2) as Hlt.
  { intros a Ha. destruct (Hh a Ha) as (p & Hp & _). specialize (Hok a ltac:(eauto)). lia. }
  assert (∀ p, p ∈ ps → holds m0 p ∧ mapped (kmem s2) (p_address p) (Z.of_nat (p_width p))) as Hps.
  { intros p. apply jump_patches_hold. intros x Hx. destruct (Hnew x Hx) as (HV & Hsome & Hcov).
    rewrite Hag by done. split; [|done]. destruct (Hr x HV) as [?|(a & q & Ha & Hq & Hc)]; [done|by destruct (Hcov a q Ha Hq)]. }
  split; cbn [kmem kpatches heap installed]; rewrite ?Ek, ?Eh.
  - done.
  - apply NoDup_app. split_conj; [done| |apply NoDup_seqZ]. intros a Ha Hs%elem_of_seqZ. specialize (Hlt a Ha). lia.
  - intros a [Ha|Ha]%elem_of_app.
    + destruct (Hh a Ha) as (p & Hp & Hhp & Hmp). exists p. rewrite add_patches_ne by auto.
      split_conj; [done|done|by apply mapped_jumped, Hmap].
    + destruct (add_patches_elem (heap s) _ _ _ Ha) as (p & Hp & Ea). exists p.
      destruct (Hps p Hp). split_conj; [done|done|by apply mapped_jumped].
  - intros x HV. destruct (Hr x HV) as [Hx|(a & p & Ha & Hp & Hc)].
    + destruct (decide (from ≤ x < from + zlen (jump_bytes from to absolute slot arg) ∨ (slot ≠ 0 ∧ slot ≤ x < slot + 8))) as [Hin|Hout].
      * right. destruct (jump_patches_cover (kmem s2) _ _ _ _ _ _ Hin) as (p & Hp & Hc).
        destruct (elem_add_patches (heap s) (heap_next s2) ps p Hp) as (a & Ha & Ea).
        exists a, p. split_conj; [|done|done]. apply elem_of_app. by right.
      * left. unfold jumped. rewrite lookup_wr_out by lia. rewrite <- Hx, <- Hag by done. case_bool; [|done].
        rewrite lookup_wr_out; [done|]. rewrite zlen_le_bytes. lia.
    + right. exists a, p. rewrite add_patches_ne by auto. split_conj; [|done|done]. apply elem_of_app. by left.
Qed.

Lemma route_revertible m0 V s from to org info jt :
  route_pre s from to org info → jt = Auto ∨ jt = Long → undo m0 V s →
  (∀ x, org ≤ x < org + 8 ∨ tempExecutableMemory E ≤ x < tempExecutableMemory E + 4096 → V x) →
  (∀ x, from ≤ x < from + 14 ∨ (slot_choice s info (route_abs from to jt) ≠ 0 ∧
          slot_choice s info (route_abs from to jt) ≤ x < slot_choice s info (route_abs from to jt) + 8) →
     ¬ V x ∧ ∀ a p, a ∈ kpatches s → heap s !! a = Some p → ¬ covers p x) →
  runs (routeFunctionInternal E from to true true true jt info org) s (λ _ s', undo m0 V s').
Proof.
  intros H Hjt Hu HV Hfree.
  destruct (route_wrapper_Ret s from to org info true jt H Hjt)
    as (off & prologue & t & hn & ki & ps & Ho & Hrun & Hp & Hhn & Eps & t' & Hr).
  pose proof (jump_len_range (route_abs from to jt) (slot_choice s info (route_abs from to jt))).
  unfold runs. rewrite Hr. rewrite Eps. apply (installed_undo m0 V s); try done.
  - apply (q_heap _ _ _ _ _ H).
  - intros b n Hb. by apply mapped_wr, mapped_tramp.
  - intros x Hx. cbn [kmem]. rewrite lookup_wr_out.
    + apply lookup_tramp_out; [apply rd_length in Hp; unfold zlen; lia|].
      intros Hin. apply Hx, HV. right. pose proof (q_temp _ _ _ _ _ H) as [? ? ? ?]. pose proof (q_room _ _ _ _ _ H).
      unfold TempExecutableMemorySize in *. lia.
    + rewrite zlen_le_bytes. destruct (decide (org ≤ x < org + 8)); [|lia]. destruct Hx. apply HV. by left.
  - intros x Hx. destruct (Hfree x Hx) as [? ?]. split_conj; try done.
    destruct Hx as [Hx|[Hs Hx]]; [apply (q_map _ _ _ _ _ H); lia|].
    destruct (slot_apart s from to org info _ H Hs) as (Hm & _). apply Hm. lia.
Qed.

(** Successive routes of functions that are not routed yet; [V] holds the
    cells for the originals and the trampoline pool. *)
Inductive route_steps (V : Z → Prop) (s0 : kst) : kst → Prop :=
| rs_start : route_steps V s0 s0
| rs_step s from to org info jt T s' :
    route_steps V s0 s →
    route_pre s from to org info → jt = Auto ∨ jt = Long →
    (∀ x, org ≤ x < org + 8 ∨ tempExecutableMemory E ≤ x < tempExecutableMemory E + 4096 → V x) →
    (let slot := slot_choice s info (route_abs from to jt) in
     ∀ x, from ≤ x < from + 14 ∨ (slot ≠ 0 ∧ slot ≤ x < slot + 8) →
     ¬ V x ∧ ∀ a p, a ∈ kpatches s → heap s !! a = Some p → ¬ covers p x) →
    routeFunctionInternal E from to true true true jt info org s = Ret T s' →
    route_steps V s0 s'.

Lemma route_steps_undo V s0 s :
  mem_ok (kmem s0) → kpatches s0 = [] → lock_held (kcpu s0) = false → route_steps V s0 s →
  undo (kmem s0) V s ∧ lock_held (kcpu s) = false.
Proof.
  intros Hm Hk Hl. induction 1 as [|s from to org info jt T s' _ [Hu _] H Hjt HV Hfree Hr].
  - split; [|done]. split; rewrite ?Hk; [done|constructor| |by left]. intros a Ha. by apply not_elem_of_nil in Ha.
  - pose proof (route_revertible (kmem s0) V s from to org info jt H Hjt Hu HV Hfree) as Hu'.
    unfold runs in Hu'. rewrite Hr in Hu'. split; [done|].
    destruct (route_wrapper_Ret s from to org info true jt H Hjt) as (? & ? & ? & ? & ? & ? & _ & _ & _ & _ & _ & ? & E1).
    rewrite Hr in E1. by injection E1 as -> ->.
Qed.

(** C13: after any number of revertible routes, [deinit] gives every byte of
    the kernel its first value back, outside the cells that received the
    original functions and the trampoline pool. *)
Theorem routes_deinit_restores V s0 s :
  mem_ok (kmem s0) → kpatches s0 = [] → lock_held (kcpu s0) = false →
  route_steps V s0 s → kinfos s ≠ [] →
  ∃ s', deinit E s = Ret tt s' ∧ kpatches s' = [] ∧ ∀ x, ¬ V x → kmem s' !! x = kmem s0 !! x.
Proof.
  intros Hm Hk Hl Hs Hki. destruct (route_steps_undo V s0 s Hm Hk Hl Hs) as [Hu Hlock].
  destruct (deinit_restores (kmem s0) V s Hu Hlock Hki) as (s' & Hd & _ & Hp & Hx). eauto.
Qed.

(** ** Chained routes *)

(** What re-routing relies on: a long or a slotted jump is there, and for the
    latter the image has another slot. *)
Record chain_pre (s : kst) (from to org prev : Z) (info : option nat) (slot : Z) : Prop := {
  c_lock : lock_held (kcpu s) = false;
  c_heap : heap_ok s;
  c_mem : mem_ok (kmem s);
  c_from : 0 ≤ from ∧ from + 16 ≤ 2 ^ 64;
  c_map : mapped (kmem s) from 16;
  c_to : in_u 64 to;
  c_jump : jump_target (kmem s) from = Some prev ∧ kmem s !! from = Some 0xFF ∧ prev ≠ 0;
  c_org : 0 < org ∧ mapped (kmem s) org 8 ∧ (∀ x, org ≤ x < org + 8 → e_ro E x = false) ∧ apart org 8 from 16;
  c_slot : readChain from s = Ret (prev, Some Long) s ∧ slot = 0 ∨
    readChain from s = Ret (prev, Some Medium) s ∧
    ∃ i k, info = Some i ∧ kinfos s !! i = Some k ∧ slot = address_slots k ∧ u64 (slot + 8) ≤ address_slots_end k ∧
      0 < slot ∧ slot + 8 < 2 ^ 64 ∧ mapped (kmem s) slot 8 ∧ - 2 ^ 31 ≤ slot - (from + 6) < 2 ^ 31 ∧
      apart slot 8 from 16 ∧ apart slot 8 org 8
}.

Lemma chain_encodes s from to org prev info slot jt :
  chain_pre s from to org prev info slot →
  encodes from to (route_abs from to jt) slot (route_arg from to).
Proof.
  intros H. destruct (encodes_chosen from to jt) as [E1 E2 E3 E4 _]; [apply (c_from _ _ _ _ _ _ _ H)|apply (c_to _ _ _ _ _ _ _ H)|].
  split; [exact E1|exact E2|exact E3|intros Ha _; by apply E4|].
  intros Hs. destruct (c_slot _ _ _ _ _ _ _ H) as [[_ ->]|(_ & i & k & _ & _ & _ & _ & ? & ? & _ & ? & [?|?] & _)]; [done|..];
    split_conj; try (unfold in_u; lia).
Qed.

(** The choices before a chained jump is installed. *)
Lemma chain_choice s from to org prev info slot jt :
  chain_pre s from to org prev info slot → jt ≠ Short →
  ∃ ki, routeFunctionInternal E from to true true true jt info org s =
    (store_int E org 8 prev;;
     install_route E from to true false (route_abs from to jt) slot (route_arg from to) prev) (set_kinfos s ki).
Proof.
  intros H Hjt. destruct (c_jump _ _ _ _ _ _ _ H) as (_ & _ & Hp0). destruct (c_org _ _ _ _ _ _ _ H) as (Ho & _).
  unfold routeFunctionInternal, route_body. fold (route_arg from to). fold (route_abs from to jt).
  replace (jt_eqb jt Short) with false by (symmetry; by apply bool_decide_eq_false). cbn [andb]. cbv zeta.
  rewrite (proj2 (ctrue_true org)) by lia.
  destruct (c_slot _ _ _ _ _ _ _ H) as [[Hr ->]|(Hr & i & k & -> & Hk & -> & Hend & Hs & _)].
  - exists (kinfos s). erewrite bind_Ret by exact Hr. cbv beta iota. rewrite (proj2 (ctrue_true prev)) by done.
    erewrite bind_Ret by done. by destruct s.
  - eexists. erewrite bind_Ret by exact Hr. cbv beta iota. rewrite (proj2 (ctrue_true prev)) by done. cbn [orb].
    erewrite bind_Ret.
    2:{ rewrite (bool_decide_false (Some Medium = Some Short)), (bool_decide_true (Some Medium = Some Medium)) by done.
        cbn [orb]. cbv iota. erewrite bind_Ret.
        2:{ unfold getAddressSlot. erewrite bind_Ret by done. rewrite Hk. cbv zeta.
            rewrite (proj2 (ctrue_true (address_slots k))), (proj2 (Z.leb_le _ _)) by (done || lia). cbn [andb].
            by erewrite bind_Ret by done. }
        rewrite (proj2 (Z.eqb_neq (address_slots k) 0)) by lia. done. }
    done.
Qed.


(** ** Failures *)

(** The decoder rejects the first instruction at [a]. *)
Definition undecodable (m : mem) (a : Z) : Prop :=
  ∃ hs, Hde64.hde64_disasm (window m a 32) = Ok hs ∧ ctrue (hs Hde.flags & Hde.F_ERROR) = true.

Lemma quick_undecodable m a n min : undecodable m a → quick_loop (S n) m a min 0 = Ok 0.
Proof. intros (hs & Hh & He). cbn [quick_loop]. rewrite Hh. cbn. by rewrite He. Qed.

Lemma createTrampoline_undecodable s func min ops :
  lock_held (kcpu s) = false → undecodable (kmem s) func →
  ∃ t, createTrampoline E func min ops s = Ret 0 (set_code (with_cpu s (off_cpu (kcpu s)) t) DisasmFailure).
Proof.
  intros Hl Hu. unfold createTrampoline, trampoline_body. eexists.
  erewrite bind_Ret by (apply setKernelWriting_on; [exact Hl|intros; apply g_cr0]). cbn [negb].
  erewrite bind_Ret by (unfold quickInstructionSize; erewrite bind_Ret by done; cbn [kmem with_cpu]; rewrite quick_undecodable by done; done).
  cbn [Z.eqb orb]. erewrite bind_Ret by (eapply setKernelWriting_off; [done|intros; apply g_cr0]). done.
Qed.

Lemma route_undecodable s from to org info jt :
  lock_held (kcpu s) = false → mem_ok (kmem s) → no_jump (kmem s) from → undecodable (kmem s) from →
  jt = Auto ∨ jt = Long → (∀ i, info = Some i → is_Some (kinfos s !! i)) →
  ∃ t ki, routeFunctionInternal E from to true true true jt info org s =
    Ret EINVAL (set_code (with_cpu (set_kinfos s ki) (off_cpu (kcpu s)) t) DisasmFailure).
Proof.
  intros Hl Hm Hn Hu Hjt Hi.
  set (absolute := route_abs from to jt). set (slot := slot_choice s info absolute).
  assert (∃ ki, match info with
          | Some i => if absolute && (jt_eqb jt Auto || jt_eqb jt Long) then getAddressSlot i else mret 0
          | None => mret 0 end s = Ret slot (set_kinfos s ki)) as [ki Hslot].
  { replace (jt_eqb jt Auto || jt_eqb jt Long) with true by (destruct Hjt as [-> | ->]; done). rewrite andb_true_r.
    destruct info as [i|]; [|exists (kinfos s); by destruct s].
    destruct (Hi i eq_refl) as [k Hk]. by apply (getAddressSlot_Ret s i k). }
  destruct (createTrampoline_undecodable (set_kinfos s ki) from (jump_len absolute slot) [] Hl Hu) as [t Ht].
  exists t, ki. unfold routeFunctionInternal, route_body. fold (route_arg from to). fold (route_abs from to jt). fold absolute.
  replace (jt_eqb jt Short && absolute) with false by (destruct Hjt as [-> | ->]; done). cbv iota zeta.
  erewrite bind_Ret by (by apply readChain_none). cbv iota beta. change (ctrue 0) with false. cbv iota.
  erewrite bind_Ret.
  2:{ erewrite bind_Ret by exact Hslot. fold (jump_len absolute slot). erewrite bind_Ret by exact Ht. done. }
  done.
Qed.

Lemma solveSymbolIn_Ret s id k sym start size crash :
  kinfos s !! id = Some k → k_symbols k sym ≠ 0 → 0 ≤ start → start ≤ k_symbols k sym < start + size → start + size < 2 ^ 64 →
  solveSymbolIn id sym start size crash s = Ret (k_symbols k sym) s.
Proof.
  intros Hk H0 Hst Hin Hend. unfold solveSymbolIn, solveSymbol.
  erewrite bind_Ret by (erewrite bind_Ret by done; rewrite Hk; cbv zeta; rewrite (proj2 (ctrue_true _)) by done; done).
  rewrite (proj2 (ctrue_true _)) by done. rewrite wrap_small by (unfold in_u; lia).
  by rewrite (proj2 (Z.leb_le _ _)), (proj2 (Z.ltb_lt _ _)) by lia.
Qed.

Lemma solve_one s id k sym from0 to org start size force :
  kinfos s !! id = Some k → k_symbols k sym ≠ 0 → 0 ≤ start → 0 < size → start ≤ k_symbols k sym < start + size →
  start + size < 2 ^ 64 →
  solve_requests id start size force [mkReq (Some sym) from0 to org] false s =
  Ret ([mkReq (Some sym) (k_symbols k sym) to org], true, false) s.
Proof.
  intros Hk H0 Hst Hsz Hin Hend. cbn [solve_requests r_symbol].
  rewrite (proj2 (ctrue_true size)), orb_true_r by lia.
  erewrite bind_Ret by (by eapply solveSymbolIn_Ret). cbv zeta.
  rewrite (proj2 (ctrue_true _)) by done. by erewrite bind_Ret by done.
Qed.

(** C40: a function whose first instruction cannot be decoded is not wrapped:
    not a byte of memory changes and the error is [DisasmFailure].
    [routeMultiple] nevertheless reports success, because in wrapper mode it
    takes [EINVAL] for the address of a trampoline. *)
Theorem routeMultiple_hides_failure s id k sym from0 from to org start size :
  lock_held (kcpu s) = false → mem_ok (kmem s) → no_jump (kmem s) from → undecodable (kmem s) from →
  kinfos s !! id = Some k → k_symbols k sym = from → 0 < from → to ≠ 0 → org ≠ 0 →
  0 < size → start ≤ from < start + size → start + size < 2 ^ 64 → 0 ≤ start →
  ∃ s', routeMultiple E id [mkReq (Some sym) from0 to org] start size true false s =
      Ret (true, [mkReq (Some sym) from to org]) s' ∧
    kmem s' = kmem s ∧ code s' = DisasmFailure ∧ kpatches s' = kpatches s.
Proof.
  intros Hl Hm Hn Hu Hk Hsym Hf Hto Ho Hsz Hin Hend Hst.
  subst from.
  destruct (route_undecodable s (k_symbols k sym) to org (Some id) Auto Hl Hm Hn Hu) as (t & ki & Hr); [by left|intros i [= <-]; eauto|].
  eexists. split.
  { unfold routeMultiple, routeMultipleInternal. erewrite bind_Ret by (eapply solve_one; (done || lia)). cbn [negb].
    cbn [route_requests r_from r_to r_orgp]. rewrite (proj2 (ctrue_true (k_symbols k sym))), (proj2 (ctrue_true to)), (proj2 (ctrue_true org)) by (done || lia).
    cbn [negb]. erewrite bind_Ret; [|erewrite bind_Ret].
    2:{ erewrite bind_Ret by done. rewrite Hk. erewrite bind_Ret by done. erewrite bind_Ret by exact Hr. done. }
    2:{ cbn [eraseCoverageInstPrefix]. erewrite bind_Ret by (unfold quickInstructionSize; erewrite bind_Ret by done; rewrite quick_undecodable by done; done). done. }
    done. }
  done.
Qed.

(** ** The batch interface *)

(** Without coverage counters in its first bytes a function is left alone. *)
Lemma erase_nothing s count addr total :
  mem_ok (kmem s) → 0 ≤ addr → addr + (64 - total) ≤ 2 ^ 64 → 0 ≤ total < 14 → mapped (kmem s) addr (64 - total) →
  (∀ a, addr ≤ a < addr + (14 - total) → rd (kmem s) a 3 ≠ Some IncInstPrefix) →
  eraseCoverageInstPrefix E count addr LongJump total s = Ret tt s.
Proof.
  intros Hm. revert addr total. induction count as [|count IH]; intros addr total Ha Hw Ht Hmap Hno; [done|].
  cbn [eraseCoverageInstPrefix].
  destruct (quick_loop_Ok (kmem s) 2 addr 1 0) as (off & Hq & Ho); try lia; [done|eapply mapped_sub; [exact Hmap|lia|lia]|].
  erewrite bind_Ret by (unfold quickInstructionSize; erewrite bind_Ret by done; change (Z.to_nat 1) with 1%nat; rewrite Hq; done).
  destruct (Z.eqb_spec off 0) as [|Hoff]; [done|]. assert (1 ≤ off ≤ 15) as Hr by lia. clear Ho.
  erewrite bind_Ret.
  2:{ instantiate (1 := s). instantiate (1 := false). case_bool; [|done].
      destruct (mapped_rd (kmem s) addr 3) as [l Hl]; [eapply mapped_sub; [exact Hmap|lia|lia]|].
      erewrite bind_Ret by (by apply load_Ret). rewrite bool_decide_false; [done|].
      intros ->. apply (Hno addr); [lia|done]. }
  erewrite bind_Ret by done. cbv zeta. unfold LongJump. cbn [Z.ltb Z.compare andb]. destruct (Z.leb_spec 14 (total + off)); [done|].
  rewrite wrap_small by (unfold in_u; lia). apply IH; try lia.
  - eapply mapped_sub; [exact Hmap|lia|lia].
  - intros a Ha'. apply Hno. lia.
Qed.

End routes.

(** ** Witnesses *)

Lemma mapped_wr_self m a l : mapped (wr m a l) a (zlen l).
Proof.
  intros x Hx. rewrite lookup_wr_in by done. apply lookup_lt_is_Some. unfold zlen in Hx. lia.
Qed.

(** A function, the trampoline pool and a cell for the original. *)
Definition ex_code : list Z :=
  [0x55; 0x48; 0x89; 0xE5; 0x41; 0x57; 0x41; 0x56; 0x53; 0x50; 0x48; 0x89; 0xFB; 0x90; 0xC3] ++ replicate 49 0x90.
Definition ex_mem : mem := wr (wr (wr ∅ 0x20000 (replicate 4112 0)) 0x30000 (replicate 8 0)) 0x10001 ex_code.
Definition ex_env : env := mkEnv (λ a, a <? 0x30000) (λ _, true) (λ _, true) 0x20000 24.
Definition ex_cpu : cpu := mkCpu true true false false false.
Definition ex_kinfo : kinfo := mkKinfo "com.apple.Kext" (λ _, 0x10001) 0x10000 0x1000 0 0.
Definition ex_state : kst := mkKst ex_mem ex_cpu 0 ∅ 1 [ex_kinfo] [] NoError 0.

#[global] Instance ex_granting : Granting ex_env.
Proof. by split. Qed.

Lemma ex_mem_ok : mem_ok ex_mem.
Proof.
  repeat apply mem_ok_wr; [intros ?? [=]|..]; try (apply Forall_replicate; unfold in_u; lia).
  repeat constructor; lia.
Qed.

Lemma run_step m a b len :
  match Hde64.hde64_disasm (window m a 32) with
  | Ok hs => ctrue (hs Hde.flags & Hde.F_ERROR) = false ∧ hs Hde.len = len
  | _ => False
  end → 1 ≤ len ≤ 15 → insn_run m (a + len) b → insn_run m a b.
Proof.
  intros Hd Hl Hr. destruct (Hde64.hde64_disasm (window m a 32)) as [hs| |] eqn:Eh; try done.
  destruct Hd as [He <-]. by econstructor.
Qed.

Lemma ex_run : insn_run ex_mem 0x10001 0x10010.
Proof.
  apply (run_step _ _ _ 1); [vm_compute; by split|lia|]. apply (run_step _ _ _ 3); [vm_compute; by split|lia|].
  apply (run_step _ _ _ 2); [vm_compute; by split|lia|]. apply (run_step _ _ _ 2); [vm_compute; by split|lia|].
  apply (run_step _ _ _ 1); [vm_compute; by split|lia|]. apply (run_step _ _ _ 1); [vm_compute; by split|lia|].
  apply (run_step _ _ _ 3); [vm_compute; by split|lia|]. apply (run_step _ _ _ 1); [vm_compute; by split|lia|].
  apply (run_step _ _ _ 1); [vm_compute; by split|lia|]. constructor.
Qed.

Lemma ex_pre to : in_u 64 to → route_pre ex_env ex_state 0x10001 to 0x30000 (Some 0%nat).
Proof.
  intros Hto. split.
  - done.
  - intros a [p Hp]. cbn [heap ex_state] in Hp. by rewrite lookup_empty in Hp.
  - apply ex_mem_ok.
  - lia.
  - apply (mapped_wr_self _ _ ex_code).
  - done.
  - exists 0x55, 0x48. split; [vm_compute; reflexivity|done].
  - exists 0x10010. split; [apply ex_run|lia].
  - split; cbn [tempExecutableMemory ex_env tempExecutableMemoryOff ex_state kmem]; try lia.
    + unfold ex_mem. do 2 apply mapped_wr. apply (mapped_wr_self ∅ 0x20000 (replicate 4112 0)).
    + intros x Hx. unfold ex_mem. do 2 (rewrite lookup_wr_out by (unfold zlen; cbn; lia)).
      rewrite lookup_wr_in by (unfold zlen; rewrite length_replicate; lia). apply lookup_replicate. lia.
  - done.
  - split_conj; [done| |].
    + cbn [kmem ex_state]. unfold ex_mem. apply mapped_wr. apply (mapped_wr_self _ 0x30000 (replicate 8 0)).
    + intros x Hx. apply Z.ltb_ge. lia.
  - split_conj; unfold apart; cbn [tempExecutableMemory ex_env]; lia.
  - intros i [= <-]. exists ex_kinfo. split; [done|]. intros slot H0. exfalso. by apply H0.
Qed.


(** Routed again, the same function chains to the first target: here with a
    slotted jump in place. *)
Definition ex_slotted : list Z := [0xFF; 0x25; 0x09; 0x00; 0x00; 0x00] ++ replicate 9 0x90 ++ le_bytes 8 0x4000000000 ++ replicate 9 0.
Definition ex_kinfo2 : kinfo := mkKinfo "com.apple.Kext" (λ _, 0x10001) 0x10000 0x1000 0x10018 0x10021.
Definition ex_mem2 : mem := wr (wr ∅ 0x30000 (replicate 8 0)) 0x10001 ex_slotted.
Definition ex_state2 : kst := mkKst ex_mem2 ex_cpu 0 ∅ 1 [ex_kinfo2] [] NoError 0.

Lemma ex_mem2_ok : mem_ok ex_mem2.
Proof.
  repeat apply mem_ok_wr; [intros ?? [=]|apply Forall_replicate; unfold in_u; lia|].
  unfold ex_slotted. repeat apply Forall_app_2; first [apply le_bytes_range|apply Forall_replicate; unfold in_u; lia|idtac].
  repeat constructor; lia.
Qed.


(** One route, then [deinit]. *)
Definition ex_volatile (x : Z) : Prop := 0x30000 ≤ x < 0x30008 ∨ 0x20000 ≤ x < 0x21000.

Lemma routes_deinit_restores_witness : ∃ T s s',
  routeFunctionInternal ex_env 0x10001 0x4000000000 true true true Auto (Some 0%nat) 0x30000 ex_state = Ret T s ∧
  deinit ex_env s = Ret tt s' ∧ kpatches s' = [] ∧ ∀ x, ¬ ex_volatile x → kmem s' !! x = kmem ex_state !! x.
Proof.
  assert (match routeFunctionInternal ex_env 0x10001 0x4000000000 true true true Auto (Some 0%nat) 0x30000 ex_state with
          | Ret _ s => length (kinfos s) = 1%nat | _ => False end) as Hk by (vm_compute; reflexivity).
  destruct (routeFunctionInternal _ _ _ _ _ _ _ _ _ ex_state) as [T s| | | |] eqn:Er; [|destruct Hk..].
  exists T, s. destruct (routes_deinit_restores ex_env ex_volatile ex_state s) as (s' & Hd & Hp & Hx).
  - apply ex_mem_ok.
  - reflexivity.
  - reflexivity.
  - apply (rs_step ex_env ex_volatile ex_state ex_state 0x10001 0x4000000000 0x30000 (Some 0%nat) Auto T s);
      [apply rs_start|clear; apply ex_pre; done|left; reflexivity| | |exact Er].
    + clear. intros x Hx. unfold ex_volatile. cbn [tempExecutableMemory ex_env] in Hx. lia.
    + clear. intros slot x Hx. assert (slot = 0) as Es by reflexivity. clearbody slot. subst slot.
      split; [unfold ex_volatile; lia|].
      intros a p Ha. cbn [kpatches ex_state] in Ha. by apply not_elem_of_nil in Ha.
  - intros E1. rewrite E1 in Hk. discriminate.
  - exists s'. split_conj; [reflexivity|exact Hd|exact Hp|exact Hx].
Defined.


(** [06] is not an instruction in 64-bit mode. *)
Definition ex_mem3 : mem := wr ∅ 0x10001 (0x06 :: replicate 63 0x90).
Definition ex_state3 : kst := mkKst ex_mem3 ex_cpu 0 ∅ 1 [ex_kinfo] [] NoError 0.

Lemma routeMultiple_hides_failure_witness : ∃ s',
  routeMultiple ex_env 0 [mkReq (Some "sym") 0 0x40000 0x30000] 0x10000 0x1000 true false ex_state3 =
    Ret (true, [mkReq (Some "sym") 0x10001 0x40000 0x30000]) s' ∧
  kmem s' = kmem ex_state3 ∧ code s' = DisasmFailure ∧ kpatches s' = kpatches ex_state3.
Proof.
  apply (routeMultiple_hides_failure ex_env ex_state3 0 ex_kinfo "sym" 0 0x10001 0x40000 0x30000 0x10000 0x1000);
    try reflexivity; try lia.
  - apply mem_ok_wr; [intros ?? [=]|]. constructor; [unfold in_u; lia|apply Forall_replicate; unfold in_u; lia].
  - exists 0x06, 0x90. split; [vm_compute; reflexivity|done].
  - assert (match Hde64.hde64_disasm (window ex_mem3 0x10001 32) with
            | Ok hs => ctrue (hs Hde.flags & Hde.F_ERROR) = true | _ => False end) as Hd by (vm_compute; reflexivity).
    unfold undecodable. cbn [kmem ex_state3]. destruct (Hde64.hde64_disasm (window ex_mem3 0x10001 32)) as [hs| |]; [|destruct Hd..].
    exists hs. split; [reflexivity|exact Hd].
Defined.
End Route.
