(* ===== verification/LiluPattern.v ===== *)
(** * Lilu: searching and replacing bytes ([Lilu/Sources/kern_patcher.cpp])

    [KernelPatcher::applyLookupPatch] on a loaded kext, [findPattern] and
    [findAndReplaceWithMask] on a buffer, with what they find and replace. *)

From Stdlib Require Import ZArith Lia.
From stdpp Require Import gmap strings.
From S2P Require Import Prelude LiluMachine LiluPatcher.

Module Pattern.
Import Machine Patcher.

Open Scope c_scope.
Open Scope Z_scope.

(** ** Lookup patches *)

Definition Unloaded := 0%nat.

(** [KernelPatcher::KextInfo]; [kx_sys] are its [SysFlags]. *)
Record KextInfo := mkKext {
  kx_id : string;
  kx_paths : list string;
  kx_pathNum : Z;
  kx_sys : list bool;
  kx_loadIndex : nat
}.

Record LookupPatch := mkLookup {
  lp_kext : option KextInfo;
  lp_find : list Z;
  lp_replace : list Z;
  lp_size : Z;
  lp_count : Z
}.

(** [MachInfo::getRunningPosition]. *)
Definition getRunningPosition (k : kinfo) : Z * Z :=
  (running_mh k, if 0 <? memory_size k then memory_size k else HeaderSize).

(** The first [n] bytes of a constant array; reading further is undefined. *)
Definition arr_take (l : list Z) (n : Z) : M (list Z) :=
  if n <=? zlen l then mret (take (Z.to_nat n) l) else fail Fault.

Section lookup.
  Context (E : env).

(** [while (currentAddress < endingAddress && memcmp(...) != 0) currentAddress++;] *)
Fixpoint scan (fuel : nat) (cur ending : Z) (f : list Z) : M Z :=
  if cur <? ending then
    l ← load cur (length f);
    if bool_decide (l = f) then mret cur
    else match fuel with O => fail Fuel | S fuel => scan fuel (cur + 1) ending f end
  else mret cur.

(** The [for] loop; it returns [changes]. *)
Fixpoint lookup_loop (fuel : nat) (i cur ending count : Z) (f r : list Z) (changes : Z) : M Z :=
  if (cur <? ending) && ((i <? count) || (count =? 0)) then
    match fuel with
    | O => fail Fuel
    | S fuel =>
        cur ← scan (Z.to_nat (ending - cur)) cur ending f;
        if negb (cur =? ending) then
          store E cur r;; lookup_loop fuel (i + 1) cur ending count f r (changes + 1)
        else lookup_loop fuel (i + 1) cur ending count f r changes
    end
  else mret changes.

(** [applyLookupPatch(patch, startingAddress, maxSize)]. *)
Definition applyLookupPatchAt (patch : option LookupPatch) (startingAddress maxSize : Z) : M () :=
  match patch with
  | None => set_error MemoryIssue
  | Some p =>
      if (match lp_kext p with Some k => bool_decide (kx_loadIndex k = Unloaded) | None => false end) then
        set_error MemoryIssue
      else
        s ← get;
        let id := match lp_kext p with Some k => kx_loadIndex k | None => KernelID end in
        match kinfos s !! id with
        | None => fail Fault
        | Some kinfo =>
            let '(kextAddress, kextSize) := getRunningPosition kinfo in
            let kextSize := match lp_kext p with None => UINTPTR_MAX - kextAddress | Some _ => kextSize end in
            let currentAddress := if kextAddress <? startingAddress then startingAddress else kextAddress in
            let endingAddress := u64 (kextAddress + kextSize) in
            let endingAddress := if (0 <? maxSize) && (u64 (startingAddress + maxSize) <? endingAddress)
                                 then u64 (startingAddress + maxSize) else endingAddress in
            let endingAddress := u64 (endingAddress - lp_size p) in
            w ← setKernelWriting E true;
            if negb w then set_error MemoryProtection
            else
              f ← arr_take (lp_find p) (lp_size p);
              r ← arr_take (lp_replace p) (lp_size p);
              let fuel := if lp_count p =? 0 then S (Z.to_nat (endingAddress - currentAddress)) else Z.to_nat (lp_count p) in
              changes ← lookup_loop fuel 0 currentAddress endingAddress (lp_count p) f r 0;
              w ← setKernelWriting E false;
              if negb w then set_error MemoryProtection
              else if negb (changes =? lp_count p) then set_error MemoryIssue
              else mret tt
        end
  end.

Definition applyLookupPatch (patch : option LookupPatch) : M () := applyLookupPatchAt patch 0 0.
End lookup.

(** ** Buffers *)

(** [d[k] & ptnMask[i]], or [d[k]] without a mask. *)
Definition mask_byte (mask : option (list Z)) (i b : Z) : outcome Z :=
  match mask with Some ms => x ← aget ms i; Ok (Z.land b x) | None => Ok b end.

(** Does the pattern, under its mask, match at [cur]? *)
Fixpoint match_loop (n : nat) (i : Z) (d : list Z) (cur : Z) (ptn : list Z) (mask : option (list Z)) : outcome bool :=
  match n with
  | O => Ok true
  | S n =>
      b ← aget d (cur + i);
      b ← mask_byte mask i b;
      p ← aget ptn i;
      if b =? p then match_loop n (i + 1) d cur ptn mask else Ok false
  end.

Fixpoint find_loop (fuel : nat) (cur last : Z) (d ptn : list Z) (mask : option (list Z)) (size : Z) : outcome (option Z) :=
  if cur <=? last then
    match fuel with
    | O => NoFuel
    | S fuel =>
        ok ← match_loop (Z.to_nat size) 0 d cur ptn mask;
        if ok : bool then Ok (Some cur) else find_loop fuel (cur + 1) last d ptn mask size
    end
  else Ok None.

(** [findPattern]: the new [*dataOffset], or nothing. *)
Definition findPattern (ptn : list Z) (mask : option (list Z)) (patternSize : Z) (data : list Z) (dataSize dataOffset : Z)
    : outcome (option Z) :=
  if (patternSize =? 0) || (dataSize <? patternSize) then Ok None
  else
    let last := dataSize - patternSize in
    find_loop (S (Z.to_nat (last - dataOffset))) dataOffset last data ptn mask patternSize.

(** [memcpy] of [n] bytes of [src] into [d] at [off]. *)
Fixpoint copy_in (n : nat) (i : Z) (d : list Z) (off : Z) (src : list Z) : outcome (list Z) :=
  match n with
  | O => Ok d
  | S n => b ← aget src i; d ← aset d (off + i) b; copy_in n (i + 1) d off src
  end.

(** [d[k] = (d[k] & ~replMsk[i]) | (repl[i] & replMsk[i])]. *)
Fixpoint mask_in (n : nat) (i : Z) (d : list Z) (off : Z) (repl msk : list Z) : outcome (list Z) :=
  match n with
  | O => Ok d
  | S n =>
      x ← aget d (off + i); r ← aget repl i; m ← aget msk i;
      d ← aset d (off + i) (u8 (Z.lor (Z.land x (Z.lnot m)) (Z.land r m)));
      mask_in n (i + 1) d off repl msk
  end.

(** The loop of [findAndReplaceWithMask]; [replCount] and the buffer. *)
Fixpoint replace_loop (E : env) (fuel : nat) (d : list Z) (find : list Z) (findSize : Z) (findMask : option (list Z))
    (repl : list Z) (replaceSize : Z) (replaceMask : option (list Z)) (off count skip replCount : Z) : M (option Z * list Z) :=
  match fuel with
  | O => fail Fuel
  | S fuel =>
      found ← lift (findPattern find findMask findSize d (zlen d) off);
      match found with
      | None => mret (Some replCount, d)
      | Some off =>
          if 0 <? skip then
            replace_loop E fuel d find findSize findMask repl replaceSize replaceMask (off + findSize) count (skip - 1) replCount
          else
            w ← setKernelWriting E true;
            if negb w then mret (None, d)
            else
              d ← lift (match replaceMask with
                        | None => copy_in (Z.to_nat replaceSize) 0 d off repl
                        | Some msk => mask_in (Z.to_nat findSize) 0 d off repl msk
                        end);
              setKernelWriting E false;;
              let replCount := replCount + 1 in
              let off := off + replaceSize in
              if 0 <? count then
                if count - 1 =? 0 then mret (Some replCount, d)
                else replace_loop E fuel d find findSize findMask repl replaceSize replaceMask off (count - 1) skip replCount
              else replace_loop E fuel d find findSize findMask repl replaceSize replaceMask off count skip replCount
      end
  end.

Definition findAndReplaceWithMask (E : env) (d find : list Z) (findSize : Z) (findMask : option (list Z))
    (repl : list Z) (replaceSize : Z) (replaceMask : option (list Z)) (count skip : Z) : M (bool * list Z) :=
  if zlen d <? findSize then mret (false, d)
  else
    '(n, d) ← replace_loop E (S (length d)) d find findSize findMask repl replaceSize replaceMask 0 count skip 0;
    mret (match n with Some k => 0 <? k | None => false end, d).

(** ** What a lookup patch does *)

Definition match_at (m : mem) (f : list Z) (a : Z) : Prop := rd m a (length f) = Some f.

(** [replaced f r m a e n m' c]: going upwards from [a] and below [e], the
    first [n] occurrences of [f] were overwritten by [r], one after the other;
    [c] of them were there. *)
Inductive replaced (f r : list Z) : mem → Z → Z → nat → mem → nat → Prop :=
| rp_stop m a e : replaced f r m a e 0 m 0
| rp_none m a e n : (∀ x, a ≤ x < e → ¬ match_at m f x) → replaced f r m a e n m 0
| rp_some m a e n p m' c :
    a ≤ p < e → match_at m f p → (∀ x, a ≤ x < p → ¬ match_at m f x) →
    replaced f r (wr m p r) p e n m' c → replaced f r m a e (S n) m' (S c).

Section lookup_lemmas.
  Context (E : env).

Lemma scan_Ret s f fuel cur ending :
  cur ≤ ending → mapped (kmem s) cur (ending - cur + zlen f) → (Z.to_nat (ending - cur) ≤ fuel)%nat →
  ∃ p, scan fuel cur ending f s = Ret p s ∧ cur ≤ p ≤ ending ∧ (p < ending → match_at (kmem s) f p) ∧
    ∀ x, cur ≤ x < p → ¬ match_at (kmem s) f x.
Proof.
  revert cur. induction fuel as [|fuel IH]; intros cur Hle Hmap Hf; cbn [scan];
    (destruct (Z.ltb_spec cur ending); [|exists cur; split_conj; (done || lia)]); [lia|].
  destruct (mapped_rd (kmem s) cur (length f)) as [l Hl]; [eapply mapped_sub; [exact Hmap|lia|unfold zlen; lia]|].
  erewrite bind_Ret by (by apply load_Ret). case_bool_decide as Heq.
  - exists cur. subst l. split_conj; (done || lia).
  - destruct (IH (cur + 1)) as (p & Hs & Hp & Hm & Hn); [lia|eapply mapped_sub; [exact Hmap|lia|lia]|lia|].
    exists p. split_conj; try done; try lia. intros x Hx. destruct (Z.eq_dec x cur) as [->|]; [|apply Hn; lia].
    unfold match_at. rewrite Hl. congruence.
Qed.

Lemma lookup_loop_Ret s f r fuel i cur ending count changes m :
  cr0_wp (kcpu s) = false → cur ≤ ending → mapped m cur (ending - cur + zlen f) → length r = length f →
  0 ≤ i ≤ count → 0 < count → (Z.to_nat (count - i) ≤ fuel)%nat →
  ∃ m' c, replaced f r m cur ending (Z.to_nat (count - i)) m' c ∧
    lookup_loop E fuel i cur ending count f r changes (set_mem s m) = Ret (changes + Z.of_nat c) (set_mem s m').
Proof.
  intros Hw. revert i cur changes m. induction fuel as [|fuel IH]; intros i cur changes m Hle Hmap Hlen Hi Hc Hf; cbn [lookup_loop].
  - replace i with count by lia. rewrite Z.ltb_irrefl, (proj2 (Z.eqb_neq count 0)), andb_false_r by lia.
    exists m, 0%nat. rewrite Z.sub_diag. split; [constructor|]. by rewrite Z.add_0_r.
  - rewrite (proj2 (Z.eqb_neq count 0)), orb_false_r by lia.
    destruct (Z.ltb_spec cur ending) as [Hce|Hce]; cbn [andb]; cycle 1.
    { exists m, 0%nat. split; [apply rp_none; lia|]. by rewrite Z.add_0_r. }
    destruct (Z.ltb_spec i count) as [Hic|Hic]; cycle 1.
    { exists m, 0%nat. replace (count - i) with 0 by lia. split; [constructor|]. by rewrite Z.add_0_r. }
    destruct (scan_Ret (set_mem s m) f (Z.to_nat (ending - cur)) cur ending) as (p & Hs & Hp & Hm & Hn); [lia|done|lia|].
    erewrite bind_Ret by exact Hs. destruct (Z.eqb_spec p ending) as [->|Hpe]; cbn [negb].
    + destruct fuel as [|fuel]; cbn [lookup_loop]; rewrite Z.ltb_irrefl; cbn [andb].
      all: exists m, 0%nat; (split; [by apply rp_none|]); by rewrite Z.add_0_r.
    + assert (mapped m p (zlen r)) as Hmr by (eapply mapped_sub; [exact Hmap|lia|unfold zlen in *; lia]).
      erewrite bind_Ret by (apply store_Ret; split; [exact Hmr|by left]). cbn [kmem set_mem].
      destruct (IH (i + 1) p (changes + 1) (wr m p r)) as (m' & c & Hrep & Hloop); try lia; try done.
      { apply mapped_wr. eapply mapped_sub; [exact Hmap|lia|lia]. }
      exists m', (S c). split.
      * replace (Z.to_nat (count - i)) with (S (Z.to_nat (count - (i + 1)))) by lia. eapply rp_some; [|apply Hm| |exact Hrep]; (done || lia).
      * change (set_mem (set_mem s m) (wr m p r)) with (set_mem s (wr m p r)). rewrite Hloop. f_equal. lia.
Qed.

(** What applying a patch to a loaded kext relies on. *)
Record lookup_pre (s : kst) (k : KextInfo) (ki : kinfo) (find repl : list Z) (count : Z) : Prop := {
  l_lock : lock_held (kcpu s) = false;
  l_loaded : kx_loadIndex k ≠ Unloaded;
  l_kinfo : kinfos s !! kx_loadIndex k = Some ki;
  l_base : 0 ≤ running_mh ki;
  l_size : 0 < zlen find ≤ memory_size ki ∧ running_mh ki + memory_size ki < 2 ^ 64;
  l_map : mapped (kmem s) (running_mh ki) (memory_size ki);
  l_len : length repl = length find;
  l_count : 0 < count
}.

Definition patched (s : kst) (m : mem) (e : Error) (t : nat) : kst :=
  mkKst m (off_cpu (kcpu s)) t (heap s) (heap_next s) (kinfos s) (kpatches s) e (tempExecutableMemoryOff s).

Lemma applyLookupPatch_Ret `{!Granting E} s k ki find repl count :
  lookup_pre s k ki find repl count →
  ∃ m' c t, replaced find repl (kmem s) (running_mh ki) (running_mh ki + memory_size ki - zlen find) (Z.to_nat count) m' c ∧
    applyLookupPatch E (Some (mkLookup (Some k) find repl (zlen find) count)) s =
    Ret tt (patched s m' (if Z.of_nat c =? count then code s else MemoryIssue) t).
Proof.
  intros [Hl Hld Hk Hb [Hsz Hend] Hmap Hlen Hc].
  set (s1 := with_cpu s (on_cpu (kcpu s)) (ticks s + wp_cost (kcpu s))).
  destruct (lookup_loop_Ret s1 find repl (Z.to_nat count) 0 (running_mh ki) (running_mh ki + memory_size ki - zlen find) count 0 (kmem s))
    as (m' & c & Hrep & Hloop); try done; try lia.
  { eapply mapped_sub; [exact Hmap|lia|lia]. }
  rewrite Z.sub_0_r in Hrep. exists m', c. eexists. split; [exact Hrep|].
  unfold applyLookupPatch, applyLookupPatchAt. cbn [lp_kext lp_find lp_replace lp_size lp_count].
  rewrite bool_decide_false by done. erewrite bind_Ret by done. rewrite Hk. unfold getRunningPosition.
  rewrite (proj2 (Z.ltb_lt 0 (memory_size ki))) by lia. cbv zeta. cbn [Z.ltb Z.compare andb].
  replace (running_mh ki <? 0) with false by (symmetry; apply Z.ltb_ge; lia).
  rewrite (wrap_small 64 (running_mh ki + memory_size ki)) by (unfold in_u; lia).
  rewrite (wrap_small 64) by (unfold in_u; lia).
  erewrite bind_Ret by (apply setKernelWriting_on; [exact Hl|intros; apply g_cr0]). cbn [negb]. fold s1.
  assert (∀ l, length l = length find → arr_take l (zlen find) s1 = Ret l s1) as Harr.
  { intros l El. unfold arr_take, zlen. rewrite El, Z.leb_refl, Nat2Z.id, take_ge by lia. done. }
  erewrite bind_Ret by (by apply Harr). erewrite bind_Ret by (by apply Harr).
  rewrite (proj2 (Z.eqb_neq count 0)) by lia.
  assert (set_mem s1 (kmem s) = s1) as E1 by by destruct s.
  erewrite bind_Ret by (rewrite <- E1; exact Hloop).
  erewrite bind_Ret by (eapply setKernelWriting_off; [done|intros; apply g_cr0]). cbn [negb]. rewrite Z.add_0_l.
  destruct (Z.of_nat c =? count); done.
Qed.

End lookup_lemmas.

(** With a count of one: the first occurrence, if there is one. *)
Lemma replaced_one f r m a e m' c :
  replaced f r m a e 1 m' c →
  (c = 0%nat ∧ m' = m ∧ ∀ x, a ≤ x < e → ¬ match_at m f x) ∨
  (c = 1%nat ∧ ∃ p, a ≤ p < e ∧ match_at m f p ∧ (∀ x, a ≤ x < p → ¬ match_at m f x) ∧ m' = wr m p r).
Proof.
  inversion 1 as [| |? ? ? ? p ? c' Hp Hm Hn Hr]; subst; [by left|].
  assert (m' = wr m p r ∧ c' = 0%nat) as [-> ->] by (inversion Hr; done). right. split; [done|]. exists p. done.
Qed.

(** ** What a pattern search finds *)

Definition masked (mask : option (list Z)) (i b : Z) : Z :=
  match mask with Some ms => Z.land b (zget ms i) | None => b end.

Definition pattern_at (d ptn : list Z) (mask : option (list Z)) (size a : Z) : Prop :=
  ∀ i, 0 ≤ i < size → masked mask i (zget d (a + i)) = zget ptn i.

Lemma match_loop_Ok n i d cur ptn mask :
  0 ≤ i → 0 ≤ cur → cur + i + Z.of_nat n ≤ zlen d → i + Z.of_nat n ≤ zlen ptn →
  (∀ ms, mask = Some ms → i + Z.of_nat n ≤ zlen ms) →
  ∃ ok, match_loop n i d cur ptn mask = Ok ok ∧
    (ok = true ↔ ∀ j, i ≤ j < i + Z.of_nat n → masked mask j (zget d (cur + j)) = zget ptn j).
Proof.
  revert i. induction n as [|n IH]; intros i Hi Hcur Hd Hp Hm; cbn [match_loop].
  - exists true. split; [done|]. split; [lia|done].
  - rewrite (aget_zget d) by lia. cbn [mbind outcome_bind].
    assert (mask_byte mask i (zget d (cur + i)) = Ok (masked mask i (zget d (cur + i)))) as ->.
    { unfold mask_byte, masked. destruct mask as [ms|]; [|done]. specialize (Hm ms eq_refl). by rewrite aget_zget by lia. }
    cbn [mbind outcome_bind]. rewrite aget_zget by lia. cbn [mbind outcome_bind].
    destruct (Z.eqb_spec (masked mask i (zget d (cur + i))) (zget ptn i)) as [He|He].
    + destruct (IH (i + 1)) as (ok & -> & Hok); try lia. { intros ms E1. specialize (Hm ms E1). lia. }
      exists ok. split; [done|]. rewrite Hok. split; intros H j Hj; [|apply H; lia].
      destruct (Z.eq_dec j i) as [->|]; [done|apply H; lia].
    + exists false. split; [done|]. split; [done|]. intros H. destruct He. apply H. lia.
Qed.

(** What a search relies on: the arrays are as long as the sizes say. *)
Record find_pre (ptn : list Z) (mask : option (list Z)) (size : Z) : Prop := {
  f_size : 0 < size ≤ zlen ptn;
  f_mask : ∀ ms, mask = Some ms → size ≤ zlen ms
}.

Lemma find_loop_Ok fuel cur last d ptn mask size :
  find_pre ptn mask size → 0 ≤ cur → last = zlen d - size → (Z.to_nat (last - cur + 1) ≤ fuel)%nat →
  ∃ res, find_loop fuel cur last d ptn mask size = Ok res ∧
    match res with
    | Some p => cur ≤ p ≤ last ∧ pattern_at d ptn mask size p ∧ ∀ x, cur ≤ x < p → ¬ pattern_at d ptn mask size x
    | None => ∀ x, cur ≤ x ≤ last → ¬ pattern_at d ptn mask size x
    end.
Proof.
  intros [Hs Hm] Hc ->. revert cur Hc. induction fuel as [|fuel IH]; intros cur Hc Hf; cbn [find_loop];
    (destruct (Z.leb_spec cur (zlen d - size)); [|exists None; split; [done|intros; lia]]); [lia|].
  destruct (match_loop_Ok (Z.to_nat size) 0 d cur ptn mask) as (ok & -> & Hok); try lia.
  { intros ms E1. specialize (Hm ms E1). lia. }
  assert (ok = true ↔ pattern_at d ptn mask size cur) as Hok'.
  { rewrite Hok. unfold pattern_at. split; intros H1 i Hi; apply H1; lia. }
  cbn [mbind outcome_bind]. destruct ok.
  - exists (Some cur). split; [done|]. split_conj; [lia|lia|by apply Hok'|intros; lia].
  - destruct (IH (cur + 1)) as (res & -> & Hr); [lia..|]. exists res. split; [done|].
    assert (¬ pattern_at d ptn mask size cur) as Hno by (rewrite <- Hok'; done).
    destruct res as [p|].
    + destruct Hr as (? & ? & Hr). split_conj; [lia|lia|done|]. intros x Hx.
      destruct (Z.eq_dec x cur) as [->|]; [done|]. apply Hr. lia.
    + intros x Hx. destruct (Z.eq_dec x cur) as [->|]; [done|]. apply Hr. lia.
Qed.

(** C31: [findPattern] returns the first position from the offset on at which
    the masked bytes equal the pattern, the last possible one included, and
    reports failure exactly if there is none; it never reads outside the
    buffer, the pattern or the mask. *)
Theorem findPattern_correct (d ptn : list Z) (mask : option (list Z)) (size off : Z) :
  find_pre ptn mask size → 0 ≤ off →
  ∃ res, findPattern ptn mask size d (zlen d) off = Ok res ∧
    match res with
    | Some p => off ≤ p ∧ p + size ≤ zlen d ∧ pattern_at d ptn mask size p ∧
                ∀ x, off ≤ x < p → ¬ pattern_at d ptn mask size x
    | None => ∀ x, off ≤ x → x + size ≤ zlen d → ¬ pattern_at d ptn mask size x
    end.
Proof.
  intros Hp Ho. unfold findPattern. rewrite (proj2 (Z.eqb_neq size 0)) by (destruct Hp; lia). cbn [orb].
  destruct (Z.ltb_spec (zlen d) size); [exists None; split; [done|]; intros; lia|].
  destruct (find_loop_Ok (S (Z.to_nat (zlen d - size - off))) off (zlen d - size) d ptn mask size Hp) as (res & -> & Hr); try lia.
  exists res. split; [done|]. destruct res as [p|].
  - destruct Hr as (? & ? & ?). split_conj; try done; lia.
  - intros x ??. apply Hr. lia.
Qed.

(** ** Witnesses and boundary cases *)

Definition ex_kext : KextInfo := mkKext "com.apple.iokit.IOGraphicsFamily" [] 0 [true] 1.
(** An image of 32 bytes with the pattern at offsets 4 and 20, and at its end. *)
Definition ex_image : list Z :=
  replicate 4 0 ++ [1; 2; 3; 4] ++ replicate 12 0 ++ [1; 2; 3; 4] ++ replicate 4 0 ++ [1; 2; 3; 4].
Definition ex_lstate (image : list Z) : kst :=
  mkKst (wr ∅ 0x1000 image) (mkCpu true true false false false) 0 ∅ 1
        [mkKinfo "kernel" (λ _, 0) 0 0 0 0; mkKinfo "kext" (λ _, 0) 0x1000 32 0 0] [] NoError 0.
Definition ex_lenv : env := mkEnv (λ _, true) (λ _, true) (λ _, true) 0 24.

#[global] Instance ex_lgranting : Granting ex_lenv.
Proof. by split. Qed.

Lemma ex_lookup_pre image : length image = 32%nat →
  lookup_pre (ex_lstate image) ex_kext (mkKinfo "kext" (λ _, 0) 0x1000 32 0 0) [1; 2; 3; 4] [5; 6; 7; 8] 2.
Proof.
  intros Hl. split; try reflexivity; try done; cbn [running_mh memory_size]; try (unfold zlen; cbn; lia).
  intros x Hx. cbn [kmem ex_lstate]. rewrite lookup_wr_in by (unfold zlen; lia). apply lookup_lt_is_Some. lia.
Qed.


(** A pattern in the image's last bytes is not found. *)
Theorem lookup_misses_last :
  match applyLookupPatch ex_lenv (Some (mkLookup (Some ex_kext) [1; 2; 3; 4] [5; 6; 7; 8] 4 1))
          (ex_lstate (replicate 28 0 ++ [1; 2; 3; 4])) with
  | Ret _ s' => code s' = MemoryIssue ∧ rd (kmem s') 0x1000 32 = Some (replicate 28 0 ++ [1; 2; 3; 4])
  | _ => False
  end.
Proof. vm_compute. split; reflexivity. Qed.

(** With a count of 0, "all occurrences", a patch that changes nothing more
    than it should still reports [MemoryIssue]. *)
Theorem lookup_count_zero :
  match applyLookupPatch ex_lenv (Some (mkLookup (Some ex_kext) [1; 2; 3; 4] [5; 6; 7; 8] 4 0)) (ex_lstate ex_image) with
  | Ret _ s' => code s' = MemoryIssue ∧ rd (kmem s') 0x1000 24 =
      Some (replicate 4 0 ++ [5; 6; 7; 8] ++ replicate 12 0 ++ [5; 6; 7; 8])
  | _ => False
  end.
Proof. vm_compute. split; reflexivity. Qed.

Lemma findPattern_correct_witness :
  findPattern [1; 0] (Some [0x0F; 0x00]) 2 [0x20; 0x31; 0x42; 0x51] 4 0 = Ok (Some 1) ∧
  ∃ res, findPattern [1; 0] (Some [0x0F; 0x00]) 2 [0x20; 0x31; 0x42; 0x51] (zlen [0x20; 0x31; 0x42; 0x51]) 0 = Ok res ∧
    match res with
    | Some p => 0 ≤ p ∧ p + 2 ≤ zlen [0x20; 0x31; 0x42; 0x51] ∧
                pattern_at [0x20; 0x31; 0x42; 0x51] [1; 0] (Some [0x0F; 0x00]) 2 p ∧
                ∀ x, 0 ≤ x < p → ¬ pattern_at [0x20; 0x31; 0x42; 0x51] [1; 0] (Some [0x0F; 0x00]) 2 x
    | None => ∀ x, 0 ≤ x → x + 2 ≤ zlen [0x20; 0x31; 0x42; 0x51] → ¬ pattern_at [0x20; 0x31; 0x42; 0x51] [1; 0] (Some [0x0F; 0x00]) 2 x
    end.
Proof.
  split; [reflexivity|].
  apply (findPattern_correct [0x20; 0x31; 0x42; 0x51] [1; 0] (Some [0x0F; 0x00]) 2 0); [|lia].
  split; [unfold zlen; cbn; lia|]. intros ms [= <-]. unfold zlen; cbn; lia.
Defined.
End Pattern.
