(* ===== verification/KryNvram.v ===== *)
(** * Kryptonite: boot arguments and kernel versions
      ([Kryptonite/kern_nvramargs.cpp], [kern_compatibility.cpp], [kern_start.cpp])

    The switches of the plugin, parsed once from the boot arguments, and the
    kernels it supports.  [PE_parse_boot_argn] belongs to the kernel; it is
    the parameter [parse]: the bytes it stores for an argument into a buffer
    of the given size, if the argument is there. *)

From Stdlib Require Import ZArith Lia.
From stdpp Require Import gmap strings.
From S2P Require Import Prelude LiluMachine.

Module Nvram.
Import Machine.

Open Scope Z_scope.

(** ** C strings *)

(** The bytes of a string literal, with its terminator. *)
Fixpoint str_bytes (s : string) : list Z :=
  match s with
  | EmptyString => [0]
  | String c s => Z.of_nat (Ascii.nat_of_ascii c) :: str_bytes s
  end.

(** [strcmp(a, b) == 0] on buffers; reading past one is undefined. *)
Fixpoint str_eq (a b : list Z) : outcome bool :=
  match a, b with
  | x :: a, y :: b => if negb (x =? y) then Ok false else if x =? 0 then Ok true else str_eq a b
  | _, _ => Ub
  end.

(** ** Boot arguments *)

Record boot := mkBoot {
  parse : string → Z → option (list Z);
  version_major : Z;
  version_minor : Z
}.

(** The documented contract of [PE_parse_boot_argn]: it stores no more than
    the buffer holds. *)
Class BootOk (B : boot) : Prop := {
  parse_fits name n l : 0 ≤ n → parse B name n = Some l → zlen l ≤ n;
  parse_bytes name n l : parse B name n = Some l → bytes_ok l
}.

(** [PE_parse_boot_argn(name, buf, sizeof(buf))]: success and the buffer. *)
Definition PE_parse_boot_argn (B : boot) (name : string) (buf : list Z) : bool * list Z :=
  match parse B name (zlen buf) with
  | Some l => (true, l ++ drop (length l) buf)
  | None => (false, buf)
  end.

(** [checkKernelArgument]: is the argument there, whatever its value? *)
Definition checkKernelArgument (B : boot) (name : string) : bool :=
  fst (PE_parse_boot_argn B name (replicate 64 0)).

Definition parseBooleanBootArg (B : boot) (name : string) : bool :=
  let '(found, buf) := PE_parse_boot_argn B name [0; 0; 0; 0] in
  if found then negb (s32 (le_val buf) =? 0) else checkKernelArgument B name.

(** The static members of [NVRAMArgs] and the two globals beside it. *)
Record nvram := mkNvram {
  gpu : list Z;
  tbtVersion : Z;
  sequoiaForce : bool;
  probeMode : bool;
  skipAllPatches : bool;
  enableIntelAGDCDisabler : bool;
  enableIntelForceOnline : bool;
  enableAMDCompatibilityPatch : bool;
  enableAMDSharedUserClientVariableOutput : bool;
  enableAMDAccelPrime : bool;
  enableAMDLinkValidationPatch : bool;
  enableAMDFramebufferValidationPatch : bool;
  enableAMD24BitOutputClamp : bool;
  enableAMDIOSurfaceGuard : bool;
  skipAGDCPatch : bool;
  skipAGDPPatch : bool;
  skipIOGFXPatch : bool;
  skipIOPCIPatch : bool;
  skipMuxPatch : bool;
  skipTBRoutePatch : bool;
  skipSequoiaPatch : bool
}.

(** Before [init]. *)
Definition nvram_zero : nvram :=
  mkNvram [0; 0; 0; 0; 0] 0 false false false false false false false false false false false false false false false
          false false false false.

Section args.
  Context (B : boot).

Definition getGPU (g : list Z) : list Z := snd (PE_parse_boot_argn B "krygpu" g).

(** An out-of-range version is reported but kept. *)
Definition getTBTVersion (v : Z) : Z :=
  let '(found, buf) := PE_parse_boot_argn B "krytbtv" (le_bytes 4 v) in s32 (le_val buf).

Definition getSequoiaForce : bool :=
  let '(found, buf) := PE_parse_boot_argn B "kryfsequoia" [0; 0; 0; 0] in
  if found then negb (s32 (le_val buf) =? 0) else checkKernelArgument B "kryfsequoia".

(** [NVRAMArgs::init], with [getPatchControls] inlined. *)
Definition init (a : nvram) : nvram :=
  let arg := parseBooleanBootArg B in
  mkNvram (getGPU (gpu a)) (getTBTVersion (tbtVersion a)) getSequoiaForce
    (arg "kryprobe") (arg "kryskipall") (arg "kryigfxagdc") (arg "kryigfxonln") (arg "kryamdcompat")
    (arg "kryamdshmvar") (arg "kryamdaccelprime") (arg "kryamdlink") (arg "kryamdfbval") (arg "kryrad24")
    (arg "kryamdsurfguard") (arg "kryskipagdc") (arg "kryskipagdp") (arg "kryskipiogfx") (arg "kryskipiopci")
    (arg "kryskipmux") (arg "kryskiptbroute") (arg "kryskipseq").

Definition skipThunderboltEnum : bool := parseBooleanBootArg B "skipthunderboltenum".
End args.

Definition isAMD (a : nvram) : outcome bool := str_eq (gpu a) (str_bytes "AMD").
Definition isNVDA (a : nvram) : outcome bool := str_eq (gpu a) (str_bytes "NVDA").
Definition isThunderbolt1 (a : nvram) : bool := tbtVersion a =? 1.
Definition isThunderbolt2 (a : nvram) : bool := tbtVersion a =? 2.

(** ** Kernel versions *)

Definition HighSierra := 17.
Definition Mojave := 18.
Definition Catalina := 19.
Definition Sequoia := 24.

Definition isUnsupported (B : boot) : bool :=
  (version_major B <? HighSierra) || ((version_major B =? HighSierra) && (version_minor B <? 5)).

Definition isOlderKernel (B : boot) : bool :=
  (version_major B <? Catalina) || ((version_major B =? Catalina) && (version_minor B <? 1)).

Definition isSequoiaForced (a : nvram) : bool := sequoiaForce a.

(** ** Lemmas *)

(** The [gpu] buffer decides the comparisons without being overrun. *)
Lemma str_eq_total (a b : list Z) :
  (length b ≤ length a)%nat → last b = Some 0 → ∃ r, str_eq a b = Ok r.
Proof.
  revert a. induction b as [|y b IH]; intros [|x a] Hl Hb; cbn in Hl; try done; try lia.
  cbn [str_eq]. destruct (Z.eqb_spec x y) as [->|]; cbn [negb]; [|eauto].
  destruct (Z.eqb_spec y 0); [eauto|]. destruct b as [|y' b]; [cbn in Hb; congruence|].
  apply IH; [lia|done].
Qed.

Lemma parse_length B `{!BootOk B} name buf : length (snd (PE_parse_boot_argn B name buf)) = length buf.
Proof.
  unfold PE_parse_boot_argn. destruct (parse B name (zlen buf)) as [l|] eqn:E1; [|done]. cbn [snd].
  apply parse_fits in E1; [|unfold zlen; lia]. unfold zlen in E1. rewrite length_app, length_drop. lia.
Qed.

(** The plugin's state is well-formed once [gpu] has its five bytes. *)
Definition nvram_ok (a : nvram) : Prop := length (gpu a) = 5%nat.

Lemma init_ok B `{!BootOk B} a : nvram_ok a → nvram_ok (init B a).
Proof. unfold nvram_ok. cbn [gpu init]. unfold getGPU. by rewrite parse_length. Qed.

Lemma isAMD_Ok a : nvram_ok a → ∃ r, isAMD a = Ok r.
Proof. intros H. apply str_eq_total; [rewrite H; cbn; lia|done]. Qed.

Lemma isNVDA_Ok a : nvram_ok a → ∃ r, isNVDA a = Ok r.
Proof. intros H. apply str_eq_total; [rewrite H; cbn; lia|done]. Qed.
End Nvram.
