(* ===== verification/KryPatches.v ===== *)
(** * Kryptonite: the patches and their dispatch
      ([Kryptonite/kern_patches.cpp], [kern_patchapplicator.cpp],
       [kern_patchset.cpp], [kern_targetkexts.hpp])

    Every patch of the plugin with its guards, byte patterns and routes, on
    top of Lilu's patcher; the table of kexts and the dispatch of a loaded
    kext to its patches. *)

From Stdlib Require Import ZArith Lia.
From stdpp Require Import gmap strings.
From S2P Require Import Prelude LiluMachine LiluPatcher LiluPattern KryNvram.

Module Kry.
Import Machine Patcher Pattern Nvram.

Open Scope Z_scope.

(** ** Hooks as the patcher sees them: a function and the cell that receives
    the original. *)

Record hook := mkHook { h_fn : Z; h_org : Z }.

Record hooks := mkHooks {
  intelFBClientDoAttribute : hook;
  intelFramebufferGetOnlineInfo : hook;
  amd9500FindProjectByPartNumber : hook;
  amdSupportTestVRAM : hook;
  amdRadeonPopulateAccelConfig : hook;
  amdAccelSharedUserClientGetTargetAndMethodForIndex : hook;
  ioAccelSharedUserClientGetTargetAndMethodForIndex : hook;
  atiDeviceControlNotifyLinkChange : hook;
  amdFramebufferValidateDetailedTiming : hook;
  thunderboltShouldSkipEnumeration : hook
}.

Section patches.
  Context (E : env) (B : boot) (A : nvram) (H : hooks).

(** ** [PatchApplicator] *)

Definition is_error (e : Error) : bool := negb (bool_decide (e = NoError)).

Definition pa_applyLookupPatch (patch : LookupPatch) : M () :=
  applyLookupPatch E (Some patch);;
  error ← getError;
  if is_error error then clearError else mret tt.

(** The request is returned as the patcher left it. *)
Definition applyRoutingPatch (index : nat) (patch : RouteRequest) (address size : Z) : M (list RouteRequest) :=
  '(routed, reqs) ← routeMultiple E index [patch] address size true false;
  error ← getError;
  (if negb routed || is_error error then clearError else mret tt);;
  mret reqs.

(** [KernelPatcher::LookupPatch patch = {kext, find, repl, sizeof(find), count};] *)
Definition lookup (kext : KextInfo) (find repl : list Z) (count : Z) : LookupPatch :=
  mkLookup (Some kext) find repl (zlen find) count.

Definition request (symbol : string) (h : hook) : RouteRequest := mkReq (Some symbol) 0 (h_fn h) (h_org h).

(** ** Guards *)

Definition shouldSkipPatch (skipToggle : bool) : bool := probeMode A || skipAllPatches A || skipToggle.

Definition shouldSkipAMDCompatibilityPatch : M bool :=
  amd ← lift (isAMD A);
  mret (negb amd || negb (enableAMDCompatibilityPatch A) || probeMode A || skipAllPatches A).

(** [if (!NVRAMArgs::isAMD()) return; if (!flag) return; if (probe) return;
    if (skipAll) return;] *)
Definition amd_only (flag : bool) (patch : M ()) : M () :=
  amd ← lift (isAMD A);
  if negb amd then mret tt
  else if negb flag then mret tt
  else if probeMode A then mret tt
  else if skipAllPatches A then mret tt
  else patch.

(** The routes guarded by [shouldSkipAMDCompatibilityPatch]. *)
Definition amd_compat_route (symbol : string) (h : hook) (index : nat) (address size : Z) : M () :=
  skip ← shouldSkipAMDCompatibilityPatch;
  if skip : bool then mret tt else applyRoutingPatch index (request symbol h) address size;; mret tt.

(** ** The patches *)

Definition IOThunderboltSwitchType : list Z :=
  [0x49; 0x4f; 0x54; 0x68; 0x75; 0x6e; 0x64; 0x65; 0x72; 0x62; 0x6f; 0x6c; 0x74; 0x53; 0x77; 0x69; 0x74; 0x63; 0x68;
   0x54; 0x79; 0x70; 0x65].

(** The patch for this kernel and the Thunderbolt version asked for.  The
    pattern arrays of the source are local to the branches and used after
    them; here they keep the values they had. *)
Definition thunderbolt_patch (kext : KextInfo) : LookupPatch :=
  let tbMinType := if isThunderbolt1 A then 0x01 else if isThunderbolt2 A then 0x02 else 0x03 in
  if isOlderKernel B then
    let tbSwitchTypeChar := if isThunderbolt1 A then 0x31 else if isThunderbolt2 A then 0x32 else 0x33 in
    lookup kext (IOThunderboltSwitchType ++ [0x33]) (IOThunderboltSwitchType ++ [tbSwitchTypeChar]) 1
  else if version_major B =? Sequoia then
    lookup kext
      [0x48; 0x83; 0xf8; 0x03; 0x72; 0x0a; 0x49; 0x8b; 0x06; 0xc6; 0x80; 0x78; 0x01; 0x00; 0x00; 0x01]
      [0x48; 0x83; 0xf8; tbMinType; 0x72; 0x0a; 0x49; 0x8b; 0x06; 0xc6; 0x80; 0x78; 0x01; 0x00; 0x00; 0x01] 1
  else
    lookup kext
      [0xf8; 0x03; 0x0f; 0x82; 0x78; 0xff; 0xff; 0xff; 0x49; 0x8b; 0x06; 0xc6; 0x80; 0x78; 0x01; 0x00]
      [0xf8; 0x00; 0x0f; 0x82; 0x78; 0xff; 0xff; 0xff; 0x49; 0x8b; 0x06; 0xc6; 0x80; 0x78; 0x01; 0x00] 1.

Definition unblockLegacyThunderbolt (kext : KextInfo) : M () :=
  amd ← lift (isAMD A);
  if negb amd then mret tt
  else if shouldSkipPatch (skipAGDCPatch A) then mret tt
  else
    pa_applyLookupPatch (thunderbolt_patch kext).

Definition disableIntelFramebufferAGDC (index : nat) (address size : Z) : M () :=
  if negb (enableIntelAGDCDisabler A) then mret tt
  else if probeMode A then mret tt
  else if skipAllPatches A then mret tt
  else
    let h := intelFBClientDoAttribute H in
    reqs ← applyRoutingPatch index
             (request "__ZN20IntelFBClientControl24vendor_doDeviceAttributeEjPmmS0_S0_P25IOExternalMethodArguments" h)
             address size;
    org ← load_int (h_org h) 8;
    if (match reqs with r :: _ => ctrue (r_from r) | [] => false end) && ctrue org then mret tt
    else
      clearError;;
      applyRoutingPatch index
        (request "__ZN20IntelFBClientControl11doAttributeEjPmmS0_S0_P25IOExternalMethodArguments" h) address size;;
      mret tt.

Definition forceIntelFramebufferOnlineDisplays (index : nat) (address size : Z) : M () :=
  if negb (enableIntelForceOnline A) then mret tt
  else if probeMode A then mret tt
  else if skipAllPatches A then mret tt
  else
    applyRoutingPatch index
      (request "__ZN21AppleIntelFramebuffer13GetOnlineInfoEPhS0_PNS_15DisplayPortTypeEPbb" (intelFramebufferGetOnlineInfo H))
      address size;;
    mret tt.

Definition bypassAMDProjectSelection (index : nat) (address size : Z) : M () :=
  amd_compat_route "__ZN17AMD9500Controller23findProjectByPartNumberEP20ControllerProperties"
    (amd9500FindProjectByPartNumber H) index address size.

Definition skipAMDVRAMTest (index : nat) (address size : Z) : M () :=
  amd_compat_route "__ZN13ATIController8TestVRAME13PCI_REG_INDEXb" (amdSupportTestVRAM H) index address size.

Definition stabiliseAMDAccelConfig (index : nat) (address size : Z) : M () :=
  amd_compat_route "__ZN37AMDRadeonX4000_AMDGraphicsAccelerator19populateAccelConfigEP13IOAccelConfig"
    (amdRadeonPopulateAccelConfig H) index address size.

Definition relaxAMDSharedUserClientOutputSizing (index : nat) (address size : Z) : M () :=
  amd_only (enableAMDSharedUserClientVariableOutput A)
    (applyRoutingPatch index
       (request "__ZN39AMDRadeonX4000_AMDAccelSharedUserClient26getTargetAndMethodForIndexEPP9IOServicej"
          (amdAccelSharedUserClientGetTargetAndMethodForIndex H)) address size;;
     mret tt).

Definition relaxIOAccelSharedUserClientOutputSizing (index : nat) (address size : Z) : M () :=
  amd_only (enableAMDSharedUserClientVariableOutput A)
    (applyRoutingPatch index
       (request "__ZN24IOAccelSharedUserClient226getTargetAndMethodForIndexEPP9IOServicej"
          (ioAccelSharedUserClientGetTargetAndMethodForIndex H)) address size;;
     mret tt).

Definition validateAMDDetailedTiming (index : nat) (address size : Z) : M () :=
  amd_only (enableAMDLinkValidationPatch A)
    (applyRoutingPatch index
       (request "__ZN16AtiDeviceControl16notifyLinkChangeE31kAGDCRegisterLinkControlEvent_tmj"
          (atiDeviceControlNotifyLinkChange H)) address size;;
     mret tt).

Definition relaxAMDFramebufferTimingValidation (index : nat) (address size : Z) : M () :=
  amd_only (enableAMDFramebufferValidationPatch A)
    (applyRoutingPatch index
       (request "__ZN14AMDFramebuffer22validateDetailedTimingEPvy" (amdFramebufferValidateDetailedTiming H)) address size;;
     mret tt).

(** [while ( *bitsPerComponent != 0) ...]: tens become eights. *)
Fixpoint clamp_bits (fuel : nat) (p : Z) : M () :=
  match fuel with
  | O => fail Fuel
  | S fuel =>
      v ← load_int p 4;
      if v =? 0 then mret tt
      else
        (if v =? 10 then
           w ← setKernelWriting E true;
           if w : bool then store_int E p 4 8;; setKernelWriting E false;; mret tt
           else clearError
         else mret tt);;
        clamp_bits fuel (p + 4)
  end.

Definition amdBitsPerComponentSymbol : string := "__ZL18BITS_PER_COMPONENT".

(** The bytes of a string constant without its terminator. *)
Fixpoint chars (s : string) : list Z :=
  match s with
  | EmptyString => []
  | String c s => Z.of_nat (Ascii.nat_of_ascii c) :: chars s
  end.

Definition output_patch (kext : KextInfo) : LookupPatch :=
  lookup kext (chars "--RRRRRRRRRRGGGGGGGGGGBBBBBBBBBB") (chars "--------RRRRRRRRGGGGGGGGBBBBBBBB") 2.

Definition bits_patch (kext : KextInfo) : LookupPatch :=
  lookup kext
    [0x05; 0x00; 0x00; 0x00; 0x08; 0x00; 0x00; 0x00; 0x0A; 0x00; 0x00; 0x00; 0x10; 0x00; 0x00; 0x00; 0x10; 0x00; 0x00; 0x00]
    [0x05; 0x00; 0x00; 0x00; 0x08; 0x00; 0x00; 0x00; 0x08; 0x00; 0x00; 0x00; 0x10; 0x00; 0x00; 0x00; 0x10; 0x00; 0x00; 0x00] 2.

Definition forceAMD24BitOutput (index : nat) (address size : Z) (kext : KextInfo) : M () :=
  amd_only (enableAMD24BitOutputClamp A)
    (bits ← solveSymbolIn index amdBitsPerComponentSymbol address size false;
     (if ctrue bits then s ← get; clamp_bits (S (base.size (kmem s))) bits else clearError);;
     pa_applyLookupPatch (output_patch kext);;
     pa_applyLookupPatch (bits_patch kext)).

Definition surface_patch (kext : KextInfo) : LookupPatch :=
  lookup kext
    [0x41; 0x83; 0xbd; 0xb0; 0x00; 0x00; 0x00; 0x00; 0x74; 0x5c]
    [0x45; 0x85; 0xe4; 0x74; 0x61; 0x85; 0xc9; 0x74; 0x5d; 0x90] 1.

Definition guardAMDIOSurfacePlaneInfo (kext : KextInfo) : M () :=
  amd_only (enableAMDIOSurfaceGuard A)
    (pa_applyLookupPatch (surface_patch kext)).

(** [if (!NVRAMArgs::isNVDA() && !NVRAMArgs::isAMD()) return;] *)
Definition egpu_only (patch : M ()) : M () :=
  nvda ← lift (isNVDA A);
  if nvda : bool then patch
  else amd ← lift (isAMD A); if amd : bool then patch else mret tt.

(** "IOPCITunnelled" and "IOPCITunnelleq". *)
Definition tunnelled_find : list Z := [0x49; 0x4f; 0x50; 0x43; 0x49; 0x54; 0x75; 0x6e; 0x6e; 0x65; 0x6c; 0x6c; 0x65; 0x64].
Definition tunnelled_repl : list Z := [0x49; 0x4f; 0x50; 0x43; 0x49; 0x54; 0x75; 0x6e; 0x6e; 0x65; 0x6c; 0x6c; 0x65; 0x71].

Definition tunnelled_patch (kext : KextInfo) : LookupPatch := lookup kext tunnelled_find tunnelled_repl 1.

Definition bypassPCITunnelled (kext : KextInfo) : M () :=
  egpu_only
    (if shouldSkipPatch (skipIOGFXPatch A) then mret tt
     else pa_applyLookupPatch (tunnelled_patch kext)).

Definition vit_patch (kext : KextInfo) : LookupPatch :=
  lookup kext [0xBA; 0x05; 0x00; 0x00; 0x00] [0xBA; 0x00; 0x00; 0x00; 0x00] 1.
Definition pik_patch (kext : KextInfo) : LookupPatch :=
  lookup kext [0x62; 0x6f; 0x61; 0x72; 0x64; 0x2d; 0x69; 0x64] [0x62; 0x6f; 0x61; 0x72; 0x64; 0x2d; 0x69; 0x78] 1.

Definition relaxGraphicsDevicePolicy (kext : KextInfo) : M () :=
  egpu_only
    (if shouldSkipPatch (skipAGDPPatch A) then mret tt
     else
       pa_applyLookupPatch (vit_patch kext);;
       pa_applyLookupPatch (pik_patch kext)).

(** The jump displacement the patched code has in this kernel. *)
Definition tunnel_compat (b : Z) (kext : KextInfo) : LookupPatch :=
  lookup kext
    [0xff; 0x90; 0xa8; 0x02; 0x00; 0x00; 0x48; 0x85; 0xc0; 0x0f; 0x84; b; 0x00; 0x00; 0x00]
    [0xff; 0x90; 0xa8; 0x02; 0x00; 0x00; 0x48; 0x85; 0xc0; 0x48; 0xe9; b; 0x00; 0x00; 0x00] 1.

(** (The same remark as for [thunderbolt_patch].) *)
Definition compat_patch (kext : KextInfo) : LookupPatch :=
  let v := version_major B in
  if (v =? HighSierra) || (v =? Mojave) then tunnel_compat 0xbc kext
  else if v =? Sequoia then tunnel_compat 0xd1 kext
  else tunnel_compat 0xb9 kext.

Definition bypassIOPCITunnelCompatible (kext : KextInfo) : M () :=
  if shouldSkipPatch (skipIOPCIPatch A) then mret tt else pa_applyLookupPatch (compat_patch kext).

Definition gpu_power_pref : list Z :=
  [0x46; 0x41; 0x34; 0x43; 0x45; 0x32; 0x38; 0x44; 0x2d; 0x42; 0x36; 0x32; 0x46; 0x2d;
   0x34; 0x43; 0x39; 0x39; 0x2d; 0x39; 0x43; 0x43; 0x33; 0x2d; 0x36; 0x38; 0x31;
   0x35; 0x36; 0x38; 0x36; 0x45; 0x33; 0x30; 0x46; 0x39; 0x3a; 0x67; 0x70; 0x75;
   0x2d; 0x70; 0x6f; 0x77; 0x65; 0x72; 0x2d; 0x70; 0x72; 0x65; 0x66].

Definition mux_patch (kext : KextInfo) : LookupPatch :=
  lookup kext (gpu_power_pref ++ [0x73]) (gpu_power_pref ++ [0x71]) 1.

Definition updateMuxControlNVRAMVar (kext : KextInfo) : M () :=
  if shouldSkipPatch (skipMuxPatch A) then mret tt
  else pa_applyLookupPatch (mux_patch kext).

Definition routeThunderboltEnumeration (index : nat) (address size : Z) : M () :=
  if shouldSkipPatch (skipTBRoutePatch A) then mret tt
  else if negb (skipThunderboltEnum B) then mret tt
  else
    let h := thunderboltShouldSkipEnumeration H in
    store_int E (h_org h) 8 0;;
    applyRoutingPatch index (request "__ZN24IOThunderboltSwitchType321shouldSkipEnumerationEv" h) address size;;
    mret tt.

Definition sequoia_patch (kext : KextInfo) : LookupPatch :=
  lookup kext [0x08; 0x00; 0x00; 0x00; 0x48; 0x04; 0x00; 0x00] [0x09; 0x00; 0x00; 0x00; 0x30; 0x05; 0x00; 0x00] 1.

Definition applySequoiaPatch (kext : KextInfo) : M () :=
  if shouldSkipPatch (skipSequoiaPatch A) then mret tt
  else if negb (isSequoiaForced A) then mret tt
  else pa_applyLookupPatch (sequoia_patch kext).

(** ** Dispatch *)

(** The ids of [kextList], in order. *)
Definition kext_ids : list string :=
  ["com.apple.AppleGPUWrangler"; "com.apple.iokit.IOGraphicsFamily"; "com.apple.driver.AppleMuxControl";
   "com.apple.iokit.IOThunderboltFamily"; "com.apple.iokit.IOPCIFamily"; "com.apple.kext.AMDRadeonX4000";
   "com.apple.kext.AMDRadeonX4000HWServices"; "com.apple.kext.AMD9500Controller"; "com.apple.kext.AMDFramebuffer";
   "com.apple.driver.AppleGraphicsDevicePolicy"; "com.apple.driver.AppleIntelFramebufferCapri";
   "com.apple.kext.AMDSupport"; "com.apple.iokit.IOAcceleratorFamily2"].

Definition targetKexts : list string :=
  ["/System/Library/Extensions/AppleGraphicsControl.kext/Contents/PlugIns/AppleGPUWrangler.kext/Contents/MacOS/AppleGPUWrangler";
   "/System/Library/Extensions/IOGraphicsFamily.kext/IOGraphicsFamily";
   "/System/Library/Extensions/AppleGraphicsControl.kext/Contents/PlugIns/AppleMuxControl.kext/Contents/MacOS/AppleMuxControl";
   "/System/Library/Extensions/IOThunderboltFamily.kext/Contents/MacOS/IOThunderboltFamily";
   "/System/Library/Extensions/IOPCIFamily.kext/IOPCIFamily";
   "/System/Library/Extensions/AMDRadeonX4000.kext/Contents/MacOS/AMDRadeonX4000";
   "/System/Library/Extensions/AMDRadeonX4000HWServices.kext/Contents/MacOS/AMDRadeonX4000HWServices";
   "/System/Library/Extensions/AMD9500Controller.kext/Contents/MacOS/AMD9500Controller";
   "/System/Library/Extensions/AMDFramebuffer.kext/Contents/MacOS/AMDFramebuffer";
   "/System/Library/Extensions/AppleGraphicsControl.kext/Contents/PlugIns/AppleGraphicsDevicePolicy.kext/Contents/MacOS/AppleGraphicsDevicePolicy";
   "/System/Library/Extensions/AMDSupport.kext/Contents/MacOS/AMDSupport"].
Definition iopcifamilyKextPaths : list string :=
  ["/System/Library/Extensions/IOPCIFamily.kext/IOPCIFamily";
   "/System/Library/Extensions/IOPCIFamily.kext/Contents/MacOS/IOPCIFamily"].
Definition intelFramebufferCapriKextPaths : list string :=
  ["/Library/Extensions/AppleIntelFramebufferCapri.kext/Contents/MacOS/AppleIntelFramebufferCapri";
   "/System/Library/Extensions/AppleIntelFramebufferCapri.kext/Contents/MacOS/AppleIntelFramebufferCapri"].
Definition amdSupportKextPaths : list string := ["/System/Library/Extensions/AMDSupport.kext/Contents/MacOS/AMDSupport"].
Definition ioAcceleratorFamily2KextPaths : list string :=
  ["/System/Library/Extensions/IOAcceleratorFamily2.kext/Contents/MacOS/IOAcceleratorFamily2"].

(** [&targetKexts[i], arraysize(targetKexts)]: what follows the element, and
    the size of the whole array. *)
Definition paths_from (i : nat) : list string * Z := (drop i targetKexts, zlen targetKexts).
Definition paths_of (l : list string) : list string * Z := (l, zlen l).

Definition kext_paths : list (list string * Z) :=
  [paths_from 0; paths_from 1; paths_from 2; paths_from 3; paths_of iopcifamilyKextPaths; paths_from 5; paths_from 6;
   paths_from 7; paths_from 8; paths_from 9; paths_of intelFramebufferCapriKextPaths; paths_of amdSupportKextPaths;
   paths_of ioAcceleratorFamily2KextPaths].

(** [kextList], with the indices Lilu has given the kexts it loaded. *)
Definition kextList (loadIndex : nat → nat) : list KextInfo :=
  imap (λ i '(id, (paths, num)), mkKext id paths num [true; false; false; false; false; false] (loadIndex i))
       (zip kext_ids kext_paths).

(** [if (!strcmp(kextList[i].id, kextList[n].id)) ...] *)
Definition on_id (kext : KextInfo) (n : nat) (act : M ()) : M () :=
  if bool_decide (kext_ids !! n = Some (kx_id kext)) then act else mret tt.

(** The body of the loop for a kext whose load index matches. *)
Definition dispatch (kext : KextInfo) (index : nat) (address size : Z) : M () :=
  on_id kext 0 (unblockLegacyThunderbolt kext;; bypassPCITunnelled kext;; applySequoiaPatch kext);;
  on_id kext 1 (bypassPCITunnelled kext);;
  on_id kext 9 (relaxGraphicsDevicePolicy kext);;
  on_id kext 10 (disableIntelFramebufferAGDC index address size;; forceIntelFramebufferOnlineDisplays index address size);;
  on_id kext 11 (skipAMDVRAMTest index address size;; validateAMDDetailedTiming index address size);;
  on_id kext 5 (bypassPCITunnelled kext;; stabiliseAMDAccelConfig index address size;; guardAMDIOSurfacePlaneInfo kext);;
  on_id kext 7 (bypassAMDProjectSelection index address size);;
  on_id kext 8 (relaxAMDFramebufferTimingValidation index address size;; forceAMD24BitOutput index address size kext);;
  on_id kext 2 (updateMuxControlNVRAMVar kext);;
  on_id kext 3 (routeThunderboltEnumeration index address size);;
  on_id kext 4 (bypassIOPCITunnelCompatible kext).

Fixpoint process_list (l : list KextInfo) (index : nat) (address size : Z) : M () :=
  match l with
  | [] => mret tt
  | k :: l =>
      (if bool_decide (kx_loadIndex k = index) then dispatch k index address size else mret tt);;
      process_list l index address size
  end.

(** [PatchSet::processKext] over [kextList]. *)
Definition processKext (kextList : list KextInfo) (index : nat) (address size : Z) : M () :=
  process_list kextList index address size;; clearError.
End patches.

(** ** Disabled patches *)

(** [c] returns and changes nothing. *)
Definition inert (c : M ()) : Prop := ∀ s, c s = Ret tt s.

Lemma inert_ret : inert (mret tt).
Proof. done. Qed.

Lemma inert_seq c d : inert c → inert d → inert (c;; d).
Proof. intros Hc Hd s. erewrite bind_Ret by apply Hc. apply Hd. Qed.

Lemma inert_if (b : bool) c d : inert c → inert d → inert (if b then c else d).
Proof. by destruct b. Qed.

Lemma inert_lift {X} (o : outcome X) (f : X → M ()) : (∃ r, o = Ok r) → (∀ r, inert (f r)) → inert (r ← lift o; f r).
Proof. intros [r ->] Hf s. cbn [lift]. erewrite bind_Ret by done. apply Hf. Qed.

Create HintDb inert.
#[export] Hint Resolve inert_ret inert_seq inert_if inert_lift isAMD_Ok isNVDA_Ok : inert.

Section guards.
  Context (E : env) (B : boot) (A : nvram) (H : hooks).
  Context (Hok : nvram_ok A) (Hoff : probeMode A || skipAllPatches A = true).

Lemma skip_all toggle : shouldSkipPatch A toggle = true.
Proof. unfold shouldSkipPatch. by rewrite Hoff. Qed.

Lemma probe_or c : inert (if probeMode A then mret tt else if skipAllPatches A then mret tt else c).
Proof. revert Hoff. destruct (probeMode A), (skipAllPatches A); done. Qed.

Lemma amd_only_inert flag c : inert (amd_only A flag c).
Proof.
  unfold amd_only. apply inert_lift; [by apply isAMD_Ok|]. intros r.
  apply inert_if; [done|]. apply inert_if; [done|]. apply probe_or.
Qed.

Lemma egpu_only_inert c : inert c → inert (egpu_only A c).
Proof.
  intros Hc. unfold egpu_only. apply inert_lift; [by apply isNVDA_Ok|]. intros r. apply inert_if; [done|].
  apply inert_lift; [by apply isAMD_Ok|]. intros r'. by apply inert_if.
Qed.

Lemma amd_compat_route_inert symbol h index address size : inert (amd_compat_route E A symbol h index address size).
Proof.
  intros s. unfold amd_compat_route, shouldSkipAMDCompatibilityPatch. destruct (isAMD_Ok A Hok) as [r ->].
  erewrite bind_Ret by (erewrite bind_Ret by done; done).
  revert Hoff. by destruct r, (enableAMDCompatibilityPatch A), (probeMode A), (skipAllPatches A).
Qed.

Lemma on_id_inert kext n c : inert c → inert (on_id kext n c).
Proof. intros Hc. by apply inert_if. Qed.

Lemma dispatch_inert kext index address size : inert (dispatch E B A H kext index address size).
Proof.
  assert (∀ k, inert (unblockLegacyThunderbolt E B A k)) as H1.
  { intros k. apply inert_lift; [by apply isAMD_Ok|]. intros r. apply inert_if; [done|]. by rewrite skip_all. }
  assert (∀ k, inert (bypassPCITunnelled E A k)) as H2 by (intros k; apply egpu_only_inert; by rewrite skip_all).
  unfold dispatch. repeat (apply inert_seq; [apply on_id_inert|]); try apply on_id_inert;
    repeat apply inert_seq; try done;
    unfold applySequoiaPatch, updateMuxControlNVRAMVar, routeThunderboltEnumeration, bypassIOPCITunnelCompatible;
    rewrite ?skip_all; try done;
    try apply amd_only_inert; try apply amd_compat_route_inert;
    try (apply egpu_only_inert; by rewrite skip_all);
    unfold disableIntelFramebufferAGDC, forceIntelFramebufferOnlineDisplays; (apply inert_if; [done|apply probe_or]).
Qed.

Lemma process_list_inert l index address size : inert (process_list E B A H l index address size).
Proof.
  induction l as [|k l IH]; cbn [process_list]; [done|]. apply inert_seq; [|done].
  apply inert_if; [apply dispatch_inert|done].
Qed.
End guards.

(** C11: in probe mode, or with all patches skipped, a loaded kext is left
    alone: whatever the kext, not a byte of kernel memory, no processor state
    and no patcher state but the error code changes. *)
Theorem probe_mode_inert (E : env) (B : boot) (A : nvram) (H : hooks) l index address size s :
  nvram_ok A → probeMode A || skipAllPatches A = true →
  processKext E B A H l index address size s = Ret tt (set_code s NoError).
Proof.
  intros Hok Hoff. unfold processKext. erewrite bind_Ret by (by apply process_list_inert). done.
Qed.

(** ** Dispatch *)

(** What the table promises for each kext. *)
Definition patches_of (E : env) (B : boot) (A : nvram) (H : hooks) (i : nat) (kext : KextInfo) (index : nat) (address size : Z) : M () :=
  match i with
  | 0%nat => unblockLegacyThunderbolt E B A kext;; bypassPCITunnelled E A kext;; applySequoiaPatch E A kext
  | 1%nat => bypassPCITunnelled E A kext
  | 2%nat => updateMuxControlNVRAMVar E A kext
  | 3%nat => routeThunderboltEnumeration E B A H index address size
  | 4%nat => bypassIOPCITunnelCompatible E B A kext
  | 5%nat => bypassPCITunnelled E A kext;; stabiliseAMDAccelConfig E A H index address size;; guardAMDIOSurfacePlaneInfo E A kext
  | 7%nat => bypassAMDProjectSelection E A H index address size
  | 8%nat => relaxAMDFramebufferTimingValidation E A H index address size;; forceAMD24BitOutput E A index address size kext
  | 9%nat => relaxGraphicsDevicePolicy E A kext
  | 10%nat => disableIntelFramebufferAGDC E A H index address size;; forceIntelFramebufferOnlineDisplays E A H index address size
  | 11%nat => skipAMDVRAMTest E A H index address size;; validateAMDDetailedTiming E A H index address size
  | _ => mret tt
  end.

Lemma seq_inert_r (c d : M ()) s : inert d → (c;; d) s = c s.
Proof. intros Hd. unfold mbind, M_bind. destruct (c s) as [[] s'| | | |]; [apply Hd|done..]. Qed.

Lemma seq_inert_l {X} (c : M ()) (d : M X) s : inert c → (c;; d) s = d s.
Proof. intros Hc. by erewrite bind_Ret by apply Hc. Qed.

Lemma seq_cong (c c' d d' : M ()) : (∀ s, c s = c' s) → (∀ s, d s = d' s) → ∀ s, (c;; d) s = (c';; d') s.
Proof. intros Hc Hd s. unfold mbind, M_bind. rewrite Hc. by destruct (c' s). Qed.

(** A step for another kext does nothing. *)
Lemma on_id_other kext n c : kext_ids !! n ≠ Some (kx_id kext) → inert (on_id kext n c).
Proof. intros Hn s. unfold on_id. by rewrite bool_decide_false. Qed.

Lemma on_id_this kext n c : kext_ids !! n = Some (kx_id kext) → on_id kext n c = c.
Proof. intros Hn. unfold on_id. by rewrite bool_decide_true. Qed.

Lemma dispatch_patches E B A H i kext index address size s :
  kext_ids !! i = Some (kx_id kext) →
  dispatch E B A H kext index address size s = patches_of E B A H i kext index address size s.
Proof.
  intros Hi. unfold dispatch.
  assert (∀ n c, n ≠ i → inert (on_id kext n c)) as Hother.
  { intros n c Hn. apply on_id_other. intros E1. apply Hn.
    eapply NoDup_lookup; [|exact E1|exact Hi]. apply (bool_decide_unpack _). vm_compute. exact I. }
  do 13 (destruct i as [|i];
    [repeat first [rewrite seq_inert_l by (apply Hother; done)
                  | rewrite (on_id_this kext _ _ Hi)
                  | rewrite seq_inert_r by (repeat apply inert_seq; apply Hother; done)];
     first [reflexivity | apply Hother; done]|]).
  apply lookup_lt_Some in Hi. cbn in Hi. lia.
Qed.

(** Each entry of the table carries its own bundle identifier and load index. *)
Lemma kextList_entry (loadIndex : nat → nat) j : (j < 13)%nat →
  ∃ k, kextList loadIndex !! j = Some k ∧ kx_loadIndex k = loadIndex j ∧ kext_ids !! j = Some (kx_id k).
Proof. intros Hj. do 13 (destruct j as [|j]; [eexists; done|]). lia. Qed.

(** The walk over the table from entry [n] on dispatches the one entry with
    the load index, if it is still ahead. *)
Lemma process_list_one E B A H (loadIndex : nat → nat) i kext index address size :
  kextList loadIndex !! i = Some kext → loadIndex i = index →
  (∀ j, (j < 13)%nat → loadIndex j = index → j = i) →
  ∀ l n, (∀ j k, l !! j = Some k → kextList loadIndex !! (n + j)%nat = Some k) → (n + length l = 13)%nat →
  ∀ s, process_list E B A H l index address size s =
    (if decide (n ≤ i)%nat then dispatch E B A H kext index address size else mret tt) s.
Proof.
  intros Hl Hix Huniq. assert (i < 13)%nat as Hi by (apply lookup_lt_Some in Hl; exact Hl).
  induction l as [|k l IH]; intros n Hlk Hn s; cbn [process_list length] in *.
  - by rewrite decide_False by lia.
  - destruct (kextList_entry loadIndex n) as (k' & Hk1 & Hk2 & _); [lia|].
    pose proof (Hlk 0%nat k eq_refl) as H0. rewrite Nat.add_0_r, Hk1 in H0. injection H0 as ->.
    assert (∀ s1, process_list E B A H l index address size s1 =
      (if decide (S n ≤ i)%nat then dispatch E B A H kext index address size else mret tt) s1) as Hrest.
    { apply IH; [|lia]. intros j k'' Hj. rewrite Nat.add_succ_comm. by apply (Hlk (S j)). }
    destruct (decide (n = i)) as [->|Hne].
    + rewrite Hl in Hk1. injection Hk1 as ->. rewrite bool_decide_true, decide_True by (congruence || lia).
      apply seq_inert_r. intros s1. by rewrite Hrest, decide_False by lia.
    + rewrite bool_decide_false; [|intros E1; apply Hne, Huniq; [lia|congruence]].
      rewrite seq_inert_l by done. rewrite Hrest. destruct (decide (S n ≤ i)%nat), (decide (n ≤ i)%nat); (done || lia).
Qed.

(** C27: the dispatch of a loaded kext: if exactly one entry of the table has
    the load index, the kext gets the patches the table lists for it, in
    order, and no other kext's, and the error code is cleared. *)
Theorem processKext_dispatches E B A H (loadIndex : nat → nat) i index address size s :
  (i < 13)%nat → loadIndex i = index → (∀ j, (j < 13)%nat → loadIndex j = index → j = i) →
  ∃ kext, kextList loadIndex !! i = Some kext ∧ kx_loadIndex kext = index ∧
    processKext E B A H (kextList loadIndex) index address size s =
    (patches_of E B A H i kext index address size;; clearError) s.
Proof.
  intros Hi Hix Huniq. destruct (kextList_entry loadIndex i Hi) as (kext & Hl & Hx & Hid).
  exists kext. split_conj; [done|congruence|]. unfold processKext, mbind, M_bind.
  rewrite (process_list_one E B A H loadIndex i kext index address size Hl Hix Huniq _ 0%nat) by (done || auto).
  rewrite decide_True by lia. by rewrite (dispatch_patches E B A H i).
Qed.

(** ** The byte patches *)

(** All byte patches of the plugin, with this kernel and these arguments. *)
Definition plugin_patches (B : boot) (A : nvram) (kext : KextInfo) : list LookupPatch :=
  [thunderbolt_patch B A kext; output_patch kext; bits_patch kext; surface_patch kext; tunnelled_patch kext;
   vit_patch kext; pik_patch kext; compat_patch B kext; mux_patch kext; sequoia_patch kext].

(** A table is sound if it reads no more than its arrays hold. *)
Definition table_ok (kext : KextInfo) (p : LookupPatch) : Prop :=
  lp_kext p = Some kext ∧ lp_size p = zlen (lp_find p) ∧ length (lp_replace p) = length (lp_find p) ∧
  0 < zlen (lp_find p) ≤ 52 ∧ 0 < lp_count p.

Lemma lookup_table_ok kext find repl count :
  length repl = length find → (0 < length find ≤ 52)%nat → 0 < count → table_ok kext (lookup kext find repl count).
Proof. unfold table_ok, zlen. cbn. intros. split_conj; (done || lia). Qed.

Lemma plugin_tables_ok B A kext p : p ∈ plugin_patches B A kext → table_ok kext p.
Proof.
  assert (table_ok kext (thunderbolt_patch B A kext)) as Ht.
  { unfold thunderbolt_patch. destruct (isOlderKernel B), (version_major B =? Sequoia);
      apply lookup_table_ok; (reflexivity || (cbn; lia)). }
  assert (table_ok kext (compat_patch B kext)) as Hc.
  { unfold compat_patch. destruct (_ || _), (version_major B =? Sequoia);
      apply lookup_table_ok; (reflexivity || (cbn; lia)). }
  unfold plugin_patches. rewrite !elem_of_cons, elem_of_nil.
  intros [->|[->|[->|[->|[->|[->|[->|[->|[->|[->|[]]]]]]]]]]]; try done;
    apply lookup_table_ok; (reflexivity || (cbn; lia)).
Qed.

(** What applying a patch to a kext's image relies on. *)
Record image_pre (s : kst) (kext : KextInfo) (ki : kinfo) : Prop := {
  i_lock : lock_held (kcpu s) = false;
  i_loaded : kx_loadIndex kext ≠ Unloaded;
  i_kinfo : kinfos s !! kx_loadIndex kext = Some ki;
  i_base : 0 ≤ running_mh ki;
  i_size : 52 ≤ memory_size ki ∧ running_mh ki + memory_size ki < 2 ^ 64;
  i_map : mapped (kmem s) (running_mh ki) (memory_size ki)
}.

Lemma pa_applyLookupPatch_Ret E `{!Granting E} s kext ki p :
  image_pre s kext ki → table_ok kext p →
  ∃ m' c t, replaced (lp_find p) (lp_replace p) (kmem s) (running_mh ki)
              (running_mh ki + memory_size ki - lp_size p) (Z.to_nat (lp_count p)) m' c ∧
    pa_applyLookupPatch E p s = Ret tt (patched s m' NoError t).
Proof.
  intros [Hl Hld Hk Hb [Hsz Hend] Hmap] (Hp1 & Hp2 & Hp3 & Hp4 & Hp5).
  destruct (applyLookupPatch_Ret E s kext ki (lp_find p) (lp_replace p) (lp_count p)) as (m' & c & t & Hrep & Hr).
  { split; (done || lia). }
  exists m', c, t. rewrite Hp2. split; [exact Hrep|].
  assert (p = mkLookup (Some kext) (lp_find p) (lp_replace p) (zlen (lp_find p)) (lp_count p)) as Ep.
  { destruct p; cbn in *; congruence. }
  unfold pa_applyLookupPatch. rewrite Ep at 1. erewrite bind_Ret by exact Hr. erewrite bind_Ret by done.
  unfold is_error. cbn [code patched]. destruct (Z.of_nat c =? lp_count p); [|done].
  destruct (bool_decide_reflect (code s = NoError)) as [E1|]; cbn [negb]; [|done]. by rewrite <- E1.
Qed.

(** Each byte patch of the plugin, on any mapped image large enough to hold
    it, runs to completion: it overwrites the first occurrences of its pattern,
    as many as the patch asks for, changes no other byte, leaves write
    protection, lock and interrupts as they were and no error behind. *)
Theorem plugin_patch_correct E `{!Granting E} B A s kext ki p :
  image_pre s kext ki → p ∈ plugin_patches B A kext →
  runs (pa_applyLookupPatch E p) s (λ _ s',
    ∃ c, replaced (lp_find p) (lp_replace p) (kmem s) (running_mh ki)
           (running_mh ki + memory_size ki - lp_size p) (Z.to_nat (lp_count p)) (kmem s') c ∧
      code s' = NoError ∧ kcpu s' = off_cpu (kcpu s) ∧ kinfos s' = kinfos s ∧ kpatches s' = kpatches s).
Proof.
  intros Hi Hp. destruct (pa_applyLookupPatch_Ret E s kext ki p Hi (plugin_tables_ok B A kext p Hp)) as (m' & c & t & Hrep & Hr).
  unfold runs. rewrite Hr. by exists c.
Qed.

(** An external GPU was named in the boot arguments. *)
Definition egpu (A : nvram) : bool :=
  bool_decide (isNVDA A = Ok true) || bool_decide (isAMD A = Ok true).

Lemma egpu_only_runs A c s : nvram_ok A → egpu A = true → egpu_only A c s = c s.
Proof.
  intros Hok He. unfold egpu, egpu_only in *. destruct (isNVDA_Ok A Hok) as [n Hn], (isAMD_Ok A Hok) as [a Ha].
  rewrite Hn, Ha in *. cbn [lift]. erewrite bind_Ret by done. destruct n; [done|].
  cbn [lift]. erewrite bind_Ret by done. by destruct a.
Qed.


(** ** Witnesses *)

(** A boot with [krygpu=AMD] and no other argument. *)
Definition ex_parse (name : string) (n : Z) : option (list Z) :=
  if bool_decide (name = "krygpu"%string) then Some (take (Z.to_nat n) (str_bytes "AMD")) else None.
Definition ex_boot : boot := mkBoot ex_parse 20 0.

#[global] Instance ex_boot_ok : BootOk ex_boot.
Proof.
  split; intros name n l; cbn [parse ex_boot]; unfold ex_parse; destruct (bool_decide _); try done.
  - intros Hn [= <-]. unfold zlen. rewrite length_take. lia.
  - intros [= <-]. apply Forall_take. unfold in_u. repeat constructor; vm_compute; congruence.
Qed.

Definition ex_args : nvram := init ex_boot nvram_zero.
Definition ex_hooks : hooks :=
  let h := mkHook 0x9000 0x8000 in mkHooks h h h h h h h h h h.

Lemma ex_args_ok : nvram_ok ex_args.
Proof. by apply (init_ok ex_boot). Qed.

(** IOGraphicsFamily, loaded at [0x1000] with the string at offset 8. *)
Definition ex_gimage : list Z := replicate 8 0x90 ++ tunnelled_find ++ replicate 42 0x90.
Definition ex_ginfo : kinfo := mkKinfo "IOGraphicsFamily" (λ _, 0) 0x1000 64 0 0.
Definition ex_gstate : kst :=
  mkKst (wr ∅ 0x1000 ex_gimage) (mkCpu true true false false false) 0 ∅ 1
        [mkKinfo "kernel" (λ _, 0) 0 0 0 0; mkKinfo "AppleGPUWrangler" (λ _, 0) 0 0 0 0; ex_ginfo] [] NoError 0.
Definition ex_gkext : KextInfo :=
  mkKext "com.apple.iokit.IOGraphicsFamily" (drop 1 targetKexts) 11 [true; false; false; false; false; false] 2.

Lemma ex_image_pre : image_pre ex_gstate ex_gkext ex_ginfo.
Proof.
  split; try reflexivity; cbn [running_mh memory_size ex_ginfo]; try (vm_compute; intuition congruence); try lia.
  intros x Hx. cbn [kmem ex_gstate]. rewrite lookup_wr_in by (unfold zlen; vm_compute (length _); lia).
  apply lookup_lt_is_Some. vm_compute (length _). lia.
Qed.

Lemma plugin_patch_correct_witness :
  tunnelled_patch ex_gkext ∈ plugin_patches ex_boot ex_args ex_gkext ∧
  runs (pa_applyLookupPatch ex_lenv (tunnelled_patch ex_gkext)) ex_gstate (λ _ s',
    ∃ c, replaced tunnelled_find tunnelled_repl (kmem ex_gstate) 0x1000 (0x1000 + 64 - 14) 1 (kmem s') c ∧
      code s' = NoError ∧ kcpu s' = off_cpu (kcpu ex_gstate) ∧ kinfos s' = kinfos ex_gstate ∧ kpatches s' = []).
Proof.
  assert (tunnelled_patch ex_gkext ∈ plugin_patches ex_boot ex_args ex_gkext) as Hin.
  { unfold plugin_patches. do 4 right. left. }
  split; [exact Hin|].
  exact (plugin_patch_correct ex_lenv ex_boot ex_args ex_gstate ex_gkext ex_ginfo _ ex_image_pre Hin).
Defined.

(** [loadIndex i = i + 1]. *)
Lemma ex_unique i : ∀ j, (j < 13)%nat → S j = S i → j = i.
Proof. lia. Qed.


(** The same run, evaluated. *)
Lemma graphics_family_run :
  match processKext ex_lenv ex_boot ex_args ex_hooks (kextList S) 2 0x1000 64 ex_gstate with
  | Ret _ s' => rd (kmem s') 0x1000 64 = Some (replicate 8 0x90 ++ tunnelled_repl ++ replicate 42 0x90)
  | _ => False
  end.
Proof. vm_compute. reflexivity. Qed.

Lemma processKext_dispatches_witness :
  ∃ kext, kextList S !! 1%nat = Some kext ∧ kx_loadIndex kext = 2%nat ∧
    processKext ex_lenv ex_boot ex_args ex_hooks (kextList S) 2 0x1000 64 ex_gstate =
    (patches_of ex_lenv ex_boot ex_args ex_hooks 1 kext 2 0x1000 64;; clearError) ex_gstate.
Proof.
  apply (processKext_dispatches ex_lenv ex_boot ex_args ex_hooks S 1 2 0x1000 64 ex_gstate);
    [lia|reflexivity|apply (ex_unique 1)].
Defined.

(** The arguments with [kryprobe]. *)
Definition ex_probe : nvram := init (mkBoot (λ name n,
  if bool_decide (name = "kryprobe"%string) then Some [1; 0; 0; 0] else ex_parse name n) 20 0) nvram_zero.

Lemma probe_mode_inert_witness :
  processKext ex_lenv ex_boot ex_probe ex_hooks (kextList S) 2 0x1000 64 ex_gstate = Ret tt (set_code ex_gstate NoError).
Proof. apply (probe_mode_inert ex_lenv ex_boot ex_probe ex_hooks); reflexivity. Defined.

(** The table promises eleven paths to these kexts, although fewer entries of
    [targetKexts] follow their own. *)
Theorem kext_paths_overrun : Forall (λ i, ∃ paths n, kext_paths !! i = Some (paths, n) ∧ zlen paths < n) [1; 2; 3; 5; 6; 7; 8; 9]%nat.
Proof. repeat constructor; eexists _, _; (split; [reflexivity|]); unfold zlen; cbn; lia. Qed.
End Kry.
