(* ===== verification/KryHooks.v ===== *)
(** * Kryptonite: the hooks ([Kryptonite/kern_hooks.cpp])

    The functions the plugin puts in place of graphics-driver functions.  An
    original is an argument that is missing until the routing patch has
    stored it; it may change the state in any way.  The I/O registry belongs
    to the kernel: it is the interface [Registry] with the documented laws
    [RegistryOk], against which the hooks are written and proved. *)

From Stdlib Require Import ZArith Lia.
From stdpp Require Import gmap strings.
From S2P Require Import Prelude LiluMachine KryNvram.

Module Hooks.
Import Machine Nvram.

Open Scope Z_scope.

(** ** The I/O registry *)

(** A property: an [OSBoolean], an [OSString] (whose characters may be
    missing), or any other object. *)
Inductive prop := PBool (b : bool) | PString (s : option string) | POther.

#[global] Instance prop_eq_dec : EqDecision prop.
Proof. solve_decision. Defined.

Class Registry (R : Type) := {
  getProperty : R → Z → string → option prop;
  setProperty : R → Z → string → prop → R;
  getProvider : R → Z → Z;
  registerService : R → Z → R
}.

(** [setProperty] stores the value under the key of that entry and nothing
    else, and does not move the entry. *)
Class RegistryOk (R : Type) `{!Registry R} : Prop := {
  get_set_eq r e k v : getProperty (setProperty r e k v) e k = Some v;
  get_set_ne r e k v e' k' : (e', k') ≠ (e, k) → getProperty (setProperty r e k v) e' k' = getProperty r e' k';
  provider_set r e k v e' : getProvider (setProperty r e k v) e' = getProvider r e'
}.

(** [OSDynamicCast(OSBoolean, p)]. *)
Definition as_boolean (p : option prop) : option bool := match p with Some (PBool b) => Some b | _ => None end.

(** ** State *)

(** [IOExternalMethod]. *)
Record extmethod := mkMethod { m_object : Z; m_func : Z; m_flags : Z; m_count0 : Z; m_count1 : Z }.

Section hooks.
  Context {R : Type} `{!Registry R}.

Record hst := mkHst {
  registry : R;
  hmem : mem;
  methods : gmap Z extmethod;
  logged : bool
}.

Definition set_registry (s : hst) (r : R) : hst := mkHst r (hmem s) (methods s) (logged s).
Definition set_hmem (s : hst) (m : mem) : hst := mkHst (registry s) m (methods s) (logged s).

(** Code that acts on the state. *)
Definition hk (X : Type) : Type := hst → outcome (X * hst).

#[global] Instance hk_ret : MRet hk := λ _ x s, Ok (x, s).
#[global] Instance hk_bind : MBind hk := λ _ _ f c s, '(x, s) ← c s; f x s.

Definition ub {X} : hk X := λ _, Ub.
Definition load_at (a : Z) (n : nat) : hk Z := λ s,
  match rd (hmem s) a n with Some l => Ok (le_val l, s) | None => Ub end.
Definition store_at (a : Z) (n : nat) (v : Z) : hk () := λ s,
  match rd (hmem s) a n with Some _ => Ok (tt, set_hmem s (wr (hmem s) a (le_bytes n v))) | None => Ub end.
Definition deref_method (a : Z) : hk extmethod := λ s,
  match methods s !! a with Some m => Ok (m, s) | None => Ub end.

(** ** Load properties *)

(** The registry afterwards, and whether it was changed. *)
Definition ensureBooleanProperty (r : R) (entry : Z) (key : string) (value : bool) : bool * R :=
  if entry =? 0 then (false, r)
  else if bool_decide (as_boolean (getProperty r entry key) = Some value) then (false, r)
  else (true, setProperty r entry key (PBool value)).

Definition has_property (r : R) (e : Z) (key : string) : bool := bool_decide (getProperty r e key ≠ None).

(** The walk over the providers: [changed], [pciProvider] and the registry. *)
Fixpoint prime_loop (fuel : nat) (current : Z) (changed : bool) (r : R) : outcome (bool * Z * R) :=
  if current =? 0 then Ok (changed, 0, r)
  else match fuel with
  | O => NoFuel
  | S fuel =>
      let '(c1, r) := ensureBooleanProperty r current "LoadAccelerator" true in
      let '(c2, r) := ensureBooleanProperty r current "LoadHWServices" true in
      let changed := changed || c1 || c2 in
      if has_property r current "vendor-id" && has_property r current "device-id" then Ok (changed, current, r)
      else prime_loop fuel (getProvider r current) changed r
  end.

Definition primeAMDLoadProperties (fuel : nat) (A : nvram) (service : Z) : hk () := λ s,
  if negb (enableAMDAccelPrime A) then Ok (tt, s)
  else if service =? 0 then Ok (tt, s)
  else
    '(changed, pciProvider, r) ← prime_loop fuel service false (registry s);
    if negb changed || (pciProvider =? 0) then Ok (tt, set_registry s r)
    else Ok (tt, set_registry s (registerService r pciProvider)).

(** ** The hooks *)

(** [IOReturn] values by their 32 bits. *)
Definition kIOReturnSuccess : Z := 0.
Definition kIOReturnNotFound : Z := 0xe00002f0.
Definition kIOReturnUnsupported : Z := 0xe00002c7.
Definition kAGDCRegisterCallback : Z := 0x923.
Definition kAGDCValidateDetailedTiming : Z := 10.
Definition kAMDSharedUserClientVariableOutputSelector : Z := 6003.
Definition kAMDSharedUserClientVariableOutputNormalizedSelector : Z := 2.
Definition kAMDTimingValidationFailure : Z := 0xe00002bc.
Definition kAMDTimingUnsupportedFailure : Z := 0xe00002c7.
Definition kIOUCTypeMask : Z := 0xf.
Definition kIOUCScalarIStructO : Z := 2.
Definition kIOUCStructIStructO : Z := 3.
Definition kIOUCVariableStructureSize : Z := 0xffffffff.

Definition forceLegacyAMDHdmiCapabilityMask : Z := 0.

Definition thunderboltShouldSkipEnumeration (B : boot) : Z := if skipThunderboltEnum B then 1 else 0.

(** [orgIntelFBClientDoAttribute], with its arguments after the attribute. *)
Definition intelFBClientDoAttribute (org : option (Z → Z → list Z → hk Z)) (fbclient attribute : Z) (args : list Z) : hk Z :=
  if attribute =? kAGDCRegisterCallback then mret kIOReturnUnsupported
  else match org with
  | None => mret kIOReturnUnsupported
  | Some org => org fbclient attribute args
  end.

Definition intelFramebufferGetOnlineInfo (org : option (Z → Z → list Z → hk Z)) (framebuffer displayConnected : Z) (args : list Z)
    : hk Z :=
  ret ← match org with Some org => org framebuffer displayConnected args | None => mret kIOReturnSuccess end;
  (if displayConnected =? 0 then mret tt
   else c ← load_at displayConnected 1; if c =? 0 then store_at displayConnected 1 1 else mret tt);;
  mret ret.

Definition amd9500FindProjectByPartNumber (fuel : nat) (A : nvram) (controller : Z) : hk Z :=
  primeAMDLoadProperties fuel A controller;; mret kIOReturnNotFound.

Definition amdSupportTestVRAM (fuel : nat) (A : nvram) (controller : Z) : hk bool :=
  primeAMDLoadProperties fuel A controller;; mret true.

(** [strncmp(codec, "AMD", strlen("AMD")) == 0]. *)
Definition amd_codec (codec : option string) : bool :=
  match codec with Some c => String.prefix "AMD" c | None => false end.

(** A missing flag is set, if [OSString::withCString("1")] succeeds. *)
Definition recover_flag (allocated : bool) (accel : Z) (key : string) (r : R) : R :=
  if has_property r accel key then r
  else if allocated then setProperty r accel key (PString (Some "1"%string)) else r.

Definition setAMDAccelGVAProperties (alloc : string → bool) (accelService : Z) : hk () := λ s,
  let r := registry s in
  if accelService =? 0 then Ok (tt, s)
  else match getProperty r accelService "IOGVACodec" with
  | Some (PString codec) =>
      if negb (amd_codec codec) then Ok (tt, s)
      else
        let r := recover_flag (alloc "IOGVAHEVCDecode"%string) accelService "IOGVAHEVCDecode" r in
        let r := recover_flag (alloc "IOGVAHEVCEncode"%string) accelService "IOGVAHEVCEncode" r in
        Ok (tt, set_registry s r)
  | _ => Ok (tt, set_registry s (setProperty r accelService "IOGVACodec" (PString (Some "VCE"%string))))
  end.

Definition amdRadeonPopulateAccelConfig (alloc : string → bool) (org : option (Z → Z → hk ())) (accelService accelConfig : Z) : hk () :=
  match org with Some org => org accelService accelConfig | None => mret tt end;;
  setAMDAccelGVAProperties alloc accelService.

(** What both method resolvers do with the method they were given; [global]
    is the address of [gAMDSharedUserClientVariableOutputMethod]. *)
Definition relax_method (global method : Z) : hk Z :=
  m ← deref_method method;
  let type := Z.land (m_flags m) kIOUCTypeMask in
  if negb (type =? kIOUCScalarIStructO) && negb (type =? kIOUCStructIStructO) then mret method
  else if m_count1 m =? kIOUCVariableStructureSize then mret method
  else λ s,
    let relaxed := mkMethod (m_object m) (m_func m) (m_flags m) (m_count0 m) kIOUCVariableStructureSize in
    Ok (global, mkHst (registry s) (hmem s) (<[global := relaxed]> (methods s)) (logged s)).

Definition observed_selector (index : Z) : bool :=
  (index =? kAMDSharedUserClientVariableOutputSelector) || (index =? kAMDSharedUserClientVariableOutputNormalizedSelector).

Definition set_logged : hk () := λ s, Ok (tt, mkHst (registry s) (hmem s) (methods s) true).

Definition amdAccelSharedUserClientGetTargetAndMethodForIndex (global : Z) (org : option (Z → Z → Z → hk Z))
    (userClient targetP index : Z) : hk Z :=
  match org with
  | None => mret 0
  | Some org =>
      method ← org userClient targetP index;
      if method =? 0 then mret 0
      else if negb (observed_selector index) then mret method
      else deref_method method;; set_logged;; relax_method global method
  end.

Definition ioAccelSharedUserClientGetTargetAndMethodForIndex (global : Z) (org : option (Z → Z → Z → hk Z))
    (userClient targetP index : Z) : hk Z :=
  match org with
  | None => mret 0
  | Some org =>
      method ← org userClient targetP index;
      if method =? 0 then mret 0
      else if negb (observed_selector index) then mret method
      else relax_method global method
  end.

(** The packed offsets of [framebufferIndex] and [modeStatus]. *)
Definition framebufferIndex_off : Z := 0.
Definition modeStatus_off : Z := 176.

Definition atiDeviceControlNotifyLinkChange (fuel : nat) (A : nvram) (org : option (Z → Z → Z → Z → hk bool))
    (atiDeviceControl event eventData eventFlags : Z) : hk bool :=
  ret ← match org with Some org => org atiDeviceControl event eventData eventFlags | None => mret false end;
  (if (event =? 1) || (event =? 2) || (event =? 0x5b) || (event =? 0x5d)
   then primeAMDLoadProperties fuel A atiDeviceControl else mret tt);;
  if (event =? kAGDCValidateDetailedTiming) && ctrue eventData then
    load_at (eventData + framebufferIndex_off) 4;;
    status ← load_at (eventData + modeStatus_off) 4;
    if negb ret || (status <? 1) || (3 <? status) then store_at (eventData + modeStatus_off) 4 2;; mret true
    else mret ret
  else mret ret.

Definition amdFramebufferValidateDetailedTiming (org : option (Z → Z → Z → hk Z)) (framebuffer timingData payloadSize : Z) : hk Z :=
  match org with
  | None => mret kIOReturnSuccess
  | Some org =>
      ret ← org framebuffer timingData payloadSize;
      if (payloadSize =? 0xCC) && ((ret =? kAMDTimingValidationFailure) || (ret =? kAMDTimingUnsupportedFailure))
      then mret kIOReturnSuccess else mret ret
  end.

Definition amdBaffinGetPixelEncodingCapabilities (controller : Z) : Z := forceLegacyAMDHdmiCapabilityMask.
Definition amdBaffinGetBitDepthCapabilities (controller : Z) : Z := forceLegacyAMDHdmiCapabilityMask.
Definition amdBaffinGetColorimetryCapabilities (controller : Z) : Z := forceLegacyAMDHdmiCapabilityMask.
Definition amdBaffinGetDynamicRangeCapabilities (controller : Z) : Z := forceLegacyAMDHdmiCapabilityMask.
End hooks.
Arguments hst : clear implicits.
Arguments hk : clear implicits.

(** ** Priming *)

Section priming.
  Context {R : Type} `{!Registry R, !RegistryOk R}.

(** The providers of [e], up to the root of the registry. *)
Inductive chain (r : R) : Z → list Z → Prop :=
| chain_root : chain r 0 []
| chain_up e l : e ≠ 0 → chain r (getProvider r e) l → chain r e (e :: l).

Definition is_pci (r : R) (e : Z) : bool := has_property r e "vendor-id" && has_property r e "device-id".

(** The entries up to the first PCI device, and that device. *)
Fixpoint visited (r : R) (l : list Z) : list Z :=
  match l with [] => [] | e :: l => if is_pci r e then [e] else e :: visited r l end.
Fixpoint pci_of (r : R) (l : list Z) : Z :=
  match l with [] => 0 | e :: l => if is_pci r e then e else pci_of r l end.

Definition load_keys : list string := ["LoadAccelerator"; "LoadHWServices"]%string.

Definition is_primed (r : R) (e : Z) : bool :=
  forallb (λ k, bool_decide (as_boolean (getProperty r e k) = Some true)) load_keys.

(** [r'] is [r] with the load properties of the entries in [l] true. *)
Record primed (r r' : R) (l : list Z) : Prop := {
  pr_provider e : getProvider r' e = getProvider r e;
  pr_other e k : ¬ (e ∈ l ∧ k ∈ load_keys) → getProperty r' e k = getProperty r e k;
  pr_set e k : e ∈ l → k ∈ load_keys → as_boolean (getProperty r' e k) = Some true
}.

(** The result and the registry of [ensureBooleanProperty]. *)
Lemma ensure_cases r e k v :
  e ≠ 0 →
  let '(c, r') := ensureBooleanProperty r e k v in
  c = negb (bool_decide (as_boolean (getProperty r e k) = Some v)) ∧
  (c = false → r' = r) ∧ as_boolean (getProperty r' e k) = Some v ∧
  (∀ e' k', (e', k') ≠ (e, k) → getProperty r' e' k' = getProperty r e' k') ∧ (∀ e', getProvider r' e' = getProvider r e').
Proof.
  intros He. unfold ensureBooleanProperty. rewrite (proj2 (Z.eqb_neq e 0)) by done. case_bool_decide as H.
  - split_conj; auto.
  - split_conj; [done|done| | |].
    + by rewrite get_set_eq.
    + intros. by apply get_set_ne.
    + intros. apply provider_set.
Qed.

(** One entry's two properties. *)
Lemma prime_entry r e :
  e ≠ 0 →
  ∃ c1 r1 c2 r2, ensureBooleanProperty r e "LoadAccelerator" true = (c1, r1) ∧
    ensureBooleanProperty r1 e "LoadHWServices" true = (c2, r2) ∧
    c1 || c2 = negb (is_primed r e) ∧ primed r r2 [e] ∧ (is_primed r e = true → r2 = r).
Proof.
  intros He. pose proof (ensure_cases r e "LoadAccelerator" true He) as H1.
  destruct (ensureBooleanProperty r e "LoadAccelerator" true) as [c1 r1] eqn:E1. destruct H1 as (Hc1 & Hr1 & Hv1 & Ho1 & Hp1).
  pose proof (ensure_cases r1 e "LoadHWServices" true He) as H2.
  destruct (ensureBooleanProperty r1 e "LoadHWServices" true) as [c2 r2] eqn:E2. destruct H2 as (Hc2 & Hr2 & Hv2 & Ho2 & Hp2).
  exists c1, r1, c2, r2. split_conj; [done|done| | |].
  - rewrite Hc1, Hc2, Ho1 by congruence. unfold is_primed, load_keys. cbn. by rewrite andb_true_r, negb_andb.
  - split.
    + intros e'. congruence.
    + intros e' k Hk. rewrite Ho2, Ho1; [done| |]; intros [= -> ->]; apply Hk; set_solver.
    + intros e' k ->%list_elem_of_singleton Hk. unfold load_keys in Hk. rewrite !elem_of_cons, elem_of_nil in Hk.
      destruct Hk as [->|[->|[]]]; [|done]. by rewrite Ho2 by congruence.
  - unfold is_primed, load_keys. cbn. rewrite andb_true_r, andb_true_iff. intros [B1 B2].
    rewrite Hc1, B1 in Hr1. rewrite Hc2, Ho1, B2 in Hr2 by congruence. cbn in Hr1, Hr2. by rewrite Hr2, Hr1.
Qed.

(** Priming moves no entry and makes no PCI device. *)
Lemma primed_is_pci r r' l e : primed r r' l → is_pci r' e = is_pci r e.
Proof.
  intros [_ Ho _]. unfold is_pci, has_property.
  rewrite !Ho; [done| |]; unfold load_keys; rewrite !elem_of_cons, elem_of_nil; intros [_ [|[|]]]; done.
Qed.

Lemma primed_visited r r' l k : primed r r' l → visited r' k = visited r k ∧ pci_of r' k = pci_of r k.
Proof.
  intros Hp. induction k as [|e k [IH1 IH2]]; cbn; [done|]. rewrite (primed_is_pci r r' l), IH1, IH2 by done. done.
Qed.

Lemma primed_chain r r' l e k : primed r r' l → chain r e k → chain r' e k.
Proof. intros Hp. induction 1; constructor; [done|]. by rewrite (pr_provider _ _ _ Hp). Qed.

Lemma primed_trans r r1 r2 l k : primed r r1 l → primed r1 r2 k → primed r r2 (l ++ k).
Proof.
  intros [P1 O1 S1] [P2 O2 S2]. split.
  - congruence.
  - intros e key Hn. rewrite O2, O1; [done| |]; set_solver.
  - intros e key He Hk. destruct (decide (e ∈ k)); [by apply S2|]. rewrite O2 by tauto. apply S1; set_solver.
Qed.

Lemma primed_refl r l : forallb (is_primed r) l = true → primed r r l.
Proof.
  intros H. split; [done|done|]. intros e k He%list_elem_of_In Hk%list_elem_of_In.
  by apply (proj1 (forallb_forall _ _) H), (proj1 (forallb_forall _ _)) with (x := k), bool_decide_eq_true_1 in He.
Qed.

Lemma prime_loop_Ok fuel cur changed r l :
  chain r cur l → (length l ≤ fuel)%nat →
  ∃ r', prime_loop fuel cur changed r = Ok (changed || negb (forallb (is_primed r) (visited r l)), pci_of r l, r') ∧
    primed r r' (visited r l) ∧ (forallb (is_primed r) (visited r l) = true → r' = r).
Proof.
  revert cur changed r l. induction fuel as [|fuel IH]; intros cur changed r l Hc Hl; destruct Hc as [|e l He Hc]; cbn [length] in Hl; try lia.
  1,2: cbn; exists r; rewrite orb_false_r; split_conj; [done| |done]; by apply primed_refl.
  cbn [prime_loop]. rewrite (proj2 (Z.eqb_neq e 0)) by done.
  destruct (prime_entry r e He) as (c1 & r1 & c2 & r2 & -> & -> & Hcc & Hp & Hsame).
  rewrite <- orb_assoc, Hcc. fold (is_pci r2 e). rewrite (primed_is_pci _ _ _ e Hp).
  cbn [visited pci_of]. destruct (is_pci r e); cbn [forallb].
  { exists r2. rewrite andb_true_r. done. }
  destruct (IH (getProvider r2 e) (changed || negb (is_primed r e)) r2 l) as (r' & -> & Hp' & Hs'); [|lia|].
  { rewrite (pr_provider _ _ _ Hp). by eapply primed_chain. }
  destruct (primed_visited r r2 [e] l Hp) as [Hv1 Hv2]. rewrite Hv1, Hv2 in *. exists r'. split_conj.
  - destruct (is_primed r e); cbn; [rewrite (Hsame eq_refl), orb_false_r; done|]. by rewrite orb_true_r.
  - exact (primed_trans r r2 r' [e] _ Hp Hp').
  - rewrite andb_true_iff. intros [E1 E2]. specialize (Hsame E1). subst r2. by apply Hs'.
Qed.


(** Priming is idempotent: if registering a service keeps the registry's
    providers and properties, a second call changes nothing and registers
    nothing again. *)
Theorem primeAMDLoadProperties_idempotent fuel A service (s : hst R) l :
  chain (registry s) service l → (length l ≤ fuel)%nat →
  (∀ r e e' k, getProperty (registerService r e) e' k = getProperty r e' k ∧ getProvider (registerService r e) e' = getProvider r e') →
  ∃ s1, primeAMDLoadProperties fuel A service s = Ok (tt, s1) ∧ primeAMDLoadProperties fuel A service s1 = Ok (tt, s1).
Proof.
  intros Hc Hl Hkeep. unfold primeAMDLoadProperties. destruct (enableAMDAccelPrime A); cbn [negb]; [|by exists s].
  destruct (Z.eqb_spec service 0); [by exists s|].
  destruct (prime_loop_Ok fuel service false (registry s) l Hc Hl) as (r' & -> & Hp & _). cbn [mbind outcome_bind].
  assert (∀ r2, primed (registry s) r2 (visited (registry s) l) →
    (x ← prime_loop fuel service false r2; let '(changed, pci, r) := x in
     if negb changed || (pci =? 0) then Ok (tt, set_registry s r) else Ok (tt, set_registry s (registerService r pci))) =
    Ok (tt, set_registry s r2)) as Hagain.
  { intros r2 Hp2. destruct (prime_loop_Ok fuel service false r2 l) as (r3 & -> & _ & Hs3); [by eapply primed_chain|done|].
    destruct (primed_visited _ r2 _ l Hp2) as [Hv1 Hv2]. rewrite Hv1 in *.
    assert (forallb (is_primed r2) (visited (registry s) l) = true) as Hall.
    { apply forallb_forall. intros e He%list_elem_of_In. apply forallb_forall. intros k Hk%list_elem_of_In.
      apply bool_decide_eq_true. by apply (pr_set _ _ _ Hp2). }
    rewrite Hall, Hs3 by done. done. }
  assert (primed (registry s) (registerService r' (pci_of (registry s) l)) (visited (registry s) l)) as Hp'.
  { destruct Hp as [P1 O1 S1]. split; intros e; intros.
    - rewrite (proj2 (Hkeep _ _ e ""%string)). apply P1.
    - rewrite (proj1 (Hkeep _ _ e _)). by apply O1.
    - rewrite (proj1 (Hkeep _ _ e _)). by apply S1. }
  destruct (_ || _); eexists; (split; [reflexivity|]); (destruct s; cbn [registry set_registry]; by apply Hagain).
Qed.
End priming.

(** ** Effects of the other hooks *)

Section effects.
  Context {R : Type} `{!Registry R, !RegistryOk R}.

Lemma hk_bind_Ok {X Y} (c : hk R X) (f : X → hk R Y) s x s' : c s = Ok (x, s') → (c ≫= f) s = f x s'.
Proof. unfold mbind at 1, hk_bind. by intros ->. Qed.

Lemma load_at_Ok a n (s : hst R) l : rd (hmem s) a n = Some l → load_at a n s = Ok (le_val l, s).
Proof. intros H. unfold load_at. by rewrite H. Qed.

Lemma store_at_Ok a n v (s : hst R) l : rd (hmem s) a n = Some l →
  store_at a n v s = Ok (tt, set_hmem s (wr (hmem s) a (le_bytes n v))).
Proof. intros H. unfold store_at. by rewrite H. Qed.

(** A status the framework accepts. *)
Definition status_ok (l : list Z) : bool := (1 <=? le_val l) && (le_val l <=? 3).

(** C30: after the hook, a detailed-timing validation has always succeeded with
    a status between 1 and 3: what the original (if any) left is kept if it
    reported success with such a status, and otherwise exactly the four
    status bytes are overwritten with 2. *)
Theorem notifyLinkChange_normalises fuel A (org : option (Z → Z → Z → Z → hk R bool)) device data flags (s s1 : hst R) ret fb st :
  data ≠ 0 →
  (match org with Some f => f device kAGDCValidateDetailedTiming data flags | None => mret false end : hk R bool) s = Ok (ret, s1) →
  rd (hmem s1) (data + framebufferIndex_off) 4 = Some fb → rd (hmem s1) (data + modeStatus_off) 4 = Some st →
  ∃ m st', atiDeviceControlNotifyLinkChange fuel A org device kAGDCValidateDetailedTiming data flags s = Ok (true, set_hmem s1 m) ∧
    rd m (data + modeStatus_off) 4 = Some st' ∧ status_ok st' = true ∧
    m = (if ret && status_ok st then hmem s1 else wr (hmem s1) (data + modeStatus_off) (le_bytes 4 2)).
Proof.
  intros Hd Horg Hfb Hst. unfold atiDeviceControlNotifyLinkChange. erewrite hk_bind_Ok by exact Horg.
  erewrite hk_bind_Ok by done. cbn [Z.eqb kAGDCValidateDetailedTiming Pos.eqb andb]. unfold ctrue.
  rewrite (proj2 (Z.eqb_neq data 0)) by done. cbn [negb].
  erewrite hk_bind_Ok by (by apply load_at_Ok). erewrite hk_bind_Ok by (by apply load_at_Ok).
  assert (negb ret || (le_val st <? 1) || (3 <? le_val st) = negb (ret && status_ok st)) as ->.
  { unfold status_ok. rewrite !negb_andb, <- orb_assoc, <- Z.ltb_antisym, <- Z.ltb_antisym. done. }
  destruct (ret && status_ok st) eqn:Hok; cbn [negb].
  - apply andb_true_iff in Hok as [-> Hok]. exists (hmem s1), st. split_conj; try done. by destruct s1.
  - erewrite hk_bind_Ok by (by eapply store_at_Ok). eexists _, _. split_conj; [reflexivity| | |reflexivity].
    + rewrite (rd_wr_same _ _ (le_bytes 4 2)). reflexivity.
    + reflexivity.
Qed.

(** After the hook the display counts as connected; the original's verdict and
    all other memory are kept. *)
Lemma getOnlineInfo_connected (org : option (Z → Z → list Z → hk R Z)) framebuffer p args (s s1 : hst R) ret c :
  p ≠ 0 → (match org with Some f => f framebuffer p args | None => mret kIOReturnSuccess end : hk R Z) s = Ok (ret, s1) →
  rd (hmem s1) p 1 = Some [c] →
  intelFramebufferGetOnlineInfo org framebuffer p args s = Ok (ret, set_hmem s1 (<[p := if c =? 0 then 1 else c]> (hmem s1))).
Proof.
  intros Hp Horg Hc. unfold intelFramebufferGetOnlineInfo. erewrite hk_bind_Ok by exact Horg.
  rewrite (proj2 (Z.eqb_neq p 0)) by done.
  assert (hmem s1 !! p = Some c) as Hl by (cbn in Hc; destruct (hmem s1 !! p); cbn in Hc; congruence).
  erewrite hk_bind_Ok; [reflexivity|]. erewrite hk_bind_Ok by (by apply load_at_Ok).
  cbn [le_val]. rewrite Z.mul_0_r, Z.add_0_r. destruct (c =? 0).
  - by erewrite store_at_Ok.
  - rewrite insert_id by done. by destruct s1.
Qed.

(** The failures the hook hides: exactly the two AMD codes, for the expected
    payload. *)
Lemma validateDetailedTiming_result f framebuffer data size (s s1 : hst R) ret :
  f framebuffer data size s = Ok (ret, s1) →
  amdFramebufferValidateDetailedTiming (Some f) framebuffer data size s =
  Ok (if decide (size = 0xCC ∧ (ret = kAMDTimingValidationFailure ∨ ret = kAMDTimingUnsupportedFailure)) then 0 else ret, s1).
Proof.
  intros Hf. unfold amdFramebufferValidateDetailedTiming. erewrite hk_bind_Ok by exact Hf.
  destruct (Z.eqb_spec size 0xCC), (Z.eqb_spec ret kAMDTimingValidationFailure), (Z.eqb_spec ret kAMDTimingUnsupportedFailure);
    cbn [andb orb]; destruct (decide _); (done || tauto).
Qed.

(** A method whose output is a structure. *)
Definition struct_output (m : extmethod) : bool :=
  (Z.land (m_flags m) kIOUCTypeMask =? kIOUCScalarIStructO) || (Z.land (m_flags m) kIOUCTypeMask =? kIOUCStructIStructO).

Definition relaxed (m : extmethod) : extmethod :=
  mkMethod (m_object m) (m_func m) (m_flags m) (m_count0 m) kIOUCVariableStructureSize.

Lemma relax_method_Ok global p (s : hst R) m :
  methods s !! p = Some m →
  ∃ q ms, relax_method global p s = Ok (q, mkHst (registry s) (hmem s) ms (logged s)) ∧
    ms !! q = Some (if struct_output m then relaxed m else m) ∧ (∀ a, a ≠ global → ms !! a = methods s !! a).
Proof.
  intros Hp. unfold relax_method. erewrite hk_bind_Ok; [|unfold deref_method; by rewrite Hp].
  unfold struct_output. rewrite <- negb_orb. destruct (_ || _); cbn [negb]; cycle 1.
  { exists p, (methods s). split_conj; [by destruct s|done|done]. }
  destruct (Z.eqb_spec (m_count1 m) kIOUCVariableStructureSize) as [Ev|].
  - exists p, (methods s). split_conj; [by destruct s| |done]. rewrite Hp. unfold relaxed. rewrite <- Ev. by destruct m.
  - eexists global, _. split_conj; [reflexivity|by rewrite lookup_insert_eq|]. intros a Ha. by rewrite lookup_insert_ne.
Qed.

(** The method both resolvers return for the two selectors is the
    original's with a variable output size if its output is a structure, and
    the original's otherwise; the driver's own method table is not modified. *)
Theorem resolvers_relax global f client target index (s s1 : hst R) p m :
  observed_selector index = true → f client target index s = Ok (p, s1) → p ≠ 0 → methods s1 !! p = Some m →
  Forall (λ resolver : hk R Z, ∃ q s2, resolver s = Ok (q, s2) ∧
    methods s2 !! q = Some (if struct_output m then relaxed m else m) ∧
    (∀ a, a ≠ global → methods s2 !! a = methods s1 !! a) ∧ registry s2 = registry s1 ∧ hmem s2 = hmem s1)
  [amdAccelSharedUserClientGetTargetAndMethodForIndex global (Some f) client target index;
   ioAccelSharedUserClientGetTargetAndMethodForIndex global (Some f) client target index].
Proof.
  intros Hsel Hf Hp Hm. repeat apply Forall_cons_2; [| |apply Forall_nil_2].
  all: unfold amdAccelSharedUserClientGetTargetAndMethodForIndex, ioAccelSharedUserClientGetTargetAndMethodForIndex;
    erewrite hk_bind_Ok by exact Hf; rewrite (proj2 (Z.eqb_neq p 0)), Hsel by done; cbn [negb].
  - erewrite hk_bind_Ok; [|unfold deref_method; by rewrite Hm]. erewrite hk_bind_Ok by done.
    destruct (relax_method_Ok global p (mkHst (registry s1) (hmem s1) (methods s1) true) m Hm) as (q & ms & -> & Hq & Ho).
    eexists q, _. split; [reflexivity|]. done.
  - destruct (relax_method_Ok global p s1 m Hm) as (q & ms & -> & Hq & Ho). eexists q, _. split; [reflexivity|]. done.
Qed.

(** The codec is a string, and an AMD codec has both flags. *)
Definition gva_complete (r : R) (accel : Z) : Prop :=
  ∃ codec, getProperty r accel "IOGVACodec" = Some (PString codec) ∧
    (amd_codec codec = true → has_property r accel "IOGVAHEVCDecode" = true ∧ has_property r accel "IOGVAHEVCEncode" = true).

Lemma recover_flag_spec r accel key :
  let r' := recover_flag true accel key r in
  has_property r' accel key = true ∧ (∀ e k, (e, k) ≠ (accel, key) → getProperty r' e k = getProperty r e k).
Proof.
  unfold recover_flag. destruct (has_property r accel key) eqn:Hk; [done|]. cbv zeta. split.
  - unfold has_property. by rewrite get_set_eq.
  - intros. by apply get_set_ne.
Qed.

(** If no allocation fails, setting the video-acceleration properties
    leaves a codec string and, for an AMD codec, both HEVC flags; it touches
    only these three properties of the accelerator, and doing it again
    changes nothing. *)
Theorem setAMDAccelGVAProperties_correct alloc accel (s : hst R) :
  accel ≠ 0 → (∀ k, alloc k = true) →
  ∃ s1, setAMDAccelGVAProperties alloc accel s = Ok (tt, s1) ∧ gva_complete (registry s1) accel ∧
    (∀ e k, e ≠ accel ∨ k ∉ ["IOGVACodec"; "IOGVAHEVCDecode"; "IOGVAHEVCEncode"]%string →
       getProperty (registry s1) e k = getProperty (registry s) e k) ∧
    setAMDAccelGVAProperties alloc accel s1 = Ok (tt, s1).
Proof.
  intros Ha Hal. unfold setAMDAccelGVAProperties. rewrite (proj2 (Z.eqb_neq accel 0)) by done.
  assert (∃ s1, Ok (tt, set_registry s (setProperty (registry s) accel "IOGVACodec" (PString (Some "VCE"%string)))) = Ok (tt, s1) ∧
    gva_complete (registry s1) accel ∧
    (∀ e k, e ≠ accel ∨ k ∉ ["IOGVACodec"; "IOGVAHEVCDecode"; "IOGVAHEVCEncode"]%string →
       getProperty (registry s1) e k = getProperty (registry s) e k) ∧
    match getProperty (registry s1) accel "IOGVACodec" with
    | Some (PString codec) => amd_codec codec = false
    | _ => False
    end) as (s1 & E1 & Hc1 & Ho1 & Hd1).
  { eexists. split; [reflexivity|]. cbn [registry set_registry]. split_conj.
    - exists (Some "VCE"%string). split; [apply get_set_eq|done].
    - intros e k Hk. apply get_set_ne. intros [= -> ->]. set_solver.
    - by rewrite get_set_eq. }
  destruct (getProperty (registry s) accel "IOGVACodec") as [[b|codec|]|] eqn:Hcodec.
  1,3,4: exists s1; split_conj; try done; (destruct (getProperty (registry s1) accel "IOGVACodec") as [[]|]; [done| |done..]); by rewrite Hd1.
  clear s1 E1 Hc1 Ho1 Hd1. destruct (amd_codec codec) eqn:Hamd; cbn [negb]; cycle 1.
  { exists s. rewrite Hcodec, Hamd. split_conj; try done. exists codec. by rewrite Hamd. }
  rewrite !Hal. destruct (recover_flag_spec (registry s) accel "IOGVAHEVCDecode") as [Hd Hdo].
  set (r1 := recover_flag true accel "IOGVAHEVCDecode" (registry s)) in *.
  destruct (recover_flag_spec r1 accel "IOGVAHEVCEncode") as [He Heo].
  set (r2 := recover_flag true accel "IOGVAHEVCEncode" r1) in *.
  assert (getProperty r2 accel "IOGVACodec" = Some (PString codec)) as Hc2 by (rewrite Heo, Hdo; done).
  assert (has_property r2 accel "IOGVAHEVCDecode" = true) as Hd2 by (unfold has_property in *; by rewrite Heo).
  exists (set_registry s r2). cbn [registry set_registry]. split_conj; [done| | |].
  - by exists codec.
  - intros e k Hk. rewrite Heo, Hdo; [done| |]; intros [= -> ->]; set_solver.
  - rewrite Hc2, Hamd. cbn [negb]. unfold recover_flag at 2. rewrite Hd2. unfold recover_flag. by rewrite He.
Qed.
End effects.

(** ** Witnesses *)

(** A registry as a table of properties, a provider for each entry and the
    services registered so far. *)
Record table := mkTable { t_props : gmap (Z * string) prop; t_providers : gmap Z Z; t_registered : list Z }.

#[global] Instance table_registry : Registry table := {
  getProperty t e k := t_props t !! (e, k);
  setProperty t e k v := mkTable (<[(e, k) := v]> (t_props t)) (t_providers t) (t_registered t);
  getProvider t e := default 0 (t_providers t !! e);
  registerService t e := mkTable (t_props t) (t_providers t) (t_registered t ++ [e])
}.

#[global] Instance table_registry_ok : RegistryOk table.
Proof.
  split; intros; cbn [getProperty setProperty getProvider table_registry t_props t_providers].
  - by rewrite lookup_insert_eq.
  - by rewrite lookup_insert_ne.
  - done.
Qed.

(** A controller 1 under a PCI device 2 under the root 3. *)
Definition ex_table : table :=
  mkTable {[(1, "LoadAccelerator"%string) := PBool true; (2, "vendor-id"%string) := POther; (2, "device-id"%string) := POther]}
          {[1 := 2; 2 := 3]} [].
Definition ex_hst : hst table := mkHst ex_table ∅ ∅ false.
Definition ex_prime : nvram :=
  mkNvram [0x41; 0x4d; 0x44; 0; 0] 0 false false false false false true false true false false false false false false
          false false false false false.

Lemma ex_chain : chain ex_table 1 [1; 2; 3].
Proof. repeat (constructor; [done|]). apply chain_root. Qed.


Lemma primeAMDLoadProperties_idempotent_witness :
  ∃ s1, primeAMDLoadProperties 3 ex_prime 1 ex_hst = Ok (tt, s1) ∧ primeAMDLoadProperties 3 ex_prime 1 s1 = Ok (tt, s1).
Proof.
  apply (primeAMDLoadProperties_idempotent 3 ex_prime 1 ex_hst [1; 2; 3] ex_chain (le_n 3)). done.
Defined.

(** A command block at address 64 whose status is 0. *)
Definition ex_cmd : hst table := mkHst ex_table (wr ∅ 64 (replicate 184 0)) ∅ false.

Lemma notifyLinkChange_normalises_witness :
  ∃ m st', atiDeviceControlNotifyLinkChange 3 ex_prime None 1 10 64 0 ex_cmd = Ok (true, set_hmem ex_cmd m) ∧
    rd m (64 + 176) 4 = Some st' ∧ status_ok st' = true ∧ m = wr (hmem ex_cmd) (64 + 176) (le_bytes 4 2).
Proof.
  refine (notifyLinkChange_normalises 3 ex_prime None 1 64 0 ex_cmd ex_cmd false [0; 0; 0; 0] [0; 0; 0; 0] _ _ _ _);
    [done|reflexivity|vm_compute; reflexivity|vm_compute; reflexivity].
Defined.

(** A driver table with one method at address 16. *)
Definition ex_method : extmethod := mkMethod 0 0x5000 3 0 24.
Definition ex_methods : hst table := mkHst ex_table ∅ {[16 := ex_method]} false.

Lemma resolvers_relax_witness :
  Forall (λ resolver : hk table Z, ∃ q s2, resolver ex_methods = Ok (q, s2) ∧
    methods s2 !! q = Some (relaxed ex_method) ∧
    (∀ a, a ≠ 8 → methods s2 !! a = methods ex_methods !! a) ∧ registry s2 = ex_table ∧ hmem s2 = ∅)
  [amdAccelSharedUserClientGetTargetAndMethodForIndex 8 (Some (λ _ _ _, mret 16)) 1 0 6003;
   ioAccelSharedUserClientGetTargetAndMethodForIndex 8 (Some (λ _ _ _, mret 16)) 1 0 6003].
Proof.
  refine (resolvers_relax 8 (λ _ _ _, mret 16) 1 0 6003 ex_methods ex_methods 16 ex_method _ _ _ _); (done || reflexivity).
Defined.

Lemma setAMDAccelGVAProperties_correct_witness :
  ∃ s1, setAMDAccelGVAProperties (λ _, true) 2 ex_hst = Ok (tt, s1) ∧ gva_complete (registry s1) 2 ∧
    (∀ e k, e ≠ 2 ∨ k ∉ ["IOGVACodec"; "IOGVAHEVCDecode"; "IOGVAHEVCEncode"]%string →
       getProperty (registry s1) e k = getProperty ex_table e k) ∧
    setAMDAccelGVAProperties (λ _, true) 2 s1 = Ok (tt, s1).
Proof. apply (setAMDAccelGVAProperties_correct (λ _, true) 2 ex_hst); done. Defined.

(** The relaxed method is one object for all callers: resolving a second
    method changes what the first caller holds. *)
Theorem relaxed_method_shared :
  let other := mkMethod 0 0x6000 3 0 48 in
  let s := mkHst ex_table ∅ {[16 := ex_method; 32 := other]} false in
  match (p ← relax_method 8 16; q ← relax_method 8 32; mret (p, q)) s with
  | Ok ((p, q), s') => p = q ∧ methods s' !! p = Some (relaxed other)
  | _ => False
  end.
Proof. vm_compute. split; reflexivity. Qed.
End Hooks.
