(* ===== verification/X86Decoder.v ===== *)
(** * The x86 instruction decoder of Capstone
    ([Lilu.kext/capstone/arch/X86/X86DisassemblerDecoder.c],
    [X86DisassemblerDecoder.h], [X86DisassemblerDecoderCommon.h], and [reader]
    of [X86Disassembler.c])

    The decoder in the configuration of [Lilu.xcodeproj]
    ([CAPSTONE_X86_REDUCE]): prefixes, opcode, table lookup, ModR/M, SIB,
    displacement, immediates and registers of one instruction.  A C function
    that works on [struct InternalInstruction] and returns 0 or nonzero is a
    computation of the monad [dec]: it transforms the structure and either
    produces a value or fails, and a failure keeps what was stored before it. *)

From Stdlib Require Import ZArith Lia.
From stdpp Require Import sets.
From S2P Require Import Prelude X86Tables.

Module X86Decoder.

Import X86Tables.
Open Scope c_scope.

(** ** Constants *)

(** [DisassemblerMode] *)
Definition MODE_16BIT := 0.
Definition MODE_32BIT := 1.
Definition MODE_64BIT := 2.

(** [VectorExtensionType] *)
Definition TYPE_NO_VEX_XOP := 0.
Definition TYPE_VEX_2B := 1.
Definition TYPE_VEX_3B := 2.
Definition TYPE_EVEX := 3.
Definition TYPE_XOP := 4.

(** [VEXPrefixCode], [VEXLeadingOpcodeByte], [XOPMapSelect] *)
Definition VEX_PREFIX_66 := 1.
Definition VEX_PREFIX_F3 := 2.
Definition VEX_PREFIX_F2 := 3.
Definition VEX_LOB_0F := 1.
Definition VEX_LOB_0F38 := 2.
Definition VEX_LOB_0F3A := 3.
Definition XOP_MAP_SELECT_8 := 8.
Definition XOP_MAP_SELECT_9 := 9.
Definition XOP_MAP_SELECT_A := 10.

(** [OpcodeType] *)
Definition ONEBYTE := 0.
Definition TWOBYTE := 1.
Definition THREEBYTE_38 := 2.
Definition THREEBYTE_3A := 3.
Definition XOP8_MAP := 4.
Definition XOP9_MAP := 5.
Definition XOPA_MAP := 6.
Definition T3DNOW_MAP := 7.

(** [attributeBits] *)
Definition ATTR_NONE := 0.
Definition ATTR_64BIT := 1 << 0.
Definition ATTR_XS := 1 << 1.
Definition ATTR_XD := 1 << 2.
Definition ATTR_REXW := 1 << 3.
Definition ATTR_OPSIZE := 1 << 4.
Definition ATTR_ADSIZE := 1 << 5.
Definition ATTR_VEX := 1 << 6.
Definition ATTR_VEXL := 1 << 7.
Definition ATTR_EVEX := 1 << 8.
Definition ATTR_EVEXL := 1 << 9.
Definition ATTR_EVEXL2 := 1 << 10.
Definition ATTR_EVEXK := 1 << 11.
Definition ATTR_EVEXKZ := 1 << 12.
Definition ATTR_EVEXB := 1 << 13.

(** [IC_OF] of [InstructionContext] *)
Definition IC_OF := 4.

(** [ModRMDecisionType] *)
Definition MODRM_ONEENTRY := 0.
Definition MODRM_SPLITRM := 1.
Definition MODRM_SPLITMISC := 2.
Definition MODRM_SPLITREG := 3.
Definition MODRM_FULL := 4.

(** [OperandEncoding] *)
Definition ENCODING_NONE := 0.
Definition ENCODING_REG := 1.
Definition ENCODING_RM := 2.
Definition ENCODING_RM_CD64 := 8.
Definition ENCODING_VVVV := 9.
Definition ENCODING_WRITEMASK := 10.
Definition ENCODING_CB := 11.
Definition ENCODING_CT := 16.
Definition ENCODING_IB := 17.
Definition ENCODING_IW := 18.
Definition ENCODING_ID := 19.
Definition ENCODING_IO := 20.
Definition ENCODING_RB := 21.
Definition ENCODING_RW := 22.
Definition ENCODING_RD := 23.
Definition ENCODING_RO := 24.
Definition ENCODING_FP := 25.
Definition ENCODING_Iv := 26.
Definition ENCODING_Ia := 27.
Definition ENCODING_Rv := 28.
Definition ENCODING_DUP := 29.
Definition ENCODING_SI := 30.
Definition ENCODING_DI := 31.

(** [CASE_ENCODING_RM] *)
Definition CASE_ENCODING_RM (e : Z) : bool := (ENCODING_RM <=? e) && (e <=? ENCODING_RM_CD64).

(** [OperandType], the values the decoder distinguishes *)
Definition TYPE_REL8 := 1.
Definition TYPE_R8 := 8.
Definition TYPE_R16 := 9.
Definition TYPE_R32 := 10.
Definition TYPE_R64 := 11.
Definition TYPE_MM := 57.
Definition TYPE_MM32 := 58.
Definition TYPE_MM64 := 59.
Definition TYPE_XMM := 60.
Definition TYPE_XMM32 := 61.
Definition TYPE_XMM64 := 62.
Definition TYPE_XMM128 := 63.
Definition TYPE_XMM256 := 64.
Definition TYPE_XMM512 := 65.
Definition TYPE_VK1 := 66.
Definition TYPE_VK8 := 69.
Definition TYPE_VK16 := 70.
Definition TYPE_SEGMENTREG := 74.
Definition TYPE_DEBUGREG := 75.
Definition TYPE_CONTROLREG := 76.
Definition TYPE_Rv := 78.

Definition X86_MAX_OPERANDS := 5.

(** [EADisplacement] *)
Definition EA_DISP_NONE := 0.
Definition EA_DISP_8 := 1.
Definition EA_DISP_16 := 2.
Definition EA_DISP_32 := 3.

(** [SegmentOverride] *)
Definition SEG_OVERRIDE_CS := 1.
Definition SEG_OVERRIDE_SS := 2.
Definition SEG_OVERRIDE_DS := 3.
Definition SEG_OVERRIDE_ES := 4.
Definition SEG_OVERRIDE_FS := 5.
Definition SEG_OVERRIDE_GS := 6.

(** [EABase]: no base, the 16-, 32- and 64-bit bases, then the registers. *)
Definition EA_BASE_NONE := 0.
Definition EA_BASE_BX_SI := 1.
Definition EA_BASE_EAX := 17.
Definition EA_BASE_sib := 21.
Definition EA_BASE_RAX := 33.
Definition EA_BASE_sib64 := 37.
Definition EA_REG_AL := 49.

(** [Reg]: the first register of each class, relative to [AL]. *)
Definition MODRM_REG_AL := 0.
Definition REG_SPL := 16.
Definition REG_AX := 20.
Definition REG_EAX := 36.
Definition REG_RAX := 52.
Definition REG_MM0 := 68.
Definition REG_XMM0 := 76.
Definition REG_YMM0 := 108.
Definition REG_ZMM0 := 140.
Definition REG_K0 := 172.
Definition REG_ES := 180.
Definition REG_DR0 := 186.
Definition REG_CR0 := 194.

(** [SIBIndex] and [SIBBase] *)
Definition SIB_INDEX_NONE := 0.
Definition SIB_INDEX_EAX := 17.
Definition SIB_INDEX_sib := 21.
Definition SIB_INDEX_RAX := 33.
Definition SIB_INDEX_sib64 := 37.
Definition SIB_BASE_NONE := 0.
Definition SIB_BASE_EAX := 1.
Definition SIB_BASE_RAX := 17.

(** ** Bit fields *)

Definition modFromModRM (modRM : Z) : Z := (modRM & 0xc0) >> 6.
Definition regFromModRM (modRM : Z) : Z := (modRM & 0x38) >> 3.
Definition rmFromModRM (modRM : Z) : Z := modRM & 0x7.
Definition scaleFromSIB (sib : Z) : Z := (sib & 0xc0) >> 6.
Definition indexFromSIB (sib : Z) : Z := (sib & 0x38) >> 3.
Definition baseFromSIB (sib : Z) : Z := sib & 0x7.
Definition wFromREX (rex : Z) : Z := (rex & 0x8) >> 3.
Definition rFromREX (rex : Z) : Z := (rex & 0x4) >> 2.
Definition xFromREX (rex : Z) : Z := (rex & 0x2) >> 1.
Definition bFromREX (rex : Z) : Z := rex & 0x1.

(** The inverted bits are the same in EVEX, VEX and XOP prefixes. *)
Definition rFromEVEX2of4 (e : Z) : Z := (Z.lnot e & 0x80) >> 7.
Definition xFromEVEX2of4 (e : Z) : Z := (Z.lnot e & 0x40) >> 6.
Definition bFromEVEX2of4 (e : Z) : Z := (Z.lnot e & 0x20) >> 5.
Definition r2FromEVEX2of4 (e : Z) : Z := (Z.lnot e & 0x10) >> 4.
Definition mmFromEVEX2of4 (e : Z) : Z := e & 0x3.
Definition wFromEVEX3of4 (e : Z) : Z := (e & 0x80) >> 7.
Definition vvvvFromEVEX3of4 (e : Z) : Z := (Z.lnot e & 0x78) >> 3.
Definition ppFromEVEX3of4 (e : Z) : Z := e & 0x3.
Definition zFromEVEX4of4 (e : Z) : Z := (e & 0x80) >> 7.
Definition l2FromEVEX4of4 (e : Z) : Z := (e & 0x40) >> 6.
Definition lFromEVEX4of4 (e : Z) : Z := (e & 0x20) >> 5.
Definition bFromEVEX4of4 (e : Z) : Z := (e & 0x10) >> 4.
Definition v2FromEVEX4of4 (e : Z) : Z := (Z.lnot e & 0x8) >> 3.
Definition aaaFromEVEX4of4 (e : Z) : Z := e & 0x7.
Definition mmmmmFromVEX2of3 (v : Z) : Z := v & 0x1f.
Definition lFromVEX3of3 (v : Z) : Z := (v & 0x4) >> 2.
(** [rFromVEX2of3], [rFromVEX2of2], [rFromXOP2of3], ... *)
Abbreviation rFromVEX := rFromEVEX2of4.
Abbreviation xFromVEX := xFromEVEX2of4.
Abbreviation bFromVEX := bFromEVEX2of4.
Abbreviation wFromVEX := wFromEVEX3of4.
Abbreviation vvvvFromVEX := vvvvFromEVEX3of4.
Abbreviation ppFromVEX := ppFromEVEX3of4.

(** ** The instruction being decoded *)

(** The members of [struct InternalInstruction]; the reader and its argument
    are the section variables below, [spec] and [operands] hold the index of
    the entry they point to. *)
Inductive field :=
| operandSize | prefix0 | prefix1 | prefix2 | prefix3
| isPrefix26 | isPrefix2e | isPrefix36 | isPrefix3e | isPrefix64 | isPrefix65
| isPrefix66 | isPrefix67 | isPrefixf0 | isPrefixf2 | isPrefixf3
| prefix26 | prefix2e | prefix36 | prefix3e | prefix64 | prefix65
| prefix66 | prefix67 | prefixf0 | prefixf2 | prefixf3
| rexPrefix | segmentOverride | consumedModRM | orgModRM | consumedSIB | sib
| consumedDisplacement | displacement | twoByteEscape | threeByteEscape
| sibIndex | sibScale | sibBase | numImmediatesConsumed | xAcquireRelease
| vectorExtensionPrefix0 | vectorExtensionPrefix1 | vectorExtensionPrefix2 | vectorExtensionPrefix3
| displacementOffset | immediateOffset
| readerCursor | mode | startLocation | length_ | vectorExtensionType | necessaryPrefixLocation
| registerSize | addressSize | displacementSize | immediateSize | immSize
| opcode | opcodeType | instructionID | spec | vvvv | writemask | modRM | firstByte
| numImmediatesTranslated | immediates0 | immediates1 | opcodeRegister
| eaBaseBase | eaRegBase | regBase | eaBase | eaDisplacement | reg | operands.

(** A number for each member, to compare them. *)
Definition field_id (f : field) : Z :=
  match f with
  | operandSize => 0 | prefix0 => 1 | prefix1 => 2 | prefix2 => 3 | prefix3 => 4
  | isPrefix26 => 5 | isPrefix2e => 6 | isPrefix36 => 7 | isPrefix3e => 8 | isPrefix64 => 9 | isPrefix65 => 10
  | isPrefix66 => 11 | isPrefix67 => 12 | isPrefixf0 => 13 | isPrefixf2 => 14 | isPrefixf3 => 15
  | prefix26 => 16 | prefix2e => 17 | prefix36 => 18 | prefix3e => 19 | prefix64 => 20 | prefix65 => 21
  | prefix66 => 22 | prefix67 => 23 | prefixf0 => 24 | prefixf2 => 25 | prefixf3 => 26
  | rexPrefix => 27 | segmentOverride => 28 | consumedModRM => 29 | orgModRM => 30 | consumedSIB => 31 | sib => 32
  | consumedDisplacement => 33 | displacement => 34 | twoByteEscape => 35 | threeByteEscape => 36
  | sibIndex => 37 | sibScale => 38 | sibBase => 39 | numImmediatesConsumed => 40 | xAcquireRelease => 41
  | vectorExtensionPrefix0 => 42 | vectorExtensionPrefix1 => 43 | vectorExtensionPrefix2 => 44
  | vectorExtensionPrefix3 => 45 | displacementOffset => 46 | immediateOffset => 47
  | readerCursor => 48 | mode => 49 | startLocation => 50 | length_ => 51 | vectorExtensionType => 52
  | necessaryPrefixLocation => 53 | registerSize => 54 | addressSize => 55 | displacementSize => 56
  | immediateSize => 57 | immSize => 58 | opcode => 59 | opcodeType => 60 | instructionID => 61 | spec => 62
  | vvvv => 63 | writemask => 64 | modRM => 65 | firstByte => 66 | numImmediatesTranslated => 67
  | immediates0 => 68 | immediates1 => 69 | opcodeRegister => 70 | eaBaseBase => 71 | eaRegBase => 72
  | regBase => 73 | eaBase => 74 | eaDisplacement => 75 | reg => 76 | operands => 77
  end.

Definition insn := field → Z.

Definition set (s : insn) (f : field) (v : Z) : insn :=
  fun g => if field_id g =? field_id f then v else s g.

(** ** The monad *)

Definition dec (A : Type) : Type := insn → outcome (insn * option A).

#[global] Instance dec_ret : MRet dec := fun A a s => Ok (s, Some a).
#[global] Instance dec_bind : MBind dec := fun A B k m s =>
  '(s, r) ← m s;
  match r with Some a => k a s | None => Ok (s, None) end.

(** [return -1] *)
Definition failed {A} : dec A := fun s => Ok (s, None).
Definition nofuel {A} : dec A := fun s => NoFuel.
Definition get (f : field) : dec Z := fun s => Ok (s, Some (s f)).
Definition put (f : field) (v : Z) : dec unit := fun s => Ok (set s f v, Some tt).
Definition lift {A} (o : outcome A) : dec A := fun s => a ← o; Ok (s, Some a).
(** A call whose failure the caller handles. *)
Definition attempt {A} (m : dec A) : dec (option A) := fun s => '(s, r) ← m s; Ok (s, Some r).
Definition when (b : bool) (m : dec unit) : dec unit := if b then m else mret tt.

Section decoder.

(** [struct reader_info]: the bytes, their number and the address of the first. *)
Context (code : list Z) (offset : Z).

(** ** Reading bytes *)

(** [reader] of [X86Disassembler.c] *)
Definition reader (address : Z) : outcome (option Z) :=
  if zlen code <=? u64 (address - offset) then Ok None
  else b ← aget code (u64 (address - offset)); Ok (Some b).

Definition read_at (address : Z) : dec Z :=
  r ← lift (reader address);
  match r with Some b => mret b | None => failed end.

Definition consumeByte : dec Z :=
  c ← get readerCursor;
  b ← read_at c;
  _ ← put readerCursor (u64 (c + 1));
  mret b.

Definition lookAtByte : dec Z := c ← get readerCursor; read_at c.

Definition unconsumeByte : dec unit :=
  c ← get readerCursor; put readerCursor (u64 (c - 1)).

(** The loop of [CONSUME_FUNC]; [cast] is the conversion to its type. *)
Fixpoint consume_loop (cast : Z → Z) (n : nat) (i combined : Z) : dec Z :=
  match n with
  | O => mret combined
  | S n =>
      c ← get readerCursor;
      byte ← read_at (u64 (c + i));
      consume_loop cast n (i + 1) (cast (combined .| cast (u64 (byte << (i * 8)))))
  end.

(** [CONSUME_FUNC(name, type)] for a type of [n] bytes *)
Definition consume (cast : Z → Z) (n : nat) : dec Z :=
  v ← consume_loop cast n 0 0;
  c ← get readerCursor;
  _ ← put readerCursor (u64 (c + Z.of_nat n));
  mret v.

Definition consumeInt8 : dec Z := consume (swrap 8) 1.
Definition consumeInt16 : dec Z := consume (swrap 16) 2.
Definition consumeInt32 : dec Z := consume (swrap 32) 4.
Definition consumeUInt16 : dec Z := consume (wrap 16) 2.
Definition consumeUInt32 : dec Z := consume (wrap 32) 4.
Definition consumeUInt64 : dec Z := consume (wrap 64) 8.

(** ** Prefixes *)

(** The presence flag and the location of a legacy prefix. *)
Definition prefix_slots (prefix : Z) : option (field * field) :=
  match prefix with
  | 0x26 => Some (isPrefix26, prefix26)
  | 0x2e => Some (isPrefix2e, prefix2e)
  | 0x36 => Some (isPrefix36, prefix36)
  | 0x3e => Some (isPrefix3e, prefix3e)
  | 0x64 => Some (isPrefix64, prefix64)
  | 0x65 => Some (isPrefix65, prefix65)
  | 0x66 => Some (isPrefix66, prefix66)
  | 0x67 => Some (isPrefix67, prefix67)
  | 0xf0 => Some (isPrefixf0, prefixf0)
  | 0xf2 => Some (isPrefixf2, prefixf2)
  | 0xf3 => Some (isPrefixf3, prefixf3)
  | _ => None
  end.

Definition setPrefixPresent (prefix location : Z) : dec unit :=
  match prefix_slots prefix with
  | Some (present, loc) => _ ← put present 1; put loc location
  | None => mret tt
  end.

Definition isPrefixAtLocation (s : insn) (prefix location : Z) : bool :=
  match prefix_slots prefix with
  | Some (present, loc) => ctrue (s present) && (s loc =? location)
  | None => false
  end.

Definition is_rex (b : Z) : bool := (b & 0xf0) =? 0x40.

(** The cases of the [switch] statements on prefix bytes. *)
Definition is_legacy (b : Z) : bool :=
  bool_decide (b ∈ [0xf2; 0xf3; 0xf0; 0x2e; 0x36; 0x3e; 0x26; 0x64; 0x65; 0x66; 0x67]).

(** [while(true)]: skip REX bytes; returns the byte after them. *)
Fixpoint rex_loop (fuel : nat) : dec Z :=
  match fuel with
  | O => nofuel
  | S fuel =>
      byte ← lookAtByte;
      if is_rex byte then _ ← consumeByte; rex_loop fuel else mret byte
  end.

(** The statement [if (insn->mode == MODE_64BIT)] of the prefix loop. *)
Definition skip_rex (fuel : nat) : dec unit :=
  m ← get mode;
  if m =? MODE_64BIT then
    byte ← consumeByte;
    if is_rex byte then
      byte ← rex_loop fuel;
      if is_legacy byte then mret tt else unconsumeByte
    else unconsumeByte
  else mret tt.

(** The check for [xacquire] and [xrelease] at the first byte. *)
Definition check_xacquire (byte : Z) : dec unit :=
  c ← get readerCursor;
  start ← get startLocation;
  if (u64 (c - 1) =? start) && ((byte =? 0xf2) || (byte =? 0xf3)) then
    nextByte ← lookAtByte;
    _ ← when ((nextByte =? 0xf0) || ((nextByte & 0xfe) =? 0x86) || ((nextByte & 0xf8) =? 0x90))
          (put xAcquireRelease 1);
    _ ← when ((byte =? 0xf3) && bool_decide (nextByte ∈ [0x88; 0x89; 0xc6; 0xc7])) (put xAcquireRelease 1);
    m ← get mode;
    if (m =? MODE_64BIT) && is_rex nextByte then
      _ ← consumeByte; _ ← lookAtByte; unconsumeByte
    else mret tt
  else mret tt.

Fixpoint clear (fs : list field) : dec unit :=
  match fs with
  | [] => mret tt
  | f :: fs => _ ← put f 0; clear fs
  end.

Definition group0 : list field := [isPrefixf2; isPrefixf3; isPrefixf0].
Definition group1 : list field := [isPrefix2e; isPrefix36; isPrefix3e; isPrefix26; isPrefix64; isPrefix65].

Definition segment_of (byte : Z) : option Z :=
  match byte with
  | 0x2e => Some SEG_OVERRIDE_CS
  | 0x36 => Some SEG_OVERRIDE_SS
  | 0x3e => Some SEG_OVERRIDE_DS
  | 0x26 => Some SEG_OVERRIDE_ES
  | 0x64 => Some SEG_OVERRIDE_FS
  | 0x65 => Some SEG_OVERRIDE_GS
  | _ => None
  end.

(** The [switch (byte)] of the prefix loop; returns [isPrefix], [hasAdSize]
    and [hasOpSize]. *)
Definition prefix_switch (byte loc : Z) (hasAdSize hasOpSize : bool) : dec (bool * bool * bool) :=
  match segment_of byte with
  | Some seg =>
      _ ← put segmentOverride seg;
      _ ← clear group1;
      _ ← setPrefixPresent byte loc;
      _ ← put prefix1 byte;
      mret (true, hasAdSize, hasOpSize)
  | None =>
      if (byte =? 0xf2) || (byte =? 0xf3) || (byte =? 0xf0) then
        _ ← clear group0;
        _ ← setPrefixPresent byte loc;
        _ ← put prefix0 byte;
        mret (true, hasAdSize, hasOpSize)
      else if byte =? 0x66 then
        _ ← setPrefixPresent byte loc;
        _ ← put prefix2 byte;
        mret (true, hasAdSize, true)
      else if byte =? 0x67 then
        _ ← setPrefixPresent byte loc;
        _ ← put prefix3 byte;
        mret (true, true, hasOpSize)
      else mret (false, hasAdSize, hasOpSize)
  end.

(** [while (isPrefix)]; returns [byte], [hasAdSize] and [hasOpSize]. *)
Fixpoint prefix_loop (fuel : nat) (hasAdSize hasOpSize : bool) : dec (Z * bool * bool) :=
  match fuel with
  | O => nofuel
  | S fuel' =>
      _ ← skip_rex fuel;
      prefixLocation ← get readerCursor;
      byte ← consumeByte;
      _ ← check_xacquire byte;
      r ← prefix_switch byte prefixLocation hasAdSize hasOpSize;
      let '(isPrefix, hasAdSize, hasOpSize) := r in
      if isPrefix : bool then prefix_loop fuel' hasAdSize hasOpSize else mret (byte, hasAdSize, hasOpSize)
  end.

(** [insn->necessaryPrefixLocation = insn->readerCursor - n] *)
Definition set_necessary (n : Z) : dec unit :=
  c ← get readerCursor; put necessaryPrefixLocation (u64 (c - n)).

(** The simulated REX prefix of the three- and four-byte prefixes. *)
Definition simulated_rex (b1 b2 : Z) : Z :=
  0x40 .| (wFromVEX b2 << 3) .| (rFromVEX b1 << 2) .| (xFromVEX b1 << 1) .| bFromVEX b1.

Definition put_rex (v : Z) : dec unit :=
  m ← get mode; when (m =? MODE_64BIT) (put rexPrefix v).

(** [if (byte == 0x62)]; returns [hasOpSize]. *)
Definition read_evex (byte : Z) (hasOpSize : bool) : dec bool :=
  m ← get mode;
  byte1 ← consumeByte;
  if ((m =? MODE_64BIT) || ((byte1 & 0xc0) =? 0xc0)) && ((Z.lnot byte1 & 0xc) =? 0xc) then
    byte2 ← lookAtByte;
    if (byte2 & 0x4) =? 0x4 then
      _ ← put vectorExtensionType TYPE_EVEX;
      _ ← put vectorExtensionPrefix0 byte;
      _ ← put vectorExtensionPrefix1 byte1;
      b2 ← consumeByte;
      _ ← put vectorExtensionPrefix2 b2;
      b3 ← consumeByte;
      _ ← put vectorExtensionPrefix3 b3;
      _ ← put_rex (simulated_rex byte1 b2);
      mret (if ppFromEVEX3of4 b2 =? VEX_PREFIX_66 then true else hasOpSize)
    else
      _ ← unconsumeByte;
      _ ← unconsumeByte;
      _ ← set_necessary 2;
      mret hasOpSize
  else
    _ ← unconsumeByte;
    _ ← unconsumeByte;
    mret hasOpSize.

(** The rest of a three-byte VEX or XOP prefix whose type was set. *)
Definition read_3of3 (byte : Z) (hasOpSize : bool) : dec bool :=
  _ ← put vectorExtensionPrefix0 byte;
  b1 ← consumeByte;
  _ ← put vectorExtensionPrefix1 b1;
  b2 ← consumeByte;
  _ ← put vectorExtensionPrefix2 b2;
  _ ← put_rex (simulated_rex b1 b2);
  mret (if ppFromVEX b2 =? VEX_PREFIX_66 then true else hasOpSize).

(** [else if (byte == 0xc4)] *)
Definition read_vex3 (byte : Z) (hasOpSize : bool) : dec bool :=
  m ← get mode;
  byte1 ← lookAtByte;
  if (m =? MODE_64BIT) || ((byte1 & 0xc0) =? 0xc0) then
    _ ← put vectorExtensionType TYPE_VEX_3B;
    _ ← set_necessary 1;
    read_3of3 byte hasOpSize
  else
    _ ← unconsumeByte;
    _ ← set_necessary 1;
    mret hasOpSize.

(** [else if (byte == 0xc5)] *)
Definition read_vex2 (byte : Z) (hasOpSize : bool) : dec bool :=
  m ← get mode;
  byte1 ← lookAtByte;
  if (m =? MODE_64BIT) || ((byte1 & 0xc0) =? 0xc0) then
    _ ← put vectorExtensionType TYPE_VEX_2B;
    _ ← put vectorExtensionPrefix0 byte;
    b1 ← consumeByte;
    _ ← put vectorExtensionPrefix1 b1;
    _ ← put_rex (0x40 .| (rFromVEX b1 << 2));
    mret (if ppFromVEX b1 =? VEX_PREFIX_66 then true else hasOpSize)
  else
    _ ← unconsumeByte;
    mret hasOpSize.

(** [else if (byte == 0x8f)] *)
Definition read_xop (byte : Z) (hasOpSize : bool) : dec bool :=
  byte1 ← lookAtByte;
  if negb ((byte1 & 0x38) =? 0) then
    _ ← put vectorExtensionType TYPE_XOP;
    _ ← set_necessary 1;
    read_3of3 byte hasOpSize
  else
    _ ← unconsumeByte;
    _ ← set_necessary 1;
    mret hasOpSize.

(** The second REX loop, which keeps the last REX byte. *)
Fixpoint last_rex (fuel : nat) (byte : Z) : dec Z :=
  match fuel with
  | O => nofuel
  | S fuel =>
      opcodeByte ← lookAtByte;
      if is_rex opcodeByte then byte ← consumeByte; last_rex fuel byte else mret byte
  end.

(** The last [else]: a REX prefix or the opcode. *)
Definition read_rex (byte : Z) : dec unit :=
  m ← get mode;
  if (m =? MODE_64BIT) && is_rex byte then
    byte ← last_rex (S (length code)) byte;
    _ ← put rexPrefix byte;
    set_necessary 2
  else
    _ ← unconsumeByte;
    set_necessary 1.

Definition put_sizes (register address disp immediate imm : Z) : dec unit :=
  _ ← put registerSize register;
  _ ← put addressSize address;
  _ ← put displacementSize disp;
  _ ← put immediateSize immediate;
  put immSize imm.

(** The sizes at the end of [readPrefixes]. *)
Definition set_sizes (hasAdSize hasOpSize : bool) : dec unit :=
  m ← get mode;
  rex ← get rexPrefix;
  let op a b : Z := if hasOpSize then a else b in
  let ad a b : Z := if hasAdSize then a else b in
  if m =? MODE_16BIT then put_sizes (op 4 2) (ad 4 2) (ad 4 2) (op 4 2) (op 4 2)
  else if m =? MODE_32BIT then put_sizes (op 2 4) (ad 2 4) (ad 2 4) (op 2 4) (op 2 4)
  else if m =? MODE_64BIT then
    if ctrue rex && ctrue (wFromREX rex) then put_sizes 8 (ad 4 8) 4 4 4
    else if ctrue rex then put_sizes (op 2 4) (ad 4 8) (op 2 4) (op 2 4) (op 2 4)
    else put_sizes (op 2 4) (ad 4 8) (op 2 4) (op 2 4) (op 4 8)
  else mret tt.

Definition readPrefixes : dec unit :=
  _ ← set_necessary 1;
  r ← prefix_loop (S (length code)) false false;
  let '(byte, hasAdSize, hasOpSize) := r in
  _ ← put vectorExtensionType TYPE_NO_VEX_XOP;
  hasOpSize ← (if byte =? 0x62 then read_evex byte hasOpSize
               else if byte =? 0xc4 then read_vex3 byte hasOpSize
               else if byte =? 0xc5 then read_vex2 byte hasOpSize
               else if byte =? 0x8f then read_xop byte hasOpSize
               else _ ← read_rex byte; mret hasOpSize);
  set_sizes hasAdSize hasOpSize.

(** ** ModR/M, SIB and displacement *)

(** [switch (insn->eaDisplacement)] *)
Definition disp_switch (d : Z) : dec unit :=
  match d with
  | 0 => put consumedDisplacement 0
  | 1 => d8 ← consumeInt8; put displacement d8
  | 2 => d16 ← consumeInt16; put displacement d16
  | 3 => d32 ← consumeInt32; put displacement d32
  | _ => mret tt
  end.

Definition readDisplacement : dec unit :=
  done_ ← get consumedDisplacement;
  if ctrue done_ then mret tt
  else
    _ ← put consumedDisplacement 1;
    c ← get readerCursor;
    start ← get startLocation;
    _ ← put displacementOffset (u8 (c - start));
    d ← get eaDisplacement;
    disp_switch d.

(** The base of a SIB byte: no base, or [sibBaseBase + base]; with mod 3 the
    function fails. *)
Definition sib_base (sibBaseBase base : Z) : dec unit :=
  if (base =? 0x5) || (base =? 0xd) then
    m ← get modRM;
    match modFromModRM m with
    | 0 => _ ← put eaDisplacement EA_DISP_32; put sibBase SIB_BASE_NONE
    | 1 => _ ← put eaDisplacement EA_DISP_8; put sibBase (sibBaseBase + base)
    | 2 => _ ← put eaDisplacement EA_DISP_32; put sibBase (sibBaseBase + base)
    | 3 => failed
    | _ => mret tt
    end
  else put sibBase (sibBaseBase + base).

(** The members the SIB byte determines, after it was read. *)
Definition use_sib (sibIndexBase sibBaseBase b : Z) : dec unit :=
  rex ← get rexPrefix;
  vet ← get vectorExtensionType;
  v3 ← get vectorExtensionPrefix3;
  let index := indexFromSIB b .| (xFromREX rex << 3) in
  let index := if vet =? TYPE_EVEX then index .| (v2FromEVEX4of4 v3 << 4) else index in
  _ ← put sibIndex (if index =? 0x4 then SIB_INDEX_NONE
                    else if (sibIndexBase + index =? SIB_INDEX_sib) || (sibIndexBase + index =? SIB_INDEX_sib64)
                    then SIB_INDEX_NONE else sibIndexBase + index);
  _ ← put sibScale (1 << scaleFromSIB b);
  sib_base sibBaseBase (baseFromSIB b .| (bFromREX rex << 3)).

Definition readSIB : dec unit :=
  done_ ← get consumedSIB;
  if ctrue done_ then mret tt
  else
    _ ← put consumedSIB 1;
    a ← get addressSize;
    if a =? 2 then failed
    else
      let '(sibIndexBase, sibBaseBase) :=
        if a =? 4 then (SIB_INDEX_EAX, SIB_BASE_EAX)
        else if a =? 8 then (SIB_INDEX_RAX, SIB_BASE_RAX)
        else (SIB_INDEX_NONE, SIB_BASE_NONE) in
      b ← consumeByte;
      _ ← put sib b;
      use_sib sibIndexBase sibBaseBase b.

(** [switch (insn->addressSize)], case 2 *)
Definition ea_16 (m rm : Z) : dec unit :=
  _ ← put eaBaseBase EA_BASE_BX_SI;
  match m with
  | 0 =>
      if rm =? 0x6 then
        _ ← put eaBase EA_BASE_NONE;
        _ ← put eaDisplacement EA_DISP_16;
        readDisplacement
      else
        _ ← put eaBase (EA_BASE_BX_SI + rm);
        put eaDisplacement EA_DISP_NONE
  | 1 =>
      _ ← put eaBase (EA_BASE_BX_SI + rm);
      _ ← put eaDisplacement EA_DISP_8;
      _ ← put displacementSize 1;
      readDisplacement
  | 2 =>
      _ ← put eaBase (EA_BASE_BX_SI + rm);
      _ ← put eaDisplacement EA_DISP_16;
      readDisplacement
  | 3 =>
      b ← get eaRegBase;
      _ ← put eaBase (b + rm);
      _ ← put eaDisplacement EA_DISP_NONE;
      readDisplacement
  | _ => mret tt
  end.

(** The [r/m] values that announce a SIB byte. *)
Definition has_sib (rm : Z) : bool := (rm =? 0x14) || (rm =? 0x4) || (rm =? 0xc).

(** [switch (insn->addressSize)], cases 4 and 8 *)
Definition ea_32 (a m rm : Z) : dec unit :=
  let base := if a =? 4 then EA_BASE_EAX else EA_BASE_RAX in
  _ ← put eaBaseBase base;
  match m with
  | 0 =>
      _ ← put eaDisplacement EA_DISP_NONE;
      if has_sib rm then
        _ ← put eaBase (if a =? 4 then EA_BASE_sib else EA_BASE_sib64);
        _ ← readSIB;
        readDisplacement
      else if (rm =? 0x5) || (rm =? 0xd) then
        _ ← put eaBase EA_BASE_NONE;
        _ ← put eaDisplacement EA_DISP_32;
        readDisplacement
      else put eaBase (base + rm)
  | 1 | 2 =>
      _ ← when (m =? 1) (put displacementSize 1);
      _ ← put eaDisplacement (if m =? 0x1 then EA_DISP_8 else EA_DISP_32);
      if has_sib rm then
        _ ← put eaBase EA_BASE_sib;
        _ ← readSIB;
        readDisplacement
      else
        _ ← put eaBase (base + rm);
        readDisplacement
  | 3 =>
      _ ← put eaDisplacement EA_DISP_NONE;
      b ← get eaRegBase;
      put eaBase (b + rm)
  | _ => mret tt
  end.

(** The register bases for [registerSize]. *)
Definition reg_bases : dec unit :=
  n ← get registerSize;
  match n with
  | 2 => _ ← put regBase REG_AX; put eaRegBase (EA_REG_AL + REG_AX)
  | 4 => _ ← put regBase REG_EAX; put eaRegBase (EA_REG_AL + REG_EAX)
  | 8 => _ ← put regBase REG_RAX; put eaRegBase (EA_REG_AL + REG_RAX)
  | _ => mret tt
  end.

(** Whether the ModR/M byte is that of a move of a control or debug register. *)
Definition is_mov_cr (s : insn) : bool :=
  (s firstByte =? 0x0f) && (s opcodeType =? TWOBYTE) && (0x20 <=? s opcode) && (s opcode <=? 0x23).

Definition read_state : dec insn := fun s => Ok (s, Some s).

Definition readModRM : dec unit :=
  done_ ← get consumedModRM;
  if ctrue done_ then mret tt
  else
    b ← consumeByte;
    _ ← put modRM b;
    _ ← put consumedModRM 1;
    _ ← put orgModRM b;
    s ← read_state;
    let b := if is_mov_cr s then b .| 0xc0 else b in
    _ ← put modRM b;
    _ ← reg_bases;
    let r := regFromModRM b .| (rFromREX (s rexPrefix) << 3) in
    let rm := rmFromModRM b .| (bFromREX (s rexPrefix) << 3) in
    let evex := s vectorExtensionType =? TYPE_EVEX in
    let r := if evex then r .| (r2FromEVEX2of4 (s vectorExtensionPrefix1) << 4) else r in
    let rm := if evex then rm .| (xFromEVEX2of4 (s vectorExtensionPrefix1) << 4) else rm in
    rb ← get regBase;
    _ ← put reg (rb + r);
    match s addressSize with
    | 2 => ea_16 (modFromModRM b) rm
    | 4 | 8 => ea_32 (s addressSize) (modFromModRM b) rm
    | _ => mret tt
    end.

(** ** Opcode *)

(** [insn->opcodeType = t; return consumeByte(insn, &insn->opcode);] *)
Definition opcode_of_type (t : Z) : dec unit :=
  _ ← put opcodeType t;
  b ← consumeByte;
  put opcode b.

(** The prefixes that carry the leading opcode bytes; [None] when there is none. *)
Definition vector_opcode (s : insn) : option (dec unit) :=
  let v1 := s vectorExtensionPrefix1 in
  if s vectorExtensionType =? TYPE_EVEX then
    Some (match mmFromEVEX2of4 v1 with
          | 1 => opcode_of_type TWOBYTE
          | 2 => opcode_of_type THREEBYTE_38
          | 3 => opcode_of_type THREEBYTE_3A
          | _ => failed
          end)
  else if s vectorExtensionType =? TYPE_VEX_3B then
    Some (match mmmmmFromVEX2of3 v1 with
          | 1 => _ ← put twoByteEscape 0x0f; opcode_of_type TWOBYTE
          | 2 => _ ← put twoByteEscape 0x0f; _ ← put threeByteEscape 0x38; opcode_of_type THREEBYTE_38
          | 3 => _ ← put twoByteEscape 0x0f; _ ← put threeByteEscape 0x3a; opcode_of_type THREEBYTE_3A
          | _ => failed
          end)
  else if s vectorExtensionType =? TYPE_VEX_2B then
    Some (_ ← put twoByteEscape 0x0f; opcode_of_type TWOBYTE)
  else if s vectorExtensionType =? TYPE_XOP then
    Some (match mmmmmFromVEX2of3 v1 with
          | 8 => opcode_of_type XOP8_MAP
          | 9 => opcode_of_type XOP9_MAP
          | 10 => opcode_of_type XOPA_MAP
          | _ => failed
          end)
  else None.

Definition readOpcode : dec unit :=
  _ ← put opcodeType ONEBYTE;
  _ ← put firstByte 0;
  s ← read_state;
  match vector_opcode s with
  | Some m => m
  | None =>
      current ← consumeByte;
      _ ← put firstByte current;
      current ←
        (if current =? 0x0f then
           _ ← put twoByteEscape current;
           current ← consumeByte;
           if current =? 0x38 then
             _ ← put threeByteEscape current;
             current ← consumeByte;
             _ ← put opcodeType THREEBYTE_38;
             mret current
           else if current =? 0x3a then
             _ ← put threeByteEscape current;
             current ← consumeByte;
             _ ← put opcodeType THREEBYTE_3A;
             mret current
           else mret current
         else mret current);
      put opcode current
  end.

(** ** The instruction of an opcode *)

Definition contextForAttrs (attrMask : Z) : outcome Z := aget x86DisassemblerContexts attrMask.

(** The decisions and the context index of an opcode type; the reduced build
    has no tables for the XOP and 3DNow types and takes the default. *)
Definition opcode_tables (ty : Z) : list OpcodeDecision * list Z :=
  if ty =? TWOBYTE then (x86DisassemblerTwoByteOpcodes, index_x86DisassemblerTwoByteOpcodes)
  else if ty =? THREEBYTE_38 then (x86DisassemblerThreeByte38Opcodes, index_x86DisassemblerThreeByte38Opcodes)
  else if ty =? THREEBYTE_3A then (x86DisassemblerThreeByte3AOpcodes, index_x86DisassemblerThreeByte3AOpcodes)
  else (x86DisassemblerOneByteOpcodes, index_x86DisassemblerOneByteOpcodes).

Definition modRMRequired (ty insnContext opc : Z) : outcome bool :=
  let '(decision, indextable) := opcode_tables ty in
  index ← aget indextable insnContext;
  if ctrue index then
    t ← aget decision (index - 1);
    d ← aget t opc;
    Ok (negb (modrm_type d =? MODRM_ONEENTRY))
  else Ok false.

(** The decision of an opcode. *)
Definition find_decision (ty insnContext opc : Z) : outcome ModRMDecision :=
  let '(decision, indextable) := opcode_tables ty in
  index ← aget indextable insnContext;
  if ctrue index then t ← aget decision (index - 1); aget t opc
  else aget emptyTable opc.

Definition decode (ty insnContext opc m : Z) : outcome Z :=
  dec ← find_decision ty insnContext opc;
  let ids := instructionIDs dec in
  if modrm_type dec =? MODRM_ONEENTRY then aget modRMTable ids
  else if modrm_type dec =? MODRM_SPLITRM then
    if modFromModRM m =? 0x3 then aget modRMTable (ids + 1) else aget modRMTable ids
  else if modrm_type dec =? MODRM_SPLITREG then
    if modFromModRM m =? 0x3 then aget modRMTable (ids + ((m & 0x38) >> 3) + 8)
    else aget modRMTable (ids + ((m & 0x38) >> 3))
  else if modrm_type dec =? MODRM_SPLITMISC then
    if modFromModRM m =? 0x3 then aget modRMTable (ids + (m & 0x3f) + 8)
    else aget modRMTable (ids + ((m & 0x38) >> 3))
  else if modrm_type dec =? MODRM_FULL then aget modRMTable (ids + m)
  else Ok 0.

(** The operand set of a specifier, and one operand of a set. *)
Definition spec_operands (uid : Z) : outcome Z := aget x86DisassemblerInstrSpecifiers uid.
Definition operand_at (set_ index : Z) : outcome OperandSpecifier :=
  row ← aget x86OperandSets set_; aget row index.

Definition getIDWithAttrMask (attrMask : Z) : dec Z :=
  ty ← get opcodeType;
  opc ← get opcode;
  instructionClass ← (if ty =? T3DNOW_MAP then mret IC_OF else lift (contextForAttrs attrMask));
  hasModRMExtension ← lift (modRMRequired ty instructionClass opc);
  if hasModRMExtension : bool then
    _ ← readModRM;
    opc ← get opcode;
    m ← get modRM;
    lift (decode ty instructionClass opc m)
  else lift (decode ty instructionClass opc 0).

Fixpoint eq16_loop (fuel : nat) (i orig equiv : Z) : outcome bool :=
  match fuel with
  | O => NoFuel
  | S fuel =>
      if i <? zlen x86_16_bit_eq_tbl then
        p ← aget x86_16_bit_eq_tbl i;
        if p.1 =? orig then if p.2 =? equiv then Ok true else eq16_loop fuel (i + 1) orig equiv
        else Ok false
      else Ok false
  end.

Definition is16BitEquivalent (orig equiv : Z) : outcome bool :=
  idx ← aget x86_16_bit_eq_lookup orig;
  if ctrue idx then eq16_loop (S (length x86_16_bit_eq_tbl)) (idx - 1) orig equiv else Ok false.

(** The attribute of the [pp] field of a vector prefix. *)
Definition pp_attr (pp : Z) : Z :=
  if pp =? VEX_PREFIX_66 then ATTR_OPSIZE
  else if pp =? VEX_PREFIX_F3 then ATTR_XS
  else if pp =? VEX_PREFIX_F2 then ATTR_XD
  else 0.

Definition attr_if (v attr : Z) : Z := if ctrue v then attr else 0.

(** The attributes of the prefixes; [None] is the [return -1] for an unknown
    vector extension. *)
Definition attributes (s : insn) : option Z :=
  let v1 := s vectorExtensionPrefix1 in
  let v2 := s vectorExtensionPrefix2 in
  let v3 := s vectorExtensionPrefix3 in
  let mask := if s mode =? MODE_64BIT then ATTR_64BIT else ATTR_NONE in
  let mask :=
    if negb (s vectorExtensionType =? TYPE_NO_VEX_XOP) then
      if s vectorExtensionType =? TYPE_EVEX then
        Some (mask .| ATTR_EVEX .| pp_attr (ppFromEVEX3of4 v2)
              .| attr_if (zFromEVEX4of4 v3) ATTR_EVEXKZ .| attr_if (bFromEVEX4of4 v3) ATTR_EVEXB
              .| attr_if (aaaFromEVEX4of4 v3) ATTR_EVEXK .| attr_if (lFromEVEX4of4 v3) ATTR_EVEXL
              .| attr_if (l2FromEVEX4of4 v3) ATTR_EVEXL2)
      else if s vectorExtensionType =? TYPE_VEX_3B then
        Some (mask .| ATTR_VEX .| pp_attr (ppFromVEX v2) .| attr_if (lFromVEX3of3 v2) ATTR_VEXL)
      else if s vectorExtensionType =? TYPE_VEX_2B then
        Some (mask .| ATTR_VEX .| pp_attr (ppFromVEX v1) .| attr_if (lFromVEX3of3 v1) ATTR_VEXL)
      else if s vectorExtensionType =? TYPE_XOP then
        Some (mask .| ATTR_VEX .| pp_attr (ppFromVEX v2) .| attr_if (lFromVEX3of3 v2) ATTR_VEXL)
      else None
    else
      let at_ p := isPrefixAtLocation s p (s necessaryPrefixLocation) in
      let not16 := negb (s mode =? MODE_16BIT) in
      Some (mask .| (if not16 && at_ 0x66 then ATTR_OPSIZE
                     else if at_ 0x67 then ATTR_ADSIZE
                     else if not16 && at_ 0xf3 then ATTR_XS
                     else if not16 && at_ 0xf2 then ATTR_XD
                     else 0)) in
  mask ← mask;
  Some (mask .| attr_if (s rexPrefix & 0x08) ATTR_REXW).

(** [insn->instructionID = id; insn->spec = specifierForUID(id);] *)
Definition set_instruction (id : Z) : dec unit := _ ← put instructionID id; put spec id.

(** The clause for an operand-size prefix that is not where the tables expect it. *)
Definition with_opsize (id attrMask : Z) : dec unit :=
  r ← attempt (getIDWithAttrMask (attrMask .| ATTR_OPSIZE));
  match r with
  | None => set_instruction id
  | Some id' =>
      eq ← lift (is16BitEquivalent id id');
      s ← read_state;
      if eq && xorb (s mode =? MODE_16BIT) (ctrue (s isPrefix66)) then set_instruction id'
      else set_instruction id
  end.

(** The clause for [xchg r8, eax]. *)
Definition with_xchg (id attrMask : Z) : dec unit :=
  _ ← put opcode 0x91;
  r ← attempt (getIDWithAttrMask attrMask);
  _ ← put opcode 0x90;
  set_instruction (default id r).

(** [call] and [jmp] under an operand-size prefix in 64-bit mode. *)
Definition fix_branch (id attrMask : Z) : dec (Z * Z) :=
  s ← read_state;
  if (s mode =? MODE_64BIT) && ctrue (s isPrefix66) && ((s opcode =? 0xe8) || (s opcode =? 0xe9)) then
    let attrMask := attrMask ^^ ATTR_OPSIZE in
    id ← getIDWithAttrMask attrMask;
    mret (id, attrMask)
  else mret (id, attrMask).

(** [jcxz] and [jecxz] in 16-bit mode. *)
Definition fix_jcxz (id attrMask : Z) : dec (Z * Z) :=
  s ← read_state;
  if (s mode =? MODE_16BIT) && (s opcode =? 0xe3) then
    os ← lift (spec_operands id);
    op ← lift (operand_at os 0);
    if type op =? TYPE_REL8 then
      let attrMask := attrMask ^^ ATTR_ADSIZE in
      id ← getIDWithAttrMask attrMask;
      mret (id, attrMask)
    else mret (id, attrMask)
  else mret (id, attrMask).

Definition getID : dec unit :=
  s ← read_state;
  match attributes s with
  | None => failed
  | Some attrMask =>
      id ← getIDWithAttrMask attrMask;
      r ← fix_branch id attrMask;
      r ← fix_jcxz r.1 r.2;
      let '(id, attrMask) := r in
      s ← read_state;
      if ((s mode =? MODE_16BIT) || ctrue (s isPrefix66)) && negb (ctrue (attrMask & ATTR_OPSIZE)) then
        with_opsize id attrMask
      else if (s opcodeType =? ONEBYTE) && (s opcode =? 0x90) && ctrue (s rexPrefix & 0x01) then
        with_xchg id attrMask
      else set_instruction id
  end.

(** ** Registers, immediates and operands *)

(** The first [switch] of [GENERIC_FIXUP_FUNC]: the operand size of a type. *)
Definition type_size (ty : Z) : option Z :=
  if ty =? TYPE_R8 then Some 1
  else if ty =? TYPE_R16 then Some 2
  else if ty =? TYPE_R32 then Some 4
  else if ty =? TYPE_R64 then Some 8
  else if ty =? TYPE_XMM512 then Some 64
  else if ty =? TYPE_XMM256 then Some 32
  else if ty =? TYPE_XMM128 then Some 16
  else if ty =? TYPE_XMM64 then Some 8
  else if ty =? TYPE_XMM32 then Some 4
  else if ty =? TYPE_XMM then Some 2
  else if ty =? TYPE_MM64 then Some 8
  else if ty =? TYPE_MM32 then Some 4
  else if ty =? TYPE_MM then Some 2
  else if ty =? TYPE_CONTROLREG then Some 4
  else None.

(** The second one: the register and [*valid]; [prefix] is the number of [AL]. *)
Definition type_register (rex base prefix ty index : Z) : Z * bool :=
  if ty =? TYPE_Rv then (u8 (base + index), true)
  else if ty =? TYPE_R8 then
    if ctrue rex && (4 <=? index) && (index <=? 7) then (u8 (prefix + REG_SPL + (index - 4)), true)
    else (u8 (prefix + index), true)
  else if ty =? TYPE_R16 then (u8 (prefix + REG_AX + index), true)
  else if ty =? TYPE_R32 then (u8 (prefix + REG_EAX + index), true)
  else if ty =? TYPE_R64 then (u8 (prefix + REG_RAX + index), true)
  else if ty =? TYPE_XMM512 then (u8 (prefix + REG_ZMM0 + index), true)
  else if ty =? TYPE_XMM256 then (u8 (prefix + REG_YMM0 + index), true)
  else if bool_decide (ty ∈ [TYPE_XMM128; TYPE_XMM64; TYPE_XMM32; TYPE_XMM]) then (u8 (prefix + REG_XMM0 + index), true)
  else if bool_decide (ty ∈ [TYPE_VK1; TYPE_VK8; TYPE_VK16]) then (u8 (prefix + REG_K0 + index), index <=? 7)
  else if bool_decide (ty ∈ [TYPE_MM64; TYPE_MM32; TYPE_MM]) then (u8 (prefix + REG_MM0 + (index & 7)), true)
  else if ty =? TYPE_SEGMENTREG then (u8 (prefix + REG_ES + index), index <=? 5)
  else if ty =? TYPE_DEBUGREG then (u8 (prefix + REG_DR0 + index), index <=? 7)
  else if ty =? TYPE_CONTROLREG then (u8 (prefix + REG_CR0 + index), true)
  else (0, false).

(** [GENERIC_FIXUP_FUNC(name, base, prefix)]; the caller fails when the
    register is not valid. *)
Definition fixup (base prefix ty index : Z) : dec (Z * bool) :=
  _ ← match type_size ty with Some n => put operandSize n | None => mret tt end;
  rex ← get rexPrefix;
  mret (type_register rex base prefix ty index).

(** Store the register, then fail if it is not valid. *)
Definition put_fixed (f : field) (r : Z * bool) : dec unit :=
  _ ← put f r.1;
  if r.2 then mret tt else failed.

Definition fixupReg (op : OperandSpecifier) : dec unit :=
  s ← read_state;
  if encoding op =? ENCODING_VVVV then
    r ← fixup (s regBase) MODRM_REG_AL (type op) (u8 (s vvvv)); put_fixed vvvv r
  else if encoding op =? ENCODING_REG then
    r ← fixup (s regBase) MODRM_REG_AL (type op) (u8 (s reg - s regBase)); put_fixed reg r
  else if CASE_ENCODING_RM (encoding op) then
    if s eaRegBase <=? s eaBase then
      r ← fixup (s eaRegBase) EA_REG_AL (type op) (u8 (s eaBase - s eaRegBase)); put_fixed eaBase r
    else mret tt
  else failed.

Definition readOpcodeRegister (size : Z) : dec unit :=
  n ← get registerSize;
  let size := if size =? 0 then n else size in
  _ ← put operandSize size;
  s ← read_state;
  let r := (bFromREX (s rexPrefix) << 3) .| (s opcode & 7) in
  match size with
  | 1 =>
      let v := MODRM_REG_AL + r in
      put opcodeRegister
        (if ctrue (s rexPrefix) && (MODRM_REG_AL + 4 <=? v) && (v <? MODRM_REG_AL + 8)
         then REG_SPL + (v - MODRM_REG_AL - 4) else v)
  | 2 => put opcodeRegister (REG_AX + r)
  | 4 => put opcodeRegister (REG_EAX + r)
  | 8 => put opcodeRegister (REG_RAX + r)
  | _ => mret tt
  end.

(** [insn->immediates[i] = v]; the array has two elements. *)
Definition put_immediate (i v : Z) : dec unit :=
  match i with
  | 0 => put immediates0 v
  | 1 => put immediates1 v
  | _ => lift Ub
  end.

Definition get_immediate (i : Z) : dec Z :=
  match i with
  | 0 => get immediates0
  | 1 => get immediates1
  | _ => lift Ub
  end.

Definition next_immediate : dec unit :=
  n ← get numImmediatesConsumed; put numImmediatesConsumed (u8 (n + 1)).

Definition readImmediate (size : Z) : dec unit :=
  s ← read_state;
  if s numImmediatesConsumed =? 2 then failed
  else
    let n := if size =? 0 then s immediateSize else size in
    _ ← put immediateSize n;
    _ ← put immediateOffset (u8 (s readerCursor - s startLocation));
    _ ← match n with
        | 1 => v ← consumeByte; put_immediate (s numImmediatesConsumed) v
        | 2 => v ← consumeUInt16; put_immediate (s numImmediatesConsumed) v
        | 4 => v ← consumeUInt32; put_immediate (s numImmediatesConsumed) v
        | 8 => v ← consumeUInt64; put_immediate (s numImmediatesConsumed) v
        | _ => mret tt
        end;
    next_immediate.

Definition readVVVV : dec unit :=
  s ← read_state;
  let put_vvvv v := put vvvv (if negb (s mode =? MODE_64BIT) then v & 0x7 else v) in
  if s vectorExtensionType =? TYPE_EVEX then
    put_vvvv ((v2FromEVEX4of4 (s vectorExtensionPrefix3) << 4) .| vvvvFromEVEX3of4 (s vectorExtensionPrefix2))
  else if s vectorExtensionType =? TYPE_VEX_3B then put_vvvv (vvvvFromVEX (s vectorExtensionPrefix2))
  else if s vectorExtensionType =? TYPE_VEX_2B then put_vvvv (vvvvFromVEX (s vectorExtensionPrefix1))
  else if s vectorExtensionType =? TYPE_XOP then put_vvvv (vvvvFromVEX (s vectorExtensionPrefix2))
  else failed.

Definition readMaskRegister : dec unit :=
  s ← read_state;
  if negb (s vectorExtensionType =? TYPE_EVEX) then failed
  else put writemask (aaaFromEVEX4of4 (s vectorExtensionPrefix3)).

(** [insn->displacement *= 1 << n]; an overflow is undefined. *)
Definition scale_displacement (n : Z) : dec unit :=
  d ← get displacement;
  let v := d * (1 << n) in
  if (- 2 ^ 31 <=? v) && (v <? 2 ^ 31) then put displacement v else lift Ub.

(** The cases [ENCODING_REG] and [CASE_ENCODING_RM]. *)
Definition read_rm (op : OperandSpecifier) : dec unit :=
  _ ← readModRM;
  _ ← fixupReg op;
  d ← get eaDisplacement;
  when (negb (encoding op =? ENCODING_REG) && (d =? EA_DISP_8)) (scale_displacement (encoding op - ENCODING_RM)).

(** The case [ENCODING_IB]; returns [sawRegImm]. *)
Definition read_ib (op : OperandSpecifier) (sawRegImm : bool) : dec bool :=
  if sawRegImm then
    n ← get numImmediatesConsumed;
    v ← get_immediate (n - 1);
    _ ← put_immediate n (v & 0xf);
    _ ← next_immediate;
    mret true
  else
    _ ← readImmediate 1;
    mret ((type op =? TYPE_XMM128) || (type op =? TYPE_XMM256)).

(** One operand; returns [needVVVV] and [sawRegImm]. *)
Definition read_operand (op : OperandSpecifier) (hasVVVV needVVVV sawRegImm : bool) : dec (bool * bool) :=
  let e := encoding op in
  let keep (m : dec unit) : dec (bool * bool) := _ ← m; mret (needVVVV, sawRegImm) in
  if bool_decide (e ∈ [ENCODING_NONE; ENCODING_SI; ENCODING_DI]) then mret (needVVVV, sawRegImm)
  else if (e =? ENCODING_REG) || CASE_ENCODING_RM e then keep (read_rm op)
  else if (ENCODING_CB <=? e) && (e <=? ENCODING_CT) then failed
  else if e =? ENCODING_IB then saw ← read_ib op sawRegImm; mret (needVVVV, saw)
  else if e =? ENCODING_IW then keep (readImmediate 2)
  else if e =? ENCODING_ID then keep (readImmediate 4)
  else if e =? ENCODING_IO then keep (readImmediate 8)
  else if e =? ENCODING_Iv then keep (n ← get immediateSize; readImmediate n)
  else if e =? ENCODING_Ia then keep (n ← get addressSize; readImmediate n)
  else if e =? ENCODING_RB then keep (readOpcodeRegister 1)
  else if e =? ENCODING_RW then keep (readOpcodeRegister 2)
  else if e =? ENCODING_RD then keep (readOpcodeRegister 4)
  else if e =? ENCODING_RO then keep (readOpcodeRegister 8)
  else if e =? ENCODING_Rv then keep (readOpcodeRegister 0)
  else if e =? ENCODING_FP then mret (needVVVV, sawRegImm)
  else if e =? ENCODING_VVVV then
    if negb hasVVVV then failed else _ ← fixupReg op; mret (false, sawRegImm)
  else if e =? ENCODING_WRITEMASK then keep readMaskRegister
  else if e =? ENCODING_DUP then mret (needVVVV, sawRegImm)
  else failed.

(** [for (index = 0; index < X86_MAX_OPERANDS; ++index)]; returns [needVVVV]. *)
Fixpoint operand_loop (n : nat) (os index : Z) (hasVVVV needVVVV sawRegImm : bool) : dec bool :=
  match n with
  | O => mret needVVVV
  | S n =>
      op ← lift (operand_at os index);
      r ← read_operand op hasVVVV needVVVV sawRegImm;
      operand_loop n os (index + 1) hasVVVV r.1 r.2
  end.

Definition readOperands : dec unit :=
  r ← attempt readVVVV;
  let hasVVVV := match r with Some _ => true | None => false end in
  s ← read_state;
  let needVVVV := hasVVVV && negb (s vvvv =? 0) in
  os ← lift (spec_operands (s spec));
  needVVVV ← operand_loop (Z.to_nat X86_MAX_OPERANDS) os 0 hasVVVV needVVVV false;
  if needVVVV : bool then failed else mret tt.

(** ** The whole instruction *)

(** The instruction numbers [checkPrefix] accepts under a LOCK prefix. *)
Definition lockable : list Z :=
  mjoin [
    (* nop dword [rax] *) [929];
    (* DEC *) [463; 467; 469; 471; 473; 475];
    (* ADC *) [29; 30; 31; 38; 39; 40; 47; 48; 49; 56; 57];
    (* ADD *) [67; 68; 69; 79; 80; 81; 91; 92; 93; 103; 104];
    (* AND *) [119; 120; 121; 128; 129; 130; 137; 138; 139; 146; 147];
    (* BTC *) [235; 236; 239; 240; 243; 244];
    (* BTR *) [247; 248; 251; 252; 255; 256];
    (* BTS *) [259; 260; 263; 264; 267; 268];
    (* CMPXCHG *) [445; 446; 448; 450; 453; 452];
    (* INC *) [546; 550; 552; 554; 556; 558];
    (* NEG *) [903; 905; 907; 909];
    (* NOT *) [943; 945; 947; 949];
    (* OR *) [952; 953; 954; 961; 962; 963; 964; 971; 972; 973; 980; 981];
    (* SBB *) [1262; 1263; 1264; 1271; 1272; 1273; 1280; 1281; 1282; 1289; 1290];
    (* SUB *) [1455; 1456; 1457; 1464; 1465; 1466; 1473; 1474; 1475; 1482; 1483];
    (* XADD *) [1599; 1601; 1603; 1605];
    (* XCHG *) [1608; 1612; 1615; 1617];
    (* XOR *) [1627; 1628; 1629; 1636; 1637; 1638; 1645; 1646; 1647; 1654; 1655]].

(** Fails for a LOCK prefix on another instruction. *)
Definition checkPrefix : dec unit :=
  s ← read_state;
  if ctrue (s isPrefixf0) then
    if bool_decide (s instructionID ∈ lockable) then mret tt else failed
  else when (ctrue (s isPrefixf2) && (s twoByteEscape =? 0x0f)) (put prefix0 0).

Definition decodeInstruction (startLoc m : Z) : dec unit :=
  _ ← put startLocation startLoc;
  _ ← put readerCursor startLoc;
  _ ← put mode m;
  _ ← readPrefixes;
  _ ← readOpcode;
  _ ← getID;
  id ← get instructionID;
  if id =? 0 then failed
  else
    _ ← checkPrefix;
    _ ← readOperands;
    s ← read_state;
    let n := u64 (s readerCursor - s startLocation) in
    _ ← put length_ n;
    if 15 <? n then failed
    else
      _ ← when (s operandSize =? 0) (put operandSize (s registerSize));
      os ← lift (spec_operands (s spec));
      put operands os.

End decoder.

(** The members before [reader], which the caller clears; the others hold what
    was on the stack. *)
Definition zero_members (f : field) : bool := field_id f <? 48.
Definition clear_insn (junk : insn) : insn := fun f => if zero_members f then 0 else junk f.

End X86Decoder.
