(* ===== verification/X86Logic.v ===== *)
(** * Reasoning about the x86 decoder

    Weakest preconditions for the monad of [X86Decoder], the specification of
    the byte readers, and the tactics that execute a computation symbolically.
    A weakest precondition is total: it excludes an access outside an array and
    a loop that runs out of fuel. *)

From Stdlib Require Import ZArith Lia.
From stdpp Require Import sets.
From S2P Require Import Prelude X86Tables X86Decoder.

Module X86Logic.

Import X86Decoder.
Open Scope c_scope.

Lemma iset_eq s f v : set s f v f = v.
Proof. unfold set. by rewrite Z.eqb_refl. Qed.

Lemma field_id_inj f g : field_id f = field_id g → f = g.
Proof. destruct f, g; (reflexivity || discriminate). Qed.

Lemma iset_ne s f v g : g ≠ f → set s f v g = s g.
Proof. intros Hn. unfold set. destruct (Z.eqb_spec (field_id g) (field_id f)) as [E|]; [|done]. by apply field_id_inj in E. Qed.

#[global] Instance field_eq_dec : EqDecision field.
Proof.
  intros f g. destruct (decide (field_id f = field_id g)) as [E|E].
  - left. by apply field_id_inj.
  - right. congruence.
Defined.

(** ** Weakest preconditions *)

Definition wp {A} (m : dec A) (Q : insn → option A → Prop) (s : insn) : Prop :=
  match m s with Ok (s', r) => Q s' r | _ => False end.

(** The postcondition of a computation that goes on with [k]. *)
Definition andthen {A B} (k : A → dec B) (Q : insn → option B → Prop) : insn → option A → Prop :=
  fun s r => match r with Some a => wp (k a) Q s | None => Q s None end.

Lemma wp_run {A} (m : dec A) Q s : wp m Q s → ∃ s' r, m s = Ok (s', r) ∧ Q s' r.
Proof. unfold wp. destruct (m s) as [[s' r]| |]; [|done..]. eauto. Qed.

Lemma wp_conseq {A} (m : dec A) (P Q : insn → option A → Prop) s :
  wp m P s → (∀ s' r, P s' r → Q s' r) → wp m Q s.
Proof. unfold wp. destruct (m s) as [[s' r]| |]; auto. Qed.

Lemma wp_bind {A B} (m : dec A) (k : A → dec B) Q s :
  wp m (andthen k Q) s → wp (m ≫= k) Q s.
Proof. unfold wp, andthen, mbind, dec_bind. destruct (m s) as [[s' [a|]]| |]; done. Qed.

(** Sequencing with an intermediate assertion. *)
Lemma wp_seq {A B} (m : dec A) (k : A → dec B) P Q s :
  wp m P s → (∀ s' a, P s' (Some a) → wp (k a) Q s') → (∀ s', P s' None → Q s' None) → wp (m ≫= k) Q s.
Proof. intros Hm Hs Hf. apply wp_bind. eapply wp_conseq; [exact Hm|]. intros s' [a|] HP; cbn [andthen]; auto. Qed.

Lemma wp_cut {A B} (m : dec A) (k : A → dec B) P Q s :
  wp m P s → (∀ s' a, P s' (Some a) → wp (k a) Q s') → (∀ s', P s' None → Q s' None) → wp m (andthen k Q) s.
Proof. intros Hm Hs Hf. eapply wp_conseq; [exact Hm|]. intros s' [a|] HP; cbn; auto. Qed.

Lemma wp_ret {A} (a : A) (Q : insn → option A → Prop) s : Q s (Some a) → wp (mret a) Q s.
Proof. done. Qed.
Lemma wp_failed {A} (Q : insn → option A → Prop) s : Q s None → wp failed Q s.
Proof. done. Qed.
Lemma wp_get f (Q : insn → option Z → Prop) s : Q s (Some (s f)) → wp (get f) Q s.
Proof. done. Qed.
Lemma wp_put f v (Q : insn → option unit → Prop) s : Q (set s f v) (Some tt) → wp (put f v) Q s.
Proof. done. Qed.
Lemma wp_read_state (Q : insn → option insn → Prop) s : Q s (Some s) → wp read_state Q s.
Proof. done. Qed.
Lemma wp_lift {A} (o : outcome A) a (Q : insn → option A → Prop) s : o = Ok a → Q s (Some a) → wp (lift o) Q s.
Proof. by intros ->. Qed.
Lemma wp_attempt {A} (m : dec A) (Q : insn → option (option A) → Prop) s :
  wp m (fun s' r => Q s' (Some r)) s → wp (attempt m) Q s.
Proof. unfold wp, attempt. destruct (m s) as [[s' r]| |]; done. Qed.
Lemma wp_when b (m : dec unit) Q s : (b = true → wp m Q s) → (b = false → Q s (Some tt)) → wp (when b m) Q s.
Proof. destruct b; cbn; auto. Qed.

(** ** Execution steps *)

(** One step of the computation in the goal; stops at tests and calls. *)
Ltac wp1 :=
  lazymatch goal with
  | |- wp (_ ≫= _) _ _ => apply wp_bind
  | |- wp (mret _) _ _ => apply wp_ret
  | |- wp failed _ _ => apply wp_failed
  | |- wp (get _) _ _ => apply wp_get
  | |- wp (put _ _) _ _ => apply wp_put
  | |- wp read_state _ _ => apply wp_read_state
  | |- wp (attempt _) _ _ => apply wp_attempt
  | |- wp (let _ := _ in _) _ _ => cbv zeta
  | |- andthen _ _ _ (Some _) => cbn [andthen]
  | |- andthen _ _ _ None => cbn [andthen]
  end; cbv beta.

Ltac wps := repeat wp1.

(** Read members of an updated structure. *)
Ltac simp_set := repeat first [rewrite iset_eq | rewrite iset_ne by discriminate].

(** ** Computations that keep an invariant *)

(** [m] keeps [I], whether it succeeds or fails, and produces values in [R]. *)
Definition pres {A} (I : insn → Prop) (R : A → Prop) (m : dec A) : Prop :=
  ∀ s, I s → wp m (fun s' r => I s' ∧ ∀ a, r = Some a → R a) s.

Section pres.
Context (I : insn → Prop).

Lemma pres_weaken {A} (R R' : A → Prop) m : pres I R m → (∀ a, R a → R' a) → pres I R' m.
Proof. intros Hm HR s Hs. eapply wp_conseq; [by apply Hm|]. cbn. intros s' r [? H]. split; [done|]. eauto. Qed.

Lemma pres_bind {A B} (R : A → Prop) (R' : B → Prop) m (k : A → dec B) :
  pres I R m → (∀ a, R a → pres I R' (k a)) → pres I R' (m ≫= k).
Proof.
  intros Hm Hk s Hs. eapply wp_seq; [by apply Hm|..]; cbn.
  - intros s' a [Hs' HR]. by apply Hk; [apply HR|].
  - intros s' [Hs' _]. by split.
Qed.

Lemma pres_ret {A} (R : A → Prop) a : R a → pres I R (mret a).
Proof. intros HR s Hs. apply wp_ret. split; [done|]. by intros ? [= <-]. Qed.

Lemma pres_failed {A} (R : A → Prop) : pres I R failed.
Proof. intros s Hs. apply wp_failed. by split. Qed.

Lemma pres_get f : pres I (fun v => ∃ s, I s ∧ v = s f) (get f).
Proof. intros s Hs. apply wp_get. split; [done|]. intros ? [= <-]. by eauto. Qed.

Lemma pres_read_state : pres I I read_state.
Proof. intros s Hs. apply wp_read_state. split; [done|]. by intros ? [= <-]. Qed.

Lemma pres_put f v : (∀ s, I s → I (set s f v)) → pres I (fun _ => True) (put f v).
Proof. intros Hf s Hs. apply wp_put. split; [auto|done]. Qed.

Lemma pres_lift {A} (R : A → Prop) (o : outcome A) : (∃ a, o = Ok a ∧ R a) → pres I R (lift o).
Proof. intros (a & -> & HR) s Hs. eapply wp_lift; [done|]. split; [done|]. by intros ? [= <-]. Qed.

Lemma pres_attempt {A} (R : A → Prop) (m : dec A) :
  pres I R m → pres I (fun r => ∀ a, r = Some a → R a) (attempt m).
Proof.
  intros Hm s Hs. apply wp_attempt. eapply wp_conseq; [by apply Hm|]. cbn.
  intros s' r [? H]. split; [done|]. by intros ? [= <-].
Qed.

Lemma pres_if {A} (R : A → Prop) (b : bool) m1 m2 :
  (b = true → pres I R m1) → (b = false → pres I R m2) → pres I R (if b then m1 else m2).
Proof. destruct b; auto. Qed.

Lemma pres_when b m : (b = true → pres I (fun _ => True) m) → pres I (fun _ => True) (when b m).
Proof. intros H. apply pres_if; [done|]. intros _. by apply pres_ret. Qed.

End pres.

(** One step through a computation that keeps an invariant; what is left are
    the values it produces and the members it writes. *)
Ltac pres1 :=
  lazymatch goal with
  | |- pres _ _ (_ ≫= _) => eapply pres_bind; [|let H := fresh "HR" in intros ? H; cbv beta in H]
  | |- pres _ ?R (mret _) =>
      tryif is_evar R then (apply (pres_ret _ (fun _ => True)); exact Logic.I) else (apply pres_ret; try exact Logic.I)
  | |- pres _ _ failed => apply pres_failed
  | |- pres _ _ (get _) => apply pres_get
  | |- pres _ _ read_state => apply pres_read_state
  | |- pres _ _ (attempt _) => apply pres_attempt
  | |- pres _ _ (when _ _) => apply pres_when; intros ?
  | |- pres _ _ (if _ then _ else _) => apply pres_if; intros ?
  | |- pres _ _ (let _ := _ in _) => cbv zeta
  | |- pres _ _ (match ?x with _ => _ end) => destruct x
  end.

Create HintDb x86 discriminated.

Ltac pres_auto := repeat (pres1 || (eauto with x86; fail)).

(** ** Conversions to an integer type *)

(** [cast] converts to a type of [w] bits. *)
Class CastOk (w : Z) (cast : Z → Z) : Prop := {
  cast_pos : 0 < w;
  cast_0 : cast 0 = 0;
  cast_wrap : ∀ x, cast (wrap w x) = cast x;
  wrap_cast : ∀ x, wrap w (cast x) = wrap w x
}.

#[global] Instance wrap_ok w : 0 < w → CastOk w (wrap w).
Proof. intros Hw. split; [done|by apply wrap_small; split; [lia|apply Z.pow_pos_nonneg; lia]|..]; intros x; by rewrite wrap_wrap by lia. Qed.

#[global] Instance swrap_ok w : 0 < w → CastOk w (swrap w).
Proof.
  intros Hw. assert (0 < 2 ^ (w - 1)) by (apply Z.pow_pos_nonneg; lia).
  split; [done|apply swrap_small; lia|..]; intros x; [by apply swrap_wrap|by apply wrap_swrap].
Qed.

Lemma wrap_lor w x y : 0 ≤ w → wrap w (x .| y) = wrap w x .| wrap w y.
Proof.
  intros Hw. apply Z.bits_inj'. intros i Hi. rewrite Z.lor_spec, !wrap_testbit, Z.lor_spec by done.
  by destruct (i <? w).
Qed.

(** Converting the parts of a disjunction does not change its conversion. *)
Lemma cast_lor w cast x y : CastOk w cast → cast (cast x .| cast y) = cast (x .| y).
Proof.
  intros K. pose proof (@cast_pos w cast K).
  rewrite <- (cast_wrap (w := w)), wrap_lor, !(wrap_cast (w := w)), <- wrap_lor by lia. by apply cast_wrap.
Qed.

(** ** The readers *)

Section reader.
Context (code : list Z) (start : Z).
Hypothesis code_bytes : bytes_ok code.
Hypothesis code_size : zlen code < 2 ^ 64.

(** The cursor is [o] bytes after the start of the instruction. *)
Record at_ (s : insn) (o : Z) : Prop := {
  at_cursor : s readerCursor = u64 (start + o);
  at_start : s startLocation = start;
  at_range : 0 ≤ o ≤ zlen code
}.

Lemma u64_offset o : 0 ≤ o < 2 ^ 64 → u64 (u64 (start + o) - start) = o.
Proof.
  intros Ho. rewrite <- Z.add_opp_r, wrap_add_l by lia. replace (start + o + - start) with o by lia.
  by apply wrap_small.
Qed.

Lemma at_frame s s' o :
  at_ s o → s' readerCursor = s readerCursor → s' startLocation = s startLocation → at_ s' o.
Proof. intros [C S R] EC ES. split; [by rewrite EC|by rewrite ES|done]. Qed.

Lemma at_set s o f v : at_ s o → f ≠ readerCursor → f ≠ startLocation → at_ (set s f v) o.
Proof. intros Ha ? ?. apply (at_frame s); [done|by rewrite iset_ne by congruence..]. Qed.

Lemma at_move s o o' : at_ s o → 0 ≤ o' ≤ zlen code → at_ (set s readerCursor (u64 (start + o'))) o'.
Proof. intros [C S R] Ho. split; [by rewrite iset_eq|by rewrite iset_ne|done]. Qed.

(** The distance from the start, as the code computes it. *)
Lemma at_distance s o : at_ s o → u64 (s readerCursor - s startLocation) = o.
Proof. intros [-> -> R]. apply u64_offset. lia. Qed.

(** A single byte, [i] bytes after the cursor. *)
Lemma wp_read_at s o i Q :
  at_ s o → 0 ≤ i → o + i < 2 ^ 64 →
  (o + i < zlen code → Q s (Some (zget code (o + i)))) →
  (zlen code ≤ o + i → Q s None) →
  wp (read_at code start (u64 (s readerCursor + i))) Q s.
Proof.
  intros [C S R] Hi Hb Hok Hno. unfold read_at. apply wp_bind.
  assert (reader code start (u64 (s readerCursor + i)) =
          Ok (if zlen code <=? o + i then None else Some (zget code (o + i)))) as E.
  { unfold reader. rewrite C, wrap_add_l by lia.
    replace (start + o + i) with (start + (o + i)) by lia. rewrite u64_offset by lia.
    case_bool; [done|]. by rewrite aget_zget by lia. }
  eapply wp_lift; [exact E|]. destruct (Z.leb_spec (zlen code) (o + i)); cbn [andthen]; wps; auto.
Qed.

Lemma wp_consumeByte s o Q :
  at_ s o →
  (o < zlen code → Q (set s readerCursor (u64 (start + (o + 1)))) (Some (zget code o))) →
  (zlen code ≤ o → Q s None) →
  wp (consumeByte code start) Q s.
Proof.
  intros Ha Hok Hno. unfold consumeByte. wps.
  assert (s readerCursor = u64 (s readerCursor + 0)) as E.
  { destruct Ha as [-> _ _]. by rewrite Z.add_0_r, wrap_wrap by lia. }
  pose proof (at_range _ _ Ha). rewrite E at 1. apply (wp_read_at s o 0); [done|lia|lia|..]; rewrite Z.add_0_r; [|done].
  intros Hlt. wps. rewrite (at_cursor _ _ Ha), wrap_add_l by lia. rewrite <- Z.add_assoc. auto.
Qed.

Lemma wp_lookAtByte s o Q :
  at_ s o →
  (o < zlen code → Q s (Some (zget code o))) → (zlen code ≤ o → Q s None) →
  wp (lookAtByte code start) Q s.
Proof.
  intros Ha Hok Hno. unfold lookAtByte. wps.
  assert (s readerCursor = u64 (s readerCursor + 0)) as E.
  { destruct Ha as [-> _ _]. by rewrite Z.add_0_r, wrap_wrap by lia. }
  pose proof (at_range _ _ Ha). rewrite E. apply (wp_read_at s o 0); [done|lia|lia|..]; by rewrite Z.add_0_r.
Qed.

Lemma wp_unconsumeByte s o Q :
  at_ s o → Q (set s readerCursor (u64 (start + (o - 1)))) (Some tt) → wp unconsumeByte Q s.
Proof.
  intros Ha HQ. unfold unconsumeByte. wps. rewrite (at_cursor _ _ Ha).
  rewrite <- Z.add_opp_r, wrap_add_l by lia. by rewrite <- Z.add_assoc, Z.add_opp_r.
Qed.

(** The little-endian number of [n] bytes at [o]. *)
Fixpoint le_at (n : nat) (o : Z) : Z :=
  match n with O => 0 | S n => zget code o + 256 * le_at n (o + 1) end.

Lemma le_at_range n o : 0 ≤ le_at n o < 2 ^ (8 * Z.of_nat n).
Proof using code_bytes.
  revert o. induction n as [|n IH]; intros o; cbn [le_at]; [done|].
  pose proof (bytes_ok_zget code o code_bytes) as Hb. unfold in_u in Hb. change (2 ^ 8) with 256 in Hb.
  specialize (IH (o + 1)). replace (8 * Z.of_nat (S n)) with (8 + 8 * Z.of_nat n) by lia.
  rewrite Z.pow_add_r by lia. change (2 ^ 8) with 256. lia.
Qed.

(** The number read so far and the bytes still to come. *)
Lemma consume_step cast w v b i :
  CastOk w cast → 0 ≤ i → in_u (8 * i) v → in_u 8 b → 8 * i < 64 →
  cast (cast v .| cast (u64 (b << (i * 8)))) = cast (v + b * 2 ^ (8 * i)).
Proof.
  intros K Hi Hv Hb Hw. rewrite (cast_lor w), Z.shiftl_mul_pow2, (Z.mul_comm i) by (done || lia).
  rewrite wrap_small.
  - rewrite Z.lor_comm, lor_shift_add by (done || lia). f_equal. lia.
  - unfold in_u in *. change (2 ^ 8) with 256 in Hb. split; [apply Z.mul_nonneg_nonneg; lia|].
    assert (2 ^ (8 * i) * 256 ≤ 2 ^ 64); [|nia].
    change 256 with (2 ^ 8). rewrite <- Z.pow_add_r by lia. apply Z.pow_le_mono_r; lia.
Qed.

Lemma wp_consume_loop cast w n i o v s Q :
  CastOk w cast → at_ s o → in_u (8 * i) v → 0 ≤ i → o + i ≤ zlen code → i + Z.of_nat n ≤ 8 →
  (o + i + Z.of_nat n ≤ zlen code → Q s (Some (cast (v + le_at n (o + i) * 2 ^ (8 * i))))) →
  (zlen code < o + i + Z.of_nat n → Q s None) →
  wp (consume_loop code start cast n i (cast v)) Q s.
Proof using code_bytes code_size.
  intros K Ha. revert i v. induction n as [|n IH]; intros i v Hv Hi Hoi Hw Hok Hno; cbn [consume_loop].
  { wps. cbn [le_at] in Hok. rewrite Z.mul_0_l, !Z.add_0_r in Hok. apply Hok. lia. }
  pose proof (at_range _ _ Ha). wps. apply (wp_read_at s o i); [done|lia|lia|..]; intros Hlt; cbn [andthen]; [|apply Hno; lia].
  pose proof (bytes_ok_zget code (o + i) code_bytes) as Hb.
  rewrite (consume_step cast w) by (done || lia).
  apply IH; [|lia|lia|lia| |].
  - unfold in_u in *. replace (8 * (i + 1)) with (8 * i + 8) by lia. rewrite Z.pow_add_r by lia. change (2 ^ 8) with 256 in *. nia.
  - intros Hle. cbn [le_at] in Hok. replace (o + (i + 1)) with (o + i + 1) by lia.
    replace (8 * (i + 1)) with (8 * i + 8) by lia. rewrite Z.pow_add_r by lia. change (2 ^ 8) with 256.
    replace (v + zget code (o + i) * 2 ^ (8 * i) + le_at n (o + i + 1) * (2 ^ (8 * i) * 256))
      with (v + (zget code (o + i) + 256 * le_at n (o + i + 1)) * 2 ^ (8 * i)) by ring.
    apply Hok. lia.
  - intros ?. apply Hno. lia.
Qed.

(** [n] bytes as a number of the given type, or no effect. *)
Lemma wp_consume cast w n s o Q :
  CastOk w cast → at_ s o → (0 < n ≤ 8)%nat →
  (o + Z.of_nat n ≤ zlen code →
   Q (set s readerCursor (u64 (start + (o + Z.of_nat n)))) (Some (cast (le_at n o)))) →
  (zlen code < o + Z.of_nat n → Q s None) →
  wp (consume code start cast n) Q s.
Proof using code_bytes code_size.
  intros K Ha Hn Hok Hno. unfold consume. apply wp_bind. pose proof (at_range _ _ Ha).
  replace 0 with (cast 0) at 2 by (apply (cast_0 (w := w))).
  apply (wp_consume_loop cast w n 0 o 0); rewrite ?Z.add_0_r, ?Z.mul_1_r; try done; try lia.
  intros Hle. wps. rewrite (at_cursor _ _ Ha), wrap_add_l, <- Z.add_assoc by lia. auto.
Qed.

End reader.

End X86Logic.
