(* ===== verification/X86Prefix.v ===== *)
(** * The prefixes of an x86 instruction

    [readPrefixes] of [X86DisassemblerDecoder.c] against the rule it
    implements: the legacy prefixes are the bytes before the first byte that
    is not one (in 64-bit mode, REX bytes among them are skipped and only a
    REX byte right before the opcode counts); of each group the last prefix
    wins, and the sizes of operands and addresses follow from the prefixes. *)

From Stdlib Require Import ZArith Lia.
From stdpp Require Import sets.
From S2P Require Import Prelude X86Tables X86Decoder X86Logic.

Module X86Prefix.

Import X86Decoder X86Logic.
Open Scope c_scope.

(** ** The specification *)

(** Legacy prefixes exclude each other within a group: repeat and lock,
    segments, operand size, address size. *)
Definition prefix_group (b : Z) : Z :=
  if bool_decide (b ∈ [0xf0; 0xf2; 0xf3]) then 0
  else if b =? 0x66 then 2
  else if b =? 0x67 then 3
  else 1.

(** The last prefix of a group, with its offset. *)
Definition last_of (L : list (Z * Z)) (g : Z) : option (Z * Z) :=
  last (filter (fun p => prefix_group p.2 = g) L).

Lemma last_of_snoc L i c g : last_of (L ++ [(i, c)]) g = if prefix_group c =? g then Some (i, c) else last_of L g.
Proof.
  unfold last_of. rewrite filter_app, filter_cons, filter_nil. cbn [snd].
  destruct (Z.eqb_spec (prefix_group c) g) as [E|E]; case_decide; try done; [by rewrite last_snoc|by rewrite app_nil_r].
Qed.

Section prefix.
Context (code : list Z) (start m : Z).
Hypothesis code_bytes : bytes_ok code.
Hypothesis code_size : zlen code < 2 ^ 64.

(** The legacy prefixes among the first [e] bytes, with their offsets. *)
Definition legacy_before (e : Z) : list (Z * Z) :=
  (fun i => (i, zget code i)) <$> filter (fun i => is_legacy (zget code i) = true) (seqZ 0 e).

Definition has_prefix (e b : Z) : bool := existsb (fun p => p.2 =? b) (legacy_before e).

(** The first [e] bytes are prefixes. *)
Definition all_prefixes (e : Z) : Prop :=
  ∀ i, 0 ≤ i < e → is_legacy (zget code i) = true ∨ m = MODE_64BIT ∧ is_rex (zget code i) = true.

(** The presence flags, locations and values record the last prefix of each group. *)
Record recorded (L : list (Z * Z)) (s : insn) : Prop := {
  rec_flags : ∀ b present loc, prefix_slots b = Some (present, loc) →
    match last_of L (prefix_group b) with
    | Some (i, c) => s present = cbool (c =? b) ∧ (c = b → s loc = u64 (start + i))
    | None => s present = 0
    end;
  rec_bytes : (s prefix0, s prefix1, s prefix2, s prefix3) =
    let byte g := default 0 (snd <$> last_of L g) in (byte 0, byte 1, byte 2, byte 3);
  rec_segment : s segmentOverride = default 0 (last_of L 1 ≫= fun p => segment_of p.2)
}.

(** ** One prefix *)

Lemma seqZ_snoc e : 0 ≤ e → seqZ 0 (e + 1) = seqZ 0 e ++ [e].
Proof. intros He. rewrite seqZ_app by lia. f_equal. Qed.

Lemma legacy_before_next e :
  0 ≤ e → legacy_before (e + 1) =
    legacy_before e ++ (if is_legacy (zget code e) then [(e, zget code e)] else []).
Proof.
  intros He. unfold legacy_before. rewrite seqZ_snoc, filter_app, fmap_app, filter_cons, filter_nil by done.
  destruct (is_legacy _) eqn:E; case_decide; done || congruence.
Qed.

(** Bytes that are not legacy prefixes add none. *)
Lemma legacy_before_skip e e' :
  0 ≤ e ≤ e' → (∀ i, e ≤ i < e' → is_legacy (zget code i) = false) → legacy_before e' = legacy_before e.
Proof.
  intros He. replace e' with (e + Z.of_nat (Z.to_nat (e' - e))) by lia.
  induction (Z.to_nat (e' - e)) as [|n IH]; intros Hno; [by rewrite Z.add_0_r|].
  replace (e + Z.of_nat (S n)) with (e + Z.of_nat n + 1) by lia.
  rewrite legacy_before_next, Hno, app_nil_r by lia. apply IH. intros i Hi. apply Hno. lia.
Qed.

Lemma rex_not_legacy b : is_rex b = true → is_legacy b = false.
Proof.
  unfold is_legacy. intros Hr. apply bool_decide_eq_false. intros Hin. in_cases Hin; subst b; discriminate Hr.
Qed.

(** The members that record prefixes. *)
Definition prefix_member (f : field) : bool := (field_id f <=? 26) || (field_id f =? 28).

Lemma recorded_frame L s s' : (∀ f, prefix_member f = true → s' f = s f) → recorded L s → recorded L s'.
Proof.
  intros Hf [H1 H2 H3]. split; rewrite ?Hf by done; try done.
  intros b p l Hb. specialize (H1 b p l Hb).
  assert (prefix_member p = true ∧ prefix_member l = true) as [Hp Hl].
  { unfold prefix_slots in Hb. repeat case_match; simplify_eq; done. }
  by rewrite (Hf p), (Hf l).
Qed.

Definition slots : list (Z * field * field) :=
  [(0x26, isPrefix26, prefix26); (0x2e, isPrefix2e, prefix2e); (0x36, isPrefix36, prefix36); (0x3e, isPrefix3e, prefix3e);
   (0x64, isPrefix64, prefix64); (0x65, isPrefix65, prefix65); (0x66, isPrefix66, prefix66); (0x67, isPrefix67, prefix67);
   (0xf0, isPrefixf0, prefixf0); (0xf2, isPrefixf2, prefixf2); (0xf3, isPrefixf3, prefixf3)].

Lemma prefix_slots_cases b p l : prefix_slots b = Some (p, l) → (b, p, l) ∈ slots.
Proof. unfold prefix_slots. intros H. repeat case_match; simplify_eq; isin. Qed.

(** Evaluate the groups of constants. *)
Ltac groups :=
  repeat match goal with
  | |- context [prefix_group ?a =? ?g] =>
      let v := eval vm_compute in (prefix_group a =? g) in
      lazymatch v with
      | true => change (prefix_group a =? g) with true
      | false => change (prefix_group a =? g) with false
      end
  end; cbv iota.

(** A legacy prefix read at [i] is recorded. *)
Lemma prefix_switch_legacy L s c i ad op :
  is_legacy c = true → recorded L s →
  wp (prefix_switch c (u64 (start + i)) ad op)
     (fun s' r => r = Some (true, ad || (c =? 0x67), op || (c =? 0x66)) ∧ recorded (L ++ [(i, c)]) s' ∧
        ∀ f, prefix_member f = false → s' f = s f) s.
Proof.
  intros Hc [H1 H2 H3]. apply bool_decide_eq_true in Hc.
  in_cases Hc; subst c; unfold prefix_switch; cbn [segment_of Z.eqb Pos.eqb orb clear group0 group1]; wps;
    unfold setPrefixPresent; cbn [prefix_slots]; wps.
  all: split; [by rewrite ?orb_false_r, ?orb_true_r|split; [split|]].
  all: try (intros f Hf; destruct f; (reflexivity || discriminate Hf)).
  all: rewrite ?last_of_snoc; groups; simp_set; try done.
  all: try (cbv beta zeta in *; rewrite !last_of_snoc; groups; injection H2 as E0 E1 E2 E3; rewrite ?E0, ?E1, ?E2, ?E3; reflexivity).
  all: intros b p l Hb; pose proof (H1 b p l Hb) as Hold; apply prefix_slots_cases in Hb; in_cases Hb; injection Hb as -> -> ->;
    rewrite last_of_snoc; groups; simp_set; (done || exact Hold).
Qed.

Lemma prefix_switch_other c loc ad op s :
  is_legacy c = false → prefix_switch c loc ad op s = Ok (s, Some (false, ad, op)).
Proof.
  intros Hc. apply bool_decide_eq_false in Hc. unfold prefix_switch.
  assert (segment_of c = None) as -> by (unfold segment_of; repeat case_match; try done; destruct Hc; subst; isin).
  rewrite !(proj2 (Z.eqb_neq c _)) by (intros ->; apply Hc; isin). done.
Qed.

(** ** The loop *)

(** [s'] is [s] with the cursor moved to [o]. *)
Definition moved (s s' : insn) (o : Z) : Prop := at_ code start s' o ∧ ∀ f, f ≠ readerCursor → s' f = s f.

Lemma moved_set s s1 o o' : moved s s1 o' → 0 ≤ o ≤ zlen code → moved s (set s1 readerCursor (u64 (start + o))) o.
Proof.
  intros [Ha Hf] Ho. split; [eapply at_move; done|]. intros f Hn. by rewrite iset_ne, Hf.
Qed.

Lemma moved_refl s o : at_ code start s o → moved s s o.
Proof. done. Qed.

Lemma rex_loop_spec fuel s o s0 :
  moved s0 s o → zlen code - o < Z.of_nat fuel →
  wp (rex_loop code start fuel)
     (fun s' r => ∃ k, moved s0 s' k ∧ o ≤ k ∧ (∀ i, o ≤ i < k → is_rex (zget code i) = true) ∧
        match r with
        | Some b => k < zlen code ∧ b = zget code k ∧ is_rex b = false
        | None => True
        end) s.
Proof using code_size.
  revert s o. induction fuel as [|fuel IH]; intros s o Hm Hf; pose proof (at_range _ _ _ _ (proj1 Hm)); [lia|].
  cbn [rex_loop]. wps. apply (wp_lookAtByte code start code_size s o); [apply Hm|..]; intros Hlt; cbn [andthen].
  2: { exists o. split_conj; [done|lia|intros; lia|done]. }
  destruct (is_rex (zget code o)) eqn:Er; wps.
  2: { exists o. split_conj; [done|lia|intros; lia|done..]. }
  apply (wp_consumeByte code start code_size s o); [apply Hm|..]; intros Hlt'; [|lia]. cbn [andthen].
  eapply wp_conseq; [apply (IH _ (o + 1)); [by eapply moved_set; [|lia]|lia]|]. cbn.
  intros s' r (k & Hk & Hok & Hall & Hr). exists k. split_conj; [done|lia| |done].
  intros i Hi. destruct (decide (i = o)) as [-> |]; [done|]. apply Hall. lia.
Qed.

(** After the skipped REX bytes comes a byte that is not one, or the last REX
    byte before the opcode. *)
Definition skipped (o k : Z) : Prop :=
  o ≤ k < zlen code ∧ (∀ i, o ≤ i < k → m = MODE_64BIT ∧ is_rex (zget code i) = true) ∧
  (m = MODE_64BIT → is_rex (zget code k) = true →
   k + 1 < zlen code ∧ is_rex (zget code (k + 1)) = false ∧ is_legacy (zget code (k + 1)) = false).

Lemma skip_rex_spec fuel s o :
  at_ code start s o → s mode = m → zlen code - o < Z.of_nat fuel →
  wp (skip_rex code start fuel)
     (fun s' r => ∃ k, moved s s' k ∧ o ≤ k ∧ (r ≠ None → k < zlen code → skipped o k)) s.
Proof using code_size.
  intros Ha Hmode Hf. pose proof (at_range _ _ _ _ Ha). unfold skip_rex. wps. rewrite Hmode.
  destruct (Z.eqb_spec m MODE_64BIT) as [E|E]; wps.
  2: { exists o. split_conj; [done|lia|]. intros _ Hlt. split; [lia|]. split; [intros; lia|]. intros. congruence. }
  apply (wp_consumeByte code start code_size s o); [done|..]; intros Hlt; cbn [andthen].
  2: { exists o. split_conj; [done|lia|done]. }
  assert (moved s (set s readerCursor (u64 (start + (o + 1)))) (o + 1)) as Hm1 by (eapply moved_set; [by apply moved_refl|lia]).
  destruct (is_rex (zget code o)) eqn:Er.
  - wps. eapply wp_cut; [apply (rex_loop_spec fuel _ (o + 1) s); [done|lia]|cbn|].
    + intros s2 b (k & Hk & Hok & Hall & Hlt2 & -> & Hnr). destruct (is_legacy _) eqn:El; wps.
      * exists k. split_conj; [done|lia|]. intros _ _. split; [lia|]. split; [|congruence].
        intros i Hi. split; [done|]. destruct (decide (i = o)) as [-> |]; [done|]. apply Hall. lia.
      * apply (wp_unconsumeByte code start s2 k); [apply Hk|]. exists (k - 1). split_conj; [by eapply moved_set; [|lia]|lia|].
        intros _ _. unfold skipped. replace (k - 1 + 1) with k by lia. split; [lia|]. split; [|done].
        intros i Hi. split; [done|]. destruct (decide (i = o)) as [-> |]; [done|]. apply Hall. lia.
    + cbn. intros s2 (k & Hk & Hok & _). exists k. split_conj; [done|lia|done].
  - apply (wp_unconsumeByte code start _ (o + 1)); [apply Hm1|]. replace (o + 1 - 1) with o by lia.
    exists o. split_conj; [by eapply moved_set; [|lia]|lia|]. intros _ _. split; [lia|]. split; [intros; lia|congruence].
Qed.

(** The members the prefix loop may change. *)
Definition loop_member (f : field) : bool :=
  prefix_member f || (field_id f =? field_id xAcquireRelease) || (field_id f =? field_id readerCursor).

(** The look ahead for [xacquire] leaves the cursor where it was. *)
Lemma check_xacquire_spec s o b :
  at_ code start s o → 0 < o →
  wp (check_xacquire code start b)
     (fun s' r => (∃ o', at_ code start s' o' ∧ o ≤ o') ∧ (r ≠ None → at_ code start s' o) ∧
        ∀ f, f ≠ xAcquireRelease → f ≠ readerCursor → s' f = s f) s.
Proof using code_size.
  intros Ha Ho. pose proof (at_range _ _ _ _ Ha). unfold check_xacquire. wps. case_bool; wps.
  2: { split_conj; [by exists o|done|done]. }
  apply (wp_lookAtByte code start code_size s o); [done|..]; intros Hlt; cbn [andthen].
  2: { split_conj; [by exists o|done|done]. }
  assert (∀ s1, at_ code start s1 o → (∀ f, f ≠ xAcquireRelease → f ≠ readerCursor → s1 f = s f) →
    wp (n ← get mode; if (n =? MODE_64BIT) && is_rex (zget code o) then
          _ ← consumeByte code start; _ ← lookAtByte code start; unconsumeByte else mret tt)
       (fun s' r => (∃ o', at_ code start s' o' ∧ o ≤ o') ∧ (r ≠ None → at_ code start s' o) ∧
          ∀ f, f ≠ xAcquireRelease → f ≠ readerCursor → s' f = s f) s1) as Hrest.
  { intros s1 Ha1 Hf1. wps. case_bool; wps; [|by split_conj; [exists o; split; [done|lia]|..]].
    apply (wp_consumeByte code start code_size s1 o); [done|..]; intros Hlt1; [|lia]. wps.
    assert (at_ code start (set s1 readerCursor (u64 (start + (o + 1)))) (o + 1)) as Ha2 by (eapply at_move; [done|lia]).
    apply (wp_lookAtByte code start code_size _ (o + 1)); [done|..]; intros Hlt2; cbn [andthen].
    - apply (wp_unconsumeByte code start _ (o + 1)); [done|]. replace (o + 1 - 1) with o by lia.
      assert (at_ code start (set (set s1 readerCursor (u64 (start + (o + 1)))) readerCursor (u64 (start + o))) o) as Ha3
        by (eapply at_move; [done|lia]).
      split_conj; [exists o; by split|done|]. intros f ? ?. rewrite !iset_ne by done. by apply Hf1.
    - split_conj; [exists (o + 1); split; [done|lia]|done|]. intros f ? ?. rewrite !iset_ne by done. by apply Hf1. }
  wps. apply wp_when; intros _; [wps|cbn [andthen]]; wps; apply wp_when; intros _; [wps|cbn [andthen]|wps|cbn [andthen]];
    apply Hrest; repeat (apply at_set; [|done..]); try done; intros f ? ?; by rewrite ?iset_ne.
Qed.

(** The byte at [e] is the first that is not a prefix, or the REX byte before the opcode. *)
Record prefixes_end (e : Z) : Prop := {
  pe_range : 0 ≤ e < zlen code;
  pe_all : all_prefixes e;
  pe_legacy : is_legacy (zget code e) = false;
  pe_rex : m = MODE_64BIT → is_rex (zget code e) = true →
    e + 1 < zlen code ∧ is_rex (zget code (e + 1)) = false ∧ is_legacy (zget code (e + 1)) = false
}.

(** Before a byte is examined. *)
Record scanning (s : insn) (o : Z) : Prop := {
  sc_at : at_ code start s o;
  sc_mode : s mode = m;
  sc_all : all_prefixes o;
  sc_rec : recorded (legacy_before o) s
}.

Lemma has_prefix_next e b :
  0 ≤ e → is_legacy (zget code e) = true → has_prefix (e + 1) b = has_prefix e b || (zget code e =? b).
Proof.
  intros He Hl. unfold has_prefix. rewrite legacy_before_next, Hl, existsb_app by done. cbn. by rewrite orb_false_r.
Qed.

Lemma skipped_all o k : all_prefixes o → 0 ≤ o → skipped o k → all_prefixes k ∧ legacy_before k = legacy_before o.
Proof.
  intros Ha Ho (Hk & Hs & _). split.
  - intros i Hi. destruct (Z.lt_ge_cases i o); [apply Ha; lia|]. right. apply Hs. lia.
  - apply legacy_before_skip; [lia|]. intros i Hi. by apply rex_not_legacy, Hs.
Qed.

Lemma x86_prefix_loop_spec fuel s o :
  scanning s o → zlen code - o < Z.of_nat fuel →
  wp (prefix_loop code start fuel (has_prefix o 0x67) (has_prefix o 0x66))
     (fun s' r => (∃ o', at_ code start s' o') ∧ (∀ f, loop_member f = false → s' f = s f) ∧
        match r with
        | Some (b, ad, op) => ∃ e, prefixes_end e ∧ b = zget code e ∧ at_ code start s' (e + 1) ∧
            recorded (legacy_before e) s' ∧ ad = has_prefix e 0x67 ∧ op = has_prefix e 0x66
        | None => True
        end) s.
Proof using code_size.
  revert s o. induction fuel as [|fuel IH]; intros s o [Ha Hmode Hall Hrec] Hf; pose proof (at_range _ _ _ _ Ha); [lia|].
  cbn [prefix_loop]. apply wp_bind. eapply wp_cut; [apply (skip_rex_spec (S fuel) s o); [done|done|lia]|cbn|].
  2: { intros s' (k & [Hk Hm] & _). split_conj; [by exists k|..|done]. intros f Hn. apply Hm. intros ->. discriminate Hn. }
  intros s1 [] (k & [Hk Hm1] & Hok & Hsk). wps.
  assert (∀ f, loop_member f = false → s1 f = s f) as Hf1 by (intros f Hn; apply Hm1; intros ->; discriminate Hn).
  apply (wp_consumeByte code start code_size s1 k); [done|..]; intros Hlt; cbn [andthen].
  2: { split_conj; [by exists k|done|done]. }
  specialize (Hsk ltac:(discriminate) Hlt). destruct (skipped_all o k Hall ltac:(lia) Hsk) as [Hallk Hleg].
  pose proof (at_range _ _ _ _ Hk). set (s2 := set s1 readerCursor _).
  assert (at_ code start s2 (k + 1)) as Ha2 by (eapply at_move; [done|lia]).
  assert (∀ f, loop_member f = false → s2 f = s f) as Hf2.
  { intros f Hn. unfold s2. rewrite iset_ne by (intros ->; discriminate Hn). by apply Hf1. }
  apply wp_bind. eapply wp_cut; [apply (check_xacquire_spec s2 (k + 1)); [done|lia]|cbn|].
  2: { intros s' ((o' & Ho' & _) & _ & Hx). split_conj; [by exists o'| |done].
       intros f Hn. rewrite Hx; [by apply Hf2|intros ->; discriminate Hn..]. }
  intros s3 [] (_ & Ha3 & Hx). specialize (Ha3 ltac:(discriminate)).
  assert (∀ f, loop_member f = false → s3 f = s f) as Hf3.
  { intros f Hn. rewrite Hx; [by apply Hf2|intros ->; discriminate Hn..]. }
  assert (recorded (legacy_before k) s3) as Hrec3.
  { rewrite Hleg. eapply recorded_frame; [|exact Hrec]. intros f Hn.
    rewrite Hx by (intros ->; discriminate Hn). unfold s2. rewrite iset_ne by (intros ->; discriminate Hn).
    apply Hm1. intros ->. discriminate Hn. }
  rewrite (at_cursor _ _ _ _ Hk).
  assert (∀ b, has_prefix o b = has_prefix k b) as Eh by (intros b; unfold has_prefix; by rewrite Hleg).
  rewrite !Eh. destruct (is_legacy (zget code k)) eqn:El.
  - apply wp_bind. eapply wp_cut; [by apply (prefix_switch_legacy (legacy_before k) s3 (zget code k) k)|cbn|by intros ? [? _]].
    intros s4 r ([= ->] & Hrec4 & Hf4). rewrite <- !has_prefix_next by (done || lia).
    eapply wp_conseq; [apply (IH s4 (k + 1)); [|lia]|].
    + split.
      * apply (at_frame code start s3); [done|by apply Hf4..].
      * rewrite Hf4, Hf3 by done. done.
      * intros i Hi. destruct (decide (i = k)) as [-> |]; [by left|]. apply Hallk. lia.
      * by rewrite legacy_before_next, El by lia.
    + cbn. intros s' r (Ho' & Hf' & Hr). split_conj; [done| |done]. intros f Hn. rewrite Hf' by done.
      rewrite Hf4; [by apply Hf3|]. unfold loop_member in Hn. zify_bools. done.
  - apply wp_bind. unfold wp at 1. rewrite prefix_switch_other by done. cbn [andthen]. wps.
    split_conj; [by exists (k + 1)|done|]. exists k. split_conj; try done. destruct Hsk as (_ & _ & Hsk). split; [lia|done..].
Qed.

(** ** After the loop *)

(** The members the rest of [readPrefixes] may change. *)
Definition tail_member (f : field) : bool :=
  bool_decide (f ∈ [readerCursor; vectorExtensionType; vectorExtensionPrefix0; vectorExtensionPrefix1;
                    vectorExtensionPrefix2; vectorExtensionPrefix3; rexPrefix; necessaryPrefixLocation;
                    registerSize; addressSize; displacementSize; immediateSize; immSize]).

(** The cursor is in the code and the other members are those of [s]; with
    [v], there is a vector prefix. *)
Definition tail (v : bool) (s s' : insn) : Prop :=
  (∃ o, at_ code start s' o) ∧ (∀ f, tail_member f = false → s' f = s f) ∧ (v = true → s' vectorExtensionType ≠ 0).

Lemma tail_weaken v s s' : tail v s s' → tail false s s'.
Proof. intros (? & ? & _). done. Qed.

Lemma tail_set v s s1 f x :
  tail_member f = true → f ≠ readerCursor → f ≠ vectorExtensionType → tail v s s1 → tail v s (set s1 f x).
Proof.
  intros Hf Hc Hv ((o & Ha) & Hs & Ht). unfold tail. split_conj.
  - exists o. apply at_set; [done|done|intros ->; discriminate Hf].
  - intros g Hg. rewrite iset_ne; [by apply Hs|]. intros ->. congruence.
  - by rewrite iset_ne by done.
Qed.

Lemma tail_put v s f x :
  tail_member f = true → f ≠ readerCursor → f ≠ vectorExtensionType → pres (tail v s) (fun _ => True) (put f x).
Proof. intros. apply pres_put. intros s1. by apply tail_set. Qed.

(** The type of a vector prefix was stored. *)
Lemma tail_type s s1 t : t ≠ 0 → tail false s s1 → tail true s (set s1 vectorExtensionType t).
Proof.
  intros Ht ((o & Ha) & Hs & _). unfold tail. split_conj; [exists o; by apply at_set| |by rewrite iset_eq].
  intros f Hf. rewrite iset_ne; [by apply Hs|]. intros ->. discriminate Hf.
Qed.

Lemma tail_move v s s1 o : tail v s s1 → 0 ≤ o ≤ zlen code → tail v s (set s1 readerCursor (u64 (start + o))).
Proof.
  intros ((o' & Ha) & Hs & Ht) Ho. unfold tail. split_conj; [exists o; eapply at_move; done| |by rewrite iset_ne by done].
  intros g Hg. rewrite iset_ne; [by apply Hs|]. intros ->. discriminate Hg.
Qed.

Lemma tail_consumeByte v s : pres (tail v s) (fun _ => True) (consumeByte code start).
Proof using code_size.
  intros s1 Ht. pose proof Ht as ((o & Ha) & _ & _). pose proof (at_range _ _ _ _ Ha).
  apply (wp_consumeByte code start code_size s1 o); [done|..]; intros Hlt; (split; [|done]); [|done].
  apply tail_move; [done|lia].
Qed.

Lemma tail_set_necessary v s n : pres (tail v s) (fun _ => True) (set_necessary n).
Proof. unfold set_necessary. eapply pres_bind; [apply pres_get|]. intros c _. by apply tail_put. Qed.

Hint Resolve tail_consumeByte tail_set_necessary : x86.
Hint Extern 1 (pres (tail _ _) _ (put _ _)) => by apply tail_put : x86.

Lemma tail_put_rex v s x : pres (tail v s) (fun _ => True) (put_rex x).
Proof using code_size. unfold put_rex. pres_auto. Qed.
Hint Resolve tail_put_rex : x86.

Lemma tail_read_3of3 v s b op : pres (tail v s) (fun _ => True) (read_3of3 code start b op).
Proof using code_size. unfold read_3of3. pres_auto. Qed.
Hint Resolve tail_read_3of3 : x86.

(** A vector prefix, or nothing: the byte was put back. *)
Definition vector_or_back (s : insn) (e : Z) (op : bool) (s' : insn) (r : option bool) : Prop :=
  tail false s s' ∧ (r ≠ None → s' vectorExtensionType ≠ 0 ∨
    r = Some op ∧ s' vectorExtensionType = 0 ∧ at_ code start s' e ∧ s' rexPrefix = s rexPrefix).

(** The rest of a vector prefix. *)
Lemma vector_done s e op s1 (k : dec bool) :
  pres (tail true s) (fun _ => True) k → tail true s s1 → wp k (vector_or_back s e op) s1.
Proof.
  intros Hk Hs1. eapply wp_conseq; [by apply Hk|]. cbn. intros s' r [Ht' _].
  split; [by eapply tail_weaken|]. intros _. left. by apply Ht'.
Qed.

Lemma vector_done_then {A} s e op s1 (R : A → Prop) m0 (k : A → dec bool) :
  pres (tail true s) R m0 → (∀ a, pres (tail true s) (fun _ => True) (k a)) → tail true s s1 →
  wp m0 (andthen k (vector_or_back s e op)) s1.
Proof.
  intros Hm Hk Hs1. eapply wp_cut; [by apply Hm|..]; cbn.
  - intros s' a [Hs' _]. by apply vector_done.
  - intros s' [Hs' _]. split; [by eapply tail_weaken|]. intros _. left. by apply Hs'.
Qed.

Section vector.
Context (s : insn) (e : Z).
Hypothesis s_at : at_ code start s (e + 1).
Hypothesis s_e : 0 ≤ e < zlen code.
Hypothesis s_vet : s vectorExtensionType = 0.

Lemma tail_start : tail false s s.
Proof using s_at. unfold tail. split_conj; [by exists (e + 1)|done|done]. Qed.

(** The bytes read ahead were put back. *)
Lemma back_at s1 op :
  at_ code start s1 e → (∀ f, f ≠ readerCursor → f ≠ necessaryPrefixLocation → s1 f = s f) →
  vector_or_back s e op s1 (Some op).
Proof using s_vet.
  intros Ha Hf. split.
  - unfold tail. split_conj; [by exists e| |done]. intros f Hn. apply Hf; intros ->; discriminate Hn.
  - intros _. right. rewrite !Hf by done. done.
Qed.

(** The state is [s] with the cursor back at [e]. *)
Ltac put_back :=
  apply back_at; [|intros ? ? ?; by rewrite !iset_ne by congruence];
  repeat (apply at_set; [|done..]); rewrite ?Z.add_simpl_r; eapply at_move; [|lia]; done.

(** The state is reached by stores after the type of a vector prefix was set. *)
Ltac in_vector :=
  lazymatch goal with
  | |- wp _ (andthen _ _) _ => eapply vector_done_then; [eauto with x86|intros ?; pres_auto|]
  | _ => apply vector_done; [pres_auto|]
  end;
  repeat (first [assumption|apply tail_type; [done|]|apply tail_set; [done..|]]); try apply tail_start.

Lemma read_vex3_spec b op : wp (read_vex3 code start b op) (vector_or_back s e op) s.
Proof using code_size s_at s_e s_vet.
  unfold read_vex3, set_necessary. wps.
  apply (wp_lookAtByte code start code_size s (e + 1)); [done|..]; intros Hlt; cbn [andthen];
    [|split; [apply tail_start|done]].
  case_bool; wps; [in_vector|].
  apply (wp_unconsumeByte code start s (e + 1)); [done|]. wps. put_back.
Qed.

Lemma read_xop_spec b op : wp (read_xop code start b op) (vector_or_back s e op) s.
Proof using code_size s_at s_e s_vet.
  unfold read_xop, set_necessary. wps.
  apply (wp_lookAtByte code start code_size s (e + 1)); [done|..]; intros Hlt; cbn [andthen];
    [|split; [apply tail_start|done]].
  case_bool; wps; [in_vector|].
  apply (wp_unconsumeByte code start s (e + 1)); [done|]. wps. put_back.
Qed.

Lemma read_vex2_spec b op : wp (read_vex2 code start b op) (vector_or_back s e op) s.
Proof using code_size s_at s_e s_vet.
  unfold read_vex2. wps.
  apply (wp_lookAtByte code start code_size s (e + 1)); [done|..]; intros Hlt; cbn [andthen];
    [|split; [apply tail_start|done]].
  case_bool; wps; [in_vector|].
  apply (wp_unconsumeByte code start s (e + 1)); [done|]. wps. put_back.
Qed.

Lemma read_evex_spec b op : wp (read_evex code start b op) (vector_or_back s e op) s.
Proof using code_size s_at s_e s_vet.
  unfold read_evex, set_necessary. wps.
  apply (wp_consumeByte code start code_size s (e + 1)); [done|..]; intros Hlt; cbn [andthen];
    [|split; [apply tail_start|done]].
  set (s1 := set s readerCursor _).
  assert (at_ code start s1 (e + 2)) as Ha1 by (unfold s1; replace (e + 1 + 1) with (e + 2) by lia; eapply at_move; [done|lia]).
  assert (tail false s s1) as Ht1 by (apply tail_move; [apply tail_start|lia]).
  assert (at_ code start (set s1 readerCursor (u64 (start + (e + 2 - 1)))) (e + 1)) as Ha2
    by (replace (e + 2 - 1) with (e + 1) by lia; eapply at_move; [done|lia]).
  assert (at_ code start (set (set s1 readerCursor (u64 (start + (e + 2 - 1)))) readerCursor (u64 (start + (e + 1 - 1)))) e) as Ha3
    by (rewrite Z.add_simpl_r; eapply at_move; [done|lia]).
  case_bool; wps.
  - apply (wp_lookAtByte code start code_size s1 (e + 2)); [done|..]; intros Hlt2; cbn [andthen]; [|by split].
    case_bool; wps; [in_vector|].
    apply (wp_unconsumeByte code start s1 (e + 2)); [done|]. wps. apply (wp_unconsumeByte code start _ (e + 1)); [done|]. wps.
    apply back_at; [by apply at_set|]. intros f ? ?. unfold s1. by rewrite !iset_ne.
  - apply (wp_unconsumeByte code start s1 (e + 2)); [done|]. wps. apply (wp_unconsumeByte code start _ (e + 1)); [done|]. wps.
    apply back_at; [done|]. intros f ? ?. unfold s1. by rewrite !iset_ne.
Qed.

End vector.
(** The REX byte before the opcode, if there is one. *)
Definition rex_at (e : Z) : bool := (m =? MODE_64BIT) && is_rex (zget code e).

Lemma read_rex_spec s e :
  prefixes_end e → at_ code start s (e + 1) → s mode = m →
  wp (read_rex code start (zget code e))
     (fun s' r => tail false s s' ∧ s' vectorExtensionType = s vectorExtensionType ∧
        at_ code start s' (e + cbool (rex_at e)) ∧
        s' rexPrefix = if rex_at e then zget code e else s rexPrefix) s.
Proof using code_size.
  intros He Ha Hm. pose proof (pe_range _ He). unfold read_rex, set_necessary, rex_at. wps. rewrite Hm.
  assert (tail false s s) as Ht by (unfold tail; split_conj; [by exists (e + 1)|done|done]).
  destruct ((m =? MODE_64BIT) && is_rex (zget code e)) eqn:Er.
  - zify_bools. destruct (pe_rex _ He) as (Hlt & Hr & _); [done|done|]. cbn [last_rex]. wps.
    apply (wp_lookAtByte code start code_size s (e + 1)); [done|..]; intros Hlt'; [|lia]. cbn [andthen]. rewrite Hr. wps.
    cbn [cbool]. split_conj.
    + by do 2 (apply tail_set; [done..|]).
    + by rewrite !iset_ne by discriminate.
    + by do 2 (apply at_set; [|done..]).
    + by rewrite iset_ne, iset_eq by discriminate.
  - wps. apply (wp_unconsumeByte code start s (e + 1)); [done|]. wps. cbn [cbool]. rewrite Z.add_simpl_r, Z.add_0_r.
    split_conj; [|by rewrite !iset_ne by discriminate| |by rewrite !iset_ne by discriminate].
    + apply tail_set; [done..|]. apply tail_move; [done|lia].
    + apply at_set; [|done..]. eapply at_move; [done|lia].
Qed.

(** ** The sizes *)

Definition addr_size (ad : bool) : Z :=
  if m =? MODE_16BIT then if ad then 4 else 2
  else if m =? MODE_32BIT then if ad then 2 else 4
  else if ad then 4 else 8.

Definition operand_size (rex : Z) (op : bool) : Z :=
  if m =? MODE_16BIT then if op then 4 else 2
  else if (m =? MODE_64BIT) && ctrue (wFromREX rex) then 8
  else if op then 2 else 4.

Lemma set_sizes_spec s ad op :
  m = MODE_16BIT ∨ m = MODE_32BIT ∨ m = MODE_64BIT → s mode = m → tail false s s →
  wp (set_sizes ad op)
     (fun s' r => r = Some tt ∧ tail false s s' ∧ s' addressSize = addr_size ad ∧
        s' registerSize = operand_size (s rexPrefix) op ∧ (s' immSize = 2 ∨ s' immSize = 4 ∨ s' immSize = 8) ∧
        ∀ f, f ∉ [registerSize; addressSize; displacementSize; immediateSize; immSize] → s' f = s f) s.
Proof.
  intros Hm Em Ht. unfold set_sizes, put_sizes. wps. rewrite Em.
  assert (ctrue (s rexPrefix) = false → wFromREX (s rexPrefix) = 0) as Hz.
  { intros H0. apply ctrue_false in H0. by rewrite H0. }
  unfold addr_size, operand_size.
  destruct Hm as [-> |[-> | ->]]; cbn [Z.eqb Pos.eqb MODE_16BIT MODE_32BIT MODE_64BIT andb].
  3: destruct (ctrue (s rexPrefix)) eqn:Er; [destruct (ctrue (wFromREX (s rexPrefix))) eqn:Ew|rewrite Hz by done]; cbn [andb].
  all: wps; split_conj; [done| | | | |].
  all: try (repeat (apply tail_set; [done..|]); exact Ht).
  all: try (intros f Hf; rewrite !not_elem_of_cons in Hf; destruct_and! Hf; by rewrite !iset_ne).
  all: simp_set; first [reflexivity|destruct op; by auto].
Qed.

(** ** [readPrefixes] *)

(** The state [decodeInstruction] starts [readPrefixes] in. *)
Record prefix_start (s : insn) : Prop := {
  ps_at : at_ code start s 0;
  ps_mode : s mode = m;
  ps_recorded : recorded [] s;
  ps_rex : s rexPrefix = 0
}.

(** What the prefixes mean: they end at [e]; of each group the last is
    recorded, the size of addresses follows from 67h, that of operands from
    the REX byte and an operand-size attribute, that of immediates is 2, 4 or
    8, and without a vector prefix
    the REX byte, if the last prefix is one, is stored and skipped and
    with 66h gives the size of operands. *)
Definition prefixes_read (e : Z) (s : insn) : Prop :=
  prefixes_end e ∧ recorded (legacy_before e) s ∧ s addressSize = addr_size (has_prefix e 0x67) ∧
  (∃ op, s registerSize = operand_size (s rexPrefix) op) ∧ (s immSize = 2 ∨ s immSize = 4 ∨ s immSize = 8) ∧
  (s vectorExtensionType = TYPE_NO_VEX_XOP →
   at_ code start s (e + cbool (rex_at e)) ∧
   s rexPrefix = (if rex_at e then zget code e else 0) ∧
   s registerSize = operand_size (s rexPrefix) (has_prefix e 0x66)).

Definition prefixes_frame (s s' : insn) : Prop :=
  ∀ f, loop_member f = false → tail_member f = false → s' f = s f.

(** One of the vector prefixes, or a REX byte, or neither. *)
Lemma extension_spec s e op :
  prefixes_end e → at_ code start s (e + 1) → s mode = m → s vectorExtensionType = 0 → s rexPrefix = 0 →
  wp (if zget code e =? 0x62 then read_evex code start (zget code e) op
      else if zget code e =? 0xc4 then read_vex3 code start (zget code e) op
      else if zget code e =? 0xc5 then read_vex2 code start (zget code e) op
      else if zget code e =? 0x8f then read_xop code start (zget code e) op
      else _ ← read_rex code start (zget code e); mret op)
     (fun s' r => tail false s s' ∧ (r ≠ None → s' vectorExtensionType = 0 →
        r = Some op ∧ at_ code start s' (e + cbool (rex_at e)) ∧ s' rexPrefix = if rex_at e then zget code e else 0)) s.
Proof using code_size.
  intros He Ha Hm Hv Hx. pose proof (pe_range _ He) as Hr.
  assert (∀ (k : dec bool), is_rex (zget code e) = false → wp k (vector_or_back s e op) s →
    wp k (fun s' r => tail false s s' ∧ (r ≠ None → s' vectorExtensionType = 0 →
        r = Some op ∧ at_ code start s' (e + cbool (rex_at e)) ∧ s' rexPrefix = if rex_at e then zget code e else 0)) s) as Hvec.
  { intros k Hnr Hk. eapply wp_conseq; [exact Hk|]. intros s' r [Ht Hr']. split; [done|]. intros Hsome Hv0.
    destruct (Hr' Hsome) as [?|(-> & _ & Hat & ->)]; [done|]. unfold rex_at. rewrite Hnr, andb_false_r. cbn [cbool].
    by rewrite Z.add_0_r. }
  destruct (Z.eqb_spec (zget code e) 0x62) as [E|_]; [apply Hvec; [by rewrite E|by apply read_evex_spec]|].
  destruct (Z.eqb_spec (zget code e) 0xc4) as [E|_]; [apply Hvec; [by rewrite E|by apply read_vex3_spec]|].
  destruct (Z.eqb_spec (zget code e) 0xc5) as [E|_]; [apply Hvec; [by rewrite E|by apply read_vex2_spec]|].
  destruct (Z.eqb_spec (zget code e) 0x8f) as [E|_]; [apply Hvec; [by rewrite E|by apply read_xop_spec]|].
  apply wp_bind. eapply wp_cut; [by apply read_rex_spec|cbn|by intros s' [? _]].
  intros s' [] (Ht & _ & Hat & Hrex). wps. rewrite Hrex, Hx. done.
Qed.

Lemma recorded_tail L s s' : (∀ f, tail_member f = false → s' f = s f) → recorded L s → recorded L s'.
Proof.
  intros Hf. apply recorded_frame. intros f Hp. apply Hf. destruct f; (reflexivity || discriminate Hp).
Qed.

Lemma readPrefixes_spec s :
  m = MODE_16BIT ∨ m = MODE_32BIT ∨ m = MODE_64BIT → prefix_start s →
  wp (readPrefixes code start)
     (fun s' r => (∃ o, at_ code start s' o) ∧ prefixes_frame s s' ∧ (r ≠ None → ∃ e, prefixes_read e s')) s.
Proof using code_size.
  intros Hmode [Ha Hm Hrec Hrex]. unfold readPrefixes, set_necessary, prefixes_frame. wps.
  set (s0 := set s necessaryPrefixLocation _).
  assert (∀ f, f ≠ necessaryPrefixLocation → s0 f = s f) as Hf0 by (intros f Hn; unfold s0; by rewrite iset_ne).
  eapply wp_cut; [apply (x86_prefix_loop_spec (S (length code)) s0 0)|cbn|].
  - split; [by apply at_set|by rewrite Hf0|intros i Hi; lia|]. eapply recorded_frame; [|exact Hrec].
    intros f Hp. apply Hf0. intros ->. discriminate Hp.
  - unfold zlen. lia.
  - intros s1 [[b ad] op] (_ & Hf1 & e & He & -> & Ha1 & Hrec1 & -> & ->). wps.
    set (s2 := set s1 vectorExtensionType _).
    assert (at_ code start s2 (e + 1)) as Ha2 by by apply at_set.
    assert (∀ f, loop_member f = false → tail_member f = false → s2 f = s f) as Hf2.
    { intros f Hl Ht. unfold s2. rewrite iset_ne, Hf1, Hf0; [done|intros ->; discriminate Ht|done|intros ->; discriminate Ht]. }
    eapply wp_cut; [apply (extension_spec s2 e (has_prefix e 0x66)); try done|cbn|].
    + by rewrite Hf2.
    + unfold s2. rewrite iset_ne, Hf1, Hf0 by done. done.
    + intros s3 op3 (Ht3 & Hr3). pose proof Ht3 as ((o3 & Ha3) & Hf3 & _).
      eapply wp_conseq; [apply (set_sizes_spec s3 (has_prefix e 0x67) op3 Hmode)|].
      * by rewrite Hf3, Hf2.
      * unfold tail. split_conj; [by exists o3|done|done].
      * cbn. intros s4 r (-> & (Ho4 & Ht4 & _) & Had & Hop & Him & Hf4). split_conj; [done| |].
        { intros f Hl Ht. rewrite Ht4, Hf3 by done. by apply Hf2. }
        intros _. exists e. unfold prefixes_read. split_conj; [done| |done|exists op3; rewrite (Hf4 rexPrefix) by isin; exact Hop|done|].
        { eapply recorded_tail; [|exact Hrec1]. intros f Hn. rewrite Ht4, Hf3 by done. unfold s2. rewrite iset_ne; [done|].
          intros ->. discriminate Hn. }
        rewrite Hop, !Hf4 by isin. intros Hv. destruct (Hr3 ltac:(discriminate) Hv) as ([= ->] & Ha4 & ->).
        split_conj; [|done|done]. eapply at_frame; [exact Ha4|by apply Hf4; isin..].
    + intros s3 [((o3 & Ha3) & Hf3 & _) _]. split_conj; [by exists o3| |done].
      intros f Hl Ht. rewrite Hf3 by done. by apply Hf2.
  - intros s1 (Ho1 & Hf1 & _). split_conj; [done| |done].
    intros f Hl Ht. rewrite Hf1, Hf0; [done|intros ->; discriminate Ht|done].
Qed.

End prefix.

End X86Prefix.
