(* ===== verification/X86Safe.v ===== *)
(** * The x86 decoder is safe

    [decodeInstruction] on any bytes, in any mode and from any contents of the
    members it does not clear: every table and array access is in bounds, the
    loops end, the cursor stays within the bytes given, and an accepted
    instruction has between 1 and 15 of them. *)

From Stdlib Require Import ZArith Lia.
From stdpp Require Import sets.
From S2P Require Import Prelude X86Tables X86Decoder X86Logic.

Module X86Safe.

Import X86Tables X86Decoder X86Logic.
Open Scope c_scope.

(** ** The tables *)

(** The entry of a decision is in [modRMTable] for every ModR/M byte. *)
Definition decision_ok (d : ModRMDecision) : bool :=
  (0 <=? instructionIDs d) &&
  (instructionIDs d +
   (if modrm_type d =? MODRM_ONEENTRY then 0
    else if modrm_type d =? MODRM_SPLITRM then 1
    else if modrm_type d =? MODRM_SPLITREG then 15
    else if modrm_type d =? MODRM_SPLITMISC then 71
    else if modrm_type d =? MODRM_FULL then 255
    else 0) <? zlen modRMTable).

Definition opcode_table_ok (t : OpcodeDecision) : bool := (zlen t =? 256) && forallb decision_ok t.

(** The contexts with a table have one of 256 decisions. *)
Definition index_ok (ts : list OpcodeDecision) (index : list Z) : bool :=
  (zlen index =? 179) && forallb (fun i => (0 <=? i) && (i <=? zlen ts)) index && forallb opcode_table_ok ts.

(** An operand set has six operands; no displacement is scaled, and no
    immediate is split between two operands. *)
Definition operand_ok (o : OperandSpecifier) : bool :=
  (negb (CASE_ENCODING_RM (encoding o)) || (encoding o =? ENCODING_RM)) &&
  (negb (encoding o =? ENCODING_IB) || (negb (type o =? TYPE_XMM128) && negb (type o =? TYPE_XMM256))).

Definition in_range (n v : Z) : bool := (0 <=? v) && (v <? n).

Lemma tables_ok :
  zlen x86DisassemblerContexts = 16384 ∧
  forallb (in_range 179) x86DisassemblerContexts = true ∧
  index_ok x86DisassemblerOneByteOpcodes index_x86DisassemblerOneByteOpcodes = true ∧
  index_ok x86DisassemblerTwoByteOpcodes index_x86DisassemblerTwoByteOpcodes = true ∧
  index_ok x86DisassemblerThreeByte38Opcodes index_x86DisassemblerThreeByte38Opcodes = true ∧
  index_ok x86DisassemblerThreeByte3AOpcodes index_x86DisassemblerThreeByte3AOpcodes = true ∧
  opcode_table_ok emptyTable = true ∧
  forallb (in_range 1671) modRMTable = true ∧
  zlen x86DisassemblerInstrSpecifiers = 1671 ∧
  forallb (in_range (zlen x86OperandSets)) x86DisassemblerInstrSpecifiers = true ∧
  forallb (fun r => (zlen r =? 6) && forallb operand_ok r) x86OperandSets = true ∧
  zlen x86_16_bit_eq_lookup = 1671 ∧
  forallb (in_range (zlen x86_16_bit_eq_tbl + 1)) x86_16_bit_eq_lookup = true.
Proof. vm_compute. split_conj; reflexivity. Qed.

#[local] Opaque x86DisassemblerContexts modRMTable x86DisassemblerInstrSpecifiers x86OperandSets x86_16_bit_eq_tbl
  x86_16_bit_eq_lookup x86DisassemblerOneByteOpcodes x86DisassemblerTwoByteOpcodes x86DisassemblerThreeByte38Opcodes
  x86DisassemblerThreeByte3AOpcodes index_x86DisassemblerOneByteOpcodes index_x86DisassemblerTwoByteOpcodes
  index_x86DisassemblerThreeByte38Opcodes index_x86DisassemblerThreeByte3AOpcodes.

(** An element of a list that was checked. *)
Lemma aget_checked {A} (f : A → bool) l i :
  forallb f l = true → 0 ≤ i < zlen l → ∃ x, aget l i = Ok x ∧ f x = true.
Proof.
  intros Hf Hi. destruct (aget_is_Ok l i Hi) as [x Hx]. exists x. split; [done|].
  apply aget_Ok_inv in Hx as [_ Hx]. rewrite forallb_forall in Hf. apply Hf.
  apply list_elem_of_In. by eapply list_elem_of_lookup_2.
Qed.

Lemma in_range_spec n v : in_range n v = true ↔ 0 ≤ v < n.
Proof. unfold in_range. rewrite andb_true_iff, Z.leb_le, Z.ltb_lt. done. Qed.

Lemma context_ok m : in_u 14 m → ∃ c, contextForAttrs m = Ok c ∧ 0 ≤ c < 179.
Proof.
  intros Hm. destruct tables_ok as (HL & HC & _). unfold contextForAttrs.
  destruct (aget_checked _ x86DisassemblerContexts m HC) as (c & -> & Hc); [unfold in_u in Hm; lia|].
  exists c. split; [reflexivity|]. apply in_range_spec in Hc. exact Hc.
Qed.

Lemma opcode_tables_ok ty : index_ok (opcode_tables ty).1 (opcode_tables ty).2 = true.
Proof.
  destruct tables_ok as (_ & _ & H1 & H2 & H3 & H4 & _). unfold opcode_tables.
  repeat case_bool; cbn [fst snd]; [exact H2|exact H3|exact H4|exact H1].
Qed.

Lemma find_decision_ok ty c opc : 0 ≤ c < 179 → in_u 8 opc →
  ∃ d, find_decision ty c opc = Ok d ∧ decision_ok d = true.
Proof.
  intros Hc Ho. unfold find_decision. pose proof (opcode_tables_ok ty) as H.
  destruct (opcode_tables ty) as [ts index]. cbn [fst snd] in H. unfold index_ok in H.
  apply andb_true_iff in H as [H HT]. apply andb_true_iff in H as [HL HI]. zify_bools.
  destruct (aget_checked _ index c HI) as (i & -> & Hi); [lia|]. zify_bools. cbn [mbind outcome_bind].
  unfold in_u in Ho. change (2 ^ 8) with 256 in Ho.
  assert (∀ t, opcode_table_ok t = true → ∃ d, aget t opc = Ok d ∧ decision_ok d = true) as Ht.
  { intros t Ht. unfold opcode_table_ok in Ht. zify_bools. apply aget_checked; [done|lia]. }
  case_bool; [|apply Ht, tables_ok].
  destruct (aget_checked _ ts (i - 1) HT) as (t & -> & Htt); [lia|]. by apply Ht.
Qed.

Lemma modRMRequired_ok ty c opc : 0 ≤ c < 179 → in_u 8 opc → ∃ b, modRMRequired ty c opc = Ok b.
Proof.
  intros Hc Ho. destruct (find_decision_ok ty c opc Hc Ho) as (d & E & _). revert E.
  unfold find_decision, modRMRequired. destruct (opcode_tables ty) as [ts index].
  destruct (aget index c) as [i| |]; cbn [mbind outcome_bind]; try done. case_bool; [|by eauto].
  destruct (aget ts (i - 1)) as [t| |]; cbn [mbind outcome_bind]; try done. intros ->. cbn. by eauto.
Qed.

Lemma decode_ok ty c opc m : 0 ≤ c < 179 → in_u 8 opc → in_u 8 m →
  ∃ id, decode ty c opc m = Ok id ∧ 0 ≤ id < 1671.
Proof.
  intros Hc Ho Hm. unfold decode. destruct (find_decision_ok ty c opc Hc Ho) as (d & -> & Hd).
  cbn [mbind outcome_bind]. unfold decision_ok in Hd. zify_bools.
  assert (∀ i, 0 ≤ i < zlen modRMTable → ∃ id, aget modRMTable i = Ok id ∧ 0 ≤ id < 1671) as Hget.
  { intros i Hi. destruct (aget_checked (in_range 1671) modRMTable i) as (id & -> & Hid); [apply tables_ok|done|].
    exists id. split; [reflexivity|]. apply in_range_spec in Hid. exact Hid. }
  assert (0 ≤ (m & 0x38) >> 3 ≤ 7 ∧ 0 ≤ (m & 0x3f) ≤ 63) as [H1 H2].
  { pose proof (byte_cases (fun m => ((m & 0x38) >> 3 <=? 7) && (0 <=? (m & 0x38) >> 3) && ((m & 0x3f) <=? 63) && (0 <=? (m & 0x3f)))
      ltac:(vm_compute; reflexivity) m Hm) as Hb. cbv beta in Hb. zify_bools. lia. }
  unfold in_u in Hm. change (2 ^ 8) with 256 in Hm.
  repeat case_bool; try (apply Hget; lia). exists 0. by split; [|lia].
Qed.

Lemma spec_operands_ok id : 0 ≤ id < 1671 → ∃ os, spec_operands id = Ok os ∧ 0 ≤ os < zlen x86OperandSets.
Proof.
  intros Hid. destruct tables_ok as (_ & _ & _ & _ & _ & _ & _ & _ & HL & HS & _). unfold spec_operands.
  destruct (aget_checked _ x86DisassemblerInstrSpecifiers id HS) as (os & -> & Ho); [lia|].
  exists os. split; [reflexivity|]. apply in_range_spec in Ho. exact Ho.
Qed.

Lemma operand_at_ok os i : 0 ≤ os < zlen x86OperandSets → 0 ≤ i < 6 →
  ∃ op, operand_at os i = Ok op ∧ operand_ok op = true.
Proof.
  intros Ho Hi. destruct tables_ok as (_ & _ & _ & _ & _ & _ & _ & _ & _ & _ & HO & _).
  unfold operand_at. destruct (aget_checked _ x86OperandSets os HO) as (r & -> & Hr); [done|]. zify_bools.
  cbn [mbind outcome_bind]. apply aget_checked; [done|lia].
Qed.

Lemma eq16_loop_ok fuel i orig equiv :
  0 ≤ i ≤ zlen x86_16_bit_eq_tbl → zlen x86_16_bit_eq_tbl < i + Z.of_nat fuel → ∃ b, eq16_loop fuel i orig equiv = Ok b.
Proof.
  revert i. induction fuel as [|fuel IH]; intros i Hi Hf; cbn [eq16_loop]; [lia|].
  case_bool; [|by eauto].
  destruct (aget_is_Ok x86_16_bit_eq_tbl i) as [p ->]; [lia|]. cbn [mbind outcome_bind].
  repeat case_bool; [by eauto| |by eauto]. apply IH; lia.
Qed.

Lemma is16BitEquivalent_ok orig equiv : 0 ≤ orig < 1671 → ∃ b, is16BitEquivalent orig equiv = Ok b.
Proof.
  intros Ho. destruct tables_ok as (_ & _ & _ & _ & _ & _ & _ & _ & _ & _ & _ & HL & HF).
  unfold is16BitEquivalent. destruct (aget_checked _ x86_16_bit_eq_lookup orig HF) as (i & -> & Hi); [lia|].
  apply in_range_spec in Hi. cbn [mbind outcome_bind]. case_bool; [|by eauto].
  apply eq16_loop_ok; [lia|]. unfold zlen in *. lia.
Qed.

(** ** The invariant of the decoder *)

(** An instruction of the tables. *)
Definition is_id (id : Z) : Prop := 0 ≤ id < 1671.

(** What is known at a point of the decoder: at least [g_lo] bytes were
    consumed, the opcode, the ModR/M byte and the instruction were read or
    not, and [g_k] immediates were. *)
Record ghost := mkGhost { g_lo : Z; g_op : bool; g_cm : bool; g_k : Z; g_sp : option Z }.

Section safe.
Context (code : list Z) (start m lock : Z).
Hypothesis code_bytes : bytes_ok code.
Hypothesis code_size : zlen code < 2 ^ 64.

Record inv (g : ghost) (s : insn) : Prop := {
  inv_at : ∃ o, g_lo g ≤ o ∧ at_ code start s o;
  inv_const : s mode = m ∧ s isPrefixf0 = lock;
  inv_imm : s numImmediatesConsumed = g_k g;
  inv_disp : - 2 ^ 31 ≤ s displacement < 2 ^ 31;
  inv_modrm : ctrue (s consumedModRM) = true → in_u 8 (s modRM);
  inv_cm : g_cm g = true → ctrue (s consumedModRM) = true;
  inv_opcode : g_op g = true → in_u 8 (s opcode);
  inv_spec : ∀ id, g_sp g = Some id → is_id id ∧ s spec = id ∧ s instructionID = id
}.

(** The members the invariant is about. *)
Definition inv_fields : list field :=
  [readerCursor; startLocation; mode; isPrefixf0; numImmediatesConsumed; displacement; consumedModRM; modRM; opcode;
   spec; instructionID].

Lemma inv_frame g s s' : (∀ f, f ∈ inv_fields → s' f = s f) → inv g s → inv g s'.
Proof.
  intros Hf [(o & Ho & Ha) H1 H2 H3 H4 H5 H6 H7].
  split; rewrite ?(Hf mode), ?(Hf isPrefixf0), ?(Hf numImmediatesConsumed), ?(Hf displacement), ?(Hf consumedModRM),
    ?(Hf modRM), ?(Hf opcode), ?(Hf spec), ?(Hf instructionID) by isin; try done.
  exists o. split; [done|]. apply (at_frame code start s); [done|apply Hf; isin..].
Qed.

Lemma inv_set g s f v : f ∉ inv_fields → inv g s → inv g (set s f v).
Proof. intros Hf. apply inv_frame. intros h Hh. apply iset_ne. intros ->. done. Qed.

Lemma inv_move g s o : inv g s → g_lo g ≤ o ≤ zlen code → 0 ≤ o → inv g (set s readerCursor (u64 (start + o))).
Proof.
  intros [(o' & Ho & Ha) H1 H2 H3 H4 H5 H6 H7] Hlo H0. split; rewrite ?iset_ne by discriminate; try done.
  exists o. split; [lia|]. eapply at_move; [done|lia].
Qed.

(** What holds with more known holds with less. *)
Definition weaker (g g' : ghost) : Prop :=
  g_lo g ≤ g_lo g' ∧ g_k g = g_k g' ∧ (g_op g = true → g_op g' = true) ∧
  (g_cm g = true → g_cm g' = true) ∧ (∀ id, g_sp g = Some id → g_sp g' = Some id).

Ltac weak := unfold weaker; cbn; split_conj; solve [lia|auto].

Lemma inv_weaken g g' s : weaker g g' → inv g' s → inv g s.
Proof.
  intros (W1 & W2 & W3 & W4 & W5) [(o & Ho & Ha) H1 H2 H3 H4 H5 H6 H7].
  split; [exists o; split; [lia|done]|done|congruence|done|done|auto..].
Qed.

Abbreviation keeps g := (pres (inv g)).

Lemma keeps_put g f v : f ∉ inv_fields → keeps g (fun _ => True) (put f v).
Proof. intros Hf. apply pres_put. intros s. by apply inv_set. Qed.

Lemma keeps_displacement g v : - 2 ^ 31 ≤ v < 2 ^ 31 → keeps g (fun _ => True) (put displacement v).
Proof.
  intros Hv. apply pres_put. intros s [H0 H1 H2 H3 H4 H5 H6 H7]. split; rewrite ?iset_ne, ?iset_eq by discriminate; try done.
  destruct H0 as (o & Ho & Ha). exists o. split; [done|]. by apply at_set.
Qed.

Lemma keeps_consumeByte g : keeps g (in_u 8) (consumeByte code start).
Proof using code_bytes code_size.
  intros s Hs. destruct (inv_at _ _ Hs) as (o & Ho & Ha). pose proof (at_range _ _ _ _ Ha).
  apply (wp_consumeByte code start code_size s o); [done|..]; intros Hlt; (split; [|intros ? [= <-]]); try done.
  - apply inv_move; [done|lia|lia].
  - by apply bytes_ok_zget.
Qed.

Lemma keeps_lookAtByte g : keeps g (in_u 8) (lookAtByte code start).
Proof using code_bytes code_size.
  intros s Hs. destruct (inv_at _ _ Hs) as (o & Ho & Ha).
  apply (wp_lookAtByte code start code_size s o); [done|..]; intros Hlt; (split; [done|intros ? [= <-]]).
  by apply bytes_ok_zget.
Qed.

Lemma keeps_consume g cast w n : CastOk w cast → (0 < n ≤ 8)%nat →
  keeps g (fun v => ∃ x, v = cast x) (consume code start cast n).
Proof using code_bytes code_size.
  intros K Hn s Hs. destruct (inv_at _ _ Hs) as (o & Ho & Ha). pose proof (at_range _ _ _ _ Ha).
  apply (wp_consume code start code_bytes code_size cast w n s o); [done..| |]; intros Hlt; (split; [|intros ? [= <-]]); try done.
  - apply inv_move; [done|lia|lia].
  - by eauto.
Qed.

Lemma keeps_signed g w n : 0 < w ≤ 32 → (0 < n ≤ 8)%nat →
  keeps g (fun v => - 2 ^ 31 ≤ v < 2 ^ 31) (consume code start (swrap w) n).
Proof using code_bytes code_size.
  intros Hw Hn. eapply pres_weaken; [apply (keeps_consume g (swrap w) w n); [apply swrap_ok; lia|done]|].
  intros v [x ->]. pose proof (swrap_range w x ltac:(lia)).
  assert (2 ^ (w - 1) ≤ 2 ^ 31) by (apply Z.pow_le_mono_r; lia). lia.
Qed.

Lemma keeps_unsigned g w n : 0 < w → (0 < n ≤ 8)%nat → keeps g (fun _ => True) (consume code start (wrap w) n).
Proof using code_bytes code_size.
  intros Hw Hn. eapply pres_weaken; [apply (keeps_consume g (wrap w) w n); [by apply wrap_ok|done]|done].
Qed.

Hint Resolve keeps_consumeByte keeps_lookAtByte : x86.
Hint Resolve keeps_displacement : x86.
Hint Extern 1 (pres _ _ (consume _ _ (swrap _) _)) => apply keeps_signed; lia : x86.
Hint Extern 1 (pres _ _ (consume _ _ (wrap _) _)) => apply keeps_unsigned; lia : x86.
Hint Extern 1 (pres _ _ (put _ _)) => apply keeps_put; isin : x86.

(** ** ModR/M *)

Lemma keeps_readDisplacement g : keeps g (fun _ => True) (readDisplacement code start).
Proof using code_bytes code_size.
  unfold readDisplacement, disp_switch, consumeInt8, consumeInt16, consumeInt32.
  pres_auto.
Qed.

Hint Resolve keeps_readDisplacement : x86.

Lemma keeps_readSIB g : keeps g (fun _ => True) (readSIB code start).
Proof using code_bytes code_size. unfold readSIB, use_sib, sib_base. pres_auto. Qed.
Hint Resolve keeps_readSIB : x86.

Lemma keeps_ea_16 g md rm : keeps g (fun _ => True) (ea_16 code start md rm).
Proof using code_bytes code_size. unfold ea_16. pres_auto. Qed.

Lemma keeps_ea_32 g a md rm : keeps g (fun _ => True) (ea_32 code start a md rm).
Proof using code_bytes code_size. unfold ea_32. pres_auto. Qed.

Lemma keeps_reg_bases g : keeps g (fun _ => True) reg_bases.
Proof. unfold reg_bases. pres_auto. Qed.
Hint Resolve keeps_ea_16 keeps_ea_32 keeps_reg_bases : x86.

(** The ModR/M byte is known. *)
Definition with_cm (g : ghost) : ghost := mkGhost (g_lo g) (g_op g) true (g_k g) (g_sp g).

Lemma weaker_cm g : weaker g (with_cm g).
Proof. weak. Qed.

Lemma inv_with_cm g s : inv g s → ctrue (s consumedModRM) = true → inv (with_cm g) s.
Proof. intros [H0 H1 H2 H3 H4 H5 H6 H7] Hc. by split. Qed.

(** Store a ModR/M byte. *)
Lemma inv_modRM g s b : inv g s → in_u 8 b → inv g (set s modRM b).
Proof.
  intros [H0 H1 H2 H3 H4 H5 H6 H7] Hb. split; rewrite ?iset_ne, ?iset_eq by discriminate; try done.
  destruct H0 as (o & Ho & Ha). exists o. split; [done|]. by apply at_set.
Qed.

Lemma inv_consumed g s b :
  inv g s → in_u 8 b → inv (with_cm g) (set (set (set s modRM b) consumedModRM 1) orgModRM b).
Proof.
  intros Hs Hb. apply inv_set; [isin|].
  destruct (inv_modRM g s b Hs Hb) as [H0 H1 H2 H3 H4 H5 H6 H7].
  split; rewrite ?iset_ne, ?iset_eq in * by discriminate; try done.
  destruct H0 as (o & Ho & Ha). exists o. split; [done|]. by apply at_set.
Qed.

Lemma readModRM_safe g s : inv g s →
  wp (readModRM code start) (fun s' r => inv g s' ∧ (r ≠ None → inv (with_cm g) s')) s.
Proof using code_bytes code_size.
  intros Hs. unfold readModRM. wps. destruct (ctrue _) eqn:Ec; wps.
  { split; [done|]. intros _. by apply inv_with_cm. }
  eapply wp_cut; [by apply (keeps_consumeByte g)|cbn|intros s' [? _]; by split].
  intros s1 b [Hs1 Hb]. specialize (Hb b eq_refl). wps.
  pose proof (inv_consumed g s1 b Hs1 Hb) as Hs2. set (s2 := set _ orgModRM b) in *.
  assert (in_u 8 (if is_mov_cr s2 then b .| 0xc0 else b)) as Hb2.
  { case_bool; [|done]. by apply in_u_lor; [lia|done|]. }
  set (b2 := if is_mov_cr s2 then _ else _) in *. pose proof (inv_modRM _ _ _ Hs2 Hb2) as Hs3.
  eapply wp_cut; [by apply (keeps_reg_bases (with_cm g))|cbn|].
  - intros s4 [] [Hs4 _].
    match goal with |- wp ?k _ _ => assert (keeps (with_cm g) (fun _ => True) k) as Hk by pres_auto end.
    eapply wp_conseq; [by apply Hk|]. cbn. intros s' r [H _]. split; [|done]. by apply (inv_weaken g _ _ (weaker_cm g)).
  - cbn. intros s' [H _]. split; [|done]. by apply (inv_weaken g _ _ (weaker_cm g)).
Qed.

Lemma keeps_readModRM g : keeps g (fun _ => True) (readModRM code start).
Proof using code_bytes code_size. intros s Hs. eapply wp_conseq; [by apply readModRM_safe|]. cbn. intros s' r [? _]. by split. Qed.
Hint Resolve keeps_readModRM : x86.

(** ** Opcode *)

Definition with_op (g : ghost) : ghost := mkGhost (g_lo g) true (g_cm g) (g_k g) (g_sp g).

Lemma inv_set_opcode g s b : inv g s → in_u 8 b → inv (with_op g) (set s opcode b).
Proof.
  intros [H0 H1 H2 H3 H4 H5 H6 H7] Hb. split; rewrite ?iset_ne, ?iset_eq by discriminate; try done.
  destruct H0 as (o & Ho & Ha). exists o. split; [done|]. by apply at_set.
Qed.

(** One more byte was consumed. *)
Definition with_more (g : ghost) : ghost := mkGhost (g_lo g + 1) (g_op g) (g_cm g) (g_k g) (g_sp g).

Lemma weaker_more g : weaker g (with_more g).
Proof. weak. Qed.

Lemma weaker_op g : weaker g (with_op g).
Proof. weak. Qed.

Lemma consumeByte_more g s : inv g s →
  wp (consumeByte code start) (fun s' r => inv g s' ∧ ∀ b, r = Some b → in_u 8 b ∧ inv (with_more g) s') s.
Proof using code_bytes code_size.
  intros Hs. destruct (inv_at _ _ Hs) as (o & Ho & Ha). pose proof (at_range _ _ _ _ Ha).
  apply (wp_consumeByte code start code_size s o); [done|..]; intros Hlt; [|by split].
  assert (inv g (set s readerCursor (u64 (start + (o + 1))))) as Hm by (apply inv_move; [done|lia|lia]).
  split; [done|]. intros ? [= <-]. split; [by apply bytes_ok_zget|].
  destruct Hm as [_ H1 H2 H3 H4 H5 H6 H7]. split; try done.
  exists (o + 1). split; [cbn; lia|]. eapply at_move; [done|lia].
Qed.

(** The postcondition of reading the opcode. *)
Definition opcode_read (g : ghost) (s : insn) (r : option unit) : Prop :=
  inv g s ∧ (r ≠ None → inv (with_op (with_more g)) s).

Lemma opcode_of_type_safe g s t : inv g s → wp (opcode_of_type code start t) (opcode_read g) s.
Proof using code_bytes code_size.
  intros Hs. unfold opcode_of_type. wps.
  eapply wp_cut; [apply (consumeByte_more g); by apply inv_set; [isin|]|cbn|intros s' [? _]; by split].
  intros s' b [_ H]. destruct (H b eq_refl) as [Hb Hm]. wps.
  pose proof (inv_set_opcode _ _ b Hm Hb) as Ho. split; [|done].
  apply (inv_weaken _ (with_op (with_more g))); [weak|done].
Qed.

Lemma vector_opcode_safe g s s0 k : inv g s → vector_opcode code start s0 = Some k → wp k (opcode_read g) s.
Proof using code_bytes code_size.
  intros Hs. unfold vector_opcode.
  repeat case_bool; try discriminate; intros [= <-]; repeat case_match; wps.
  all: lazymatch goal with
       | |- wp (opcode_of_type _ _ _) _ _ => apply opcode_of_type_safe; repeat (apply inv_set; [isin|]); exact Hs
       | |- opcode_read _ _ None => by split
       end.
Qed.

Lemma readOpcode_safe g s : inv g s → wp (readOpcode code start) (opcode_read g) s.
Proof using code_bytes code_size.
  intros Hs. unfold readOpcode. wps.
  assert (inv g (set (set s opcodeType ONEBYTE) firstByte 0)) as Hs1 by (apply inv_set; [isin|]; by apply inv_set; [isin|]).
  destruct (vector_opcode code start _) as [k|] eqn:Ek; [by eapply vector_opcode_safe|].
  wps. eapply wp_cut; [by apply (consumeByte_more g)|cbn|intros s' [? _]; by split].
  intros s2 b [_ H]. destruct (H b eq_refl) as [Hb Hm]. wps.
  match goal with |- wp ?k _ _ => assert (keeps (with_more g) (in_u 8) k) as Hk by pres_auto end.
  eapply wp_cut; [apply Hk; by apply inv_set; [isin|]|cbn|].
  - intros s3 c [Hs3 Hc]. wps. pose proof (inv_set_opcode _ _ c Hs3 (Hc c eq_refl)) as Ho. split; [|done].
    apply (inv_weaken _ (with_op (with_more g))); [weak|done].
  - cbn. intros s' [H' _]. split; [|done]. by apply (inv_weaken _ (with_more g)); [apply weaker_more|].
Qed.

(** ** The instruction *)

Lemma attr_if_ok v a : in_u 14 a → in_u 14 (attr_if v a).
Proof. unfold attr_if. by case_bool. Qed.

Lemma pp_attr_ok pp : in_u 14 (pp_attr pp).
Proof. unfold pp_attr. by repeat case_bool. Qed.

Lemma attributes_ok s a : attributes s = Some a → in_u 14 a.
Proof.
  unfold attributes. intros (b & Hb & [= <-])%bind_Some. apply in_u_lor; [lia| |by apply attr_if_ok].
  assert (in_u 14 (if s mode =? MODE_64BIT then ATTR_64BIT else ATTR_NONE)) as Hm by by case_bool.
  revert Hb. repeat case_bool; intros [= <-];
    repeat (apply in_u_lor; [lia| |]); auto using attr_if_ok, pp_attr_ok; try done; by apply attr_if_ok.
Qed.

(** A computation after the ModR/M byte was read. *)
Lemma keeps_after_modRM {A} g (R : A → Prop) (k : unit → dec A) :
  keeps (with_cm g) R (k tt) → keeps g R (readModRM code start ≫= k).
Proof using code_bytes code_size.
  intros Hk s Hs. eapply wp_seq; [by apply readModRM_safe|cbn|cbn; intros s' [? _]; by split].
  intros s' [] [_ H]. eapply wp_conseq; [apply Hk, H; discriminate|]. cbn. intros s2 r [H2 HR]. split; [|done].
  by apply (inv_weaken g _ _ (weaker_cm g)).
Qed.

Lemma keeps_getIDWithAttrMask g a :
  g_op g = true → in_u 14 a → keeps g is_id (getIDWithAttrMask code start a).
Proof using code_bytes code_size.
  intros Hop Ha. unfold getIDWithAttrMask. eapply pres_bind; [apply pres_get|]. intros ty _.
  eapply pres_bind; [apply pres_get|]. intros opc (s & Hs & ->).
  pose proof (inv_opcode _ _ Hs Hop) as Ho. set (opc := s opcode) in *. clearbody opc.
  apply (pres_bind _ (fun c => 0 ≤ c < 179)).
  { apply pres_if; intros _; [by apply pres_ret|]. apply pres_lift. by apply context_ok. }
  intros c Hc. apply (pres_bind _ (fun _ => True)).
  { apply pres_lift. destruct (modRMRequired_ok ty c opc Hc Ho) as [b ->]. by eauto. }
  intros b _. apply pres_if; intros _.
  - apply keeps_after_modRM. eapply pres_bind; [apply pres_get|]. intros ? (s1 & Hs1 & ->).
    eapply pres_bind; [apply pres_get|]. intros ? (s2 & Hs2 & ->). apply pres_lift.
    apply decode_ok; [done|by apply (inv_opcode _ _ Hs1)|]. apply (inv_modrm _ _ Hs2), (inv_cm _ _ Hs2). done.
  - apply pres_lift. by apply decode_ok.
Qed.
Hint Resolve keeps_getIDWithAttrMask : x86.

Definition id_and_mask (p : Z * Z) : Prop := is_id p.1 ∧ in_u 14 p.2.

Lemma keeps_fix_branch g id a :
  g_op g = true → is_id id → in_u 14 a → keeps g id_and_mask (fix_branch code start id a).
Proof using code_bytes code_size.
  intros Hop Hid Ha. unfold fix_branch. eapply pres_bind; [apply pres_read_state|]. intros s _.
  assert (in_u 14 (a ^^ ATTR_OPSIZE)) by (by apply in_u_lxor).
  apply pres_if; intros _; [|by apply pres_ret]. cbv zeta.
  eapply pres_bind; [by apply keeps_getIDWithAttrMask|]. intros id' Hid'. by apply pres_ret.
Qed.

Lemma keeps_fix_jcxz g id a :
  g_op g = true → is_id id → in_u 14 a → keeps g id_and_mask (fix_jcxz code start id a).
Proof using code_bytes code_size.
  intros Hop Hid Ha. unfold fix_jcxz. eapply pres_bind; [apply pres_read_state|]. intros s _.
  assert (in_u 14 (a ^^ ATTR_ADSIZE)) by (by apply in_u_lxor).
  apply pres_if; intros _; [|by apply pres_ret].
  eapply pres_bind; [apply pres_lift, spec_operands_ok, Hid|]. intros os Hos.
  eapply pres_bind; [apply pres_lift, operand_at_ok; [exact Hos|lia]|]. intros op _.
  apply pres_if; intros _; [|by apply pres_ret]. cbv zeta.
  eapply pres_bind; [by apply keeps_getIDWithAttrMask|]. intros id' Hid'. by apply pres_ret.
Qed.

(** The instruction was determined. *)
Definition with_sp (id : Z) (g : ghost) : ghost := mkGhost (g_lo g) (g_op g) (g_cm g) (g_k g) (Some id).

Lemma weaker_sp g id : g_sp g = None → weaker g (with_sp id g).
Proof. intros E. unfold weaker. cbn. rewrite E. split_conj; solve [lia|auto|done]. Qed.

Definition found (g : ghost) (s : insn) (r : option unit) : Prop := ∃ g', weaker g g' ∧ inv g' s ∧ (r ≠ None → is_Some (g_sp g')).

Lemma set_instruction_safe g s id : g_sp g = None → inv g s → is_id id → wp (set_instruction id) (found g) s.
Proof.
  intros Hsp [H0 H1 H2 H3 H4 H5 H6 H7] Hid. unfold set_instruction. wps. exists (with_sp id g).
  split; [by apply weaker_sp|]. split; [|by eexists].
  split; rewrite ?iset_ne, ?iset_eq by discriminate; try done; [|by intros ? [= <-]].
  destruct H0 as (o & Ho & Ha). exists o. split; [done|]. by do 2 (apply at_set; [|done..]).
Qed.

Lemma keeps_put_opcode g v : g_op g = true → in_u 8 v → keeps g (fun _ => True) (put opcode v).
Proof.
  intros Hop Hv. apply pres_put. intros s Hs. apply (inv_weaken g (with_op g)); [weak|]. by apply inv_set_opcode.
Qed.

(** Chain a computation that keeps the invariant with one that finds the instruction. *)
Lemma found_bind {A} g (R : A → Prop) (m1 : dec A) k s :
  keeps g R m1 → inv g s → (∀ a s', R a → inv g s' → wp (k a) (found g) s') → wp (m1 ≫= k) (found g) s.
Proof.
  intros Hm Hs Hk. eapply wp_seq; [by apply Hm|..]; cbn.
  - intros s' a [Hs' HR]. by apply Hk; [apply HR|].
  - intros s' [Hs' _]. exists g. split; [weak|]. done.
Qed.

Lemma with_opsize_safe g s id a :
  g_op g = true → g_sp g = None → inv g s → is_id id → in_u 14 a → wp (with_opsize code start id a) (found g) s.
Proof using code_bytes code_size.
  intros Hop Hsp Hs Hid Ha. unfold with_opsize.
  eapply found_bind; [apply pres_attempt, keeps_getIDWithAttrMask; [done|by apply in_u_lor]|done|].
  intros [id'|] s' Hr Hs'; [|by apply set_instruction_safe].
  eapply found_bind; [apply (pres_lift _ (fun _ => True)); destruct (is16BitEquivalent_ok id id' Hid) as [b ->]; by eauto|done|].
  intros b s2 _ Hs2. eapply found_bind; [apply pres_read_state|done|]. intros s3 s4 _ Hs4.
  destruct (_ && _); apply set_instruction_safe; try done. by apply Hr.
Qed.

Lemma with_xchg_safe g s id a :
  g_op g = true → g_sp g = None → inv g s → is_id id → in_u 14 a → wp (with_xchg code start id a) (found g) s.
Proof using code_bytes code_size.
  intros Hop Hsp Hs Hid Ha. unfold with_xchg.
  eapply found_bind; [by apply keeps_put_opcode|done|]. intros _ s1 _ Hs1.
  eapply found_bind; [by apply pres_attempt, keeps_getIDWithAttrMask|done|]. intros r s2 Hr Hs2.
  eapply found_bind; [by apply keeps_put_opcode|done|]. intros _ s3 _ Hs3.
  apply set_instruction_safe; [done|done|]. destruct r; [by apply Hr|done].
Qed.

Lemma getID_safe g s : g_op g = true → g_sp g = None → inv g s → wp (getID code start) (found g) s.
Proof using code_bytes code_size.
  intros Hop Hsp Hs. unfold getID. eapply found_bind; [apply pres_read_state|done|]. intros s0 s1 _ Hs1.
  destruct (attributes s0) as [a|] eqn:Ea; [|apply wp_failed; exists g; split; [weak|done]].
  apply attributes_ok in Ea.
  eapply found_bind; [by apply keeps_getIDWithAttrMask|done|]. intros id s2 Hid Hs2.
  eapply found_bind; [by apply keeps_fix_branch|done|]. intros [id1 a1] s3 [Hid1 Ha1] Hs3. cbn [fst snd] in *.
  eapply found_bind; [by apply keeps_fix_jcxz|done|]. intros [id2 a2] s4 [Hid2 Ha2] Hs4. cbn [fst snd] in *.
  eapply found_bind; [apply pres_read_state|done|]. intros s5 s6 _ Hs6.
  destruct (_ && negb _); [by apply with_opsize_safe|]. destruct (_ && _); [by apply with_xchg_safe|by apply set_instruction_safe].
Qed.

(** ** Operands *)

Lemma keeps_fixupReg g op : keeps g (fun _ => True) (fixupReg op).
Proof.
  unfold fixupReg, fixup, put_fixed. pres_auto.
Qed.

Lemma keeps_readOpcodeRegister g n : keeps g (fun _ => True) (readOpcodeRegister n).
Proof. unfold readOpcodeRegister. pres_auto. Qed.

Lemma keeps_readVVVV g : keeps g (fun _ => True) readVVVV.
Proof. unfold readVVVV. pres_auto. Qed.

Lemma keeps_readMaskRegister g : keeps g (fun _ => True) readMaskRegister.
Proof. unfold readMaskRegister. pres_auto. Qed.
Hint Resolve keeps_fixupReg keeps_readOpcodeRegister keeps_readVVVV keeps_readMaskRegister : x86.

Lemma keeps_read_rm g op :
  operand_ok op = true → (encoding op =? ENCODING_REG) || CASE_ENCODING_RM (encoding op) = true →
  keeps g (fun _ => True) (read_rm code start op).
Proof using code_bytes code_size.
  intros Hop Henc. unfold read_rm. do 2 (eapply pres_bind; [eauto with x86|]; intros _ _).
  eapply pres_bind; [apply pres_get|]. intros d _. apply pres_when. intros Hd. zify_bools.
  assert (encoding op - ENCODING_RM = 0) as ->.
  { unfold operand_ok in Hop. rewrite (proj2 (Z.eqb_neq _ _)) in Henc by done. cbn [orb] in Henc.
    rewrite Henc in Hop. cbn [negb orb] in Hop. zify_bools. lia. }
  unfold scale_displacement. eapply pres_bind; [apply pres_get|]. intros ? (s & Hs & ->).
  pose proof (inv_disp _ _ Hs). change (1 << 0) with 1. rewrite Z.mul_1_r. cbv zeta.
  apply pres_if; intros Hb; [by apply keeps_displacement|]. zcases; lia.
Qed.

(** The state while operands are read: the instruction is known and at most
    two immediates were read. *)
Definition ready (lo id : Z) (s : insn) : Prop :=
  ∃ g, lo ≤ g_lo g ∧ 0 ≤ g_k g ≤ 2 ∧ g_op g = true ∧ g_sp g = Some id ∧ inv g s.

Lemma pres_ready {A} lo id (R : A → Prop) m0 : (∀ g, keeps g R m0) → pres (ready lo id) R m0.
Proof.
  intros Hm s (g & H1 & H2 & H3 & H4 & Hs). eapply wp_conseq; [by apply (Hm g)|]. cbn. intros s' r [Hs' HR].
  split; [|done]. exists g. done.
Qed.

Definition with_k (k : Z) (g : ghost) : ghost := mkGhost (g_lo g) (g_op g) (g_cm g) k (g_sp g).

Lemma ready_next lo id g s :
  lo ≤ g_lo g → 0 ≤ g_k g < 2 → g_op g = true → g_sp g = Some id → inv g s →
  wp next_immediate (fun s' r => ready lo id s' ∧ ∀ a, r = Some a → True) s.
Proof.
  intros H1 H2 H3 H4 Hs. unfold next_immediate. wps. split; [|done].
  exists (with_k (g_k g + 1) g). cbn. split_conj; [done|lia|lia|done|done|].
  pose proof Hs as [(o & Ho & Ha) I1 I2 I3 I4 I5 I6 I7]. split; rewrite ?iset_ne, ?iset_eq by discriminate; try done.
  - exists o. split; [done|]. by apply at_set.
  - rewrite I2, wrap_small; [done|]. unfold in_u. lia.
Qed.

Lemma ready_readImmediate lo id n : pres (ready lo id) (fun _ => True) (readImmediate code start n).
Proof using code_bytes code_size.
  intros s (g & H1 & H2 & H3 & H4 & Hs). unfold readImmediate. wps.
  destruct (Z.eqb_spec (s numImmediatesConsumed) 2) as [E|E]; wps; [split; [by exists g|done]|].
  rewrite (inv_imm _ _ Hs) in *. assert (g_k g = 0 ∨ g_k g = 1) as Hk by lia.
  set (n' := if n =? 0 then _ else _). clearbody n'.
  match goal with |- wp ?k _ _ => assert (keeps g (fun _ => True) k) as Hkeep end.
  { unfold put_immediate, consumeUInt16, consumeUInt32, consumeUInt64. destruct Hk as [-> | ->]; pres_auto. }
  eapply wp_cut; [apply Hkeep; by do 2 (apply inv_set; [isin|])|cbn|].
  - intros s' [] [Hs' _]. by apply (ready_next lo id g); [..|lia|done|done|].
  - cbn. intros s' [Hs' _]. split; [by exists g|done].
Qed.
Hint Resolve ready_readImmediate : x86.

(** An operand of the tables is read without splitting an immediate. *)
Lemma ready_read_operand lo id op hasV needV :
  operand_ok op = true → pres (ready lo id) (fun p => p.2 = false) (read_operand code start op hasV needV false).
Proof using code_bytes code_size.
  intros Hop. unfold read_operand, read_ib.
  assert (∀ m0 : dec unit, pres (ready lo id) (fun _ => True) m0 →
    pres (ready lo id) (fun p => p.2 = false) (m0 ≫= fun _ => mret (needV, false))) as Hkeep.
  { intros m0 Hm. eapply pres_bind; [exact Hm|]. intros _ _. by apply pres_ret. }
  repeat (apply pres_if; intros ?).
  all: lazymatch goal with
       | |- pres _ _ (readImmediate _ _ _ ≫= _) => apply Hkeep; apply ready_readImmediate
       | |- pres _ _ (readOpcodeRegister _ ≫= _) => apply Hkeep, pres_ready; intros g; apply keeps_readOpcodeRegister
       | |- pres _ _ (readMaskRegister ≫= _) => apply Hkeep, pres_ready; intros g; apply keeps_readMaskRegister
       | |- pres _ _ (mret _) => apply pres_ret; reflexivity
       | |- pres _ _ failed => apply pres_failed
       | _ => idtac
       end.
  - apply Hkeep, pres_ready. intros g. by apply keeps_read_rm.
  - eapply pres_bind with (R := fun b => b = false).
    { eapply pres_bind; [apply ready_readImmediate|]. intros _ _. apply pres_ret. unfold operand_ok in Hop. zify_bools.
      rewrite (proj2 (Z.eqb_eq (encoding op) ENCODING_IB)) in * by done. cbn in *. zify_bools. zcases; done. }
    intros b ->. by apply pres_ret.
  - apply Hkeep. eapply pres_bind; [apply pres_get|]. intros n _. apply ready_readImmediate.
  - apply Hkeep. eapply pres_bind; [apply pres_get|]. intros n _. apply ready_readImmediate.
  - eapply pres_bind; [apply pres_ready; intros g; apply keeps_fixupReg|]. intros _ _. by apply pres_ret.
Qed.

Lemma ready_operand_loop lo id n os i hasV needV :
  0 ≤ os < zlen x86OperandSets → 0 ≤ i → i + Z.of_nat n ≤ 6 →
  pres (ready lo id) (fun _ => True) (operand_loop code start n os i hasV needV false).
Proof using code_bytes code_size.
  intros Hos. revert i needV. induction n as [|n IH]; intros i needV Hi Hn; cbn [operand_loop]; [by apply pres_ret|].
  eapply pres_bind; [apply pres_lift, operand_at_ok; [exact Hos|lia]|]. intros op Hop.
  eapply pres_bind; [by apply ready_read_operand|]. intros [nv saw] Hs. cbn [fst snd] in *. subst. apply IH; lia.
Qed.

Lemma ready_readOperands lo id : pres (ready lo id) (fun _ => True) (readOperands code start).
Proof using code_bytes code_size.
  unfold readOperands.
  eapply pres_bind; [apply pres_attempt, pres_ready; intros g; apply keeps_readVVVV|]. intros r _.
  eapply pres_bind; [apply pres_read_state|]. intros s (g & _ & _ & _ & Hsp & Hs).
  eapply pres_bind; [apply pres_lift, spec_operands_ok; destruct (inv_spec _ _ Hs _ Hsp) as (Hid & -> & _); exact Hid|]. intros os Hos.
  eapply pres_bind; [by apply ready_operand_loop|]. intros b _. apply pres_if; intros _; [apply pres_failed|by apply pres_ret].
Qed.

End safe.

End X86Safe.
