(* ===== verification/X86Decode.v ===== *)
(** * Decoding an x86 instruction

    [decodeInstruction] as [X86_getInstruction] of [X86Disassembler.c] calls
    it: on a structure of which the members before [reader] were cleared. *)

From Stdlib Require Import ZArith Lia.
From stdpp Require Import sets.
From S2P Require Import Prelude X86Tables X86Decoder X86Logic X86Prefix X86Safe.

Module X86Decode.

Import X86Tables X86Decoder X86Logic X86Prefix X86Safe.
Open Scope c_scope.

#[local] Opaque x86DisassemblerContexts modRMTable x86DisassemblerInstrSpecifiers x86OperandSets x86_16_bit_eq_tbl
  x86_16_bit_eq_lookup x86DisassemblerOneByteOpcodes x86DisassemblerTwoByteOpcodes x86DisassemblerThreeByte38Opcodes
  x86DisassemblerThreeByte3AOpcodes index_x86DisassemblerOneByteOpcodes index_x86DisassemblerTwoByteOpcodes
  index_x86DisassemblerThreeByte38Opcodes index_x86DisassemblerThreeByte3AOpcodes.

(** ** The start *)

(** The structure after the first stores of [decodeInstruction]. *)
Definition started (junk : insn) (start m : Z) : insn :=
  set (set (set (clear_insn junk) startLocation start) readerCursor start) mode m.

Section start.
Context (code : list Z) (start m : Z) (junk : insn).
Hypothesis start_ok : in_u 64 start.

Lemma started_at : at_ code start (started junk start m) 0.
Proof using start_ok.
  unfold started. apply at_set; [|done..]. split; simp_set; [|done|pose proof (zlen_nonneg code); lia].
  by rewrite Z.add_0_r, wrap_small.
Qed.

Lemma started_prefix : prefix_start code start m (started junk start m).
Proof using start_ok.
  split; [apply started_at|unfold started; by simp_set| |unfold started; by simp_set].
  split; [|unfold started; by simp_set..].
  intros b p l Hb. apply prefix_slots_cases in Hb. unfold started.
  in_cases Hb; injection Hb as -> -> ->; by simp_set.
Qed.

(** The prefixes only change members of their own. *)
Lemma frame_inv s : prefixes_frame (started junk start m) s → (∃ o, at_ code start s o) →
  inv code start m (s isPrefixf0) (mkGhost 0 false false 0 None) s.
Proof.
  intros Hf (o & Ha). unfold prefixes_frame in Hf. pose proof (at_range _ _ _ _ Ha).
  split; cbn [g_lo g_op g_cm g_k g_sp]; rewrite ?Hf by done; try done.
  - by exists o; split; [lia|].
Qed.

End start.

(** ** The end *)

Section finish.
Context (code : list Z) (start m lock : Z).
Hypothesis code_bytes : bytes_ok code.
Hypothesis code_size : zlen code < 2 ^ 64.

(** A LOCK prefix is accepted only before an instruction that allows it. *)
Lemma checkPrefix_safe lo id s :
  ready code start m lock lo id s →
  wp checkPrefix (fun s' r => ready code start m lock lo id s' ∧ (r ≠ None → lock ≠ 0 → id ∈ lockable)) s.
Proof.
  intros Hs. pose proof Hs as (g & H1 & H2 & H3 & H4 & Hi). unfold checkPrefix. wps.
  destruct (inv_const _ _ _ _ _ _ Hi) as [_ ->]. destruct (inv_spec _ _ _ _ _ _ Hi id H4) as (_ & _ & ->).
  destruct (ctrue lock) eqn:El.
  - destruct (bool_decide (id ∈ lockable)) eqn:Ed; wps; (split; [done|]); [|done]. intros _ _.
    by apply bool_decide_eq_true in Ed.
  - apply ctrue_false in El. apply wp_when; intros _; wps; (split; [|done]); [|done].
    exists g. split_conj; [lia..|done|done|]. apply inv_set; [isin|done].
Qed.

(** What an accepted instruction is. *)
Record accepted (s : insn) : Prop := {
  acc_at : at_ code start s (s length_);
  acc_length : 1 ≤ s length_ ≤ 15;
  acc_id : 0 < s instructionID < zlen x86DisassemblerInstrSpecifiers;
  acc_spec : s spec = s instructionID;
  acc_operands : spec_operands (s spec) = Ok (s operands) ∧ 0 ≤ s operands < zlen x86OperandSets;
  acc_immediates : 0 ≤ s numImmediatesConsumed ≤ 2;
  acc_lock : s isPrefixf0 ≠ 0 → s instructionID ∈ lockable;
  acc_disp : - 2 ^ 31 ≤ s displacement < 2 ^ 31
}.

(** The end of [decodeInstruction]. *)
Lemma finish_safe id s : id ≠ 0 → (lock ≠ 0 → id ∈ lockable) → ready code start m lock 1 id s →
  wp (s ← read_state;
      let n := u64 (s readerCursor - s startLocation) in
      _ ← put length_ n;
      if 15 <? n then failed
      else
        _ ← when (s operandSize =? 0) (put operandSize (s registerSize));
        os ← lift (spec_operands (s spec));
        put operands os)
     (fun s' r => (∃ o, at_ code start s' o) ∧ (r = Some tt → accepted s')) s.
Proof using code_size.
  intros Hid Hl (g & H1 & H2 & _ & H4 & Hi). wps. destruct (inv_at _ _ _ _ _ _ Hi) as (o & Ho & Ha).
  rewrite (at_distance code start code_size s o Ha). pose proof (at_range _ _ _ _ Ha).
  assert (at_ code start (set s length_ o) o) as Ha1 by by apply at_set.
  destruct (inv_spec _ _ _ _ _ _ Hi id H4) as (Hr & Hs & Hid').
  destruct (spec_operands_ok id Hr) as (os & Eos & Hos).
  destruct tables_ok as (_ & _ & _ & _ & _ & _ & _ & _ & HL & _). unfold is_id in Hr.
  assert (∀ s1, (∀ f, f ∉ [operandSize] → s1 f = set s length_ o f) → o ≤ 15 →
    wp (os ← lift (spec_operands (s spec)); put operands os)
       (fun s' r => (∃ o, at_ code start s' o) ∧ (r = Some tt → accepted s')) s1) as Hend.
  { intros s1 Hf Hle. wps. eapply wp_lift; [by rewrite Hs|]. wps.
    assert (at_ code start (set s1 operands os) o) as Ha2
      by (apply at_set; [|done..]; eapply at_frame; [exact Ha1|apply Hf; isin..]).
    split; [by exists o|]. intros _.
    split; simp_set; rewrite ?Hf by isin; simp_set; rewrite ?Hs, ?Hid', ?HL; try done; try lia.
    - rewrite (inv_imm _ _ _ _ _ _ Hi). lia.
    - destruct (inv_const _ _ _ _ _ _ Hi) as [_ ->]. done.
    - by apply (inv_disp _ _ _ _ _ _ Hi). }
  destruct (Z.ltb_spec 15 o); wps; [by split; [exists o|]|].
  apply wp_when; intros _; [apply wp_put|]; cbn [andthen]; (apply Hend; [intros f Hf|lia]); [|done].
  apply iset_ne. intros ->. apply Hf. isin.
Qed.

End finish.

(** ** The theorem *)

Lemma found_ready code start m lock g s :
  found code start m lock g s (Some tt) → 1 ≤ g_lo g → g_k g = 0 → g_op g = true →
  ∃ id, is_id id ∧ s instructionID = id ∧ ready code start m lock 1 id s.
Proof.
  intros (g' & (W1 & W2 & W3 & _) & Hi & Hsp) Hlo Hk Hop. destruct Hsp as [id Hid]; [done|].
  exists id. destruct (inv_spec _ _ _ _ _ _ Hi id Hid) as (? & _ & ?). split_conj; [done..|].
  exists g'. split_conj; [lia|lia|lia|auto|done|done].
Qed.

Lemma ready_at code start m lock lo id s : ready code start m lock lo id s → ∃ o, at_ code start s o.
Proof. intros (g & _ & _ & _ & _ & Hi). destruct (inv_at _ _ _ _ _ _ Hi) as (o & _ & Ha). by exists o. Qed.

Lemma inv_some_at code start m lock g s : inv code start m lock g s → ∃ o, at_ code start s o.
Proof. intros Hi. destruct (inv_at _ _ _ _ _ _ Hi) as (o & _ & Ha). by exists o. Qed.

(** From [getID] on. *)
Lemma identified_safe code start m lock s id :
  bytes_ok code → zlen code < 2 ^ 64 → ready code start m lock 1 id s → id ≠ 0 →
  wp (_ ← checkPrefix; _ ← readOperands code start;
      s ← read_state;
      let n := u64 (s readerCursor - s startLocation) in
      _ ← put length_ n;
      if 15 <? n then failed
      else
        _ ← when (s operandSize =? 0) (put operandSize (s registerSize));
        os ← lift (spec_operands (s spec));
        put operands os)
     (fun s' r => (∃ o, at_ code start s' o) ∧ (r = Some tt → accepted code start s')) s.
Proof.
  intros Hb Hsz Hs Hid.
  eapply wp_seq; [by apply checkPrefix_safe|cbn..].
  - intros s1 [] [Hs1 Hl]. eapply wp_seq; [by apply (ready_readOperands code start m lock Hb Hsz 1 id)|cbn..].
    + intros s2 [] [Hs2 _]. by apply (finish_safe code start m lock Hsz id); [|apply Hl|].
    + intros s2 [Hs2 _]. split; [by eapply ready_at|done].
  - intros s1 [Hs1 _]. split; [by eapply ready_at|done].
Qed.

Lemma decodeInstruction_wp (code : list Z) (start m : Z) (junk : insn) :
  bytes_ok code → zlen code < 2 ^ 64 → in_u 64 start → m = MODE_16BIT ∨ m = MODE_32BIT ∨ m = MODE_64BIT →
  wp (decodeInstruction code start start m) (fun s r => (∃ o, at_ code start s o) ∧ (r = Some tt → accepted code start s)) (clear_insn junk).
Proof.
  intros Hb Hsz Hst Hm. unfold decodeInstruction. wps.
  eapply wp_cut; [apply (readPrefixes_spec code start m Hsz (started junk start m) Hm); by apply started_prefix|cbn..].
  2: { intros s (Ho & _). by split. }
  intros s1 [] (Ho1 & Hf1 & _). pose proof (frame_inv code start m junk s1 Hf1 Ho1) as Hi1.
  set (lock := s1 isPrefixf0) in *. set (g := mkGhost _ _ _ _ _) in *. wps.
  eapply wp_cut; [by apply (readOpcode_safe code start m lock Hb Hsz g)|cbn..].
  2: { intros s [Hi _]. split; [by eapply inv_some_at|done]. }
  intros s2 [] [_ Hi2]. specialize (Hi2 ltac:(discriminate)). wps.
  eapply wp_cut; [by apply (getID_safe code start m lock Hb Hsz (with_op (with_more g)))|cbn..].
  2: { intros s (g' & _ & Hi & _). split; [by eapply inv_some_at|done]. }
  intros s3 [] Hf. apply found_ready in Hf as (id & Hid & Eid & Hr); [|done..]. wps. rewrite Eid.
  destruct (Z.eqb_spec id 0) as [E|E]; [wps; split; [by eapply ready_at|done]|].
  by eapply identified_safe.
Qed.

(** C10: [decodeInstruction] on any bytes, from any address, in each of the
    three modes and whatever the members it does not clear hold: it returns,
    every access to its tables and arrays is in bounds, and the cursor stays
    within the bytes given, also when it fails. When it accepts, the length
    is the distance the cursor moved, between 1 and 15; the instruction and
    its operands are entries of the tables; at most two immediates were
    read; and with a LOCK prefix the instruction is one that allows it. *)
Theorem decodeInstruction_safe (code : list Z) (start m : Z) (junk : insn) :
  bytes_ok code → zlen code < 2 ^ 64 → in_u 64 start → m = MODE_16BIT ∨ m = MODE_32BIT ∨ m = MODE_64BIT →
  ∃ s r, decodeInstruction code start start m (clear_insn junk) = Ok (s, r) ∧
    (∃ o, 0 ≤ o ≤ zlen code ∧ s readerCursor = u64 (start + o)) ∧
    (r = Some tt → accepted code start s).
Proof.
  intros Hb Hsz Hst Hm. apply wp_run. eapply wp_conseq; [by apply decodeInstruction_wp|].
  intros s r [(o & Ha) Hr]. split; [|done]. exists o. split; [by eapply at_range|by apply (at_cursor _ _ _ _ Ha)].
Qed.

Definition junk0 : insn := fun _ => 0xcc.

(** [mov rax, [rsp+16]] *)
Definition mov_code : list Z := [0x48; 0x8b; 0x44; 0x24; 0x10].

Lemma mov_bytes : bytes_ok mov_code.
Proof. repeat constructor; unfold in_u; lia. Qed.

Lemma decodeInstruction_safe_witness :
  ∃ s r, decodeInstruction mov_code 0x1000 0x1000 MODE_64BIT (clear_insn junk0) = Ok (s, r) ∧
    (∃ o, 0 ≤ o ≤ 5 ∧ s readerCursor = u64 (0x1000 + o)) ∧ (r = Some tt → accepted mov_code 0x1000 s).
Proof.
  apply (decodeInstruction_safe mov_code 0x1000 MODE_64BIT junk0); [exact mov_bytes|reflexivity|unfold in_u; lia|auto].
Defined.

(** What the decoder makes of it: an instruction of the tables with 5 bytes. *)
Example mov_decoded :
  match decodeInstruction mov_code 0x1000 0x1000 MODE_64BIT (clear_insn junk0) with
  | Ok (s, Some _) => (s instructionID, s length_, s displacement) = (835, 5, 16)
  | _ => False
  end.
Proof. vm_compute. reflexivity. Qed.

(** ** The prefixes *)

(** C17: [readPrefixes] on any bytes, as [decodeInstruction] calls it: it
    returns with the cursor within the bytes. When it succeeds, the prefixes
    end at some offset [e]: every byte before it is a legacy prefix or, in
    64-bit mode, a REX byte, and the byte at [e] is neither or is the REX byte
    right before the opcode. Of each group of legacy prefixes the last one
    wins: its flag is set, its location is that of its last occurrence, and
    the other flags of the group are clear. Addresses have the size 67h
    selects; without a vector prefix the cursor is after the REX byte, the REX
    byte is stored if there is one, and operands have the size REX.W and 66h
    select. *)
Theorem readPrefixes_correct (code : list Z) (start m : Z) (junk : insn) :
  bytes_ok code → zlen code < 2 ^ 64 → in_u 64 start → m = MODE_16BIT ∨ m = MODE_32BIT ∨ m = MODE_64BIT →
  ∃ s r, readPrefixes code start (started junk start m) = Ok (s, r) ∧
    (∃ o, at_ code start s o) ∧ (r = Some tt → ∃ e, prefixes_read code start m e s).
Proof.
  intros Hb Hsz Hst Hm. apply wp_run.
  eapply wp_conseq; [apply (readPrefixes_spec code start m Hsz (started junk start m) Hm); by apply started_prefix|].
  cbn. intros s r (Ho & _ & Hr). split; [done|]. intros ->. by apply Hr.
Qed.

Lemma readPrefixes_correct_witness :
  ∃ s r, readPrefixes [0x66; 0x2e; 0x3e; 0x48; 0x90] 0 (started junk0 0 MODE_64BIT) = Ok (s, r) ∧
    (∃ o, at_ [0x66; 0x2e; 0x3e; 0x48; 0x90] 0 s o) ∧
    (r = Some tt → ∃ e, prefixes_read [0x66; 0x2e; 0x3e; 0x48; 0x90] 0 MODE_64BIT e s).
Proof.
  apply (readPrefixes_correct [0x66; 0x2e; 0x3e; 0x48; 0x90] 0 MODE_64BIT junk0).
  - repeat constructor; unfold in_u; lia.
  - reflexivity.
  - unfold in_u; lia.
  - auto.
Defined.

(** ** The opcode *)

(** The map and the number of opcode bytes the bytes at [o] select. *)
Definition opcode_map (code : list Z) (o : Z) : Z * Z :=
  if negb (zget code o =? 0x0f) then (ONEBYTE, 1)
  else if zget code (o + 1) =? 0x38 then (THREEBYTE_38, 3)
  else if zget code (o + 1) =? 0x3a then (THREEBYTE_3A, 3)
  else (ONEBYTE, 2).

(** C18: [readOpcode] without a vector prefix: it succeeds exactly when the
    bytes of the opcode are there, reads them, and selects the map: one byte
    from the first map; 0F 38 and 0F 3A the three-byte maps. In the reduced
    build every other opcode that starts with 0F is looked up in the map of
    ONE-byte opcodes by its second byte: the two-byte map is never selected. *)
Theorem readOpcode_maps (code : list Z) (start o : Z) (s : insn) :
  bytes_ok code → zlen code < 2 ^ 64 → at_ code start s o → s vectorExtensionType = TYPE_NO_VEX_XOP →
  let '(ty, n) := opcode_map code o in
  ∃ s' r, readOpcode code start s = Ok (s', r) ∧ (r = Some tt ↔ o + n ≤ zlen code) ∧
    (o + n ≤ zlen code → at_ code start s' (o + n) ∧ s' opcodeType = ty ∧ ty ≠ TWOBYTE ∧
       s' opcode = zget code (o + n - 1)).
Proof.
  intros Hb Hsz Ha Hv. pose proof (at_range _ _ _ _ Ha). destruct (opcode_map code o) as [ty n] eqn:Emap. unfold opcode_map in Emap.
  apply wp_run. unfold readOpcode. wps.
  assert (vector_opcode code start (set (set s opcodeType ONEBYTE) firstByte 0) = None) as ->.
  { unfold vector_opcode. simp_set. rewrite Hv. reflexivity. }
  assert (at_ code start (set (set s opcodeType ONEBYTE) firstByte 0) o) as Ha0 by by do 2 (apply at_set; [|done..]).
  wps. apply (wp_consumeByte code start Hsz _ o); [done|..]; intros Hlt; wps.
  2: { assert (1 ≤ n) by (repeat case_match; simplify_eq; lia). split; [split; [done|lia]|lia]. }
  destruct (Z.eqb_spec (zget code o) 0x0f) as [E0|E0]; cbn [negb] in Emap; wps.
  2: { injection Emap as <- <-. split; [split; [lia|done]|]. intros _. split_conj; simp_set; [|done|done|by rewrite Z.add_simpl_r].
       do 2 (apply at_set; [|done..]). eapply at_move; [done|lia]. }
  set (s1 := set _ twoByteEscape _).
  assert (at_ code start s1 (o + 1)) as Ha1 by (unfold s1; do 2 (apply at_set; [|done..]); eapply at_move; [done|lia]).
  apply (wp_consumeByte code start Hsz _ (o + 1)); [done|..]; intros Hlt1; wps.
  2: { assert (2 ≤ n) by (repeat case_match; simplify_eq; lia). split; [split; [done|lia]|lia]. }
  set (s2 := set s1 readerCursor _).
  assert (at_ code start s2 (o + 2)) as Ha2 by (unfold s2; replace (o + 1 + 1) with (o + 2) by lia; eapply at_move; [done|lia]).
  destruct (Z.eqb_spec (zget code (o + 1)) 0x38) as [E1|E1]; [|destruct (Z.eqb_spec (zget code (o + 1)) 0x3a) as [E2|E2]]; wps;
    injection Emap as <- <-.
  1, 2: apply (wp_consumeByte code start Hsz _ (o + 2)); [by apply at_set|..]; intros Hlt2; wps;
    [|split; [split; [done|lia]|lia]]; (split; [split; [lia|done]|]); intros _;
    (split_conj; simp_set; [|done|done|f_equal; lia]); do 2 (apply at_set; [|done..]);
    replace (o + 3) with (o + 2 + 1) by lia; (eapply at_move; [by apply at_set|lia]).
  split; [split; [lia|done]|]. intros _. split_conj; [by apply at_set| |done|simp_set; f_equal; lia].
  unfold s2, s1. by simp_set.
Qed.

(** [syscall], with four more bytes *)
Definition syscall_code : list Z := [0x0f; 0x05; 1; 2; 3; 4].

Lemma readOpcode_maps_witness :
  ∃ s r, readOpcode syscall_code 0 (set (started junk0 0 MODE_64BIT) vectorExtensionType 0) = Ok (s, r) ∧
    r = Some tt ∧ s opcodeType = ONEBYTE ∧ s opcode = 0x05.
Proof.
  destruct (readOpcode_maps syscall_code 0 0 (set (started junk0 0 MODE_64BIT) vectorExtensionType 0)) as (s & r & E & Hr & H).
  - repeat constructor; unfold in_u; lia.
  - reflexivity.
  - split; [reflexivity|reflexivity|]. change (zlen syscall_code) with 6. lia.
  - reflexivity.
  - assert (0 + 2 ≤ zlen syscall_code) as Hl by (change (zlen syscall_code) with 6; lia).
    exists s, r. destruct (H Hl) as (_ & Ht & _ & Ho). split; [exact E|]. split; [apply Hr, Hl|]. split; [exact Ht|exact Ho].
Defined.

(** [syscall] is decoded as [ADD32i32] (78), [add eax, imm32], of 6 bytes. *)
Example syscall_decoded :
  match decodeInstruction syscall_code 0 0 MODE_64BIT (clear_insn junk0) with
  | Ok (s, Some _) => (s instructionID, s length_) = (78, 6)
  | _ => False
  end.
Proof. vm_compute. reflexivity. Qed.

End X86Decode.
