(* ===== verification/X86ModRM.v ===== *)
(** * The addressing forms of the x86 decoder

    [readModRM], [readSIB] and [readDisplacement] of
    [X86DisassemblerDecoder.c] against the addressing forms of the
    instruction set, the same [Hde] is compared with: how many bytes follow
    the opcode, and which registers and displacement they name. *)

From Stdlib Require Import ZArith Lia.
From stdpp Require Import sets.
From S2P Require Import Prelude Hde X86Tables X86Decoder X86Logic.

Module X86ModRM.

Import X86Decoder X86Logic.
Open Scope c_scope.

(** ** The specification *)

(** [eaDisplacement] for a displacement of [n] bytes. *)
Definition disp_code (n : Z) : Z :=
  if n =? 0 then EA_DISP_NONE else if n =? 1 then EA_DISP_8 else if n =? 2 then EA_DISP_16 else EA_DISP_32.

(** The first base of 16-, 32- or 64-bit addresses. *)
Definition base_of (a : Z) : Z := if a =? 2 then EA_BASE_BX_SI else if a =? 4 then EA_BASE_EAX else EA_BASE_RAX.

Section modrm.
Context (code : list Z) (start : Z).
Hypothesis code_bytes : bytes_ok code.
Hypothesis code_size : zlen code < 2 ^ 64.

(** The form that mod [m] and r/m [low] announce with addresses of [a]
    bytes; [p] is the offset after the ModR/M byte. *)
Definition sib_follows (a m low : Z) : bool := negb (a =? 2) && Hde.form_sib m low.
Definition disp_bytes (a p m low : Z) : Z :=
  if a =? 2 then Hde.form16_disp m low else Hde.form_disp m low (baseFromSIB (zget code p)).
Definition disp_at (a p m low : Z) : Z := p + cbool (sib_follows a m low).
Definition form_end (a p m low : Z) : Z := disp_at a p m low + disp_bytes a p m low.

(** The operand a register field, extended by a bit of the REX prefix, names. *)
Definition extended (low bit : Z) : Z := low + 8 * bit.

(** What a SIB byte [b] names: base 5 with mod 0 is none, and so is index 4
    without REX.X. *)
Record sib_named (a rex : Z) (b : Z) (no_base : bool) (s : insn) : Prop := {
  sn_byte : s sib = b;
  sn_scale : s sibScale = 2 ^ scaleFromSIB b;
  sn_index : s sibIndex = if extended (indexFromSIB b) (xFromREX rex) =? 4 then SIB_INDEX_NONE
                          else (if a =? 4 then SIB_INDEX_EAX else SIB_INDEX_RAX) + extended (indexFromSIB b) (xFromREX rex);
  sn_base : s sibBase = if no_base then SIB_BASE_NONE
                        else (if a =? 4 then SIB_BASE_EAX else SIB_BASE_RAX) + extended (baseFromSIB b) (bFromREX rex)
}.

(** ** Bit fields *)

Lemma modrm_fields b : in_u 8 b →
  0 ≤ modFromModRM b < 4 ∧ 0 ≤ rmFromModRM b < 8 ∧ 0 ≤ regFromModRM b < 8.
Proof.
  intros Hb. pose proof (byte_cases (fun b => (0 <=? modFromModRM b) && (modFromModRM b <? 4) && (0 <=? rmFromModRM b) &&
    (rmFromModRM b <? 8) && (0 <=? regFromModRM b) && (regFromModRM b <? 8)) ltac:(vm_compute; reflexivity) b Hb) as H.
  cbv beta in H. zify_bools. lia.
Qed.

Lemma rex_fields r : in_u 8 r →
  (bFromREX r = 0 ∨ bFromREX r = 1) ∧ (xFromREX r = 0 ∨ xFromREX r = 1) ∧ (rFromREX r = 0 ∨ rFromREX r = 1).
Proof.
  intros Hr. pose proof (byte_cases (fun r => ((bFromREX r =? 0) || (bFromREX r =? 1)) && ((xFromREX r =? 0) || (xFromREX r =? 1)) &&
    ((rFromREX r =? 0) || (rFromREX r =? 1))) ltac:(vm_compute; reflexivity) r Hr) as H.
  cbv beta in H. zify_bools. lia.
Qed.

(** A register field with the bit of the REX prefix above it. *)
Lemma or_extended low bit : 0 ≤ low < 8 → bit = 0 ∨ bit = 1 → low .| (bit << 3) = extended low bit.
Proof.
  intros Hl Hb. unfold extended. assert (low ∈ seqZ 0 8) as Hin by (apply elem_of_seqZ; lia).
  in_cases Hin; destruct Hb; subst; reflexivity.
Qed.

Lemma shift_one n : 0 ≤ n → 1 << n = 2 ^ n.
Proof. intros Hn. rewrite Z.shiftl_mul_pow2 by done. lia. Qed.

(** ** The displacement *)

Definition disp_members : list field := [readerCursor; consumedDisplacement; displacementOffset; displacement].

Lemma readDisplacement_spec s o n :
  at_ code start s o → s consumedDisplacement = 0 → n = 0 ∨ n = 1 ∨ n = 2 ∨ n = 4 → s eaDisplacement = disp_code n →
  wp (readDisplacement code start)
     (fun s' r => (r = Some tt ↔ o + n ≤ zlen code) ∧ (∀ f, f ∉ disp_members → s' f = s f) ∧
        (o + n ≤ zlen code → at_ code start s' (o + n) ∧
           (n ≠ 0 → s' displacement = swrap (8 * n) (le_at code (Z.to_nat n) o)))) s.
Proof using code_bytes code_size.
  intros Ha Hc Hn He. pose proof (at_range _ _ _ _ Ha). unfold readDisplacement. wps. rewrite Hc. cbn [ctrue Z.eqb negb]. wps.
  set (s1 := set (set s _ _) _ _).
  assert (at_ code start s1 o) as Ha1 by (unfold s1; by do 2 (apply at_set; [|done..])).
  assert (∀ f, f ∉ disp_members → s1 f = s f) as Hf1.
  { intros f Hf. unfold s1. rewrite !iset_ne; [done|intros ->; apply Hf; isin..]. }
  rewrite Hf1, He by isin.
  assert (∀ w k cst, CastOk w cst → (0 < k ≤ 8)%nat → n = Z.of_nat k → cst = swrap (8 * n) →
    wp (v ← consume code start cst k; put displacement v)
     (fun s' r => (r = Some tt ↔ o + n ≤ zlen code) ∧ (∀ f, f ∉ disp_members → s' f = s f) ∧
        (o + n ≤ zlen code → at_ code start s' (o + n) ∧
           (n ≠ 0 → s' displacement = swrap (8 * n) (le_at code (Z.to_nat n) o)))) s1) as Hrest.
  { intros w k cst K Hk En Ec. wps. apply (wp_consume code start code_bytes code_size cst w k s1 o); [done..| |]; intros Hlt; wps.
    - rewrite <- En in *. split_conj; [done| |].
      + intros f Hf. rewrite !iset_ne; [by apply Hf1|intros ->; apply Hf; isin..].
      + intros _. split; [apply at_set; [eapply at_move; [done|lia]|done..]|]. intros _. simp_set. rewrite Ec. f_equal.
        rewrite En, Nat2Z.id. done.
    - split_conj; [split; [done|lia]|done|lia]. }
  destruct Hn as [-> |[-> |[-> | ->]]]; cbn [disp_code Z.eqb Pos.eqb disp_switch EA_DISP_NONE EA_DISP_8 EA_DISP_16 EA_DISP_32].
  - wps. split_conj; [split; [lia|done]| |].
    + intros f Hf. rewrite !iset_ne; [by apply Hf1|intros ->; apply Hf; isin..].
    + intros _. rewrite Z.add_0_r. split; [by apply at_set|done].
  - unfold consumeInt8. apply (Hrest 8 1%nat); [apply swrap_ok; lia|lia|done|done].
  - unfold consumeInt16. apply (Hrest 16 2%nat); [apply swrap_ok; lia|lia|done|done].
  - unfold consumeInt32. apply (Hrest 32 4%nat); [apply swrap_ok; lia|lia|done|done].
Qed.

(** ** The SIB byte *)

Definition sib_members : list field := [readerCursor; consumedSIB; sib; sibIndex; sibScale; sibBase; eaDisplacement].

(** The base and with it the displacement. *)
Lemma sib_base_spec s first low bit :
  0 ≤ low < 8 → bit = 0 ∨ bit = 1 → 0 ≤ modFromModRM (s modRM) < 3 →
  wp (sib_base first (extended low bit))
     (fun s' r => r = Some tt ∧ (∀ f, f ∉ [eaDisplacement; sibBase] → s' f = s f) ∧
        s' sibBase = (if (low =? 5) && (modFromModRM (s modRM) =? 0) then SIB_BASE_NONE else first + extended low bit) ∧
        s' eaDisplacement = (if low =? 5 then if modFromModRM (s modRM) =? 1 then EA_DISP_8 else EA_DISP_32 else s eaDisplacement)) s.
Proof.
  intros Hl Hb Hm. unfold sib_base.
  assert ((extended low bit =? 0x5) || (extended low bit =? 0xd) = (low =? 5)) as ->.
  { unfold extended. destruct Hb as [-> | ->]; zcases; lia. }
  assert (modFromModRM (s modRM) = 0 ∨ modFromModRM (s modRM) = 1 ∨ modFromModRM (s modRM) = 2) as Hcase by lia.
  destruct (Z.eqb_spec low 5) as [E|E]; cbn [andb]; wps.
  - destruct Hcase as [-> |[-> | ->]]; wps; cbn [Z.eqb Pos.eqb]; simp_set; (split_conj; [done| |done|done]);
      intros f Hf; rewrite !iset_ne; (done || intros ->; apply Hf; isin).
  - simp_set. split_conj; [done| |done|done]. intros f Hf. rewrite iset_ne; [done|]. intros ->. apply Hf. isin.
Qed.

(** The index: 4 names none. *)
Lemma sib_index_eq low bit a :
  0 ≤ low < 8 → bit = 0 ∨ bit = 1 → a = 4 ∨ a = 8 →
  let first := if a =? 4 then SIB_INDEX_EAX else SIB_INDEX_RAX in
  let i := extended low bit in
  (if i =? 0x4 then SIB_INDEX_NONE
   else if (first + i =? SIB_INDEX_sib) || (first + i =? SIB_INDEX_sib64) then SIB_INDEX_NONE else first + i)
  = if i =? 4 then SIB_INDEX_NONE else first + i.
Proof.
  intros Hl Hb Ha. unfold extended, SIB_INDEX_EAX, SIB_INDEX_RAX, SIB_INDEX_sib, SIB_INDEX_sib64.
  destruct Ha as [-> | ->]; destruct Hb as [-> | ->]; cbn [Z.eqb Pos.eqb]; zcases; lia.
Qed.

Lemma readSIB_spec s o a :
  at_ code start s o → s consumedSIB = 0 → s addressSize = a → a = 4 ∨ a = 8 → s vectorExtensionType ≠ TYPE_EVEX →
  in_u 8 (s rexPrefix) → 0 ≤ modFromModRM (s modRM) < 3 →
  wp (readSIB code start)
     (fun s' r => (r = Some tt ↔ o + 1 ≤ zlen code) ∧ (∀ f, f ∉ sib_members → s' f = s f) ∧
        let b := zget code o in let m := modFromModRM (s modRM) in
        (o + 1 ≤ zlen code → at_ code start s' (o + 1) ∧
           sib_named a (s rexPrefix) b ((baseFromSIB b =? 5) && (m =? 0)) s' ∧
           s' eaDisplacement = if baseFromSIB b =? 5 then if m =? 1 then EA_DISP_8 else EA_DISP_32 else s eaDisplacement)) s.
Proof using code_bytes code_size.
  intros Ha Hc Has Ha48 Hv Hrex Hm. pose proof (at_range _ _ _ _ Ha). unfold readSIB. wps. rewrite Hc. cbn [ctrue Z.eqb negb]. wps.
  rewrite iset_ne, Has by discriminate. rewrite (proj2 (Z.eqb_neq a 2)) by lia.
  set (bases := if a =? 4 then _ else _).
  assert (bases = (if a =? 4 then SIB_INDEX_EAX else SIB_INDEX_RAX, if a =? 4 then SIB_BASE_EAX else SIB_BASE_RAX)) as ->
    by (unfold bases; destruct Ha48 as [-> | ->]; reflexivity).
  wps. apply (wp_consumeByte code start code_size _ o); [by apply at_set|..]; intros Hlt; wps.
  2: { split_conj; [split; [done|lia]| |lia]. intros f Hf. rewrite iset_ne; [done|]. intros ->. apply Hf. isin. }
  pose proof (bytes_ok_zget code o code_bytes) as Hb. set (b := zget code o) in *.
  destruct (modrm_fields b Hb) as (_ & Hbase & Hindex). destruct (rex_fields _ Hrex) as (HB & HX & _).
  change (rmFromModRM b) with (baseFromSIB b) in Hbase. change (regFromModRM b) with (indexFromSIB b) in Hindex.
  unfold use_sib. wps. simp_set. rewrite (proj2 (Z.eqb_neq _ _) Hv), !or_extended by done. rewrite sib_index_eq by done.
  eapply wp_conseq; [apply sib_base_spec; [done|done|by simp_set]|]. cbn. intros s' r (-> & Hf & Hbs & Hd).
  revert Hbs Hd. simp_set. intros Hbs Hd. split_conj; [split; [lia|done]| |].
  - intros f Hn. rewrite Hf, !iset_ne; [done|intros ->; apply Hn; isin..|].
    intros Hin. apply Hn. in_cases Hin; subst; isin.
  - intros _. split_conj; [|split|done].
    + eapply at_frame with (s := set (set s consumedSIB 1) readerCursor (u64 (start + (o + 1))));
        [eapply at_move; [by apply at_set|lia]|rewrite Hf by isin; by simp_set..].
    + rewrite Hf by isin. by simp_set.
    + rewrite Hf by isin. simp_set. apply shift_one. apply modrm_fields in Hb. unfold scaleFromSIB, modFromModRM in *. lia.
    + rewrite Hf by isin. by simp_set.
    + done.
Qed.

(** ** The effective address *)

(** The first register of [n] bytes. *)
Definition reg_first (n : Z) : Z := if n =? 2 then REG_AX else if n =? 4 then REG_EAX else REG_RAX.

(** The form without base: an absolute or RIP-relative address. *)
Definition no_base (a m low : Z) : bool := (m =? 0) && (low =? (if a =? 2 then 6 else 5)).

(** The operand the bytes from [p] name, given mod [m] and r/m [low] with the
    REX bit [bit]. *)
Record ea_named (a p m low bit : Z) (s s' : insn) : Prop := {
  en_at : at_ code start s' (form_end a p m low);
  en_disp : s' eaDisplacement = disp_code (disp_bytes a p m low);
  en_value : disp_bytes a p m low ≠ 0 →
    s' displacement = swrap (8 * disp_bytes a p m low) (le_at code (Z.to_nat (disp_bytes a p m low)) (disp_at a p m low));
  en_base : s' eaBase =
    if m =? 3 then s eaRegBase + extended low bit
    else if sib_follows a m low then if (a =? 8) && (m =? 0) then EA_BASE_sib64 else EA_BASE_sib
    else if no_base a m low then EA_BASE_NONE
    else base_of a + extended low bit;
  en_sib : sib_follows a m low = true →
    sib_named a (s rexPrefix) (zget code p) ((baseFromSIB (zget code p) =? 5) && (m =? 0)) s'
}.

Definition ea_members : list field :=
  [eaBaseBase; eaBase; displacementSize; displacement; displacementOffset; consumedDisplacement] ++ sib_members.

(** The postcondition of reading an effective address. *)
Definition ea_read (a p m low bit : Z) (s s' : insn) (r : option unit) : Prop :=
  (r = Some tt ↔ form_end a p m low ≤ zlen code) ∧ (∀ f, f ∉ ea_members → s' f = s f) ∧
  (form_end a p m low ≤ zlen code → ea_named a p m low bit s s').

(** What is known before an effective address is read. *)
Record ea_start (p : Z) (s : insn) : Prop := {
  es_at : at_ code start s p;
  es_disp : s consumedDisplacement = 0;
  es_sib : s consumedSIB = 0;
  es_evex : s vectorExtensionType ≠ TYPE_EVEX;
  es_rex : in_u 8 (s rexPrefix)
}.

Lemma ea_start_set p s f v :
  f ∈ [eaBaseBase; eaBase; displacementSize; eaDisplacement] → ea_start p s → ea_start p (set s f v).
Proof.
  intros Hf [H1 H2 H3 H4 H5]. assert (∀ g, g ∉ [eaBaseBase; eaBase; displacementSize; eaDisplacement] → set s f v g = s g) as E.
  { intros g Hg. apply iset_ne. intros ->. done. }
  split; rewrite ?E by isin; try done. apply (at_frame code start s); [done|apply E; isin..].
Qed.

(** The end of a form without SIB byte: the stores were made and the
    displacement is read. *)
Lemma ea_displacement a p m low bit s s1 :
  ea_start p s1 → (∀ f, f ∉ ea_members → s1 f = s f) → sib_follows a m low = false →
  let d := disp_bytes a p m low in
  d = 0 ∨ d = 1 ∨ d = 2 ∨ d = 4 → s1 eaDisplacement = disp_code d →
  s1 eaBase = (if m =? 3 then s eaRegBase + extended low bit else if no_base a m low then EA_BASE_NONE else base_of a + extended low bit) →
  wp (readDisplacement code start) (ea_read a p m low bit s) s1.
Proof using code_bytes code_size.
  intros [H1 H2 H3 H4 H5] Hf Hs d Hd Hcode Hbase. unfold ea_read, form_end, disp_at. rewrite Hs. cbn [cbool]. rewrite Z.add_0_r. fold d.
  eapply wp_conseq; [by apply (readDisplacement_spec s1 p d)|]. cbn. intros s' r (Hr & Hf' & Hok). split_conj; [done| |].
  - intros f Hn. rewrite Hf'; [by apply Hf|]. intros Hin. apply Hn. in_cases Hin; subst; isin.
  - intros Hle. destruct (Hok Hle) as [Ha Hv]. split.
    + unfold form_end, disp_at. rewrite Hs. cbn [cbool]. by rewrite Z.add_0_r.
    + rewrite Hf' by isin. done.
    + unfold disp_at. rewrite Hs. cbn [cbool]. rewrite Z.add_0_r. done.
    + rewrite Hf', Hbase, Hs by isin. done.
    + congruence.
Qed.

(** The end of a form with neither. *)
Lemma ea_none a p m low bit s s1 :
  ea_start p s1 → (∀ f, f ∉ ea_members → s1 f = s f) → sib_follows a m low = false → disp_bytes a p m low = 0 →
  s1 eaDisplacement = EA_DISP_NONE →
  s1 eaBase = (if m =? 3 then s eaRegBase + extended low bit else if no_base a m low then EA_BASE_NONE else base_of a + extended low bit) →
  ea_read a p m low bit s s1 (Some tt).
Proof.
  intros [H1 H2 H3 H4 H5] Hf Hs Hd Hcode Hbase. pose proof (at_range _ _ _ _ H1).
  assert (form_end a p m low = p) as Ee by (unfold form_end, disp_at; rewrite Hs, Hd; cbn [cbool]; lia).
  unfold ea_read. rewrite Ee. split_conj; [split; [lia|done]|done|]. intros _.
  split; rewrite ?Ee, ?Hd, ?Hs; try done.
Qed.

(** The end of a form with a SIB byte. *)
Lemma ea_sib a p m bit s s1 :
  ea_start p s1 → (∀ f, f ∉ ea_members → s1 f = s f) → a = 4 ∨ a = 8 → s addressSize = a →
  0 ≤ m < 3 → modFromModRM (s modRM) = m →
  s1 eaDisplacement = (if m =? 0 then EA_DISP_NONE else if m =? 1 then EA_DISP_8 else EA_DISP_32) →
  s1 eaBase = (if (a =? 8) && (m =? 0) then EA_BASE_sib64 else EA_BASE_sib) →
  wp (readSIB code start) (andthen (fun _ => readDisplacement code start) (ea_read a p m 4 bit s)) s1.
Proof using code_bytes code_size.
  intros [H1 H2 H3 H4 H5] Hf Ha Has Hm Em Hcode Hbase. pose proof (at_range _ _ _ _ H1).
  assert (m = 0 ∨ m = 1 ∨ m = 2) as Hc by lia.
  assert (sib_follows a m 4 = true) as Hs by (destruct Ha as [-> | ->], Hc as [-> |[-> | ->]]; reflexivity).
  set (d := disp_bytes a p m 4).
  assert (d = if m =? 0 then if baseFromSIB (zget code p) =? 5 then 4 else 0 else if m =? 1 then 1 else 4) as Ed.
  { unfold d, disp_bytes, Hde.form_disp.
    destruct Ha as [-> | ->], Hc as [-> |[-> | ->]]; cbn [Z.eqb Pos.eqb orb andb]; done. }
  assert (form_end a p m 4 = p + 1 + d) as Ee by (unfold form_end, disp_at; rewrite Hs; done).
  assert (0 ≤ d) as Hd0 by (rewrite Ed; repeat case_bool; lia).
  rewrite (Hf vectorExtensionType) in H4 by isin. rewrite (Hf rexPrefix) in H5 by isin.
  eapply wp_cut; [apply (readSIB_spec s1 p a); rewrite ?Hf by isin; rewrite ?Em; done|cbn..].
  2: { intros s' (Hr & Hf' & _). unfold ea_read. rewrite Ee. split_conj; [split; [done|]| |].
       - intros Hle. apply Hr. lia.
       - intros f Hn. rewrite Hf'; [by apply Hf|]. intros Hin. apply Hn. in_cases Hin; subst; isin.
       - intros Hle. assert (None = Some tt) by (apply Hr; lia). done. }
  intros s2 [] (Hr & Hf2 & Hok). destruct (Hok (proj1 Hr eq_refl)) as (Ha2 & Hn2 & Hd2).
  rewrite !(Hf modRM), Em, (Hf rexPrefix) in * by isin.
  eapply wp_conseq; [apply (readDisplacement_spec s2 (p + 1) d); [done|by rewrite Hf2 by isin|rewrite Ed; repeat case_bool; lia|]|].
  { rewrite Hd2, Hcode, Ed. repeat case_bool; done || lia. }
  cbn. intros s' r (Hr' & Hf' & Hok'). unfold ea_read. rewrite Ee. split_conj; [done| |].
  - intros f Hn. rewrite Hf', Hf2; [by apply Hf|..]; intros Hin; apply Hn; in_cases Hin; subst; isin.
  - intros Hle. destruct (Hok' Hle) as [Ha' Hv]. split; fold d; unfold disp_at; rewrite ?Hs, ?Ee; cbn [cbool].
    + done.
    + rewrite Hf', Hd2, Hcode, Ed by isin. repeat case_bool; done || lia.
    + done.
    + rewrite Hf', Hf2, Hbase by isin. rewrite (proj2 (Z.eqb_neq m 3)) by lia. done.
    + intros _. destruct Hn2. split; by rewrite Hf' by isin.
Qed.

(** Stores to the members of the effective address. *)
Ltac stored := intros f Hf; rewrite !iset_ne by (intros ->; apply Hf; isin); done.
Ltac start_stored := repeat (apply ea_start_set; [isin|]); assumption.

Lemma ea_16_spec p m low s :
  ea_start p s → 0 ≤ m < 4 → 0 ≤ low < 8 →
  wp (ea_16 code start m (extended low 0)) (ea_read 2 p m low 0 s) s.
Proof using code_bytes code_size.
  intros Hs Hm Hl. assert (m = 0 ∨ m = 1 ∨ m = 2 ∨ m = 3) as Hc by lia. unfold ea_16.
  assert (extended low 0 = low) as E0 by (unfold extended; lia).
  destruct Hc as [-> |[-> |[-> | ->]]]; wps.
  - destruct (Z.eqb_spec (extended low 0) 6) as [E|E]; wps.
    + apply ea_displacement; [start_stored|stored|done|..]; unfold disp_bytes, Hde.form16_disp, no_base; cbn [Z.eqb Pos.eqb andb];
        rewrite (proj2 (Z.eqb_eq low 6)) by lia; simp_set; auto.
    + apply ea_none; [start_stored|stored|done|..]; unfold disp_bytes, Hde.form16_disp, no_base; cbn [Z.eqb Pos.eqb andb];
        rewrite ?(proj2 (Z.eqb_neq low 6)) by lia; simp_set; auto.
  - apply ea_displacement; [start_stored|stored|done|..]; simp_set; auto.
  - apply ea_displacement; [start_stored|stored|done|..]; simp_set; auto.
  - apply ea_displacement; [start_stored|stored|done|..]; simp_set; auto.
Qed.

Lemma has_sib_extended low bit : 0 ≤ low < 8 → bit = 0 ∨ bit = 1 → has_sib (extended low bit) = (low =? 4).
Proof. intros Hl Hb. unfold has_sib, extended. destruct Hb as [-> | ->]; zcases; lia. Qed.

Lemma ea_32_spec a p m low bit s :
  ea_start p s → a = 4 ∨ a = 8 → s addressSize = a → 0 ≤ m < 4 → modFromModRM (s modRM) = m → 0 ≤ low < 8 →
  bit = 0 ∨ bit = 1 →
  wp (ea_32 code start a m (extended low bit)) (ea_read a p m low bit s) s.
Proof using code_bytes code_size.
  intros Hs Ha Has Hm Em Hl Hb. assert (m = 0 ∨ m = 1 ∨ m = 2 ∨ m = 3) as Hc by lia. unfold ea_32.
  assert (base_of a = if a =? 4 then EA_BASE_EAX else EA_BASE_RAX) as Eb by (destruct Ha as [-> | ->]; reflexivity).
  assert (sib_follows a m low = negb (m =? 3) && (low =? 4)) as Esib by (destruct Ha as [-> | ->]; reflexivity).
  assert (disp_bytes a p m low = Hde.form_disp m low (baseFromSIB (zget code p))) as Ed by (destruct Ha as [-> | ->]; reflexivity).
  assert (no_base a m low = (m =? 0) && (low =? 5)) as En by (destruct Ha as [-> | ->]; reflexivity).
  rewrite has_sib_extended by done. rewrite <- Eb.
  destruct (Z.eqb_spec low 4) as [E4|E4].
  - destruct Hc as [-> |[-> |[-> | ->]]]; wps; cbn [Z.eqb Pos.eqb when]; wps; subst low.
    4: { apply ea_none; [start_stored|stored|rewrite Esib; done|rewrite Ed; done|..]; simp_set; reflexivity. }
    all: apply ea_sib; [start_stored|stored|done|done|lia|done|..]; simp_set; try reflexivity.
    all: destruct Ha as [-> | ->]; reflexivity.
  - assert (sib_follows a m low = false) as Esib' by (rewrite Esib; destruct Hc as [-> |[-> |[-> | ->]]]; reflexivity).
    assert ((extended low bit =? 0x5) || (extended low bit =? 0xd) = (low =? 5)) as E5.
    { unfold extended. destruct Hb as [-> | ->]; zcases; lia. }
    destruct Hc as [-> |[-> |[-> | ->]]]; wps; cbn [Z.eqb Pos.eqb when]; wps.
    + rewrite E5. destruct (Z.eqb_spec low 5) as [-> |E]; wps.
      * apply ea_displacement; [start_stored|stored|done|rewrite Ed; auto|rewrite Ed; by simp_set|rewrite En; by simp_set].
      * assert (disp_bytes a p 0 low = 0) as Ed0.
        { rewrite Ed. unfold Hde.form_disp. by rewrite (proj2 (Z.eqb_neq low 5)), (proj2 (Z.eqb_neq low 4)). }
        apply ea_none; [start_stored|stored|done|done|by simp_set|rewrite En; cbn [Z.eqb andb]; by simp_set].
    + apply ea_displacement; [start_stored|stored|done|rewrite Ed; auto|rewrite Ed; by simp_set|rewrite En; by simp_set].
    + apply ea_displacement; [start_stored|stored|done|rewrite Ed; auto|rewrite Ed; by simp_set|rewrite En; by simp_set].
    + apply ea_none; [start_stored|stored|done|rewrite Ed; done|by simp_set|by simp_set].
Qed.

(** ** The ModR/M byte *)

(** What is known when an instruction turns out to need its ModR/M byte, at
    [o]: nothing of it was read, addresses have [a] bytes and registers have
    a size; there are no 16-bit addresses with a REX prefix. *)
Record modrm_start (a o : Z) (s : insn) : Prop := {
  ms_ea : ea_start o s;
  ms_modrm : s consumedModRM = 0;
  ms_address : s addressSize = a ∧ (a = 2 ∨ a = 4 ∨ a = 8) ∧ (a = 2 → s rexPrefix = 0);
  ms_register : s registerSize = 2 ∨ s registerSize = 4 ∨ s registerSize = 8;
  ms_mov_cr : is_mov_cr s = false
}.

(** The register and the operand a ModR/M byte [b] at [o] names, with what
    follows it. *)
Record modrm_named (a o b : Z) (s s' : insn) : Prop := {
  mn_byte : s' modRM = b ∧ s' orgModRM = b ∧ s' consumedModRM = 1;
  mn_reg : s' reg = reg_first (s registerSize) + extended (regFromModRM b) (rFromREX (s rexPrefix));
  mn_ea : ea_named a (o + 1) (modFromModRM b) (rmFromModRM b) (bFromREX (s rexPrefix))
            (set s eaRegBase (EA_REG_AL + reg_first (s registerSize))) s'
}.

Lemma reg_bases_spec s :
  s registerSize = 2 ∨ s registerSize = 4 ∨ s registerSize = 8 →
  wp reg_bases (fun s' r => r = Some tt ∧ (∀ f, f ∉ [regBase; eaRegBase] → s' f = s f) ∧
    s' regBase = reg_first (s registerSize) ∧ s' eaRegBase = EA_REG_AL + reg_first (s registerSize)) s.
Proof.
  intros Hr. unfold reg_bases. wps. destruct Hr as [-> |[-> | ->]]; wps; simp_set; (split_conj; [done| |done|done]);
    intros f Hf; rewrite !iset_ne by (intros ->; apply Hf; isin); done.
Qed.

(** Whatever was stored before, an operand depends on these members only. *)
Lemma ea_named_frame a p m low bit s1 s2 s' :
  s1 eaRegBase = s2 eaRegBase → s1 rexPrefix = s2 rexPrefix → ea_named a p m low bit s1 s' → ea_named a p m low bit s2 s'.
Proof. intros E1 E2 [H1 H2 H3 H4 H5]. split; rewrite <- ?E1, <- ?E2; done. Qed.

Definition modrm_members : list field := [modRM; consumedModRM; orgModRM; regBase; eaRegBase; reg] ++ ea_members.

Lemma readModRM_spec a o s :
  modrm_start a o s →
  let b := zget code o in let e := form_end a (o + 1) (modFromModRM b) (rmFromModRM b) in
  wp (readModRM code start)
     (fun s' r => (r = Some tt ↔ e ≤ zlen code) ∧ (∀ f, f ∉ modrm_members → s' f = s f) ∧
        (e ≤ zlen code → modrm_named a o b s s')) s.
Proof using code_bytes code_size.
  intros [Hs Hc (Has & Ha & H16) Hrs Hcr] b e. pose proof Hs as [H1 H2 H3 H4 H5]. pose proof (at_range _ _ _ _ H1).
  pose proof (bytes_ok_zget code o code_bytes) as Hb. fold b in Hb.
  destruct (modrm_fields b Hb) as (Hm & Hrm & Hrg). destruct (rex_fields _ H5) as (HB & _ & HR).
  unfold readModRM. wps. rewrite Hc. cbn [ctrue Z.eqb negb]. wps.
  apply (wp_consumeByte code start code_size s o); [done|..]; intros Hlt; wps.
  2: { assert (o < e); [|by split_conj; [split; [done|lia]|done|lia]].
       unfold e, form_end, disp_at, disp_bytes, Hde.form16_disp, Hde.form_disp, cbool. repeat case_match; lia. }
  fold b. set (s1 := set (set (set (set s readerCursor _) _ _) _ _) _ _).
  assert (∀ f, f ∉ [readerCursor; modRM; consumedModRM; orgModRM] → s1 f = s f) as Hf1.
  { intros f Hf. unfold s1. rewrite !iset_ne by (intros ->; apply Hf; isin). done. }
  assert (is_mov_cr s1 = false) as -> by (unfold is_mov_cr in *; by rewrite !Hf1 by isin).
  rewrite !Hf1 by isin. rewrite (proj2 (Z.eqb_neq _ _) H4), !or_extended by done.
  eapply wp_cut; [apply reg_bases_spec; rewrite iset_ne, Hf1 by (isin || discriminate); done|cbv beta|by intros ? [? _]].
  intros s2 [] (_ & Hf2 & Hrb & Heb). wps. rewrite iset_ne, Hf1 in Hrb, Heb by (isin || discriminate). rewrite Hrb, Has.
  set (s3 := set s2 reg _).
  assert (∀ f, f ∉ [readerCursor; modRM; consumedModRM; orgModRM; regBase; eaRegBase; reg] → s3 f = s f) as Hf3.
  { intros f Hf. unfold s3. rewrite iset_ne, Hf2, iset_ne, Hf1; [done|..]; try (intros ->; apply Hf; isin);
      intros Hin; apply Hf; in_cases Hin; subst; isin. }
  assert (ea_start (o + 1) s3) as Hs3.
  { split; rewrite ?Hf3 by isin; try done. unfold s3. apply at_set; [|done..].
    eapply at_frame with (s := s1); [|rewrite Hf2 by isin; by simp_set..]. unfold s1.
    do 3 (apply at_set; [|done..]). eapply at_move; [done|lia]. }
  assert (s3 modRM = b) as Em by (unfold s3; rewrite iset_ne, Hf2 by (isin || discriminate); by simp_set).
  eapply wp_conseq with (P := ea_read a (o + 1) (modFromModRM b) (rmFromModRM b) (bFromREX (s rexPrefix)) s3).
  - destruct Ha as [-> |Ha].
    + rewrite (H16 eq_refl). by apply ea_16_spec.
    + rewrite <- Has. assert (s3 addressSize = s addressSize) as E by (rewrite Hf3 by isin; done). rewrite <- E.
      assert (s3 addressSize = 4 ∨ s3 addressSize = 8) as Hc' by (rewrite E, Has; done).
      destruct Hc' as [E4|E4]; rewrite E4; apply ea_32_spec; rewrite ?Em; auto.
  - intros s' r (Hr & Hf & Hok). split_conj; [done| |].
    + intros f Hn. rewrite Hf; [apply Hf3|]; intros Hin; apply Hn; in_cases Hin; subst; isin.
    + intros Hle. split.
      * rewrite !Hf by isin. split_conj; [done|unfold s3; rewrite iset_ne, Hf2 by (isin || discriminate); by simp_set..].
      * rewrite Hf by isin. unfold s3. by simp_set.
      * eapply ea_named_frame; [..|by apply Hok].
        -- unfold s3. by simp_set.
        -- rewrite Hf3 by isin. by simp_set.
Qed.

End modrm.

(** C16: [readModRM] against the addressing forms of the instruction set, in
    every mode and without EVEX prefix: it succeeds exactly when the bytes of
    the form are there, and then the cursor is after the ModR/M byte, the SIB
    byte if mod and r/m (without the REX bit) announce one, and a displacement
    of the size the form gives (base 5 of the SIB byte with mod 0 included).
    The displacement is the sign-extended little-endian number there; the
    register, base, index and scale are those the fields name, extended by the
    bits of REX. *)
Theorem readModRM_correct (code : list Z) (start a o : Z) (s : insn) :
  bytes_ok code → zlen code < 2 ^ 64 → modrm_start code start a o s →
  let b := zget code o in
  let e := form_end code a (o + 1) (modFromModRM b) (rmFromModRM b) in
  ∃ s' r, readModRM code start s = Ok (s', r) ∧ (r = Some tt ↔ e ≤ zlen code) ∧
    (∀ f, f ∉ modrm_members → s' f = s f) ∧ (e ≤ zlen code → modrm_named code start a o b s s').
Proof. intros Hb Hsz Hs b e. apply wp_run. by apply readModRM_spec. Qed.

(** [rax+rcx*4+disp32] with REX.X and REX.B *)
Definition sib_code : list Z := [0x84; 0x88; 0xfe; 0xff; 0xff; 0xff].
Definition sib_state : insn :=
  fun f => match f with rexPrefix => 0x43 | addressSize => 8 | registerSize => 4 | _ => 0 end.

Lemma readModRM_correct_witness :
  ∃ s r, readModRM sib_code 0 sib_state = Ok (s, r) ∧ r = Some tt ∧
    s displacement = -2 ∧ s sibScale = 4 ∧ s sibBase = SIB_BASE_RAX + 8 ∧ s sibIndex = SIB_INDEX_RAX + 9.
Proof.
  destruct (readModRM_correct sib_code 0 8 0 sib_state) as (s & r & E & Hr & _ & H).
  - repeat constructor; unfold in_u; lia.
  - reflexivity.
  - split; [split|reflexivity|split; [reflexivity|split; [auto|discriminate]]|cbn; auto|reflexivity].
    + split; [reflexivity|reflexivity|]. change (zlen sib_code) with 6. lia.
    + reflexivity.
    + reflexivity.
    + discriminate.
    + unfold in_u. cbn. lia.
  - assert (form_end sib_code 8 (0 + 1) (modFromModRM (zget sib_code 0)) (rmFromModRM (zget sib_code 0)) ≤ zlen sib_code) as Hle
      by (vm_compute; discriminate).
    exists s, r. destruct (H Hle) as [_ _ [_ _ Hv _ Hs]]. destruct (Hs eq_refl) as [_ Hsc Hi Hb].
    split; [exact E|]. split; [apply Hr, Hle|]. split; [rewrite Hv by (vm_compute; discriminate); reflexivity|].
    split; [rewrite Hsc; reflexivity|]. split; [rewrite Hb; reflexivity|rewrite Hi; reflexivity].
Defined.

End X86ModRM.
