(* ===== verification/X86Translate.v ===== *)
(** * From decoded x86 instructions to machine instructions
    ([Lilu.kext/capstone/arch/X86/X86Disassembler.c])

    The translation of an [InternalInstruction] into an [MCInst] and
    [X86_getInstruction], the entry point the engine calls, in the
    configuration [CAPSTONE_X86_REDUCE].  Registers are the numbers of
    [X86GenRegisterInfo.inc]. *)

From Stdlib Require Import ZArith Lia.
From S2P Require Import Prelude CsMcInst CsCore X86Tables X86Decoder.

Module X86Translate.

Import X86Data McInst X86Tables X86Decoder.
Open Scope c_scope.

(** ** Registers *)

Definition X86_BP := 6.
Definition X86_BX := 8.
Definition X86_DI := 14.
Definition X86_EDI := 23.
Definition X86_EIP := 26.
Definition X86_ESI := 29.
Definition X86_RDI := 39.
Definition X86_RIP := 41.
Definition X86_RSI := 43.
Definition X86_SI := 45.
Definition X86_K0 := 82.
Definition X86_ST0 := 106.
Definition X86_XMM0 := 114.
Definition X86_YMM0 := 146.
Definition X86_ZMM0 := 178.

(** Instructions the translation distinguishes. *)
Definition X86_INT := 563.
Definition X86_LDS16rm := 655.
Definition X86_LDS32rm := 656.
Definition X86_LES16rm := 663.
Definition X86_LES32rm := 664.

(** [ALL_REGS] *)
Definition all_regs : list Z :=
  mjoin [
    (* REGS_8BIT *) [2; 10; 16; 5; 1; 9; 13; 4; 210; 211; 212; 213; 214; 215; 216; 217];
    (* REGS_8BIT *) [48; 7; 46; 15];
    (* REGS_16BIT *) [3; 12; 18; 8; 47; 6; 45; 14; 226; 227; 228; 229; 230; 231; 232; 233];
    (* REGS_32BIT *) [19; 22; 24; 21; 30; 20; 29; 23; 218; 219; 220; 221; 222; 223; 224; 225];
    (* REGS_64BIT *) [35; 38; 40; 37; 44; 36; 43; 39; 98; 99; 100; 101; 102; 103; 104; 105];
    (* REGS_MMX *) [90; 91; 92; 93; 94; 95; 96; 97];
    (* REGS_XMM *) [114; 115; 116; 117; 118; 119; 120; 121; 122; 123; 124; 125; 126; 127; 128; 129];
    (* REGS_XMM *) [130; 131; 132; 133; 134; 135; 136; 137; 138; 139; 140; 141; 142; 143; 144; 145];
    (* REGS_YMM *) [146; 147; 148; 149; 150; 151; 152; 153; 154; 155; 156; 157; 158; 159; 160; 161];
    (* REGS_YMM *) [162; 163; 164; 165; 166; 167; 168; 169; 170; 171; 172; 173; 174; 175; 176; 177];
    (* REGS_ZMM *) [178; 179; 180; 181; 182; 183; 184; 185; 186; 187; 188; 189; 190; 191; 192; 193];
    (* REGS_ZMM *) [194; 195; 196; 197; 198; 199; 200; 201; 202; 203; 204; 205; 206; 207; 208; 209];
    (* REGS_MASKS *) [82; 83; 84; 85; 86; 87; 88; 89];
    (* REGS_SEGMENT *) [28; 11; 49; 17; 32; 33];
    (* REGS_DEBUG *) [66; 67; 68; 69; 70; 71; 72; 73];
    (* REGS_CONTROL *) [50; 51; 52; 53; 54; 55; 56; 57; 58; 59; 60; 61; 62; 63; 64; 65];
    (* RIP *) [41]].

(** The table of [translateRegister]; it ends with a 0. *)
Definition llvmRegnums : list Z := all_regs ++ [0].

(** [ALL_EA_BASES]; 500 to 505 stand for names that are no registers. *)
Definition ea_bases : list Z :=
  mjoin [
    (* EA_BASES_16BIT *) [500; 501; 502; 503; 45; 14; 6; 8; 226; 227; 228; 229; 230; 231; 232; 233];
    (* EA_BASES_32BIT *) [19; 22; 24; 21; 504; 20; 29; 23; 218; 219; 220; 221; 222; 223; 224; 225];
    (* EA_BASES_64BIT *) [35; 38; 40; 37; 505; 36; 43; 39; 98; 99; 100; 101; 102; 103; 104; 105]].

(** [ALL_SIB_BASES] *)
Definition sib_bases : list Z :=
  mjoin [
    (* REGS_32BIT *) [19; 22; 24; 21; 30; 20; 29; 23; 218; 219; 220; 221; 222; 223; 224; 225];
    (* REGS_64BIT *) [35; 38; 40; 37; 44; 36; 43; 39; 98; 99; 100; 101; 102; 103; 104; 105]].

(** The registers of a SIB index from [SIB_INDEX_EAX] on. *)
Definition sib_indices : list Z :=
  mjoin [
    (* EA_BASES_32BIT *) [19; 22; 24; 21; 504; 20; 29; 23; 218; 219; 220; 221; 222; 223; 224; 225];
    (* EA_BASES_64BIT *) [35; 38; 40; 37; 505; 36; 43; 39; 98; 99; 100; 101; 102; 103; 104; 105];
    (* REGS_XMM *) [114; 115; 116; 117; 118; 119; 120; 121; 122; 123; 124; 125; 126; 127; 128; 129];
    (* REGS_XMM *) [130; 131; 132; 133; 134; 135; 136; 137; 138; 139; 140; 141; 142; 143; 144; 145];
    (* REGS_YMM *) [146; 147; 148; 149; 150; 151; 152; 153; 154; 155; 156; 157; 158; 159; 160; 161];
    (* REGS_YMM *) [162; 163; 164; 165; 166; 167; 168; 169; 170; 171; 172; 173; 174; 175; 176; 177];
    (* REGS_ZMM *) [178; 179; 180; 181; 182; 183; 184; 185; 186; 187; 188; 189; 190; 191; 192; 193];
    (* REGS_ZMM *) [194; 195; 196; 197; 198; 199; 200; 201; 202; 203; 204; 205; 206; 207; 208; 209]].

(** [sib_base_map] and [sib_index_map] of [X86Mapping.c]; the public numbers
    of the registers are the internal ones. *)
Definition sib_base_map : list Z := 0 :: sib_bases.
Definition sib_index_map : list Z := 0 :: ea_bases ++ drop 32 sib_indices.
Definition x86_map_sib_base (r : Z) : outcome Z := aget sib_base_map r.
Definition x86_map_sib_index (r : Z) : outcome Z := aget sib_index_map r.

(** None, CS, SS, DS, ES, FS, GS *)
Definition segmentRegnums : list Z := [0; 11; 49; 17; 28; 32; 33].

(** ** Operand types *)

Definition TYPE_REL32 := 3.
Definition TYPE_REL64 := 4.
Definition TYPE_IMM8 := 12.
Definition TYPE_IMM16 := 13.
Definition TYPE_IMM32 := 14.
Definition TYPE_IMM64 := 15.
Definition TYPE_MOFFS8 := 45.
Definition TYPE_MOFFS64 := 48.
Definition TYPE_IMMv := 79.
Definition TYPE_RELv := 80.
Definition TYPE_DUP0 := 81.

(** The operands [translateRM] takes for registers: [TYPE_R8] to [TYPE_R64],
    [TYPE_Rv], MMX, XMM and mask registers, debug and control registers. *)
Definition rm_register_types : list Z := [8; 9; 10; 11; 78; 57; 58; 59; 60; 61; 62; 63; 64; 65; 66; 69; 70; 75; 76].
(** Those it takes for memory: [TYPE_M] to [TYPE_M256], [TYPE_M512],
    [TYPE_Mv], the floating-point and integer operands, far pointers and
    [TYPE_LEA]. *)
Definition rm_memory_types : list Z := [22; 23; 24; 25; 26; 28; 29; 86; 77; 50; 51; 52; 53; 54; 55; 30; 31; 32; 27].

(** ** Operands *)

Definition translateRegister (mcInst : MCInst) (reg : Z) : outcome MCInst :=
  llvmRegnum ← aget llvmRegnums reg;
  MCOperand_CreateReg0 mcInst llvmRegnum.

Definition segment_reg (mcInst : MCInst) (s : insn) : outcome MCInst :=
  r ← aget segmentRegnums (s segmentOverride);
  MCOperand_CreateReg0 mcInst r.

Definition translateSrcIndex (mcInst : MCInst) (s : insn) : outcome MCInst :=
  let p67 a b : Z := if ctrue (s isPrefix67) then a else b in
  let baseRegNo :=
    if s mode =? MODE_64BIT then p67 X86_ESI X86_RSI
    else if s mode =? MODE_32BIT then p67 X86_SI X86_ESI
    else p67 X86_ESI X86_SI in
  mcInst ← MCOperand_CreateReg0 mcInst baseRegNo;
  segment_reg mcInst s.

Definition translateDstIndex (mcInst : MCInst) (s : insn) : outcome MCInst :=
  let p67 a b : Z := if ctrue (s isPrefix67) then a else b in
  let baseRegNo :=
    if s mode =? MODE_64BIT then p67 X86_EDI X86_RDI
    else if s mode =? MODE_32BIT then p67 X86_DI X86_EDI
    else p67 X86_EDI X86_DI in
  MCOperand_CreateReg0 mcInst baseRegNo.

(** [if (immediate & sign bit) immediate |= ~mask], for [w] bits *)
Definition sign_extend (w immediate : Z) : Z :=
  if ctrue (immediate & (1 << (w - 1))) then immediate .| u64 (Z.lnot (2 ^ w - 1)) else immediate.

(** The adjustments before the second [switch] of [translateImmediate]. *)
Definition extend_immediate (mcInst : MCInst) (immediate : Z) (op : OperandSpecifier) (s : insn) : Z :=
  let ty := type op in
  if ty =? TYPE_RELv then
    match s displacementSize with
    | 1 => sign_extend 8 immediate
    | 2 => sign_extend 16 immediate
    | 4 => sign_extend 32 immediate
    | _ => immediate
    end
  else if bool_decide (ty ∈ [TYPE_IMM8; TYPE_IMM16; TYPE_IMM32; TYPE_IMM64; TYPE_IMMv]) then
    if encoding op =? ENCODING_IB then
      if negb (MCInst_getOpcode mcInst =? X86_INT) then sign_extend 8 immediate else immediate
    else if encoding op =? ENCODING_IW then sign_extend 16 immediate
    else if encoding op =? ENCODING_ID then sign_extend 32 immediate
    else immediate
  else immediate.

Definition translateImmediate (mcInst : MCInst) (immediate : Z) (op : OperandSpecifier) (s : insn) : outcome MCInst :=
  let ty := type op in
  let immediate := extend_immediate mcInst immediate op s in
  if (ty =? TYPE_XMM32) || (ty =? TYPE_XMM64) || (ty =? TYPE_XMM128) then
    MCOperand_CreateReg0 mcInst (u32 (X86_XMM0 + (u32 immediate >> 4)))
  else if ty =? TYPE_XMM256 then MCOperand_CreateReg0 mcInst (u32 (X86_YMM0 + (u32 immediate >> 4)))
  else if ty =? TYPE_XMM512 then MCOperand_CreateReg0 mcInst (u32 (X86_ZMM0 + (u32 immediate >> 4)))
  else
    let immediate :=
      if ty =? TYPE_REL8 then sign_extend 8 immediate
      else if (ty =? TYPE_REL32) || (ty =? TYPE_REL64) then sign_extend 32 immediate
      else immediate in
    mcInst ← MCOperand_CreateImm0 mcInst immediate;
    if (TYPE_MOFFS8 <=? ty) && (ty <=? TYPE_MOFFS64) then segment_reg mcInst s else Ok mcInst.

(** The translations that may refuse return [true] for that, with the
    instruction as far as it was built. *)
Definition accept (m : outcome MCInst) : outcome (bool * MCInst) := mcInst ← m; Ok (false, mcInst).

Definition translateRMRegister (mcInst : MCInst) (s : insn) : outcome (bool * MCInst) :=
  if s eaBase <? EA_REG_AL then Ok (true, mcInst)
  else
    match all_regs !! Z.to_nat (s eaBase - EA_REG_AL) with
    | Some r => accept (MCOperand_CreateReg0 mcInst r)
    | None => Ok (true, mcInst)
    end.

(** Scale, index, displacement and segment of a memory operand, after its base. *)
Definition finish_memory (mcInst : MCInst) (scaleAmount indexReg : Z) (s : insn) : outcome (bool * MCInst) :=
  mcInst ← MCOperand_CreateImm0 mcInst scaleAmount;
  mcInst ← MCOperand_CreateReg0 mcInst indexReg;
  mcInst ← MCOperand_CreateImm0 mcInst (s displacement);
  accept (segment_reg mcInst s).

(** A [switch] over the registers of a table; [None] is its default case. *)
Definition table_reg (l : list Z) (i : Z) : option Z := if i <? 0 then None else l !! Z.to_nat i.

(** [insn->sibBase] and [insn->sibIndex] *)
Definition sib_base_reg (s : insn) : option Z :=
  if s sibBase =? SIB_BASE_NONE then Some 0 else table_reg sib_bases (s sibBase - SIB_BASE_EAX).
Definition sib_index_reg (s : insn) : option Z :=
  if s sibIndex =? SIB_INDEX_NONE then Some 0 else table_reg sib_indices (s sibIndex - SIB_INDEX_EAX).

(** With a SIB byte. *)
Definition translate_sib (mcInst : MCInst) (s : insn) : outcome (bool * MCInst) :=
  match sib_base_reg s with
  | None => Ok (true, mcInst)
  | Some base =>
      mcInst ← MCOperand_CreateReg0 mcInst base;
      match sib_index_reg s with
      | None => Ok (true, mcInst)
      | Some indexReg => finish_memory mcInst (s sibScale) indexReg s
      end
  end.

(** Without: base and index, or a refusal. *)
Definition plain_base (s : insn) : option (Z * Z) :=
  if s eaBase =? EA_BASE_NONE then
    if s eaDisplacement =? EA_DISP_NONE then None
    else if s mode =? MODE_64BIT then
      if s prefix3 =? 0x67 then Some (X86_EIP, 0) else Some (X86_RIP, 0)
    else Some (0, 0)
  else if s eaBase =? EA_BASE_BX_SI then Some (X86_BX, X86_SI)
  else if s eaBase =? EA_BASE_BX_SI + 1 then Some (X86_BX, X86_DI)
  else if s eaBase =? EA_BASE_BX_SI + 2 then Some (X86_BP, X86_SI)
  else if s eaBase =? EA_BASE_BX_SI + 3 then Some (X86_BP, X86_DI)
  else (fun r => (r, 0)) <$> table_reg ea_bases (s eaBase - EA_BASE_BX_SI).

Definition translateRMMemory (mcInst : MCInst) (s : insn) : outcome (bool * MCInst) :=
  if (s eaBase =? EA_BASE_sib) || (s eaBase =? EA_BASE_sib64) then translate_sib mcInst s
  else
    match plain_base s with
    | None => Ok (true, mcInst)
    | Some (base, indexReg) =>
        mcInst ← MCOperand_CreateReg0 mcInst base;
        finish_memory mcInst 1 indexReg s
    end.

Definition translateRM (mcInst : MCInst) (op : OperandSpecifier) (s : insn) : outcome (bool * MCInst) :=
  if bool_decide (type op ∈ rm_register_types) then translateRMRegister mcInst s
  else if bool_decide (type op ∈ rm_memory_types) then translateRMMemory mcInst s
  else Ok (true, mcInst).

Definition translateFPRegister (mcInst : MCInst) (stackPos : Z) : outcome MCInst :=
  MCOperand_CreateReg0 mcInst (X86_ST0 + stackPos).

Definition translateMaskRegister (mcInst : MCInst) (maskRegNum : Z) : outcome (bool * MCInst) :=
  if 8 <=? maskRegNum then Ok (true, mcInst) else accept (MCOperand_CreateReg0 mcInst (X86_K0 + maskRegNum)).

(** [insn->immediates[insn->numImmediatesTranslated]] *)
Definition immediate_of (s : insn) : outcome Z :=
  if s numImmediatesTranslated =? 0 then Ok (s immediates0)
  else if s numImmediatesTranslated =? 1 then Ok (s immediates1)
  else Ub.

Definition is_immediate (e : Z) : bool :=
  bool_decide (e ∈ [ENCODING_IB; ENCODING_IW; ENCODING_ID; ENCODING_IO; ENCODING_Iv; ENCODING_Ia]).
Definition is_opcode_reg (e : Z) : bool :=
  bool_decide (e ∈ [ENCODING_RB; ENCODING_RW; ENCODING_RD; ENCODING_RO; ENCODING_Rv]).

(** Returns [true] for a refusal, the instruction and [insn]; [row] is
    [insn->operands].  A duplicated operand is translated by a recursive call. *)
Fixpoint translateOperand (fuel : nat) (row : list OperandSpecifier) (mcInst : MCInst) (op : OperandSpecifier) (s : insn)
    : outcome (bool * MCInst * insn) :=
  let run (m : outcome (bool * MCInst)) : outcome (bool * MCInst * insn) := '(r, mc) ← m; Ok (r, mc, s) in
  match fuel with
  | O => NoFuel
  | S fuel =>
      let e := encoding op in
      if e =? ENCODING_REG then run (accept (translateRegister mcInst (s reg)))
      else if e =? ENCODING_WRITEMASK then run (translateMaskRegister mcInst (u8 (s writemask)))
      else if CASE_ENCODING_RM e then run (translateRM mcInst op s)
      else if (ENCODING_CB <=? e) && (e <=? ENCODING_CT) then Ok (true, mcInst, s)
      else if is_immediate e then
        immediate ← immediate_of s;
        let s := set s numImmediatesTranslated (u8 (s numImmediatesTranslated + 1)) in
        mc ← translateImmediate mcInst immediate op s; Ok (false, mc, s)
      else if e =? ENCODING_SI then run (accept (translateSrcIndex mcInst s))
      else if e =? ENCODING_DI then run (accept (translateDstIndex mcInst s))
      else if is_opcode_reg e then run (accept (translateRegister mcInst (s opcodeRegister)))
      else if e =? ENCODING_FP then run (accept (translateFPRegister mcInst (s modRM & 7)))
      else if e =? ENCODING_VVVV then run (accept (translateRegister mcInst (s vvvv)))
      else if e =? ENCODING_DUP then
        op ← aget row (type op - TYPE_DUP0);
        translateOperand fuel row mcInst op s
      else Ok (true, mcInst, s)
  end.

(** [for (index = 0; index < X86_MAX_OPERANDS; ++index)] *)
Fixpoint translate_loop (n : nat) (index : Z) (row : list OperandSpecifier) (mcInst : MCInst) (s : insn)
    : outcome (bool * MCInst * insn) :=
  match n with
  | O => Ok (false, mcInst, s)
  | S n =>
      op ← aget row index;
      '(r, mcInst, s) ← (if negb (encoding op =? ENCODING_NONE) then translateOperand 6 row mcInst op s else Ok (false, mcInst, s));
      if r : bool then Ok (true, mcInst, s) else translate_loop n (index + 1) row mcInst s
  end.

(** [insn->spec] is never [NULL] after [decodeInstruction]. *)
Definition translateInstruction (mcInst : MCInst) (s : insn) : outcome (bool * MCInst * insn) :=
  let mcInst := MCInst_setOpcode mcInst (s instructionID) in
  let s := set s numImmediatesTranslated 0 in
  row ← aget x86OperandSets (s operands);
  translate_loop (Z.to_nat X86_MAX_OPERANDS) 0 row mcInst s.

(** ** The entry point *)

(** The stores at the start of [X86_getInstruction] if there is a detail. *)
Definition clear_detail (d : cs_x86) : cs_x86 :=
  mkX86 [0; 0; 0; 0] [0; 0; 0; 0] (x_rex d) (x_addr_size d) (x_modrm d) (x_sib d) (x_disp d) (x_sib_index d)
    (x_sib_scale d) (x_sib_base d) 0 0 false 0 0 (replicate 8 op0).

(** The opcode bytes [update_pub_insn] stores over [old]. *)
Definition pub_opcode (old : list Z) (s : insn) : list Z :=
  if negb (s vectorExtensionType =? 0) then
    [s vectorExtensionPrefix0; s vectorExtensionPrefix1; s vectorExtensionPrefix2; s vectorExtensionPrefix3]
  else if ctrue (s twoByteEscape) then
    if ctrue (s threeByteEscape) then
      <[0%nat := s twoByteEscape]> (<[1%nat := s threeByteEscape]> (<[2%nat := s opcode]> old))
    else <[0%nat := s twoByteEscape]> (<[1%nat := s opcode]> old)
  else <[0%nat := s opcode]> old.

Definition insn_prefixes (s : insn) : list Z := [s prefix0; s prefix1; s prefix2; s prefix3].

Definition update_pub_insn (d : cs_x86) (s : insn) : outcome cs_x86 :=
  index ← x86_map_sib_index (s sibIndex);
  base ← x86_map_sib_base (s sibBase);
  Ok (mkX86 (x_prefix d) (pub_opcode (x_opcode d) s) (s rexPrefix) (s addressSize) (s orgModRM) (s sib) (s displacement)
        index (s8 (s sibScale)) base (x_sse_cc d) (x_avx_cc d) (x_avx_sae d) (x_avx_rm d) (x_op_count d) (x_operands d)).

(** LES and LDS are invalid in 64-bit mode. *)
Definition invalid_in_64 (md opc : Z) : bool :=
  ctrue (md & Cs.CS_MODE_64) && bool_decide (opc ∈ [X86_LES16rm; X86_LES32rm; X86_LDS16rm; X86_LDS32rm]).

Definition decode_mode (md : Z) : Z :=
  if ctrue (md & Cs.CS_MODE_16) then MODE_16BIT else if ctrue (md & Cs.CS_MODE_32) then MODE_32BIT else MODE_64BIT.

(** [instr->imm_size = insn.immSize] and the prefixes, which both branches copy. *)
Definition set_x86 (mc : MCInst) (s : insn) : MCInst :=
  mkInst (OpcodePub mc) (size mc) (has_imm mc) (op1_size mc) (Opcode mc) (Operands mc) (x86opsize mc) (insn_prefixes s) (s immSize) (writeback mc).

(** [md] and [want] are the mode and the detail option of the handle, [junk]
    the contents of the stack.  Returns the result, the instruction, its
    detail and the size. *)
Definition X86_getInstruction (junk : insn) (md want : Z) (code : list Z) (instr : MCInst) (detail : option cs_x86) (address : Z)
    : outcome (bool * MCInst * option cs_x86 * Z) :=
  let detail := clear_detail <$> detail in
  '(s, ret) ← decodeInstruction code address address (decode_mode md) (clear_insn junk);
  match ret with
  | None => Ok (false, instr, detail, u16 (s readerCursor - address))
  | Some _ =>
      let size := u16 (s length_) in
      '(refused, instr, s) ← translateInstruction instr s;
      if (refused : bool) || invalid_in_64 md (Opcode instr) then Ok (false, instr, detail, size)
      else
        let instr := set_x86 instr s in
        if ctrue want then
          match detail with
          | None => Ub
          | Some d => d ← update_pub_insn d s; Ok (true, instr, Some d, size)
          end
        else Ok (true, instr, detail, size)
  end.

End X86Translate.
