(* ===== verification/X86Range.v ===== *)
(** * The registers the x86 decoder stores

    Partial correctness of the decoder with respect to the ranges of the
    members that [X86Disassembler.c] uses as indices: whatever a computation
    that returns has stored lies within the tables of registers. *)

From Stdlib Require Import ZArith Lia.
From stdpp Require Import sets.
From S2P Require Import Prelude X86Tables X86Decoder X86Logic X86ModRM X86Translate.

Module X86Range.

Import X86Translate X86Tables X86Decoder X86Logic X86ModRM.
Open Scope c_scope.

(** ** Weakest liberal preconditions *)

Definition wlp {A} (m : dec A) (Q : insn → option A → Prop) (s : insn) : Prop :=
  ∀ s' r, m s = Ok (s', r) → Q s' r.

Definition lthen {A B} (k : A → dec B) (Q : insn → option B → Prop) : insn → option A → Prop :=
  fun s r => match r with Some a => wlp (k a) Q s | None => Q s None end.

Lemma wlp_conseq {A} (m : dec A) (P Q : insn → option A → Prop) s :
  wlp m P s → (∀ s' r, P s' r → Q s' r) → wlp m Q s.
Proof. intros Hm HPQ s' r E. by apply HPQ, Hm. Qed.

Lemma wlp_bind {A B} (m : dec A) (k : A → dec B) Q s : wlp m (lthen k Q) s → wlp (m ≫= k) Q s.
Proof.
  intros Hm s' r E. unfold mbind, dec_bind in E. destruct (m s) as [[s1 [a|]]| |] eqn:Em; cbn in E; try discriminate.
  - exact (Hm _ _ Em _ _ E).
  - injection E as <- <-. exact (Hm _ _ Em).
Qed.

Lemma wlp_ret {A} (a : A) (Q : insn → option A → Prop) s : Q s (Some a) → wlp (mret a) Q s.
Proof. by intros HQ s' r [= <- <-]. Qed.
Lemma wlp_failed {A} (Q : insn → option A → Prop) s : Q s None → wlp failed Q s.
Proof. by intros HQ s' r [= <- <-]. Qed.
Lemma wlp_get f (Q : insn → option Z → Prop) s : Q s (Some (s f)) → wlp (get f) Q s.
Proof. by intros HQ s' r [= <- <-]. Qed.
Lemma wlp_put f v (Q : insn → option unit → Prop) s : Q (set s f v) (Some tt) → wlp (put f v) Q s.
Proof. by intros HQ s' r [= <- <-]. Qed.
Lemma wlp_read_state (Q : insn → option insn → Prop) s : Q s (Some s) → wlp read_state Q s.
Proof. by intros HQ s' r [= <- <-]. Qed.
Lemma wlp_lift {A} (o : outcome A) (Q : insn → option A → Prop) s : (∀ a, o = Ok a → Q s (Some a)) → wlp (lift o) Q s.
Proof. intros HQ s' r. unfold lift. destruct o as [a| |]; try discriminate. intros [= <- <-]. by apply HQ. Qed.
Lemma wlp_attempt {A} (m : dec A) (Q : insn → option (option A) → Prop) s :
  wlp m (fun s' r => Q s' (Some r)) s → wlp (attempt m) Q s.
Proof.
  intros Hm s' r. unfold attempt. destruct (m s) as [[s1 r1]| |] eqn:Em; try discriminate. intros [= <- <-]. exact (Hm _ _ Em).
Qed.

Ltac wlp1 :=
  lazymatch goal with
  | |- wlp (_ ≫= _) _ _ => apply wlp_bind
  | |- wlp (mret _) _ _ => apply wlp_ret
  | |- wlp failed _ _ => apply wlp_failed
  | |- wlp (get _) _ _ => apply wlp_get
  | |- wlp (put _ _) _ _ => apply wlp_put
  | |- wlp read_state _ _ => apply wlp_read_state
  | |- wlp (attempt _) _ _ => apply wlp_attempt
  | |- wlp (let _ := _ in _) _ _ => cbv zeta
  | |- lthen _ _ _ (Some _) => cbn [lthen]
  | |- lthen _ _ _ None => cbn [lthen]
  end; cbv beta.
Ltac wlps := repeat wlp1.

(** ** Computations that keep an invariant if they return *)

Definition par {A} (I : insn → Prop) (m : dec A) : Prop := ∀ s, I s → wlp m (fun s' _ => I s') s.

Section par.
Context (I : insn → Prop).

Lemma par_bind {A B} (m : dec A) (k : A → dec B) : par I m → (∀ a, par I (k a)) → par I (m ≫= k).
Proof.
  intros Hm Hk s Hs. apply wlp_bind. eapply wlp_conseq; [by apply Hm|]. cbn.
  intros s' [a|] Hs'; cbn; [by apply Hk|done].
Qed.
Lemma par_ret {A} (a : A) : par I (mret a).
Proof. intros s Hs. by apply wlp_ret. Qed.
Lemma par_failed {A} : par I (@failed A).
Proof. intros s Hs. by apply wlp_failed. Qed.
Lemma par_nofuel {A} : par I (@nofuel A).
Proof. intros s Hs s' r E. discriminate E. Qed.
Lemma par_get f : par I (get f).
Proof. intros s Hs. by apply wlp_get. Qed.
Lemma par_read_state : par I read_state.
Proof. intros s Hs. by apply wlp_read_state. Qed.
Lemma par_lift {A} (o : outcome A) : par I (lift o).
Proof. intros s Hs. apply wlp_lift. by intros a _. Qed.
Lemma par_put f v : (∀ s, I s → I (set s f v)) → par I (put f v).
Proof. intros Hf s Hs. apply wlp_put. by apply Hf. Qed.
Lemma par_attempt {A} (m : dec A) : par I m → par I (attempt m).
Proof. intros Hm s Hs. apply wlp_attempt. by apply Hm. Qed.
Lemma par_if {A} (b : bool) (m1 m2 : dec A) : par I m1 → par I m2 → par I (if b then m1 else m2).
Proof. by destruct b. Qed.

End par.

Create HintDb x86r discriminated.

(** One step; stops at the stores and the calls the hints do not cover. *)
Ltac par1 :=
  lazymatch goal with
  | |- par _ (_ ≫= _) => apply par_bind; [|intros ?]
  | |- par _ (mret _) => apply par_ret
  | |- par _ failed => apply par_failed
  | |- par _ nofuel => apply par_nofuel
  | |- par _ (get _) => apply par_get
  | |- par _ read_state => apply par_read_state
  | |- par _ (lift _) => apply par_lift
  | |- par _ (attempt _) => apply par_attempt
  | |- par _ (when _ _) => apply par_if; [|apply par_ret]
  | |- par _ (if _ then _ else _) => apply par_if
  | |- par _ (let _ := _ in _) => cbv zeta
  | |- par _ (match ?x with _ => _ end) => destruct x
  end.
Ltac par_auto := repeat (par1 || (eauto with x86r; fail)).

(** What is known in general is known of a run. *)
Lemma wp_wlp' {A} (m : dec A) Q s : wp m Q s → wlp m Q s.
Proof. unfold wp, wlp. intros H s' r E. by rewrite E in H. Qed.

Lemma wlp_both {A} (m : dec A) (P Q : insn → option A → Prop) s :
  wlp m P s → wlp m Q s → wlp m (fun s' r => P s' r ∧ Q s' r) s.
Proof. intros HP HQ s' r E. split; [by apply HP|by apply HQ]. Qed.

(** The conjunction of what is known in general and of what is known of a run. *)
Lemma wp_wlp {A} (m : dec A) (P Q : insn → option A → Prop) s :
  wp m P s → wlp m Q s → wp m (fun s' r => P s' r ∧ Q s' r) s.
Proof. unfold wp, wlp. destruct (m s) as [[s' r]| |]; [|done..]. eauto. Qed.

(** ** The ranges *)

(** The number of entries of the table of registers. *)
Definition REG_LIMIT := 212.

(** Which register members hold the register of an operand already, whether
    there is a [vvvv] field, whether the opcode and the ModR/M byte were read,
    the vector prefix, and the instruction if it is known. *)
Record fixed := mkFixed { f_reg : bool; f_vvvv : bool; f_opcode : bool; f_has_vvvv : bool; f_typed : bool; f_cm : bool; f_vet : Z;
  f_sp : option Z }.

Record ranges (g : fixed) (s : insn) : Prop := {
  rg_size : (s registerSize = 2 ∨ s registerSize = 4 ∨ s registerSize = 8) ∧ (s immSize = 2 ∨ s immSize = 4 ∨ s immSize = 8);
  rg_segment : 0 ≤ s segmentOverride ≤ 6;
  rg_sib : 0 ≤ s sibIndex ≤ 64 ∧ 0 ≤ s sibBase ≤ 32;
  rg_base : ctrue (s consumedModRM) = true → s regBase = REG_AX ∨ s regBase = REG_EAX ∨ s regBase = REG_RAX;
  rg_reg : if f_reg g then 0 ≤ s reg < REG_LIMIT
           else ctrue (s consumedModRM) = true → f_vet g ≠ TYPE_EVEX → 0 ≤ s reg - s regBase ≤ 15;
  rg_vvvv : if f_vvvv g then 0 ≤ s vvvv < REG_LIMIT else f_has_vvvv g = true → 0 ≤ s vvvv ≤ 31;
  rg_opcode : f_opcode g = true → 0 ≤ s opcodeRegister < REG_LIMIT;
  rg_type : f_typed g = true → s opcodeType ≠ T3DNOW_MAP;
  rg_vet : s vectorExtensionType = f_vet g;
  rg_cm : f_cm g = true → ctrue (s consumedModRM) = true;
  rg_sp : ∀ id, f_sp g = Some id → s spec = id
}.

Definition range_fields : list field :=
  [registerSize; immSize; segmentOverride; sibIndex; sibBase; consumedModRM; regBase; reg; vectorExtensionType; vvvv; opcodeRegister; opcodeType; spec].

Lemma ranges_frame g s s' : (∀ f, f ∈ range_fields → s' f = s f) → ranges g s → ranges g s'.
Proof.
  intros Hf [H1 H2 H3 H4 H5 H6 H7 H8 H9 H10 H11].
  split; rewrite ?(Hf registerSize), ?(Hf immSize), ?(Hf segmentOverride), ?(Hf sibIndex), ?(Hf sibBase), ?(Hf consumedModRM), ?(Hf regBase),
    ?(Hf reg), ?(Hf vectorExtensionType), ?(Hf vvvv), ?(Hf opcodeRegister), ?(Hf opcodeType), ?(Hf spec) by isin; done.
Qed.

Lemma ranges_set g s f v : f ∉ range_fields → ranges g s → ranges g (set s f v).
Proof. intros Hf. apply ranges_frame. intros h Hh. apply iset_ne. intros ->. done. Qed.

Lemma par_ranges_put g f v : f ∉ range_fields → par (ranges g) (put f v).
Proof. intros Hf. apply par_put. intros s. by apply ranges_set. Qed.
Hint Extern 1 (par (ranges _) (put _ _)) => apply par_ranges_put; isin : x86r.

(** Bit fields. *)
Lemma small_or a b n k : 0 ≤ a < 2 ^ n → 0 ≤ b < 2 ^ k → 0 ≤ n → 0 ≤ k → 0 ≤ a .| (b << n) < 2 ^ (n + k).
Proof.
  intros Ha Hb Hn Hk. rewrite Z.lor_comm, Z.shiftl_mul_pow2, lor_shift_add by (done || lia). rewrite Z.pow_add_r by lia. nia.
Qed.

Lemma masked x k n : 0 ≤ k → 0 ≤ n → 0 ≤ (x & (Z.ones k << n)) >> n < 2 ^ k.
Proof.
  intros Hk Hn. rewrite Z.shiftr_land, Z.shiftr_shiftl_l, Z.sub_diag, Z.shiftl_0_r, Z.land_ones by lia.
  apply Z.mod_pos_bound. lia.
Qed.

Lemma rex_b r : 0 ≤ bFromREX r < 2.
Proof. pose proof (masked r 1 0 ltac:(lia) ltac:(lia)) as H. rewrite Z.shiftr_0_r in H. exact H. Qed.
Lemma rex_x r : 0 ≤ xFromREX r < 2.
Proof. exact (masked r 1 1 ltac:(lia) ltac:(lia)). Qed.
Lemma rex_r r : 0 ≤ rFromREX r < 2.
Proof. exact (masked r 1 2 ltac:(lia) ltac:(lia)). Qed.
Lemma three_bits b : 0 ≤ indexFromSIB b < 8.
Proof. exact (masked b 3 3 ltac:(lia) ltac:(lia)). Qed.
Lemma low_bits b : 0 ≤ baseFromSIB b < 8.
Proof. pose proof (masked b 3 0 ltac:(lia) ltac:(lia)) as H. rewrite Z.shiftr_0_r in H. exact H. Qed.

(** A three-bit field extended by one bit, and by another. *)
Lemma four_bits a b : 0 ≤ a < 8 → 0 ≤ b < 2 → 0 ≤ a .| (b << 3) < 16.
Proof. intros Ha Hb. exact (small_or a b 3 1 Ha Hb ltac:(lia) ltac:(lia)). Qed.
Lemma five_bits a b : 0 ≤ a < 16 → 0 ≤ b < 2 → 0 ≤ a .| (b << 4) < 32.
Proof. intros Ha Hb. exact (small_or a b 4 1 Ha Hb ltac:(lia) ltac:(lia)). Qed.

(** ** Readers *)

Section ranges.
Context (code : list Z) (start : Z).

Lemma par_read_at I c : par I (read_at code start c).
Proof. unfold read_at. par_auto. Qed.
Hint Resolve par_read_at : x86r.

Lemma par_consumeByte g : par (ranges g) (consumeByte code start).
Proof. unfold consumeByte. par_auto. Qed.
Lemma par_lookAtByte g : par (ranges g) (lookAtByte code start).
Proof. unfold lookAtByte. par_auto. Qed.

Lemma par_consume_loop I cast n i v : par I (consume_loop code start cast n i v).
Proof. revert i v. induction n as [|n IH]; intros i v; cbn [consume_loop]; par_auto. Qed.
Hint Resolve par_consume_loop : x86r.

Lemma par_consume g cast n : par (ranges g) (consume code start cast n).
Proof. unfold consume. par_auto. Qed.
Hint Resolve par_consumeByte par_lookAtByte par_consume : x86r.

(** ** ModR/M *)

Lemma par_readDisplacement g : par (ranges g) (readDisplacement code start).
Proof. unfold readDisplacement, disp_switch, consumeInt8, consumeInt16, consumeInt32. par_auto. Qed.

Lemma ranges_sibIndex g s v : 0 ≤ v ≤ 64 → ranges g s → ranges g (set s sibIndex v).
Proof. intros Hv [H1 H2 H3 H4 H5 H6 H7 H8 H9 H10 H11]. split; rewrite ?iset_ne, ?iset_eq by discriminate; try done. by split; [|apply H3]. Qed.

Lemma ranges_sibBase g s v : 0 ≤ v ≤ 32 → ranges g s → ranges g (set s sibBase v).
Proof. intros Hv [H1 H2 H3 H4 H5 H6 H7 H8 H9 H10 H11]. split; rewrite ?iset_ne, ?iset_eq by discriminate; try done. by split; [apply H3|]. Qed.

Lemma par_sib_base g first base : 0 ≤ first ≤ 17 → 0 ≤ base < 16 → par (ranges g) (sib_base first base).
Proof.
  intros Hf Hb. unfold sib_base.
  assert (∀ v, 0 ≤ v ≤ 32 → par (ranges g) (put sibBase v)) as Hp by (intros v Hv; apply par_put; intros s; by apply ranges_sibBase).
  par_auto; apply Hp; unfold SIB_BASE_NONE; lia.
Qed.

Lemma par_use_sib g i b x : 0 ≤ i ≤ 33 → 0 ≤ b ≤ 17 → par (ranges g) (use_sib i b x).
Proof.
  intros Hi Hb. unfold use_sib. do 3 (apply par_bind; [apply par_get|]; intros ?). cbv zeta.
  pose proof (four_bits _ _ (three_bits x) (rex_x a)) as H4. pose proof (masked (Z.lnot a1) 1 3 ltac:(lia) ltac:(lia)) as Hv.
  set (ix := if a0 =? TYPE_EVEX then _ else _).
  assert (0 ≤ ix < 32) as Hix by (unfold ix; case_bool; [by apply five_bits|lia]). clearbody ix.
  apply par_bind; [|intros _].
  { apply par_put. intros s. apply ranges_sibIndex. unfold SIB_INDEX_NONE. repeat case_bool; lia. }
  apply par_bind; [eauto with x86r|]. intros _. apply par_sib_base; [done|]. apply four_bits; [apply low_bits|apply rex_b].
Qed.

Lemma par_readSIB g : par (ranges g) (readSIB code start).
Proof.
  unfold readSIB. apply par_bind; [apply par_get|]. intros d. apply par_if; [apply par_ret|].
  apply par_bind; [eauto with x86r|]. intros _. apply par_bind; [apply par_get|]. intros a. apply par_if; [apply par_failed|].
  set (p := if a =? 4 then _ else _). assert (0 ≤ p.1 ≤ 33 ∧ 0 ≤ p.2 ≤ 17) as [Hp1 Hp2].
  { unfold p, SIB_INDEX_EAX, SIB_INDEX_RAX, SIB_INDEX_NONE, SIB_BASE_EAX, SIB_BASE_RAX, SIB_BASE_NONE. repeat case_bool; cbn; lia. }
  destruct p as [p1 p2]. cbn [fst snd] in *. apply par_bind; [eauto with x86r|]. intros b.
  apply par_bind; [eauto with x86r|]. intros _. by apply par_use_sib.
Qed.
Hint Resolve par_readDisplacement par_readSIB : x86r.

Lemma par_ea_16 g m rm : par (ranges g) (ea_16 code start m rm).
Proof. unfold ea_16. par_auto. Qed.
Lemma par_ea_32 g a m rm : par (ranges g) (ea_32 code start a m rm).
Proof. unfold ea_32. par_auto. Qed.
Hint Resolve par_ea_16 par_ea_32 : x86r.

(** The ModR/M byte was read: the register follows. *)
Definition with_modrm (g : fixed) : fixed := mkFixed (f_reg g) (f_vvvv g) (f_opcode g) (f_has_vvvv g) (f_typed g) true (f_vet g) (f_sp g).

Lemma ranges_forget g s : ranges (with_modrm g) s → ranges g s.
Proof. intros [H1 H2 H3 H4 H5 H6 H7 H8 H9 H10 H11]. split; auto. Qed.

Lemma ranges_modrm g s s' r :
  ranges g s → (∀ f, f ∈ range_fields → f ≠ consumedModRM → f ≠ regBase → f ≠ reg → s' f = s f) →
  s' regBase = reg_first (s registerSize) → s' reg = s' regBase + r → 0 ≤ r < 32 → (s vectorExtensionType ≠ TYPE_EVEX → r < 16) →
  s' consumedModRM = 1 → ranges (with_modrm g) s'.
Proof.
  intros [H1 H2 H3 H4 H5 H6 H7 H8 H9 H10 H11] Hf Hb Hr Hr32 Hr16 Hc.
  assert (s' regBase = REG_AX ∨ s' regBase = REG_EAX ∨ s' regBase = REG_RAX) as Hbase.
  { rewrite Hb. unfold reg_first. repeat case_bool; auto. }
  split; cbn [with_modrm f_reg f_vvvv f_opcode f_has_vvvv f_typed f_cm f_vet f_sp];
    rewrite ?(Hf registerSize), ?(Hf immSize), ?(Hf segmentOverride), ?(Hf sibIndex), ?(Hf sibBase), ?(Hf vectorExtensionType), ?(Hf vvvv),
    ?(Hf opcodeRegister), ?(Hf opcodeType), ?(Hf spec) by (isin || discriminate); try done; [|by rewrite Hc].
  rewrite H9 in Hr16.
  rewrite Hr. unfold REG_AX, REG_EAX, REG_RAX, REG_LIMIT in *. destruct (f_reg g); [lia|]. intros _ Hv. specialize (Hr16 Hv). lia.
Qed.

Lemma readModRM_ranges g s : ranges g s →
  wlp (readModRM code start) (fun s' r => ranges g s' ∧ (r ≠ None → ranges (with_modrm g) s')) s.
Proof.
  intros Hs. unfold readModRM. wlps. destruct (ctrue (s consumedModRM)) eqn:Ec; wlps.
  { split; [done|]. intros _. destruct Hs as [H1 H2 H3 H4 H5 H6 H7 H8 H9 H10 H11]. by split. }
  eapply wlp_conseq; [by apply par_consumeByte|]. cbn. intros s1 [b|] Hs1; cbn [lthen]; [|by split]. wlps.
  set (s2 := set (set (set s1 modRM b) consumedModRM 1) orgModRM b).
  set (b' := if is_mov_cr s2 then _ else _). clearbody b'.
  assert (∀ f, f ∉ [modRM; consumedModRM; orgModRM] → s2 f = s1 f) as Hf2.
  { intros f Hf. unfold s2. rewrite !iset_ne by (intros ->; apply Hf; isin). done. }
  set (r := if s2 vectorExtensionType =? TYPE_EVEX then _ .| (r2FromEVEX2of4 _ << 4) else _).
  assert (0 ≤ r < 32 ∧ (s1 vectorExtensionType ≠ TYPE_EVEX → r < 16)) as [Hr32 Hr16].
  { pose proof (four_bits _ _ (three_bits b') (rex_r (s2 rexPrefix))) as H4. unfold r. rewrite Hf2 by isin.
    destruct (Z.eqb_spec (s1 vectorExtensionType) TYPE_EVEX); [|split; [|intros _]; exact (proj2 H4) || (unfold indexFromSIB in H4; unfold regFromModRM; lia)].
    split; [|done]. apply five_bits; [exact H4|exact (masked _ 1 4 ltac:(lia) ltac:(lia))]. }
  clearbody r. set (rm := if s2 vectorExtensionType =? TYPE_EVEX then _ else _). clearbody rm.
  pose proof (proj1 (rg_size _ _ Hs1)) as Hsz.
  eapply wlp_conseq; [apply wp_wlp', reg_bases_spec; rewrite iset_ne, Hf2 by (isin || discriminate); done|].
  cbv beta. intros s3 o (-> & Hf3 & Hb3 & _). cbn [lthen]. wlps.
  rewrite iset_ne, Hf2 in Hb3 by (isin || discriminate).
  assert (ranges (with_modrm g) (set s3 reg (s3 regBase + r))) as Hs4.
  { eapply (ranges_modrm g s1); [done|..|done|done|].
    - intros f Hf ? ? ?. rewrite iset_ne, Hf3, iset_ne, Hf2; [done|..]; try congruence;
        intros Hin; (in_cases Hin; subst f; (congruence || revert Hf; isin)) || (subst f; revert Hf; isin).
    - by simp_set.
    - by simp_set.
    - rewrite iset_ne, Hf3 by (isin || discriminate). unfold s2. by simp_set. }
  assert (par (ranges (with_modrm g)) match s2 addressSize with
    | 2 => ea_16 code start (modFromModRM b') rm
    | 4 | 8 => ea_32 code start (s2 addressSize) (modFromModRM b') rm
    | _ => mret () end) as Hea by par_auto.
  eapply wlp_conseq; [by apply Hea|]. cbn. intros s' o H. split; [by apply ranges_forget|done].
Qed.

Lemma par_readModRM g : par (ranges g) (readModRM code start).
Proof. intros s Hs. eapply wlp_conseq; [by apply readModRM_ranges|]. by intros s' r [? _]. Qed.
Hint Resolve par_readModRM : x86r.

(** ** Opcode *)

Lemma ranges_opcodeType g s v : v ≠ T3DNOW_MAP → ranges g s → ranges g (set s opcodeType v).
Proof. intros Hv [H1 H2 H3 H4 H5 H6 H7 H8 H9 H10 H11]. split; rewrite ?iset_ne, ?iset_eq by discriminate; done. Qed.
Hint Extern 1 (par (ranges _) (put opcodeType _)) => apply par_put; intros ?; apply ranges_opcodeType; discriminate : x86r.

Definition typed (g : fixed) : fixed := mkFixed (f_reg g) (f_vvvv g) (f_opcode g) (f_has_vvvv g) true (f_cm g) (f_vet g) (f_sp g).

Lemma ranges_typed g s v : v ≠ T3DNOW_MAP → ranges g s → ranges (typed g) (set s opcodeType v).
Proof. intros Hv [H1 H2 H3 H4 H5 H6 H7 H8 H9 H10 H11]. split; cbn; rewrite ?iset_ne, ?iset_eq by discriminate; done. Qed.

Lemma par_vector_opcode g s k : vector_opcode code start s = Some k → par (ranges g) k.
Proof.
  unfold vector_opcode, opcode_of_type. repeat case_bool; try discriminate; intros [= <-]; par_auto.
Qed.

Lemma readOpcode_ranges g s : ranges g s → wlp (readOpcode code start) (fun s' r => r ≠ None → ranges (typed g) s') s.
Proof.
  intros Hs. unfold readOpcode. wlps.
  assert (ranges (typed g) (set (set s opcodeType ONEBYTE) firstByte 0)) as Hs1.
  { apply ranges_set; [isin|]. by apply ranges_typed. }
  set (s1 := set _ firstByte 0) in *. destruct (vector_opcode code start s1) as [k|] eqn:Ek.
  - eapply wlp_conseq; [by apply (par_vector_opcode (typed g) _ _ Ek)|]. done.
  - match goal with |- wlp ?k _ _ => assert (par (ranges (typed g)) k) as Hk by par_auto end.
    eapply wlp_conseq; [by apply Hk|]. done.
Qed.

(** ** The instruction *)

(** The masks from [i] on with the EVEX bit have contexts without tables. *)
Fixpoint evex_unused (i : Z) (contexts : list Z) : bool :=
  match contexts with
  | [] => true
  | c :: contexts =>
      (negb (Z.testbit i 8) ||
       forallb (fun index => match aget index c with Ok x => x =? 0 | _ => false end)
         [index_x86DisassemblerOneByteOpcodes; index_x86DisassemblerTwoByteOpcodes;
          index_x86DisassemblerThreeByte38Opcodes; index_x86DisassemblerThreeByte3AOpcodes])
      && evex_unused (i + 1) contexts
  end.

Lemma evex_tables : evex_unused 0 x86DisassemblerContexts = true ∧ aget modRMTable 0 = Ok 0.
Proof. vm_compute. split; reflexivity. Qed.

Lemma evex_unused_at i l k c :
  evex_unused i l = true → l !! k = Some c → Z.testbit (i + Z.of_nat k) 8 = true → ∀ ty, aget (opcode_tables ty).2 c = Ok 0.
Proof.
  revert i k. induction l as [|x l IH]; intros i k He Hk Hb ty; [done|]. cbn [evex_unused] in He. apply andb_true_iff in He as [Hx Hl].
  destruct k as [|k].
  - injection Hk as ->. rewrite Z.add_0_r in Hb. rewrite Hb in Hx. cbn [negb orb forallb] in Hx. zify_bools.
    unfold opcode_tables. repeat case_bool; cbn [snd]; repeat match goal with
      | H : match aget ?t c with Ok _ => _ | _ => _ end = true |- aget ?t c = _ =>
          destruct (aget t c); try discriminate H; apply Z.eqb_eq in H; by subst
      end.
  - apply (IH (i + 1) k Hl Hk). by replace (i + 1 + Z.of_nat k) with (i + Z.of_nat (S k)) by lia.
Qed.

#[local] Opaque x86DisassemblerContexts modRMTable x86DisassemblerInstrSpecifiers x86OperandSets x86_16_bit_eq_tbl
  x86_16_bit_eq_lookup x86DisassemblerOneByteOpcodes x86DisassemblerTwoByteOpcodes x86DisassemblerThreeByte38Opcodes
  x86DisassemblerThreeByte3AOpcodes index_x86DisassemblerOneByteOpcodes index_x86DisassemblerTwoByteOpcodes
  index_x86DisassemblerThreeByte38Opcodes index_x86DisassemblerThreeByte3AOpcodes.

(** With the EVEX attribute no opcode has an instruction. *)
Lemma decode_evex ty a c opc m id :
  Z.testbit a 8 = true → contextForAttrs a = Ok c → decode ty c opc m = Ok id → id = 0.
Proof.
  intros Hb Hc Hd. apply aget_Ok_inv in Hc as [Ha Hc].
  pose proof (evex_unused_at 0 _ (Z.to_nat a) c (proj1 evex_tables) Hc ltac:(rewrite Z2Nat.id by lia; exact Hb) ty) as Hi.
  unfold decode, find_decision in Hd. destruct (opcode_tables ty) as [ts index]. cbn [snd] in Hi. rewrite Hi in Hd.
  cbn [mbind outcome_bind ctrue Z.eqb negb] in Hd. destruct (aget emptyTable opc) as [d| |] eqn:Ed; try discriminate Hd.
  assert (d = emptyDecision) as ->.
  { apply aget_Ok_inv in Ed as [_ Ed]. apply list_elem_of_lookup_2 in Ed. unfold emptyTable in Ed. by apply elem_of_replicate in Ed as [-> _]. }
  change (aget modRMTable 0 = Ok id) in Hd. rewrite (proj2 evex_tables) in Hd. by injection Hd.
Qed.

Lemma par_getIDWithAttrMask g a : par (ranges g) (getIDWithAttrMask code start a).
Proof. unfold getIDWithAttrMask. par_auto. Qed.
Hint Resolve par_getIDWithAttrMask : x86r.

(** A run of [getID] with the EVEX prefix. *)
Definition evex_id (g : fixed) (a : Z) (s : insn) (r : option Z) : Prop :=
  ranges g s ∧ ∀ id, r = Some id → f_vet g = TYPE_EVEX → Z.testbit a 8 = true → id = 0.

Lemma getIDWithAttrMask_evex g a s :
  f_typed g = true → ranges g s → wlp (getIDWithAttrMask code start a) (evex_id g a) s.
Proof.
  intros Hty Hs. pose proof (rg_type _ _ Hs Hty) as Ht. unfold getIDWithAttrMask. wlps.
  rewrite (proj2 (Z.eqb_neq _ _) Ht). apply wlp_lift. intros c Hc. wlps. apply wlp_lift. intros b _. cbn [lthen].
  destruct b; wlps.
  - eapply wlp_conseq; [by apply (par_readModRM g)|]. cbn. intros s1 [[]|] Hs1; cbn [lthen]; [wlps|by split].
    apply wlp_lift. intros id Hd. split; [done|]. intros ? [= <-] _ Hb. by eapply decode_evex.
  - apply wlp_lift. intros id Hd. split; [done|]. intros ? [= <-] _ Hb. by eapply decode_evex.
Qed.

Lemma attributes_evex s a : attributes s = Some a → s vectorExtensionType = TYPE_EVEX → Z.testbit a 8 = true.
Proof.
  unfold attributes. intros H E. rewrite E in H. cbn [Z.eqb Pos.eqb negb TYPE_EVEX TYPE_NO_VEX_XOP mbind option_bind] in H.
  injection H as <-. rewrite !Z.lor_spec. change (Z.testbit ATTR_EVEX 8) with true. by rewrite orb_true_r.
Qed.

(** The instruction is 0 and the mask still has the EVEX attribute. *)
Definition evex_none (g : fixed) (p : Z * Z) : Prop := f_vet g = TYPE_EVEX → p.1 = 0 ∧ Z.testbit p.2 8 = true.

Lemma evex_xor g a b : Z.testbit b 8 = false → (f_vet g = TYPE_EVEX → Z.testbit a 8 = true) →
  f_vet g = TYPE_EVEX → Z.testbit (a ^^ b) 8 = true.
Proof. intros Hb Ha He. by rewrite Z.lxor_spec, Hb, Ha. Qed.

Lemma fix_branch_evex g id a s :
  f_typed g = true → evex_none g (id, a) → ranges g s →
  wlp (fix_branch code start id a) (fun s' r => ranges g s' ∧ ∀ p, r = Some p → evex_none g p) s.
Proof.
  intros Hty Hp Hs. unfold fix_branch. wlps. case_bool; wlps; [|by split; [|intros ? [= <-]]].
  eapply wlp_conseq; [by apply (getIDWithAttrMask_evex g)|]. intros s1 [id'|] [Hs1 Hid]; cbn [lthen]; [wlps|by split].
  split; [done|]. intros ? [= <-] He. assert (Z.testbit (a ^^ ATTR_OPSIZE) 8 = true) as Hb.
  { apply (evex_xor g); [done|apply Hp|done]. }
  split; [by apply (Hid id')|done].
Qed.

Lemma fix_jcxz_evex g id a s :
  f_typed g = true → evex_none g (id, a) → ranges g s →
  wlp (fix_jcxz code start id a) (fun s' r => ranges g s' ∧ ∀ p, r = Some p → evex_none g p) s.
Proof.
  intros Hty Hp Hs. unfold fix_jcxz. wlps. case_bool; wlps; [|by split; [|intros ? [= <-]]].
  apply wlp_lift. intros os _. cbn [lthen]. wlps. apply wlp_lift. intros op _. cbn [lthen].
  case_bool; wlps; [|by split; [|intros ? [= <-]]].
  eapply wlp_conseq; [by apply (getIDWithAttrMask_evex g)|]. intros s1 [id'|] [Hs1 Hid]; cbn [lthen]; [wlps|by split].
  split; [done|]. intros ? [= <-] He. assert (Z.testbit (a ^^ ATTR_ADSIZE) 8 = true) as Hb.
  { apply (evex_xor g); [done|apply Hp|done]. }
  split; [by apply (Hid id')|done].
Qed.

(** What is known after [getID]. *)
Definition identified (g : fixed) (s : insn) (r : option unit) : Prop :=
  ranges g s ∧ (r ≠ None → f_vet g = TYPE_EVEX → s instructionID = 0).

Lemma ranges_spec g s v : f_sp g = None → ranges g s → ranges g (set s spec v).
Proof.
  intros Hsp [H1 H2 H3 H4 H5 H6 H7 H8 H9 H10 H11]. split; rewrite ?iset_ne, ?iset_eq by discriminate; try done. congruence.
Qed.

Lemma set_instruction_evex g id s : f_sp g = None → (f_vet g = TYPE_EVEX → id = 0) → ranges g s → wlp (set_instruction id) (identified g) s.
Proof.
  intros Hsp Hid Hs. unfold set_instruction. wlps. split; [apply ranges_spec; [done|]; by apply ranges_set; [isin|]|]. intros _ He.
  rewrite iset_ne, iset_eq by discriminate. by apply Hid.
Qed.

Lemma with_opsize_evex g id a s :
  f_typed g = true → f_sp g = None → evex_none g (id, a) → ranges g s → wlp (with_opsize code start id a) (identified g) s.
Proof.
  intros Hty Hsp Hp Hs. unfold with_opsize. wlps.
  eapply wlp_conseq; [by apply (getIDWithAttrMask_evex g)|]. intros s1 r [Hs1 Hid]. cbn [lthen].
  destruct r as [id'|]; [wlps|apply set_instruction_evex; [done|apply Hp|done]].
  apply wlp_lift. intros b _. cbn [lthen]. wlps. case_bool; apply set_instruction_evex; try done; [|apply Hp].
  intros He. apply (Hid id'); [done|done|]. rewrite Z.lor_spec. destruct (Hp He) as [_ Hb]. cbn [snd] in Hb. by rewrite Hb.
Qed.

Lemma with_xchg_evex g id a s :
  f_typed g = true → f_sp g = None → evex_none g (id, a) → ranges g s → wlp (with_xchg code start id a) (identified g) s.
Proof.
  intros Hty Hsp Hp Hs. unfold with_xchg. wlps.
  eapply wlp_conseq; [apply (getIDWithAttrMask_evex g); [done|by apply ranges_set; [isin|]]|].
  intros s1 r [Hs1 Hid]. cbn [lthen]. wlps. apply set_instruction_evex; [done| |by apply ranges_set; [isin|]].
  intros He. destruct r as [id'|]; cbn [default]; [by apply (Hid id'); [..|apply Hp]|by apply Hp].
Qed.

Lemma getID_ranges g s : f_typed g = true → f_sp g = None → ranges g s → wlp (getID code start) (identified g) s.
Proof.
  intros Hty Hsp Hs. unfold getID. wlps. destruct (attributes s) as [a|] eqn:Ea; [|wlps; by split].
  assert (f_vet g = TYPE_EVEX → Z.testbit a 8 = true) as Ha.
  { intros He. eapply attributes_evex; [exact Ea|]. by rewrite (rg_vet _ _ Hs). }
  wlps. eapply wlp_conseq; [by apply (getIDWithAttrMask_evex g)|]. intros s1 [id|] [Hs1 Hid]; cbn [lthen]; [wlps|by split].
  eapply wlp_conseq; [apply (fix_branch_evex g); [done| |done]|].
  { intros He. split; [by apply (Hid id); [..|apply Ha]|by apply Ha]. }
  cbn. intros s2 [[id2 a2]|] [Hs2 Hp2]; cbn [lthen]; [wlps|by split].
  eapply wlp_conseq; [apply (fix_jcxz_evex g); [done|by apply Hp2|done]|].
  cbn. intros s3 [[id3 a3]|] [Hs3 Hp3]; cbn [lthen]; [wlps|by split]. specialize (Hp3 _ eq_refl).
  case_bool; [by apply with_opsize_evex|]. case_bool; [by apply with_xchg_evex|]. apply set_instruction_evex; [done|apply Hp3|done].
Qed.

Lemma par_checkPrefix g : par (ranges g) checkPrefix.
Proof. unfold checkPrefix. par_auto. Qed.

(** ** Operands *)

Lemma u8_le x : 0 ≤ x → 0 ≤ u8 x ≤ x.
Proof. intros Hx. pose proof (wrap_range 8 x ltac:(lia)). split; [lia|]. unfold wrap. apply Z.mod_le; lia. Qed.

(** The register of a class is in the table. *)
Lemma type_register_range rex base ty i v :
  base = REG_AX ∨ base = REG_EAX ∨ base = REG_RAX → 0 ≤ i ≤ 15 → type_register rex base MODRM_REG_AL ty i = (v, true) →
  0 ≤ v < REG_LIMIT.
Proof.
  intros Hb Hi. assert (0 ≤ (i & 7) < 8) as Hm by exact (low_bits i).
  unfold type_register, MODRM_REG_AL, REG_SPL, REG_AX, REG_EAX, REG_RAX, REG_ZMM0, REG_YMM0, REG_XMM0, REG_K0, REG_MM0, REG_ES,
    REG_DR0, REG_CR0, REG_LIMIT in *.
  repeat case_bool; intros [= <-]; try discriminate; zify_bools; try (pose proof (u8_le (base + i)); lia);
    lazymatch goal with |- context [u8 ?x] => pose proof (u8_le x); lia end.
Qed.

Lemma vvvv_register_range rex base ty i r :
  ty = TYPE_R32 ∨ ty = TYPE_R64 → 0 ≤ i ≤ 31 → type_register rex base MODRM_REG_AL ty i = r → 0 ≤ r.1 < REG_LIMIT.
Proof.
  intros Ht Hi <-. unfold REG_LIMIT. destruct Ht as [-> | ->]; cbn [type_register fst]; unfold type_register.
  - change (0 ≤ u8 (36 + i) < 212). pose proof (u8_le (36 + i)). lia.
  - change (0 ≤ u8 (52 + i) < 212). pose proof (u8_le (52 + i)). lia.
Qed.

Lemma par_readImmediate g n : par (ranges g) (readImmediate code start n).
Proof. unfold readImmediate, put_immediate, next_immediate, consumeUInt16, consumeUInt32, consumeUInt64. par_auto. Qed.
Hint Resolve par_readImmediate : x86r.

Lemma par_fixup g base prefix ty i : par (ranges g) (fixup base prefix ty i).
Proof. unfold fixup. par_auto. Qed.

(** What [fixup] returns. *)
Lemma fixup_result base prefix ty i s :
  wlp (fixup base prefix ty i) (fun s' r => (∀ f, f ≠ operandSize → s' f = s f) ∧
    r = Some (type_register (s rexPrefix) base prefix ty i)) s.
Proof.
  unfold fixup. destruct (type_size ty); wlps; split; try done.
  intros f Hf. by rewrite iset_ne.
Qed.

Definition fix_reg (g : fixed) : fixed := mkFixed true (f_vvvv g) (f_opcode g) (f_has_vvvv g) (f_typed g) (f_cm g) (f_vet g) (f_sp g).
Definition fix_vvvv (g : fixed) : fixed := mkFixed (f_reg g) true (f_opcode g) (f_has_vvvv g) (f_typed g) (f_cm g) (f_vet g) (f_sp g).
Definition fix_opcode (g : fixed) : fixed := mkFixed (f_reg g) (f_vvvv g) true (f_has_vvvv g) (f_typed g) (f_cm g) (f_vet g) (f_sp g).

Lemma ranges_reg g s v : 0 ≤ v < REG_LIMIT → ranges g s → ranges (fix_reg g) (set s reg v).
Proof. intros Hv [H1 H2 H3 H4 H5 H6 H7 H8 H9 H10 H11]. split; cbn; rewrite ?iset_ne, ?iset_eq by discriminate; done. Qed.
Lemma ranges_vvvv g s v : 0 ≤ v < REG_LIMIT → ranges g s → ranges (fix_vvvv g) (set s vvvv v).
Proof. intros Hv [H1 H2 H3 H4 H5 H6 H7 H8 H9 H10 H11]. split; cbn; rewrite ?iset_ne, ?iset_eq by discriminate; done. Qed.
Lemma ranges_opcodeRegister g s v : 0 ≤ v < REG_LIMIT → ranges g s → ranges (fix_opcode g) (set s opcodeRegister v).
Proof. intros Hv [H1 H2 H3 H4 H5 H6 H7 H8 H9 H10 H11]. split; cbn; rewrite ?iset_ne, ?iset_eq by discriminate; done. Qed.

(** The register of the ModR/M byte. *)
Lemma fixupReg_reg g op s :
  encoding op = ENCODING_REG → f_reg g = false → f_cm g = true → f_vet g ≠ TYPE_EVEX → ranges g s →
  wlp (fixupReg op) (fun s' r => r ≠ None → ranges (fix_reg g) s') s.
Proof.
  intros He Hr Hc Hv Hs. unfold fixupReg. rewrite He. wlps. cbn [Z.eqb Pos.eqb ENCODING_REG ENCODING_VVVV]. wlps.
  pose proof (rg_cm _ _ Hs Hc) as Hcm. pose proof (rg_reg _ _ Hs) as Hreg. rewrite Hr in Hreg. specialize (Hreg Hcm Hv).
  eapply wlp_conseq; [apply (wlp_both _ _ _ _ (par_fixup g _ _ _ _ s Hs) (fixup_result _ _ _ _ s))|].
  cbv beta. intros s1 o (Hs1 & Hf1 & ->). cbn [lthen]. unfold put_fixed. wlps.
  destruct (type_register _ _ _ _ _) as [v b] eqn:Et. cbn [fst snd]. destruct b; wlps; [|done]. intros _.
  apply ranges_reg; [|done].
  eapply type_register_range; [by apply (rg_base _ _ Hs Hcm)| |exact Et]. rewrite wrap_small; [done|]. unfold in_u. lia.
Qed.

(** The register of the vector prefix. *)
Lemma fixupReg_vvvv g op s :
  encoding op = ENCODING_VVVV → type op = TYPE_R32 ∨ type op = TYPE_R64 → f_vvvv g = false → f_has_vvvv g = true → ranges g s →
  wlp (fixupReg op) (fun s' r => r ≠ None → ranges (fix_vvvv g) s') s.
Proof.
  intros He Ht Hr Hh Hs. unfold fixupReg. rewrite He. wlps. cbn [Z.eqb Pos.eqb ENCODING_VVVV]. wlps.
  pose proof (rg_vvvv _ _ Hs) as Hreg. rewrite Hr in Hreg. specialize (Hreg Hh).
  eapply wlp_conseq; [apply (wlp_both _ _ _ _ (par_fixup g _ _ _ _ s Hs) (fixup_result _ _ _ _ s))|].
  cbv beta. intros s1 o (Hs1 & Hf1 & ->). cbn [lthen]. unfold put_fixed. wlps.
  assert (0 ≤ (type_register (s rexPrefix) (s regBase) MODRM_REG_AL (type op) (u8 (s vvvv))).1 < REG_LIMIT) as Hrange.
  { eapply vvvv_register_range; [exact Ht| |reflexivity]. rewrite wrap_small; [done|]. unfold in_u. lia. }
  case_bool; wlps; [|done]. intros _. by apply ranges_vvvv.
Qed.

Lemma par_fixupReg_rm g op : CASE_ENCODING_RM (encoding op) = true → par (ranges g) (fixupReg op).
Proof.
  intros He. unfold fixupReg. apply par_bind; [apply par_read_state|]. intros s.
  unfold CASE_ENCODING_RM, ENCODING_RM, ENCODING_RM_CD64, ENCODING_VVVV, ENCODING_REG in *. zify_bools.
  rewrite (proj2 (Z.eqb_neq _ 9)), (proj2 (Z.eqb_neq _ 1)) by lia. unfold fixup, put_fixed. par_auto.
Qed.

Lemma readOpcodeRegister_ranges g n s :
  n = 0 ∨ n = 1 ∨ n = 2 ∨ n = 4 ∨ n = 8 → ranges g s → wlp (readOpcodeRegister n) (fun s' r => ranges (fix_opcode g) s') s.
Proof.
  intros Hn Hs. unfold readOpcodeRegister. wlps. set (n' := if n =? 0 then _ else n).
  assert (n' = 1 ∨ n' = 2 ∨ n' = 4 ∨ n' = 8) as Hn' by (pose proof (rg_size _ _ Hs); unfold n'; case_bool; lia). clearbody n'.
  assert (ranges g (set s operandSize n')) as Hs1 by by apply ranges_set; [isin|].
  set (s1 := set s operandSize n') in *. set (x := _ .| _).
  assert (0 ≤ x < 16) as Hx.
  { unfold x. rewrite Z.lor_comm. apply four_bits; [exact (low_bits (s1 opcode))|apply rex_b]. }
  clearbody x. unfold MODRM_REG_AL, REG_SPL, REG_AX, REG_EAX, REG_RAX.
  destruct Hn' as [-> |[-> |[-> | ->]]]; wlps; apply ranges_opcodeRegister; try done; unfold REG_LIMIT; repeat case_bool; lia.
Qed.

(** The [vvvv] field. *)
Definition with_vvvv (b : bool) (g : fixed) : fixed :=
  mkFixed (f_reg g) (f_vvvv g) (f_opcode g) b (f_typed g) (f_cm g) (f_vet g) (f_sp g).

Lemma vvvv_bits x : 0 ≤ vvvvFromEVEX3of4 x < 16.
Proof. exact (masked (Z.lnot x) 4 3 ltac:(lia) ltac:(lia)). Qed.

Lemma readVVVV_ranges g s :
  f_vvvv g = false → f_has_vvvv g = false → ranges g s →
  wlp readVVVV (fun s' r => ranges (with_vvvv (match r with Some _ => true | None => false end) g) s') s.
Proof.
  intros Hv Hh Hs.
  assert (∀ v, 0 ≤ v < 32 → ranges (with_vvvv true g) (set s vvvv (if negb (s mode =? MODE_64BIT) then v & 7 else v))) as Hput.
  { intros v Hr. assert (0 ≤ (v & 7) < 8) by exact (low_bits v).
    destruct Hs as [H1 H2 H3 H4 H5 H6 H7 H8 H9 H10 H11]. split; cbn; rewrite ?iset_ne, ?iset_eq by discriminate; try done.
    rewrite Hv. intros _. case_bool; lia. }
  assert (ranges (with_vvvv false g) s) as Hfail.
  { destruct Hs as [H1 H2 H3 H4 H5 H6 H7 H8 H9 H10 H11]. split; cbn; try done. by rewrite Hv. }
  unfold readVVVV. wlps.
  assert (∀ x, 0 ≤ vvvvFromEVEX3of4 x < 32) as Hx by (intros x; pose proof (vvvv_bits x); lia).
  destruct (_ =? TYPE_EVEX); wlps.
  { apply Hput. rewrite Z.lor_comm. apply five_bits; [apply vvvv_bits|]. exact (masked _ 1 3 ltac:(lia) ltac:(lia)). }
  destruct (_ =? TYPE_VEX_3B); wlps; [by apply Hput|]. destruct (_ =? TYPE_VEX_2B); wlps; [by apply Hput|].
  destruct (_ =? TYPE_XOP); wlps; [by apply Hput|done].
Qed.

(** One operand was read. *)
Definition step (g : fixed) (op : OperandSpecifier) : fixed :=
  mkFixed (f_reg g || (encoding op =? ENCODING_REG)) (f_vvvv g || (encoding op =? ENCODING_VVVV))
    (f_opcode g || is_opcode_reg (encoding op)) (f_has_vvvv g) (f_typed g) (f_cm g) (f_vet g) (f_sp g).

Lemma step_none g op :
  encoding op ≠ ENCODING_REG → encoding op ≠ ENCODING_VVVV → is_opcode_reg (encoding op) = false → step g op = g.
Proof.
  intros H1 H2 H3. unfold step. rewrite (proj2 (Z.eqb_neq _ _) H1), (proj2 (Z.eqb_neq _ _) H2), H3, !orb_false_r. by destruct g.
Qed.

Lemma read_rm_ranges g op s :
  (encoding op =? ENCODING_REG) || CASE_ENCODING_RM (encoding op) = true → (encoding op = ENCODING_REG → f_reg g = false) →
  f_vet g ≠ TYPE_EVEX → ranges g s → wlp (read_rm code start op) (fun s' r => r ≠ None → ranges (step g op) s') s.
Proof.
  intros He Hg Hv Hs. unfold read_rm. wlps.
  eapply wlp_conseq; [by apply (readModRM_ranges g)|]. cbn. intros s1 [[]|] [_ Hs1]; cbn [lthen]; [wlps|done].
  specialize (Hs1 ltac:(discriminate)).
  assert (∀ g', par (ranges g') (d ← get eaDisplacement;
    when (negb (encoding op =? ENCODING_REG) && (d =? EA_DISP_8)) (scale_displacement (encoding op - ENCODING_RM)))) as Hrest.
  { intros g'. unfold scale_displacement. par_auto. }
  destruct (Z.eqb_spec (encoding op) ENCODING_REG) as [E|E].
  - eapply wlp_conseq; [apply (fixupReg_reg (with_modrm g) op); [done|by apply Hg|done|done|done]|].
    cbn. intros s2 [[]|] Hs2; cbn [lthen]; [|done]. specialize (Hs2 ltac:(discriminate)).
    eapply wlp_conseq; [by apply (Hrest (fix_reg (with_modrm g)))|]. intros s3 r Hs3 _.
    unfold step. rewrite E. change (ENCODING_REG =? ENCODING_REG) with true. change (ENCODING_REG =? ENCODING_VVVV) with false.
    change (is_opcode_reg ENCODING_REG) with false. rewrite orb_true_r, !orb_false_r. by apply (ranges_forget (fix_reg g)).
  - cbn [orb] in He. eapply wlp_conseq; [by apply (par_fixupReg_rm (with_modrm g) op)|]. cbn.
    intros s2 [[]|] Hs2; cbn [lthen]; [|done].
    eapply wlp_conseq; [by apply (Hrest (with_modrm g))|]. intros s3 r Hs3 _. apply ranges_forget in Hs3.
    rewrite step_none; [done|done|..]; revert He; unfold CASE_ENCODING_RM, is_opcode_reg, ENCODING_RM, ENCODING_RM_CD64, ENCODING_VVVV;
      intros He; zify_bools; [lia|]. apply bool_decide_eq_false. intros Hin. in_cases Hin; unfold ENCODING_RB, ENCODING_RW, ENCODING_RD, ENCODING_RO, ENCODING_Rv in Hin; lia.
Qed.

(** What the tables guarantee of an operand, given whether the register of the
    ModR/M byte and that of the vector prefix are taken. *)
Definition operand_fine (reg_ vvvv_ : bool) (op : OperandSpecifier) : bool :=
  negb ((encoding op =? ENCODING_REG) && reg_) && negb ((encoding op =? ENCODING_VVVV) && vvvv_) &&
  (negb (encoding op =? ENCODING_VVVV) || (type op =? TYPE_R32) || (type op =? TYPE_R64)).

Fixpoint row_fine (reg_ vvvv_ : bool) (row : list OperandSpecifier) : bool :=
  match row with
  | [] => true
  | op :: row =>
      operand_fine reg_ vvvv_ op && row_fine (reg_ || (encoding op =? ENCODING_REG)) (vvvv_ || (encoding op =? ENCODING_VVVV)) row
  end.

Lemma read_operand_ranges g op hasV needV saw s :
  operand_fine (f_reg g) (f_vvvv g) op = true → hasV = f_has_vvvv g → f_vet g ≠ TYPE_EVEX → ranges g s →
  wlp (read_operand code start op hasV needV saw) (fun s' r => r ≠ None → ranges (step g op) s') s.
Proof.
  intros Hop HhasV Hv Hs. unfold operand_fine in Hop. unfold read_operand, read_ib. cbv zeta.
  assert (∀ (m0 : dec (bool * bool)), step g op = g → par (ranges g) m0 → wlp m0 (fun s' r => r ≠ None → ranges (step g op) s') s) as Hpar.
  { intros m0 -> Hm. eapply wlp_conseq; [by apply Hm|]. done. }
  assert (∀ n, n = 0 ∨ n = 1 ∨ n = 2 ∨ n = 4 ∨ n = 8 → encoding op ≠ ENCODING_REG → encoding op ≠ ENCODING_VVVV →
    is_opcode_reg (encoding op) = true →
    wlp (readOpcodeRegister n ≫= fun _ => mret (needV, saw)) (fun s' r => r ≠ None → ranges (step g op) s') s) as Hopr.
  { intros n Hn H1 H2 H3. wlps. eapply wlp_conseq; [by apply (readOpcodeRegister_ranges g)|]. cbv beta. intros s1 [[]|] Hs1; cbn [lthen]; [wlps|done].
    intros _. unfold step. rewrite (proj2 (Z.eqb_neq _ _) H1), (proj2 (Z.eqb_neq _ _) H2), H3, !orb_false_r, orb_true_r. exact Hs1. }
  assert (∀ l, encoding op ∈ l → Forall (fun e => e ≠ ENCODING_REG ∧ e ≠ ENCODING_VVVV ∧ is_opcode_reg e = false) l → step g op = g) as Hnone.
  { intros l Hin HF. rewrite Forall_forall in HF. destruct (HF _ Hin) as (? & ? & ?). by apply step_none. }
  destruct (bool_decide _) eqn:E0; [apply bool_decide_eq_true in E0; wlps; intros _; rewrite (Hnone _ E0); [done|by repeat constructor]|].
  destruct (_ || CASE_ENCODING_RM _) eqn:E1.
  { wlps. eapply wlp_conseq; [apply (read_rm_ranges g); [done| |done|done]|].
    - intros E. rewrite E in Hop. change (ENCODING_REG =? ENCODING_REG) with true in Hop. destruct (f_reg g); [discriminate Hop|done].
    - cbn. intros s1 [[]|] Hs1; cbn [lthen]; [wlps|done]. intros _. apply Hs1. discriminate. }
  apply orb_false_iff in E1 as [E1 _]. apply Z.eqb_neq in E1.
  destruct ((ENCODING_CB <=? _) && _); [wlps; done|].
  assert (∀ c, encoding op = c → c ≠ ENCODING_REG → c ≠ ENCODING_VVVV → is_opcode_reg c = false → step g op = g) as Hplain.
  { intros c E ? ? ?. by apply step_none; rewrite E. }
  destruct (Z.eqb_spec (encoding op) ENCODING_IB) as [E|_];
    [apply Hpar; [by apply (Hplain _ E)|unfold get_immediate, put_immediate, next_immediate; par_auto]|].
  destruct (Z.eqb_spec (encoding op) ENCODING_IW) as [E|_]; [apply Hpar; [by apply (Hplain _ E)|par_auto]|].
  destruct (Z.eqb_spec (encoding op) ENCODING_ID) as [E|_]; [apply Hpar; [by apply (Hplain _ E)|par_auto]|].
  destruct (Z.eqb_spec (encoding op) ENCODING_IO) as [E|_]; [apply Hpar; [by apply (Hplain _ E)|par_auto]|].
  destruct (Z.eqb_spec (encoding op) ENCODING_Iv) as [E|_]; [apply Hpar; [by apply (Hplain _ E)|par_auto]|].
  destruct (Z.eqb_spec (encoding op) ENCODING_Ia) as [E|_]; [apply Hpar; [by apply (Hplain _ E)|par_auto]|].
  destruct (Z.eqb_spec (encoding op) ENCODING_RB) as [E|_]; [apply Hopr; [auto|rewrite E; done..]|].
  destruct (Z.eqb_spec (encoding op) ENCODING_RW) as [E|_]; [apply Hopr; [auto|rewrite E; done..]|].
  destruct (Z.eqb_spec (encoding op) ENCODING_RD) as [E|_]; [apply Hopr; [auto|rewrite E; done..]|].
  destruct (Z.eqb_spec (encoding op) ENCODING_RO) as [E|_]; [apply Hopr; [auto|rewrite E; done..]|].
  destruct (Z.eqb_spec (encoding op) ENCODING_Rv) as [E|_]; [apply Hopr; [auto|rewrite E; done..]|].
  destruct (Z.eqb_spec (encoding op) ENCODING_FP) as [E|_]; [apply Hpar; [by apply (Hplain _ E)|par_auto]|].
  destruct (Z.eqb_spec (encoding op) ENCODING_VVVV) as [E|_].
  { subst hasV. destruct (f_has_vvvv g) eqn:Eh; cbn [negb]; wlps; [|done].
    rewrite E in Hop. change (ENCODING_VVVV =? ENCODING_VVVV) with true in Hop. cbn [negb andb orb] in Hop. zify_bools.
    eapply wlp_conseq; [apply (fixupReg_vvvv g); [done|lia| |done|done]|].
    - destruct (f_vvvv g); done.
    - cbn. intros s1 [[]|] Hs1; cbn [lthen]; [wlps|done]. intros _. unfold step. rewrite E.
      change (is_opcode_reg ENCODING_VVVV) with false. change (ENCODING_VVVV =? ENCODING_REG) with false.
      change (ENCODING_VVVV =? ENCODING_VVVV) with true. rewrite orb_true_r, !orb_false_r. apply Hs1. discriminate. }
  destruct (Z.eqb_spec (encoding op) ENCODING_WRITEMASK) as [E|_]; [apply Hpar; [by apply (Hplain _ E)|unfold readMaskRegister; par_auto]|].
  destruct (Z.eqb_spec (encoding op) ENCODING_DUP) as [E|_]; [apply Hpar; [by apply (Hplain _ E)|par_auto]|]. wlps. done.
Qed.

Lemma operand_loop_ranges n os row : aget x86OperandSets os = Ok row → ∀ i g hasV needV saw s,
  0 ≤ i → row_fine (f_reg g) (f_vvvv g) (take n (drop (Z.to_nat i) row)) = true → hasV = f_has_vvvv g → f_vet g ≠ TYPE_EVEX →
  ranges g s →
  wlp (operand_loop code start n os i hasV needV saw)
      (fun s' r => r ≠ None → ranges (foldl step g (take n (drop (Z.to_nat i) row))) s') s.
Proof.
  intros Hrow. induction n as [|n IH]; intros i g hasV needV saw s Hi Hf HhasV Hv Hs; cbn [operand_loop]; [by wlps|].
  wlps. apply wlp_lift. intros op Hop. unfold operand_at in Hop. rewrite Hrow in Hop. cbn [mbind outcome_bind] in Hop.
  apply aget_Ok_inv in Hop as [_ Hop]. rewrite (drop_S _ _ _ Hop) in *. cbn [take firstn row_fine foldl] in *.
  apply andb_true_iff in Hf as [Hf1 Hf2]. cbn [lthen]. wlps.
  eapply wlp_conseq; [by apply (read_operand_ranges g op)|]. cbn. intros s1 [[nv sw]|] Hs1; cbn [lthen]; [|done].
  specialize (Hs1 ltac:(discriminate)). replace (S (Z.to_nat i)) with (Z.to_nat (i + 1)) in * by lia.
  eapply wlp_conseq; [apply (IH (i + 1) (step g op)); [lia|done|done|done|done]|]. done.
Qed.

End ranges.

End X86Range.
