(* ===== verification/X86Disasm.v ===== *)
(** * The x86 back end of the engine

    [X86_getInstruction]: the decoder followed by the translation into a
    machine instruction.  The translation uses what the decoder stored as
    indices into tables of registers; the ranges of [X86Range] show that they
    are within them. *)

From Stdlib Require Import ZArith Lia.
From stdpp Require Import sets.
From S2P Require Import Prelude CsMcInst CsCore X86Tables X86Decoder X86Logic X86Prefix X86Safe X86Decode X86ModRM.
From S2P Require Import X86Translate X86Range.

Module X86Disasm.

Import X86Data McInst X86Tables X86Decoder X86Logic X86Prefix X86Safe X86Decode X86ModRM X86Translate X86Range.
Open Scope c_scope.

(** ** The operand sets *)

(** The operand a duplicated one stands for is one of the first five, a
    register or a ModR/M operand. *)
Definition dup_fine (row : list OperandSpecifier) (op : OperandSpecifier) : bool :=
  negb (encoding op =? ENCODING_DUP) ||
  match table_reg [0; 1; 2; 3; 4] (type op - TYPE_DUP0) ≫= fun i => row !! Z.to_nat i with
  | Some t => (encoding t =? ENCODING_REG) || CASE_ENCODING_RM (encoding t) || is_opcode_reg (encoding t)
  | None => false
  end.

Definition imm_count (row : list OperandSpecifier) : Z := zlen (filter (fun op => is_immediate (encoding op) = true) row).

Definition row_checked (row : list OperandSpecifier) : bool :=
  (zlen row =? 6) && row_fine false false (take 5 row) && forallb (dup_fine row) row && (imm_count (take 5 row) <=? 2).

Lemma rows_checked : forallb row_checked x86OperandSets = true.
Proof. vm_compute. reflexivity. Qed.

#[local] Opaque x86DisassemblerContexts modRMTable x86DisassemblerInstrSpecifiers x86OperandSets x86_16_bit_eq_tbl
  x86_16_bit_eq_lookup x86DisassemblerOneByteOpcodes x86DisassemblerTwoByteOpcodes x86DisassemblerThreeByte38Opcodes
  x86DisassemblerThreeByte3AOpcodes index_x86DisassemblerOneByteOpcodes index_x86DisassemblerTwoByteOpcodes
  index_x86DisassemblerThreeByte38Opcodes index_x86DisassemblerThreeByte3AOpcodes.

Lemma row_of os row : aget x86OperandSets os = Ok row →
  zlen row = 6 ∧ row_fine false false (take 5 row) = true ∧ forallb (dup_fine row) row = true ∧ imm_count (take 5 row) ≤ 2.
Proof.
  intros [_ H]%aget_Ok_inv. pose proof rows_checked as HR. rewrite forallb_forall in HR.
  specialize (HR row). rewrite <- list_elem_of_In in HR. specialize (HR (list_elem_of_lookup_2 _ _ _ H)).
  unfold row_checked in HR. rewrite !andb_true_iff in HR. destruct HR as [[[H1 H2] H3] H4].
  split_conj; [by apply Z.eqb_eq|done|done|by apply Z.leb_le].
Qed.

(** ** What the decoder leaves *)

(** The members used as indices are in range, as far as the operands of [row]
    use them. *)
Record translatable (row : list OperandSpecifier) (s : insn) : Prop := {
  tr_imm : s immSize = 2 ∨ s immSize = 4 ∨ s immSize = 8;
  tr_segment : 0 ≤ s segmentOverride ≤ 6;
  tr_sib : 0 ≤ s sibIndex ≤ 64 ∧ 0 ≤ s sibBase ≤ 32;
  tr_reg : ∀ op, op ∈ take 5 row → encoding op = ENCODING_REG → 0 ≤ s reg < REG_LIMIT;
  tr_vvvv : ∀ op, op ∈ take 5 row → encoding op = ENCODING_VVVV → 0 ≤ s vvvv < REG_LIMIT;
  tr_opcode : ∀ op, op ∈ take 5 row → is_opcode_reg (encoding op) = true → 0 ≤ s opcodeRegister < REG_LIMIT
}.

Lemma foldl_step_reg row g op : op ∈ row →
  (encoding op = ENCODING_REG → f_reg (foldl step g row) = true) ∧
  (encoding op = ENCODING_VVVV → f_vvvv (foldl step g row) = true) ∧
  (is_opcode_reg (encoding op) = true → f_opcode (foldl step g row) = true).
Proof.
  assert (∀ row g, (f_reg g = true → f_reg (foldl step g row) = true) ∧ (f_vvvv g = true → f_vvvv (foldl step g row) = true) ∧
    (f_opcode g = true → f_opcode (foldl step g row) = true)) as Hkeep.
  { intros r. induction r as [|x r IH]; intros h; cbn [foldl]; [done|].
    destruct (IH (step h x)) as (H1 & H2 & H3). split_conj; intros E; [apply H1|apply H2|apply H3]; cbn; by rewrite E. }
  revert g. induction row as [|x row IH]; intros g Hin; cbn [foldl]; [by apply not_elem_of_nil in Hin|].
  apply elem_of_cons in Hin as [<-|Hin]; [|by apply IH].
  destruct (Hkeep row (step g op)) as (H1 & H2 & H3).
  split_conj; intros E; [apply H1|apply H2|apply H3]; cbn; rewrite E; by rewrite orb_true_r.
Qed.

Lemma foldl_step_const row g : f_sp (foldl step g row) = f_sp g ∧ f_vet (foldl step g row) = f_vet g.
Proof. revert g. induction row as [|x row IH]; intros g; cbn [foldl]; [done|]. exact (IH (step g x)). Qed.

Lemma ranges_translatable row g s : ranges (foldl step g (take 5 row)) s → translatable row s.
Proof.
  intros H. split; [by apply (rg_size _ _ H)|by apply (rg_segment _ _ H)|by apply (rg_sib _ _ H)|..]; intros op Hop He;
    destruct (foldl_step_reg (take 5 row) g op Hop) as (H1 & H2 & H3).
  - pose proof (rg_reg _ _ H) as Hr. by rewrite H1 in Hr.
  - pose proof (rg_vvvv _ _ H) as Hr. by rewrite H2 in Hr.
  - by apply (rg_opcode _ _ H), H3.
Qed.

Lemma operand_size_cases m rex op : operand_size m rex op = 2 ∨ operand_size m rex op = 4 ∨ operand_size m rex op = 8.
Proof. unfold operand_size. repeat case_bool; auto. Qed.

Lemma segment_range L : 0 ≤ default 0 (last_of L 1 ≫= fun p => segment_of p.2) ≤ 6.
Proof.
  destruct (last_of L 1) as [[i c]|]; cbn; [|lia]. unfold segment_of.
  repeat case_match; cbn; unfold SEG_OVERRIDE_CS, SEG_OVERRIDE_SS, SEG_OVERRIDE_DS, SEG_OVERRIDE_ES, SEG_OVERRIDE_FS, SEG_OVERRIDE_GS; lia.
Qed.

(** ** The instruction numbers *)

Section ids.
Context (code : list Z) (start : Z).

(** A number from the table, or none. *)
Definition known_id (id : Z) : Prop := id = 0 ∨ id ∈ modRMTable.

Lemma decode_known ty c opc m id : decode ty c opc m = Ok id → known_id id.
Proof.
  unfold decode. intros H. destruct (find_decision ty c opc) as [d| |]; try discriminate H. cbn [mbind outcome_bind] in H.
  assert (∀ i, aget modRMTable i = Ok id → known_id id) as Ht.
  { intros i [_ E]%aget_Ok_inv. right. by eapply list_elem_of_lookup_2. }
  repeat match type of H with (if ?b then _ else _) = _ => destruct b end; eauto. left. by injection H.
Qed.

Lemma wlp_any {A} (m : dec A) s : wlp m (fun _ _ => True) s.
Proof. done. Qed.

Lemma getIDWithAttrMask_known a s : wlp (getIDWithAttrMask code start a) (fun _ r => ∀ id, r = Some id → known_id id) s.
Proof.
  unfold getIDWithAttrMask. wlps. eapply wlp_conseq; [apply wlp_any|]. intros s1 [c|] _; cbn [lthen]; [wlps|done].
  apply wlp_lift. intros b _. cbn [lthen]. destruct b; wlps.
  - eapply wlp_conseq; [apply wlp_any|]. intros s2 [[]|] _; cbn [lthen]; [wlps|done].
    apply wlp_lift. intros id Hd ? [= <-]. by eapply decode_known.
  - apply wlp_lift. intros id Hd ? [= <-]. by eapply decode_known.
Qed.

Definition known_spec (s : insn) (r : option unit) : Prop := r ≠ None → known_id (s spec).

Lemma set_instruction_known id s : known_id id → wlp (set_instruction id) known_spec s.
Proof. intros Hid. unfold set_instruction. wlps. intros _. by rewrite iset_eq. Qed.

Lemma fix_branch_known id a s : known_id id → wlp (fix_branch code start id a) (fun _ r => ∀ p, r = Some p → known_id p.1) s.
Proof.
  intros Hid. unfold fix_branch. wlps. case_bool; wlps; [|by intros ? [= <-]].
  eapply wlp_conseq; [apply getIDWithAttrMask_known|]. intros s1 [id'|] Hk; cbn [lthen]; [wlps|done].
  intros ? [= <-]. by apply Hk.
Qed.

Lemma fix_jcxz_known id a s : known_id id → wlp (fix_jcxz code start id a) (fun _ r => ∀ p, r = Some p → known_id p.1) s.
Proof.
  intros Hid. unfold fix_jcxz. wlps. case_bool; wlps; [|by intros ? [= <-]].
  apply wlp_lift. intros os _. cbn [lthen]. wlps. apply wlp_lift. intros op _. cbn [lthen]. case_bool; wlps; [|by intros ? [= <-]].
  eapply wlp_conseq; [apply getIDWithAttrMask_known|]. intros s1 [id'|] Hk; cbn [lthen]; [wlps|done].
  intros ? [= <-]. by apply Hk.
Qed.

Lemma with_opsize_known id a s : known_id id → wlp (with_opsize code start id a) known_spec s.
Proof.
  intros Hid. unfold with_opsize. wlps. eapply wlp_conseq; [apply getIDWithAttrMask_known|].
  intros s1 [id'|] Hk; cbn [lthen]; [wlps|by apply set_instruction_known].
  apply wlp_lift. intros b _. cbn [lthen]. wlps. case_bool; apply set_instruction_known; [by apply Hk|done].
Qed.

Lemma with_xchg_known id a s : known_id id → wlp (with_xchg code start id a) known_spec s.
Proof.
  intros Hid. unfold with_xchg. wlps. eapply wlp_conseq; [apply getIDWithAttrMask_known|].
  intros s1 r Hk; cbn [lthen]; wlps. apply set_instruction_known. destruct r as [id'|]; [by apply Hk|done].
Qed.

Lemma getID_known s : wlp (getID code start) known_spec s.
Proof.
  unfold getID. wlps. destruct (attributes s) as [a|]; [wlps|wlps; by intros Hn].
  eapply wlp_conseq; [apply getIDWithAttrMask_known|]. intros s1 [id|] H1; cbn [lthen]; [wlps|by intros Hn].
  eapply wlp_conseq; [by apply fix_branch_known, H1|]. intros s2 [[id2 a2]|] H2; cbn [lthen]; [wlps|by intros Hn].
  eapply wlp_conseq; [by apply fix_jcxz_known; apply (H2 _ eq_refl)|]. intros s3 [[id3 a3]|] H3; cbn [lthen]; [wlps|by intros Hn].
  specialize (H3 _ eq_refl). cbn in H3.
  case_bool; [by apply with_opsize_known|]. case_bool; [by apply with_xchg_known|by apply set_instruction_known].
Qed.

End ids.

(** ** The whole decoder *)

Section decoded.
Context (code : list Z) (start m : Z) (junk : insn).
Hypothesis code_size : zlen code < 2 ^ 64.
Hypothesis start_ok : in_u 64 start.
Hypothesis mode_ok : m = MODE_16BIT ∨ m = MODE_32BIT ∨ m = MODE_64BIT.

(** What is known after the prefixes. *)
Definition after_prefixes (s : insn) : fixed := mkFixed false false false false false false (s vectorExtensionType) None.

Lemma readPrefixes_ranges :
  wlp (readPrefixes code start) (fun s r => r ≠ None → ranges (after_prefixes s) s) (started junk start m).
Proof.
  apply wp_wlp'. eapply wp_conseq; [apply (readPrefixes_spec code start m code_size _ mode_ok), started_prefix, start_ok|].
  cbn. intros s r (_ & Hf & Hr) Hsome. destruct (Hr Hsome) as (e & _ & Hrec & _ & (op & Hop) & Him & _).
  assert (∀ f, f ∈ [consumedModRM; sibIndex; sibBase] → s f = 0) as H0.
  { intros f Hin. in_cases Hin; subst f; by rewrite Hf. }
  split; cbn [after_prefixes f_reg f_vvvv f_opcode f_has_vvvv f_typed f_cm f_vet f_sp];
    rewrite ?(H0 consumedModRM), ?(H0 sibIndex), ?(H0 sibBase) by isin; try done.
  - split; [|done]. rewrite Hop. apply operand_size_cases.
  - rewrite (rec_segment _ _ _ Hrec). apply segment_range.
Qed.

(** The operands. *)
Lemma readOperands_ranges g s id :
  f_reg g = false → f_vvvv g = false → f_has_vvvv g = false → f_vet g ≠ TYPE_EVEX → f_sp g = Some id → ranges g s →
  wlp (readOperands code start) (fun s' r => r ≠ None → ∃ os row g', spec_operands id = Ok os ∧ aget x86OperandSets os = Ok row ∧
    f_sp g' = Some id ∧ ranges (foldl step g' (take 5 row)) s') s.
Proof.
  intros H1 H2 H3 H4 H5 Hs. unfold readOperands. wlps.
  eapply wlp_conseq; [by apply (readVVVV_ranges g)|]. cbv beta. intros s1 r1 Hs1. cbn [lthen]. wlps.
  rewrite (rg_sp _ _ Hs1 id H5). apply wlp_lift. intros os Eos. cbn [lthen]. wlps.
  destruct (aget x86OperandSets os) as [row| |] eqn:Erow.
  2, 3: change (Z.to_nat X86_MAX_OPERANDS) with 5%nat; cbn [operand_loop]; wlps; apply wlp_lift; intros op Hop; unfold operand_at in Hop;
    rewrite Erow in Hop; discriminate Hop.
  destruct (row_of _ _ Erow) as (_ & Hfine & _).
  set (hasV := match r1 with Some _ => true | None => false end) in *.
  eapply wlp_conseq; [apply (operand_loop_ranges code start _ os row Erow 0 (with_vvvv hasV g)); [done| |reflexivity|done|exact Hs1]|].
  { cbn [with_vvvv f_reg f_vvvv]. rewrite H1, H2. exact Hfine. }
  cbv beta. intros s2 [nv|] Hs2; cbn [lthen]; [|done]. specialize (Hs2 ltac:(discriminate)). destruct nv; wlps; [done|].
  intros _. exists os, row, (with_vvvv hasV g). by split_conj.
Qed.

(** With the instruction known. *)
Lemma ranges_known g s : f_sp g = None → ranges g s →
  ranges (mkFixed (f_reg g) (f_vvvv g) (f_opcode g) (f_has_vvvv g) (f_typed g) (f_cm g) (f_vet g) (Some (s spec))) s.
Proof. intros Hsp [H1 H2 H3 H4 H5 H6 H7 H8 H9 H10 H11]. split; try done. by intros id [= ->]. Qed.

(** The end of [decodeInstruction] stores nothing of the kind. *)
Lemma finish_ranges g s id os row :
  f_sp g = Some id → known_id id → spec_operands id = Ok os → aget x86OperandSets os = Ok row →
  ranges (foldl step g (take 5 row)) s →
  wlp (s ← read_state;
      let n := u64 (s readerCursor - s startLocation) in
      _ ← put length_ n;
      if 15 <? n then failed
      else
        _ ← when (s operandSize =? 0) (put operandSize (s registerSize));
        os ← lift (spec_operands (s spec));
        put operands os)
     (fun s' r => r ≠ None → known_id (s' spec) ∧ ∃ row, aget x86OperandSets (s' operands) = Ok row ∧ translatable row s') s.
Proof.
  intros Hsp Hid Eos Erow Hs. wlps. destruct (15 <? _); wlps; [done|].
  assert (s spec = id) as Es by (apply (rg_sp _ _ Hs); rewrite (proj1 (foldl_step_const _ _)); done).
  set (h := foldl step g (take 5 row)) in *.
  assert (par (ranges h) (when (s operandSize =? 0) (put operandSize (s registerSize)))) as Hw by par_auto.
  eapply wlp_conseq; [apply Hw, ranges_set; [isin|exact Hs]|]. clear Hw.
  cbv beta. intros s1 [[]|] Hs1; cbn [lthen]; [|done]. wlps. rewrite Es. apply wlp_lift. intros os' Eos'.
  rewrite Eos in Eos'. injection Eos' as <-. cbn [lthen]. wlps. intros _.
  assert (s1 spec = id) as Es1 by (apply (rg_sp _ _ Hs1); unfold h; rewrite (proj1 (foldl_step_const _ _)); done).
  rewrite iset_ne, Es1 by discriminate. split; [done|]. exists row. rewrite iset_eq. split; [done|].
  apply (ranges_translatable row g), ranges_set; [isin|done].
Qed.

(** Whatever [decodeInstruction] accepts can be translated. *)
Lemma decodeInstruction_ranges :
  wlp (decodeInstruction code start start m)
    (fun s r => r ≠ None → known_id (s spec) ∧ ∃ row, aget x86OperandSets (s operands) = Ok row ∧ translatable row s) (clear_insn junk).
Proof.
  unfold decodeInstruction. wlps.
  eapply wlp_conseq; [exact readPrefixes_ranges|]. cbv beta. intros s1 [[]|] Hs1; cbn [lthen]; [|done].
  specialize (Hs1 ltac:(discriminate)). set (g := after_prefixes s1) in *. wlps.
  eapply wlp_conseq; [by apply (readOpcode_ranges code start g)|]. cbv beta. intros s2 [[]|] Hs2; cbn [lthen]; [|done].
  specialize (Hs2 ltac:(discriminate)). wlps.
  eapply wlp_conseq; [apply (wlp_both _ _ _ _ (getID_ranges code start (typed g) s2 eq_refl eq_refl Hs2) (getID_known code start s2))|].
  cbv beta. intros s3 [[]|] [[Hs3 Hev] Hkn]; cbn [lthen]; [|done]. specialize (Hkn ltac:(discriminate)).
  wlps. destruct (Z.eqb_spec (s3 instructionID) 0) as [E|E]; wlps; [done|].
  assert (f_vet g ≠ TYPE_EVEX) as Hvet by (intros Hv; by apply E, Hev). clear Hev.
  apply ranges_known in Hs3; [|done]. set (g3 := mkFixed _ _ _ _ _ _ _ _) in Hs3.
  eapply wlp_conseq; [by apply (par_checkPrefix g3)|]. cbv beta. intros s4 [[]|] Hs4; cbn [lthen]; [|done].
  apply wlp_bind. eapply wlp_conseq; [by apply (readOperands_ranges g3 s4 (s3 spec))|]. cbv beta.
  intros s5 [[]|] Hs5; cbn [lthen]; [|done]. destruct (Hs5 ltac:(discriminate)) as (os & row & g' & Eos & Erow & Hsp & Hr).
  by apply (finish_ranges g' s5 (s3 spec) os row).
Qed.

End decoded.

(** ** Operand lists *)

(** What an operand of a machine instruction stands for. *)
Inductive mc_operand := MReg (r : Z) | MImm (v : Z).

Definition reg_op (r : Z) : mc_operand := MReg (u32 r).
Definition imm_op (v : Z) : mc_operand := MImm (s64 v).

Definition view (op : MCOperand) : option mc_operand :=
  if MCOperand_isReg op then Some (MReg (MCOperand_getReg op))
  else if MCOperand_isImm op then Some (MImm (MCOperand_getImm op))
  else None.
Definition views (inst : MCInst) : list (option mc_operand) := view <$> McInst.operands inst.

(** [inst'] is [inst] with [l] appended. *)
Record extends (inst inst' : MCInst) (l : list mc_operand) : Prop := {
  ext_ok : inst_ok inst';
  ext_size : size inst' = size inst + zlen l;
  ext_views : views inst' = views inst ++ (Some <$> l);
  ext_opcode : Opcode inst' = Opcode inst;
  ext_pub : OpcodePub inst' = OpcodePub inst
}.

Definition appends (inst : MCInst) (l : list mc_operand) (m : outcome MCInst) : Prop := ∃ inst', m = Ok inst' ∧ extends inst inst' l.

Lemma appends_op inst op x :
  inst_ok inst → size inst < MAX_OPERANDS → in_u 64 (bits op) → view op = Some x →
  appends inst [x] (ops ← aset (Operands inst) (size inst) op; Ok (set_size (set_Operands inst ops) (u8 (size inst + 1)))).
Proof.
  intros Hi Hlt Hb Hv. destruct (append_slot inst op) as (ops & -> & H1 & H2); [done..|]. eexists. split; [done|].
  split; [done| | |done|done].
  - cbn. pose proof (ok_size _ Hi). unfold MAX_OPERANDS in *. rewrite wrap_small; [done|]. unfold in_u. lia.
  - unfold views. rewrite H2, fmap_app. cbn [fmap list_fmap]. by rewrite Hv.
Qed.

Lemma appends_reg inst r : inst_ok inst → size inst < MAX_OPERANDS → appends inst [reg_op r] (MCOperand_CreateReg0 inst r).
Proof.
  intros Hi Hlt. pose proof (ok_size _ Hi). destruct (aget_is_Ok (Operands inst) (size inst)) as [o Ho]; [rewrite (ok_len _ Hi); lia|].
  unfold MCOperand_CreateReg0, create_reg. rewrite Ho. cbn [mbind outcome_bind].
  apply appends_op; [done..|apply setReg_bits; exact (slot_bits inst o Hi Ho)|].
  unfold view, MCOperand_isReg, reg_op. cbn [Kind MCOperand_setReg set_Kind Z.eqb Pos.eqb kRegister]. do 2 f_equal.
  unfold MCOperand_getReg, MCOperand_setReg. cbn [bits set_Kind]. unfold wrap. zdiv.
Qed.

Lemma appends_imm inst v : inst_ok inst → size inst < MAX_OPERANDS → appends inst [imm_op v] (MCOperand_CreateImm0 inst v).
Proof.
  intros Hi Hlt. pose proof (ok_size _ Hi). destruct (aget_is_Ok (Operands inst) (size inst)) as [o Ho]; [rewrite (ok_len _ Hi); lia|].
  unfold MCOperand_CreateImm0, create_imm. rewrite Ho. cbn [mbind outcome_bind].
  apply appends_op; [done..|cbn; auto with cint|].
  unfold view, MCOperand_isReg, MCOperand_isImm, imm_op. cbn [Kind MCOperand_setImm set_Kind Z.eqb Pos.eqb kRegister kImmediate].
  do 2 f_equal. unfold MCOperand_getImm, MCOperand_setImm. cbn [bits]. by rewrite swrap_wrap by lia.
Qed.

Lemma extends_trans i1 i2 i3 l1 l2 : extends i1 i2 l1 → extends i2 i3 l2 → extends i1 i3 (l1 ++ l2).
Proof.
  intros [_ H1 H2 H3 H8] [H4 H5 H6 H7 H9]. split; [done|rewrite zlen_app; lia| |congruence|congruence]. by rewrite H6, H2, fmap_app, app_assoc.
Qed.

Lemma appends_bind inst l1 l2 m k :
  appends inst l1 m → (∀ i, extends inst i l1 → appends i l2 (k i)) → appends inst (l1 ++ l2) (m ≫= k).
Proof.
  intros (i & -> & Hi) Hk. destruct (Hk i Hi) as (i' & E & Hi'). exists i'. split; [exact E|]. by eapply extends_trans.
Qed.

Lemma extends_one i i' x : extends i i' [x] → inst_ok i' ∧ size i' = size i + 1 ∧ Opcode i' = Opcode i.
Proof. by intros [H1 H2 _ H4]. Qed.

(** A translation that accepts appends [l]; one that refuses may have
    appended something too. *)
Definition answers (inst : MCInst) (o : option (list mc_operand)) (m : outcome (bool * MCInst)) : Prop :=
  ∃ r inst', m = Ok (r, inst') ∧ inst_ok inst' ∧ size inst ≤ size inst' ≤ size inst + 5 ∧ Opcode inst' = Opcode inst ∧
    match o with Some l => r = false ∧ extends inst inst' l | None => r = true end.

Lemma answers_accept inst l m : appends inst l m → zlen l ≤ 5 → answers inst (Some l) (accept m).
Proof.
  intros (i & -> & Hi) Hl. exists false, i. pose proof (zlen_nonneg l). pose proof Hi as [H1 H2 H3 H4 _]. split_conj; [done|done|lia|lia|done|done|done].
Qed.

Lemma answers_refuse inst : inst_ok inst → answers inst None (Ok (true, inst)).
Proof. intros Hi. exists true, inst. split_conj; [done|done|lia|lia|done|done]. Qed.

(** ** The operands of an instruction *)

Section operands.
Context (row : list OperandSpecifier) (s : insn).

Definition segment_view : mc_operand := reg_op (zget segmentRegnums (s segmentOverride)).

(** A memory operand: base, scale, index, displacement and segment. *)
Definition address_view (base scale index : Z) : list mc_operand :=
  [reg_op base; imm_op scale; reg_op index; imm_op (s displacement); segment_view].

Definition memory_view : option (list mc_operand) :=
  if (s eaBase =? EA_BASE_sib) || (s eaBase =? EA_BASE_sib64) then
    base ← sib_base_reg s; index ← sib_index_reg s; Some (address_view base (s sibScale) index)
  else p ← plain_base s; Some (address_view p.1 1 p.2).

Definition rm_view (op : OperandSpecifier) : option (list mc_operand) :=
  if bool_decide (type op ∈ rm_register_types) then
    r ← table_reg all_regs (s eaBase - EA_REG_AL); Some [reg_op r]
  else if bool_decide (type op ∈ rm_memory_types) then memory_view
  else None.

(** The [n]th immediate as an operand of instruction [id]: a register in its
    upper bits, or its value, sign-extended as the type of the operand says. *)
Definition immediate_view (id n : Z) (op : OperandSpecifier) : list mc_operand :=
  let ty := type op in
  let v := extend_immediate (mkInst 0 0 false 0 id [] 0 [] 0 false) (if n =? 0 then s immediates0 else s immediates1) op s in
  if (ty =? TYPE_XMM32) || (ty =? TYPE_XMM64) || (ty =? TYPE_XMM128) then [reg_op (X86_XMM0 + (u32 v >> 4))]
  else if ty =? TYPE_XMM256 then [reg_op (X86_YMM0 + (u32 v >> 4))]
  else if ty =? TYPE_XMM512 then [reg_op (X86_ZMM0 + (u32 v >> 4))]
  else
    imm_op (if ty =? TYPE_REL8 then sign_extend 8 v
            else if (ty =? TYPE_REL32) || (ty =? TYPE_REL64) then sign_extend 32 v
            else v) :: (if (TYPE_MOFFS8 <=? ty) && (ty <=? TYPE_MOFFS64) then [segment_view] else []).

(** The index registers of the string instructions. *)
Definition index_view (r16 r32 r64 : Z) : mc_operand :=
  let p67 a b : Z := if ctrue (s isPrefix67) then a else b in
  reg_op (if s mode =? MODE_64BIT then p67 r32 r64 else if s mode =? MODE_32BIT then p67 r16 r32 else p67 r32 r16).

Definition operand_view (id n : Z) (op : OperandSpecifier) : option (list mc_operand) :=
  let e := encoding op in
  if e =? ENCODING_NONE then Some []
  else if e =? ENCODING_REG then Some [reg_op (zget llvmRegnums (s reg))]
  else if e =? ENCODING_WRITEMASK then if u8 (s writemask) <? 8 then Some [reg_op (X86_K0 + u8 (s writemask))] else None
  else if CASE_ENCODING_RM e then rm_view op
  else if (ENCODING_CB <=? e) && (e <=? ENCODING_CT) then None
  else if is_immediate e then Some (immediate_view id n op)
  else if e =? ENCODING_SI then Some [index_view X86_SI X86_ESI X86_RSI; segment_view]
  else if e =? ENCODING_DI then Some [index_view X86_DI X86_EDI X86_RDI]
  else if is_opcode_reg e then Some [reg_op (zget llvmRegnums (s opcodeRegister))]
  else if e =? ENCODING_FP then Some [reg_op (X86_ST0 + (s modRM & 7))]
  else if e =? ENCODING_VVVV then Some [reg_op (zget llvmRegnums (s vvvv))]
  else None.

(** A duplicated operand is the one it names. *)
Definition resolve (op : OperandSpecifier) : OperandSpecifier :=
  if encoding op =? ENCODING_DUP then default op (row !! Z.to_nat (type op - TYPE_DUP0)) else op.

(** The operands [ops], of which [n] immediates come before. *)
Fixpoint operand_views (id n : Z) (ops : list OperandSpecifier) : option (list mc_operand) :=
  match ops with
  | [] => Some []
  | op :: ops =>
      l ← operand_view id n (resolve op);
      l' ← operand_views id (n + cbool (is_immediate (encoding op))) ops;
      Some (l ++ l')
  end.

Hypothesis fine : translatable row s.

Lemma segment_appends inst : inst_ok inst → size inst < MAX_OPERANDS → appends inst [segment_view] (segment_reg inst s).
Proof using fine.
  intros Hi Hlt. unfold segment_reg. rewrite aget_zget by (pose proof (tr_segment _ _ fine); change (zlen segmentRegnums) with 7; lia).
  cbn [mbind outcome_bind]. by apply appends_reg.
Qed.

Lemma register_appends inst r : 0 ≤ r < REG_LIMIT → inst_ok inst → size inst < MAX_OPERANDS →
  appends inst [reg_op (zget llvmRegnums r)] (translateRegister inst r).
Proof.
  intros Hr Hi Hlt. unfold translateRegister. rewrite aget_zget by exact Hr. cbn [mbind outcome_bind]. by apply appends_reg.
Qed.

(** A memory operand from its base register on. *)
Lemma finish_memory_answers inst i base scale index :
  extends inst i [reg_op base] → size inst + 5 ≤ MAX_OPERANDS →
  answers inst (Some (address_view base scale index)) (finish_memory i scale index s).
Proof using fine.
  intros Hi Hlt. unfold finish_memory, address_view.
  assert (appends i [imm_op scale; reg_op index; imm_op (s displacement); segment_view]
    (mcInst ← MCOperand_CreateImm0 i scale; mcInst ← MCOperand_CreateReg0 mcInst index;
     mcInst ← MCOperand_CreateImm0 mcInst (s displacement); segment_reg mcInst s)) as (i' & E & Hi').
  { destruct (extends_one _ _ _ Hi) as (H0 & Hs0 & _).
    apply (appends_bind i [_]); [apply appends_imm; [done|lia]|]. intros i1 (H1 & Hs1 & _)%extends_one.
    apply (appends_bind i1 [_]); [apply appends_reg; [done|lia]|]. intros i2 (H2 & Hs2 & _)%extends_one.
    apply (appends_bind i2 [_]); [apply appends_imm; [done|lia]|]. intros i3 (H3 & Hs3 & _)%extends_one.
    apply segment_appends; [done|lia]. }
  assert (appends inst ([reg_op base] ++ [imm_op scale; reg_op index; imm_op (s displacement); segment_view]) (Ok i')) as Ha
    by (exists i'; split; [done|by eapply extends_trans]).
  pose proof (answers_accept _ _ _ Ha ltac:(done)) as H. unfold accept in H |- *. cbn [mbind outcome_bind] in H.
  destruct (MCOperand_CreateImm0 i scale) as [j1| |]; cbn [mbind outcome_bind] in *; [|discriminate E..].
  destruct (MCOperand_CreateReg0 j1 index) as [j2| |]; cbn [mbind outcome_bind] in *; [|discriminate E..].
  destruct (MCOperand_CreateImm0 j2 _) as [j3| |]; cbn [mbind outcome_bind] in *; [|discriminate E..].
  rewrite E. exact H.
Qed.

Lemma address_answers inst base scale index :
  inst_ok inst → size inst + 5 ≤ MAX_OPERANDS →
  answers inst (Some (address_view base scale index))
    (mcInst ← MCOperand_CreateReg0 inst base; finish_memory mcInst scale index s).
Proof using fine.
  intros Hi Hlt. destruct (appends_reg inst base Hi ltac:(lia)) as (i & -> & He). by apply finish_memory_answers.
Qed.

Lemma translateRMMemory_answers inst : inst_ok inst → size inst + 5 ≤ MAX_OPERANDS → answers inst memory_view (translateRMMemory inst s).
Proof using fine.
  intros Hi Hlt. unfold translateRMMemory, memory_view, translate_sib.
  destruct (_ || _).
  - destruct (sib_base_reg s) as [base|]; cbn [mbind option_bind]; [|by apply answers_refuse].
    destruct (sib_index_reg s) as [index|]; cbn [mbind option_bind]; [by apply address_answers|].
    destruct (appends_reg inst base Hi ltac:(lia)) as (i & -> & (H1 & H2 & H3)%extends_one).
    exists true, i. split_conj; [done|done|lia|lia|done|done].
  - destruct (plain_base s) as [[base index]|]; cbn [mbind option_bind]; [by apply address_answers|by apply answers_refuse].
Qed.

Lemma translateRM_answers inst op : inst_ok inst → size inst + 5 ≤ MAX_OPERANDS → answers inst (rm_view op) (translateRM inst op s).
Proof using fine.
  intros Hi Hlt. unfold translateRM, rm_view. destruct (bool_decide _).
  - unfold translateRMRegister, table_reg. destruct (Z.ltb_spec (s eaBase) EA_REG_AL).
    { rewrite (proj2 (Z.ltb_lt _ _)) by lia. by apply answers_refuse. }
    rewrite (proj2 (Z.ltb_ge _ _)) by lia. destruct (all_regs !! _) as [r|]; cbn [mbind option_bind]; [|by apply answers_refuse].
    apply answers_accept; [apply appends_reg; [done|lia]|done].
  - destruct (bool_decide _); [by apply translateRMMemory_answers|by apply answers_refuse].
Qed.

Lemma reg_op_u32 r : reg_op (u32 r) = reg_op r.
Proof. unfold reg_op. by rewrite wrap_wrap by lia. Qed.

Lemma translateImmediate_appends inst n op : inst_ok inst → size inst + 5 ≤ MAX_OPERANDS →
  appends inst (immediate_view (Opcode inst) n op) (translateImmediate inst (if n =? 0 then s immediates0 else s immediates1) op s).
Proof using fine.
  intros Hi Hlt. unfold translateImmediate, immediate_view.
  set (v := extend_immediate inst _ op s). change (extend_immediate (mkInst _ _ _ _ _ _ _ _ _ _) _ op s) with v.
  rewrite <- (reg_op_u32 (X86_XMM0 + _)), <- (reg_op_u32 (X86_YMM0 + _)), <- (reg_op_u32 (X86_ZMM0 + _)).
  destruct (_ || _ || _); [apply appends_reg; [done|lia]|]. destruct (_ =? TYPE_XMM256); [apply appends_reg; [done|lia]|].
  destruct (_ =? TYPE_XMM512); [apply appends_reg; [done|lia]|]. set (w := if _ =? TYPE_REL8 then _ else _).
  destruct (_ && _).
  - apply (appends_bind inst [_] [_]); [apply appends_imm; [done|lia]|]. intros i (H1 & H2 & _)%extends_one. apply segment_appends; [done|lia].
  - apply (appends_bind inst [_] []); [apply appends_imm; [done|lia]|]. intros i Hi'. exists i. split; [done|].
    split; [by apply (ext_ok _ _ _ Hi')|by rewrite Z.add_0_r|by rewrite app_nil_r|done|done].
Qed.

Lemma immediate_view_length id n op : zlen (immediate_view id n op) ≤ 5.
Proof. unfold immediate_view. repeat case_match; done. Qed.

End operands.

(** The translation changes nothing but the number of immediates. *)
Definition same (s s' : insn) : Prop := ∀ f, f ≠ numImmediatesTranslated → s' f = s f.

Lemma operand_view_same s s' id n op : same s s' → operand_view s' id n op = operand_view s id n op.
Proof.
  intros H. unfold operand_view, rm_view, memory_view, address_view, immediate_view, index_view, sib_base_reg, sib_index_reg,
    plain_base, extend_immediate, segment_view.
  by rewrite ?(H segmentOverride), ?(H displacement), ?(H eaBase), ?(H sibScale), ?(H sibBase), ?(H sibIndex), ?(H eaDisplacement),
    ?(H mode), ?(H prefix3), ?(H immediates0), ?(H immediates1), ?(H displacementSize), ?(H isPrefix67), ?(H reg), ?(H writemask),
    ?(H opcodeRegister), ?(H modRM), ?(H vvvv) by discriminate.
Qed.

Lemma translatable_same row s s' : same s s' → translatable row s → translatable row s'.
Proof.
  intros H [H0 H1 H2 H3 H4 H5].
  split; rewrite ?(H immSize), ?(H segmentOverride), ?(H sibBase), ?(H sibIndex), ?(H reg), ?(H opcodeRegister), ?(H vvvv) by discriminate; done.
Qed.

(** One operand, or several, were translated: [o] is what they mean, [k]
    bounds the operands of the machine instruction, [n] immediates were used. *)
Definition translated (k n : Z) (o : option (list mc_operand)) (inst : MCInst) (s : insn) (m : outcome (bool * MCInst * insn)) : Prop :=
  ∃ r inst' s', m = Ok (r, inst', s') ∧ same s s' ∧ inst_ok inst' ∧ size inst ≤ size inst' ≤ size inst + k ∧ Opcode inst' = Opcode inst ∧
    match o with
    | Some l => r = false ∧ extends inst inst' l ∧ s' numImmediatesTranslated = n
    | None => r = true
    end.

Lemma answers_translated inst s o m :
  answers inst o m → translated 5 (s numImmediatesTranslated) o inst s ('(r, mc) ← m; Ok (r, mc, s)).
Proof.
  intros (r & i & -> & H1 & H2 & H3 & H4). exists r, i, s. split_conj; [done|done|done|lia|lia|done|].
  by destruct o as [l|]; [destruct H4|].
Qed.

Lemma translateOperand_plain fuel row s inst op :
  let n := s numImmediatesTranslated in
  translatable row s → op ∈ take 5 row → encoding op ≠ ENCODING_NONE → encoding op ≠ ENCODING_DUP →
  (is_immediate (encoding op) = true → 0 ≤ n < 2) → inst_ok inst → size inst + 5 ≤ MAX_OPERANDS →
  translated 5 (n + cbool (is_immediate (encoding op))) (operand_view s (Opcode inst) n op) inst s
    (translateOperand (S fuel) row inst op s).
Proof.
  intros n Hf Hin Hnone Hdup Himm Hi Hlt. cbn [translateOperand]. unfold operand_view. rewrite (proj2 (Z.eqb_neq _ _) Hnone).
  assert (∀ l m, is_immediate (encoding op) = false → appends inst l m → zlen l ≤ 5 →
    translated 5 (n + cbool (is_immediate (encoding op))) (Some l) inst s ('(r, mc) ← accept m; Ok (r, mc, s))) as Hacc.
  { intros l m Hno Hm Hl. rewrite Hno. cbn [cbool]. rewrite Z.add_0_r. by apply answers_translated, answers_accept. }
  assert (∀ o m, is_immediate (encoding op) = false → answers inst o m →
    translated 5 (n + cbool (is_immediate (encoding op))) o inst s ('(r, mc) ← m; Ok (r, mc, s))) as Hans.
  { intros o m Hno Hm. rewrite Hno. cbn [cbool]. rewrite Z.add_0_r. by apply answers_translated. }
  assert (translated 5 (n + cbool (is_immediate (encoding op))) None inst s (Ok (true, inst, s))) as Href
    by (exists true, inst, s; split_conj; [done|done|done|lia|lia|done|done]).
  destruct (Z.eqb_spec (encoding op) ENCODING_REG) as [E|_].
  { apply Hacc; [by rewrite E|apply register_appends; [by eapply tr_reg|done|lia]|done]. }
  destruct (Z.eqb_spec (encoding op) ENCODING_WRITEMASK) as [E|_].
  { apply Hans; [by rewrite E|]. unfold translateMaskRegister. rewrite Z.leb_antisym. destruct (_ <? 8); cbn [negb]; [|by apply answers_refuse].
    apply answers_accept; [apply appends_reg; [done|lia]|done]. }
  destruct (CASE_ENCODING_RM _) eqn:Erm.
  { apply Hans; [|by apply (translateRM_answers row)]. apply bool_decide_eq_false. intros H. revert Erm. in_cases H; rewrite H; discriminate. }
  destruct ((ENCODING_CB <=? _) && _); [exact Href|]. clear Hans.
  destruct (is_immediate (encoding op)) eqn:Eimm.
  { specialize (Himm eq_refl). cbn [cbool].
    assert (immediate_of s = Ok (if n =? 0 then s immediates0 else s immediates1)) as ->.
    { unfold immediate_of. fold n. destruct (Z.eqb_spec n 0); [done|]. by rewrite (proj2 (Z.eqb_eq n 1)) by lia. }
    cbn [mbind outcome_bind]. set (s1 := set s _ _).
    assert (same s s1) as Hsame by (intros f Hne; by apply iset_ne).
    destruct (translateImmediate_appends row s1 (translatable_same _ _ _ Hsame Hf) inst n op Hi Hlt) as (i & E & He).
    change (s1 immediates0) with (s immediates0) in E. change (s1 immediates1) with (s immediates1) in E. rewrite E.
    cbn [mbind outcome_bind]. pose proof (immediate_view_length s1 (Opcode inst) n op). pose proof (zlen_nonneg (immediate_view s1 (Opcode inst) n op)).
    pose proof He as [He1 He2 _ He3]. exists false, i, s1. split_conj; [done|done|done|lia|lia|done|done|exact He|].
    unfold s1. rewrite iset_eq. fold n. apply wrap_small. unfold in_u. lia. }
  cbn [cbool] in *.
  destruct (Z.eqb_spec (encoding op) ENCODING_SI) as [E|_].
  { apply Hacc; [done| |done]. unfold translateSrcIndex. apply (appends_bind inst [_] [_]); [apply appends_reg; [done|lia]|].
    intros i (H1 & H2 & _)%extends_one. apply (segment_appends row); [done|done|lia]. }
  destruct (Z.eqb_spec (encoding op) ENCODING_DI) as [E|_].
  { apply Hacc; [done| |done]. unfold translateDstIndex. apply appends_reg; [done|lia]. }
  destruct (is_opcode_reg (encoding op)) eqn:Eop.
  { apply Hacc; [done| |done]. apply register_appends; [by eapply tr_opcode|done|lia]. }
  destruct (Z.eqb_spec (encoding op) ENCODING_FP) as [E|_].
  { apply Hacc; [done| |done]. unfold translateFPRegister. apply appends_reg; [done|lia]. }
  destruct (Z.eqb_spec (encoding op) ENCODING_VVVV) as [E|_].
  { apply Hacc; [done| |done]. apply register_appends; [by eapply tr_vvvv|done|lia]. }
  rewrite (proj2 (Z.eqb_neq _ _) Hdup). exact Href.
Qed.

Lemma translateOperand_dup fuel row inst op s : encoding op = ENCODING_DUP →
  translateOperand (S fuel) row inst op s = (t ← aget row (type op - TYPE_DUP0); translateOperand fuel row inst t s).
Proof. destruct op as [e ty]. cbn [encoding]. intros ->. reflexivity. Qed.

Lemma dup_target row op : dup_fine row op = true → encoding op = ENCODING_DUP →
  ∃ t, aget row (type op - TYPE_DUP0) = Ok t ∧ t ∈ take 5 row ∧ resolve row op = t ∧
    encoding t ≠ ENCODING_NONE ∧ encoding t ≠ ENCODING_DUP ∧ is_immediate (encoding t) = false.
Proof.
  intros Hd E. unfold dup_fine in Hd. rewrite E in Hd. change (negb _ || ?b) with b in Hd.
  unfold table_reg in Hd. set (i := type op - TYPE_DUP0) in *. destruct (Z.ltb_spec i 0) as [?|Hi]; [discriminate Hd|].
  destruct ([0; 1; 2; 3; 4] !! Z.to_nat i) as [j|] eqn:Ej; [|discriminate Hd]. cbn [mbind option_bind] in Hd.
  assert (j = i ∧ i < 5) as [-> Hi5].
  { assert (i < 5) by (apply lookup_lt_Some in Ej; cbn in Ej; lia).
    assert (i = 0 ∨ i = 1 ∨ i = 2 ∨ i = 3 ∨ i = 4) as [Hx|[Hx|[Hx|[Hx|Hx]]]] by lia; rewrite Hx in Ej; injection Ej as <-; lia. }
  destruct (row !! Z.to_nat i) as [t|] eqn:Et; [|discriminate Hd]. exists t.
  split_conj; [by apply aget_Ok_inv| | |..].
  - apply list_elem_of_lookup. exists (Z.to_nat i). by rewrite lookup_take_lt by lia.
  - unfold resolve. rewrite E. change (ENCODING_DUP =? ENCODING_DUP) with true. cbn iota. fold i. by rewrite Et.
  - intros Hx. rewrite Hx in Hd. discriminate Hd.
  - intros Hx. rewrite Hx in Hd. discriminate Hd.
  - apply bool_decide_eq_false. intros H. revert Hd. in_cases H; rewrite H; discriminate.
Qed.

(** Any operand of a row. *)
Lemma translateOperand_views fuel row s inst op :
  let n := s numImmediatesTranslated in
  translatable row s → dup_fine row op = true → op ∈ take 5 row → encoding op ≠ ENCODING_NONE →
  (is_immediate (encoding op) = true → 0 ≤ n < 2) → inst_ok inst → size inst + 5 ≤ MAX_OPERANDS →
  translated 5 (n + cbool (is_immediate (encoding op))) (operand_view s (Opcode inst) n (resolve row op)) inst s
    (translateOperand (S (S fuel)) row inst op s).
Proof.
  intros n Hf Hd Hin Hnone Himm Hi Hlt. destruct (Z.eq_dec (encoding op) ENCODING_DUP) as [E|E].
  - rewrite translateOperand_dup by done. destruct (dup_target row op Hd E) as (t & -> & Ht & -> & H1 & H2 & H3). rewrite E.
    pose proof (translateOperand_plain fuel row s inst t Hf Ht H1 H2) as H. rewrite H3 in H. by apply H.
  - unfold resolve. rewrite (proj2 (Z.eqb_neq _ _) E). by apply translateOperand_plain.
Qed.

Lemma translated_refl s inst : inst_ok inst → translated 0 (s numImmediatesTranslated) (Some []) inst s (Ok (false, inst, s)).
Proof.
  intros Hi. exists false, inst, s. split_conj; [done|done|done|lia|lia|done|done| |done].
  split; [done|cbn; unfold zlen; cbn; lia|by rewrite app_nil_r|done|done].
Qed.

(** One translation after another. *)
Lemma translated_bind k1 k2 n n' o1 o2 inst s m k :
  translated k1 n o1 inst s m →
  0 ≤ k2 →
  (∀ i s', same s s' → s' numImmediatesTranslated = n → inst_ok i → size i ≤ size inst + k1 → Opcode i = Opcode inst →
     translated k2 n' o2 i s' (k i s')) →
  translated (k1 + k2) n' (l ← o1; l' ← o2; Some (l ++ l')) inst s
    ('(r, i, s) ← m; if r : bool then Ok (true, i, s) else k i s).
Proof.
  intros (r & i & s' & -> & Hs & Hi & Hsz & Hop & Hr) Hk2 Hk. destruct o1 as [l|]; cbn [mbind outcome_bind option_bind].
  - destruct Hr as (-> & He & Hn). destruct (Hk i s' Hs Hn Hi ltac:(lia) Hop) as (r' & i' & s'' & E & Hs' & Hi' & Hsz' & Hop' & Hr').
    exists r', i', s''. split_conj; [exact E| |done|lia|lia|congruence|].
    + intros f Hf. by rewrite Hs', Hs.
    + destruct o2 as [l'|]; cbn [mbind option_bind]; [|done]. destruct Hr' as (-> & He' & Hn'). split_conj; [done| |done].
      by eapply extends_trans.
  - subst r. exists true, i, s'. split_conj; [done|done|done|lia|lia|done|done].
Qed.

Lemma operand_views_same row s s' id n ops : same s s' → operand_views row s' id n ops = operand_views row s id n ops.
Proof.
  intros H. revert n. induction ops as [|op ops IH]; intros n; cbn [operand_views]; [done|].
  by rewrite (operand_view_same s s' id n (resolve row op) H), IH.
Qed.

Lemma imm_count_cons op ops : imm_count (op :: ops) = cbool (is_immediate (encoding op)) + imm_count ops.
Proof.
  unfold imm_count. rewrite filter_cons. destruct (is_immediate (encoding op)); cbn [cbool]; [|done].
  rewrite decide_True by done. unfold zlen. cbn [length]. lia.
Qed.

Lemma imm_count_nonneg ops : 0 ≤ imm_count ops.
Proof. apply zlen_nonneg. Qed.

Lemma translate_loop_views row k : zlen row = 6 → forallb (dup_fine row) row = true → ∀ i s inst,
  let n := s numImmediatesTranslated in
  let ops := take k (drop (Z.to_nat i) row) in
  0 ≤ i → i + Z.of_nat k ≤ 5 → translatable row s → 0 ≤ n → n + imm_count ops ≤ 2 → inst_ok inst →
  size inst + 5 * Z.of_nat k ≤ MAX_OPERANDS →
  translated (5 * Z.of_nat k) (n + imm_count ops) (operand_views row s (Opcode inst) n ops) inst s (translate_loop k i row inst s).
Proof.
  intros Hl Hd. induction k as [|k IH]; intros i s inst n ops Hi Hk Hf Hn Hc Hok Hlt; cbn [translate_loop].
  { change (imm_count ops) with 0. rewrite Z.add_0_r. by apply translated_refl. }
  destruct (aget_is_Ok row i) as [op Hop]; [lia|]. rewrite Hop. cbn [mbind outcome_bind].
  pose proof Hop as [_ Hop']%aget_Ok_inv. subst ops. rewrite (drop_S _ _ _ Hop') in *. cbn [take firstn operand_views] in *.
  rewrite imm_count_cons in *. replace (S (Z.to_nat i)) with (Z.to_nat (i + 1)) in * by lia.
  pose proof (imm_count_nonneg (take k (drop (Z.to_nat (i + 1)) row))) as Hc0.
  assert (op ∈ take 5 row) as Hin by (apply list_elem_of_lookup; exists (Z.to_nat i); by rewrite lookup_take_lt by lia).
  assert (dup_fine row op = true) as Hdf.
  { rewrite forallb_forall in Hd. apply Hd, list_elem_of_In, list_elem_of_lookup. by exists (Z.to_nat i). }
  replace (5 * Z.of_nat (S k)) with (5 + 5 * Z.of_nat k) by lia.
  eapply (translated_bind 5 _ (n + cbool (is_immediate (encoding op)))).
  - destruct (Z.eqb_spec (encoding op) ENCODING_NONE) as [E|E]; cbn [negb].
    + assert (operand_view s (Opcode inst) n (resolve row op) = Some []) as ->.
      { unfold resolve. rewrite E. change (ENCODING_NONE =? ENCODING_DUP) with false. cbn iota. unfold operand_view. by rewrite E. }
      rewrite E. change (cbool (is_immediate ENCODING_NONE)) with 0. rewrite Z.add_0_r.
      destruct (translated_refl s inst Hok) as (r & i' & s' & H1 & H2 & H3 & H4 & H5 & H6).
      exists r, i', s'. split_conj; [done|done|done|lia|lia|done|apply H6..].
    + apply translateOperand_views; [done..| |done|lia]. intros Ei. rewrite Ei in Hc. cbn [cbool] in Hc. fold n. lia.
  - lia.
  - intros i' s' Hs' Hn' Hok' Hsz' Hopc'. rewrite <- Hopc', <- (operand_views_same row s s') by done. rewrite <- Hn', Z.add_assoc, <- Hn'.
    apply (IH (i + 1) s' i'); [lia|lia|by eapply translatable_same| | |done|lia]; rewrite Hn'; [destruct (is_immediate _); cbn; lia|lia].
Qed.

(** ** The whole back end *)

(** The machine instruction of a decoded one. *)
Lemma translateInstruction_views s inst row :
  aget x86OperandSets (s operands) = Ok row → translatable row s → inst_ok inst → size inst = 0 →
  ∃ r inst' s', translateInstruction inst s = Ok (r, inst', s') ∧ same s s' ∧ inst_ok inst' ∧ size inst' ≤ 25 ∧
    Opcode inst' = s instructionID ∧
    match operand_views row s (s instructionID) 0 (take 5 row) with
    | Some l => r = false ∧ views inst' = Some <$> l ∧ OpcodePub inst' = OpcodePub inst
    | None => r = true
    end.
Proof.
  intros Erow Hf Hi H0. unfold translateInstruction. set (s0 := set s numImmediatesTranslated 0).
  assert (same s s0) as Hs0 by (intros f Hne; by apply iset_ne).
  change (s0 operands) with (s operands). rewrite Erow. cbn [mbind outcome_bind].
  set (inst0 := MCInst_setOpcode inst (s instructionID)).
  assert (inst_ok inst0) as Hi0 by (destruct Hi; by split).
  destruct (row_of _ _ Erow) as (Hl & _ & Hd & Hc).
  pose proof (translate_loop_views row (Z.to_nat X86_MAX_OPERANDS) Hl Hd 0 s0 inst0) as H.
  cbv zeta in H. change (Z.to_nat X86_MAX_OPERANDS) with 5%nat in *. change (drop (Z.to_nat 0) row) with row in H.
  change (s0 numImmediatesTranslated) with 0 in H. change (Opcode inst0) with (s instructionID) in H.
  rewrite (operand_views_same row s s0) in H by done.
  destruct H as (r & i & s' & -> & Hs' & Hi' & Hsz & Hop & Hr); [lia|lia|by eapply translatable_same|lia|lia|done|cbn; rewrite H0; unfold MAX_OPERANDS; lia|].
  exists r, i, s'. split_conj; [done| |done| |done|].
  - intros f Hne. by rewrite Hs', Hs0.
  - change (size inst0) with (size inst) in Hsz. lia.
  - destruct (operand_views _ _ _ _ _) as [l|]; [|done]. destruct Hr as (-> & [_ _ Hv _ Hpub] & _). split; [done|]. split; [|done]. rewrite Hv.
    assert (views inst0 = []) as ->; [|done]. unfold views, McInst.operands. cbn. by rewrite H0.
Qed.

Lemma update_pub_insn_ok row d s : translatable row s → ∃ d', update_pub_insn d s = Ok d' ∧
  x_disp d' = s displacement ∧ x_modrm d' = s orgModRM ∧ x_sib_base d' = zget sib_base_map (s sibBase) ∧
  x_sib_index d' = zget sib_index_map (s sibIndex) ∧ x_op_count d' = x_op_count d ∧ x_operands d' = x_operands d.
Proof.
  intros [_ _ [H1 H2] _ _ _]. unfold update_pub_insn, x86_map_sib_index, x86_map_sib_base.
  rewrite (aget_zget sib_index_map) by (change (zlen sib_index_map) with 145; lia).
  rewrite (aget_zget sib_base_map) by (change (zlen sib_base_map) with 33; lia). cbn [mbind outcome_bind]. eexists. split; [done|]. done.
Qed.

(** What the back end is to make of the bytes: the instruction, its length and
    its operands, or nothing. *)
Definition disassembly (junk : insn) (md : Z) (code : list Z) (address : Z) : option (Z * Z * list mc_operand) :=
  match decodeInstruction code address address (decode_mode md) (clear_insn junk) with
  | Ok (s, Some _) =>
      match aget x86OperandSets (s operands) with
      | Ok row =>
          if invalid_in_64 md (s instructionID) then None
          else l ← operand_views row s (s instructionID) 0 (take 5 row); Some (s instructionID, s length_, l)
      | _ => None
      end
  | _ => None
  end.

Lemma decode_mode_cases md : decode_mode md = MODE_16BIT ∨ decode_mode md = MODE_32BIT ∨ decode_mode md = MODE_64BIT.
Proof. unfold decode_mode. repeat case_match; auto. Qed.

(** A decoded instruction and the row of its operands. *)
Record decoded (s : insn) (row : list OperandSpecifier) : Prop := {
  dc_known : s instructionID ≠ 0 ∧ s instructionID ∈ modRMTable;
  dc_operands : spec_operands (s instructionID) = Ok (s operands);
  dc_row : aget x86OperandSets (s operands) = Ok row;
  dc_fine : translatable row s;
  dc_disp : - 2 ^ 31 ≤ s displacement < 2 ^ 31
}.

Lemma decoded_facts junk md code address s :
  bytes_ok code → zlen code < 2 ^ 64 → in_u 64 address →
  decodeInstruction code address address (decode_mode md) (clear_insn junk) = Ok (s, Some tt) →
  1 ≤ s length_ ≤ 15 ∧ s length_ ≤ zlen code ∧ ∃ row, decoded s row.
Proof.
  intros Hb Hsz Ha E.
  destruct (decodeInstruction_ranges code address (decode_mode md) junk Hsz Ha (decode_mode_cases md) _ _ E ltac:(discriminate))
    as (Hid & row & Erow & Hf).
  destruct (wp_run _ _ _ (decodeInstruction_wp code address (decode_mode md) junk Hb Hsz Ha (decode_mode_cases md))) as (s' & r & E' & _ & Hr).
  rewrite E in E'. injection E' as <- <-. destruct (Hr eq_refl) as [H1 H2 H3 H4 [H5 _] _ _ H6].
  apply at_range in H1. split_conj; [lia..|]. rewrite H4 in Hid, H5. exists row. split; [|done..].
  split; [lia|]. destruct Hid as [?|?]; [lia|done].
Qed.

(** The parts of an accepted machine instruction that the printer reads,
    besides its operands, and the details. *)
Definition ready_to_print (s : insn) (instr instr' : MCInst) (want : Z) (d : option cs_x86) : Prop :=
  OpcodePub instr' = OpcodePub instr ∧ imm_size instr' = s immSize ∧ x86_prefix instr' = insn_prefixes s ∧
  (want ≠ 0 → ∃ d', d = Some d' ∧ x_op_count d' = 0 ∧ x_operands d' = replicate 8 op0).

Lemma X86_getInstruction_spec (junk : insn) (md want : Z) (code : list Z) (instr : MCInst) (detail : option cs_x86) (address : Z) :
  bytes_ok code → zlen code < 2 ^ 64 → in_u 64 address →
  inst_ok instr → size instr = 0 → (want ≠ 0 → is_Some detail) →
  ∃ res instr' detail' sz,
    X86_getInstruction junk md want code instr detail address = Ok (res, instr', detail', sz) ∧
    inst_ok instr' ∧ size instr' ≤ 25 ∧
    match disassembly junk md code address with
    | Some (id, n, l) => res = true ∧ Opcode instr' = id ∧ sz = n ∧ 1 ≤ n ≤ 15 ∧ n ≤ zlen code ∧ views instr' = Some <$> l ∧
        ∃ s row, decodeInstruction code address address (decode_mode md) (clear_insn junk) = Ok (s, Some tt) ∧
          decoded s row ∧ id = s instructionID ∧ operand_views row s id 0 (take 5 row) = Some l ∧
          ready_to_print s instr instr' want detail'
    | None => res = false
    end.
Proof.
  intros Hb Hsz Ha Hi H0 Hw. unfold X86_getInstruction, disassembly.
  destruct (wp_run _ _ _ (decodeInstruction_wp code address (decode_mode md) junk Hb Hsz Ha (decode_mode_cases md))) as (s & r & E & _).
  rewrite E. cbn [mbind outcome_bind]. destruct r as [[]|].
  2: { do 4 eexists. split_conj; [done|done|lia|done]. }
  destruct (decoded_facts _ _ _ _ _ Hb Hsz Ha E) as (Hlen & Hle & row & Hdec). pose proof Hdec as [_ _ Erow Hf _].
  destruct (translateInstruction_views s instr row Erow Hf Hi H0) as (r & mc & s' & -> & Hs' & Hmc & Hmsz & Hop & Hr).
  rewrite Erow. cbn [mbind outcome_bind]. rewrite Hop.
  assert (u16 (s length_) = s length_) as -> by (apply wrap_small; unfold in_u; lia).
  destruct (operand_views _ _ _ _ _) as [l|] eqn:El; [destruct Hr as (-> & Hv & Hpub)|subst r]; cbn [orb].
  2: { do 4 eexists. split_conj; [done|done|done|]. by destruct (invalid_in_64 md (s instructionID)). }
  destruct (invalid_in_64 md (s instructionID)).
  { do 4 eexists. by split_conj. }
  cbn [mbind option_bind].
  assert (∀ d : option cs_x86, (want ≠ 0 → ∃ d', d = Some d' ∧ x_op_count d' = 0 ∧ x_operands d' = replicate 8 op0) →
    ∃ res instr' detail' sz, Ok (true, set_x86 mc s', d, s length_) = Ok (res, instr', detail', sz) ∧
    inst_ok instr' ∧ size instr' ≤ 25 ∧ (res = true ∧ Opcode instr' = s instructionID ∧ sz = s length_ ∧
      1 ≤ s length_ ≤ 15 ∧ s length_ ≤ zlen code ∧ views instr' = Some <$> l ∧
      ∃ s0 row, Ok (s, Some tt) = Ok (s0, Some tt) ∧ decoded s0 row ∧ s instructionID = s0 instructionID ∧
        operand_views row s0 (s instructionID) 0 (take 5 row) = Some l ∧ ready_to_print s0 instr instr' want detail')) as Hend.
  { intros d Hd. do 4 eexists. split; [done|]. destruct Hmc as [H1 H2 H3]. split; [by split|]. split_conj; try done; try lia.
    - exists s, row. split_conj; [done..|]. unfold ready_to_print. split_conj; [done| | |done].
      + cbn [imm_size set_x86]. by apply Hs'.
      + cbn [x86_prefix set_x86]. unfold insn_prefixes. by rewrite !Hs' by discriminate. }
  destruct (ctrue want) eqn:Ew.
  2: { apply ctrue_false in Ew. by apply Hend. }
  destruct Hw as [d ->]; [intros ->; discriminate Ew|]. cbn [fmap option_fmap option_map].
  destruct (update_pub_insn_ok row (clear_detail d) s') as (d' & -> & _ & _ & _ & _ & Hc & Hops); [by eapply translatable_same|].
  cbn [mbind outcome_bind]. apply Hend. intros _. by exists d'.
Qed.

(** C5: The x86 back end on any bytes, in any mode and whatever the stack
    holds, given an empty machine instruction and, if details are wanted, a
    place for them: it returns, no access is out of bounds, and at most 25 of
    the 48 operands are used. It accepts exactly if the decoder accepts, every
    operand can be translated and the instruction is not one that 64-bit mode
    lacks; the machine instruction then has the number and the operands of
    the decoded one, in order, and the size is its length, between 1 and 15
    and within the bytes given. *)
Theorem X86_getInstruction_correct (junk : insn) (md want : Z) (code : list Z) (instr : MCInst) (detail : option cs_x86) (address : Z) :
  bytes_ok code → zlen code < 2 ^ 64 → in_u 64 address →
  inst_ok instr → size instr = 0 → (want ≠ 0 → is_Some detail) →
  ∃ res instr' detail' sz,
    X86_getInstruction junk md want code instr detail address = Ok (res, instr', detail', sz) ∧
    inst_ok instr' ∧ size instr' ≤ 25 ∧
    match disassembly junk md code address with
    | Some (id, n, l) => res = true ∧ Opcode instr' = id ∧ sz = n ∧ 1 ≤ n ≤ 15 ∧ n ≤ zlen code ∧ views instr' = Some <$> l
    | None => res = false
    end.
Proof.
  intros Hb Hsz Ha Hi H0 Hw.
  destruct (X86_getInstruction_spec junk md want code instr detail address Hb Hsz Ha Hi H0 Hw) as (res & i & d & n & E & H1 & H2 & H).
  exists res, i, d, n. split_conj; [done..|]. destruct (disassembly _ _ _ _) as [[[id k] l]|]; [|done].
  by destruct H as (? & ? & ? & ? & ? & ? & _).
Qed.

(** An empty machine instruction and the details of one. *)
Definition empty_inst : MCInst := mkInst 0 0 false 0 0 (replicate 48 (mkOp 0 0)) 0 [] 0 false.

(** [mov rax, [rsp+16]]: RAX, and base RSP, scale 1, no index, displacement
    16, no segment *)
Lemma X86_getInstruction_correct_witness :
  ∃ instr' detail', X86_getInstruction junk0 Cs.CS_MODE_64 1 mov_code empty_inst (Some Cs.empty_x86) 0x1000 = Ok (true, instr', detail', 5) ∧
    Opcode instr' = 835 ∧ views instr' = Some <$> [MReg 35; MReg 44; MImm 1; MReg 0; MImm 16; MReg 0].
Proof.
  destruct (X86_getInstruction_correct junk0 Cs.CS_MODE_64 1 mov_code empty_inst (Some Cs.empty_x86) 0x1000) as (res & i & d & n & E & _ & _ & H).
  - exact mov_bytes.
  - reflexivity.
  - unfold in_u; lia.
  - split; [reflexivity|unfold MAX_OPERANDS; cbn; lia|]. apply Forall_replicate. unfold in_u; cbn; lia.
  - reflexivity.
  - by eexists.
  - assert (disassembly junk0 Cs.CS_MODE_64 mov_code 0x1000 =
      Some (835, 5, [MReg 35; MReg 44; MImm 1; MReg 0; MImm 16; MReg 0])) as Ed by (vm_compute; reflexivity).
    rewrite Ed in H. destruct H as (-> & H1 & -> & _ & _ & H2). exists i, d. split; [exact E|]. split; [exact H1|exact H2].
Defined.

End X86Disasm.
