(* ===== verification/X86Mapping.v ===== *)
(** * The x86 tables of public numbers and sizes
    ([Lilu.kext/capstone/arch/X86/X86Mapping.c])

    The table that maps the decoder's instruction numbers to the public ones,
    the sizes of registers and immediates, and the registers the printed text
    of some instructions contains, in the configuration the kernel extension
    is built in ([CAPSTONE_DIET], [CAPSTONE_X86_REDUCE]); with the searches in
    them.  The handle's lookup cache is a block of the heap: [fresh] is what a
    newly allocated block holds, and since the cache is written only when it is
    built, its contents are a function of the block. *)

From Stdlib Require Import ZArith Lia.
From stdpp Require Import gmap.
From S2P Require Import Prelude CsUtils CsCore CsDisasm X86Tables.

Module X86Mapping.

Import Utils Cs CsDisasm.
Open Scope c_scope.

(** ** Tables *)

(** [arch_masks]: the low bits of an operand of the given size *)
Definition arch_masks : list Z := [0; 0xff; 0xffff; 0; 0xffffffff; 0; 0; 0; 0xffffffffffffffff].

(** [insns], the reduced table: the identifier of the decoder and the public one *)
Definition insn_ids : list (Z * Z) :=
  [
    (0, 0); (20, 1); (21, 2); (22, 3); (23, 4); (28, 6); (29, 6); (30, 6); (31, 6); (32, 6); (33, 6); (34, 6);
    (35, 6); (36, 6); (37, 6); (38, 6); (39, 6); (40, 6); (41, 6); (42, 6); (43, 6); (44, 6); (45, 6); (46, 6);
    (47, 6); (48, 6); (49, 6); (50, 6); (51, 6); (52, 6); (53, 6); (54, 6); (55, 6); (56, 6); (57, 6); (58, 6);
    (59, 6); (60, 6); (61, 6); (62, 7); (63, 7); (64, 7); (65, 7); (66, 8); (67, 8); (68, 8); (69, 8); (70, 8);
    (71, 8); (74, 8); (75, 8); (77, 8); (78, 8); (79, 8); (80, 8); (81, 8); (82, 8); (83, 8); (86, 8); (87, 8);
    (89, 8); (90, 8); (91, 8); (92, 8); (93, 8); (94, 8); (96, 8); (98, 8); (99, 8); (101, 8); (102, 8); (103, 8);
    (104, 8); (105, 8); (106, 8); (107, 8); (108, 8); (109, 8); (114, 18); (115, 18); (116, 18); (117, 18); (118, 25);
    (119, 25); (120, 25); (121, 25); (122, 25); (123, 25); (124, 25); (125, 25); (126, 25); (127, 25); (128, 25);
    (129, 25); (130, 25); (131, 25); (132, 25); (133, 25); (134, 25); (135, 25); (136, 25); (137, 25); (138, 25);
    (139, 25); (140, 25); (141, 25); (142, 25); (143, 25); (144, 25); (145, 25); (146, 25); (147, 25); (148, 25);
    (149, 25); (150, 25); (151, 25); (152, 25); (153, 26); (154, 26); (155, 26); (156, 26); (157, 31); (158, 31);
    (159, 32); (160, 32); (161, 32); (162, 32); (163, 32); (164, 32); (165, 32); (166, 32); (167, 33); (168, 33);
    (169, 33); (170, 33); (171, 34); (172, 34); (173, 34); (174, 34); (175, 35); (176, 35); (177, 35); (178, 35);
    (179, 36); (180, 36); (181, 36); (182, 36); (183, 37); (184, 37); (185, 37); (186, 37); (187, 42); (188, 42);
    (189, 42); (190, 42); (191, 43); (192, 43); (193, 43); (194, 43); (195, 44); (196, 44); (197, 44); (198, 44);
    (199, 45); (200, 45); (201, 45); (202, 45); (203, 46); (204, 46); (205, 46); (206, 46); (207, 47); (208, 47);
    (209, 48); (210, 48); (211, 48); (212, 48); (213, 48); (214, 48); (215, 49); (216, 49); (217, 49); (218, 49);
    (219, 49); (220, 49); (221, 50); (222, 50); (223, 51); (224, 51); (225, 51); (226, 51); (227, 51); (228, 51);
    (229, 51); (230, 51); (231, 51); (232, 51); (233, 51); (234, 51); (235, 52); (236, 52); (237, 52); (238, 52);
    (239, 52); (240, 52); (241, 52); (242, 52); (243, 52); (244, 52); (245, 52); (246, 52); (247, 53); (248, 53);
    (249, 53); (250, 53); (251, 53); (252, 53); (253, 53); (254, 53); (255, 53); (256, 53); (257, 53); (258, 53);
    (259, 54); (260, 54); (261, 54); (262, 54); (263, 54); (264, 54); (265, 54); (266, 54); (267, 54); (268, 54);
    (269, 54); (270, 54); (271, 55); (272, 55); (273, 55); (274, 55); (275, 56); (276, 56); (277, 56); (278, 56);
    (279, 56); (280, 56); (281, 56); (282, 56); (283, 56); (284, 57); (285, 58); (286, 59); (287, 61); (288, 62);
    (289, 63); (290, 65); (291, 66); (292, 67); (293, 68); (294, 69); (295, 69); (296, 69); (297, 69); (298, 69);
    (299, 69); (300, 70); (301, 70); (302, 70); (303, 70); (304, 70); (305, 70); (306, 71); (307, 71); (308, 71);
    (309, 71); (310, 71); (311, 71); (312, 72); (313, 72); (314, 72); (315, 72); (316, 72); (317, 72); (318, 75);
    (319, 75); (320, 75); (321, 75); (322, 75); (323, 75); (324, 77); (325, 77); (326, 77); (327, 77); (328, 77);
    (329, 77); (330, 78); (331, 78); (332, 78); (333, 78); (334, 78); (335, 78); (336, 79); (337, 79); (338, 79);
    (339, 79); (340, 79); (341, 79); (342, 80); (343, 80); (344, 80); (345, 80); (346, 80); (347, 80); (348, 83);
    (349, 83); (350, 83); (351, 83); (352, 83); (353, 83); (354, 85); (355, 85); (356, 85); (357, 85); (358, 85);
    (359, 85); (360, 86); (361, 86); (362, 86); (363, 86); (364, 86); (365, 86); (366, 88); (367, 88); (368, 88);
    (369, 88); (370, 88); (371, 88); (372, 89); (373, 89); (374, 89); (375, 89); (376, 89); (377, 89); (378, 90);
    (379, 90); (380, 90); (381, 90); (382, 90); (383, 90); (384, 92); (385, 92); (386, 92); (387, 92); (388, 92);
    (389, 92); (407, 93); (408, 93); (409, 93); (410, 93); (411, 93); (412, 93); (413, 93); (414, 93); (415, 93);
    (416, 93); (417, 93); (418, 93); (419, 93); (420, 93); (421, 93); (422, 93); (423, 93); (424, 93); (425, 93);
    (426, 93); (427, 93); (428, 93); (429, 93); (430, 93); (431, 93); (432, 93); (433, 93); (434, 93); (435, 93);
    (436, 93); (437, 93); (438, 93); (439, 93); (440, 93); (441, 96); (442, 97); (443, 98); (444, 100); (445, 101);
    (446, 102); (447, 102); (448, 102); (449, 102); (450, 102); (451, 102); (452, 103); (453, 102); (454, 102);
    (455, 111); (456, 111); (457, 112); (458, 130); (459, 131); (460, 132); (461, 133); (462, 134); (463, 135);
    (464, 135); (465, 135); (466, 135); (467, 135); (468, 135); (469, 135); (470, 135); (471, 135); (472, 135);
    (473, 135); (474, 135); (475, 135); (476, 135); (477, 136); (478, 136); (479, 136); (480, 136); (481, 136);
    (482, 136); (483, 136); (484, 136); (492, 152); (493, 156); (494, 156); (495, 156); (496, 156); (497, 156);
    (498, 157); (499, 157); (500, 157); (501, 157); (502, 157); (503, 187); (504, 206); (505, 209); (506, 212);
    (507, 212); (508, 212); (509, 212); (510, 212); (511, 212); (512, 212); (513, 212); (514, 214); (515, 214);
    (516, 214); (517, 214); (518, 214); (519, 214); (520, 214); (521, 214); (522, 214); (523, 214); (524, 214);
    (525, 214); (526, 214); (527, 214); (528, 214); (529, 214); (530, 214); (531, 214); (532, 214); (533, 214);
    (534, 214); (535, 214); (536, 214); (537, 214); (538, 214); (539, 214); (540, 215); (541, 215); (542, 215);
    (543, 215); (544, 215); (545, 215); (546, 216); (547, 216); (548, 216); (549, 216); (550, 216); (551, 216);
    (552, 216); (553, 216); (554, 216); (555, 216); (556, 216); (557, 216); (558, 216); (559, 216); (560, 217);
    (561, 220); (562, 221); (563, 222); (564, 223); (565, 224); (566, 225); (567, 226); (568, 227); (569, 227);
    (570, 228); (571, 229); (572, 229); (573, 230); (574, 230); (575, 231); (576, 231); (577, 232); (578, 233);
    (579, 234); (581, 255); (582, 255); (583, 255); (584, 256); (585, 256); (586, 256); (587, 257); (588, 257);
    (589, 257); (590, 258); (591, 258); (592, 258); (593, 259); (594, 260); (595, 260); (596, 261); (597, 261);
    (598, 261); (599, 262); (600, 262); (601, 262); (602, 263); (603, 263); (604, 263); (605, 264); (606, 264);
    (607, 264); (608, 265); (609, 265); (610, 265); (611, 266); (612, 266); (613, 266); (614, 266); (615, 266);
    (616, 266); (617, 266); (618, 266); (619, 266); (620, 267); (621, 267); (622, 267); (623, 268); (624, 268);
    (625, 268); (626, 269); (627, 269); (628, 269); (629, 270); (630, 270); (631, 270); (632, 271); (633, 271);
    (634, 271); (635, 272); (636, 272); (637, 272); (638, 273); (639, 274); (640, 274); (641, 274); (642, 307);
    (643, 308); (644, 308); (645, 308); (646, 308); (647, 308); (648, 308); (649, 102); (650, 101); (651, 102);
    (652, 102); (653, 102); (654, 103); (655, 311); (656, 311); (657, 315); (658, 315); (659, 315); (660, 315);
    (661, 316); (662, 316); (663, 317); (664, 317); (665, 319); (666, 319); (667, 319); (668, 320); (669, 320);
    (670, 320); (671, 321); (672, 321); (673, 321); (674, 322); (675, 322); (676, 322); (677, 323); (678, 323);
    (679, 324); (680, 324); (681, 8); (682, 8); (683, 8); (684, 8); (685, 8); (686, 8); (687, 8); (688, 8); (689, 8);
    (690, 8); (691, 8); (692, 25); (693, 25); (694, 25); (695, 25); (696, 25); (697, 25); (698, 25); (699, 25);
    (700, 25); (701, 25); (702, 25); (703, 135); (704, 135); (705, 135); (706, 135); (707, 216); (708, 216);
    (709, 216); (710, 216); (711, 325); (712, 325); (713, 325); (714, 325); (715, 325); (716, 325); (717, 325);
    (718, 325); (719, 325); (720, 325); (721, 325); (723, 326); (724, 326); (725, 326); (726, 326); (727, 326);
    (728, 326); (729, 326); (730, 326); (731, 326); (732, 326); (733, 326); (734, 327); (735, 327); (736, 327);
    (737, 327); (738, 327); (739, 327); (740, 327); (741, 327); (742, 327); (743, 327); (744, 327); (745, 328);
    (746, 329); (747, 330); (748, 331); (749, 332); (750, 333); (751, 334); (752, 335); (753, 336); (754, 335);
    (755, 335); (756, 336); (757, 335); (758, 337); (759, 337); (760, 337); (761, 337); (762, 337); (763, 337);
    (764, 338); (765, 338); (766, 338); (767, 339); (768, 339); (769, 340); (770, 340); (771, 340); (772, 340);
    (773, 341); (774, 341); (775, 341); (776, 341); (777, 341); (778, 341); (779, 441); (782, 442); (783, 442);
    (784, 442); (785, 442); (786, 442); (787, 442); (788, 442); (789, 442); (790, 442); (791, 442); (792, 442);
    (793, 442); (794, 442); (795, 442); (796, 442); (797, 442); (798, 442); (799, 442); (800, 442); (801, 442);
    (802, 442); (803, 442); (804, 442); (805, 442); (807, 442); (808, 442); (809, 442); (811, 442); (812, 442);
    (813, 442); (814, 442); (815, 442); (816, 442); (817, 442); (818, 443); (819, 443); (820, 443); (821, 443);
    (822, 442); (823, 442); (824, 442); (825, 442); (826, 442); (827, 443); (828, 443); (829, 443); (830, 443);
    (831, 442); (832, 442); (833, 443); (834, 442); (835, 442); (836, 442); (837, 442); (838, 442); (839, 442);
    (840, 442); (841, 442); (842, 442); (843, 442); (844, 442); (845, 442); (846, 442); (847, 442); (848, 442);
    (849, 442); (850, 442); (851, 442); (852, 442); (853, 442); (854, 442); (855, 444); (856, 444); (857, 444);
    (858, 444); (859, 444); (860, 444); (862, 463); (863, 464); (864, 467); (865, 469); (866, 470); (867, 470);
    (868, 470); (869, 470); (870, 470); (871, 470); (872, 471); (873, 470); (874, 471); (875, 470); (876, 470);
    (877, 471); (878, 470); (879, 474); (880, 474); (881, 474); (882, 474); (883, 474); (884, 474); (885, 474);
    (886, 474); (887, 474); (888, 474); (889, 474); (890, 474); (891, 476); (892, 476); (893, 476); (894, 476);
    (895, 476); (896, 476); (897, 476); (898, 476); (899, 481); (900, 481); (901, 481); (902, 481); (903, 486);
    (904, 486); (905, 486); (906, 486); (907, 486); (908, 486); (909, 486); (910, 486); (911, 487); (912, 487);
    (913, 487); (914, 487); (915, 487); (916, 487); (917, 487); (918, 487); (919, 487); (920, 487); (921, 487);
    (922, 487); (923, 487); (924, 487); (925, 487); (926, 487); (927, 487); (928, 487); (929, 487); (930, 487);
    (931, 487); (932, 487); (933, 487); (934, 487); (935, 487); (936, 487); (937, 487); (938, 487); (939, 487);
    (940, 487); (941, 487); (942, 487); (943, 488); (944, 488); (945, 488); (946, 488); (947, 488); (948, 488);
    (949, 488); (950, 488); (951, 325); (952, 325); (953, 325); (954, 325); (955, 325); (956, 325); (957, 325);
    (958, 325); (959, 325); (960, 325); (961, 325); (962, 325); (963, 325); (964, 325); (965, 325); (966, 325);
    (967, 325); (968, 325); (969, 325); (970, 325); (971, 325); (972, 325); (973, 325); (974, 325); (975, 325);
    (976, 325); (977, 325); (978, 325); (979, 325); (980, 325); (981, 325); (982, 325); (983, 325); (984, 325);
    (985, 325); (986, 325); (987, 489); (988, 489); (989, 489); (990, 489); (991, 489); (992, 489); (993, 490);
    (994, 491); (995, 492); (996, 505); (997, 505); (998, 505); (999, 505); (1000, 506); (1001, 506); (1002, 506);
    (1003, 506); (1004, 558); (1005, 558); (1006, 558); (1007, 558); (1008, 558); (1009, 558); (1010, 558);
    (1011, 558); (1012, 558); (1013, 559); (1014, 560); (1015, 558); (1016, 558); (1017, 558); (1018, 558);
    (1019, 562); (1020, 563); (1021, 564); (1022, 558); (1023, 558); (1024, 558); (1025, 558); (1026, 558);
    (1027, 558); (1028, 558); (1029, 558); (1030, 580); (1031, 580); (1032, 580); (1033, 580); (1034, 580);
    (1035, 580); (1036, 580); (1037, 580); (1038, 580); (1039, 580); (1040, 580); (1041, 580); (1042, 580);
    (1043, 580); (1044, 581); (1045, 582); (1046, 580); (1047, 580); (1048, 580); (1049, 580); (1050, 580);
    (1051, 580); (1052, 583); (1053, 584); (1054, 585); (1055, 580); (1056, 580); (1057, 580); (1058, 580);
    (1059, 580); (1060, 580); (1061, 580); (1062, 580); (1063, 580); (1064, 580); (1065, 586); (1066, 586);
    (1067, 586); (1068, 586); (1069, 586); (1070, 586); (1071, 586); (1072, 586); (1073, 586); (1074, 586);
    (1075, 586); (1076, 586); (1077, 586); (1078, 586); (1079, 586); (1080, 586); (1081, 586); (1082, 586);
    (1083, 586); (1084, 586); (1085, 586); (1086, 586); (1087, 586); (1088, 586); (1089, 589); (1090, 589);
    (1091, 589); (1092, 589); (1093, 589); (1094, 589); (1095, 589); (1096, 589); (1097, 589); (1098, 589);
    (1099, 589); (1100, 589); (1101, 589); (1102, 589); (1103, 589); (1104, 589); (1105, 589); (1106, 589);
    (1107, 589); (1108, 589); (1109, 589); (1110, 589); (1111, 589); (1112, 589); (1113, 590); (1114, 590);
    (1115, 591); (1116, 591); (1117, 592); (1118, 593); (1119, 594); (1120, 594); (1121, 594); (1122, 595);
    (1123, 595); (1124, 595); (1125, 596); (1126, 597); (1147, 149); (1148, 149); (1149, 149); (1150, 149);
    (1151, 149); (1152, 149); (1154, 598); (1155, 598); (1156, 598); (1157, 598); (1158, 598); (1159, 598);
    (1160, 598); (1161, 598); (1162, 598); (1163, 598); (1164, 598); (1165, 598); (1166, 598); (1167, 598);
    (1168, 598); (1169, 598); (1170, 598); (1171, 598); (1172, 598); (1173, 598); (1174, 598); (1175, 598);
    (1176, 598); (1177, 598); (1178, 599); (1179, 599); (1180, 599); (1181, 599); (1182, 599); (1183, 599);
    (1184, 599); (1185, 599); (1186, 599); (1187, 599); (1188, 599); (1189, 599); (1190, 599); (1191, 599);
    (1192, 599); (1193, 599); (1194, 599); (1195, 599); (1196, 599); (1197, 599); (1198, 599); (1199, 599);
    (1200, 599); (1201, 599); (1202, 600); (1203, 600); (1204, 600); (1205, 600); (1206, 605); (1207, 608);
    (1208, 609); (1209, 609); (1210, 609); (1211, 609); (1212, 609); (1213, 609); (1214, 609); (1215, 609);
    (1216, 609); (1217, 609); (1218, 609); (1219, 609); (1220, 609); (1221, 609); (1222, 609); (1223, 609);
    (1224, 609); (1225, 609); (1226, 609); (1227, 609); (1228, 609); (1229, 609); (1230, 609); (1231, 609);
    (1232, 610); (1233, 611); (1234, 611); (1235, 611); (1236, 611); (1237, 611); (1238, 611); (1239, 611);
    (1240, 611); (1241, 611); (1242, 611); (1243, 611); (1244, 611); (1245, 611); (1246, 611); (1247, 611);
    (1248, 611); (1249, 611); (1250, 611); (1251, 611); (1252, 611); (1253, 611); (1254, 611); (1255, 611);
    (1256, 611); (1257, 612); (1258, 612); (1259, 612); (1260, 612); (1261, 613); (1262, 613); (1263, 613);
    (1264, 613); (1265, 613); (1266, 613); (1267, 613); (1268, 613); (1269, 613); (1270, 613); (1271, 613);
    (1272, 613); (1273, 613); (1274, 613); (1275, 613); (1276, 613); (1277, 613); (1278, 613); (1279, 613);
    (1280, 613); (1281, 613); (1282, 613); (1283, 613); (1284, 613); (1285, 613); (1286, 613); (1287, 613);
    (1288, 613); (1289, 613); (1290, 613); (1291, 613); (1292, 613); (1293, 613); (1294, 613); (1295, 614);
    (1296, 615); (1297, 616); (1298, 617); (1309, 618); (1310, 618); (1311, 619); (1312, 619); (1313, 620);
    (1314, 620); (1319, 621); (1320, 621); (1321, 622); (1322, 622); (1323, 623); (1324, 623); (1325, 624);
    (1326, 624); (1327, 625); (1328, 625); (1329, 626); (1330, 626); (1331, 627); (1332, 627); (1333, 628);
    (1334, 628); (1335, 629); (1336, 629); (1337, 630); (1338, 630); (1339, 631); (1340, 631); (1341, 632);
    (1342, 632); (1343, 633); (1344, 633); (1345, 635); (1346, 635); (1347, 635); (1348, 643); (1349, 643);
    (1350, 643); (1351, 643); (1352, 643); (1353, 643); (1354, 643); (1355, 643); (1356, 643); (1357, 643);
    (1358, 643); (1359, 643); (1360, 643); (1361, 643); (1362, 643); (1363, 643); (1364, 643); (1365, 643);
    (1366, 643); (1367, 643); (1368, 643); (1369, 643); (1370, 643); (1371, 643); (1372, 644); (1373, 644);
    (1374, 644); (1375, 644); (1376, 644); (1377, 644); (1378, 644); (1379, 644); (1380, 644); (1381, 644);
    (1382, 644); (1383, 644); (1384, 645); (1385, 645); (1386, 645); (1387, 645); (1388, 646); (1389, 646);
    (1390, 646); (1391, 646); (1392, 646); (1393, 646); (1394, 646); (1395, 646); (1396, 646); (1397, 646);
    (1398, 646); (1399, 646); (1400, 646); (1401, 646); (1402, 646); (1403, 646); (1404, 646); (1405, 646);
    (1406, 646); (1407, 646); (1408, 646); (1409, 646); (1410, 646); (1411, 646); (1412, 647); (1413, 647);
    (1414, 647); (1415, 647); (1416, 647); (1417, 647); (1418, 647); (1419, 647); (1420, 647); (1421, 647);
    (1422, 647); (1423, 647); (1424, 648); (1425, 648); (1426, 648); (1427, 648); (1428, 651); (1429, 651);
    (1430, 651); (1431, 653); (1432, 654); (1433, 654); (1434, 654); (1435, 654); (1436, 654); (1437, 655);
    (1438, 655); (1439, 655); (1440, 655); (1441, 661); (1442, 662); (1443, 663); (1444, 664); (1445, 665);
    (1446, 667); (1447, 668); (1448, 669); (1449, 670); (1450, 671); (1451, 671); (1452, 671); (1453, 671);
    (1454, 326); (1455, 326); (1456, 326); (1457, 326); (1458, 326); (1459, 326); (1460, 326); (1461, 326);
    (1462, 326); (1463, 326); (1464, 326); (1465, 326); (1466, 326); (1467, 326); (1468, 326); (1469, 326);
    (1470, 326); (1471, 326); (1472, 326); (1473, 326); (1474, 326); (1475, 326); (1476, 326); (1477, 326);
    (1478, 326); (1479, 326); (1480, 326); (1481, 326); (1482, 326); (1483, 326); (1484, 326); (1485, 326);
    (1486, 326); (1487, 326); (1488, 326); (1489, 685); (1490, 686); (1491, 687); (1492, 688); (1493, 688);
    (1494, 689); (1495, 689); (1496, 690); (1497, 690); (1498, 690); (1499, 690); (1512, 691); (1513, 691);
    (1514, 691); (1515, 691); (1516, 691); (1517, 691); (1518, 691); (1519, 691); (1520, 691); (1521, 691);
    (1522, 691); (1523, 691); (1524, 691); (1525, 691); (1526, 691); (1527, 691); (1528, 691); (1529, 691);
    (1530, 691); (1531, 691); (1532, 691); (1533, 691); (1534, 691); (1535, 691); (1536, 691); (1538, 691);
    (1539, 691); (1540, 691); (1547, 692); (1548, 694); (1549, 694); (1550, 694); (1551, 694); (1552, 694);
    (1553, 694); (1554, 695); (1555, 695); (1556, 695); (1557, 695); (1558, 701); (1561, 769); (1562, 769);
    (1563, 770); (1564, 770); (1565, 898); (1566, 899); (1567, 900); (1568, 905); (1569, 906); (1570, 906);
    (1571, 907); (1572, 938); (1573, 939); (1574, 940); (1575, 940); (1576, 940); (1577, 940); (1578, 941);
    (1579, 942); (1580, 942); (1581, 943); (1582, 943); (1583, 948); (1584, 948); (1585, 948); (1586, 948);
    (1587, 949); (1588, 950); (1590, 1266); (1594, 1267); (1595, 1267); (1596, 1268); (1597, 1268); (1598, 1269);
    (1599, 340); (1600, 340); (1601, 340); (1602, 340); (1603, 340); (1604, 340); (1605, 340); (1606, 340);
    (1607, 1273); (1608, 1273); (1609, 1273); (1610, 1273); (1611, 1273); (1612, 1273); (1613, 1273); (1614, 1273);
    (1615, 1273); (1616, 1273); (1617, 1273); (1618, 1273); (1619, 1275); (1620, 1276); (1621, 1277); (1622, 1278);
    (1623, 1279); (1624, 1281); (1625, 1282); (1626, 327); (1627, 327); (1628, 327); (1629, 327); (1630, 327);
    (1631, 327); (1632, 327); (1633, 327); (1634, 327); (1635, 327); (1636, 327); (1637, 327); (1638, 327);
    (1639, 327); (1640, 327); (1641, 327); (1642, 327); (1643, 327); (1644, 327); (1645, 327); (1646, 327);
    (1647, 327); (1648, 327); (1649, 327); (1650, 327); (1651, 327); (1652, 327); (1653, 327); (1654, 327);
    (1655, 327); (1656, 327); (1657, 327); (1658, 327); (1659, 327); (1660, 327); (1661, 1284); (1662, 1285);
    (1663, 1286); (1664, 1287); (1665, 1288); (1666, 1289); (1667, 1290); (1668, 1291); (1669, 1292); (1670, 1293)].

(** The size of each register in bytes *)
Definition regsize_map_32 : list Z :=
  [
    0; 1; 1; 2; 1; 1; 2; 1; 2; 1; 1; 2; 2; 1; 2; 1; 1; 2; 2; 4; 4; 4; 4; 4; 4; 4; 4; 4; 2; 4; 4; 10; 2; 2; 2; 8; 8; 8;
    8; 8; 8; 8; 8; 8; 8; 2; 1; 2; 1; 2; 4; 4; 4; 4; 4; 8; 8; 8; 8; 8; 8; 8; 8; 8; 8; 8; 4; 4; 4; 4; 4; 4; 4; 4; 10;
    10; 10; 10; 10; 10; 10; 10; 2; 2; 2; 2; 2; 2; 2; 2; 8; 8; 8; 8; 8; 8; 8; 8; 8; 8; 8; 8; 8; 8; 8; 8; 10; 10; 10;
    10; 10; 10; 10; 10; 16; 16; 16; 16; 16; 16; 16; 16; 16; 16; 16; 16; 16; 16; 16; 16; 16; 16; 16; 16; 16; 16; 16;
    16; 16; 16; 16; 16; 16; 16; 16; 16; 32; 32; 32; 32; 32; 32; 32; 32; 32; 32; 32; 32; 32; 32; 32; 32; 32; 32; 32;
    32; 32; 32; 32; 32; 32; 32; 32; 32; 32; 32; 32; 32; 64; 64; 64; 64; 64; 64; 64; 64; 64; 64; 64; 64; 64; 64; 64;
    64; 64; 64; 64; 64; 64; 64; 64; 64; 64; 64; 64; 64; 64; 64; 64; 64; 1; 1; 1; 1; 1; 1; 1; 1; 4; 4; 4; 4; 4; 4; 4;
    4; 2; 2; 2; 2; 2; 2; 2; 2].

(** and in 64-bit mode *)
Definition regsize_map_64 : list Z :=
  [
    0; 1; 1; 2; 1; 1; 2; 1; 2; 1; 1; 2; 2; 1; 2; 1; 1; 2; 2; 4; 4; 4; 4; 4; 4; 8; 4; 4; 2; 4; 4; 10; 2; 2; 2; 8; 8; 8;
    8; 8; 8; 8; 8; 8; 8; 2; 1; 2; 1; 2; 8; 8; 8; 8; 8; 8; 8; 8; 8; 8; 8; 8; 8; 8; 8; 8; 8; 8; 8; 8; 8; 8; 8; 8; 10;
    10; 10; 10; 10; 10; 10; 10; 2; 2; 2; 2; 2; 2; 2; 2; 8; 8; 8; 8; 8; 8; 8; 8; 8; 8; 8; 8; 8; 8; 8; 8; 10; 10; 10;
    10; 10; 10; 10; 10; 16; 16; 16; 16; 16; 16; 16; 16; 16; 16; 16; 16; 16; 16; 16; 16; 16; 16; 16; 16; 16; 16; 16;
    16; 16; 16; 16; 16; 16; 16; 16; 16; 32; 32; 32; 32; 32; 32; 32; 32; 32; 32; 32; 32; 32; 32; 32; 32; 32; 32; 32;
    32; 32; 32; 32; 32; 32; 32; 32; 32; 32; 32; 32; 32; 64; 64; 64; 64; 64; 64; 64; 64; 64; 64; 64; 64; 64; 64; 64;
    64; 64; 64; 64; 64; 64; 64; 64; 64; 64; 64; 64; 64; 64; 64; 64; 64; 1; 1; 1; 1; 1; 1; 1; 1; 4; 4; 4; 4; 4; 4; 4;
    4; 2; 2; 2; 2; 2; 2; 2; 2].

(** Registers that the assembly text of an instruction contains, AT&T syntax *)
Definition insn_regs_att : list (Z * Z) :=
  [
    (560, 18); (562, 18); (561, 18); (782, 3); (797, 19); (829, 35); (1047, 11); (1049, 17); (1051, 28); (1056, 32);
    (1059, 33); (1062, 49); (1057, 32); (1060, 33); (1046, 11); (1048, 17); (1050, 28); (1055, 32); (1058, 33);
    (1061, 49); (1016, 17); (1018, 28); (1023, 32); (1026, 33); (1029, 49); (1024, 32); (1027, 33); (1015, 17);
    (1017, 28); (1022, 32); (1025, 33); (1028, 49); (1075, 10); (1370, 10); (1352, 10); (1358, 10); (1364, 10);
    (1230, 10); (1212, 10); (1218, 10); (1224, 10); (1410, 10); (1392, 10); (1398, 10); (1404, 10); (1255, 10);
    (1237, 10); (1243, 10); (1249, 10); (1087, 10); (1069, 10); (1075, 10); (1081, 10); (1111, 10); (1093, 10);
    (1099, 10); (1105, 10); (1176, 10); (1158, 10); (1164, 10); (1170, 10); (1200, 10); (1182, 10); (1188, 10);
    (1194, 10); (1374, 10); (1414, 10); (1378, 10); (1418, 10); (1382, 10); (1422, 10); (1372, 10); (1412, 10);
    (1376, 10); (1416, 10); (1380, 10); (1420, 10); (991, 2); (987, 3); (989, 19)].

(** and Intel syntax *)
Definition insn_regs_intel : list (Z * Z) :=
  [
    (993, 18); (995, 18); (994, 18); (846, 2); (804, 19); (787, 3); (829, 35); (828, 19); (819, 35); (747, 35);
    (960, 19); (1463, 19); (1519, 19); (78, 19); (1614, 35); (745, 2); (127, 19); (540, 3); (425, 35); (1635, 19);
    (1607, 3); (748, 3); (118, 3); (28, 3); (1611, 19); (55, 2); (416, 19); (145, 2); (1298, 3); (1653, 2); (1454, 3);
    (951, 3); (1610, 19); (1288, 2); (1297, 35); (1270, 19); (1644, 35); (1472, 35); (90, 35); (979, 2); (1526, 35);
    (1261, 3); (1533, 2); (544, 2); (1512, 3); (1296, 19); (1481, 2); (102, 2); (970, 35); (1295, 2); (1279, 35);
    (66, 3); (1626, 3); (136, 35); (746, 19); (434, 2); (46, 35); (407, 3); (37, 19); (542, 19); (1047, 11);
    (1049, 17); (1051, 28); (1056, 32); (1059, 33); (1062, 49); (1057, 32); (1060, 33); (1046, 11); (1048, 17);
    (1050, 28); (1055, 32); (1058, 33); (1061, 49); (1016, 17); (1018, 28); (1023, 32); (1026, 33); (1029, 49);
    (1024, 32); (1027, 33); (1015, 17); (1017, 28); (1022, 32); (1025, 33); (1028, 49)].

Definition insn_regs_intel2 : list (Z * Z * Z) :=
  [(545, 2, 18); (541, 3, 18); (543, 19, 18); (992, 18, 2); (988, 18, 3); (990, 18, 19)].

(** [X86ImmSize.inc]: the size of the immediate of an instruction *)
Definition x86_imm_size : list (Z * Z) :=
  [
    (1, 21); (1, 22); (2, 28); (2, 29); (2, 30); (2, 32); (2, 33); (4, 37); (4, 38); (4, 39); (4, 41); (4, 42);
    (8, 46); (8, 47); (8, 48); (8, 50); (8, 51); (1, 55); (1, 56); (1, 58); (2, 66); (2, 67); (2, 68); (2, 70);
    (2, 71); (4, 78); (4, 79); (4, 80); (4, 82); (4, 83); (8, 90); (8, 91); (8, 92); (8, 94); (8, 96); (1, 102);
    (1, 103); (1, 105); (1, 106); (2, 118); (2, 119); (2, 120); (2, 122); (2, 123); (4, 127); (4, 128); (4, 129);
    (4, 131); (4, 132); (8, 136); (8, 137); (8, 138); (8, 140); (8, 141); (1, 145); (1, 146); (1, 148); (1, 149);
    (2, 223); (2, 225); (4, 227); (4, 229); (8, 231); (8, 233); (2, 235); (2, 237); (4, 239); (4, 241); (8, 243);
    (8, 245); (2, 247); (2, 249); (4, 251); (4, 253); (8, 255); (8, 257); (2, 259); (2, 261); (4, 263); (4, 265);
    (8, 267); (8, 269); (2, 282); (2, 407); (2, 408); (2, 409); (2, 411); (2, 412); (4, 416); (4, 417); (4, 418);
    (4, 420); (4, 421); (8, 425); (8, 426); (8, 427); (8, 429); (8, 430); (1, 434); (1, 435); (1, 437); (2, 518);
    (2, 521); (4, 526); (4, 529); (8, 533); (8, 534); (8, 536); (8, 537); (2, 540); (4, 542); (1, 544); (2, 618);
    (2, 784); (2, 789); (2, 790); (4, 801); (4, 809); (8, 810); (4, 811); (8, 824); (8, 833); (8, 834); (1, 843);
    (1, 848); (1, 849); (2, 951); (2, 952); (2, 953); (2, 955); (2, 956); (4, 960); (4, 961); (4, 962); (4, 965);
    (4, 966); (8, 970); (8, 971); (8, 972); (8, 974); (8, 975); (1, 979); (1, 980); (1, 982); (1, 983); (2, 1030);
    (4, 1034); (8, 1038); (8, 1039); (8, 1040); (2, 1063); (4, 1064); (2, 1067); (2, 1070); (4, 1073); (4, 1076);
    (8, 1079); (8, 1082); (1, 1085); (1, 1088); (2, 1091); (2, 1094); (4, 1097); (4, 1100); (8, 1103); (8, 1106);
    (1, 1109); (1, 1112); (2, 1156); (2, 1159); (4, 1162); (4, 1165); (8, 1168); (8, 1171); (1, 1174); (1, 1177);
    (2, 1180); (2, 1183); (4, 1186); (4, 1189); (8, 1192); (8, 1195); (1, 1198); (1, 1201); (4, 1202); (4, 1203);
    (8, 1204); (8, 1205); (2, 1210); (2, 1213); (4, 1216); (4, 1219); (8, 1222); (8, 1225); (1, 1228); (1, 1231);
    (2, 1235); (2, 1238); (4, 1241); (4, 1244); (8, 1247); (8, 1250); (1, 1253); (1, 1256); (2, 1261); (2, 1262);
    (2, 1263); (2, 1265); (2, 1266); (4, 1270); (4, 1271); (4, 1272); (4, 1274); (4, 1275); (8, 1279); (8, 1280);
    (8, 1281); (8, 1283); (8, 1284); (1, 1288); (1, 1289); (1, 1291); (2, 1350); (2, 1353); (4, 1356); (4, 1359);
    (8, 1362); (8, 1365); (1, 1368); (1, 1371); (1, 1373); (2, 1375); (1, 1377); (4, 1379); (1, 1381); (8, 1383);
    (2, 1390); (2, 1393); (4, 1396); (4, 1399); (8, 1402); (8, 1405); (1, 1408); (1, 1411); (1, 1413); (2, 1415);
    (1, 1417); (4, 1419); (1, 1421); (8, 1423); (2, 1454); (2, 1455); (2, 1456); (2, 1458); (2, 1459); (4, 1463);
    (4, 1464); (4, 1465); (4, 1467); (4, 1468); (8, 1472); (8, 1473); (8, 1474); (8, 1476); (8, 1477); (1, 1481);
    (1, 1482); (1, 1484); (1, 1485); (8, 1507); (8, 1509); (8, 1511); (2, 1512); (2, 1513); (2, 1514); (2, 1515);
    (2, 1516); (4, 1519); (4, 1520); (4, 1521); (4, 1522); (4, 1523); (8, 1526); (8, 1527); (4, 1528); (8, 1529);
    (4, 1530); (1, 1533); (1, 1534); (1, 1535); (1, 1536); (1, 1537); (1, 1538); (2, 1626); (2, 1627); (2, 1628);
    (2, 1630); (2, 1631); (4, 1635); (4, 1636); (4, 1637); (4, 1639); (4, 1640); (8, 1644); (8, 1645); (8, 1646);
    (8, 1648); (8, 1649); (1, 1653); (1, 1654); (1, 1656); (1, 1657)].

(** [insns]; in the diet engine an entry holds the two numbers only. *)
Definition insns : list insn_map := (fun p => mkInsnMap p.1 p.2 [] [] [] false false) <$> insn_ids.

(** ** Searches *)

(** [for (i = 0; i < ARR_SIZE(table); i++) if (table[i].insn == id) return table[i].reg;] *)
Fixpoint reg_loop (table : list (Z * Z)) (id : Z) : Z :=
  match table with
  | [] => 0
  | (insn, reg) :: table => if insn =? id then reg else reg_loop table id
  end.

Definition X86_insn_reg_intel (id : Z) : Z := reg_loop insn_regs_intel id.
Definition X86_insn_reg_att (id : Z) : Z := reg_loop insn_regs_att id.

(** [None] if the function returns false. *)
Fixpoint reg2_loop (table : list (Z * Z * Z)) (id : Z) : option (Z * Z) :=
  match table with
  | [] => None
  | (insn, reg1, reg2) :: table => if insn =? id then Some (reg1, reg2) else reg2_loop table id
  end.

Definition X86_insn_reg_intel2 (id : Z) : option (Z * Z) := reg2_loop insn_regs_intel2 id.
Definition X86_insn_reg_att2 (id : Z) : option (Z * Z) := (fun p => (p.2, p.1)) <$> X86_insn_reg_intel2 id.

(** The binary search of [X86_immediate_size], with 32-bit unsigned indices. *)
Fixpoint imm_search (fuel : nat) (id left right : Z) : outcome Z :=
  if left <=? right then
    match fuel with
    | O => NoFuel
    | S fuel =>
        let m := u32 (left + right) / 2 in
        '(size, i) ← aget x86_imm_size m;
        if id =? i then Ok size
        else if id <? i then imm_search fuel id left (u32 (m - 1))
        else imm_search fuel id (u32 (m + 1)) right
    end
  else Ok 0.

(** Every step but the last leaves less than it found. *)
Definition X86_immediate_size (id : Z) : outcome Z := imm_search (length x86_imm_size) id 0 (zlen x86_imm_size - 1).

(** ** The public number of an instruction *)

Section find.
  Context (avail : Z → Z → bool) (fresh : Z → list Z).

(** The lookup cache in block [p]. *)
Definition cache_in (p : Z) : option (list Z) :=
  match make_id2insn (fun _ => Some (fresh p)) insns (zlen insns) with Ok c => c | _ => None end.

(** [insn_find(insns, ARR_SIZE(insns), id, &h->insn_cache)] *)
Definition find (h : cs_struct) (m : mem) (id : Z) : outcome (Z * cs_struct * mem) :=
  match insn_cache h with
  | Some p => '(i, _) ← insn_find (fun _ => None) insns (zlen insns) id (cache_in p); Ok (i, h, m)
  | None =>
      let '(p, m') := cs_mem_malloc avail (2 * (last_id insns + 1)) m in
      '(i, c) ← insn_find (fun _ => fresh <$> p) insns (zlen insns) id None;
      Ok (match c with None => (i, h, m) | Some _ => (i, set_insn_cache h p, m') end)
  end.

(** The details need no more in the diet engine. *)
Definition X86_get_insn_id (h : cs_struct) (m : mem) (insn : cs_insn) (id : Z) : outcome (cs_struct * mem * cs_insn) :=
  '(i, h, m) ← find h m id;
  if negb (i =? 0) then
    e ← aget insns i;
    Ok (h, m, set_id insn (im_mapid e))
  else Ok (h, m, insn).

End find.

(** ** What the searches find *)

Lemma reg_loop_found table id r :
  NoDup table.*1 → (id, r) ∈ table → reg_loop table id = r.
Proof.
  induction table as [|[i x] table IH]; intros Hn Hin; [by apply not_elem_of_nil in Hin|]. cbn in *.
  apply NoDup_cons in Hn as [Hni Hn]. apply elem_of_cons in Hin as [[= <- <-]|Hin]; [by rewrite Z.eqb_refl|].
  destruct (Z.eqb_spec i id) as [->|_]; [|by apply IH]. destruct Hni. apply list_elem_of_fmap. by exists (id, r).
Qed.

Lemma reg_loop_none table id : id ∉ table.*1 → reg_loop table id = 0.
Proof.
  induction table as [|[i x] table IH]; intros Hn; [done|]. cbn in *. apply not_elem_of_cons in Hn as [Hne Hn].
  destruct (Z.eqb_spec i id); [congruence|]. by apply IH.
Qed.

(** The table of immediates by instruction, and a linear search in it. *)
Definition imm_sizes : list (Z * Z) := (fun p => (p.2, p.1)) <$> x86_imm_size.
Definition immediate_size_of (id : Z) : Z := reg_loop imm_sizes id.

(** A list of numbers, each larger than the one before. *)
Fixpoint ascending (lo : Z) (l : list Z) : bool :=
  match l with
  | [] => true
  | x :: l => (lo <? x) && ascending x l
  end.

Lemma ascending_lower lo l : ascending lo l = true → Forall (fun x => lo < x) l.
Proof.
  revert lo. induction l as [|x l IH]; intros lo; cbn; [constructor|]. intros [H1%Z.ltb_lt H2]%andb_true_iff.
  constructor; [done|]. eapply Forall_impl; [by apply IH|]. cbn. lia.
Qed.

Lemma ascending_lt lo l i j x y : ascending lo l = true → (i < j)%nat → l !! i = Some x → l !! j = Some y → x < y.
Proof.
  revert lo i j. induction l as [|z l IH]; intros lo i j; cbn; [done|]. intros [_ H2]%andb_true_iff Hij Hx Hy.
  destruct j as [|j]; [lia|]. cbn in Hy. destruct i as [|i]; cbn in Hx.
  - injection Hx as ->. exact (Forall_lookup_1 _ _ _ _ (ascending_lower _ _ H2) Hy).
  - eapply (IH z i j); [done|lia|done|done].
Qed.

Lemma ascending_NoDup lo l : ascending lo l = true → NoDup l.
Proof.
  revert lo. induction l as [|x l IH]; intros lo; cbn; [constructor|]. intros [_ H]%andb_true_iff. constructor; [|by eapply IH].
  intros Hin. apply ascending_lower in H. rewrite Forall_forall in H. specialize (H x Hin). lia.
Qed.

Lemma imm_ascending : ascending 20 x86_imm_size.*2 = true.
Proof. vm_compute. reflexivity. Qed.

Lemma imm_sizes_fst : imm_sizes.*1 = x86_imm_size.*2.
Proof. unfold imm_sizes. rewrite <- list_fmap_compose. done. Qed.

Lemma imm_first : ∃ p, x86_imm_size !! 0%nat = Some p ∧ p.2 = 21.
Proof. by eexists. Qed.

Lemma imm_length : zlen x86_imm_size = 312.
Proof. reflexivity. Qed.

#[local] Opaque x86_imm_size.

(** The search between [left] and [right], when [id] is nowhere else. *)
Lemma imm_search_finds id fuel left right :
  21 ≤ id → 0 ≤ left → left ≤ right + 1 → right < 312 → right - left < Z.of_nat fuel →
  (∀ (j : nat) p, x86_imm_size !! j = Some p → p.2 = id → left ≤ Z.of_nat j ≤ right) →
  imm_search fuel id left right = Ok (immediate_size_of id).
Proof.
  intros Hid. revert left right. induction fuel as [|fuel IH]; intros left right Hl Hlr Hr Hf Hin; cbn [imm_search];
    destruct (Z.leb_spec left right) as [Hle|Hgt]; try lia.
  1, 3: f_equal; symmetry; apply reg_loop_none; rewrite imm_sizes_fst; intros (p & E & [j Hj]%list_elem_of_lookup)%list_elem_of_fmap;
    specialize (Hin j p Hj (eq_sym E)); lia.
  rewrite (wrap_small 32 (left + right)) by (unfold in_u; lia). set (m := (left + right) / 2).
  assert (left ≤ m ≤ right) as Hm by (unfold m; zdiv).
  destruct (aget_is_Ok x86_imm_size m) as [[sz i] Hget]; [rewrite imm_length; lia|]. rewrite Hget. cbn [mbind outcome_bind].
  apply aget_Ok_inv in Hget as [_ Hget].
  assert (∀ (j k : nat) p q, (j < k)%nat → x86_imm_size !! j = Some p → x86_imm_size !! k = Some q → p.2 < q.2) as Hlt.
  { intros j k p q Hjk Hj Hk. apply (ascending_lt _ _ j k _ _ imm_ascending); [done|..]; rewrite list_lookup_fmap; by rewrite ?Hj, ?Hk. }
  destruct (Z.eqb_spec id i) as [<-|Hne].
  { f_equal. symmetry. apply reg_loop_found; [rewrite imm_sizes_fst; by eapply ascending_NoDup, imm_ascending|].
    apply list_elem_of_fmap. exists (sz, id). split; [done|]. by eapply list_elem_of_lookup_2. }
  destruct (Z.ltb_spec id i) as [Hlo|Hhi].
  - assert (1 ≤ m) as Hm1.
    { destruct (Z.eq_dec m 0) as [E|]; [|lia]. rewrite E in Hget. destruct imm_first as (p & Hp & E21).
      change (Z.to_nat 0) with 0%nat in Hget. rewrite Hp in Hget. injection Hget as ->. cbn in E21. lia. }
    rewrite wrap_small by (unfold in_u; lia). apply IH; [lia..|]. intros j p Hj Ep. specialize (Hin j p Hj Ep).
    destruct (decide (Z.to_nat m ≤ j)%nat) as [Hmj|]; [|lia]. destruct (decide (j = Z.to_nat m)) as [->|].
    + rewrite Hget in Hj. injection Hj as <-. cbn in Ep. lia.
    + specialize (Hlt (Z.to_nat m) j _ _ ltac:(lia) Hget Hj). cbn in Hlt. lia.
  - rewrite wrap_small by (unfold in_u; lia). apply IH; [lia..|]. intros j p Hj Ep. specialize (Hin j p Hj Ep).
    destruct (decide (j ≤ Z.to_nat m)%nat) as [Hmj|]; [|lia]. destruct (decide (j = Z.to_nat m)) as [->|].
    + rewrite Hget in Hj. injection Hj as <-. cbn in Ep. lia.
    + specialize (Hlt j (Z.to_nat m) _ _ ltac:(lia) Hj Hget). cbn in Hlt. lia.
Qed.

(** For an instruction that is not below the first of the table. *)
Lemma X86_immediate_size_finds id : 21 ≤ id → X86_immediate_size id = Ok (immediate_size_of id).
Proof.
  intros Hid. unfold X86_immediate_size. rewrite imm_length. apply imm_search_finds; try lia.
  - pose proof imm_length as H. unfold zlen in H. lia.
  - intros j p Hj _. apply lookup_lt_Some in Hj. pose proof imm_length as H. unfold zlen in H. lia.
Qed.

Lemma aget_outside {A} (l : list A) i : zlen l ≤ i → aget l i = Ub.
Proof.
  intros Hi. unfold aget. pose proof (zlen_nonneg l). rewrite lookup_ge_None_2; [|unfold zlen in *; lia]. by destruct (0 <=? i).
Qed.

(** Below it, [right = m - 1] wraps around at the first entry. *)
Lemma imm_search_below id fuel right : 0 ≤ id < 21 → 0 ≤ right < 312 → right + 2 ≤ Z.of_nat fuel → imm_search fuel id 0 right = Ub.
Proof.
  intros Hid. revert right. induction fuel as [|fuel IH]; intros right Hr Hf; [lia|]. cbn [imm_search].
  rewrite (proj2 (Z.leb_le 0 right)) by lia. rewrite (wrap_small 32 (0 + right)) by (unfold in_u; lia). set (m := (0 + right) / 2).
  assert (0 ≤ m ≤ right / 2) as Hm by (unfold m; zdiv).
  destruct (aget_is_Ok x86_imm_size m) as [[sz i] Hget]; [rewrite imm_length; zdiv|]. rewrite Hget. cbn [mbind outcome_bind].
  assert (20 < i) as Hi.
  { apply aget_Ok_inv in Hget as [_ Hget]. pose proof (ascending_lower _ _ imm_ascending) as H.
    refine (Forall_lookup_1 _ _ (Z.to_nat m) i H _). rewrite list_lookup_fmap. by rewrite Hget. }
  rewrite (proj2 (Z.eqb_neq id i)) by lia. rewrite (proj2 (Z.ltb_lt id i)) by lia.
  destruct (Z.eq_dec m 0) as [->|Hne].
  - change (u32 (0 - 1)) with 4294967295. destruct fuel as [|fuel]; [lia|]. cbn [imm_search]. change (0 <=? 4294967295) with true.
    change (u32 (0 + 4294967295) / 2) with 2147483647. cbn iota. rewrite aget_outside; [done|]. rewrite imm_length. lia.
  - rewrite wrap_small by (unfold in_u; zdiv). apply IH; zdiv.
Qed.

Lemma X86_immediate_size_below id : 0 ≤ id < 21 → X86_immediate_size id = Ub.
Proof.
  intros Hid. unfold X86_immediate_size. rewrite imm_length.
  pose proof imm_length as Hn. unfold zlen in Hn. destruct (length x86_imm_size) as [|k]; [lia|].
  cbn [imm_search]. change (u32 (0 + (312 - 1)) / 2) with 155. change (0 <=? 312 - 1) with true. cbn iota.
  destruct (aget_is_Ok x86_imm_size 155) as [[sz i] Hget]; [rewrite imm_length; lia|]. rewrite Hget. cbn [mbind outcome_bind].
  assert (20 < i) as Hi.
  { apply aget_Ok_inv in Hget as [_ Hget]. pose proof (ascending_lower _ _ imm_ascending) as H.
    refine (Forall_lookup_1 _ _ (Z.to_nat 155) i H _). rewrite list_lookup_fmap. by rewrite Hget. }
  rewrite (proj2 (Z.eqb_neq id i)) by lia. rewrite (proj2 (Z.ltb_lt id i)) by lia.
  change (u32 (155 - 1)) with 154. apply imm_search_below; lia.
Qed.

(** The binary search of [X86_immediate_size] is a search of the table: for
    every instruction number from the first of the table on it returns within
    the bounds of the table what a linear search finds, 0 if there is no entry;
    for a number below the first one the unsigned upper bound wraps around and
    the next access is out of bounds. *)
Theorem X86_immediate_size_correct (id : Z) : 0 ≤ id →
  X86_immediate_size id = if id <? 21 then Ub else Ok (immediate_size_of id).
Proof. intros H. case_bool; [apply X86_immediate_size_below; lia|apply X86_immediate_size_finds; lia]. Qed.

(** the first entry, one that is missing, and a number below the table *)
Lemma X86_immediate_size_correct_witness :
  X86_immediate_size 21 = Ok 1 ∧ X86_immediate_size 5000 = Ok 0 ∧ X86_immediate_size 20 = Ub.
Proof.
  split_conj; rewrite X86_immediate_size_correct by lia; reflexivity.
Defined.

Lemma immediate_size_range id : immediate_size_of id = 0 ∨ immediate_size_of id = 1 ∨ immediate_size_of id = 2 ∨
  immediate_size_of id = 4 ∨ immediate_size_of id = 8.
Proof.
  destruct (decide (id ∈ imm_sizes.*1)) as [([i r] & -> & Hin)%list_elem_of_fmap|Hn].
  - unfold immediate_size_of. cbn [fst]. rewrite (reg_loop_found imm_sizes i r) by
      (done || (rewrite imm_sizes_fst; by eapply ascending_NoDup, imm_ascending)).
    assert (forallb (fun p => bool_decide (p.2 ∈ [1; 2; 4; 8])) imm_sizes = true) as H by (vm_compute; reflexivity).
    rewrite forallb_forall in H. specialize (H (i, r)). rewrite <- list_elem_of_In, bool_decide_eq_true in H.
    specialize (H Hin). cbn in H. rewrite !elem_of_cons in H. destruct H as [?|[?|[?|[?|H]]]]; auto. by apply not_elem_of_nil in H.
  - left. by apply reg_loop_none.
Qed.

(** ** The public number *)

Lemma insns_ok : table_ok insns.
Proof. split; [vm_compute; by split| |]; apply (bool_decide_unpack _); vm_compute; exact I. Qed.

Lemma insns_length : zlen insns = 1544.
Proof. reflexivity. Qed.

Lemma insns_last : last_id insns = 1670.
Proof. vm_compute. reflexivity. Qed.

(** The prefixes the decoder takes for instructions after the escape byte. *)
Definition prefix_ids : list Z := [722; 1131; 1139; 1153].

(** Every other instruction the decoder can find has a public number. *)
Lemma public_checked :
  forallb (fun id => (id =? 0) || bool_decide (id ∈ prefix_ids) || negb (index_of insns id =? 0)) X86Tables.modRMTable = true.
Proof. vm_compute. reflexivity. Qed.

Lemma has_public id : id ∈ X86Tables.modRMTable → id ≠ 0 → id ∉ prefix_ids → index_of insns id ≠ 0.
Proof.
  intros Hin Hne Hp. pose proof public_checked as H. rewrite forallb_forall in H. specialize (H id).
  rewrite <- list_elem_of_In in H. specialize (H Hin). rewrite !orb_true_iff in H.
  destruct H as [[?%Z.eqb_eq|?%bool_decide_eq_true]|E%negb_true_iff%Z.eqb_neq]; done.
Qed.

#[local] Opaque insn_ids insns.

(** The public number of an instruction that has one. *)
Definition public_id (id : Z) : Z := match insns !! Z.to_nat (index_of insns id) with Some e => im_mapid e | None => 0 end.

(** Memory for the cache can be had, and its contents, whatever they are,
    are positions of the table. *)
Record cache_memory (avail : Z → Z → bool) (fresh : Z → list Z) : Prop := {
  cm_avail : ∀ n, avail n (2 * (last_id insns + 1)) = true;
  cm_length : ∀ p, zlen (fresh p) = last_id insns + 1;
  cm_fresh : ∀ p, Forall (fun x => 0 ≤ x < zlen insns) (fresh p)
}.

Section finds.
  Context (avail : Z → Z → bool) (fresh : Z → list Z) (Hmem : cache_memory avail fresh).

Lemma index_range id : 0 ≤ index_of insns id < zlen insns.
Proof using Type.
  unfold index_of. destruct (id_or_not (tail insns) id) as [(j & e & Hj & E)|Hno].
  - rewrite (index_from_spec _ 1 _ (tbl_nodup _ insns_ok) ltac:(lia) _ _ Hj E). apply lookup_lt_Some in Hj.
    assert (∀ l : list insn_map, length (tail l) = Nat.pred (length l)) as Htl by (by intros []). rewrite Htl in Hj. unfold zlen. lia.
  - rewrite index_from_none by done. rewrite insns_length. lia.
Qed.

Lemma answer_range p id : 0 ≤ answer insns (fresh p) id < zlen insns.
Proof using Hmem.
  unfold answer, cached, zget. pose proof (index_range id). pose proof insns_length.
  destruct (_ <? _); [lia|]. destruct (_ =? _); [|done].
  destruct (fresh p !! Z.to_nat id) as [x|] eqn:E; cbn; [exact (Forall_lookup_1 _ _ _ _ (cm_fresh _ _ Hmem p) E)|lia].
Qed.

Lemma answer_index p id : id ≤ last_id insns → index_of insns id ≠ 0 → answer insns (fresh p) id = index_of insns id.
Proof using Type.
  intros Hid Hne. unfold answer, cached. rewrite (proj2 (Z.ltb_ge _ _)) by done. by rewrite (proj2 (Z.eqb_neq _ _) Hne).
Qed.

Lemma cache_in_filled p : ∃ c, cache_in fresh p = Some c ∧ filled insns (fresh p) (zlen insns) c.
Proof using Hmem.
  destruct (make_id2insn_spec (fun _ => Some (fresh p)) insns (fresh p) insns_ok eq_refl (cm_length _ _ Hmem p)) as (c & E & Hc).
  exists c. unfold cache_in. by rewrite E.
Qed.

Lemma find_finds h m id : 0 ≤ id ≤ last_id insns →
  ∃ i h' m', find avail fresh h m id = Ok (i, h', m') ∧ cache_step avail h m h' m' ∧ 0 ≤ i < zlen insns ∧
    (index_of insns id ≠ 0 → i = index_of insns id).
Proof using Hmem.
  intros [Hid Hle]. unfold find. destruct (insn_cache h) as [p|] eqn:Ec.
  - destruct (cache_in_filled p) as (c & -> & Hc).
    destruct (insn_find_spec (fun _ => Some (fresh p)) insns (fresh p) insns_ok eq_refl (cm_length _ _ Hmem p) (Some c) id Hid) as (c' & E & _);
      [right; eauto|].
    assert (insn_find (fun _ => None) insns (zlen insns) id (Some c) = insn_find (fun _ => Some (fresh p)) insns (zlen insns) id (Some c)) as -> by done.
    rewrite E. cbn [mbind outcome_bind]. do 3 eexists. split; [done|]. split_conj; [by left|apply answer_range..|by apply answer_index].
  - unfold cs_mem_malloc at 1. rewrite (cm_avail _ _ Hmem).
    destruct (insn_find_spec (fun _ => Some (fresh (next m))) insns (fresh (next m)) insns_ok eq_refl (cm_length _ _ Hmem _) None id Hid)
      as (c' & E & Hc'); [by left|].
    cbn [fmap option_fmap option_map]. rewrite E. cbn [mbind outcome_bind].
    pose proof (answer_range (next m) id). pose proof (answer_index (next m) id Hle).
    destruct c' as [c|]; do 3 eexists; (split; [done|]); (split_conj; [|lia|lia|done]); [|by left].
    right. split; [done|]. exists (2 * (last_id insns + 1)). eexists. split; [|done]. unfold cs_mem_malloc. by rewrite (cm_avail _ _ Hmem).
Qed.

(** The public number is stored, or for a number without one something. *)
Lemma X86_get_insn_id_finds h m insn id : 0 ≤ id ≤ last_id insns →
  ∃ h' m' x, X86_get_insn_id avail fresh h m insn id = Ok (h', m', set_id insn x) ∧ cache_step avail h m h' m' ∧
    (index_of insns id ≠ 0 → x = public_id id).
Proof using Hmem.
  intros Hid. unfold X86_get_insn_id. destruct (find_finds h m id Hid) as (i & h' & m' & -> & Hstep & Hi & Hx). cbn [mbind outcome_bind].
  destruct (Z.eqb_spec i 0) as [E|Hne]; cbn [negb].
  - exists h', m', (i_id insn). split; [by destruct insn|]. split; [done|]. intros H. rewrite Hx in E by done. done.
  - destruct (aget_is_Ok insns i) as [e He]; [lia|]. rewrite He. cbn [mbind outcome_bind]. do 3 eexists. split; [done|]. split; [done|].
    intros H. apply aget_Ok_inv in He as [_ He]. unfold public_id. rewrite <- Hx by done. by rewrite He.
Qed.

End finds.

End X86Mapping.
