(* ===== verification/X86Printer.v ===== *)
(** * The x86 printer ([Lilu.kext/capstone/arch/X86/X86IntelInstPrinter.c])

    The printer of the Intel syntax in the configuration the kernel extension
    is built in ([CAPSTONE_DIET], [CAPSTONE_X86_REDUCE]): no text is produced,
    the functions of the output stream have empty bodies and their calls are
    left out, but what their arguments read or compute is kept where it may be
    undefined.  What remains of printing are the operands in the details of the
    public instruction.  [printInstruction] is that of
    [X86GenAsmWriter1_reduce.inc]. *)

From Stdlib Require Import ZArith Lia.
From S2P Require Import Prelude CsUtils CsMcInst CsCore X86Translate X86Mapping.

Module X86Printer.

Import X86Data McInst X86Translate X86Mapping.
Open Scope c_scope.

(** ** Tables *)

(** [OpInfo]: what to print for each instruction, five switches packed in a word *)
Definition OpInfo : list Z :=
  [
    0; 0; 0; 0; 0; 0; 0; 0; 0; 0; 0; 2566; 0; 0; 2559; 2622; 2546; 0; 0; 0; 2637; 4269; 4749; 3179; 2301; 2301; 2301;
    2301; 5486; 139395; 139395; 139395; 2240643; 2240643; 4337795; 2240643; 2232451; 5622; 147587; 147587; 147587;
    2240643; 2240643; 6434947; 2240643; 2232451; 5770; 151683; 151683; 151683; 2240643; 2240643; 8532099; 2240643;
    2232451; 5384; 155779; 155779; 2240643; 10629251; 2240643; 2232451; 6427796; 2233492; 8524948; 2233492; 5495;
    139451; 139451; 139451; 2240699; 2240699; 0; 0; 4337851; 2240699; 0; 2232507; 5632; 147643; 147643; 147643;
    2240699; 2240699; 0; 0; 6435003; 2240699; 0; 2232507; 5780; 151739; 151739; 151739; 2240699; 0; 2240699; 0;
    8532155; 2240699; 0; 2232507; 5393; 155835; 155835; 2240699; 2240699; 10629307; 2240699; 2232507; 2576; 2576;
    2594; 2594; 12719270; 14816422; 16913574; 14816422; 5504; 139500; 139500; 139500; 2240748; 2240748; 4337900;
    2240748; 2232556; 5642; 147692; 147692; 147692; 2240748; 2240748; 6435052; 2240748; 2232556; 5790; 151788; 151788;
    151788; 2240748; 2240748; 8532204; 2240748; 2232556; 5402; 155884; 155884; 2240748; 2240748; 10629356; 2240748;
    2232556; 81924754; 350360210; 618795666; 350360210; 139887; 14815855; 885134227; 350360467; 889328531; 350360467;
    885134227; 350360467; 889328531; 350360467; 12718680; 14815832; 16912984; 14815832; 12718613; 14815765; 16912917;
    14815765; 12718221; 14815373; 16912525; 14815373; 12718631; 14815783; 16912935; 14815783; 12719010; 14816162;
    16913314; 14816162; 12718689; 14815841; 16912993; 14815841; 12718625; 14815777; 16912929; 14815777; 12718228;
    14815380; 16912532; 14815380; 12718639; 14815791; 16912943; 14815791; 12718974; 14816126; 16913278; 14816126;
    12718321; 16912625; 19010013; 14815709; 12718557; 14815709; 16912861; 14815709; 19010425; 14816121; 12718969;
    14816121; 16913273; 14816121; 4804; 4804; 140267; 140267; 14816235; 14816235; 148459; 148459; 14816235; 14816235;
    152555; 152555; 14816235; 14816235; 139432; 139432; 14815400; 14815400; 147624; 147624; 14815400; 14815400;
    151720; 151720; 14815400; 14815400; 140164; 140164; 14816132; 14816132; 148356; 148356; 14816132; 14816132;
    152452; 152452; 14816132; 14816132; 140249; 140249; 14816217; 14816217; 148441; 148441; 14816217; 14816217;
    152537; 152537; 14816217; 14816217; 885133851; 350360091; 889328155; 350360091; 8786; 4690; 16978; 4690; 21074;
    29266; 4690; 29266; 29266; 3378; 3099; 2853; 2706; 2738; 2788; 2944; 2954; 3322; 2742; 4329519; 2232367; 6426671;
    2232367; 8523823; 2232367; 4329773; 2232621; 6426925; 2232621; 8524077; 2232621; 4329596; 2232444; 6426748;
    2232444; 8523900; 2232444; 4329793; 2232641; 6426945; 2232641; 8524097; 2232641; 4329942; 2232790; 6427094;
    2232790; 8524246; 2232790; 4329992; 2232840; 6427144; 2232840; 8524296; 2232840; 4329813; 2232661; 6426965;
    2232661; 8524117; 2232661; 4330118; 2232966; 6427270; 2232966; 8524422; 2232966; 4329837; 2232685; 6426989;
    2232685; 8524141; 2232685; 4329865; 2232713; 6427017; 2232713; 8524169; 2232713; 4330159; 2233007; 6427311;
    2233007; 8524463; 2233007; 4330220; 2233068; 6427372; 2233068; 8524524; 2233068; 4330444; 2233292; 6427596;
    2233292; 8524748; 2233292; 4330173; 2233021; 6427325; 2233021; 8524477; 2233021; 4330266; 2233114; 6427418;
    2233114; 8524570; 2233114; 4330468; 2233316; 6427620; 2233316; 8524772; 2233316; 2105; 2264; 1984; 1964; 2283;
    2085; 2244; 2004; 2044; 2124; 2184; 2024; 2144; 2204; 2065; 2164; 2224; 5531; 139989; 139989; 139989; 14815957;
    14815957; 19010261; 14815957; 14815957; 5696; 148181; 148181; 148181; 14815957; 14815957; 12718805; 14815957;
    14815957; 5811; 152277; 152277; 152277; 14815957; 14815957; 16913109; 14815957; 14815957; 5419; 156373; 156373;
    14815957; 21107413; 14815957; 14815957; 32867; 37131; 41775; 46214; 49206; 139757; 14815725; 147949; 14815725;
    152045; 14815725; 20546; 156141; 14815725; 2782; 2782; 3075; 2829; 2833; 2641; 3183; 2531; 8328; 4232; 4232; 4232;
    16520; 4232; 8328; 4232; 16520; 4232; 20616; 4232; 24712; 4232; 9309; 5213; 17501; 5213; 21597; 5213; 25693; 5213;
    5923; 5923; 2354; 2444; 2373; 2463; 29450; 14816085; 275025; 53841; 275025; 53841; 53841; 275162; 53978; 275162;
    53978; 53978; 3037; 2726; 3347; 9308; 5212; 17500; 5212; 21596; 5212; 25692; 5212; 8832; 4736; 4330112; 891425408;
    891425408; 2232960; 350360192; 350360192; 17024; 4736; 6427264; 885133952; 885133952; 2232960; 350360192;
    350360192; 21120; 4736; 8524416; 889328256; 889328256; 2232960; 350360192; 350360192; 25216; 4736; 5523; 3544;
    5687; 3554; 5411; 3534; 8355; 4259; 4259; 4259; 16547; 4259; 8355; 4259; 16547; 4259; 20643; 4259; 24739; 4259;
    450646; 454910; 459897; 5158; 2349; 2439; 3079; 2824; 23204912; 23204912; 25082; 3500; 3517; 23204040; 23204040;
    23204049; 23204049; 3327; 2812; 3142; 2610; 28961; 28961; 28961; 28709; 28709; 28709; 28981; 28981; 28981; 28754;
    28754; 28754; 29907; 29900; 29900; 29021; 29021; 29021; 29001; 29001; 29001; 29174; 29174; 29174; 29025; 29025;
    29025; 29261; 29261; 29261; 8923; 4827; 17115; 4827; 21211; 4827; 29403; 29403; 29403; 29045; 29045; 29045; 29347;
    29347; 29347; 29408; 29408; 29408; 29632; 29632; 29632; 29343; 29343; 29343; 29393; 29393; 29393; 29913; 29628;
    29628; 29628; 2909; 19010374; 14816070; 19010374; 14816070; 19010374; 14816070; 139757; 49206; 147949; 152045;
    156141; 20546; 25301928; 25301928; 19009568; 12718112; 12718112; 16912416; 2896; 2896; 25301933; 25301933;
    25301938; 25301938; 25301938; 54255; 54255; 54255; 25301943; 25301943; 25301943; 54267; 54267; 54267; 9223; 5127;
    9325; 5229; 139451; 139451; 139451; 147643; 147643; 147643; 151739; 151739; 151739; 155835; 155835; 139500;
    139500; 139500; 147692; 147692; 147692; 151788; 151788; 151788; 155884; 155884; 8328; 16520; 20616; 24712; 8355;
    16547; 20643; 24739; 140130; 140130; 140130; 148322; 148322; 148322; 152418; 152418; 152418; 156514; 156514; 2977;
    139383; 139383; 139383; 147575; 147575; 147575; 151671; 151671; 151671; 155767; 155767; 140142; 140142; 140142;
    148334; 148334; 148334; 152430; 152430; 152430; 156526; 156526; 70900; 75296; 79561; 83415; 29433; 29073; 29050;
    4578; 4897; 4578; 2930; 3116; 2930; 19010165; 14815861; 12718709; 14815861; 16913013; 14815861; 25301972;
    25301972; 25301972; 9097; 5001; 86202; 90298; 94394; 98490; 19010584; 14816280; 12719128; 14816280; 16913432;
    14816280; 3029; 0; 0; 627810; 627810; 140386; 140386; 140386; 103875; 103875; 14816354; 14816354; 19010658;
    14816354; 14816354; 14816354; 19010658; 14816354; 762978; 762978; 14816354; 14816354; 148578; 148578; 140386;
    108140; 108140; 0; 14816354; 14816354; 14816354; 0; 14816354; 12719202; 14816354; 14816354; 14816354; 19010658;
    14816354; 627610; 762778; 897946; 1033114; 14816354; 14816354; 152674; 152674; 140386; 103853; 108116; 112351;
    116029; 14816354; 14816354; 14816154; 14816354; 16913506; 14816354; 14816354; 14816354; 19010658; 14816354;
    1033314; 1033314; 156770; 156770; 134374498; 116051; 116051; 14816354; 14816354; 21107810; 155325538; 14816354;
    149034082; 14816354; 139586; 19009858; 147778; 12718402; 151874; 16912706; 0; 27451498; 29552914; 31707958;
    33752205; 21107902; 14816446; 19010750; 21107902; 14816446; 14816446; 14815513; 19010750; 12718361; 21107902;
    14816446; 14815513; 14816446; 21107909; 14816453; 21107909; 14816453; 19010757; 21107909; 14816453; 14816453;
    19010757; 21107909; 14816453; 14816453; 8833; 4737; 17025; 4737; 21121; 4737; 25217; 4737; 81925280; 350360736;
    618796192; 350360736; 8680; 4584; 16872; 4584; 20968; 4584; 25064; 4584; 3095; 8948; 8948; 8948; 8948; 4852; 4852;
    4852; 4852; 17140; 17140; 17140; 17140; 4852; 4852; 4852; 4852; 35795700; 17140; 17140; 17140; 17140; 17140;
    17140; 17140; 8948; 8948; 8948; 8948; 8948; 8948; 8948; 9259; 5163; 17451; 5163; 21547; 5163; 25643; 5163; 5541;
    140130; 140130; 140130; 2241378; 2241378; 4338530; 2241378; 2233186; 5707; 148322; 148322; 148322; 148322;
    2241378; 2241378; 6435682; 2241378; 2233186; 5846; 152418; 152418; 152418; 2241378; 2241378; 8532834; 2241378;
    2233186; 5429; 156514; 156514; 2241378; 2241378; 10629986; 2241378; 2233186; 529489; 3402; 660561; 3456; 922705;
    2982; 71415; 75522; 83725; 81924811; 350360267; 618795723; 350360267; 81925206; 350360662; 618796118; 350360662;
    4863; 8959; 4863; 4863; 17151; 4863; 4863; 21247; 4863; 3372; 3000; 3203; 3203; 3218; 3218; 2925; 2776; 3110;
    3233; 3233; 3233; 3248; 3248; 3248; 3315; 3315; 4623; 4623; 8719; 4623; 4623; 4623; 16911; 4623; 4623; 4623; 4623;
    4623; 21007; 4623; 3365; 2993; 3187; 3187; 3195; 3195; 3210; 3210; 2919; 2769; 3103; 3225; 3225; 3225; 3240; 3240;
    3240; 3307; 3307; 4623; 4623; 1057347; 1188419; 139843; 1053251; 1184323; 2232899; 1065539; 1196611; 148035;
    1053251; 1184323; 2232899; 1069635; 1200707; 152131; 1053251; 1184323; 2232899; 1073731; 1204803; 156227; 1053251;
    1184323; 2232899; 1057616; 1188688; 140112; 1053520; 1184592; 2233168; 1065808; 1196880; 148304; 1053520; 1184592;
    2233168; 1069904; 1200976; 152400; 1053520; 1184592; 2233168; 1074000; 1205072; 156496; 1053520; 1184592; 2233168;
    4504; 4504; 4524; 4524; 3157; 2746; 4329; 4329; 4329; 4288; 4288; 4288; 2759; 3084; 2322; 2322; 2322; 2322; 2847;
    2690; 2690; 2802; 2802; 3132; 3392; 3392; 3091; 2680; 2680; 2792; 2792; 3122; 3382; 3382; 5139; 5139; 5139; 3328;
    3328; 3328; 2525; 1057386; 1188458; 139882; 1053290; 1184362; 2232938; 1065578; 1196650; 148074; 1053290; 1184362;
    2232938; 1069674; 1200746; 152170; 1053290; 1184362; 2232938; 1073770; 1204842; 156266; 1053290; 1184362; 2232938;
    1057633; 1188705; 140129; 1053537; 1184609; 2233185; 1065825; 1196897; 148321; 1053537; 1184609; 2233185; 1069921;
    1200993; 152417; 1053537; 1184609; 2233185; 1074017; 1205089; 156513; 1053537; 1184609; 2233185; 885134520;
    350360760; 889328824; 350360760; 3044; 2914; 1057342; 1188414; 139838; 1053246; 1184318; 2232894; 1065534;
    1196606; 148030; 1053246; 1184318; 2232894; 1069630; 1200702; 152126; 1053246; 1184318; 2232894; 1073726; 1204798;
    156222; 1053246; 1184318; 2232894; 2733; 1057611; 1188683; 140107; 1053515; 1184587; 2233163; 1065803; 1196875;
    148299; 1053515; 1184587; 2233163; 1069899; 1200971; 152395; 1053515; 1184587; 2233163; 1073995; 1205067; 156491;
    1053515; 1184587; 2233163; 885134508; 350360748; 889328812; 350360748; 5468; 139341; 139341; 139341; 2240589;
    2240589; 4337741; 2240589; 2232397; 5602; 147533; 147533; 147533; 2240589; 2240589; 6434893; 2240589; 2232397;
    5750; 151629; 151629; 151629; 2240589; 2240589; 8532045; 2240589; 2232397; 5344; 155725; 155725; 2240589;
    10629197; 2240589; 2232397; 58601; 62996; 120509; 67020; 3262; 3262; 2879; 2865; 6001; 6046; 14817168; 14817082;
    14817153; 5984; 24870; 4390; 24617; 4137; 24890; 4410; 0; 0; 0; 0; 24689; 4209; 25024; 4544; 24910; 4430; 25090;
    4610; 24934; 4454; 25210; 4730; 24962; 4482; 25256; 4776; 25317; 4837; 25541; 5061; 25271; 4791; 25348; 4868;
    25566; 5086; 54261; 54261; 54261; 1057352; 1188424; 139848; 1053256; 1184328; 2232904; 1065544; 1196616; 148040;
    1053256; 1184328; 2232904; 1069640; 1200712; 152136; 1053256; 1184328; 2232904; 1073736; 1204808; 156232; 1053256;
    1184328; 2232904; 201466074; 872554714; 203559130; 1143083226; 201474266; 872562906; 203559130; 1143083226;
    201478362; 872567002; 203559130; 1143083226; 885134490; 350360730; 889328794; 350360730; 1057628; 1188700; 140124;
    1053532; 1184604; 2233180; 1065820; 1196892; 148316; 1053532; 1184604; 2233180; 1069916; 1200988; 152412; 1053532;
    1184604; 2233180; 1074012; 1205084; 156508; 1053532; 1184604; 2233180; 201466104; 872554744; 203559160;
    1143083256; 201474296; 872562936; 203559160; 1143083256; 201478392; 872567032; 203559160; 1143083256; 885134514;
    350360754; 889328818; 350360754; 54273; 54273; 54273; 3445; 9229; 5133; 5133; 9229; 5133; 9331; 5235; 5235; 5235;
    2711; 2765; 2818; 2949; 2958; 974940; 717060; 906024; 590975; 5006; 5006; 5006; 9102; 5477; 139383; 139383;
    139383; 2240631; 2240631; 4337783; 2240631; 2232439; 5612; 147575; 147575; 147575; 2240631; 2240631; 6434935;
    2240631; 2232439; 5760; 151671; 151671; 151671; 2240631; 2240631; 8532087; 2240631; 2232439; 5375; 155767; 155767;
    2240631; 2240631; 10629239; 2240631; 2232439; 3255; 3021; 3148; 3339; 3339; 3332; 3332; 12718235; 14815387;
    16912539; 14815387; 1340123; 1340123; 1327835; 1331931; 0; 1315547; 0; 0; 0; 0; 0; 0; 5561; 140354; 140354;
    14816322; 14816322; 140354; 14816322; 5729; 148546; 148546; 14816322; 14816322; 148546; 14816322; 5868; 152642;
    152642; 14816322; 14816322; 152642; 14816322; 5449; 156738; 156738; 14816322; 0; 14816322; 156738; 14816322; 2391;
    2481; 2404; 2494; 2417; 2507; 2435; 19010591; 14816287; 12719135; 14816287; 16913439; 14816287; 12718647;
    14815799; 16912951; 14815799; 2645; 3041007384; 350361416; 9075; 4979; 9319; 5223; 3014; 21309; 2752; 2935; 3413;
    3468; 3006; 20704; 21576; 147634; 14815410; 151730; 14815410; 2838; 3435; 3490; 3424; 3479; 12718534; 14815686;
    16912838; 14815686; 2902; 21144; 29266; 2822; 3048; 2962; 2962; 4514; 4514; 4534; 4534; 3163; 139450; 14815418;
    147642; 14815418; 151738; 14815418; 155834; 14815418; 5513; 86512; 123376; 5676; 5676; 90608; 123376; 5800; 94704;
    123376; 98800; 123376; 2716; 2660; 3169; 2650; 2670; 3351; 2700; 5540; 140142; 140142; 140142; 2241390; 2241390;
    4338542; 2241390; 2233198; 5706; 148334; 148334; 148334; 2241390; 2241390; 6435694; 2241390; 2233198; 5845;
    152430; 152430; 152430; 2241390; 2241390; 8532846; 2241390; 2233198; 5428; 156526; 156526; 2241390; 2241390;
    10629998; 2241390; 2233198; 54118; 53258; 53711; 53249; 54328; 53268; 3358; 2343; 2538; 2858; 0].

(** ** Constants *)

Definition X86_OP_REG := 1.
Definition X86_OP_IMM := 2.
Definition X86_OP_MEM := 3.
Definition CS_OPT_SYNTAX_INTEL := 1.

Definition X86_REG_AL := 2.
Definition X86_REG_AX := 3.
Definition X86_REG_CL := 10.
Definition X86_REG_DX := 18.
Definition X86_REG_EAX := 19.
Definition X86_REG_ES := 28.
Definition X86_REG_RAX := 35.

Definition X86_INS_AND := 25.
Definition X86_INS_RET := 149.
Definition X86_INS_LCALL := 156.
Definition X86_INS_LJMP := 157.
Definition X86_INS_IN := 215.
Definition X86_INS_INT := 222.
Definition X86_INS_OR := 325.
Definition X86_INS_XOR := 327.
Definition X86_INS_RETF := 335.
Definition X86_INS_MOVABS := 443.
Definition X86_INS_OUT := 489.

Definition X86_CALLpcrel16 := 282.
Definition X86_CALLpcrel32 := 283.
Definition X86_JMP_2 := 618.
Definition X86_JMP_4 := 619.

Definition X86_AddrBaseReg := 0.
Definition X86_AddrScaleAmt := 1.
Definition X86_AddrIndexReg := 2.
Definition X86_AddrDisp := 3.
Definition X86_AddrSegmentReg := 4.

(** ** State *)

(** What is read through [MI->csh] and [MI->flat_insn]: the options of the
    handle, and the number, size and address of the instruction. *)
Record env := mkEnv {
  e_detail : Z;
  e_mode : Z;
  e_syntax : Z;
  regsizes : list Z;
  e_id : Z;
  e_size : Z;
  e_address : Z
}.

(** What is written: the machine instruction, the details if there are any,
    and [csh->doing_mem]. *)
Record pst := mkP { p_mi : MCInst; p_detail : option cs_x86; doing_mem : bool }.

Definition set_x86opsize (mi : MCInst) (n : Z) : MCInst :=
  mkInst (OpcodePub mi) (size mi) (has_imm mi) (op1_size mi) (Opcode mi) (Operands mi) n (x86_prefix mi) (imm_size mi) (writeback mi).
Definition set_op1_size (mi : MCInst) (n : Z) : MCInst :=
  mkInst (OpcodePub mi) (size mi) (has_imm mi) n (Opcode mi) (Operands mi) (x86opsize mi) (x86_prefix mi) (imm_size mi) (writeback mi).
Definition set_has_imm (mi : MCInst) : MCInst :=
  mkInst (OpcodePub mi) (size mi) true (op1_size mi) (Opcode mi) (Operands mi) (x86opsize mi) (x86_prefix mi) (imm_size mi) (writeback mi).

Definition set_ops (d : cs_x86) (count : Z) (ops : list cs_x86_op) : cs_x86 :=
  mkX86 (x_prefix d) (x_opcode d) (x_rex d) (x_addr_size d) (x_modrm d) (x_sib d) (x_disp d) (x_sib_index d)
    (x_sib_scale d) (x_sib_base d) (x_sse_cc d) (x_avx_cc d) (x_avx_sae d) (x_avx_rm d) count ops.

Definition opsize (n : Z) (st : pst) : pst := mkP (set_x86opsize (p_mi st) n) (p_detail st) (doing_mem st).

(** [if (MI->op1_size == 0) MI->op1_size = n;] *)
Definition first_size (n : Z) (st : pst) : pst :=
  if op1_size (p_mi st) =? 0 then mkP (set_op1_size (p_mi st) n) (p_detail st) (doing_mem st) else st.

(** Stores of one operand: its type, its size and the members of its union.
    The members of [mem] are stored one by one, into cleared memory or another
    [mem]; elsewhere the model stops. *)
Definition op_type (t : Z) (op : cs_x86_op) : cs_x86_op := mkX86Op t (xo_value op) (xo_size op) (xo_avx_bcast op) (xo_avx_zero_opmask op).
Definition op_size (n : Z) (op : cs_x86_op) : cs_x86_op := mkX86Op (xo_type op) (xo_value op) n (xo_avx_bcast op) (xo_avx_zero_opmask op).
Definition op_union (v : op_value) (op : cs_x86_op) : cs_x86_op := mkX86Op (xo_type op) v (xo_size op) (xo_avx_bcast op) (xo_avx_zero_opmask op).

Definition op_mem (f : Z → Z → Z → Z → Z → op_value) (op : cs_x86_op) : outcome cs_x86_op :=
  match xo_value op with
  | V0 => Ok (op_union (f 0 0 0 0 0) op)
  | VMem sg b i sc d => Ok (op_union (f sg b i sc d) op)
  | _ => Ub
  end.
Definition mem_segment (r : Z) : cs_x86_op → outcome cs_x86_op := op_mem (fun _ b i sc d => VMem (u32 r) b i sc d).
Definition mem_base (r : Z) : cs_x86_op → outcome cs_x86_op := op_mem (fun sg _ i sc d => VMem sg (u32 r) i sc d).
Definition mem_disp (v : Z) : cs_x86_op → outcome cs_x86_op := op_mem (fun sg b i sc _ => VMem sg b i sc v).

(** [MI->flat_insn->detail->x86], which must be there. *)
Definition on_detail (f : cs_x86 → outcome cs_x86) (st : pst) : outcome pst :=
  match p_detail st with
  | None => Ub
  | Some d => d ← f d; Ok (mkP (p_mi st) (Some d) (doing_mem st))
  end.

(** [x86.operands[i]] *)
Definition on_op (i : Z) (f : cs_x86_op → outcome cs_x86_op) (d : cs_x86) : outcome cs_x86 :=
  op ← aget (x_operands d) i;
  op ← f op;
  ops ← aset (x_operands d) i op;
  Ok (set_ops d (x_op_count d) ops).

(** [x86.operands[x86.op_count]], and [x86.op_count++] *)
Definition on_current (f : cs_x86_op → outcome cs_x86_op) (d : cs_x86) : outcome cs_x86 := on_op (x_op_count d) f d.
Definition next_operand (d : cs_x86) : outcome cs_x86 := Ok (set_ops d (u8 (x_op_count d + 1)) (x_operands d)).

(** [-v] for an [int64_t] *)
Definition neg64 (v : Z) : outcome Z := if v =? - 2 ^ 63 then Ub else Ok (- v).

Section printer.
  Context (e : env).

(** [if (MI->csh->detail) ...] *)
Definition if_detail (f : cs_x86 → outcome cs_x86) (st : pst) : outcome pst :=
  if ctrue (e_detail e) then on_detail f st else Ok st.

Definition set_mem_access (status : bool) (st : pst) : outcome pst :=
  if negb (e_detail e =? Cs.CS_OPT_ON) then Ok st
  else
    let st := mkP (p_mi st) (p_detail st) status in
    if negb status then on_detail next_operand st else Ok st.

(** ** Helpers of [X86Mapping.c] *)

Definition reg_operand (reg n : Z) (op : cs_x86_op) : outcome cs_x86_op :=
  Ok (op_size n (op_union (VReg reg) (op_type X86_OP_REG op))).

Definition op_addReg (reg : Z) (st : pst) : outcome pst :=
  st ← if_detail (fun d => n ← aget (regsizes e) reg; d ← on_current (reg_operand reg n) d; next_operand d) st;
  if op1_size (p_mi st) =? 0 then n ← aget (regsizes e) reg; Ok (first_size n st) else Ok st.

(** The size of an operand after the first one is that of the first. *)
Definition destination_size (st : pst) (d : cs_x86) : outcome Z :=
  if 0 <? x_op_count d then op ← aget (x_operands d) 0; Ok (xo_size op) else Ok (imm_size (p_mi st)).

Definition op_addImm (v : Z) (st : pst) : outcome pst :=
  st1 ← if_detail (fun d =>
      d ← on_current (fun op => Ok (op_union (VImm v) (op_type X86_OP_IMM op))) d;
      d ← (if e_syntax e =? CS_OPT_SYNTAX_INTEL then
             n ← destination_size st d; on_current (fun op => Ok (op_size n op)) d
           else Ok d);
      next_operand d) st;
  let st2 := if ctrue (e_detail e) && negb (e_syntax e =? CS_OPT_SYNTAX_INTEL)
             then mkP (set_has_imm (p_mi st1)) (p_detail st1) (doing_mem st1) else st1 in
  Ok (first_size (imm_size (p_mi st2)) st2).

(** ** Operands *)

(** Prints a register or a number. *)
Definition _printOperand (OpNo : Z) (st : pst) : outcome pst := _ ← MCInst_getOperand (p_mi st) OpNo; Ok st.

(** The mask of the immediates of AND, OR and XOR, and the other adjustments;
    returns the immediate and [opsize]. *)
Definition adjust_imm (mi : MCInst) (OpNo imm opsize : Z) : outcome (Z * Z) :=
  let id := e_id e in
  if bool_decide (id ∈ [X86_INS_IN; X86_INS_OUT; X86_INS_INT]) then Ok (imm & 0xff, opsize)
  else if (id =? X86_INS_LCALL) || (id =? X86_INS_LJMP) then
    Ok (if OpNo =? 1 then (imm & 0xffff, 2) else (imm, opsize))
  else if bool_decide (id ∈ [X86_INS_AND; X86_INS_OR; X86_INS_XOR]) then
    if (0 <=? imm) && (imm <=? Utils.HEX_THRESHOLD) then Ok (imm, opsize)
    else mask ← aget arch_masks (if ctrue opsize then opsize else imm_size mi); Ok (s64 (mask & u64 imm), opsize)
  else if (id =? X86_INS_RET) || (id =? X86_INS_RETF) then
    if (0 <=? imm) && (imm <=? Utils.HEX_THRESHOLD) then Ok (imm, opsize) else Ok (0xffff & imm, opsize)
  else Ok (imm, opsize).

Definition print_reg (reg : Z) (st : pst) : outcome pst :=
  st ← if_detail (fun d =>
      if doing_mem st then on_current (mem_base reg) d
      else n ← aget (regsizes e) reg; d ← on_current (reg_operand reg n) d; next_operand d) st;
  if op1_size (p_mi st) =? 0 then n ← aget (regsizes e) reg; Ok (first_size n st) else Ok st.

Definition print_imm (OpNo imm : Z) (st : pst) : outcome pst :=
  opsize ← X86_immediate_size (MCInst_getOpcode (p_mi st));
  '(imm, opsize) ← adjust_imm (p_mi st) OpNo (if opsize =? 1 then imm & 0xff else imm) opsize;
  if_detail (fun d =>
      if doing_mem st then on_current (mem_disp imm) d
      else
        d ← on_current (fun op => Ok (op_type X86_OP_IMM op)) d;
        n ← (if 0 <? opsize then Ok (u8 opsize)
             else if negb (e_id e =? X86_INS_LCALL) && negb (e_id e =? X86_INS_LJMP) then destination_size st d
             else Ok (imm_size (p_mi st)));
        d ← on_current (fun op => Ok (op_union (VImm imm) (op_size n op))) d;
        next_operand d) st.

Definition printOperand (OpNo : Z) (st : pst) : outcome pst :=
  Op ← MCInst_getOperand (p_mi st) OpNo;
  if MCOperand_isReg Op then print_reg (MCOperand_getReg Op) st
  else if MCOperand_isImm Op then print_imm OpNo (MCOperand_getImm Op) st
  else Ok st.

(** The stores that start a memory operand. *)
Definition mem_operand (st : pst) (base index scale : Z) (op : cs_x86_op) : outcome cs_x86_op :=
  op_mem (fun _ _ _ _ _ => VMem 0 base index scale 0) (op_size (x86opsize (p_mi st)) (op_type X86_OP_MEM op)).

(** [if (reg) { _printOperand(MI, OpNo, O); ... mem.segment = reg; }] *)
Definition print_segment (reg OpNo : Z) (st : pst) : outcome pst :=
  if ctrue reg then st ← _printOperand OpNo st; if_detail (on_current (mem_segment reg)) st else Ok st.

Definition printSrcIdx (Op : Z) (st : pst) : outcome pst :=
  st ← if_detail (on_current (mem_operand st 0 0 1)) st;
  SegReg ← MCInst_getOperand (p_mi st) (Op + 1);
  st ← print_segment (s32 (MCOperand_getReg SegReg)) (Op + 1) st;
  st ← set_mem_access true st;
  st ← printOperand Op st;
  set_mem_access false st.

Definition printDstIdx (Op : Z) (st : pst) : outcome pst :=
  st ← if_detail (on_current (mem_operand st 0 0 1)) st;
  st ← (if negb (e_mode e =? Cs.CS_MODE_64) then if_detail (on_current (mem_segment X86_REG_ES)) st else Ok st);
  st ← set_mem_access true st;
  st ← printOperand Op st;
  set_mem_access false st.

Definition printMemOffset (Op : Z) (st : pst) : outcome pst :=
  DispSpec ← MCInst_getOperand (p_mi st) Op;
  SegReg ← MCInst_getOperand (p_mi st) (Op + 1);
  st ← if_detail (on_current (mem_operand st 0 0 1)) st;
  st ← print_segment (s32 (MCOperand_getReg SegReg)) (Op + 1) st;
  st ← (if MCOperand_isImm DispSpec then
          let imm := MCOperand_getImm DispSpec in
          st ← if_detail (on_current (mem_disp imm)) st;
          _ ← (if imm <? 0 then aget arch_masks (e_mode e) else Ok 0);
          Ok st
        else Ok st);
  st ← if_detail next_operand st;
  Ok (first_size (x86opsize (p_mi st)) st).

Definition printMemReference (Op : Z) (st : pst) : outcome pst :=
  BaseReg ← MCInst_getOperand (p_mi st) (Op + X86_AddrBaseReg);
  Scale ← MCInst_getOperand (p_mi st) (Op + X86_AddrScaleAmt);
  IndexReg ← MCInst_getOperand (p_mi st) (Op + X86_AddrIndexReg);
  DispSpec ← MCInst_getOperand (p_mi st) (Op + X86_AddrDisp);
  SegReg ← MCInst_getOperand (p_mi st) (Op + X86_AddrSegmentReg);
  let base := MCOperand_getReg BaseReg in
  let index := MCOperand_getReg IndexReg in
  st ← if_detail (on_current (mem_operand st base index (s32 (MCOperand_getImm Scale)))) st;
  st ← print_segment (s32 (MCOperand_getReg SegReg)) (Op + X86_AddrSegmentReg) st;
  st ← (if ctrue base then _printOperand (Op + X86_AddrBaseReg) st else Ok st);
  st ← (if ctrue index then _printOperand (Op + X86_AddrIndexReg) st else Ok st);
  let NeedPlus := ctrue base || ctrue index in
  st ← (if MCOperand_isImm DispSpec then
          let DispVal := MCOperand_getImm DispSpec in
          st ← if_detail (on_current (mem_disp DispVal)) st;
          _ ← (if DispVal <? 0 then if NeedPlus then neg64 DispVal else aget arch_masks (e_mode e) else Ok 0);
          Ok st
        else Ok st);
  st ← if_detail next_operand st;
  Ok (first_size (x86opsize (p_mi st)) st).

(** [printi8mem] to [printi128mem], by the size of the operand *)
Definition printimem (n OpNo : Z) (st : pst) : outcome pst := printMemReference OpNo (opsize n st).

Definition printopaquemem (OpNo : Z) (st : pst) : outcome pst :=
  let far := (e_id e =? X86_INS_LJMP) || (e_id e =? X86_INS_LCALL) in
  let st := if e_mode e =? Cs.CS_MODE_16 then opsize (if far then 4 else 2) st
            else if e_mode e =? Cs.CS_MODE_32 then opsize (if far then 6 else 4) st
            else if e_mode e =? Cs.CS_MODE_64 then opsize (if far then 10 else 8) st
            else st in
  printMemReference OpNo st.

(** [printSrcIdx8] to [printSrcIdx64], [printDstIdx8] to [printDstIdx64] and
    [printMemOffs8] to [printMemOffs64] *)
Definition printSrcIdx_ (n OpNo : Z) (st : pst) : outcome pst := printSrcIdx OpNo (opsize n st).
Definition printDstIdx_ (n OpNo : Z) (st : pst) : outcome pst := printDstIdx OpNo (opsize n st).
Definition printMemOffs_ (n OpNo : Z) (st : pst) : outcome pst := printMemOffset OpNo (opsize n st).

(** The target of a branch, with the additions modulo 2^64. *)
Definition branch_target (mi : MCInst) (imm : Z) : Z :=
  let imm := s64 (imm + e_size e + e_address e) in
  let imm := if negb (e_mode e =? Cs.CS_MODE_64) then imm & 0xffffffff else imm in
  let imm := if (e_mode e =? Cs.CS_MODE_16) && (negb (Opcode mi =? X86_JMP_4) && negb (Opcode mi =? X86_CALLpcrel32))
             then imm & 0xffff else imm in
  let imm := if (e_mode e =? Cs.CS_MODE_16) && ((Opcode mi =? X86_JMP_4) && negb (zget (x86_prefix mi) 2 =? 0x66))
             then imm & 0xffff else imm in
  if (Opcode mi =? X86_CALLpcrel16) || (Opcode mi =? X86_JMP_2) then imm & 0xffff else imm.

Definition printPCRelImm (OpNo : Z) (st : pst) : outcome pst :=
  Op ← MCInst_getOperand (p_mi st) OpNo;
  if MCOperand_isImm Op then
    _ ← (if (e_mode e =? Cs.CS_MODE_16) && (Opcode (p_mi st) =? X86_JMP_4) then aget (x86_prefix (p_mi st)) 2 else Ok 0);
    let imm := branch_target (p_mi st) (MCOperand_getImm Op) in
    st ← if_detail (fun d =>
        d ← on_current (fun op => Ok (op_type X86_OP_IMM op)) d;
        n ← destination_size st d;
        d ← on_current (fun op => Ok (op_union (VImm imm) (op_size n op))) d;
        next_operand d) st;
    Ok (first_size (imm_size (p_mi st)) st)
  else Ok st.

(** ** The instruction *)

End printer.

(** A call that [printInstruction] makes. *)
Inductive call :=
| Operand (OpNo : Z)
| IMem (n OpNo : Z)
| OpaqueMem (OpNo : Z)
| SrcIdx (n OpNo : Z)
| DstIdx (n OpNo : Z)
| MemOffs (n OpNo : Z)
| PCRelImm (OpNo : Z)
| AddReg (reg : Z)
| AddImm (v : Z).

(** The cases of its switches: the calls, and whether it returns after them. *)
Definition fragment0 (v : Z) : list call * bool :=
  match v with
  | 1 => ([Operand 0], false)
  | 2 => ([IMem 2 0], false)
  | 3 => ([Operand 1], false)
  | 4 => ([IMem 4 0], false)
  | 5 => ([IMem 8 0], false)
  | 6 => ([IMem 1 0], false)
  | 7 => ([PCRelImm 0], false)
  | 8 => ([SrcIdx 1 1; DstIdx 1 0], true)
  | 9 => ([SrcIdx 4 1; DstIdx 4 0], true)
  | 10 => ([SrcIdx 8 1; DstIdx 8 0], true)
  | 11 => ([SrcIdx 2 1; DstIdx 2 0], true)
  | 12 => ([IMem 16 0], true)
  | 13 => ([OpaqueMem 0], true)
  | 14 => ([DstIdx 1 0], false)
  | 15 => ([DstIdx 4 0], false)
  | 16 => ([DstIdx 2 0], false)
  | 17 => ([SrcIdx 1 0], true)
  | 18 => ([SrcIdx 4 0], true)
  | 19 => ([SrcIdx 8 0], true)
  | 20 => ([SrcIdx 2 0], true)
  | 21 => ([IMem 2 2; Operand 1], true)
  | 22 => ([IMem 4 2; Operand 1], true)
  | 23 => ([IMem 8 2; Operand 1], true)
  | 24 => ([IMem 1 2; Operand 1], true)
  | 25 => ([MemOffs 2 0], false)
  | 26 => ([MemOffs 4 0], false)
  | 27 => ([MemOffs 8 0], false)
  | 28 => ([MemOffs 1 0], false)
  | 29 => ([DstIdx 8 0], false)
  | 30 => ([Operand 2; Operand 1], true)
  | _ => ([], true)
  end.

Definition fragment1 (v : Z) : list call * bool :=
  match v with
  | 1 => ([], false)
  | 2 => ([Operand 0], true)
  | 3 => ([AddReg X86_REG_DX], true)
  | 4 => ([AddReg X86_REG_AX], true)
  | 5 => ([AddReg X86_REG_EAX], true)
  | 6 => ([AddReg X86_REG_RAX], true)
  | 7 => ([AddReg X86_REG_AL], true)
  | 8 => ([AddImm 1], true)
  | 9 => ([AddReg X86_REG_CL], true)
  | _ => ([], true)
  end.

Definition fragment2 (v : Z) : list call * bool :=
  match v with
  | 1 => ([Operand 2], false)
  | 2 => ([IMem 2 2], true)
  | 3 => ([IMem 4 2], true)
  | 4 => ([IMem 8 2], true)
  | 5 => ([IMem 1 2], true)
  | 6 => ([IMem 4 1], false)
  | 7 => ([Operand 1], false)
  | 8 => ([IMem 8 1], false)
  | 9 => ([IMem 2 1], false)
  | 10 => ([IMem 1 1], false)
  | 11 => ([IMem 16 1], true)
  | 12 => ([OpaqueMem 1], true)
  | 13 => ([SrcIdx 1 1], true)
  | 14 => ([SrcIdx 4 1], true)
  | 15 => ([SrcIdx 8 1], true)
  | 16 => ([SrcIdx 2 1], true)
  | 17 => ([Operand 0], true)
  | _ => ([Operand 5], false)
  end.

Definition fragment3 (v : Z) : list call * bool :=
  match v with
  | 1 => ([], false)
  | 3 => ([AddReg X86_REG_CL], true)
  | _ => ([], true)
  end.

Definition fragment4 (v : Z) : list call * bool :=
  match v with
  | 1 => ([Operand 2], true)
  | 2 => ([IMem 8 2], true)
  | 3 => ([Operand 6], false)
  | 4 => ([Operand 3], true)
  | _ => ([IMem 4 2], true)
  end.

Definition fragment5 (v : Z) : list call * bool := (if ctrue v then [Operand 7; Operand 8] else [], true).

(** One switch after another, until one returns. *)
Fixpoint fragments (l : list (list call * bool)) : list call :=
  match l with
  | [] => []
  | (calls, stop) :: l => calls ++ if stop then [] else fragments l
  end.

Definition calls_of (Bits : Z) : list call :=
  fragments [fragment0 ((Bits >> 12) & 31); fragment1 ((Bits >> 17) & 15); fragment2 ((Bits >> 21) & 31);
             fragment3 ((Bits >> 26) & 3); fragment4 ((Bits >> 28) & 7); fragment5 ((Bits >> 31) & 1)].

Section instruction.
  Context (e : env).

Definition run_call (c : call) (st : pst) : outcome pst :=
  match c with
  | Operand k => printOperand e k st
  | IMem n k => printimem e n k st
  | OpaqueMem k => printopaquemem e k st
  | SrcIdx n k => printSrcIdx_ e n k st
  | DstIdx n k => printDstIdx_ e n k st
  | MemOffs n k => printMemOffs_ e n k st
  | PCRelImm k => printPCRelImm e k st
  | AddReg r => op_addReg e r st
  | AddImm v => op_addImm e v st
  end.

Fixpoint run_calls (l : list call) (st : pst) : outcome pst :=
  match l with
  | [] => Ok st
  | c :: l => st ← run_call c st; run_calls l st
  end.

Definition printInstruction (st : pst) : outcome pst :=
  Bits ← aget OpInfo (MCInst_getOpcode (p_mi st));
  run_calls (calls_of Bits) st.

(** [memmove(&operands[1], &operands[0], ...)] *)
Definition shift_operands (d : cs_x86) : cs_x86 := set_ops d (x_op_count d) (take 1 (x_operands d) ++ take 7 (x_operands d)).

(** The register that belongs in front. *)
Definition add_first (reg : Z) (d : cs_x86) : outcome cs_x86 :=
  n ← aget (regsizes e) reg;
  d ← on_op 0 (reg_operand reg n) (shift_operands d);
  d ← on_op 1 (fun op => Ok (op_size n op)) d;
  next_operand d.

(** The two registers of IN and OUT. *)
Definition add_both (reg reg2 : Z) (d : cs_x86) : outcome cs_x86 :=
  n ← aget (regsizes e) reg;
  d ← on_op 0 (reg_operand reg n) d;
  n2 ← aget (regsizes e) reg2;
  d ← on_op 1 (reg_operand reg2 n2) d;
  Ok (set_ops d 2 (x_operands d)).

Definition X86_Intel_printInst (st : pst) : outcome pst :=
  st ← printInstruction st;
  let reg := X86_insn_reg_intel (MCInst_getOpcode (p_mi st)) in
  '(st, reg) ←
    (if ctrue (e_detail e) then
       if ctrue reg then st ← on_detail (add_first reg) st; Ok (st, reg)
       else
         match X86_insn_reg_intel2 (MCInst_getOpcode (p_mi st)) with
         | Some (reg, reg2) => st ← on_detail (add_both reg reg2) st; Ok (st, reg)
         | None => Ok (st, reg)
         end
     else Ok (st, reg));
  if (op1_size (p_mi st) =? 0) && ctrue reg then n ← aget (regsizes e) reg; Ok (first_size n st) else Ok st.

End instruction.

End X86Printer.
