(* ===== verification/X86Show.v ===== *)
(** * What the x86 printer shows

    The operands that [X86_Intel_printInst] leaves in the details of an
    instruction, as a function of its number and of the operands of the machine
    instruction; and that the printer computes them, within the bounds of every
    array, for every instruction the decoder can produce: the calls that
    [OpInfo] lists for an instruction agree with the operands that the operand
    tables of the decoder give it. *)

From Stdlib Require Import ZArith Lia.
From stdpp Require Import sets.
From S2P Require Import Prelude CsUtils CsMcInst CsCore X86Tables X86Decoder X86Decode X86Translate X86Disasm X86Mapping X86Printer.

Module X86Show.

Import X86Data McInst X86Tables X86Decoder X86Translate X86Disasm X86Mapping X86Printer.
Open Scope c_scope.

#[local] Opaque insn_ids insns x86OperandSets modRMTable x86DisassemblerInstrSpecifiers.

(** ** The shape of an instruction *)

(** What is known of one operand of a machine instruction: a register that
    has a size, any register, any number, a displacement. *)
Inductive slot := SReg | SAny | SImm | SDisp.

Definition REGS := 234.

Definition slot_ok (k : slot) (o : mc_operand) : Prop :=
  match k, o with
  | SReg, MReg r => 0 ≤ r < REGS
  | SAny, MReg r => 0 ≤ r < 2 ^ 32
  | SImm, MImm v => - 2 ^ 63 ≤ v < 2 ^ 63
  | SDisp, MImm v => - 2 ^ 31 ≤ v < 2 ^ 31
  | _, _ => False
  end.

Definition operand_shape (op : OperandSpecifier) : list slot :=
  let e := encoding op in
  let ty := type op in
  if bool_decide (e ∈ [ENCODING_REG; ENCODING_WRITEMASK; ENCODING_DI; ENCODING_FP; ENCODING_VVVV]) || is_opcode_reg e then [SReg]
  else if CASE_ENCODING_RM e then
    if bool_decide (ty ∈ rm_register_types) then [SReg] else [SAny; SImm; SAny; SDisp; SAny]
  else if is_immediate e then
    if bool_decide (ty ∈ [TYPE_XMM32; TYPE_XMM64; TYPE_XMM128; TYPE_XMM256; TYPE_XMM512]) then [SAny]
    else SImm :: (if (TYPE_MOFFS8 <=? ty) && (ty <=? TYPE_MOFFS64) then [SAny] else [])
  else if e =? ENCODING_SI then [SReg; SAny]
  else [].

Definition row_shape (row : list OperandSpecifier) : list slot :=
  mjoin ((fun op => operand_shape (resolve row op)) <$> take 5 row).

Lemma reg_slot r : 0 ≤ r < REGS → slot_ok SReg (reg_op r).
Proof. intros Hr. unfold slot_ok, reg_op, REGS in *. rewrite wrap_small; [done|]. unfold in_u. lia. Qed.

Lemma any_slot r : slot_ok SAny (reg_op r).
Proof. unfold slot_ok, reg_op, wrap. apply Z.mod_pos_bound. lia. Qed.

Lemma imm_slot v : slot_ok SImm (imm_op v).
Proof. unfold slot_ok, imm_op. exact (swrap_range 64 v ltac:(lia)). Qed.

Lemma zget_all (P : Z → Prop) l i : P 0 → Forall P l → P (zget l i).
Proof.
  intros H0 HF. unfold zget. destruct (l !! Z.to_nat i) as [x|] eqn:E; cbn; [|done]. exact (Forall_lookup_1 _ _ _ _ HF E).
Qed.

Lemma table_reg_all (P : Z → Prop) l i r : Forall P l → table_reg l i = Some r → P r.
Proof. intros HF. unfold table_reg. destruct (i <? 0); [done|]. intros E. exact (Forall_lookup_1 _ _ _ _ HF E). Qed.

Lemma regnums_sized : Forall (fun r => 0 ≤ r < REGS) llvmRegnums.
Proof. apply (bool_decide_unpack _). vm_compute. exact I. Qed.

Lemma all_regs_sized : Forall (fun r => 0 ≤ r < REGS) all_regs.
Proof. apply (bool_decide_unpack _). vm_compute. exact I. Qed.

Section shapes.
  Context (s : insn) (Hdisp : - 2 ^ 31 ≤ s displacement < 2 ^ 31).

Lemma address_shape base scale index :
  Forall2 slot_ok [SAny; SImm; SAny; SDisp; SAny] (address_view s base scale index).
Proof using Hdisp.
  unfold address_view, segment_view. constructor; [apply any_slot|]. constructor; [apply imm_slot|]. constructor; [apply any_slot|].
  constructor; [|constructor; [apply any_slot|constructor]]. unfold slot_ok, imm_op. rewrite swrap_small by lia. done.
Qed.

Lemma memory_shape l : memory_view s = Some l → Forall2 slot_ok [SAny; SImm; SAny; SDisp; SAny] l.
Proof using Hdisp.
  unfold memory_view. destruct (_ || _).
  - destruct (sib_base_reg s) as [b|]; [|done]. destruct (sib_index_reg s) as [i|]; [|done]. intros [= <-]. apply address_shape.
  - destruct (plain_base s) as [p|]; [|done]. intros [= <-]. apply address_shape.
Qed.

Lemma immediate_shape id n op :
  Forall2 slot_ok
    (if bool_decide (type op ∈ [TYPE_XMM32; TYPE_XMM64; TYPE_XMM128; TYPE_XMM256; TYPE_XMM512]) then [SAny]
     else SImm :: (if (TYPE_MOFFS8 <=? type op) && (type op <=? TYPE_MOFFS64) then [SAny] else [])) (immediate_view s id n op).
Proof using Type.
  clear Hdisp.
  unfold immediate_view. cbv zeta. set (v := extend_immediate _ _ _ _). clearbody v.
  destruct (Z.eqb_spec (type op) TYPE_XMM32) as [->|H1]; [constructor; [apply any_slot|constructor]|].
  destruct (Z.eqb_spec (type op) TYPE_XMM64) as [->|H2]; [constructor; [apply any_slot|constructor]|].
  destruct (Z.eqb_spec (type op) TYPE_XMM128) as [->|H3]; [constructor; [apply any_slot|constructor]|].
  destruct (Z.eqb_spec (type op) TYPE_XMM256) as [->|H4]; [constructor; [apply any_slot|constructor]|].
  destruct (Z.eqb_spec (type op) TYPE_XMM512) as [->|H5]; [constructor; [apply any_slot|constructor]|]. cbn [orb].
  rewrite bool_decide_eq_false_2 by (rewrite !elem_of_cons, elem_of_nil; tauto).
  constructor; [apply imm_slot|]. destruct (_ && _); constructor; [apply any_slot|constructor].
Qed.

Lemma view_shape id n op l : operand_view s id n op = Some l → Forall2 slot_ok (operand_shape op) l.
Proof using Hdisp.
  unfold operand_view, operand_shape. cbv zeta. set (e := encoding op).
  assert (∀ r, 0 ≤ r < REGS → Forall2 slot_ok [SReg] [reg_op r]) as Hreg by (intros r Hr; constructor; [by apply reg_slot|constructor]).
  assert (∀ i, Forall2 slot_ok [SReg] [reg_op (zget llvmRegnums i)]) as Hnum.
  { intros i. apply Hreg, (zget_all (fun r => 0 ≤ r < REGS)); [done|exact regnums_sized]. }
  assert (∀ a b c, 0 ≤ a < REGS → 0 ≤ b < REGS → 0 ≤ c < REGS → slot_ok SReg (index_view s a b c)) as Hidx.
  { intros a b c ? ? ?. unfold index_view. cbv zeta. apply reg_slot. repeat case_match; done. }
  destruct (Z.eqb_spec e ENCODING_NONE) as [->|_]; [intros [= <-]; constructor|].
  destruct (Z.eqb_spec e ENCODING_REG) as [->|_]; [intros [= <-]; apply Hnum|].
  destruct (Z.eqb_spec e ENCODING_WRITEMASK) as [->|_].
  { destruct (Z.ltb_spec (u8 (s writemask)) 8); [|done]. intros [= <-]. apply Hreg.
    assert (0 ≤ u8 (s writemask)) by (unfold wrap; apply Z.mod_pos_bound; lia). unfold REGS, X86_K0. lia. }
  destruct (CASE_ENCODING_RM e) eqn:Erm.
  { rewrite (proj2 (orb_false_iff _ _)); [|split].
    2, 3: apply bool_decide_eq_false; intros Hin; revert Erm; in_cases Hin; rewrite Hin; discriminate.
    unfold rm_view. destruct (bool_decide _).
    - destruct (table_reg all_regs _) as [r|] eqn:Er; [|done]. intros [= <-]. apply Hreg.
      exact (table_reg_all _ _ _ _ all_regs_sized Er).
    - destruct (bool_decide _); [apply memory_shape|done]. }
  destruct ((ENCODING_CB <=? e) && (e <=? ENCODING_CT)); [done|].
  destruct (is_immediate e) eqn:Eimm.
  { rewrite (proj2 (orb_false_iff _ _)); [|split].
    2, 3: apply bool_decide_eq_false; intros Hin; revert Eimm; in_cases Hin; rewrite Hin; discriminate.
    intros [= <-]. apply immediate_shape. }
  destruct (Z.eqb_spec e ENCODING_SI) as [->|_].
  { intros [= <-]. constructor; [|constructor; [apply any_slot|constructor]]. apply Hidx; done. }
  destruct (Z.eqb_spec e ENCODING_DI) as [->|_]; [intros [= <-]; constructor; [by apply Hidx|constructor]|].
  destruct (is_opcode_reg e) eqn:Eop; [intros [= <-]; rewrite orb_true_r; apply Hnum|].
  destruct (Z.eqb_spec e ENCODING_FP) as [->|_].
  { intros [= <-]. apply Hreg. assert (0 ≤ (s modRM & 7) < 8) by (rewrite (Z.land_ones _ 3) by lia; apply Z.mod_pos_bound; lia).
    unfold REGS, X86_ST0. lia. }
  destruct (Z.eqb_spec e ENCODING_VVVV) as [->|_]; [intros [= <-]; apply Hnum|done].
Qed.

Lemma views_shape row id ops n l : operand_views row s id n ops = Some l →
  Forall2 slot_ok (mjoin ((fun op => operand_shape (resolve row op)) <$> ops)) l.
Proof using Hdisp.
  revert n l. induction ops as [|op ops IH]; intros n l; cbn [operand_views]; [intros [= <-]; constructor|].
  destruct (operand_view _ _ _ _) as [l1|] eqn:E1; [|done]. destruct (operand_views _ _ _ _ _) as [l2|] eqn:E2; [|done].
  intros [= <-]. cbn. apply Forall2_app; [by eapply view_shape|by eapply IH].
Qed.

End shapes.

(** ** The operands shown *)

Section shown.
  (** The environment; the number of the instruction, the size of its
      immediate, its operand-size prefix, and its operands. *)
  Context (e : env) (id isz opsize_prefix : Z) (l : list mc_operand).

Definition shown_reg (r : Z) : cs_x86_op := mkX86Op X86_OP_REG (VReg r) (zget (regsizes e) r) 0 false.
Definition shown_imm (v n : Z) : cs_x86_op := mkX86Op X86_OP_IMM (VImm v) n 0 false.
Definition shown_mem (n segment base index scale disp : Z) : cs_x86_op :=
  mkX86Op X86_OP_MEM (VMem segment base index scale disp) n 0 false.

(** The size of an immediate is that of the first operand if there is one. *)
Definition first_or (n : Z) (acc : list cs_x86_op) : Z := match acc with op :: _ => xo_size op | [] => n end.

Definition is_far : bool := (e_id e =? X86_INS_LCALL) || (e_id e =? X86_INS_LJMP).
Definition small (v : Z) : bool := (0 <=? v) && (v <=? Utils.HEX_THRESHOLD).

(** The number shown for an immediate and its size, 0 if the table has none:
    port numbers, interrupts and one-byte immediates are shown as a byte, the
    segment of a far pointer and the argument of RET as a word, and the
    operands of AND, OR and XOR without their sign. *)
Definition adjusted (k v : Z) : Z * Z :=
  let n := immediate_size_of id in
  let v := if n =? 1 then v mod 2 ^ 8 else v in
  if bool_decide (e_id e ∈ [X86_INS_IN; X86_INS_OUT; X86_INS_INT]) then (v mod 2 ^ 8, n)
  else if is_far then if k =? 1 then (v mod 2 ^ 16, 2) else (v, n)
  else if bool_decide (e_id e ∈ [X86_INS_AND; X86_INS_OR; X86_INS_XOR]) then
    (if small v then v else s64 (v mod 2 ^ (8 * (if n =? 0 then isz else n))), n)
  else if (e_id e =? X86_INS_RET) || (e_id e =? X86_INS_RETF) then (if small v then v else v mod 2 ^ 16, n)
  else (v, n).

(** The target of a branch: its displacement is relative to the end of the
    instruction, and the sum is taken modulo the size of the instruction
    pointer. *)
Definition target_width : Z :=
  if (id =? X86_CALLpcrel16) || (id =? X86_JMP_2) then 16
  else if e_mode e =? Cs.CS_MODE_64 then 64
  else if (e_mode e =? Cs.CS_MODE_16) && negb (id =? X86_CALLpcrel32) && (negb (id =? X86_JMP_4) || negb (opsize_prefix =? 0x66)) then 16
  else 32.
Definition target (v : Z) : Z :=
  let t := v + e_size e + e_address e in
  if target_width =? 64 then s64 t else t mod 2 ^ target_width.

Definition opaque_size : Z :=
  if e_mode e =? Cs.CS_MODE_16 then if is_far then 4 else 2
  else if e_mode e =? Cs.CS_MODE_32 then if is_far then 6 else 4
  else if is_far then 10 else 8.

(** An index register is shown as a memory operand; the code tests for the
    value [CS_OPT_ON] there, and for any other that is not 0 it is a register. *)
Definition shown_index (n segment r : Z) : cs_x86_op :=
  if e_detail e =? Cs.CS_OPT_ON then shown_mem n segment r 0 1 0 else shown_reg r.

Definition show_memory (n k : Z) : option cs_x86_op :=
  match drop (Z.to_nat k) l with
  | MReg b :: MImm sc :: MReg i :: MImm d :: MReg sg :: _ => Some (shown_mem n sg b i (s32 sc) d)
  | _ => None
  end.

(** The operand a call adds to those shown before. *)
Definition show (acc : list cs_x86_op) (c : call) : option cs_x86_op :=
  match c with
  | Operand k =>
      match drop (Z.to_nat k) l with
      | MReg r :: _ => Some (shown_reg r)
      | MImm v :: _ =>
          let '(v, n) := adjusted k v in
          Some (shown_imm v (if n =? 0 then if is_far then isz else first_or isz acc else n))
      | [] => None
      end
  | IMem n k => show_memory n k
  | OpaqueMem k => show_memory opaque_size k
  | SrcIdx n k => match drop (Z.to_nat k) l with MReg r :: MReg sg :: _ => Some (shown_index n sg r) | _ => None end
  | DstIdx n k =>
      match drop (Z.to_nat k) l with
      | MReg r :: _ => Some (shown_index n (if e_mode e =? Cs.CS_MODE_64 then 0 else X86_REG_ES) r)
      | _ => None
      end
  | MemOffs n k => match drop (Z.to_nat k) l with MImm d :: MReg sg :: _ => Some (shown_mem n sg 0 0 1 d) | _ => None end
  | PCRelImm k => match drop (Z.to_nat k) l with MImm v :: _ => Some (shown_imm (target v) (first_or isz acc)) | _ => None end
  | AddReg r => Some (shown_reg r)
  | AddImm v => Some (shown_imm v (first_or isz acc))
  end.

Fixpoint show_all (acc : list cs_x86_op) (cs : list call) : option (list cs_x86_op) :=
  match cs with
  | [] => Some acc
  | c :: cs => op ← show acc c; show_all (acc ++ [op]) cs
  end.

(** A register that belongs in front gives its size to what follows it. *)
Definition with_first (reg : Z) (ops : list cs_x86_op) : list cs_x86_op :=
  shown_reg reg :: match ops with [] => [] | op :: ops => op_size (zget (regsizes e) reg) op :: ops end.

Definition public_operands : option (list cs_x86_op) :=
  ops ← show_all [] (calls_of (zget OpInfo id));
  Some (if negb (X86_insn_reg_intel id =? 0) then with_first (X86_insn_reg_intel id) ops
        else match X86_insn_reg_intel2 id with Some (r1, r2) => [shown_reg r1; shown_reg r2] | None => ops end).

End shown.

(** The type of an operand names the member of the union it holds. *)
Definition typed (op : cs_x86_op) : Prop :=
  match xo_value op with
  | V0 => False
  | VReg _ => xo_type op = X86_OP_REG
  | VImm _ => xo_type op = X86_OP_IMM
  | VMem _ _ _ _ _ => xo_type op = X86_OP_MEM
  end.

Lemma show_typed e id isz pre l acc c op : show e id isz pre l acc c = Some op → typed op.
Proof.
  unfold show, show_memory, shown_index. intros H.
  repeat match type of H with
  | match ?x with _ => _ end = _ => destruct x
  | (let '(_, _) := ?x in _) = _ => destruct x
  | context [if ?b then _ else _] => destruct b
  end; try discriminate H; by injection H as <-.
Qed.

Lemma show_all_typed e id isz pre l cs acc ops : Forall typed acc → show_all e id isz pre l acc cs = Some ops → Forall typed ops.
Proof.
  revert acc. induction cs as [|c cs IH]; intros acc Ha; cbn [show_all]; [by intros [= <-]|].
  destruct (show e id isz pre l acc c) as [op|] eqn:E; [|done]. cbn [mbind option_bind]. apply IH. apply Forall_app. split; [done|].
  constructor; [by eapply show_typed|constructor].
Qed.

Lemma public_operands_typed e id isz pre l ops : public_operands e id isz pre l = Some ops → Forall typed ops.
Proof.
  unfold public_operands. destruct (show_all e id isz pre l [] _) as [l0|] eqn:E; [|done]. cbn [mbind option_bind]. intros [= <-].
  apply show_all_typed in E; [|constructor]. case_match.
  - constructor; [done|]. destruct l0 as [|op l0]; [constructor|]. apply Forall_cons in E as [E1 E2]. by constructor.
  - destruct (X86_insn_reg_intel2 id) as [[r1 r2]|]; [|done]. by repeat constructor.
Qed.

(** ** The tables agree *)

(** The operands [c] reads are of the kind it takes. *)
Definition call_fits (id : Z) (shape : list slot) (c : call) : bool :=
  let mem k := match drop (Z.to_nat k) shape with SAny :: SImm :: SAny :: SDisp :: SAny :: _ => 0 <=? k | _ => false end in
  match c with
  | Operand k => match drop (Z.to_nat k) shape with SReg :: _ => 0 <=? k | SImm :: _ => (0 <=? k) && (21 <=? id) | _ => false end
  | IMem n k => mem k
  | OpaqueMem k => mem k
  | SrcIdx n k => match drop (Z.to_nat k) shape with SReg :: SAny :: _ => 0 <=? k | _ => false end
  | DstIdx n k => match drop (Z.to_nat k) shape with SReg :: _ => 0 <=? k | _ => false end
  | MemOffs n k => match drop (Z.to_nat k) shape with SImm :: SAny :: _ => 0 <=? k | _ => false end
  | PCRelImm k => match drop (Z.to_nat k) shape with SImm :: _ => 0 <=? k | _ => false end
  | AddReg r => (0 <=? r) && (r <? REGS)
  | AddImm v => true
  end.

Definition instruction_fits (id : Z) : bool :=
  match spec_operands id ≫= aget x86OperandSets with
  | Ok row =>
      let calls := calls_of (zget OpInfo id) in
      forallb (call_fits id (row_shape row)) calls && (length calls <=? 6)%nat && (id <? zlen OpInfo)
  | _ => false
  end.

#[local] Transparent x86OperandSets modRMTable x86DisassemblerInstrSpecifiers.
Lemma instructions_fit : forallb (fun id => (id <=? 0) || instruction_fits id) modRMTable = true.
Proof. vm_compute. reflexivity. Qed.
#[local] Opaque x86OperandSets modRMTable x86DisassemblerInstrSpecifiers OpInfo.

Lemma embedded_regs :
  forallb (fun p => (0 <=? p.2) && (p.2 <? REGS)) insn_regs_intel &&
  forallb (fun p => (0 <=? p.1.2) && (p.1.2 <? REGS) && ((0 <=? p.2) && (p.2 <? REGS))) insn_regs_intel2 = true.
Proof. vm_compute. reflexivity. Qed.

(** ** Running the printer *)

Section runs.
  Context (e : env) (d0 : cs_x86) (dt0 : option cs_x86).

(** The printer's state with the operands [acc] done and [rest] left, where
    details are wanted. *)
Definition St (mi : MCInst) (b : bool) (acc rest : list cs_x86_op) : pst :=
  mkP mi (if ctrue (e_detail e) then Some (set_ops d0 (zlen acc) (acc ++ rest)) else dt0) b.

(** Instructions that differ in the sizes the printer notes at most. *)
Record like (mi mi' : MCInst) : Prop := {
  lk_operands : Operands mi' = Operands mi;
  lk_size : size mi' = size mi;
  lk_opcode : Opcode mi' = Opcode mi ∧ OpcodePub mi' = OpcodePub mi;
  lk_imm : imm_size mi' = imm_size mi;
  lk_prefix : x86_prefix mi' = x86_prefix mi
}.

Lemma like_refl mi : like mi mi.
Proof. by split. Qed.
Lemma like_trans m1 m2 m3 : like m1 m2 → like m2 m3 → like m1 m3.
Proof. intros [A1 A2 [A3 A4] A5 A6] [B1 B2 [B3 B4] B5 B6]. split; [congruence|congruence|split; congruence|congruence|congruence]. Qed.
Lemma like_opsize n mi : like mi (set_x86opsize mi n).
Proof. by split. Qed.

Lemma like_first n st : like (p_mi st) (p_mi (first_size n st)).
Proof. unfold first_size. destruct (_ =? 0); by split. Qed.

Lemma first_size_St n mi b acc rest : ∃ mi', first_size n (St mi b acc rest) = St mi' b acc rest ∧ like mi mi'.
Proof. unfold first_size. destruct (_ =? 0); eexists; (split; [done|]); by split. Qed.

(** Updates of the details, whether wanted or not. *)
Lemma if_detail_St f mi b acc rest acc' rest' :
  f (set_ops d0 (zlen acc) (acc ++ rest)) = Ok (set_ops d0 (zlen acc') (acc' ++ rest')) →
  if_detail e f (St mi b acc rest) = Ok (St mi b acc' rest').
Proof.
  intros Hf. unfold if_detail, St, on_detail. destruct (ctrue (e_detail e)); [|done]. cbn [p_detail]. by rewrite Hf.
Qed.

Lemma on_op_mid f d n acc cur rest op :
  f cur = Ok op → on_op (zlen acc) f (set_ops d n (acc ++ cur :: rest)) = Ok (set_ops d n (acc ++ op :: rest)).
Proof. intros Hf. unfold on_op. cbn [x_operands set_ops]. rewrite Utils.aget_mid. cbn [mbind outcome_bind]. rewrite Hf. cbn [mbind outcome_bind]. by rewrite Utils.aset_mid. Qed.

Lemma current_St f mi b acc cur rest op :
  f cur = Ok op → if_detail e (on_current f) (St mi b acc (cur :: rest)) = Ok (St mi b acc (op :: rest)).
Proof. intros Hf. apply if_detail_St. unfold on_current. cbn [x_op_count set_ops]. by apply on_op_mid. Qed.

Lemma next_ops d acc op rest : zlen acc < 255 →
  next_operand (set_ops d (zlen acc) (acc ++ op :: rest)) = Ok (set_ops d (zlen (acc ++ [op])) ((acc ++ [op]) ++ rest)).
Proof.
  intros Hl. unfold next_operand. cbn [x_op_count x_operands set_ops]. pose proof (zlen_nonneg acc).
  rewrite zlen_app, wrap_small by (unfold in_u; lia). rewrite <- app_assoc. done.
Qed.

Lemma next_St mi b acc op rest : zlen acc < 255 →
  if_detail e next_operand (St mi b acc (op :: rest)) = Ok (St mi b (acc ++ [op]) rest).
Proof. intros Hl. apply if_detail_St. by apply next_ops. Qed.

(** A finished operand. *)
Lemma add_St f mi b acc cur rest op : zlen acc < 255 → f cur = Ok op →
  if_detail e (fun d => d ← on_current f d; next_operand d) (St mi b acc (cur :: rest)) = Ok (St mi b (acc ++ [op]) rest).
Proof.
  intros Hl Hf. apply if_detail_St. unfold on_current at 1. cbn [x_op_count set_ops]. rewrite (on_op_mid f d0 (zlen acc) acc cur rest op Hf).
  cbn [mbind outcome_bind]. by apply next_ops.
Qed.

Lemma destination_St st acc cur rest :
  destination_size st (set_ops d0 (zlen acc) (acc ++ cur :: rest)) = Ok (first_or (imm_size (p_mi st)) acc).
Proof.
  unfold destination_size. cbn [x_op_count x_operands set_ops]. destruct acc as [|op acc]; [done|].
  replace (0 <? zlen (op :: acc)) with true; [done|]. symmetry. apply Z.ltb_lt. unfold zlen. cbn [length]. lia.
Qed.

(** Memory accesses are marked only for the value [CS_OPT_ON]. *)
Lemma mem_access_on mi b acc rest : e_detail e = Cs.CS_OPT_ON →
  set_mem_access e true (St mi b acc rest) = Ok (St mi true acc rest).
Proof. intros H. unfold set_mem_access. by rewrite H. Qed.

Lemma mem_access_off mi b acc op rest : zlen acc < 255 → e_detail e = Cs.CS_OPT_ON →
  set_mem_access e false (St mi b acc (op :: rest)) = Ok (St mi false (acc ++ [op]) rest).
Proof.
  intros Hl H. unfold set_mem_access, St, on_detail. rewrite H. change (Cs.CS_OPT_ON =? Cs.CS_OPT_ON) with true.
  change (ctrue Cs.CS_OPT_ON) with true. cbn [negb p_mi p_detail]. by rewrite next_ops.
Qed.

Lemma mem_access_other b st : e_detail e ≠ Cs.CS_OPT_ON → set_mem_access e b st = Ok st.
Proof. intros H. unfold set_mem_access. by rewrite (proj2 (Z.eqb_neq _ _) H). Qed.

End runs.

(** ** The calls *)

(** The operand at [k] of an instruction whose operands are [l]. *)
Definition reads (mi : MCInst) (k : Z) (o : mc_operand) : Prop :=
  ∃ op, MCInst_getOperand mi k = Ok op ∧
    match o with
    | MReg r => MCOperand_isReg op = true ∧ MCOperand_getReg op = r
    | MImm v => MCOperand_isReg op = false ∧ MCOperand_isImm op = true ∧ MCOperand_getImm op = v
    end.

Lemma reads_at mi l k o : views mi = Some <$> l → 0 ≤ k → l !! Z.to_nat k = Some o → reads mi k o.
Proof.
  intros Hv Hk Hl. assert (views mi !! Z.to_nat k = Some (Some o)) as H by (rewrite Hv, list_lookup_fmap, Hl; done).
  unfold views in H. rewrite list_lookup_fmap in H. destruct (McInst.operands mi !! Z.to_nat k) as [op|] eqn:E; [|done].
  cbn in H. injection H as H. exists op. split.
  - apply aget_Ok_inv. split; [done|]. unfold McInst.operands in E. by apply lookup_take_Some in E as [E _].
  - unfold view in H. destruct (MCOperand_isReg op) eqn:Er; [by injection H as <-|].
    destruct (MCOperand_isImm op) eqn:Ei; [by injection H as <-|done].
Qed.

Lemma reads_drop mi l k j o r : views mi = Some <$> l → 0 ≤ k → drop (Z.to_nat k) l !! j = Some o → r = k + Z.of_nat j → reads mi r o.
Proof.
  intros Hv Hk Hl ->. apply (reads_at mi l); [done|lia|]. rewrite lookup_drop in Hl. rewrite <- Hl. f_equal. lia.
Qed.

Section calls.
  Context (e : env) (d0 : cs_x86) (dt0 : option cs_x86) (mi0 : MCInst) (l : list mc_operand).
  Hypothesis mode_ok : e_mode e = Cs.CS_MODE_16 ∨ e_mode e = Cs.CS_MODE_32 ∨ e_mode e = Cs.CS_MODE_64.
  Hypothesis sizes_ok : zlen (regsizes e) = REGS.
  Hypothesis syntax_ok : e_syntax e = CS_OPT_SYNTAX_INTEL.
  Hypothesis imm_ok : imm_size mi0 = 2 ∨ imm_size mi0 = 4 ∨ imm_size mi0 = 8.
  Hypothesis prefix_ok : zlen (x86_prefix mi0) = 4.
  Hypothesis views_ok : views mi0 = Some <$> l.

#[local] Notation St := (St e d0 dt0).

Lemma like_views mi : like mi0 mi → views mi = Some <$> l.
Proof using views_ok. intros [H1 H2 _ _ _]. unfold views, McInst.operands. rewrite H1, H2. exact views_ok. Qed.

Lemma mask_read : ∃ v, aget arch_masks (e_mode e) = Ok v.
Proof using mode_ok. apply aget_is_Ok. change (zlen arch_masks) with 9. destruct mode_ok as [->|[->| ->]]; done. Qed.

Lemma reg_size r : 0 ≤ r < REGS → aget (regsizes e) r = Ok (zget (regsizes e) r).
Proof using sizes_ok. intros Hr. apply aget_zget. rewrite sizes_ok. done. Qed.

(** The end of the functions that note the size of the first operand. *)
Lemma first_reg n mi b acc rest :
  ∃ mi', (if op1_size (p_mi (St mi b acc rest)) =? 0 then Ok (first_size n (St mi b acc rest)) else Ok (St mi b acc rest))
           = Ok (St mi' b acc rest) ∧ like mi mi'.
Proof using Type.
  destruct (first_size_St e d0 dt0 n mi b acc rest) as (mi' & E & Hl).
  rewrite E. destruct (_ =? 0); eexists; (split; [done|]); [done|apply like_refl].
Qed.

Lemma reg_added r : reg_operand r (zget (regsizes e) r) op0 = Ok (shown_reg e r).
Proof using Type. done. Qed.

Lemma op_addReg_runs r mi acc rest : 0 ≤ r < REGS → zlen acc < 255 →
  ∃ mi', op_addReg e r (St mi false acc (op0 :: rest)) = Ok (St mi' false (acc ++ [shown_reg e r]) rest) ∧ like mi mi'.
Proof using sizes_ok.
  intros Hr Hl. unfold op_addReg. rewrite (reg_size r Hr). cbn [mbind outcome_bind].
  rewrite (add_St e d0 dt0 _ mi false acc op0 rest (shown_reg e r) Hl (reg_added r)). cbn [mbind outcome_bind].
  apply first_reg.
Qed.

Lemma print_reg_runs r mi acc rest : 0 ≤ r < REGS → zlen acc < 255 →
  ∃ mi', print_reg e r (St mi false acc (op0 :: rest)) = Ok (St mi' false (acc ++ [shown_reg e r]) rest) ∧ like mi mi'.
Proof using sizes_ok. apply op_addReg_runs. Qed.

(** Over any finished operand, for which the rest of its fields are clear. *)
Lemma print_reg_over r mi acc cur rest : 0 ≤ r < REGS → zlen acc < 255 → xo_avx_bcast cur = 0 → xo_avx_zero_opmask cur = false →
  ∃ mi', print_reg e r (St mi false acc (cur :: rest)) = Ok (St mi' false (acc ++ [shown_reg e r]) rest) ∧ like mi mi'.
Proof using sizes_ok.
  intros Hr Hl Hb Hz. unfold print_reg. cbn [doing_mem St]. rewrite (reg_size r Hr). cbn [mbind outcome_bind].
  rewrite (add_St e d0 dt0 _ mi false acc cur rest (shown_reg e r) Hl).
  - cbn [mbind outcome_bind]. apply first_reg.
  - unfold reg_operand, op_size, op_union, op_type. cbn. by rewrite Hb, Hz.
Qed.

Lemma print_reg_mem r mi acc cur rest sg b i sc d : 0 ≤ r < REGS → xo_value cur = VMem sg b i sc d →
  ∃ mi', print_reg e r (St mi true acc (cur :: rest)) = Ok (St mi' true acc (op_union (VMem sg r i sc d) cur :: rest)) ∧ like mi mi'.
Proof using sizes_ok.
  intros Hr Hc. unfold print_reg. cbn [doing_mem St]. rewrite (reg_size r Hr).
  match goal with |- context [if_detail e ?f _] => change f with (on_current (mem_base r)) end.
  rewrite (current_St e d0 dt0 (mem_base r) mi true acc cur rest (op_union (VMem sg r i sc d) cur)).
  - cbn [mbind outcome_bind]. apply first_reg.
  - unfold mem_base, op_mem. rewrite Hc, wrap_small; [done|]. unfold in_u, REGS in *. lia.
Qed.

(** Immediates. *)
Lemma land_mask w v : 0 ≤ w → v & (2 ^ w - 1) = v mod 2 ^ w.
Proof using Type. intros Hw. rewrite <- Z.land_ones by done. by rewrite Z.ones_equiv. Qed.

Lemma land_byte v : v & 0xff = v mod 2 ^ 8.
Proof using Type. exact (land_mask 8 v ltac:(lia)). Qed.
Lemma land_word v : v & 0xffff = v mod 2 ^ 16.
Proof using Type. exact (land_mask 16 v ltac:(lia)). Qed.

Lemma mask_land n v : n = 1 ∨ n = 2 ∨ n = 4 ∨ n = 8 → ∃ m, aget arch_masks n = Ok m ∧ m & u64 v = v mod 2 ^ (8 * n).
Proof using Type.
  intros Hn. exists (2 ^ (8 * n) - 1). split; [by destruct Hn as [->|[->|[->| ->]]]|]. rewrite Z.land_comm, land_mask by lia.
  unfold wrap. apply Z.mod_mod_divide. exists (2 ^ (64 - 8 * n)). rewrite <- Z.pow_add_r by lia. f_equal. lia.
Qed.

Lemma adjust_imm_is mi k v : like mi0 mi →
  adjust_imm e mi k (if immediate_size_of (Opcode mi0) =? 1 then v & 0xff else v) (immediate_size_of (Opcode mi0)) =
    Ok (adjusted e (Opcode mi0) (imm_size mi0) k v).
Proof using imm_ok.
  intros Hlike. unfold adjust_imm, adjusted, is_far. cbv zeta. rewrite (land_byte v).
  pose proof (immediate_size_range (Opcode mi0)) as Hn. set (n := immediate_size_of (Opcode mi0)) in *. clearbody n.
  set (w := if n =? 1 then _ else v). clearbody w.
  rewrite (Z.land_comm 0xffff w), (land_byte w), !(land_word w).
  destruct (bool_decide (e_id e ∈ [X86_INS_IN; _; _])); [done|]. destruct ((e_id e =? X86_INS_LCALL) || _); [by destruct (k =? 1)|].
  destruct (bool_decide _).
  - fold (small w). destruct (small w); [done|]. rewrite (lk_imm _ _ Hlike).
    destruct (mask_land (if ctrue n then n else imm_size mi0) w) as (m & -> & E).
    { unfold ctrue. destruct (Z.eqb_spec n 0); cbn [negb]; [|by destruct Hn as [?|Hn]]. destruct imm_ok as [?|[?|?]]; auto. }
    cbn [mbind outcome_bind]. rewrite E. do 2 f_equal. unfold ctrue. by destruct (n =? 0).
  - destruct (_ || _); [|done]. fold (small w). by destruct (small w).
Qed.

Lemma print_imm_runs k v mi acc rest : like mi0 mi → 21 ≤ Opcode mi0 → zlen acc < 255 →
  let '(v', n) := adjusted e (Opcode mi0) (imm_size mi0) k v in
  print_imm e k v (St mi false acc (op0 :: rest)) = Ok (St mi false (acc ++
    [shown_imm v' (if n =? 0 then if is_far e then imm_size mi0 else first_or (imm_size mi0) acc else n)]) rest).
Proof using imm_ok.
  intros Hlike Hid Hl. pose proof (adjust_imm_is mi k v Hlike) as Ha. unfold print_imm. cbn [p_mi doing_mem X86Show.St].
  change (MCInst_getOpcode mi) with (Opcode mi). rewrite (proj1 (lk_opcode _ _ Hlike)). rewrite X86_immediate_size_finds by done.
  cbn [mbind outcome_bind]. rewrite Ha. cbn [mbind outcome_bind].
  assert (0 ≤ (adjusted e (Opcode mi0) (imm_size mi0) k v).2 < 256) as Hn.
  { unfold adjusted. pose proof (immediate_size_range (Opcode mi0)). repeat case_match; cbn [snd]; lia. }
  destruct (adjusted _ _ _ _ _) as [v' n]. cbn [snd] in Hn. apply if_detail_St.
  unfold on_current. cbn [x_op_count set_ops]. erewrite on_op_mid by reflexivity. cbn [mbind outcome_bind].
  set (n' := if n =? 0 then _ else n).
  assert ((if 0 <? n then Ok (u8 n) else if negb (e_id e =? X86_INS_LCALL) && negb (e_id e =? X86_INS_LJMP)
    then destination_size (St mi false acc (op0 :: rest)) (set_ops d0 (zlen acc) (acc ++ op_type X86_OP_IMM op0 :: rest)) else Ok (imm_size mi)) = Ok n') as ->.
  { unfold n'. destruct (Z.ltb_spec 0 n).
    - rewrite (proj2 (Z.eqb_neq n 0)) by lia. rewrite wrap_small; [done|]. unfold in_u. lia.
    - rewrite (proj2 (Z.eqb_eq n 0)) by lia. rewrite destination_St. cbn [p_mi X86Show.St]. rewrite (lk_imm _ _ Hlike). rewrite <- negb_orb.
      unfold is_far. by destruct (_ || _). }
  cbn [mbind outcome_bind x_op_count set_ops]. erewrite on_op_mid by reflexivity. cbn [mbind outcome_bind]. by rewrite next_ops.
Qed.

Lemma op_addImm_runs v mi acc rest : like mi0 mi → zlen acc < 255 →
  ∃ mi', op_addImm e v (St mi false acc (op0 :: rest)) =
    Ok (St mi' false (acc ++ [shown_imm v (first_or (imm_size mi0) acc)]) rest) ∧ like mi mi'.
Proof using syntax_ok.
  intros Hlike Hl. unfold op_addImm. rewrite syntax_ok. change (CS_OPT_SYNTAX_INTEL =? CS_OPT_SYNTAX_INTEL) with true. cbv iota.
  rewrite (if_detail_St e d0 dt0 _ mi false acc (op0 :: rest) (acc ++ [shown_imm v (first_or (imm_size mi0) acc)]) rest).
  - cbn [mbind outcome_bind negb]. rewrite andb_false_r. destruct (first_size_St e d0 dt0 (imm_size mi) mi false (acc ++ [shown_imm v (first_or (imm_size mi0) acc)]) rest)
      as (mi' & E & Hm). cbn [p_mi X86Show.St]. rewrite E. eauto.
  - unfold on_current. cbn [x_op_count set_ops]. erewrite on_op_mid by reflexivity. cbn [mbind outcome_bind].
    rewrite destination_St. cbn [mbind outcome_bind p_mi X86Show.St x_op_count set_ops]. erewrite on_op_mid by reflexivity.
    cbn [mbind outcome_bind]. rewrite (lk_imm _ _ Hlike). by rewrite next_ops.
Qed.

(** Memory operands. *)
Lemma print_segment_runs sg k mi bb acc cur rest b i sc d :
  reads mi k (MReg sg) → 0 ≤ sg < 2 ^ 32 → xo_value cur = VMem 0 b i sc d →
  print_segment e (s32 sg) k (St mi bb acc (cur :: rest)) = Ok (St mi bb acc (op_union (VMem sg b i sc d) cur :: rest)).
Proof using Type.
  clear. intros (op & Eop & _) Hsg Hc. unfold print_segment.
  assert (u32 (s32 sg) = sg) as Hw by (rewrite wrap_swrap by lia; apply wrap_small; done).
  destruct (ctrue (s32 sg)) eqn:Et.
  - unfold _printOperand. cbn [p_mi X86Show.St]. rewrite Eop. cbn [mbind outcome_bind]. apply current_St.
    unfold mem_segment, op_mem. by rewrite Hc, Hw.
  - apply ctrue_false in Et. rewrite Et in Hw. change (u32 0) with 0 in Hw. subst sg. rewrite <- Hc. by destruct cur.
Qed.

Lemma read_only (c : bool) k o st : reads (p_mi st) k o → (if c then _printOperand k st else Ok st) = Ok st.
Proof using Type. clear. intros (op & E & _). unfold _printOperand. rewrite E. by destruct c. Qed.

Lemma start_memory mi acc rest b i sc :
  if_detail e (on_current (mem_operand (St mi false acc (op0 :: rest)) b i sc)) (St mi false acc (op0 :: rest)) =
    Ok (St mi false acc (shown_mem (x86opsize mi) 0 b i sc 0 :: rest)).
Proof using Type. clear. by apply current_St. Qed.

Lemma set_disp v mi bb acc cur rest sg b i sc d : xo_value cur = VMem sg b i sc d →
  if_detail e (on_current (mem_disp v)) (St mi bb acc (cur :: rest)) = Ok (St mi bb acc (op_union (VMem sg b i sc v) cur :: rest)).
Proof using Type. clear. intros Hc. apply current_St. unfold mem_disp, op_mem. by rewrite Hc. Qed.

(** The end of a memory operand. *)
Lemma end_memory mi acc op rest : zlen acc < 255 →
  ∃ mi', (st ← if_detail e next_operand (St mi false acc (op :: rest)); Ok (first_size (x86opsize (p_mi st)) st)) =
    Ok (St mi' false (acc ++ [op]) rest) ∧ like mi mi'.
Proof using Type.
  clear. intros Hl. rewrite next_St by done. cbn [mbind outcome_bind].
  destruct (first_size_St e d0 dt0 (x86opsize (p_mi (St mi false (acc ++ [op]) rest))) mi false (acc ++ [op]) rest) as (mi' & -> & Hm). eauto.
Qed.

Lemma printMemReference_runs k mi acc rest b sc i d sg t : views mi = Some <$> l → 0 ≤ k →
  drop (Z.to_nat k) l = MReg b :: MImm sc :: MReg i :: MImm d :: MReg sg :: t →
  0 ≤ sg < 2 ^ 32 → - 2 ^ 31 ≤ d < 2 ^ 31 → zlen acc < 255 →
  ∃ mi', printMemReference e k (St mi false acc (op0 :: rest)) =
    Ok (St mi' false (acc ++ [shown_mem (x86opsize mi) sg b i (s32 sc) d]) rest) ∧ like mi mi'.
Proof using mode_ok.
  intros Hv Hk Hdrop Hsg Hd Hl.
  assert (∀ j o, drop (Z.to_nat k) l !! j = Some o → reads mi (k + Z.of_nat j) o) as Hr by (intros; by eapply reads_drop).
  rewrite Hdrop in Hr. unfold printMemReference. cbn [p_mi X86Show.St].
  destruct (Hr 0%nat _ eq_refl) as (o1 & E1 & _ & F1), (Hr 1%nat _ eq_refl) as (o2 & E2 & _ & _ & F2), (Hr 2%nat _ eq_refl) as (o3 & E3 & _ & F3),
    (Hr 3%nat _ eq_refl) as (o4 & E4 & _ & G4 & F4), (Hr 4%nat _ eq_refl) as (o5 & E5 & _ & F5).
  change (X86_AddrBaseReg) with (Z.of_nat 0). change (X86_AddrScaleAmt) with (Z.of_nat 1). change (X86_AddrIndexReg) with (Z.of_nat 2).
  change (X86_AddrDisp) with (Z.of_nat 3). change (X86_AddrSegmentReg) with (Z.of_nat 4).
  rewrite E1, E2, E3, E4, E5. cbn [mbind outcome_bind]. rewrite F1, F2, F3, F4, F5, G4.
  rewrite start_memory. cbn [mbind outcome_bind].
  rewrite (print_segment_runs sg _ mi false acc _ rest b i (s32 sc) 0) by (done || exact (Hr 4%nat _ eq_refl)). cbn [mbind outcome_bind].
  rewrite (read_only (ctrue b) _ (MReg b)) by exact (Hr 0%nat _ eq_refl). cbn [mbind outcome_bind].
  rewrite (read_only (ctrue i) _ (MReg i)) by exact (Hr 2%nat _ eq_refl). cbn [mbind outcome_bind].
  rewrite (set_disp d mi false acc _ rest sg b i (s32 sc) 0) by done. cbn [mbind outcome_bind].
  assert (∃ x, (if d <? 0 then if ctrue b || ctrue i then neg64 d else aget arch_masks (e_mode e) else Ok 0) = Ok x) as [x ->].
  { destruct (d <? 0); [|by eexists]. destruct (_ || _); [|apply mask_read]. unfold neg64. rewrite (proj2 (Z.eqb_neq d _)) by lia. by eexists. }
  cbn [mbind outcome_bind]. by apply end_memory.
Qed.

Lemma printMemOffset_runs k mi acc rest d sg t : views mi = Some <$> l → 0 ≤ k →
  drop (Z.to_nat k) l = MImm d :: MReg sg :: t → 0 ≤ sg < 2 ^ 32 → zlen acc < 255 →
  ∃ mi', printMemOffset e k (St mi false acc (op0 :: rest)) =
    Ok (St mi' false (acc ++ [shown_mem (x86opsize mi) sg 0 0 1 d]) rest) ∧ like mi mi'.
Proof using mode_ok.
  intros Hv Hk Hdrop Hsg Hl.
  assert (∀ j o, drop (Z.to_nat k) l !! j = Some o → reads mi (k + Z.of_nat j) o) as Hr by (intros; by eapply reads_drop).
  rewrite Hdrop in Hr. unfold printMemOffset. cbn [p_mi X86Show.St].
  destruct (Hr 0%nat _ eq_refl) as (o1 & E1 & _ & G1 & F1), (Hr 1%nat _ eq_refl) as (o2 & E2 & _ & F2).
  rewrite Z.add_0_r in E1. change (Z.of_nat 1) with 1 in E2. rewrite E1, E2. cbn [mbind outcome_bind]. rewrite F1, F2, G1.
  rewrite start_memory. cbn [mbind outcome_bind].
  rewrite (print_segment_runs sg _ mi false acc _ rest 0 0 1 0) by (done || exact (Hr 1%nat _ eq_refl)). cbn [mbind outcome_bind].
  rewrite (set_disp d mi false acc _ rest sg 0 0 1 0) by done. cbn [mbind outcome_bind].
  assert (∃ x, (if d <? 0 then aget arch_masks (e_mode e) else Ok 0) = Ok x) as [x ->].
  { destruct (d <? 0); [apply mask_read|by eexists]. }
  cbn [mbind outcome_bind]. by apply end_memory.
Qed.

(** An index register, after the memory operand was started. *)
Lemma index_runs k mi acc rest r n sg : reads mi k (MReg r) → 0 ≤ r < REGS → zlen acc < 255 →
  ∃ mi', (st ← set_mem_access e true (St mi false acc (shown_mem n sg 0 0 1 0 :: rest));
          st ← printOperand e k st; set_mem_access e false st) =
    Ok (St mi' false (acc ++ [shown_index e n sg r]) rest) ∧ like mi mi'.
Proof using sizes_ok.
  intros (op & Eop & Hreg & Hr') Hr Hl. unfold shown_index. destruct (Z.eqb_spec (e_detail e) Cs.CS_OPT_ON) as [E|E].
  - rewrite mem_access_on by done. cbn [mbind outcome_bind]. unfold printOperand. cbn [p_mi X86Show.St]. rewrite Eop. cbn [mbind outcome_bind].
    rewrite Hreg, Hr'. destruct (print_reg_mem r mi acc (shown_mem n sg 0 0 1 0) rest sg 0 0 1 0 Hr eq_refl) as (mi' & -> & Hm).
    cbn [mbind outcome_bind]. rewrite mem_access_off by done. by exists mi'.
  - rewrite mem_access_other by done. cbn [mbind outcome_bind]. unfold printOperand. cbn [p_mi X86Show.St]. rewrite Eop. cbn [mbind outcome_bind].
    rewrite Hreg, Hr'. destruct (print_reg_over r mi acc (shown_mem n sg 0 0 1 0) rest Hr Hl eq_refl eq_refl) as (mi' & -> & Hm).
    cbn [mbind outcome_bind]. rewrite mem_access_other by done. by exists mi'.
Qed.

Lemma printSrcIdx_runs k mi acc rest r sg t : views mi = Some <$> l → 0 ≤ k →
  drop (Z.to_nat k) l = MReg r :: MReg sg :: t → 0 ≤ r < REGS → 0 ≤ sg < 2 ^ 32 → zlen acc < 255 →
  ∃ mi', printSrcIdx e k (St mi false acc (op0 :: rest)) =
    Ok (St mi' false (acc ++ [shown_index e (x86opsize mi) sg r]) rest) ∧ like mi mi'.
Proof using sizes_ok.
  intros Hv Hk Hdrop Hr Hsg Hl.
  assert (reads mi k (MReg r)) as R0 by (eapply (reads_drop _ _ k 0); [done|done|by rewrite Hdrop|lia]).
  assert (reads mi (k + 1) (MReg sg)) as R1 by (eapply (reads_drop _ _ k 1); [done|done|by rewrite Hdrop|lia]).
  unfold printSrcIdx. rewrite start_memory. cbn [mbind outcome_bind p_mi X86Show.St]. pose proof R1 as (o1 & -> & _ & F1). cbn [mbind outcome_bind].
  rewrite F1, (print_segment_runs sg _ mi false acc _ rest 0 0 1 0) by done. cbn [mbind outcome_bind].
  by apply (index_runs k mi acc rest r (x86opsize mi) sg).
Qed.

Lemma printDstIdx_runs k mi acc rest r t : views mi = Some <$> l → 0 ≤ k →
  drop (Z.to_nat k) l = MReg r :: t → 0 ≤ r < REGS → zlen acc < 255 →
  ∃ mi', printDstIdx e k (St mi false acc (op0 :: rest)) =
    Ok (St mi' false (acc ++ [shown_index e (x86opsize mi) (if e_mode e =? Cs.CS_MODE_64 then 0 else X86_REG_ES) r]) rest) ∧ like mi mi'.
Proof using sizes_ok.
  intros Hv Hk Hdrop Hr Hl.
  assert (reads mi k (MReg r)) as R0 by (eapply (reads_drop _ _ k 0); [done|done|by rewrite Hdrop|lia]).
  unfold printDstIdx. rewrite start_memory. cbn [mbind outcome_bind].
  destruct (e_mode e =? Cs.CS_MODE_64); cbn [negb mbind outcome_bind].
  - by apply (index_runs k mi acc rest r (x86opsize mi) 0).
  - rewrite (current_St e d0 dt0 (mem_segment X86_REG_ES) mi false acc _ rest (shown_mem (x86opsize mi) X86_REG_ES 0 0 1 0)) by done.
    cbn [mbind outcome_bind]. by apply (index_runs k mi acc rest r (x86opsize mi) X86_REG_ES).
Qed.

(** Branch targets. *)
Lemma branch_target_is mi v : like mi0 mi →
  branch_target e mi v = target e (Opcode mi0) (zget (x86_prefix mi0) 2) v.
Proof using mode_ok.
  intros Hlike. unfold branch_target, target, target_width. cbv zeta. rewrite (proj1 (lk_opcode _ _ Hlike)), (lk_prefix _ _ Hlike).
  set (t := v + e_size e + e_address e). clearbody t.
  assert (∀ w, 0 ≤ w ≤ 64 → s64 t mod 2 ^ w = t mod 2 ^ w) as Hmod.
  { intros w Hw. rewrite <- (Z.mod_mod_divide (s64 t) (2 ^ 64) (2 ^ w)), <- (Z.mod_mod_divide t (2 ^ 64) (2 ^ w)).
    2, 3: exists (2 ^ (64 - w)); rewrite <- Z.pow_add_r by lia; f_equal; lia.
    pose proof (wrap_swrap 64 t ltac:(lia)) as H. unfold wrap in H. by rewrite H. }
  assert (∀ x, x mod 2 ^ 32 mod 2 ^ 16 = x mod 2 ^ 16) as H32 by (intros; apply Z.mod_mod_divide; by exists (2 ^ 16)).
  assert (∀ x, x mod 2 ^ 16 mod 2 ^ 16 = x mod 2 ^ 16) as H16 by (intros; apply Z.mod_mod; lia).
  assert (∀ x, x & 0xffffffff = x mod 2 ^ 32) as Hland by (intros; exact (land_mask 32 x ltac:(lia))).
  pose proof (Hmod 16 ltac:(lia)) as M16. pose proof (Hmod 32 ltac:(lia)) as M32.
  assert (∃ b64 b16, (e_mode e =? Cs.CS_MODE_64) = b64 ∧ (e_mode e =? Cs.CS_MODE_16) = b16 ∧ b64 && b16 = false) as (b64 & b16 & -> & -> & Hb).
  { do 2 eexists. split; [done|]. split; [done|]. by destruct mode_ok as [->|[->| ->]]. }
  destruct b64, b16; try discriminate Hb;
    destruct (Opcode mi0 =? X86_CALLpcrel16), (Opcode mi0 =? X86_JMP_2), (Z.eqb_spec (Opcode mi0) X86_CALLpcrel32) as [Ec|_],
      (Z.eqb_spec (Opcode mi0) X86_JMP_4) as [Ej|_], (zget (x86_prefix mi0) 2 =? 102); cbn [orb andb negb Z.eqb Pos.eqb];
    rewrite ?land_word, ?Hland, ?H16, ?H32, ?H16, ?M16, ?M32; try done; rewrite Ec in Ej; discriminate Ej.
Qed.

Lemma printPCRelImm_runs k mi acc rest v t : like mi0 mi → 0 ≤ k → drop (Z.to_nat k) l = MImm v :: t → zlen acc < 255 →
  ∃ mi', printPCRelImm e k (St mi false acc (op0 :: rest)) =
    Ok (St mi' false (acc ++ [shown_imm (target e (Opcode mi0) (zget (x86_prefix mi0) 2) v) (first_or (imm_size mi0) acc)]) rest) ∧ like mi mi'.
Proof using mode_ok prefix_ok views_ok.
  intros Hlike Hk Hdrop Hl. pose proof (like_views mi Hlike) as Hv.
  assert (reads mi k (MImm v)) as (op & Eop & _ & Hi & Hg) by (eapply (reads_drop _ _ k 0); [done|done|by rewrite Hdrop|lia]).
  unfold printPCRelImm. cbn [p_mi X86Show.St]. rewrite Eop. cbn [mbind outcome_bind]. rewrite Hi, Hg, (branch_target_is mi v Hlike).
  assert (∃ x, (if (e_mode e =? Cs.CS_MODE_16) && (Opcode mi =? X86_JMP_4) then aget (x86_prefix mi) 2 else Ok 0) = Ok x) as [x ->].
  { destruct (_ && _); [|by eexists]. apply aget_is_Ok. rewrite (lk_prefix _ _ Hlike), prefix_ok. lia. }
  cbn [mbind outcome_bind]. set (tg := target _ _ _ v).
  rewrite (if_detail_St e d0 dt0 _ mi false acc (op0 :: rest) (acc ++ [shown_imm tg (first_or (imm_size mi0) acc)]) rest).
  - cbn [mbind outcome_bind p_mi X86Show.St].
    destruct (first_size_St e d0 dt0 (imm_size mi) mi false (acc ++ [shown_imm tg (first_or (imm_size mi0) acc)]) rest) as (mi' & E & Hm). rewrite E. eauto.
  - unfold on_current. cbn [x_op_count set_ops]. erewrite on_op_mid by reflexivity. cbn [mbind outcome_bind].
    rewrite destination_St. cbn [mbind outcome_bind p_mi X86Show.St x_op_count set_ops]. erewrite on_op_mid by reflexivity.
    cbn [mbind outcome_bind]. rewrite (lk_imm _ _ Hlike). by rewrite next_ops.
Qed.

(** ** The instruction *)

Context (shape : list slot) (shape_ok : Forall2 slot_ok shape l).

#[local] Notation shown := (show e (Opcode mi0) (imm_size mi0) (zget (x86_prefix mi0) 2) l).

Lemma shape_drop n k ks : drop n shape = k :: ks → ∃ o os, drop n l = o :: os ∧ slot_ok k o ∧ Forall2 slot_ok ks os.
Proof using shape_ok.
  intros E. pose proof (Forall2_drop _ _ _ n shape_ok) as H. rewrite E in H. inversion H as [|? o ? os H1 H2 E1 E2]; subst. eauto.
Qed.

(** What a call that fits finds. *)
Lemma shape_reg k ks : drop (Z.to_nat k) shape = SReg :: ks → ∃ r os, drop (Z.to_nat k) l = MReg r :: os ∧ 0 ≤ r < REGS ∧ Forall2 slot_ok ks os.
Proof using shape_ok. intros (o & os & E & Ho & Hos)%shape_drop. destruct o as [r|v]; [|done]. eauto 6. Qed.

Lemma shape_memory k ks : drop (Z.to_nat k) shape = SAny :: SImm :: SAny :: SDisp :: SAny :: ks →
  ∃ b sc i d sg t, drop (Z.to_nat k) l = MReg b :: MImm sc :: MReg i :: MImm d :: MReg sg :: t ∧ 0 ≤ sg < 2 ^ 32 ∧ - 2 ^ 31 ≤ d < 2 ^ 31.
Proof using shape_ok.
  intros (o & os & E & Ho & Hos)%shape_drop. destruct o as [b|]; [|done].
  repeat match goal with H : Forall2 slot_ok (_ :: _) ?l |- _ => inversion H; clear H; subst end.
  repeat match goal with H : slot_ok _ ?x |- _ => destruct x; try done; unfold slot_ok in H end. eauto 10.
Qed.

Lemma memory_shown n k mi acc rest b sc i d sg t : like mi0 mi → 0 ≤ k →
  drop (Z.to_nat k) l = MReg b :: MImm sc :: MReg i :: MImm d :: MReg sg :: t →
  0 ≤ sg < 2 ^ 32 → - 2 ^ 31 ≤ d < 2 ^ 31 → zlen acc < 255 →
  ∃ op mi', show_memory l n k = Some op ∧
    printMemReference e k (opsize n (St mi false acc (op0 :: rest))) = Ok (St mi' false (acc ++ [op]) rest) ∧ like mi mi'.
Proof using mode_ok views_ok.
  intros Hlike Hk Hdrop Hsg Hd Hl. unfold show_memory. rewrite Hdrop.
  destruct (printMemReference_runs k (set_x86opsize mi n) acc rest b sc i d sg t) as (mi' & E & Hm); [|done..|].
  { apply like_views. eapply like_trans; [done|apply like_opsize]. }
  exists (shown_mem n sg b i (s32 sc) d), mi'. split_conj; [done|exact E|]. eapply like_trans; [apply like_opsize|done].
Qed.

Lemma run_call_shows c mi acc rest : like mi0 mi → call_fits (Opcode mi0) shape c = true → zlen acc < 255 →
  ∃ op mi', shown acc c = Some op ∧ run_call e c (St mi false acc (op0 :: rest)) = Ok (St mi' false (acc ++ [op]) rest) ∧ like mi mi'.
Proof using Type*.
  intros Hlike Hfit Hl. pose proof (like_views mi Hlike) as Hv.
  assert (∀ n, views (set_x86opsize mi n) = Some <$> l) as Hvn by (intros n; apply like_views; eapply like_trans; [done|apply like_opsize]).
  destruct c as [k|n k|k|n k|n k|n k|k|r|v]; cbn [run_call show call_fits] in *.
  - destruct (drop (Z.to_nat k) shape) as [|[] ks] eqn:Es; try discriminate Hfit.
    + apply Z.leb_le in Hfit. destruct (shape_reg _ _ Es) as (r & os & E & Hr & _). rewrite E.
      destruct (reads_drop mi l k 0 (MReg r) k Hv Hfit) as (op & Eop & H1 & H2); [by rewrite E|lia|].
      destruct (print_reg_runs r mi acc rest Hr Hl) as (mi' & Er & Hm). do 2 eexists. split; [done|]. split; [|done].
      unfold printOperand. cbn [p_mi X86Show.St]. rewrite Eop. cbn [mbind outcome_bind]. rewrite H1, H2. exact Er.
    + apply andb_true_iff in Hfit as [Hk%Z.leb_le Hid%Z.leb_le]. destruct (shape_drop _ _ _ Es) as ([r|v] & os & E & Ho & _); [done|]. rewrite E.
      destruct (reads_drop mi l k 0 (MImm v) k Hv Hk) as (op & Eop & H1 & H2 & H3); [by rewrite E|lia|].
      pose proof (print_imm_runs k v mi acc rest Hlike Hid Hl) as Er. destruct (adjusted _ _ _ _ _) as [v' n].
      exists (shown_imm v' (if n =? 0 then if is_far e then imm_size mi0 else first_or (imm_size mi0) acc else n)), mi.
      split; [done|]. split; [|apply like_refl]. unfold printOperand. cbn [p_mi X86Show.St]. rewrite Eop. cbn [mbind outcome_bind].
      rewrite H1, H2, H3. exact Er.
  - destruct (drop (Z.to_nat k) shape) as [|[] [|[] [|[] [|[] [|[] ks]]]]] eqn:Es; try discriminate Hfit. apply Z.leb_le in Hfit.
    destruct (shape_memory _ _ Es) as (b & sc & i & d & sg & t & E & Hsg & Hd). by eapply memory_shown.
  - destruct (drop (Z.to_nat k) shape) as [|[] [|[] [|[] [|[] [|[] ks]]]]] eqn:Es; try discriminate Hfit. apply Z.leb_le in Hfit.
    destruct (shape_memory _ _ Es) as (b & sc & i & d & sg & t & E & Hsg & Hd). unfold printopaquemem, opaque_size.
    rewrite (orb_comm (e_id e =? X86_INS_LJMP)). fold (is_far e).
    destruct mode_ok as [->|[->| ->]]; destruct (is_far e); by eapply memory_shown.
  - destruct (drop (Z.to_nat k) shape) as [|[] [|[] ks]] eqn:Es; try discriminate Hfit. apply Z.leb_le in Hfit.
    destruct (shape_reg _ _ Es) as (r & os & E & Hr & Hos). inversion Hos as [|? o ? os' Ho _ E1 E2]; subst.
    destruct o as [sg|]; [|done]. rewrite E. destruct (printSrcIdx_runs k (set_x86opsize mi n) acc rest r sg os') as (mi' & Ep & Hm); [done..|].
    do 2 eexists. split; [done|]. split; [exact Ep|]. eapply like_trans; [apply like_opsize|done].
  - destruct (drop (Z.to_nat k) shape) as [|[] ks] eqn:Es; try discriminate Hfit. apply Z.leb_le in Hfit.
    destruct (shape_reg _ _ Es) as (r & os & E & Hr & Hos). rewrite E.
    destruct (printDstIdx_runs k (set_x86opsize mi n) acc rest r os) as (mi' & Ep & Hm); [done..|].
    do 2 eexists. split; [done|]. split; [exact Ep|]. eapply like_trans; [apply like_opsize|done].
  - destruct (drop (Z.to_nat k) shape) as [|[] [|[] ks]] eqn:Es; try discriminate Hfit. apply Z.leb_le in Hfit.
    destruct (shape_drop _ _ _ Es) as ([r|d] & os & E & Hd & Hos); [done|]. inversion Hos as [|? o ? os' Ho _ E1 E2]; subst.
    destruct o as [sg|]; [|done]. rewrite E. destruct (printMemOffset_runs k (set_x86opsize mi n) acc rest d sg os') as (mi' & Ep & Hm); [done..|].
    do 2 eexists. split; [done|]. split; [exact Ep|]. eapply like_trans; [apply like_opsize|done].
  - destruct (drop (Z.to_nat k) shape) as [|[] ks] eqn:Es; try discriminate Hfit. apply Z.leb_le in Hfit.
    destruct (shape_drop _ _ _ Es) as ([r|v] & os & E & Hd & Hos); [done|]. rewrite E.
    destruct (printPCRelImm_runs k mi acc rest v os) as (mi' & Ep & Hm); [done..|]. eauto.
  - apply andb_true_iff in Hfit as [H1%Z.leb_le H2%Z.ltb_lt]. destruct (op_addReg_runs r mi acc rest) as (mi' & E & Hm); [done..|]. eauto.
  - destruct (op_addImm_runs v mi acc rest) as (mi' & E & Hm); [done..|]. eauto.
Qed.

Lemma run_calls_shows cs : ∀ mi acc n, like mi0 mi → forallb (call_fits (Opcode mi0) shape) cs = true →
  zlen acc + Z.of_nat (length cs) < 255 → (length cs ≤ n)%nat →
  ∃ ops mi', show_all e (Opcode mi0) (imm_size mi0) (zget (x86_prefix mi0) 2) l acc cs = Some ops ∧
    run_calls e cs (St mi false acc (replicate n op0)) = Ok (St mi' false ops (replicate (n - length cs) op0)) ∧ like mi mi' ∧
    length ops = (length acc + length cs)%nat.
Proof using Type*.
  induction cs as [|c cs IH]; intros mi acc n Hlike Hfit Hl Hn; cbn [show_all run_calls].
  { exists acc, mi. rewrite Nat.sub_0_r. split_conj; [done|done|apply like_refl|cbn; lia]. }
  cbn [forallb length] in *. apply andb_true_iff in Hfit as [Hc Hcs]. destruct n as [|n]; [lia|]. cbn [replicate].
  destruct (run_call_shows c mi acc (replicate n op0) Hlike Hc ltac:(lia)) as (op & mi1 & E1 & E2 & H1). rewrite E1, E2. cbn [mbind outcome_bind option_bind].
  destruct (IH mi1 (acc ++ [op]) n) as (ops & mi' & E3 & E4 & H2 & Hlen); [by eapply like_trans|done|rewrite zlen_app; change (zlen [op]) with 1; lia|lia|].
  exists ops, mi'. split_conj; [exact E3|exact E4|by eapply like_trans|rewrite Hlen, length_app; cbn; lia].
Qed.

(** The fields no call stores. *)
Definition plain (op : cs_x86_op) : Prop := xo_avx_bcast op = 0 ∧ xo_avx_zero_opmask op = false.

Lemma show_plain acc c op : shown acc c = Some op → plain op.
Proof using Type.
  clear. unfold show, show_memory, shown_index. intros H.
  repeat match type of H with
  | match ?x with _ => _ end = _ => destruct x
  | (let '(_, _) := ?x in _) = _ => destruct x
  | context [if ?b then _ else _] => destruct b
  end; try discriminate H; by injection H as <-.
Qed.

Lemma show_all_plain cs acc ops : Forall plain acc →
  show_all e (Opcode mi0) (imm_size mi0) (zget (x86_prefix mi0) 2) l acc cs = Some ops → Forall plain ops.
Proof using Type.
  clear. revert acc. induction cs as [|c cs IH]; intros acc Ha; cbn [show_all]; [by intros [= <-]|].
  destruct (shown acc c) as [op|] eqn:E; [|done]. cbn [mbind option_bind]. apply IH. apply Forall_app. split; [done|].
  constructor; [by eapply show_plain|constructor].
Qed.

(** The registers the text contains. *)
Lemma intel_reg id : 0 ≤ X86_insn_reg_intel id < REGS.
Proof using Type.
  clear. pose proof embedded_regs as [H _]%andb_true_iff. unfold X86_insn_reg_intel. revert H. generalize insn_regs_intel.
  intros t. induction t as [|[i r] t IH]; cbn [reg_loop forallb]; [done|]. intros [H1 H2]%andb_true_iff. zify_bools. cbn [fst snd] in *.
  destruct (i =? id); [done|by apply IH].
Qed.

Lemma intel_reg2 id r1 r2 : X86_insn_reg_intel2 id = Some (r1, r2) → 0 ≤ r1 < REGS ∧ 0 ≤ r2 < REGS.
Proof using Type.
  clear. pose proof embedded_regs as [_ H]%andb_true_iff. unfold X86_insn_reg_intel2. revert H. generalize insn_regs_intel2.
  intros t. induction t as [|[[i x] y] t IH]; cbn [reg2_loop forallb]; [done|]. intros [H1 H2]%andb_true_iff. zify_bools. cbn [fst snd] in *.
  destruct (i =? id); [intros [= <- <-]; lia|by apply IH].
Qed.

(** [x86.operands[i]] for the first two. *)
Lemma on_op_0 f d n x t y : f x = Ok y → on_op 0 f (set_ops d n (x :: t)) = Ok (set_ops d n (y :: t)).
Proof using Type. exact (on_op_mid f d n [] x t y). Qed.
Lemma on_op_1 f d n a x t y : f x = Ok y → on_op 1 f (set_ops d n (a :: x :: t)) = Ok (set_ops d n (a :: y :: t)).
Proof using Type. exact (on_op_mid f d n [a] x t y). Qed.

Lemma reg_plain r x : plain x → reg_operand r (zget (regsizes e) r) x = Ok (shown_reg e r).
Proof using Type. clear. intros [H1 H2]. unfold reg_operand, op_size, op_union, op_type. cbn. by rewrite H1, H2. Qed.

(** The register in front. *)
Lemma add_first_shows r ops k : 0 ≤ r < REGS → Forall plain ops → (length ops ≤ 6)%nat → (length ops + k = 8)%nat →
  ∃ rest, add_first e r (set_ops d0 (zlen ops) (ops ++ replicate k op0)) =
    Ok (set_ops d0 (zlen (with_first e r ops)) (with_first e r ops ++ rest)) ∧ length (with_first e r ops ++ rest) = 8%nat.
Proof using sizes_ok.
  intros Hr Hp Hlen Hk. unfold add_first, shift_operands. rewrite (reg_size r Hr). cbn [mbind outcome_bind x_op_count x_operands set_ops].
  assert (∃ x t, ops ++ replicate k op0 = x :: t ∧ plain x ∧
    ∃ rest, shown_reg e r :: op_size (zget (regsizes e) r) x :: take 6 t = with_first e r ops ++ rest ∧ length (with_first e r ops ++ rest) = 8%nat)
    as (x & t & -> & Hx & rest & Ew & El).
  { destruct ops as [|o ops].
    - assert (k = 8%nat) as -> by (cbn in Hk; lia). exists op0, (replicate 7 op0). split; [done|]. split; [done|]. eexists. split; [reflexivity|]. reflexivity.
    - apply Forall_cons in Hp as [Ho _]. exists o, (ops ++ replicate k op0). split; [done|]. split; [done|].
      cbn [length] in *. exists (replicate (k - 1) op0). split.
      + cbn [with_first app]. rewrite take_app_ge by lia. rewrite take_replicate. do 4 f_equal. lia.
      + cbn [with_first app length]. rewrite length_app, length_replicate. lia. }
  exists rest. split; [|done].
  change (take 1 (x :: t) ++ take 7 (x :: t)) with (x :: x :: take 6 t).
  change (set_ops (set_ops ?d ?n ?o) ?n' ?o') with (set_ops d n' o').
  rewrite (on_op_0 _ _ _ _ _ _ (reg_plain r x Hx)). cbn [mbind outcome_bind].
  erewrite on_op_1 by reflexivity. cbn [mbind outcome_bind]. rewrite Ew. unfold next_operand. cbn [x_op_count x_operands set_ops].
  change (set_ops (set_ops ?d ?n ?o) ?n' ?o') with (set_ops d n' o'). do 2 f_equal.
  rewrite wrap_small by (unfold in_u, zlen; lia). unfold with_first, zlen. destruct ops; cbn [length]; lia.
Qed.

Lemma add_both_shows r1 r2 ops k : 0 ≤ r1 < REGS → 0 ≤ r2 < REGS → Forall plain ops → (length ops ≤ 6)%nat → (length ops + k = 8)%nat →
  ∃ rest, add_both e r1 r2 (set_ops d0 (zlen ops) (ops ++ replicate k op0)) =
    Ok (set_ops d0 2 ([shown_reg e r1; shown_reg e r2] ++ rest)) ∧ length ([shown_reg e r1; shown_reg e r2] ++ rest) = 8%nat.
Proof using sizes_ok.
  intros Hr1 Hr2 Hp Hlen Hk. unfold add_both. rewrite (reg_size r1 Hr1), (reg_size r2 Hr2). cbn [mbind outcome_bind].
  assert (Forall plain (ops ++ replicate k op0) ∧ length (ops ++ replicate k op0) = 8%nat) as [HF HL].
  { split; [apply Forall_app; split; [done|by apply Forall_replicate]|]. rewrite length_app, length_replicate. lia. }
  destruct (ops ++ replicate k op0) as [|x [|y t]]; try discriminate HL. apply Forall_cons in HF as [Hx HF]. apply Forall_cons in HF as [Hy _].
  exists t. rewrite (on_op_0 _ _ _ _ _ _ (reg_plain r1 x Hx)). cbn [mbind outcome_bind].
  rewrite (on_op_1 _ _ _ _ _ _ _ (reg_plain r2 y Hy)). cbn [mbind outcome_bind]. done.
Qed.

(** What follows [printInstruction]. *)
Lemma after_shows mi ops k : like mi0 mi → Forall plain ops → (length ops ≤ 6)%nat → (length ops + k = 8)%nat →
  let rg := X86_insn_reg_intel (Opcode mi0) in
  let ops' := if negb (rg =? 0) then with_first e rg ops
              else match X86_insn_reg_intel2 (Opcode mi0) with Some (r1, r2) => [shown_reg e r1; shown_reg e r2] | None => ops end in
  ∃ rest r, (if ctrue (e_detail e) then
               if ctrue rg then st ← on_detail (add_first e rg) (St mi false ops (replicate k op0)); Ok (st, rg)
               else match X86_insn_reg_intel2 (Opcode mi0) with
                    | Some (r1, r2) => st ← on_detail (add_both e r1 r2) (St mi false ops (replicate k op0)); Ok (st, r1)
                    | None => Ok (St mi false ops (replicate k op0), rg)
                    end
             else Ok (St mi false ops (replicate k op0), rg)) = Ok (St mi false ops' rest, r) ∧
    0 ≤ r < REGS ∧ length (ops' ++ rest) = 8%nat.
Proof using sizes_ok.
  intros Hlike Hp Hlen Hk rg ops'. pose proof (intel_reg (Opcode mi0)) as Hreg. fold rg in Hreg.
  assert (length (ops ++ replicate k op0) = 8%nat) as H8 by (rewrite length_app, length_replicate; lia).
  assert (∃ rest, length (ops' ++ rest) = 8%nat ∧
    (ctrue rg = true → add_first e rg (set_ops d0 (zlen ops) (ops ++ replicate k op0)) = Ok (set_ops d0 (zlen ops') (ops' ++ rest))) ∧
    (ctrue rg = false → match X86_insn_reg_intel2 (Opcode mi0) with
       | Some (r1, r2) => add_both e r1 r2 (set_ops d0 (zlen ops) (ops ++ replicate k op0)) = Ok (set_ops d0 (zlen ops') (ops' ++ rest))
       | None => ops' = ops ∧ rest = replicate k op0 end)) as (rest & HL & H1 & H2).
  { unfold ops', ctrue. destruct (negb (rg =? 0)) eqn:Er.
    - destruct (add_first_shows rg ops k Hreg Hp Hlen Hk) as (rest & E & HL). by exists rest.
    - destruct (X86_insn_reg_intel2 (Opcode mi0)) as [[r1 r2]|] eqn:E2; [|by exists (replicate k op0)].
      destruct (intel_reg2 _ _ _ E2) as [Hr1 Hr2]. destruct (add_both_shows r1 r2 ops k Hr1 Hr2 Hp Hlen Hk) as (rest & E & HL). by exists rest. }
  unfold X86Show.St, on_detail. destruct (ctrue (e_detail e)); [|exists rest, rg; done].
  cbn [p_detail p_mi doing_mem]. destruct (ctrue rg).
  - rewrite H1 by done. cbn [mbind outcome_bind]. by exists rest, rg.
  - specialize (H2 eq_refl). destruct (X86_insn_reg_intel2 (Opcode mi0)) as [[r1 r2]|] eqn:E2.
    + rewrite H2. cbn [mbind outcome_bind]. exists rest, r1. split; [done|]. split; [|done]. by apply intel_reg2 in E2 as [? _].
    + destruct H2 as [-> ->]. by exists (replicate k op0), rg.
Qed.

Lemma printInst_shows : Opcode mi0 < zlen OpInfo → 0 ≤ Opcode mi0 →
  forallb (call_fits (Opcode mi0) shape) (calls_of (zget OpInfo (Opcode mi0))) = true →
  (length (calls_of (zget OpInfo (Opcode mi0))) ≤ 6)%nat →
  ∃ ops rest mi', public_operands e (Opcode mi0) (imm_size mi0) (zget (x86_prefix mi0) 2) l = Some ops ∧
    X86_Intel_printInst e (St mi0 false [] (replicate 8 op0)) = Ok (St mi' false ops rest) ∧ like mi0 mi' ∧ length (ops ++ rest) = 8%nat.
Proof using Type*.
  intros Hlt H0 Hfit Hlen. unfold X86_Intel_printInst, printInstruction, public_operands. cbn [p_mi X86Show.St].
  change (MCInst_getOpcode mi0) with (Opcode mi0). rewrite aget_zget by done. cbn [mbind outcome_bind].
  set (cs := calls_of _) in *.
  destruct (run_calls_shows cs mi0 [] 8 (like_refl mi0) Hfit) as (ops & mi1 & Es & -> & H1 & Hl); [change (zlen (@nil cs_x86_op)) with 0; lia|lia|].
  rewrite Es. cbn [mbind option_bind outcome_bind p_mi X86Show.St]. change (MCInst_getOpcode mi1) with (Opcode mi1).
  rewrite (proj1 (lk_opcode _ _ H1)). cbn [length] in Hl.
  destruct (after_shows mi1 ops (8 - length cs) H1) as (rest & r & -> & Hr & HL); [by eapply show_all_plain|lia|lia|]. cbn [mbind outcome_bind].
  set (ops' := if negb _ then _ else _) in *. rewrite (reg_size r Hr). cbn [mbind outcome_bind p_mi X86Show.St].
  destruct (first_size_St e d0 dt0 (zget (regsizes e) r) mi1 false ops' rest) as (mi2 & -> & H2).
  exists ops', rest. destruct (_ && _); eexists; (split_conj; [done|done| |done]); [by eapply like_trans|done].
Qed.

End calls.

(** An instruction of the decoder fits. *)
Lemma decoded_fits s row : decoded s row →
  let id := s instructionID in
  0 < id < zlen OpInfo ∧ forallb (call_fits id (row_shape row)) (calls_of (zget OpInfo id)) = true ∧
  (length (calls_of (zget OpInfo id)) ≤ 6)%nat.
Proof.
  intros [[Hne Hin] Eos Erow _ _]. cbv zeta. pose proof instructions_fit as H. rewrite forallb_forall in H.
  specialize (H (s instructionID)). rewrite <- list_elem_of_In in H. specialize (H Hin).
  assert (0 < s instructionID) as Hpos.
  { assert (forallb (fun id => 0 <=? id) modRMTable = true) as Hall by (vm_compute; reflexivity).
    rewrite forallb_forall in Hall. specialize (Hall (s instructionID)). rewrite <- list_elem_of_In in Hall. specialize (Hall Hin). zify_bools. lia. }
  rewrite (proj2 (Z.leb_gt _ _)) in H by done. cbn [orb] in H. unfold instruction_fits in H. rewrite Eos in H. cbn [mbind outcome_bind] in H.
  rewrite Erow in H. rewrite !andb_true_iff in H. destruct H as [[H1 H2%Nat.leb_le] H3%Z.ltb_lt]. done.
Qed.

(** Whatever is known of the printer's environment. *)
Record env_ok (e : env) : Prop := {
  en_mode : e_mode e = Cs.CS_MODE_16 ∨ e_mode e = Cs.CS_MODE_32 ∨ e_mode e = Cs.CS_MODE_64;
  en_sizes : zlen (regsizes e) = REGS;
  en_syntax : e_syntax e = CS_OPT_SYNTAX_INTEL
}.

(** The details before and after. *)
Definition fresh_detail (d : cs_x86) : Prop := x_op_count d = 0 ∧ x_operands d = replicate 8 op0.
Definition shows (d d' : cs_x86) (ops : list cs_x86_op) : Prop :=
  ∃ rest, d' = set_ops d (zlen ops) (ops ++ rest) ∧ zlen (ops ++ rest) = 8.

(** The printer on an instruction of the decoder. *)
Lemma X86_Intel_printInst_spec e mi s row l dt :
  env_ok e → decoded s row → operand_views row s (s instructionID) 0 (take 5 row) = Some l →
  Opcode mi = s instructionID → views mi = Some <$> l →
  (imm_size mi = 2 ∨ imm_size mi = 4 ∨ imm_size mi = 8) → zlen (x86_prefix mi) = 4 →
  (ctrue (e_detail e) = true → ∃ d, dt = Some d ∧ fresh_detail d) →
  ∃ ops mi' dt', public_operands e (Opcode mi) (imm_size mi) (zget (x86_prefix mi) 2) l = Some ops ∧
    X86_Intel_printInst e (mkP mi dt false) = Ok (mkP mi' dt' false) ∧ like mi mi' ∧
    if ctrue (e_detail e) then ∃ d d', dt = Some d ∧ dt' = Some d' ∧ shows d d' ops else dt' = dt.
Proof.
  intros [Hm Hs Hy] Hdec Hv Hop Hviews Himm Hpre Hd. destruct (decoded_fits s row Hdec) as ([H0 Hlt] & Hfit & Hlen). rewrite <- Hop in *.
  pose proof (views_shape s (dc_disp _ _ Hdec) row (Opcode mi) (take 5 row) 0 l Hv) as Hshape.
  set (d := default (mkX86 [] [] 0 0 0 0 0 0 0 0 0 0 false 0 0 []) dt).
  assert (mkP mi dt false = St e d dt mi false [] (replicate 8 op0)) as ->.
  { unfold St. destruct (ctrue (e_detail e)); [|done]. destruct (Hd eq_refl) as (d1 & Ed & E1 & E2). unfold d. rewrite Ed. cbn [default app]. do 2 f_equal.
    change (zlen (@nil cs_x86_op)) with 0. rewrite <- E1, <- E2. by destruct d1. }
  destruct (printInst_shows e d dt mi l Hm Hs Hy Himm Hpre Hviews _ Hshape Hlt ltac:(lia) Hfit Hlen) as (ops & rest & mi' & Ep & -> & Hl & HL).
  exists ops, mi'. eexists. split_conj; [exact Ep|reflexivity|exact Hl|]. destruct (ctrue (e_detail e)); [|done].
  destruct (Hd eq_refl) as (d1 & Ed & _). do 2 eexists. split; [exact Ed|]. split; [reflexivity|]. unfold d. rewrite Ed. exists rest. split; [done|].
  unfold zlen. by rewrite HL.
Qed.

(** Decoding and printing an instruction. *)
Lemma printInst_decoded (e : env) (junk : insn) (code : list Z) (instr instr' : MCInst) (detail detail' : option cs_x86) (n : Z) :
  env_ok e → bytes_ok code → zlen code < 2 ^ 64 → in_u 64 (e_address e) →
  inst_ok instr → size instr = 0 → (ctrue (e_detail e) = true → is_Some detail) →
  X86_getInstruction junk (e_mode e) (e_detail e) code instr detail (e_address e) = Ok (true, instr', detail', n) →
  ∃ s id l ops st,
    decodeInstruction code (e_address e) (e_address e) (decode_mode (e_mode e)) (clear_insn junk) = Ok (s, Some tt) ∧
    disassembly junk (e_mode e) code (e_address e) = Some (id, n, l) ∧
    public_operands e id (s immSize) (s prefix2) l = Some ops ∧
    X86_Intel_printInst e (mkP instr' detail' false) = Ok st ∧
    (ctrue (e_detail e) = true → ∃ d, p_detail st = Some d ∧ x_op_count d = zlen ops ∧ zlen (x_operands d) = 8 ∧ zlen ops ≤ 8 ∧ take (length ops) (x_operands d) = ops ∧ Forall typed ops).
Proof.
  intros He Hb Hl Ha Hi H0 Hd E.
  assert (e_detail e ≠ 0 ↔ ctrue (e_detail e) = true) as Hc by (unfold ctrue; destruct (Z.eqb_spec (e_detail e) 0); by split).
  destruct (X86_getInstruction_spec junk (e_mode e) (e_detail e) code instr detail (e_address e) Hb Hl Ha Hi H0) as (r & i & d & k & E' & _ & _ & H);
    [intros Hw; by apply Hd, Hc|].
  rewrite E in E'. injection E' as <- <- <- <-. destruct (disassembly _ _ _ _) as [[[id k] l]|]; [|done].
  destruct H as (_ & Hop & -> & _ & _ & Hv & s & row & Es & Hdec & Hid & Hov & _ & Him & Hpre & Hf). rewrite Hid in Hov.
  destruct (X86_Intel_printInst_spec e instr' s row l detail') as (ops & mi & dt & Ep & Er & _ & Hshow);
    [done|done|done|congruence|done|rewrite Him; by apply (tr_imm _ _ (dc_fine _ _ Hdec))|by rewrite Hpre|intros Hw; by apply Hf, Hc|].
  rewrite Hop, Him, Hpre in Ep. exists s, id, l, ops. eexists. split_conj; [done|done|exact Ep|exact Er|]. cbn [p_detail].
  intros Hw. rewrite Hw in Hshow. destruct Hshow as (d0 & d1 & _ & -> & rest & -> & Hlen). eexists. split; [done|].
  cbn [x_op_count x_operands set_ops]. split_conj; [done|done| |by rewrite take_app_length|by eapply public_operands_typed]. rewrite zlen_app in Hlen. pose proof (zlen_nonneg rest). lia.
Qed.

(** C7: Printing what was decoded: for every instruction that
    [X86_getInstruction] accepts, in any of the three modes,
    [X86_Intel_printInst] returns with every access in bounds, and the details
    then hold exactly the operands that the instruction has by
    [public_operands]: registers with their sizes, immediates with their sign
    and size adjusted to the instruction, branch targets, and memory operands
    with segment, base, index, scale, displacement and size, with the registers
    the instruction implies in their places. *)
Theorem X86_Intel_printInst_correct (e : env) (junk : insn) (code : list Z) (instr instr' : MCInst) (detail detail' : option cs_x86) (n : Z) :
  env_ok e → bytes_ok code → zlen code < 2 ^ 64 → in_u 64 (e_address e) →
  inst_ok instr → size instr = 0 → (ctrue (e_detail e) = true → is_Some detail) →
  X86_getInstruction junk (e_mode e) (e_detail e) code instr detail (e_address e) = Ok (true, instr', detail', n) →
  ∃ s id l ops st,
    decodeInstruction code (e_address e) (e_address e) (decode_mode (e_mode e)) (clear_insn junk) = Ok (s, Some tt) ∧
    disassembly junk (e_mode e) code (e_address e) = Some (id, n, l) ∧
    public_operands e id (s immSize) (s prefix2) l = Some ops ∧
    X86_Intel_printInst e (mkP instr' detail' false) = Ok st ∧
    (ctrue (e_detail e) = true → ∃ d, p_detail st = Some d ∧ x_op_count d = zlen ops ∧ zlen ops ≤ 8 ∧ take (length ops) (x_operands d) = ops).
Proof.
  intros He Hb Hl Ha Hi H0 Hd E.
  destruct (printInst_decoded e junk code instr instr' detail detail' n He Hb Hl Ha Hi H0 Hd E) as (s & id & l & ops & st & H1 & H2 & H3 & H4 & H5).
  exists s, id, l, ops, st. split_conj; [done..|]. intros Hw. destruct (H5 Hw) as (d & ? & ? & _ & ? & ? & _). by exists d.
Qed.

(** C35: The operands of the details are tagged unions: after
    [X86_Intel_printInst] on any instruction that [X86_getInstruction]
    accepts, [op_count] is within the array, and each of that many operands
    holds the member of its union that its type names, so that reading the
    register, the number or the address by the type is always defined. *)
Theorem X86_Intel_printInst_typed (e : env) (junk : insn) (code : list Z) (instr instr' : MCInst) (detail detail' : option cs_x86) (n : Z) :
  env_ok e → bytes_ok code → zlen code < 2 ^ 64 → in_u 64 (e_address e) →
  inst_ok instr → size instr = 0 → ctrue (e_detail e) = true → is_Some detail →
  X86_getInstruction junk (e_mode e) (e_detail e) code instr detail (e_address e) = Ok (true, instr', detail', n) →
  ∃ st d, X86_Intel_printInst e (mkP instr' detail' false) = Ok st ∧ p_detail st = Some d ∧ zlen (x_operands d) = 8 ∧
    0 ≤ x_op_count d ≤ 8 ∧ Forall typed (take (Z.to_nat (x_op_count d)) (x_operands d)).
Proof.
  intros He Hb Hl Ha Hi H0 Hw Hd E.
  destruct (printInst_decoded e junk code instr instr' detail detail' n He Hb Hl Ha Hi H0 (fun _ => Hd) E) as (s & id & l & ops & st & _ & _ & _ & H4 & H5).
  destruct (H5 Hw) as (d & E1 & E2 & E3 & E4 & E5 & E6). exists st, d. rewrite E2. pose proof (zlen_nonneg ops). split_conj; [done..|].
  unfold zlen. rewrite Nat2Z.id. by rewrite E5.
Qed.

(** [mov rax, [rsp+16]] in 64-bit mode with details wanted: a register and a
    memory operand of 8 bytes each *)
Definition env0 : env := mkEnv Cs.CS_OPT_ON Cs.CS_MODE_64 CS_OPT_SYNTAX_INTEL regsize_map_64 442 5 0x1000.

Lemma env0_ok : env_ok env0.
Proof. split; [by right; right|done|done]. Defined.
Lemma empty_ok : inst_ok empty_inst.
Proof. split; [reflexivity|unfold MAX_OPERANDS; cbn; lia|]. apply Forall_replicate. unfold in_u; cbn; lia. Defined.

Lemma X86_Intel_printInst_correct_witness :
  match X86_getInstruction X86Decode.junk0 Cs.CS_MODE_64 Cs.CS_OPT_ON X86Decode.mov_code empty_inst (Some Cs.empty_x86) 0x1000 with
  | Ok (_, instr', detail', n) =>
      ∃ st d, X86_Intel_printInst env0 (mkP instr' detail' false) = Ok st ∧ p_detail st = Some d ∧ x_op_count d = 2 ∧
        take 2 (x_operands d) = [mkX86Op X86_OP_REG (VReg 35) 8 0 false; mkX86Op X86_OP_MEM (VMem 0 44 0 1 16) 8 0 false]
  | _ => False
  end.
Proof.
  destruct (X86_getInstruction _ _ _ _ _ _ _) as [[[[r i] d] n]| |] eqn:E; [|vm_compute in E; discriminate E..].
  assert (r = true) as -> by (vm_compute in E; by injection E).
  destruct (X86_Intel_printInst_correct env0 X86Decode.junk0 X86Decode.mov_code empty_inst i (Some Cs.empty_x86) d n)
    as (s & id & l & ops & st & Es & Ed & Ep & Er & Hd); [| | | | | | |exact E|].
  - exact env0_ok.
  - exact X86Decode.mov_bytes.
  - reflexivity.
  - unfold in_u; cbn; lia.
  - exact empty_ok.
  - reflexivity.
  - by eexists.
  - exists st. destruct (Hd eq_refl) as (d' & Hd1 & Hd2 & _ & Hd3). exists d'. split; [exact Er|]. split; [exact Hd1|].
    assert (ops = [mkX86Op X86_OP_REG (VReg 35) 8 0 false; mkX86Op X86_OP_MEM (VMem 0 44 0 1 16) 8 0 false]) as ->; [|by split].
    vm_compute in Ed. injection Ed as <- _ <-. revert Ep. cbv [env0 e_address e_mode] in Es. clear -Es.
    revert Es. set (r := X86Decoder.decodeInstruction _ _ _ _ _). intros Es.
    assert ((match r with Ok (s, _) => (s immSize, s prefix2) | _ => (0, 0) end) = (s immSize, s prefix2)) as Ei by (by rewrite Es).
    vm_compute in Ei. injection Ei as <- <-. intros Ep. vm_compute in Ep. by injection Ep as <-.
Defined.

Lemma X86_Intel_printInst_typed_witness :
  match X86_getInstruction X86Decode.junk0 Cs.CS_MODE_64 Cs.CS_OPT_ON X86Decode.mov_code empty_inst (Some Cs.empty_x86) 0x1000 with
  | Ok (_, instr', detail', n) =>
      ∃ st d, X86_Intel_printInst env0 (mkP instr' detail' false) = Ok st ∧ p_detail st = Some d ∧ Forall typed (take (Z.to_nat (x_op_count d)) (x_operands d))
  | _ => False
  end.
Proof.
  destruct (X86_getInstruction _ _ _ _ _ _ _) as [[[[r i] d] n]| |] eqn:E; [|vm_compute in E; discriminate E..].
  assert (r = true) as -> by (vm_compute in E; by injection E).
  destruct (X86_Intel_printInst_typed env0 X86Decode.junk0 X86Decode.mov_code empty_inst i (Some Cs.empty_x86) d n)
    as (st & d' & H1 & H2 & _ & _ & H3); [exact env0_ok|exact X86Decode.mov_bytes|reflexivity|unfold in_u; cbn; lia|exact empty_ok|reflexivity|reflexivity|by eexists|exact E|].
  exists st, d'. split; [exact H1|]. split; [exact H2|exact H3].
Defined.

End X86Show.
