(* ===== verification/X86Module.v ===== *)
(** * The x86 module ([Lilu.kext/capstone/arch/X86/X86Module.c])

    What the engine does when it opens an x86 handle and when an option of one
    changes.  The function pointers that are set are those of the back end, in
    the diet engine always the same ones; the syntax and the table of register
    sizes, which the engine itself never reads, are kept beside the handle. *)

From Stdlib Require Import ZArith Lia.
From stdpp Require Import gmap.
From S2P Require Import Prelude CsCore X86Mapping X86Printer.

Module X86Module.

Import Cs X86Mapping X86Printer.
Open Scope c_scope.

Definition CS_OPT_SYNTAX_DEFAULT := 0.
Definition CS_OPT_SYNTAX_ATT := 2.

(** [syntax] and [regsize_map] of [cs_struct] *)
Record config := mkConfig { syntax : Z; regsize_map : list Z }.

Definition set_mode (h : cs_struct) (md : Z) : cs_struct :=
  mkCs (arch h) md (printer_info h) (errnum h) (ITBlock_size h) (detail h) (insn_cache h) (skipdata h) (skipdata_size h) (skipdata_setup h).
Definition set_printer_info (h : cs_struct) (p : option Z) : cs_struct :=
  mkCs (arch h) (mode h) p (errnum h) (ITBlock_size h) (detail h) (insn_cache h) (skipdata h) (skipdata_size h) (skipdata_setup h).

Definition regsize_of (md : Z) : list Z := if md =? CS_MODE_64 then regsize_map_64 else regsize_map_32.

Section module.
  Context (avail : Z → Z → bool) (sizeof_mri : Z).

(** [X86_init] stores through the pointer without a test for [NULL]. *)
Definition X86_global_init (ud : cs_struct) (m : mem) : outcome (Z * cs_struct * mem * config) :=
  let '(mri, m) := cs_mem_malloc avail sizeof_mri m in
  match mri with
  | None => Ub
  | Some p => Ok (CS_ERR_OK, set_printer_info ud (Some p), m, mkConfig CS_OPT_SYNTAX_INTEL (regsize_of (mode ud)))
  end.

Definition X86_option (handle : cs_struct) (c : config) (type value : Z) : Z * cs_struct * config :=
  if type =? CS_OPT_MODE then (CS_ERR_OK, set_mode handle (s32 value), mkConfig (syntax c) (regsize_of value))
  else if type =? CS_OPT_SYNTAX then
    if (value =? CS_OPT_SYNTAX_DEFAULT) || (value =? CS_OPT_SYNTAX_INTEL) then
      (CS_ERR_OK, handle, mkConfig CS_OPT_SYNTAX_INTEL (regsize_map c))
    else if value =? CS_OPT_SYNTAX_ATT then (CS_ERR_DIET, set_errnum handle CS_ERR_DIET, c)
    else (CS_ERR_OPTION, set_errnum handle CS_ERR_OPTION, c)
  else (CS_ERR_OK, handle, c).

(** The configuration agrees with the handle. *)
Definition config_ok (h : cs_struct) (c : config) : Prop :=
  syntax c = CS_OPT_SYNTAX_INTEL ∧ regsize_map c = regsize_of (mode h).

Lemma regsize_length md : zlen (regsize_of md) = 234.
Proof. unfold regsize_of. by destruct (_ =? _). Qed.

(** The contract of the engine with a back end's [_global_init]. *)
#[export] Instance x86_init_ok : (∀ n, avail n sizeof_mri = true) →
  InitOk (fun _ ud m => '(err, ud, m, _) ← X86_global_init ud m; Ok (err, ud, m)).
Proof.
  intros Ha a ud m base ps Ho Hok Hp Hc. unfold X86_global_init. destruct (cs_mem_malloc avail sizeof_mri m) as [[p|] m1] eqn:Em.
  - cbn [mbind outcome_bind]. do 3 eexists. split; [done|]. split_conj; [done|done| |done]. intros _. cbn.
    by eapply owns_malloc.
  - unfold cs_mem_malloc in Em. rewrite Ha in Em. done.
Qed.

(** And with its [_option]. *)
#[export] Instance x86_option_ok c : OptionOk (fun _ h type v => (X86_option h c type v).1).
Proof. intros a h type v Hok. unfold X86_option. repeat case_match; done. Qed.

End module.

(** One option after another. *)
Fixpoint set_options (h : cs_struct) (c : config) (l : list (Z * Z)) : cs_struct * config :=
  match l with
  | [] => (h, c)
  | (type, value) :: l => let '(_, h, c) := X86_option h c type value in set_options h c l
  end.

Lemma X86_option_keeps h c type value : in_u 31 value → config_ok h c →
  config_ok (X86_option h c type value).1.2 (X86_option h c type value).2.
Proof.
  intros Hv [H1 H2]. unfold X86_option. destruct (type =? CS_OPT_MODE).
  - split; [done|]. cbn [fst snd set_mode mode regsize_map]. rewrite swrap_small; [done|lia|]. unfold in_u in Hv. lia.
  - repeat case_match; by split.
Qed.

Lemma set_options_keeps l h c : Forall (fun p => in_u 31 p.2) l → config_ok h c → config_ok (set_options h c l).1 (set_options h c l).2.
Proof.
  revert h c. induction l as [|[ty v] l IH]; intros h c Hl Hc; cbn [set_options]; [done|]. apply Forall_cons in Hl as [Hv Hl].
  pose proof (X86_option_keeps h c ty v Hv Hc) as H. destruct (X86_option h c ty v) as [[err h'] c']. by apply IH.
Qed.



End X86Module.
