(* ===== verification/X86Engine.v ===== *)
(** * The engine on x86

    [cs_disasm] of [capstone/cs.c] with the back end it installs for
    [CS_ARCH_X86]: the decoder [X86_getInstruction], the mapping
    [X86_get_insn_id] and the printer [X86_Intel_printInst], as the kernel
    extension is built.  The back end obeys the laws of [ArchOk], and with them
    the instructions of a listing are those the decoder finds in the code, with
    their public numbers and operands. *)

From Stdlib Require Import ZArith Lia.
From stdpp Require Import gmap.
From S2P Require Import Prelude CsUtils CsMcInst CsSStream CsCore CsDisasm X86Tables X86Decoder X86Logic X86Decode X86Translate.
From S2P Require Import X86Disasm X86Mapping X86Printer X86Show X86Module.

Module X86Engine.

Import Utils X86Data McInst Cs CsDisasm X86Tables X86Decode X86Translate X86Disasm X86Mapping X86Show X86Module.
Open Scope c_scope.

#[local] Opaque insn_ids insns x86OperandSets modRMTable x86DisassemblerInstrSpecifiers X86Printer.OpInfo.

Section engine.
  (** The allocator, what fresh memory and the stack hold, the configuration. *)
  Context (avail : Z → Z → bool) (fresh : Z → list Z) (junk : X86Decoder.insn) (c : config).

(** The details as the back end sees them, and stored back. *)
Definition x86_of (insn : cs_insn) : option cs_x86 := x86 ∘ snd <$> i_detail insn.
Definition put_x86 (insn : cs_insn) (d : option cs_x86) : cs_insn :=
  set_detail insn (match i_detail insn, d with Some (p, cd), Some d => Some (p, set_x86_detail cd d) | _, _ => i_detail insn end).

(** [handle->disasm] *)
Definition x86_disasm (h : cs_struct) (code : list Z) (mci : MCInst) (insn : cs_insn) (addr : Z)
    : outcome (bool * MCInst * cs_insn * Z) :=
  '(r, mci, d, n) ← X86_getInstruction junk (mode h) (detail h) code mci (x86_of insn) addr;
  Ok (r, mci, put_x86 insn d, n).

(** [handle->printer] *)
Definition x86_env (h : cs_struct) (id size address : Z) : X86Printer.env :=
  X86Printer.mkEnv (detail h) (mode h) (syntax c) (regsize_map c) id size address.

Definition x86_printer (h : cs_struct) (mci : MCInst) (insn : cs_insn) (ss : SStream.SStream)
    : outcome (MCInst * cs_insn * SStream.SStream) :=
  st ← X86Printer.X86_Intel_printInst (x86_env h (i_id insn) (i_size insn) (i_address insn)) (X86Printer.mkP mci (x86_of insn) false);
  Ok (X86Printer.p_mi st, put_x86 insn (X86Printer.p_detail st), ss).

Definition x86_back_end : arch_ops := mkOps x86_disasm (X86_get_insn_id avail fresh) x86_printer None.

Lemma x86_of_put insn d : is_Some (i_detail insn) → x86_of (put_x86 insn (Some d)) = Some d.
Proof using Type. intros [[p cd] E]. unfold x86_of, put_x86. rewrite E. done. Qed.

Lemma put_x86_keeps insn d : insn_wf insn → keeps insn (put_x86 insn d) ∧ i_size (put_x86 insn d) = i_size insn.
Proof using Type.
  intros Hw. split; [|done]. split; [done|]. split; [|done]. unfold detail_ptr, put_x86. cbn. destruct (i_detail insn) as [[p cd]|], d; done.
Qed.

Lemma want_detail h insn : has_detail h insn → detail h ≠ 0 → is_Some (i_detail insn).
Proof using Type.
  intros Hd Hw. unfold has_detail, detail_ptr in Hd. rewrite fmap_is_Some in Hd. apply Hd.
  unfold ctrue. by rewrite (proj2 (Z.eqb_neq _ _) Hw).
Qed.

(** What the decoder has left for the printer. *)
Definition printable (h : cs_struct) (mci : MCInst) (dt : option (Z * cs_detail)) : Prop :=
  ∃ s row l, decoded s row ∧ operand_views row s (s X86Decoder.instructionID) 0 (take 5 row) = Some l ∧
    Opcode mci = s X86Decoder.instructionID ∧ views mci = Some <$> l ∧ imm_size mci = s X86Decoder.immSize ∧ x86_prefix mci = insn_prefixes s ∧
    (detail h ≠ 0 → ∃ d, x86 ∘ snd <$> dt = Some d ∧ fresh_detail d).

(** What it answers. *)
Lemma x86_disasm_answers h code mci insn addr :
  bytes_ok code → zlen code < 2 ^ 64 → in_u 64 addr → has_detail h insn → blank mci →
  ∃ r mci' d n, x86_disasm h code mci insn addr = Ok (r, mci', put_x86 insn d, n) ∧
    match disassembly junk (mode h) code addr with
    | Some (id, k, l) => r = true ∧ n = k ∧ 1 ≤ n ≤ 15 ∧ n ≤ zlen code ∧ OpcodePub mci' = 0 ∧ Opcode mci' = id ∧ views mci' = Some <$> l ∧
        ∃ s row, X86Decoder.decodeInstruction code addr addr (decode_mode (mode h)) (X86Decoder.clear_insn junk) = Ok (s, Some tt) ∧
          decoded s row ∧ id = s X86Decoder.instructionID ∧ operand_views row s id 0 (take 5 row) = Some l ∧
          imm_size mci' = s X86Decoder.immSize ∧ x86_prefix mci' = insn_prefixes s ∧
          (detail h ≠ 0 → ∃ d', d = Some d' ∧ fresh_detail d')
    | None => r = false
    end.
Proof using Type.
  intros Hb Hl Ha Hd (Hi & Hz & Hpub). unfold x86_disasm.
  destruct (X86_getInstruction_spec junk (mode h) (detail h) code mci (x86_of insn) addr Hb Hl Ha Hi Hz)
    as (r & mci' & d' & n & -> & _ & _ & Hr).
  { intros Hw. unfold x86_of. apply fmap_is_Some. by eapply want_detail. }
  cbn [mbind outcome_bind]. do 4 eexists. split; [done|]. destruct (disassembly _ _ _ _) as [[[id k] l]|]; [|done].
  destruct Hr as (-> & Hid & -> & Hk & Hk' & Hv & s & row & E & Hdec & Hid' & Hov & Hp & Him & Hpre & Hdt).
  split_conj; try done; try lia. exists s, row. by split_conj.
Qed.

Lemma prefixes_length s : zlen (insn_prefixes s) = 4.
Proof using Type. done. Qed.

Context (Hcfg : syntax c = X86Printer.CS_OPT_SYNTAX_INTEL ∧ zlen (regsize_map c) = REGS).

Definition one_mode (md : Z) : Prop := md = CS_MODE_16 ∨ md = CS_MODE_32 ∨ md = CS_MODE_64.

Lemma x86_env_ok h id n addr : one_mode (mode h) → env_ok (x86_env h id n addr).
Proof using Hcfg. intros Hm. destruct Hcfg. by split. Qed.

Lemma detail_wanted h : ctrue (detail h) = true ↔ detail h ≠ 0.
Proof using Type. unfold ctrue. destruct (Z.eqb_spec (detail h) 0); by split. Qed.

(** What is printed. *)
Lemma x86_printer_prints h mci insn ss s row l :
  one_mode (mode h) → decoded s row → operand_views row s (s X86Decoder.instructionID) 0 (take 5 row) = Some l →
  Opcode mci = s X86Decoder.instructionID → views mci = Some <$> l → imm_size mci = s X86Decoder.immSize → x86_prefix mci = insn_prefixes s →
  (detail h ≠ 0 → ∃ d, x86_of insn = Some d ∧ fresh_detail d) →
  ∃ mci' d ops, x86_printer h mci insn ss = Ok (mci', put_x86 insn d, ss) ∧ OpcodePub mci' = OpcodePub mci ∧
    public_operands (x86_env h (i_id insn) (i_size insn) (i_address insn)) (Opcode mci) (s X86Decoder.immSize) (s X86Decoder.prefix2) l = Some ops ∧
    (detail h ≠ 0 → ∃ d0 d', x86_of insn = Some d0 ∧ d = Some d' ∧ shows d0 d' ops).
Proof using Hcfg.
  intros Hm Hdec Hov Hop Hv Him Hpre Hd. unfold x86_printer.
  destruct (X86_Intel_printInst_spec (x86_env h (i_id insn) (i_size insn) (i_address insn)) mci s row l (x86_of insn)) as (ops & mi' & dt' & Ep & -> & Hl & Hdt);
    [by apply x86_env_ok|done|done|done|done|rewrite Him; by apply (tr_imm _ _ (dc_fine _ _ Hdec))|by rewrite Hpre|
     intros Hw; apply Hd; by apply detail_wanted|].
  cbn [mbind outcome_bind X86Printer.p_mi X86Printer.p_detail]. exists mi', dt', ops. split; [done|]. split; [by apply Hl|].
  rewrite Him, Hpre in Ep. split; [exact Ep|]. intros Hw. cbn [X86Printer.e_detail x86_env] in Hdt.
  rewrite (proj2 (detail_wanted h) Hw) in Hdt. destruct Hdt as (d0 & d' & H1 & H2 & H3). eauto.
Qed.

(** The numbers of instructions are positions of the tables. *)
#[local] Transparent modRMTable.
Lemma known_range : forallb (fun id => (0 <=? id) && (id <=? 1670)) modRMTable = true.
Proof using Type. vm_compute. reflexivity. Qed.
#[local] Opaque modRMTable.

Lemma decoded_range s row : decoded s row → 0 ≤ s X86Decoder.instructionID ≤ last_id insns.
Proof using Type.
  intros [[_ Hin] _ _ _ _]. pose proof known_range as H. rewrite forallb_forall in H. specialize (H (s X86Decoder.instructionID)).
  rewrite <- list_elem_of_In in H. specialize (H Hin). rewrite insns_last. zify_bools. lia.
Qed.

Context (Hmem : cache_memory avail fresh).

Lemma text_ok ss : SStream.holds ss [] → output_ok (SStream.buffer ss).
Proof using Type.
  intros (_ & _ & _ & rest & E). exists [], rest. split; [exact E|]. split; [constructor|reflexivity].
Qed.

(** The laws of a back end. *)
#[export] Instance x86_back_end_ok : ArchOk avail x86_back_end.
Proof using Type*.
  refine {| ak_mode := one_mode; ak_accepted := printable |}.
  - intros h code mci insn addr _ Hb Hl Ha Hw Hd Hi. cbn [op_disasm x86_back_end].
    destruct (x86_disasm_answers h code mci insn addr Hb Hl Ha Hd Hi) as (r & mci' & d & n & E & Hr).
    exists r, mci', (put_x86 insn d), n. split; [done|]. split; [by apply put_x86_keeps|]. intros ->.
    destruct (disassembly _ _ _ _) as [[[id k] l]|]; [|done].
    destruct Hr as (_ & -> & Hk & Hk' & _ & Hop & Hv & s & row & _ & Hdec & -> & Hov & Him & Hpre & Hdt).
    split; [lia|]. split; [lia|]. exists s, row, l. split_conj; [done..|]. intros Hwt. destruct (Hdt Hwt) as (d' & -> & Hf).
    exists d'. split; [|done]. apply x86_of_put. by eapply want_detail.
  - intros h m mci insn _ Hacc Hw Hd. cbn [op_insn_id x86_back_end]. pose proof Hacc as (s & row & l & Hdec & _ & Hop & _).
    destruct (X86_get_insn_id_finds avail fresh Hmem h m insn (Opcode mci)) as (h' & m' & x & -> & Hstep & _); [rewrite Hop; by eapply decoded_range|].
    do 3 eexists. split; [done|]. split; [done|]. split; [done|]. split; [done|].
    assert (detail h' = detail h) as Ed by (by destruct Hstep as [[-> _]|(_ & ? & ? & _ & ->)]).
    unfold printable in *. by rewrite Ed.
  - intros h mci insn ss Hm (s & row & l & Hdec & Hov & Hop & Hv & Him & Hpre & Hdt) Hw Hd Hss. cbn [op_printer x86_back_end].
    destruct (x86_printer_prints h mci insn ss s row l) as (mci' & d & ops & -> & _); [done..|].
    do 3 eexists. split; [done|]. destruct (put_x86_keeps insn d Hw) as [H1 H2]. split; [done|]. split; [done|]. by apply text_ok.
  - discriminate.
Defined.

(** ** Listings *)

(** The operands to be listed for the instruction at [addr], if its public
    number is [pid]. *)
Definition listed_operands (h : cs_struct) (pid : Z) (code : list Z) (addr : Z) : option (list cs_x86_op) :=
  match X86Decoder.decodeInstruction code addr addr (decode_mode (mode h)) (X86Decoder.clear_insn junk), disassembly junk (mode h) code addr with
  | Ok (s, Some _), Some (id, n, l) =>
      public_operands (x86_env h pid n addr) id (s X86Decoder.immSize) (s X86Decoder.prefix2) l
  | _, _ => None
  end.

(** The details [i] carries for the instruction at [addr]. *)
Definition detailed (h : cs_struct) (code : list Z) (addr : Z) (i : cs_insn) : Prop :=
  if detail h =? 0 then i_detail i = None
  else ∃ p cd ops, i_detail i = Some (p, cd) ∧ listed_operands h (i_id i) code addr = Some ops ∧
    x_op_count (x86 cd) = zlen ops ∧ zlen (x_operands (x86 cd)) = 8 ∧ take (length ops) (x_operands (x86 cd)) = ops.

(** [i] is the instruction at [addr]: its length, its public number and, if
    details are wanted, its operands; where there is none it stands for
    skipped data. *)
Definition x86_piece (h : cs_struct) (org : list Z) (off0 : Z) (code : list Z) (addr n : Z) (i : cs_insn) : Prop :=
  match disassembly junk (mode h) code addr with
  | Some (id, k, _) => n = k ∧ 1 ≤ k ≤ 15 ∧
      (id ∉ prefix_ids → i_id i = public_id id) ∧ detailed h code addr i
  | None => skip_amount h (zlen code) org (u64 (addr - off0)) = Some n ∧ i_id i = 0 ∧ i_detail i = None
  end.

Lemma fill_insn_keeps b insn buf mci code i : diet b = true → OpcodePub mci = 0 →
  fill_insn b insn buf mci None code = Ok i → i_id i = i_id insn ∧ i_detail i = i_detail insn.
Proof using Type.
  intros Hb Hp. unfold fill_insn, MCInst_getOpcodePub. rewrite Hb, Hp. change (ctrue 0) with false. cbv iota.
  set (k := if 16 <? _ then _ else _). destruct (if i_size insn <=? zlen code then _ else Ub) as [bs| |]; try discriminate.
  cbn [mbind outcome_bind]. by intros [= <-].
Qed.

(** What is emitted for an instruction of the decoder. *)
Lemma emitted_x86 b junk_ss h0 h m mci insn h' m' code addr n i :
  diet b = true → zlen (SStream.buffer junk_ss) = SStream.BUFSIZE → one_mode (mode h) → mode h = mode h0 → detail h = detail h0 →
  bytes_ok code → zlen code < 2 ^ 64 → in_u 64 addr →
  CsDisasm.answers x86_back_end h true code addr n mci insn → emit_insn b x86_back_end junk_ss h m mci insn n code = Ok (h', m', i) →
  ∃ id k l, disassembly junk (mode h0) code addr = Some (id, k, l) ∧ n = k ∧ 1 ≤ k ≤ 15 ∧
    (id ∉ prefix_ids → i_id i = public_id id) ∧ detailed h0 code addr i.
Proof using Type*.
  intros Hdiet Hss Hm Emode Edet Hb Hl Ha (mci0 & insn0 & Hi & Hw & [Hd Hno] & Haddr & E) Em. cbn [op_disasm x86_back_end] in E.
  destruct (x86_disasm_answers h code mci0 insn0 addr Hb Hl Ha Hd Hi) as (r & mci' & d & n' & E' & Hr).
  rewrite E in E'. injection E' as <- <- -> <-. unfold detailed, listed_operands. rewrite Emode in Hr, Hm.
  destruct (disassembly _ _ _ _) as [[[id k] l]|]; [|done].
  destruct Hr as (_ & -> & Hk & Hk' & Hpub & Hop & Hv & s & row & Edec & Hdec & Hid & Hov & Him & Hpre & Hdt).
  exists id, k, l. split; [done|]. split; [done|]. split; [done|]. rewrite Edec.
  unfold emit_insn in Em. destruct (SStream.Init_spec junk_ss Hss) as (ss & Ess & Hhold). rewrite Ess in Em. cbn [mbind outcome_bind] in Em.
  cbn [op_insn_id op_printer op_post x86_back_end] in Em.
  set (i1 := set_isize (put_x86 insn0 d) k) in Em.
  destruct (X86_get_insn_id_finds avail fresh Hmem h m i1 (Opcode mci)) as (h1 & m1 & x & Ex & Hstep & Hx);
    [rewrite Hop, Hid; by eapply decoded_range|]. rewrite Ex in Em. cbn [mbind outcome_bind] in Em.
  rewrite Hop in Hx. assert (id ∉ prefix_ids → x = public_id id) as Hpid.
  { intros Hnp. apply Hx. apply has_public; [|by rewrite Hid; apply (dc_known _ _ Hdec)|done]. rewrite Hid. apply (dc_known _ _ Hdec). }
  assert (mode h1 = mode h0 ∧ detail h1 = detail h0) as [Em1 Ed1] by (rewrite <- Emode, <- Edet; by destruct Hstep as [[-> _]|(_ & ? & ? & _ & ->)]).
  set (i2 := set_id i1 x) in Em.
  assert (detail h1 ≠ 0 → ∃ d', x86_of i2 = Some d' ∧ fresh_detail d') as Hfresh.
  { intros Hne. rewrite Ed1, <- Edet in Hne. destruct (Hdt Hne) as (d' & -> & Hf). exists d'. split; [|done].
    apply (x86_of_put insn0 d'). by eapply want_detail. }
  rewrite Hid in Hov. destruct (x86_printer_prints h1 mci i2 ss s row l) as (mci2 & d2 & ops & Ep & Hp2 & Hpo & Hsh);
    [by rewrite Em1|done|done|congruence|done|done|done|exact Hfresh|].
  rewrite Ep in Em. cbn [mbind outcome_bind] in Em.
  destruct (fill_insn b (put_x86 i2 d2) (SStream.buffer ss) mci2 None code) as [i3| |] eqn:Ef; try discriminate Em. injection Em as <- <- <-.
  destruct (fill_insn_keeps _ _ _ _ _ _ Hdiet ltac:(by rewrite Hp2) Ef) as [Ei Edt]. change (i_id (put_x86 i2 d2)) with x in Ei. rewrite Ei. split; [done|]. destruct (Z.eqb_spec (detail h0) 0) as [Hwant|Hwant].
  { rewrite Edt. unfold put_x86, i2, i1. cbn. rewrite Hno by (by rewrite Edet, Hwant). done. }
  destruct Hsh as (d0 & d' & Hd0 & -> & rest & -> & Hlen); [congruence|]. rewrite Edt.
  assert (is_Some (i_detail i2)) as [[p cd] Ei2] by (unfold x86_of in Hd0; apply fmap_Some in Hd0 as (y & -> & _); by eexists).
  unfold put_x86. rewrite Ei2. cbn [i_detail set_detail]. exists p. eexists. exists ops. split; [done|].
  cbn [x86 set_x86_detail x_op_count x_operands X86Printer.set_ops]. split; [|split; [done|split; [done|by rewrite take_app_length]]].
  rewrite Hop in Hpo. change (i_id i2) with x in Hpo. change (i_size i2) with k in Hpo. change (i_address i2) with (i_address insn0) in Hpo.
  rewrite Haddr in Hpo. unfold x86_env in *. by rewrite Em1, Ed1 in Hpo.
Qed.

(** The handle changes in its cache only. *)
Lemma cfg_same h0 h : cfg (enter h0) h →
  mode h = mode h0 ∧ detail h = detail h0 ∧ ∀ n org p, skip_amount h n org p = skip_amount h0 n org p.
Proof using Type. intros ->. unfold enter. by destruct (arch _ =? _). Qed.

Lemma skips_x86 h org off0 code addr k :
  bytes_ok code → zlen code < 2 ^ 64 → in_u 64 addr → skips x86_back_end (enter h) org off0 code addr k →
  disassembly junk (mode h) code addr = None ∧ skip_amount h (zlen code) org (u64 (addr - off0)) = k.
Proof using Type.
  clear Hcfg Hmem.
  intros Hb Hl Ha [(h1 & n & mci & insn & Hcfg1 & mci0 & insn0 & Hi & _ & [Hd _] & _ & E) (h2 & Hcfg2 & <-)].
  destruct (cfg_same _ _ Hcfg1) as (Hm & _ & _), (cfg_same _ _ Hcfg2) as (_ & _ & ->). cbn [op_disasm x86_back_end] in E.
  destruct (x86_disasm_answers h1 code mci0 insn0 addr Hb Hl Ha Hd Hi) as (r' & ? & ? & n' & E' & Hr).
  rewrite E in E'. injection E' as <- _ _ _. rewrite Hm in Hr. destruct (disassembly _ _ _ _) as [[[id k] l]|]; [by destruct Hr|done].
Qed.

Lemma piece_x86 b junk_ss h org off0 code addr n i :
  diet b = true → zlen (SStream.buffer junk_ss) = SStream.BUFSIZE → one_mode (mode h) →
  bytes_ok code → zlen code < 2 ^ 64 → in_u 64 addr → piece b x86_back_end junk_ss (enter h) org off0 code addr n i →
  x86_piece h org off0 code addr n i.
Proof using Type*.
  intros Hdiet Hss Hm Hb Hl Ha [(h1 & m & mci & insn & h' & m' & Hcfg1 & Hans & Em)|(Hsk & Hid & Hdt)]; unfold x86_piece.
  - destruct (cfg_same _ _ Hcfg1) as (Hmode & Hdet & _).
    destruct (emitted_x86 b junk_ss h h1 m mci insn h' m' code addr n i) as (id & k & l & -> & Hk); [done|done|by rewrite Hmode|done..].
  - apply skips_x86 in Hsk as [-> ?]; done.
Qed.

End engine.

(** Why the listing ends. *)
Definition x86_stop (junk : X86Decoder.insn) (h : cs_struct) (org : list Z) (off0 count c : Z) (code : list Z) (addr : Z) : Prop :=
  (0 < count ∧ c = count) ∨ code = [] ∨
  (disassembly junk (mode h) code addr = None ∧ skip_amount h (zlen code) org (u64 (addr - off0)) = None).

Definition listed (out : insn_out) : list cs_insn := match out with Arr _ l => l | _ => [] end.

(** What the configuration, the handle and the memory have to provide. *)
Record x86_ready (b : build) (avail : Z → Z → bool) (fresh : Z → list Z) (c : config) (h : cs_struct) : Prop := {
  xr_build : diet b = true;
  xr_mode : one_mode (mode h);
  xr_config : config_ok h c;
  xr_memory : cache_memory avail fresh
}.

(** The engine on x86 code, with what it leaves allocated. *)
Lemma cs_disasm_x86_spec (b : build) (avail : Z → Z → bool) (fresh : Z → list Z) (szd : Z) (stack : X86Decoder.insn) (c : config)
    (junk : cs_insn) (junk_detail : cs_detail) (junk_mci : MCInst) (junk_ss : SStream.SStream)
    (h : cs_struct) (code : list Z) (offset count : Z) (m : mem) :
  x86_ready b avail fresh c h →
  scratch_ok junk junk_mci junk_ss → call_ok b avail szd h code offset count m →
  ∃ n h' m' out,
    cs_disasm b avail szd (x86_back_end avail fresh stack c) junk junk_detail junk_mci junk_ss (Some h) code offset count m
      = Ok (n, Some h', m', out) ∧ n = zlen (listed out) ∧
    disasm_post b (x86_back_end avail fresh stack c) junk_ss h code offset count m n h' m' out ∧
    (errnum h' = CS_ERR_MEM ∨
     ∃ code' addr', tiles (x86_piece stack c h code offset) code offset (listed out) code' addr' ∧
       x86_stop stack h code offset count n code' addr').
Proof.
  intros [Hdiet Hm [Hsyn Hsz] Hmem] Hs Hc. pose proof Hc as [_ _ Hb Hl Ha _ _ _ _]. pose proof Hs as (_ & _ & Hss).
  assert (syntax c = X86Printer.CS_OPT_SYNTAX_INTEL ∧ zlen (regsize_map c) = REGS) as Hcfg by (split; [done|rewrite Hsz; apply regsize_length]).
  set (ops := x86_back_end avail fresh stack c).
  pose proof (x86_back_end_ok avail fresh stack c Hcfg Hmem) as Hok.
  destruct (@cs_disasm_spec b avail szd ops junk junk_detail junk_mci junk_ss (x86_back_end_ok avail fresh stack c Hcfg Hmem)
    h code offset count m Hm Hs Hc) as (n & h' & m' & out & E & Hcfg' & Hpost).
  exists n, h', m', out. split; [exact E|]. enough (n = zlen (listed out) ∧ (errnum h' = CS_ERR_MEM ∨
     ∃ code' addr', tiles (x86_piece stack c h code offset) code offset (listed out) code' addr' ∧
       x86_stop stack h code offset count n code' addr')) as [H1 H2] by (split_conj; [exact H1|split; [exact Hcfg'|exact Hpost]|exact H2]).
  assert (∀ c' code' addr' l, tiles (piece b ops junk_ss (enter h) code offset) code offset l code' addr' →
    stop_reason ops (enter h) code offset count c' code' addr' →
    ∃ code' addr', tiles (x86_piece stack c h code offset) code offset l code' addr' ∧ x86_stop stack h code offset count c' code' addr') as Hlist.
  { intros c' code' addr' l Ht Hstop. exists code', addr'. pose proof (tiles_length _ _ _ _ _ _ Ht). pose proof (zlen_nonneg l). split.
    - eapply tiles_weaken; [exact Ht|done|lia|done|]. intros. by eapply piece_x86.
    - destruct Hstop as [?|[?|Hsk]]; [by left|by right; left|]. right. right.
      eapply skips_x86 in Hsk; [exact Hsk|by eapply tiles_bytes|lia|by eapply tiles_address]. }
  destruct out as [| |p l]; cbn [listed].
  1, 2: destruct Hpost as (-> & _ & [?|[_ Hstop]]); (split; [done|]); [by left|right; eapply Hlist; [constructor|exact Hstop]].
  destruct Hpost as (_ & -> & _ & _ & (code' & addr' & Ht & Hstop) & _). split; [done|]. right. by eapply Hlist.
Qed.


(** The build of the kernel extension, and memory for its cache. *)
Definition kext_build : build := mkBuild (fun a => a =? CS_ARCH_X86) true true false true.
Definition zeroed (_ : Z) : list Z := replicate 1671 0.

Lemma zeroed_ok : cache_memory (fun _ _ => true) zeroed.
Proof.
  split; [done| |]; intros; [by rewrite insns_last|]. apply Forall_replicate. rewrite insns_length. lia.
Defined.

(** [mov rax, [rsp+16]; ret], then a byte that begins no instruction in 64-bit
    mode *)
Definition listing_code : list Z := mov_code ++ [0xc3; 0x06].

Definition listing : outcome (Z * option cs_struct * mem * insn_out) :=
  cs_disasm kext_build (fun _ _ => true) 100 (x86_back_end (fun _ _ => true) zeroed junk0 (mkConfig 1 regsize_map_64)) insn0 detail0 inst0 ss0
    (Some handle1) listing_code 4096 0 (mkMem 0 ∅).

(** The public number, address, size and operands of an instruction. *)
Definition summary (i : cs_insn) : Z * Z * Z * list cs_x86_op :=
  (i_id i, i_address i, i_size i,
   match i_detail i with Some (_, cd) => take (Z.to_nat (x_op_count (x86 cd))) (x_operands (x86 cd)) | None => [] end).


End X86Engine.
