(* ===== verification/LiluDisasm.v ===== *)
(** * Lilu's disassembler ([Lilu.kext/Lilu/Sources/kern_disasm.cpp])

    The class [Disassembler] in the configuration [LILU_ADVANCED_DISASSEMBLY]:
    a Capstone handle for 64-bit x86 code with its start and end, the size of
    whole instructions, and the searches for the n-th call, jump, instruction
    or sequence of instructions.  It is modelled on the engine of [CsDisasm]
    with the back end of [X86Engine]; what it finds is stated in terms of a
    linear sweep of the code. *)

From Stdlib Require Import ZArith Lia.
From stdpp Require Import gmap.
From S2P Require Import Prelude CsMcInst CsSStream CsCore CsDisasm X86Tables X86Decoder X86Decode X86Disasm X86Mapping X86Printer X86Show X86Module X86Engine LiluMachine Hde Hde64.

Module LiluDisasm.

Import X86Data Cs CsDisasm X86Disasm X86Mapping X86Module X86Engine.
Open Scope c_scope.

#[local] Opaque insn_ids insns X86Tables.x86OperandSets X86Tables.modRMTable X86Tables.x86DisassemblerInstrSpecifiers X86Printer.OpInfo.

Definition MaxInstruction := 15.
Definition X86_INS_CALL := 56.
Definition X86_INS_JMP := 266.

(** ** State *)

(** The object, and what is global: [capstoneInitialised], the function
    pointers of the engine's allocator and the heap behind them. *)
Record dis_st := mkDis {
  initialised : bool;
  handle : option (Z * cs_struct);
  capstoneInitialised : bool;
  setup : mem_setup;
  heap : mem
}.

Definition with_heap (s : dis_st) (m : mem) : dis_st := mkDis (initialised s) (handle s) (capstoneInitialised s) (setup s) m.
Definition set_engine (s : dis_st) (h : option cs_struct) : dis_st :=
  mkDis (initialised s) (match handle s, h with Some (p, _), Some h => Some (p, h) | x, _ => x end) (capstoneInitialised s) (setup s) (heap s).

(** What [*handle] holds after [cs_open]. *)
Definition opened (out : handle_out) (old : option (Z * cs_struct)) : option (Z * cs_struct) :=
  match out with Untouched => old | Zeroed => None | Opened p ud => Some (p, ud) end.

(** [DisasmSig] *)
Record DisasmSig := mkSig { ins : Z; sub : bool; addr : bool }.

(** The configuration that [X86_global_init] leaves for [CS_MODE_64]; no
    option changes it. *)
Definition config64 : config := mkConfig X86Printer.CS_OPT_SYNTAX_INTEL regsize_map_64.

Section disassembler.
  (** The build, the allocator, the sizes of what it is asked for, and what
      memory that is not initialised holds. *)
  Context (b : build) (avail : Z → Z → bool) (fresh : Z → list Z) (szh szr szd : Z) (stack : X86Decoder.insn).
  Context (junk : cs_insn) (junk_detail : cs_detail) (junk_mci : McInst.MCInst) (junk_ss : SStream.SStream).
  (** Kernel memory, which is only read. *)
  Context (kmem : Machine.mem).

Definition engine : arch_ops := x86_back_end avail fresh stack config64.
Definition engine_init (_ : Z) (ud : cs_struct) (m : mem) : outcome (Z * cs_struct * mem) :=
  '(err, ud, m, _) ← X86_global_init avail szr ud m; Ok (err, ud, m).
Definition engine_option (_ : Z) (h : cs_struct) (type value : Z) : Z * cs_struct := (X86_option h config64 type value).1.

(** ** Start and end *)

(** [cs_option(0, CS_OPT_MEM, &setup)] with every function given, once. *)
Definition set_allocator (s : dis_st) : outcome (bool * dis_st) :=
  if capstoneInitialised s then Ok (true, s)
  else
    '(err, _, g) ← cs_option b engine_option None CS_OPT_MEM (Mem (mkSetup true true true true true)) (setup s);
    if negb (err =? CS_ERR_OK) then Ok (false, mkDis (initialised s) (handle s) false g (heap s))
    else Ok (true, mkDis (initialised s) (handle s) true g (heap s)).

Definition init (detailed : bool) (s : dis_st) : outcome (bool * dis_st) :=
  if initialised s then Ok (true, s)
  else
    '(ok, s) ← set_allocator s;
    if negb ok then Ok (false, s)
    else
      '(err, out, m) ← cs_open b avail szh engine_init (setup s) CS_ARCH_X86 CS_MODE_64 (heap s);
      let h := opened out (handle s) in
      if negb (err =? CS_ERR_OK) then Ok (false, mkDis (initialised s) h (capstoneInitialised s) (setup s) m)
      else
        let s := mkDis true h (capstoneInitialised s) (setup s) m in
        if detailed then
          '(err, h, g) ← cs_option b engine_option (snd <$> handle s) CS_OPT_DETAIL (Int CS_OPT_ON) (setup s);
          Ok (err =? CS_ERR_OK, set_engine (mkDis (initialised s) (handle s) (capstoneInitialised s) g (heap s)) h)
        else Ok (true, s).

Definition deinit (s : dis_st) : outcome dis_st :=
  if initialised s then
    '(_, h, m) ← cs_close (handle s) (heap s);
    Ok (mkDis false h (capstoneInitialised s) (setup s) m)
  else Ok s.

(** ** Disassembly *)

(** The bytes at an address; they must be mapped. *)
Definition fetch (a n : Z) : outcome (list Z) :=
  match Machine.rd kmem a (Z.to_nat n) with Some l => Ok l | None => Ub end.

(** The result and [*result]. *)
Definition disasmBuf (a size : Z) (s : dis_st) : outcome (Z * insn_out * dis_st) :=
  code ← fetch a size;
  '(insts, h, m, out) ← cs_disasm b avail szd engine junk junk_detail junk_mci junk_ss (snd <$> handle s) code 0 0 (heap s);
  let s := with_heap (set_engine s h) m in
  let result := match out with Kept => Null | _ => out end in
  if negb (cs_errno h =? CS_ERR_OK) then
    match result with
    | Arr p l => m ← cs_free (Some p) l insts (heap s); Ok (0, Null, with_heap s m)
    | _ => Ok (insts, result, s)
    end
  else Ok (insts, result, s).

(** [Disassembler::hdeDisasm]: the other disassembler, on the bytes it may
    look at. *)
Definition hdeDisasm (code : Z) : outcome (Hde.Hde.field → Z) := Hde64.Hde64.hde64_disasm (Machine.window kmem code 32).

(** [for (i; i < insts && size < min; i++) size += result[i].size;] *)
Fixpoint size_loop (n : nat) (result : list cs_insn) (i min size : Z) : outcome Z :=
  match n with
  | O => Ok size
  | S n =>
      if size <? min then x ← aget result i; size_loop n result (i + 1) min (u64 (size + i_size x))
      else Ok size
  end.

Definition instructionSize (a min : Z) (s : dis_st) : outcome (Z * dis_st) :=
  '(insts, out, s) ← disasmBuf a (u64 (min + MaxInstruction)) s;
  match out with
  | Arr p result =>
      size ← size_loop (Z.to_nat insts) result 0 min 0;
      m ← cs_free (Some p) result insts (heap s);
      Ok (if min <=? size then size else 0, with_heap s m)
  | _ => Ok (0, s)
  end.

(** ** Searches *)

(** What a search makes of one instruction: it counts, with an address; it
    does not; or the search is given up. *)
Inductive verdict := Hit (a : Z) | Miss | Stop.

Definition imm_of (op : cs_x86_op) : outcome Z := match xo_value op with VImm v => Ok v | _ => Ub end.

(** The body of the loops of [disasmNthSub] and [disasmNthJmp] *)
Definition scan_branch (a id : Z) (x : cs_insn) : outcome verdict :=
  if i_id x =? id then
    match i_detail x with
    | Some (_, d) =>
        if x_op_count (x86 d) =? 1 then
          op ← aget (x_operands (x86 d)) 0;
          if xo_type op =? X86Printer.X86_OP_IMM then v ← imm_of op; Ok (Hit (u64 (v + a))) else Ok Miss
        else Ok Miss
    | None => Ok Stop
    end
  else Ok Miss.

(** That of [disasmNthIns] *)
Definition scan_ins (a id : Z) (x : cs_insn) : outcome verdict :=
  Ok (if i_id x =? id then Hit (u64 (i_address x + a)) else Miss).

Fixpoint scan_loop (body : cs_insn → outcome verdict) (n : nat) (result : list cs_insn) (i num counter sub_addr : Z) : outcome Z :=
  match n with
  | O => Ok sub_addr
  | S n =>
      x ← aget result i;
      r ← body x;
      match r with
      | Stop => Ok sub_addr
      | Hit a => if u64 (counter + 1) =? num then Ok a else scan_loop body n result (i + 1) num (u64 (counter + 1)) 0
      | Miss => if counter =? num then Ok sub_addr else scan_loop body n result (i + 1) num counter 0
      end
  end.

(** The frame of the searches; without a result there is nothing to look at. *)
Definition search (loop : list cs_insn → Z → outcome Z) (a lookup_size : Z) (s : dis_st) : outcome (Z * dis_st) :=
  '(disasm_size, out, s) ← disasmBuf a lookup_size s;
  if 0 <? disasm_size then
    match out with
    | Arr p result =>
        sub_addr ← loop result disasm_size;
        m ← cs_free (Some p) result disasm_size (heap s);
        Ok (sub_addr, with_heap s m)
    | _ => Ub
    end
  else Ok (0, s).

Definition disasmNthSub (a num lookup_size : Z) : dis_st → outcome (Z * dis_st) :=
  search (fun result n => scan_loop (scan_branch a X86_INS_CALL) (Z.to_nat n) result 0 num 0 0) a lookup_size.
Definition disasmNthJmp (a num lookup_size : Z) : dis_st → outcome (Z * dis_st) :=
  search (fun result n => scan_loop (scan_branch a X86_INS_JMP) (Z.to_nat n) result 0 num 0 0) a lookup_size.
Definition disasmNthIns (a id num lookup_size : Z) : dis_st → outcome (Z * dis_st) :=
  search (fun result n => scan_loop (scan_ins a id) (Z.to_nat n) result 0 num 0 0) a lookup_size.

(** Whether an instruction is what the signature asks for. *)
Definition sig_match (g : DisasmSig) (x : cs_insn) : outcome bool :=
  if i_id x =? ins g then
    if negb (ins g =? X86_INS_CALL) || negb (sub g) then Ok true
    else
      match i_detail x with
      | Some (_, d) => op ← aget (x_operands (x86 d)) 0; Ok (xo_type op =? X86Printer.X86_OP_IMM)
      | None => Ub
      end
  else Ok false.

(** [for (j = 0; j < sig_count; j++)]: [sig_found] and [needed_addr] *)
Fixpoint sig_loop (n : nat) (sig : list DisasmSig) (result : list cs_insn) (disasm_size i j needed_addr : Z) : outcome (bool * Z) :=
  match n with
  | O => Ok (true, needed_addr)
  | S n =>
      if disasm_size <? i + zlen sig then Ok (false, needed_addr)
      else
        x ← aget result (i + j);
        g ← aget sig j;
        found ← sig_match g x;
        if found : bool then
          sig_loop n sig result disasm_size i (j + 1) (if addr g || (j =? 0) then i_address x else needed_addr)
        else Ok (false, needed_addr)
  end.

Fixpoint sig_scan (n : nat) (sig : list DisasmSig) (result : list cs_insn) (disasm_size a i num counter needed_addr : Z) : outcome Z :=
  match n with
  | O => Ok 0
  | S n =>
      '(sig_found, needed_addr) ← sig_loop (length sig) sig result disasm_size i 0 needed_addr;
      let counter := if sig_found : bool then u64 (counter + 1) else counter in
      if counter =? num then Ok (if sig_found then u64 (needed_addr + a) else 0)
      else sig_scan n sig result disasm_size a (i + 1) num counter needed_addr
  end.

Definition disasmSig (a : Z) (sig : list DisasmSig) (num lookup_size : Z) : dis_st → outcome (Z * dis_st) :=
  search (fun result n => sig_scan (Z.to_nat n) sig result n a 0 num 0 0) a lookup_size.

End disassembler.

(** ** Specification: a linear sweep *)

(** An instruction: its number in the decoder's tables, its offset, public
    number, size and operands. *)
Record found := mkFound { f_internal : Z; f_offset : Z; f_id : Z; f_size : Z; f_operands : list cs_x86_op }.

(** A call has an operand. *)
#[local] Transparent insn_ids insns X86Printer.OpInfo X86Tables.modRMTable.
Lemma calls_checked :
  forallb (fun id => negb (public_id id =? X86_INS_CALL) || negb (bool_decide (X86Printer.calls_of (zget X86Printer.OpInfo id) = [])))
    X86Tables.modRMTable = true.
Proof. vm_compute. reflexivity. Qed.
#[local] Opaque insn_ids insns X86Printer.OpInfo X86Tables.modRMTable.

Lemma show_all_grows e id isz pre l cs acc ops : X86Show.show_all e id isz pre l acc cs = Some ops → (length acc + length cs ≤ length ops)%nat.
Proof.
  revert acc. induction cs as [|c cs IH]; intros acc; cbn [X86Show.show_all]; [intros [= <-]; cbn; lia|].
  destruct (X86Show.show _ _ _ _ _ _ _) as [op|]; [|done]. cbn [mbind option_bind]. intros H%IH. rewrite length_app in H. cbn in *. lia.
Qed.

Lemma call_operand e id isz pre l ops : id ∈ X86Tables.modRMTable → public_id id = X86_INS_CALL →
  X86Show.public_operands e id isz pre l = Some ops → ops ≠ [].
Proof.
  intros Hin Hc Hops ->. pose proof calls_checked as H. rewrite forallb_forall in H. specialize (H id). rewrite <- list_elem_of_In in H. specialize (H Hin).
  rewrite Hc, Z.eqb_refl in H. cbn [negb orb] in H. apply negb_true_iff, bool_decide_eq_false in H. apply H. unfold X86Show.public_operands in Hops.
  destruct (X86Show.show_all _ _ _ _ _ _ _) as [l0|] eqn:E; [|done]. apply show_all_grows in E. cbn [mbind option_bind] in Hops. injection Hops as Hops.
  destruct (negb _); [done|]. destruct (X86_insn_reg_intel2 id) as [[r1 r2]|]; [done|]. subst l0. cbn [length] in E.
  destruct (X86Printer.calls_of _); [done|cbn in E; lia].
Qed.

Section sweep.
  Context (stack : X86Decoder.insn) (h : cs_struct).

Fixpoint sweep (fuel : nat) (code : list Z) (a : Z) : list found :=
  match fuel with
  | O => []
  | S fuel =>
      match disassembly stack (mode h) code a with
      | Some (id, n, _) =>
          mkFound id a (public_id id) n (default [] (listed_operands stack config64 h (public_id id) code a))
            :: sweep fuel (drop (Z.to_nat n) code) (u64 (a + n))
      | None => []
      end
  end.

(** The entry of the result for an instruction: of any public number if the
    tables have none. *)
Definition shown (x : cs_insn) (f : found) : Prop :=
  i_address x = f_offset f ∧ i_size x = f_size f ∧ 1 ≤ f_size f ≤ 15 ∧ (f_internal f ∉ prefix_ids → i_id x = f_id f) ∧
  (if detail h =? 0 then i_detail x = None
   else ∃ p d ops, i_detail x = Some (p, d) ∧ x_op_count (x86 d) = zlen ops ∧ zlen (x_operands (x86 d)) = 8 ∧
     take (length ops) (x_operands (x86 d)) = ops ∧ Forall X86Show.typed ops ∧ (f_internal f ∉ prefix_ids → ops = f_operands f ∧ (f_id f = X86_INS_CALL → ops ≠ []))).

Lemma nothing_in_nothing a : in_u 64 a → disassembly stack (mode h) [] a = None.
Proof using Type.
  intros Ha. destruct (X86_getInstruction_spec stack (mode h) 0 [] empty_inst None a) as (r & i & d & n & _ & _ & _ & H);
    [constructor|done|done|exact X86Show.empty_ok|done|done|].
  destruct (disassembly _ _ _ _) as [[[id k] l]|]; [|done]. destruct H as (_ & _ & _ & Hk & Hk' & _). unfold zlen in Hk'. cbn in Hk'. lia.
Qed.

Lemma listed_call code a id n v ops : bytes_ok code → zlen code < 2 ^ 64 → in_u 64 a → disassembly stack (mode h) code a = Some (id, n, v) →
  listed_operands stack config64 h (public_id id) code a = Some ops → public_id id = X86_INS_CALL → ops ≠ [].
Proof using Type.
  intros Hb Hl Ha E Hops Hc. destruct (X86_getInstruction_spec stack (mode h) 0 code empty_inst None a) as (r & i & d & k & _ & _ & _ & H);
    [done|done|done|exact X86Show.empty_ok|done|done|]. rewrite E in H. destruct H as (_ & _ & _ & _ & _ & _ & s & row & _ & Hdec & Hid & _).
  unfold listed_operands in Hops. rewrite E in Hops. destruct (X86Decoder.decodeInstruction _ _ _ _ _) as [[s' [u|]]| |]; try discriminate Hops.
  eapply call_operand; [|exact Hc|exact Hops]. rewrite Hid. apply (dc_known _ _ Hdec).
Qed.

Lemma detailed_operands code a x : detailed stack config64 h code a x →
  if detail h =? 0 then i_detail x = None
  else ∃ p d ops, i_detail x = Some (p, d) ∧ x_op_count (x86 d) = zlen ops ∧ zlen (x_operands (x86 d)) = 8 ∧
     take (length ops) (x_operands (x86 d)) = ops ∧ Forall X86Show.typed ops ∧ listed_operands stack config64 h (i_id x) code a = Some ops.
Proof using Type.
  unfold detailed. destruct (detail h =? 0); [done|]. intros (p & d & ops & E1 & E2 & E3 & E4 & E5). exists p, d, ops. split_conj; [done..| |done].
  revert E2. unfold listed_operands. repeat case_match; try discriminate. apply X86Show.public_operands_typed.
Qed.

(** What tiles the code with nothing left to decode is the sweep. *)
Lemma tiles_sweep org off0 code a l code' a' fuel :
  skipdata h = false → in_u 64 a → bytes_ok code → zlen code < 2 ^ 64 → tiles (x86_piece stack config64 h org off0) code a l code' a' →
  (code' = [] ∨ disassembly stack (mode h) code' a' = None) → (length code ≤ fuel)%nat → Forall2 shown l (sweep fuel code a).
Proof using Type.
  intros Hsk Ha Hb Hl Ht Hend. revert fuel. induction Ht as [code a|code a n x l code' a' Hcov Hp Ht IH]; intros fuel Hf.
  - destruct fuel as [|fuel]; cbn [sweep]; [constructor|]. destruct Hend as [->| ->]; [rewrite nothing_in_nothing by done|]; constructor.
  - destruct Hcov as (Hn & Ea & Es & _). unfold x86_piece in Hp. unfold zlen in Hn. destruct fuel as [|fuel]; [lia|]. cbn [sweep].
    destruct (disassembly stack (mode h) code a) as [[[id k] v]|] eqn:E.
    2: { unfold skip_amount in Hp; rewrite Hsk in Hp; destruct Hp as [Hp _]; discriminate Hp. }
    destruct Hp as (-> & Hk & Hid & Hd). constructor.
    + unfold shown. cbn [f_offset f_size f_internal f_id f_operands]. split_conj; [done|lia|lia|lia|done|].
      apply detailed_operands in Hd. destruct (detail h =? 0); [done|]. destruct Hd as (p & d & ops & E1 & E2 & E3 & E4 & E5 & E6).
      exists p, d, ops. split_conj; [done..|]. intros Hnp. rewrite (Hid Hnp) in E6. rewrite E6. split; [done|]. by eapply listed_call.
    + unfold zlen in Hl. apply IH; [auto with cint|by apply Forall_drop|unfold zlen; rewrite length_drop; lia|done|rewrite length_drop; lia].
Qed.
End sweep.

(** ** The invariant of the object *)

(** A handle that the class has opened. *)
Definition engine_ok (h : cs_struct) : Prop :=
  arch h = CS_ARCH_X86 ∧ mode h = CS_MODE_64 ∧ skipdata h = false ∧ skipdata_size h = 0 ∧ callback (skipdata_setup h) = None ∧
  (detail h = CS_OPT_OFF ∨ detail h = CS_OPT_ON).

(** The blocks of a handle, and the object with the heap: besides the blocks
    of others, [base], nothing is allocated but an open handle's. *)
Definition blocks (p : Z) (h : cs_struct) : list Z := option_list (printer_info h) ++ option_list (insn_cache h) ++ [p].

Definition inv (base : gset Z) (s : dis_st) : Prop :=
  (capstoneInitialised s = true → setup_ready (setup s) = true) ∧
  if initialised s then ∃ p h, handle s = Some (p, h) ∧ engine_ok h ∧ owns base (heap s) (blocks p h)
  else handle s = None ∧ owns base (heap s) [].

Lemma blocks_cache base m p h : owns base m (blocks p h) → cacheset h ⊆ live m.
Proof.
  intros (_ & _ & -> & _). unfold cacheset, blocks. destruct (insn_cache h) as [q|]; [|set_solver].
  cbn [option_list]. rewrite !list_to_set_app_L. cbn. set_solver.
Qed.

(** Blocks that came after those of [ps], and one counted among the others. *)
Lemma owns_after base m ps m' qs : owns base m ps → owns (live m) m' qs → owns base m' (qs ++ ps).
Proof.
  intros (Hn & Hd & El & _) (Hn' & Hd' & El' & Hlt'). unfold owns. split_conj; [| | |done].
  - apply NoDup_app. split_conj; [done| |done]. intros q Hq%Hd' Hq'. set_solver.
  - intros q [Hq%Hd'|Hq]%elem_of_app; [set_solver|by apply Hd].
  - rewrite El', El, list_to_set_app_L. set_solver.
Qed.

Lemma owns_return base m c ps : c ∉ base → owns (base ∪ {[c]}) m ps → owns base m (c :: ps).
Proof.
  intros Hc (Hn & Hd & El & Hlt). unfold owns. split_conj; [| | |done].
  - constructor; [|done]. intros Hq%Hd. set_solver.
  - intros q [->|Hq%Hd]%elem_of_cons; [done|set_solver].
  - rewrite El. cbn [list_to_set]. set_solver.
Qed.

(** The blocks after a call that may have allocated the cache. *)
Lemma owns_cache base m p h h' m' qs :
  owns base m (blocks p h) → printer_info h' = printer_info h → cache_fresh (live m) h h' →
  owns (live m ∪ cacheset h') m' qs → owns base m' (qs ++ blocks p h').
Proof.
  intros Ho Ep Hf Ho'. pose proof (blocks_cache _ _ _ _ Ho) as Hc. destruct Hf as [Ec|[Ec Hf]].
  - unfold blocks. rewrite Ep, Ec. apply (owns_after _ m); [done|]. unfold cacheset in *. rewrite Ec in Ho'.
    by replace (live m ∪ _) with (live m) in Ho' by set_solver.
  - unfold blocks in *. unfold cacheset in *. rewrite Ep, Ec in *. destruct (insn_cache h') as [c|]; cbn [option_list app] in *.
    + apply owns_return in Ho'; [|set_solver]. pose proof (owns_after _ _ _ _ _ Ho Ho') as H. revert H. apply owns_proper.
      set (a := option_list (printer_info h)). change (qs ++ a ++ c :: [p] ≡ₚ c :: qs ++ a ++ [p]). rewrite !app_assoc. symmetry. apply Permutation_middle.
    + apply (owns_after _ m); [done|]. by rewrite union_empty_r_L in Ho'.
Qed.

(** ** Disassembly of a region *)

(** A handle in the class's configuration, by its detail option, which is all
    the sweep depends on. *)
Definition handle64 (d : Z) : cs_struct := mkCs CS_ARCH_X86 CS_MODE_64 None CS_ERR_OK 0 d None false 0 (mkSkip None None).
Definition wants (s : dis_st) : Z := match handle s with Some (_, h) => detail h | None => CS_OPT_OFF end.
Definition no_memory (s : dis_st) : Prop := ∃ p h, handle s = Some (p, h) ∧ errnum h = CS_ERR_MEM.

Lemma sweep_handle stack h fuel code a : mode h = CS_MODE_64 → sweep stack h fuel code a = sweep stack (handle64 (detail h)) fuel code a.
Proof.
  intros Hm. revert code a. induction fuel as [|fuel IH]; intros code a; cbn [sweep]; [done|].
  change (mode (handle64 (detail h))) with CS_MODE_64. rewrite Hm. destruct (disassembly _ _ _ _) as [[[id n] l]|]; [|done]. rewrite IH. do 2 f_equal.
  unfold listed_operands, x86_env. cbn [mode detail handle64]. by rewrite Hm.
Qed.

Section region.
  Context (b : build) (avail : Z → Z → bool) (fresh : Z → list Z) (szh szr szd : Z) (stack : X86Decoder.insn).
  Context (junk : cs_insn) (junk_detail : cs_detail) (junk_mci : McInst.MCInst) (junk_ss : SStream.SStream).
  Context (kmem : Machine.mem).

(** What the class relies on: the diet engine, memory for the blocks whose
    allocation the engine does not check, and bytes in memory. *)
Record ready : Prop := {
  rd_diet : diet b = true;
  rd_cache : cache_memory avail fresh;
  rd_registers : ∀ n, avail n szr = true;
  rd_details : ∀ n, avail n szd = true;
  rd_scratch : scratch_ok junk junk_mci junk_ss;
  rd_bytes : Machine.mem_ok kmem
}.

(** The instructions of a region, with details as the object is set up. *)
Definition instructions (d a n : Z) : list found :=
  let code := Machine.window kmem a (Z.to_nat n) in sweep stack (handle64 d) (length code) code 0.

Lemma region_bytes a n : Machine.mem_ok kmem → bytes_ok (Machine.window kmem a n).
Proof using Type.
  intros Hk. revert a. induction n as [|n IH]; intros a; cbn [Machine.window]; [constructor|].
  destruct (kmem !! a) as [x|] eqn:E; [|constructor]. constructor; [by eapply Hk|apply IH].
Qed.

Lemma fetch_region a n : 0 ≤ n → Machine.mapped kmem a n →
  fetch kmem a n = Ok (Machine.window kmem a (Z.to_nat n)) ∧ zlen (Machine.window kmem a (Z.to_nat n)) = n.
Proof using Type.
  intros Hn Hm. assert (Machine.mapped kmem a (Z.of_nat (Z.to_nat n))) as Hm' by (by rewrite Z2Nat.id). unfold fetch.
  rewrite Machine.window_rd by done. split; [done|]. apply Machine.window_rd, Machine.rd_length in Hm'. unfold zlen. lia.
Qed.

Lemma engine_call base s h p code : ready → owns base (heap s) (blocks p h) → engine_ok h → bytes_ok code → zlen code < 2 ^ 28 →
  x86_ready b avail fresh config64 h ∧ call_ok b avail szd h code 0 0 (heap s).
Proof using Type.
  intros [Hdiet Hc Hr Hd Hs Hk] Ho (Ha & Hm & Hsk & Hsz & Hcb & Hdt) Hb Hl. split.
  - split; [done|by right; right| |done]. split; [done|]. unfold regsize_of. by rewrite Hm.
  - split; [|split; [by rewrite Hcb|by rewrite Hdiet]|done|done|by unfold in_u|done|by destruct Ho as (_ & _ & _ & ?)|by eapply blocks_cache|done].
    unfold handle_ok. rewrite Ha, Hsk, Hsz. split_conj; [done|done|done|done|done].
Qed.

(** A handle after a call: as before but for the error and the cache. *)
Lemma engine_after h h' : cfg (enter h) (set_errnum h' CS_ERR_OK) → engine_ok h →
  engine_ok h' ∧ detail h' = detail h ∧ printer_info h' = printer_info h.
Proof using Type.
  intros E (Ha & Hm & Hsk & Hsz & Hcb & Hdt). unfold enter, cfg in E. cbn [arch set_errnum] in E. rewrite Ha in E.
  change (CS_ARCH_X86 =? CS_ARCH_ARM) with false in E. destruct h', h. cbn in *. injection E as -> -> -> -> -> -> -> ->. unfold engine_ok. by cbn.
Qed.

Lemma shown_handle h x f : shown h x f → shown (handle64 (detail h)) x f.
Proof using Type. done. Qed.

Lemma disasmBuf_spec base s a n :
  ready → inv base s → initialised s = true → 0 ≤ n < 2 ^ 28 → Machine.mapped kmem a n →
  ∃ k out s', disasmBuf b avail fresh szd stack junk junk_detail junk_mci junk_ss kmem a n s = Ok (k, out, s') ∧
    initialised s' = true ∧ wants s' = wants s ∧
    match out with
    | Arr p l => k = zlen l ∧ 0 < k < 2 ^ 28 ∧ Forall2 (shown (handle64 (wants s))) l (instructions (wants s) a n) ∧
        ∃ m, cs_free (Some p) l k (heap s') = Ok m ∧ inv base (with_heap s' m)
    | Null => k = 0 ∧ inv base s' ∧ (no_memory s' ∨ instructions (wants s) a n = [])
    | Kept => False
    end.
Proof using Type.
  intros Hr [Hset Hi] Hini Hn Hmap. rewrite Hini in Hi. destruct Hi as (p & h & Eh & Hok & Ho).
  destruct (fetch_region a n) as [Ef El]; [lia|done|]. unfold disasmBuf. rewrite Ef. cbn [mbind outcome_bind].
  pose proof (region_bytes a (Z.to_nat n) (rd_bytes Hr)) as Hb. unfold instructions. set (code := Machine.window kmem a (Z.to_nat n)) in *.
  destruct (engine_call base s h p code Hr Ho Hok Hb) as [Hx Hcall]; [lia|]. rewrite Eh. cbn [fmap option_fmap option_map snd].
  destruct (cs_disasm_x86_spec b avail fresh szd stack config64 junk junk_detail junk_mci junk_ss h code 0 0 (heap s) Hx (rd_scratch Hr) Hcall)
    as (k & h' & m' & out & E & Hk & [[Hcfg Hfr] Hpost] & Htiles).
  unfold engine. rewrite E. cbn [mbind outcome_bind cs_errno].
  destruct (engine_after h h' Hcfg Hok) as (Hok' & Ed & Ep). assert (wants s = detail h) as Ew by (unfold wants; by rewrite Eh).
  set (s1 := with_heap (set_engine s (Some h')) m').
  assert (handle s1 = Some (p, h')) as Eh1 by (unfold s1; cbn; by rewrite Eh).
  assert (wants s1 = wants s) as Ew1 by (rewrite Ew; unfold wants; by rewrite Eh1).
  assert (∀ m, owns base m (blocks p h') → inv base (with_heap s1 m)) as Hinv.
  { intros m Hm. split; [exact Hset|]. unfold s1. cbn [initialised with_heap set_engine]. rewrite Hini. exists p, h'. split; [exact Eh1|done]. }
  assert (∀ l, errnum h' = CS_ERR_OK → (errnum h' = CS_ERR_MEM ∨ ∃ code' addr', tiles (x86_piece stack config64 h code 0) code 0 l code' addr' ∧
    x86_stop stack h code 0 0 k code' addr') → Forall2 (shown (handle64 (wants s))) l (sweep stack (handle64 (wants s)) (length code) code 0)) as Hsweep.
  { intros l He [He'|(code' & addr' & Ht & Hstop)]; [by rewrite He in He'|]. rewrite Ew, <- sweep_handle by apply Hok.
    apply Forall2_impl with (shown h); [|by intros ?? ?]. eapply tiles_sweep; [apply Hok|by unfold in_u|done|lia|exact Ht| |done].
    destruct Hstop as [?|[?|[? _]]]; [lia|by left|by right]. }
  destruct out as [| |q l]; cbn [listed] in *.
  1, 2: destruct Hpost as (-> & Ho' & He); pose proof (owns_cache _ _ _ _ _ _ _ Ho Ep Hfr Ho') as Hown;
    exists 0, Null, s1; (split; [by destruct (errnum h' =? CS_ERR_OK)|]); split_conj; [exact Hini|exact Ew1|done|exact (Hinv m' Hown)|];
    destruct He as [He|[He _]]; [left; by exists p, h'|right; specialize (Hsweep [] He Htiles); by inversion Hsweep].
  destruct Hpost as (He & _ & Hk0 & _ & _ & Ho'). rewrite He. change (negb (CS_ERR_OK =? CS_ERR_OK)) with false. cbv iota.
  pose proof (owns_cache _ _ _ _ _ _ _ Ho Ep Hfr Ho') as Hown. destruct (cs_free_spec _ _ _ _ _ Hown) as (m2 & E2 & H2).
  exists k, (Arr q l), s1. split; [done|]. split_conj; [exact Hini|exact Ew1|done|lia| |by apply Hsweep|exists m2; rewrite Hk; split; [exact E2|by apply Hinv]].
  rewrite Hk. destruct Htiles as [He'|(code' & addr' & Ht & _)]; [by rewrite He in He'|]. pose proof (tiles_length _ _ _ _ _ _ Ht). pose proof (zlen_nonneg code'). lia.
Qed.

(** ** Start and end *)

Lemma open_spec base m g : ready → owns base m [] → setup_ready g = true →
  ∃ err out m', cs_open b avail szh (engine_init avail szr) g CS_ARCH_X86 CS_MODE_64 m = Ok (err, out, m') ∧
    match out with
    | Opened p h => err = CS_ERR_OK ∧ engine_ok h ∧ detail h = CS_OPT_OFF ∧ owns base m' (blocks p h)
    | _ => err ≠ CS_ERR_OK ∧ owns base m' []
    end.
Proof using Type.
  intros Hr Ho Hg. unfold cs_open, cs_arch_init, cs_arch_disallowed_mode_mask. rewrite Hg. cbn [negb]. change (CS_ARCH_X86 <? CS_ARCH_MAX) with true.
  change ((0 <=? CS_ARCH_X86) && true) with true. cbv iota. destruct (has_arch b CS_ARCH_X86).
  2: { do 3 eexists. by split. }
  cbn [mbind outcome_bind]. change (ctrue (CS_MODE_64 & s32 (Z.lnot (allowed_modes CS_ARCH_X86)))) with false. cbv iota.
  destruct (cs_mem_malloc avail szh m) as [[p|] m1] eqn:E1.
  2: { do 3 eexists. split; [done|]. split; [done|]. by eapply owns_malloc_none. }
  pose proof (owns_malloc _ _ _ _ _ _ _ Ho E1) as Ho1. unfold engine_init, X86_global_init.
  destruct (cs_mem_malloc avail szr m1) as [[q|] m2] eqn:E2.
  2: { unfold cs_mem_malloc in E2. by rewrite (rd_registers Hr) in E2. }
  cbn [mbind outcome_bind]. change (ctrue CS_ERR_OK) with false. do 3 eexists. split; [done|]. cbv beta iota. split_conj; [done| |done|].
  - unfold engine_ok. cbn. split_conj; [done..|by left].
  - exact (owns_malloc _ _ _ _ _ _ _ Ho1 E2).
Qed.

Lemma init_spec base s detailed : ready → inv base s →
  ∃ r s', init b avail szh szr detailed s = Ok (r, s') ∧ inv base s' ∧ initialised s' = r ∧
    (initialised s = true → s' = s) ∧ (initialised s = false → r = true → wants s' = if detailed then CS_OPT_ON else CS_OPT_OFF).
Proof using Type.
  intros Hr [Hset Hi]. unfold init. destruct (initialised s) eqn:Hini.
  { exists true, s. split; [done|]. split_conj; [split; [done|by rewrite Hini]|done|done|done]. }
  destruct Hi as [Hh Ho].
  assert (∃ s1, set_allocator b s = Ok (true, s1) ∧ initialised s1 = false ∧ handle s1 = None ∧ heap s1 = heap s ∧
    capstoneInitialised s1 = true ∧ setup_ready (setup s1) = true) as (s1 & -> & Ei & Eh & Em & Ec & Hg).
  { unfold set_allocator. destruct (capstoneInitialised s) eqn:Ec; [by exists s; split_conj; auto|].
    cbn [cs_option]. change (CS_OPT_MEM =? CS_OPT_MEM) with true. cbn [mbind outcome_bind]. change (negb (CS_ERR_OK =? CS_ERR_OK)) with false. cbv iota.
    eexists. split; [done|]. by split_conj. }
  cbn [mbind outcome_bind negb]. rewrite Em. destruct (open_spec base (heap s) (setup s1) Hr Ho Hg) as (err & out & m' & -> & Hout). cbn [mbind outcome_bind].
  rewrite Eh, Ei, Ec. destruct out as [| |p h]; cbn [opened].
  1, 2: destruct Hout as [He Ho']; rewrite (proj2 (Z.eqb_neq err CS_ERR_OK)) by done; cbn [negb]; exists false; eexists; (split; [done|]);
    split_conj; [split; [done|by split]|done|done|done].
  destruct Hout as (-> & Hok & Hd & Ho'). change (negb (CS_ERR_OK =? CS_ERR_OK)) with false. cbv iota.
  destruct detailed; [|exists true; eexists; split; [done|]; split_conj; [split; [done|by exists p, h]|done|done|done]].
  cbn [fmap option_fmap option_map snd handle]. unfold cs_option. change (CS_OPT_DETAIL =? CS_OPT_MEM) with false.
  change (CS_OPT_DETAIL =? CS_OPT_SKIPDATA_SETUP) with false. change (CS_OPT_DETAIL =? CS_OPT_DETAIL) with true. cbv iota. cbn [mbind outcome_bind].
  exists true. eexists. split; [done|]. split_conj; [|done|done|done]. split; [done|]. cbn [initialised set_engine handle].
  exists p. eexists. split; [done|]. split; [|exact Ho']. destruct Hok as (H1 & H2 & H3 & H4 & H5 & _). unfold engine_ok. cbn. split_conj; [done..|by right].
Qed.

Lemma deinit_spec base s : inv base s → ∃ s', deinit s = Ok s' ∧ inv base s' ∧ initialised s' = false ∧ live (heap s') = base.
Proof using Type.
  intros [Hset Hi]. unfold deinit. destruct (initialised s) eqn:Hini.
  - destruct Hi as (p & h & -> & _ & Ho). cbn [cs_close]. unfold blocks in Ho.
    destruct (owns_free_opt base _ _ _ Ho) as (m1 & -> & H1). cbn [mbind outcome_bind].
    destruct (owns_free_opt base m1 _ _ H1) as (m2 & -> & H2). cbn [mbind outcome_bind].
    destruct (owns_free base m2 _ _ H2) as (m3 & -> & H3). cbn [mbind outcome_bind].
    eexists. split; [done|]. split_conj; [split; [done|by split]|done|by eapply owns_nil].
  - exists s. destruct Hi as [Hh Ho]. split; [done|]. split_conj; [split; [done|rewrite Hini; by split]|done|by eapply owns_nil].
Qed.

End region.

End LiluDisasm.
