(* ===== verification/LiluSearch.v ===== *)
(** * What Lilu's disassembler finds

    The operations of [LiluDisasm] on the sweep of a region: the size of whole
    instructions, the n-th branch, instruction or signature, and sessions of
    any operations in any order. *)

From Stdlib Require Import ZArith Lia.
From stdpp Require Import gmap.
From S2P Require Import Prelude CsMcInst CsSStream CsCore CsDisasm X86Tables X86Decoder X86Decode X86Disasm X86Mapping X86Printer X86Show X86Module X86Engine LiluMachine LiluDisasm.

Module LiluSearch.

Import X86Data Cs CsDisasm X86Disasm X86Mapping X86Module X86Engine LiluDisasm.
Open Scope c_scope.

#[local] Opaque insn_ids insns X86Tables.x86OperandSets X86Tables.modRMTable X86Tables.x86DisassemblerInstrSpecifiers X86Printer.OpInfo.

(** ** Sizes *)

Definition total (l : list Z) : Z := foldr Z.add 0 l.

(** [r] is the size of the fewest instructions that cover [min] bytes, or 0. *)
Definition covering (min : Z) (sizes : list Z) (r : Z) : Prop :=
  (r = 0 ∧ (min = 0 ∨ total sizes < min)) ∨
  ∃ k, (0 < k ≤ length sizes)%nat ∧ r = total (take k sizes) ∧ min ≤ r ∧ total (take (k - 1) sizes) < min.

Lemma total_app l k : total (l ++ k) = total l + total k.
Proof. unfold total. induction l as [|x l IH]; cbn; lia. Qed.

Lemma take_next {A} (l : list A) k x : l !! k = Some x → take (S k) l = take k l ++ [x].
Proof. intros H. by apply take_S_r. Qed.

(** ** Searches *)

(** The number [num] of the hits, counted from 1, or 0. *)
Definition nth_hit (num : Z) (hits : list Z) : Z := if num <=? 0 then 0 else default 0 (hits !! Z.to_nat (num - 1)).

(** The address a direct branch of kind [id] goes to, if details are known. *)
Definition branch_hit (d a id : Z) (f : found) : option Z :=
  if negb (d =? CS_OPT_OFF) && (f_id f =? id) then
    match f_operands f with
    | [op] => match xo_value op with VImm v => Some (u64 (v + a)) | _ => None end
    | _ => None
    end
  else None.

Definition ins_hit (a id : Z) (f : found) : option Z := if f_id f =? id then Some (u64 (f_offset f + a)) else None.

(** An entry of a signature, a signature at the front of the instructions, the
    address it stands for, and all places where it is found. *)
Definition sig_fits (g : DisasmSig) (f : found) : bool :=
  (f_id f =? ins g) &&
  (negb (ins g =? X86_INS_CALL) || negb (sub g) || match f_operands f with op :: _ => xo_type op =? X86Printer.X86_OP_IMM | [] => false end).

Fixpoint sig_prefix (sig : list DisasmSig) (F : list found) : bool :=
  match sig, F with
  | [], _ => true
  | g :: sig, f :: F => sig_fits g f && sig_prefix sig F
  | _, [] => false
  end.

Fixpoint marked (sig : list DisasmSig) (F : list found) (a : Z) : Z :=
  match sig, F with
  | g :: sig, f :: F => marked sig F (if addr g then f_offset f else a)
  | _, _ => a
  end.

Definition sig_offset (sig : list DisasmSig) (F : list found) : Z :=
  match sig, F with _ :: sig, f :: F => marked sig F (f_offset f) | _, _ => 0 end.

Fixpoint sig_hits (a : Z) (sig : list DisasmSig) (F : list found) : list Z :=
  match F with
  | [] => []
  | _ :: F' => (if sig_prefix sig F then [u64 (sig_offset sig F + a)] else []) ++ sig_hits a sig F'
  end.

(** An operand is asked for only where details are known. *)
Definition sig_ok (d : Z) (sig : list DisasmSig) : Prop :=
  d ≠ CS_OPT_OFF ∨ Forall (fun g => negb (ins g =? X86_INS_CALL) || negb (sub g) = true) sig.

Lemma nth_hit_cons num x l : nth_hit num (x :: l) = if num =? 1 then x else nth_hit (num - 1) l.
Proof.
  unfold nth_hit. destruct (Z.eqb_spec num 1) as [->|Hn]; [done|]. destruct (Z.leb_spec num 0), (Z.leb_spec (num - 1) 0); try lia.
  replace (Z.to_nat (num - 1)) with (S (Z.to_nat (num - 1 - 1))) by lia. done.
Qed.

Lemma nth_hit_low num l : num ≤ 0 → nth_hit num l = 0.
Proof. intros H. unfold nth_hit. by rewrite (proj2 (Z.leb_le num 0)). Qed.

Lemma nth_hit_nil num : nth_hit num [] = 0.
Proof. unfold nth_hit. by case_match. Qed.

Lemma sig_prefix_short sig F : (length F < length sig)%nat → sig_prefix sig F = false.
Proof.
  revert F. induction sig as [|g sig IH]; intros [|f F] H; cbn in *; try done; try lia. rewrite IH by lia. by destruct (sig_fits g f).
Qed.

Section loops.
  Context (h : cs_struct) (l : list cs_insn) (F : list found) (HF : Forall2 (shown h) l F) (Hlen : zlen l < 2 ^ 28).

Lemma entry i : 0 ≤ i < zlen l → ∃ x f, aget l i = Ok x ∧ F !! Z.to_nat i = Some f ∧ shown h x f.
Proof using HF.
  intros Hi. destruct (aget_is_Ok l i Hi) as [x Hx]. pose proof Hx as [_ Hx']%aget_Ok_inv.
  destruct (Forall2_lookup_l _ _ _ _ _ HF Hx') as (f & Hf & Hs). by exists x, f.
Qed.

Lemma size_range k : 0 ≤ total (take k (f_size <$> F)) ≤ 15 * Z.of_nat k.
Proof using HF.
  clear Hlen. revert k. induction HF as [|x f l' F' Hs Hrest IH]; intros k; [destruct k; cbn; lia|]. destruct k as [|k]; [cbn; lia|].
  destruct Hs as (_ & _ & Hs & _). cbn [fmap list_fmap take total foldr]. specialize (IH Hrest k). unfold total in IH. lia.
Qed.

Lemma size_loop_spec min n i :
  (i + n = length l)%nat → (∀ j, (j < i)%nat → total (take j (f_size <$> F)) < min) →
  ∃ k, (i ≤ k ≤ length l)%nat ∧ size_loop n l (Z.of_nat i) min (total (take i (f_size <$> F))) = Ok (total (take k (f_size <$> F))) ∧
    (k = length l ∨ min ≤ total (take k (f_size <$> F))) ∧ ∀ j, (j < k)%nat → total (take j (f_size <$> F)) < min.
Proof using HF Hlen.
  revert i. induction n as [|n IH]; intros i Hi Hless; cbn [size_loop].
  - exists i. split_conj; [lia|lia|done|left; lia|done].
  - destruct (Z.ltb_spec (total (take i (f_size <$> F))) min) as [Hlt|Hge].
    2: { exists i. split_conj; [lia|lia|done|by right|done]. }
    destruct (entry (Z.of_nat i)) as (x & f & -> & Hf & Hs); [unfold zlen; lia|]. cbn [mbind outcome_bind]. rewrite Nat2Z.id in Hf.
    assert (total (take (S i) (f_size <$> F)) = total (take i (f_size <$> F)) + i_size x) as Es.
    { rewrite (take_next _ i (f_size f)) by (by rewrite list_lookup_fmap, Hf). rewrite total_app. destruct Hs as (_ & -> & _). cbn. lia. }
    pose proof (size_range (S i)) as Hr. unfold zlen in Hlen. rewrite <- Es, wrap_small by (unfold in_u; lia).
    destruct (IH (S i)) as (k & Hk & E & Hend & Hall); [lia| |].
    { intros j Hj. destruct (decide (j = i)) as [->|]; [done|]. apply Hless. lia. }
    exists k. replace (Z.of_nat i + 1) with (Z.of_nat (S i)) by lia. split_conj; [lia|lia|done..].
Qed.

Lemma size_loop_covers min : 0 ≤ min → ∃ size, size_loop (length l) l 0 min 0 = Ok size ∧
  covering min (f_size <$> F) (if min <=? size then size else 0).
Proof using HF Hlen.
  intros Hmin. pose proof (Forall2_length _ _ _ HF) as EF.
  destruct (size_loop_spec min (length l) 0) as (k & Hk & E & Hend & Hall); [lia|lia|]. cbn [take] in E. change (total []) with 0 in E.
  exists (total (take k (f_size <$> F))). split; [exact E|]. unfold covering. rewrite length_fmap, <- EF.
  destruct (Z.leb_spec min (total (take k (f_size <$> F)))) as [Hge|Hlt].
  - destruct k as [|k]; [left; rewrite take_0 in *; change (total []) with 0 in *; split; [done|left; lia]|]. right. exists (S k). split; [lia|]. split; [done|]. split; [done|]. apply Hall. lia.
  - left. split; [done|]. right. destruct Hend as [->|?]; [|lia]. rewrite take_ge in Hlt; [done|]. rewrite length_fmap. lia.
Qed.

(** A loop whose body is always defined returns. *)
Lemma scan_safe body n i num c a :
  (∀ x f, shown h x f → ∃ r, body x = Ok r) → (i + n = length l)%nat → ∃ v, scan_loop body n l (Z.of_nat i) num c a = Ok v.
Proof using HF.
  intros Hb. revert i c a. induction n as [|n IH]; intros i c a Hi; cbn [scan_loop]; [eauto|].
  destruct (entry (Z.of_nat i)) as (x & f & -> & _ & Hs); [unfold zlen; lia|]. cbn [mbind outcome_bind]. destruct (Hb x f Hs) as [r ->]. cbn [mbind outcome_bind].
  replace (Z.of_nat i + 1) with (Z.of_nat (S i)) by lia. destruct r; repeat case_match; eauto; apply IH; lia.
Qed.

Lemma scan_none body n i num c :
  (∀ x f, shown h x f → body x = Ok Stop ∨ body x = Ok Miss) → (i + n = length l)%nat → scan_loop body n l (Z.of_nat i) num c 0 = Ok 0.
Proof using HF.
  intros Hb. revert i c. induction n as [|n IH]; intros i c Hi; cbn [scan_loop]; [done|].
  destruct (entry (Z.of_nat i)) as (x & f & -> & _ & Hs); [unfold zlen; lia|]. cbn [mbind outcome_bind].
  destruct (Hb x f Hs) as [-> | ->]; cbn [mbind outcome_bind]; [done|]. case_match; [done|].
  replace (Z.of_nat i + 1) with (Z.of_nat (S i)) by lia. apply IH. lia.
Qed.

(** It returns the hit it is asked for. *)
Lemma scan_nth body hit n i num c :
  (∀ x f, f ∈ F → shown h x f → body x = Ok (match hit f with Some a => Hit a | None => Miss end)) →
  (i + n = length l)%nat → 0 ≤ c ≤ Z.of_nat i → scan_loop body n l (Z.of_nat i) num c 0 = Ok (nth_hit (num - c) (omap hit (drop i F))).
Proof using HF Hlen.
  intros Hb. revert i c. pose proof (Forall2_length _ _ _ HF) as EF. induction n as [|n IH]; intros i c Hi Hc; cbn [scan_loop].
  - rewrite drop_ge by lia. cbn. by rewrite nth_hit_nil.
  - destruct (entry (Z.of_nat i)) as (x & f & -> & Hf & Hs); [unfold zlen; lia|]. cbn [mbind outcome_bind]. rewrite Nat2Z.id in Hf.
    rewrite (Hb x f) by (done || by eapply list_elem_of_lookup_2). cbn [mbind outcome_bind].
    rewrite (drop_S _ _ _ Hf). cbn [omap list_omap]. unfold zlen in Hlen. replace (Z.of_nat i + 1) with (Z.of_nat (S i)) by lia.
    destruct (hit f) as [a|].
    + rewrite wrap_small by (unfold in_u; lia). rewrite nth_hit_cons. destruct (Z.eqb_spec (c + 1) num) as [<-|Hne].
      * by rewrite (proj2 (Z.eqb_eq _ 1)) by lia.
      * rewrite (proj2 (Z.eqb_neq _ 1)) by lia. rewrite IH by lia. do 2 f_equal. lia.
    + destruct (Z.eqb_spec c num) as [<-|Hne]; [|by rewrite IH by lia]. by rewrite nth_hit_low by lia.
Qed.

(** The bodies of the loops. *)
Lemma scan_ins_safe a id x f : shown h x f → ∃ r, scan_ins a id x = Ok r.
Proof using Type. intros _. by eexists. Qed.

Lemma scan_ins_hit a id x f : f_internal f ∉ prefix_ids → shown h x f →
  scan_ins a id x = Ok (match ins_hit a id f with Some a => Hit a | None => Miss end).
Proof using Type.
  intros Hp (Ea & _ & _ & Hid & _). unfold scan_ins, ins_hit. rewrite Ea, (Hid Hp). by destruct (f_id f =? id).
Qed.

(** The first operand, of one that is listed. *)
Lemma first_operand (d : cs_x86) ops : zlen (x_operands d) = 8 → take (length ops) (x_operands d) = ops →
  ∃ op0, aget (x_operands d) 0 = Ok op0 ∧ match ops with op :: _ => op0 = op | [] => True end.
Proof using Type.
  intros Hl Ht. destruct (aget_is_Ok (x_operands d) 0) as [op E]; [lia|]. exists op. split; [done|]. destruct ops as [|o ops]; [done|].
  apply aget_Ok_inv in E as [_ E]. change (Z.to_nat 0) with 0%nat in E. assert (take (length (o :: ops)) (x_operands d) !! 0%nat = Some o) as H by (by rewrite Ht).
  rewrite lookup_take_lt in H by (cbn; lia). congruence.
Qed.

Lemma scan_branch_off a id x f : detail h = CS_OPT_OFF → shown h x f → scan_branch a id x = Ok Stop ∨ scan_branch a id x = Ok Miss.
Proof using Type.
  intros Hd (_ & _ & _ & _ & Hx). unfold scan_branch. rewrite Hd in Hx. change (CS_OPT_OFF =? 0) with true in Hx. cbv iota in Hx. rewrite Hx.
  destruct (i_id x =? id); auto.
Qed.

(** With details, in terms of the operands listed. *)
Lemma scan_branch_on a id x f : detail h ≠ CS_OPT_OFF → shown h x f →
  ∃ ops, (f_internal f ∉ prefix_ids → ops = f_operands f) ∧
    scan_branch a id x = Ok (if i_id x =? id then match ops with
      | [op] => match xo_value op with VImm v => Hit (u64 (v + a)) | _ => Miss end
      | _ => Miss end else Miss).
Proof using Type.
  intros Hd (_ & _ & _ & _ & Hx). unfold scan_branch. rewrite (proj2 (Z.eqb_neq (detail h) 0) Hd) in Hx.
  destruct Hx as (p & d & ops & -> & Hc & Hl & Ht & Hty & Hf). exists ops. split; [intros Hp; by apply Hf|].
  destruct (i_id x =? id); [|done]. rewrite Hc. destruct (first_operand (x86 d) ops Hl Ht) as (op0 & -> & Hop0). cbn [mbind outcome_bind].
  destruct ops as [|op [|op2 ops]]; [done| |].
  - subst op0. apply Forall_cons in Hty as [Hty _]. change (zlen [op] =? 1) with true. cbv iota. unfold X86Show.typed, imm_of in *.
    destruct (xo_value op); rewrite ?Hty; done.
  - rewrite (proj2 (Z.eqb_neq (zlen (op :: op2 :: ops)) 1)); [done|]. unfold zlen. cbn [length]. lia.
Qed.

Lemma scan_branch_safe a id x f : shown h x f → ∃ r, scan_branch a id x = Ok r.
Proof using Type.
  intros Hs. destruct (decide (detail h = CS_OPT_OFF)) as [Hd|Hd]; [destruct (scan_branch_off a id x f Hd Hs); eauto|].
  destruct (scan_branch_on a id x f Hd Hs) as (ops & _ & ->). eauto.
Qed.

Lemma scan_branch_hit a id x f : detail h ≠ CS_OPT_OFF → f_internal f ∉ prefix_ids → shown h x f →
  scan_branch a id x = Ok (match branch_hit (detail h) a id f with Some a => Hit a | None => Miss end).
Proof using Type.
  intros Hd Hp Hs. destruct (scan_branch_on a id x f Hd Hs) as (ops & Hops & ->). rewrite (Hops Hp). destruct Hs as (_ & _ & _ & Hid & _). rewrite (Hid Hp).
  unfold branch_hit. rewrite (proj2 (Z.eqb_neq _ _) Hd). cbn [negb andb]. destruct (f_id f =? id); [|done].
  destruct (f_operands f) as [|op [|op2 ops']]; [done| |done]. by destruct (xo_value op).
Qed.

(** The nth branch, whether details are known or not. *)
Lemma branch_scan a id num : Forall (fun f => f_internal f ∉ prefix_ids) F →
  scan_loop (scan_branch a id) (length l) l 0 num 0 0 = Ok (nth_hit num (omap (branch_hit (detail h) a id) F)).
Proof using HF Hlen.
  intros Hp. change 0 with (Z.of_nat 0) at 1. destruct (decide (detail h = CS_OPT_OFF)) as [Hd|Hd].
  - rewrite (scan_none (scan_branch a id) (length l) 0 num 0); [|intros x f; by apply scan_branch_off|lia].
    rewrite Hd. replace (omap _ F) with (@nil Z); [by rewrite nth_hit_nil|]. clear. induction F as [|f F' IH]; [done|]. cbn. exact IH.
  - rewrite (scan_nth _ (branch_hit (detail h) a id) (length l) 0 num 0); [by rewrite drop_0, Z.sub_0_r| |lia|lia].
    intros x f Hin Hs. apply scan_branch_hit; [done| |done]. rewrite Forall_forall in Hp. by apply Hp.
Qed.

(** One entry of a signature. *)
Lemma sig_match_safe sig g x f : sig_ok (detail h) sig → g ∈ sig → shown h x f → ∃ r, sig_match g x = Ok r.
Proof using Type.
  intros Hok Hg (_ & _ & _ & _ & Hx). unfold sig_match. destruct (i_id x =? ins g); [|eauto].
  destruct (negb (ins g =? X86_INS_CALL) || negb (sub g)) eqn:E; [eauto|].
  destruct Hok as [Hd|Hall]; [|rewrite Forall_forall in Hall; by rewrite Hall in E].
  rewrite (proj2 (Z.eqb_neq (detail h) 0) Hd) in Hx. destruct Hx as (p & d & ops & -> & _ & Hl & Ht & _).
  destruct (first_operand (x86 d) ops Hl Ht) as (op & -> & _). cbn [mbind outcome_bind]. eauto.
Qed.

Lemma sig_match_fits sig g x f : sig_ok (detail h) sig → g ∈ sig → f_internal f ∉ prefix_ids → shown h x f → sig_match g x = Ok (sig_fits g f).
Proof using Type.
  intros Hok Hg Hp (_ & _ & _ & Hid & Hx). unfold sig_match, sig_fits. rewrite (Hid Hp).
  destruct (Z.eqb_spec (f_id f) (ins g)) as [Ei|]; [|done]. destruct (negb (ins g =? X86_INS_CALL) || negb (sub g)) eqn:E; [done|].
  destruct Hok as [Hd|Hall]; [|rewrite Forall_forall in Hall; by rewrite Hall in E].
  rewrite (proj2 (Z.eqb_neq (detail h) 0) Hd) in Hx. destruct Hx as (p & d & ops & -> & _ & Hl & Ht & _ & Hf). destruct (Hf Hp) as [<- Hne].
  destruct (first_operand (x86 d) ops Hl Ht) as (op & -> & Hop). cbn [mbind outcome_bind]. destruct ops as [|o ops]; [|by subst].
  destruct Hne; [|done]. apply orb_false_iff in E as [E%negb_false_iff%Z.eqb_eq _]. congruence.
Qed.

Section signature.
  Context (sig : list DisasmSig) (Hsig : sig_ok (detail h) sig).

Lemma sig_entry j : 0 ≤ j < zlen sig → ∃ g, aget sig j = Ok g ∧ sig !! Z.to_nat j = Some g ∧ g ∈ sig.
Proof using Type.
  clear. intros Hj. destruct (aget_is_Ok sig j Hj) as [g E]. exists g. pose proof E as [_ E']%aget_Ok_inv. split_conj; [done|done|].
  by eapply list_elem_of_lookup_2.
Qed.

Lemma sig_loop_safe n i j nd : (j + n = length sig)%nat → ∃ r, sig_loop n sig l (zlen l) (Z.of_nat i) (Z.of_nat j) nd = Ok r.
Proof using HF Hsig.
  revert j nd. induction n as [|n IH]; intros j nd Hj; cbn [sig_loop]; [eauto|]. case_bool; [eauto|].
  destruct (entry (Z.of_nat i + Z.of_nat j)) as (x & f & -> & _ & Hs); [unfold zlen in *; lia|]. cbn [mbind outcome_bind].
  destruct (sig_entry (Z.of_nat j)) as (g & -> & _ & Hg); [unfold zlen; lia|]. cbn [mbind outcome_bind].
  destruct (sig_match_safe sig g x f Hsig Hg Hs) as [r ->]. cbn [mbind outcome_bind]. destruct r; [|eauto].
  replace (Z.of_nat j + 1) with (Z.of_nat (S j)) by lia. apply IH. lia.
Qed.

Lemma sig_scan_safe a n i num c nd : (i + n = length l)%nat → ∃ v, sig_scan n sig l (zlen l) a (Z.of_nat i) num c nd = Ok v.
Proof using HF Hsig.
  revert i c nd. induction n as [|n IH]; intros i c nd Hi; cbn [sig_scan]; [eauto|].
  destruct (sig_loop_safe (length sig) i 0 nd) as [[found nd'] E]; [lia|]. change (Z.of_nat 0) with 0 in E. rewrite E. cbn [mbind outcome_bind].
  case_match; [eauto|]. replace (Z.of_nat i + 1) with (Z.of_nat (S i)) by lia. apply IH. lia.
Qed.

Context (Hpre : Forall (fun f => f_internal f ∉ prefix_ids) F).

(** The inner loop after its first entry. *)
Lemma sig_loop_rest n i j nd : (S j + n = length sig)%nat →
  ∃ nd', sig_loop n sig l (zlen l) (Z.of_nat i) (Z.of_nat (S j)) nd = Ok (sig_prefix (drop (S j) sig) (drop (i + S j) F), nd') ∧
    (sig_prefix (drop (S j) sig) (drop (i + S j) F) = true → nd' = marked (drop (S j) sig) (drop (i + S j) F) nd).
Proof using HF Hsig Hpre.
  pose proof (Forall2_length _ _ _ HF) as EF. revert j nd. induction n as [|n IH]; intros j nd Hj; cbn [sig_loop].
  - rewrite (drop_ge sig) by lia. cbn. by eexists.
  - destruct (Z.ltb_spec (zlen l) (Z.of_nat i + zlen sig)) as [Hlt|Hge].
    { rewrite sig_prefix_short by (rewrite !length_drop; unfold zlen in Hlt; lia). by eexists. }
    destruct (entry (Z.of_nat i + Z.of_nat (S j))) as (x & f & -> & Hf & Hs); [unfold zlen in *; lia|]. cbn [mbind outcome_bind].
    destruct (sig_entry (Z.of_nat (S j))) as (g & -> & Eg & Hg); [unfold zlen; lia|]. cbn [mbind outcome_bind].
    replace (Z.to_nat (Z.of_nat i + Z.of_nat (S j))) with (i + S j)%nat in Hf by lia. rewrite Nat2Z.id in Eg.
    rewrite (sig_match_fits sig g x f Hsig Hg) by (done || exact (Forall_lookup_1 _ _ _ _ Hpre Hf)). cbn [mbind outcome_bind].
    rewrite (drop_S _ _ _ Eg), (drop_S _ _ _ Hf). cbn [sig_prefix marked]. destruct (sig_fits g f); cbn [andb]; [|by eexists].
    rewrite (proj2 (Z.eqb_neq (Z.of_nat (S j)) 0)), orb_false_r by lia. destruct Hs as (-> & _).
    replace (Z.of_nat (S j) + 1) with (Z.of_nat (S (S j))) by lia. replace (S (i + S j)) with (i + S (S j))%nat by lia. apply IH. lia.
Qed.

(** The inner loop: the signature is found if it is there. *)
Lemma sig_loop_finds i nd : (i < length l)%nat →
  ∃ nd', sig_loop (length sig) sig l (zlen l) (Z.of_nat i) 0 nd = Ok (sig_prefix sig (drop i F), nd') ∧
    (sig = [] → nd' = nd) ∧ (sig ≠ [] → sig_prefix sig (drop i F) = true → nd' = sig_offset sig (drop i F)).
Proof using HF Hsig Hpre.
  intros Hi. pose proof (Forall2_length _ _ _ HF) as EF. destruct (length sig) as [|n] eqn:En.
  { apply nil_length_inv in En as ->. cbn. exists nd. split_conj; [done|done|done]. }
  cbn [sig_loop]. destruct (Z.ltb_spec (zlen l) (Z.of_nat i + zlen sig)) as [Hlt|Hge].
  { rewrite sig_prefix_short by (rewrite !length_drop; unfold zlen in Hlt; lia). exists nd. by split_conj. }
  destruct (entry (Z.of_nat i + 0)) as (x & f & -> & Hf & Hs); [unfold zlen in *; lia|]. cbn [mbind outcome_bind].
  destruct (sig_entry 0) as (g & -> & Eg & Hg); [unfold zlen; lia|]. cbn [mbind outcome_bind].
  replace (Z.to_nat (Z.of_nat i + 0)) with i in Hf by lia.
  rewrite (sig_match_fits sig g x f Hsig Hg) by (done || exact (Forall_lookup_1 _ _ _ _ Hpre Hf)). cbn [mbind outcome_bind].
  assert (∃ sig', sig = g :: sig') as [sig' Es]. { destruct sig as [|g' sig']; [done|]. injection Eg as ->. by exists sig'. }
  destruct Hs as (-> & _). rewrite (drop_S _ _ _ Hf), orb_true_r. destruct (sig_loop_rest n i 0 (f_offset f)) as (nd' & E & Hnd); [lia|].
  change (0 + 1) with (Z.of_nat 1). replace (i + 1)%nat with (S i) in * by lia. rewrite E. clear E. rewrite Es in Hnd |- *. cbn [drop] in *. rewrite drop_0 in *.
  cbn [sig_prefix]. destruct (sig_fits g f); cbn [andb]; [|exists nd; by split_conj].
  exists nd'. split_conj; [done|done|]. intros _ Hp. cbn [sig_offset]. by apply Hnd.
Qed.

Lemma sig_scan_nth a n i num c nd : (i + n = length l)%nat → 0 ≤ c ≤ Z.of_nat i → (sig = [] → nd = 0) →
  sig_scan n sig l (zlen l) a (Z.of_nat i) num c nd = Ok (nth_hit (num - c) (sig_hits a sig (drop i F))).
Proof using HF Hlen Hsig Hpre.
  pose proof (Forall2_length _ _ _ HF) as EF. revert i c nd. induction n as [|n IH]; intros i c nd Hi Hc Hnd; cbn [sig_scan].
  - rewrite drop_ge by lia. cbn. by rewrite nth_hit_nil.
  - destruct (sig_loop_finds i nd) as (nd' & -> & H1 & H2); [lia|]. cbn [mbind outcome_bind].
    destruct (lookup_lt_is_Some_2 F i) as [f Hf]; [lia|]. rewrite (drop_S _ _ _ Hf) in *. cbn [sig_hits]. unfold zlen in Hlen.
    replace (Z.of_nat i + 1) with (Z.of_nat (S i)) by lia. assert (sig = [] → nd' = 0) as Hnd' by (intros; rewrite H1; auto).
    destruct (sig_prefix sig (f :: drop (S i) F)); cbn [app].
    + rewrite wrap_small by (unfold in_u; lia). rewrite nth_hit_cons. assert (nd' = sig_offset sig (f :: drop (S i) F)) as <-.
      { destruct (decide (sig = [])) as [E|E]; [|by apply H2]. rewrite (Hnd' E), E. done. }
      destruct (Z.eqb_spec (c + 1) num) as [<-|Hne].
      * by rewrite (proj2 (Z.eqb_eq _ 1)) by lia.
      * rewrite (proj2 (Z.eqb_neq _ 1)) by lia. rewrite IH by (lia || done). do 2 f_equal. lia.
    + destruct (Z.eqb_spec c num) as [<-|Hne]; [by rewrite nth_hit_low by lia|]. by rewrite IH by (lia || done).
Qed.

End signature.

End loops.

(** ** The operations *)

Lemma to_nat_zlen {A} (l : list A) : Z.to_nat (zlen l) = length l.
Proof. apply Nat2Z.id. Qed.

Section operations.
  Context (b : build) (avail : Z → Z → bool) (fresh : Z → list Z) (szh szr szd : Z) (stack : X86Decoder.insn).
  Context (junk : cs_insn) (junk_detail : cs_detail) (junk_mci : McInst.MCInst) (junk_ss : SStream.SStream).
  Context (kmem : Machine.mem).

Abbreviation world := (ready b avail fresh szr szd junk junk_mci junk_ss kmem).
Abbreviation on_engine f := (f b avail fresh szd stack junk junk_detail junk_mci junk_ss kmem).

(** A region that may be disassembled. *)
Definition region_ok (a n : Z) : Prop := 0 ≤ n < 2 ^ 28 ∧ Machine.mapped kmem a n.

(** No prefix is decoded as an instruction. *)
Definition no_prefixes (F : list found) : Prop := Forall (fun f => f_internal f ∉ prefix_ids) F.

(** An operation has returned: the object is as good as before, and unless
    memory has run out the result is right. *)
Definition returned (base : gset Z) (s s' : dis_st) (r : Z) (right : Prop) : Prop :=
  inv base s' ∧ initialised s' = initialised s ∧ wants s' = wants s ∧ ((no_memory s' ∧ r = 0) ∨ right).

Lemma search_spec loop (value : list found → Z) base s a n :
  world → inv base s → initialised s = true → region_ok a n →
  (∀ l F, Forall2 (shown (handle64 (wants s))) l F → zlen l < 2 ^ 28 → ∃ v, loop l (zlen l) = Ok v ∧ (no_prefixes F → v = value F)) → value [] = 0 →
  ∃ r s', on_engine search loop a n s = Ok (r, s') ∧
    returned base s s' r (no_prefixes (instructions stack kmem (wants s) a n) → r = value (instructions stack kmem (wants s) a n)).
Proof using Type.
  intros Hr Hi Hini [Hn Hmap] Hloop Hnil. unfold search.
  destruct (disasmBuf_spec b avail fresh szr szd stack junk junk_detail junk_mci junk_ss kmem base s a n Hr Hi Hini Hn Hmap)
    as (k & out & s' & -> & Hini' & Hw & Hout). cbn [mbind outcome_bind]. unfold returned. rewrite Hini. destruct out as [| |p l]; [done| |].
  - destruct Hout as (-> & Hi' & He). change (0 <? 0) with false. cbv iota. exists 0, s'. split; [done|]. split_conj; [done..|].
    destruct He as [He|He]; [by left|]. right. rewrite He. by intros _.
  - destruct Hout as (Ek & Hk & HF & m & Hfree & Hi'). rewrite (proj2 (Z.ltb_lt 0 k)) by lia. destruct (Hloop l _ HF) as (v & Ev & Hv); [lia|].
    rewrite Ek, Ev. cbn [mbind outcome_bind]. rewrite <- Ek, Hfree. cbn [mbind outcome_bind]. exists v. eexists. split; [done|].
    split_conj; [done|done|done|by right].
Qed.

Lemma instructionSize_spec base s a min : world → inv base s → initialised s = true → 0 ≤ min → region_ok a (min + MaxInstruction) →
  ∃ r s', on_engine instructionSize a min s = Ok (r, s') ∧
    returned base s s' r (covering min (f_size <$> instructions stack kmem (wants s) a (min + MaxInstruction)) r).
Proof using Type.
  intros Hr Hi Hini Hmin [Hn Hmap]. unfold instructionSize. rewrite wrap_small by (unfold in_u; lia).
  destruct (disasmBuf_spec b avail fresh szr szd stack junk junk_detail junk_mci junk_ss kmem base s a (min + MaxInstruction) Hr Hi Hini Hn Hmap)
    as (k & out & s' & -> & Hini' & Hw & Hout). cbn [mbind outcome_bind]. unfold returned. rewrite Hini. destruct out as [| |p l]; [done| |].
  - destruct Hout as (-> & Hi' & He). exists 0, s'. split; [done|]. split_conj; [done..|]. destruct He as [He|He]; [by left|]. right. rewrite He.
    left. split; [done|]. cbn. lia.
  - destruct Hout as (Ek & Hk & HF & m & Hfree & Hi'). destruct (size_loop_covers _ l _ HF ltac:(lia) min Hmin) as (size & E & Hcov).
    rewrite Ek, to_nat_zlen, E. cbn [mbind outcome_bind]. rewrite <- Ek, Hfree. cbn [mbind outcome_bind]. do 2 eexists. split; [done|].
    split_conj; [done|done|done|by right].
Qed.

Lemma nth_branch_spec base s a id num n : world → inv base s → initialised s = true → region_ok a n →
  ∃ r s', on_engine search (fun result n => scan_loop (scan_branch a id) (Z.to_nat n) result 0 num 0 0) a n s = Ok (r, s') ∧
    returned base s s' r (no_prefixes (instructions stack kmem (wants s) a n) →
      r = nth_hit num (omap (branch_hit (wants s) a id) (instructions stack kmem (wants s) a n))).
Proof using Type.
  intros Hr Hi Hini Hn. apply (search_spec _ (fun F => nth_hit num (omap (branch_hit (wants s) a id) F))); [done..| |apply nth_hit_nil].
  intros l F HF Hl. rewrite to_nat_zlen.
  destruct (scan_safe _ l F HF (scan_branch a id) (length l) 0 num 0 0) as [v E]; [intros x f; apply scan_branch_safe|lia|].
  exists v. split; [exact E|]. intros Hp. pose proof (branch_scan _ l F HF Hl a id num Hp) as E'. change (Z.of_nat 0) with 0 in E. rewrite E in E'. by injection E'.
Qed.

Lemma nth_ins_spec base s a id num n : world → inv base s → initialised s = true → region_ok a n →
  ∃ r s', on_engine disasmNthIns a id num n s = Ok (r, s') ∧
    returned base s s' r (no_prefixes (instructions stack kmem (wants s) a n) →
      r = nth_hit num (omap (ins_hit a id) (instructions stack kmem (wants s) a n))).
Proof using Type.
  intros Hr Hi Hini Hn. unfold disasmNthIns. apply (search_spec _ (fun F => nth_hit num (omap (ins_hit a id) F))); [done..| |apply nth_hit_nil].
  intros l F HF Hl. rewrite to_nat_zlen.
  destruct (scan_safe _ l F HF (scan_ins a id) (length l) 0 num 0 0) as [v E]; [intros x f; apply scan_ins_safe|lia|].
  exists v. split; [exact E|]. intros Hp. pose proof (scan_nth _ l F HF Hl (scan_ins a id) (ins_hit a id) (length l) 0 num 0) as E'.
  rewrite drop_0, Z.sub_0_r in E'. assert (Ok v = Ok (nth_hit num (omap (ins_hit a id) F))) as Ev; [|by injection Ev].
  rewrite <- E. apply E'; [|lia|lia]. intros x f Hin Hs. eapply scan_ins_hit; [|exact Hs]. unfold no_prefixes in Hp. rewrite Forall_forall in Hp. by apply Hp.
Qed.

Lemma sig_spec base s a sig num n : world → inv base s → initialised s = true → region_ok a n → sig_ok (wants s) sig →
  ∃ r s', on_engine disasmSig a sig num n s = Ok (r, s') ∧
    returned base s s' r (no_prefixes (instructions stack kmem (wants s) a n) → r = nth_hit num (sig_hits a sig (instructions stack kmem (wants s) a n))).
Proof using Type.
  intros Hr Hi Hini Hn Hsig. unfold disasmSig. apply (search_spec _ (fun F => nth_hit num (sig_hits a sig F))); [done..| |apply nth_hit_nil].
  intros l F HF Hl. rewrite to_nat_zlen.
  destruct (sig_scan_safe _ l F HF sig Hsig a (length l) 0 num 0 0) as [v E]; [lia|]. exists v. split; [exact E|]. intros Hp.
  pose proof (sig_scan_nth _ l F HF Hl sig Hsig Hp a (length l) 0 num 0 0) as E'. rewrite drop_0, Z.sub_0_r in E'. rewrite E' in E by (lia || done). by injection E.
Qed.

(** ** Sessions *)

(** Before [init] and after [deinit] nothing is found. *)
Lemma disasmBuf_closed base s a n : inv base s → initialised s = false → region_ok a n → on_engine disasmBuf a n s = Ok (0, Null, s).
Proof using Type.
  intros [_ Hi] Hini [Hn Hmap]. rewrite Hini in Hi. destruct Hi as [Hh _]. unfold disasmBuf.
  destruct (fetch_region kmem a n) as [-> _]; [lia|done|]. cbn [mbind outcome_bind]. destruct s; cbn in *; subst. reflexivity.
Qed.

Inductive call :=
| Init (detailed : bool)
| Deinit
| Size (a min : Z)
| NthSub (a num n : Z)
| NthJmp (a num n : Z)
| NthIns (a id num n : Z)
| Sig (a : Z) (sig : list DisasmSig) (num n : Z).

Definition perform (c : call) (s : dis_st) : outcome dis_st :=
  match c with
  | Init detailed => '(_, s) ← init b avail szh szr detailed s; Ok s
  | Deinit => deinit s
  | Size a min => '(_, s) ← on_engine instructionSize a min s; Ok s
  | NthSub a num n => '(_, s) ← on_engine disasmNthSub a num n s; Ok s
  | NthJmp a num n => '(_, s) ← on_engine disasmNthJmp a num n s; Ok s
  | NthIns a id num n => '(_, s) ← on_engine disasmNthIns a id num n s; Ok s
  | Sig a sig num n => '(_, s) ← on_engine disasmSig a sig num n s; Ok s
  end.

(** Its arguments are mapped, and signatures about operands need details. *)
Definition fits (c : call) (s : dis_st) : Prop :=
  match c with
  | Init _ | Deinit => True
  | Size a min => 0 ≤ min ∧ region_ok a (min + MaxInstruction)
  | NthSub a _ n | NthJmp a _ n | NthIns a _ _ n => region_ok a n
  | Sig a sig _ n => region_ok a n ∧ sig_ok (wants s) sig
  end.

Inductive session (s0 : dis_st) : dis_st → Prop :=
| session_start : session s0 s0
| session_call s c s' : session s0 s → fits c s → perform c s = Ok s' → session s0 s'.

Lemma search_closed loop base s a n : inv base s → initialised s = false → region_ok a n → on_engine search loop a n s = Ok (0, s).
Proof using Type. intros Hi Hini Hn. unfold search. by rewrite (disasmBuf_closed base) by done. Qed.

Lemma perform_keeps base s c : world → inv base s → fits c s → ∃ s', perform c s = Ok s' ∧ inv base s'.
Proof using Type.
  intros Hr Hi Hf. destruct c as [d| |a min|a num n|a num n|a id num n|a sig num n]; cbn [perform fits] in *.
  - destruct (init_spec b avail fresh szh szr szd junk junk_mci junk_ss kmem base s d Hr Hi) as (r & s' & -> & Hi' & _). by exists s'.
  - destruct (deinit_spec base s Hi) as (s' & -> & Hi' & _). by exists s'.
  - destruct Hf as [Hmin Hn]. destruct (initialised s) eqn:Hini.
    + destruct (instructionSize_spec base s a min Hr Hi Hini Hmin Hn) as (r & s' & -> & Hi' & _). by exists s'.
    + unfold instructionSize. rewrite wrap_small by (destruct Hn; unfold in_u; lia). rewrite (disasmBuf_closed base) by done. by exists s.
  - destruct (initialised s) eqn:Hini; unfold disasmNthSub; [|rewrite (search_closed _ base) by done; by exists s].
    destruct (nth_branch_spec base s a X86_INS_CALL num n Hr Hi Hini Hf) as (r & s' & -> & Hi' & _). by exists s'.
  - destruct (initialised s) eqn:Hini; unfold disasmNthJmp; [|rewrite (search_closed _ base) by done; by exists s].
    destruct (nth_branch_spec base s a X86_INS_JMP num n Hr Hi Hini Hf) as (r & s' & -> & Hi' & _). by exists s'.
  - destruct (initialised s) eqn:Hini; [|unfold disasmNthIns; rewrite (search_closed _ base) by done; by exists s].
    destruct (nth_ins_spec base s a id num n Hr Hi Hini Hf) as (r & s' & -> & Hi' & _). by exists s'.
  - destruct Hf as [Hn Hsig]. destruct (initialised s) eqn:Hini; [|unfold disasmSig; rewrite (search_closed _ base) by done; by exists s].
    destruct (sig_spec base s a sig num n Hr Hi Hini Hn Hsig) as (r & s' & -> & Hi' & _). by exists s'.
Qed.

Lemma session_inv base s0 s : world → inv base s0 → session s0 s → inv base s.
Proof using Type.
  intros Hr Hi. induction 1 as [|s c s' _ IH Hf E]; [done|]. destruct (perform_keeps base s c Hr IH Hf) as (s1 & E1 & H1). congruence.
Qed.





End operations.

(** ** An object and some code *)

(** [mov rax, [rsp+16]; call +16; jmp -15; ret], then padding *)
Definition demo_code : list Z := X86Decode.mov_code ++ [0xe8; 0x10; 0; 0; 0; 0xe9; 0xf1; 0xff; 0xff; 0xff; 0xc3] ++ replicate 5 0x90.
Definition demo_mem : Machine.mem := Machine.wr ∅ 0x1000 demo_code.
Definition served (_ _ : Z) : bool := true.
Definition dis0 : dis_st := mkDis false None false (initial_setup kext_build) (mkMem 0 ∅).
Definition dis1 : dis_st := match init kext_build served 200 100 true dis0 with Ok (_, s) => s | _ => dis0 end.

Abbreviation on_demo f := (f kext_build served zeroed 100 X86Decode.junk0 insn0 detail0 McInst.inst0 ss0 demo_mem).

Lemma demo_ready : ready kext_build served zeroed 100 100 insn0 McInst.inst0 ss0 demo_mem.
Proof.
  split; [done|exact zeroed_ok|done|done|exact scratch0_ok|]. apply Machine.mem_ok_wr; [by intros a x|].
  apply (bool_decide_unpack _). vm_compute. exact I.
Defined.

Lemma dis0_inv : inv ∅ dis0.
Proof. split; [done|]. split; [done|]. unfold owns. split_conj; [constructor|set_solver|set_solver|set_solver]. Defined.

Lemma dis1_inv : inv ∅ dis1 ∧ initialised dis1 = true.
Proof.
  destruct (init_spec kext_build served zeroed 200 100 100 insn0 McInst.inst0 ss0 demo_mem ∅ dis0 true demo_ready dis0_inv) as (r & s' & E & Hi & Hr & _).
  unfold dis1. rewrite E. split; [done|]. rewrite Hr. assert (match init kext_build served 200 100 true dis0 with Ok (r, _) => r | _ => false end = true) as Ht
    by (vm_compute; reflexivity). by rewrite E in Ht.
Defined.

Lemma demo_region n : 0 ≤ n ≤ 21 → region_ok demo_mem 0x1000 n.
Proof.
  intros Hn. split; [lia|]. intros x Hx. assert (zlen demo_code = 21) as Hl by reflexivity. unfold demo_mem. rewrite Machine.lookup_wr_in by lia.
  apply lookup_lt_is_Some. unfold zlen in Hl. lia.
Defined.




(** The sequence MOV, CALL with a target, where the address of the call is
    asked for *)
Definition demo_sig : list DisasmSig := [mkSig 442 false false; mkSig X86_INS_CALL true true].


End LiluSearch.
