(* ===== verification/Lzss.v ===== *)
(** * LZSS coder ([Lilu.kext/Lilu/Sources/kern_compression.cpp])

    [decompress_lzss] and [compress_lzss] with the binary search trees that
    the compressor keeps over its ring buffer: one definition per function,
    one per loop.  Arrays are lists of their declared size and every access
    is checked against it. *)

From Stdlib Require Import ZArith Lia.
From S2P Require Import Prelude.

Module Lzss.

Open Scope c_scope.

(** ** Constants and state *)

Definition RBSIZE := 4096.
Definition UPLIM := 18.
Definition THRESHOLD := 2.
Definition NIL := RBSIZE.

Record encode_state := mkEnc {
  lchild : list Z; rchild : list Z; parent : list Z;
  text_buf : list Z;
  match_position : Z; match_length : Z
}.

(** [sp->field[i] = v] and [sp->field = v] *)
Definition set_lchild (sp : encode_state) (i v : Z) : outcome encode_state :=
  a ← aset (lchild sp) i v;
  Ok (mkEnc a (rchild sp) (parent sp) (text_buf sp) (match_position sp) (match_length sp)).
Definition set_rchild (sp : encode_state) (i v : Z) : outcome encode_state :=
  a ← aset (rchild sp) i v;
  Ok (mkEnc (lchild sp) a (parent sp) (text_buf sp) (match_position sp) (match_length sp)).
Definition set_parent (sp : encode_state) (i v : Z) : outcome encode_state :=
  a ← aset (parent sp) i v;
  Ok (mkEnc (lchild sp) (rchild sp) a (text_buf sp) (match_position sp) (match_length sp)).
Definition set_text (sp : encode_state) (i v : Z) : outcome encode_state :=
  a ← aset (text_buf sp) i v;
  Ok (mkEnc (lchild sp) (rchild sp) (parent sp) a (match_position sp) (match_length sp)).
Definition set_match (sp : encode_state) (pos len : Z) : encode_state :=
  mkEnc (lchild sp) (rchild sp) (parent sp) (text_buf sp) pos len.

(** [for (i = lo; i < lo + n; i++) a[i] = v;] *)
Definition fill (a : list Z) (lo : Z) (n : nat) (v : Z) : outcome (list Z) :=
  cfor n lo (fun i a => aset a i v) a.

(** ** [decompress_lzss] *)

(** The variables of the loop.  The source is what is left of it, the
    destination what was written to it. *)
Record decode_vars := mkDec {
  d_src : list Z; d_dst : list Z;
  d_text : list Z; d_r : Z; d_flags : Z
}.

(** [if (dst < dstend) *dst++ = c; else break;
    text_buf[r++] = c; r &= (RBSIZE - 1);]: [None] is the [break]. *)
Definition put_byte (dstlen c : Z) (v : decode_vars) : outcome (option decode_vars) :=
  if zlen (d_dst v) <? dstlen then
    t ← aset (d_text v) (d_r v) c;
    Ok (Some (mkDec (d_src v) (d_dst v ++ [c]) t ((d_r v + 1) & (RBSIZE - 1)) (d_flags v)))
  else Ok None.

(** [for (k = 0; k <= j; k++) { c = text_buf[(i + k) & (RBSIZE - 1)]; ... }]
    with [n] rounds to go; its [break] leaves this loop only. *)
Fixpoint copy_match (n : nat) (dstlen i k : Z) (v : decode_vars) : outcome decode_vars :=
  match n with
  | O => Ok v
  | S n =>
      c ← aget (d_text v) ((i + k) & (RBSIZE - 1));
      o ← put_byte dstlen c v;
      match o with None => Ok v | Some v => copy_match n dstlen i (k + 1) v end
  end.

(** [if (src < srcend) c = *src++; else break;] *)
Definition next_byte (v : decode_vars) : option (Z * decode_vars) :=
  match d_src v with
  | [] => None
  | c :: rest => Some (c, mkDec rest (d_dst v) (d_text v) (d_r v) (d_flags v))
  end.
Definition set_flags (v : decode_vars) (f : Z) : decode_vars :=
  mkDec (d_src v) (d_dst v) (d_text v) (d_r v) f.

(** The unit behind its flag: a byte, or a position and a length. *)
Definition decode_unit (dstlen : Z) (v : decode_vars) : outcome (decode_vars + decode_vars) :=
  if ctrue (d_flags v & 1) then
    match next_byte v with
    | None => Ok (inr v)
    | Some (c, v) =>
        o ← put_byte dstlen c v;
        Ok (match o with None => inr v | Some v => inl v end)
    end
  else
    match next_byte v with
    | None => Ok (inr v)
    | Some (i, v) =>
        match next_byte v with
        | None => Ok (inr v)
        | Some (j, v) =>
            let i := i .| ((j & 0xF0) << 4) in
            let j := (j & 0x0F) + THRESHOLD in
            v ← copy_match (Z.to_nat (j + 1)) dstlen i 0 v;
            Ok (inl v)
        end
    end.

(** One round of [for ( ; ; )]: [inl] goes on, [inr] is a [break]. *)
Definition decode_round (dstlen : Z) (v : decode_vars) : outcome (decode_vars + decode_vars) :=
  let v := set_flags v (d_flags v >> 1) in
  if (d_flags v & 0x100) =? 0 then
    match next_byte v with
    | None => Ok (inr v)
    | Some (c, v) => decode_unit dstlen (set_flags v (c .| 0xFF00))
    end
  else decode_unit dstlen v.

Fixpoint decode_loop (fuel : nat) (dstlen : Z) (v : decode_vars) : outcome decode_vars :=
  match fuel with
  | O => NoFuel
  | S fuel =>
      s ← decode_round dstlen v;
      match s with inl v => decode_loop fuel dstlen v | inr v => Ok v end
  end.

(** [junk] is what the uninitialised array on the stack holds.  The result
    is the bytes written; their number is what the function returns. *)
Definition decompress_lzss (junk : list Z) (dstlen : Z) (src : list Z) : outcome (list Z) :=
  t ← fill junk 0 (Z.to_nat (RBSIZE - UPLIM)) 32;
  v ← decode_loop (S (length src)) dstlen (mkDec src [] t (RBSIZE - UPLIM) 0);
  Ok (d_dst v).

(** ** Trees of the compressor *)

Definition init_state : outcome encode_state :=
  t ← fill (replicate (Z.to_nat (RBSIZE + UPLIM - 1)) 0) 0 (Z.to_nat (RBSIZE - UPLIM)) 32;
  rc ← fill (replicate (Z.to_nat (RBSIZE + 257)) 0) (RBSIZE + 1) (Z.to_nat 256) NIL;
  pa ← fill (replicate (Z.to_nat (RBSIZE + 1)) 0) 0 (Z.to_nat RBSIZE) NIL;
  Ok (mkEnc (replicate (Z.to_nat (RBSIZE + 1)) 0) rc pa t 0 0).

(** [for (i = 1; i < UPLIM; i++) if ((cmp = key[i] - sp->text_buf[p + i]) != 0) break;]
    with [n] rounds to go: the last [i] and [cmp]. *)
Fixpoint compare (n : nat) (text : list Z) (r p i cmp : Z) : outcome (Z * Z) :=
  match n with
  | O => Ok (i, cmp)
  | S n =>
      a ← aget text (r + i);
      b ← aget text (p + i);
      if ctrue (a - b) then Ok (i, a - b) else compare n text r p (i + 1) (a - b)
  end.

(** [sp->rchild[p]] or [sp->lchild[p]], by the sign of [cmp] *)
Definition child (sp : encode_state) (right : bool) (p : Z) : outcome Z :=
  aget (if right then rchild sp else lchild sp) p.
Definition set_child (sp : encode_state) (right : bool) (p v : Z) : outcome encode_state :=
  if right then set_rchild sp p v else set_lchild sp p v.

(** The loop of [insert_node]: [None] after a [return], [Some p] when the
    node [p] holds the same string. *)
Fixpoint insert_loop (fuel : nat) (sp : encode_state) (r p cmp : Z) : outcome (encode_state * option Z) :=
  match fuel with
  | O => NoFuel
  | S fuel =>
      let right := 0 <=? cmp in
      c ← child sp right p;
      if c =? NIL then
        sp ← set_child sp right p r;
        sp ← set_parent sp r p;
        Ok (sp, None)
      else
        let p := c in
        m ← compare (Z.to_nat (UPLIM - 1)) (text_buf sp) r p 1 cmp;
        let '(i, cmp) := m in
        if match_length sp <? i then
          let sp := set_match sp p i in
          if UPLIM <=? i then Ok (sp, Some p) else insert_loop fuel sp r p cmp
        else insert_loop fuel sp r p cmp
  end.

(** [if (sp->rchild[sp->parent[p]] == p) sp->rchild[sp->parent[p]] = q;
     else sp->lchild[sp->parent[p]] = q;] *)
Definition relink (sp : encode_state) (p q : Z) : outcome encode_state :=
  d ← aget (parent sp) p;
  c ← aget (rchild sp) d;
  if c =? p then set_rchild sp d q else set_lchild sp d q.

(** The new node takes the place of the old one. *)
Definition replace_node (sp : encode_state) (p r : Z) : outcome encode_state :=
  d ← aget (parent sp) p;
  sp ← set_parent sp r d;
  l ← aget (lchild sp) p;
  sp ← set_lchild sp r l;
  c ← aget (rchild sp) p;
  sp ← set_rchild sp r c;
  l ← aget (lchild sp) p;
  sp ← set_parent sp l r;
  c ← aget (rchild sp) p;
  sp ← set_parent sp c r;
  sp ← relink sp p r;
  set_parent sp p NIL.

Definition insert_node (sp : encode_state) (r : Z) : outcome encode_state :=
  k ← aget (text_buf sp) r;
  let p := RBSIZE + 1 + k in
  sp ← set_lchild sp r NIL;
  sp ← set_rchild sp r NIL;
  let sp := set_match sp (match_position sp) 0 in
  x ← insert_loop (Z.to_nat (RBSIZE + 1)) sp r p 1;
  let '(sp, o) := x in
  match o with
  | None => Ok sp
  | Some p => replace_node sp p r
  end.

(** [do { q = sp->rchild[q]; } while (sp->rchild[q] != NIL);] *)
Fixpoint rightmost (fuel : nat) (sp : encode_state) (q : Z) : outcome Z :=
  match fuel with
  | O => NoFuel
  | S fuel =>
      q ← aget (rchild sp) q;
      c ← aget (rchild sp) q;
      if c =? NIL then Ok q else rightmost fuel sp q
  end.

(** The node that takes the place of one with two children. *)
Definition successor (sp : encode_state) (p : Z) : outcome (encode_state * Z) :=
  q ← aget (lchild sp) p;
  c ← aget (rchild sp) q;
  x ← (if c =? NIL then Ok (sp, q)
       else
         q ← rightmost (Z.to_nat RBSIZE) sp q;
         d ← aget (parent sp) q;
         l ← aget (lchild sp) q;
         sp ← set_rchild sp d l;
         l ← aget (lchild sp) q;
         d ← aget (parent sp) q;
         sp ← set_parent sp l d;
         l ← aget (lchild sp) p;
         sp ← set_lchild sp q l;
         l ← aget (lchild sp) p;
         sp ← set_parent sp l q;
         Ok (sp, q));
  let '(sp, q) := x in
  c ← aget (rchild sp) p;
  sp ← set_rchild sp q c;
  c ← aget (rchild sp) p;
  sp ← set_parent sp c q;
  Ok (sp, q).

Definition delete_node (sp : encode_state) (p : Z) : outcome encode_state :=
  d ← aget (parent sp) p;
  if d =? NIL then Ok sp
  else
    c ← aget (rchild sp) p;
    l ← aget (lchild sp) p;
    x ← (if c =? NIL then Ok (sp, l)
         else if l =? NIL then Ok (sp, c)
         else successor sp p);
    let '(sp, q) := x in
    d ← aget (parent sp) p;
    sp ← set_parent sp q d;
    sp ← relink sp p q;
    set_parent sp p NIL.

(** ** [compress_lzss] *)

Record encode_vars := mkVars {
  e_sp : encode_state;
  e_src : list Z; e_dst : list Z;
  code_buf : list Z; mask : Z; code_buf_ptr : Z;
  e_s : Z; e_r : Z; e_len : Z
}.

Definition with_sp (v : encode_vars) (sp : encode_state) : encode_vars :=
  mkVars sp (e_src v) (e_dst v) (code_buf v) (mask v) (code_buf_ptr v) (e_s v) (e_r v) (e_len v).
Definition with_code (v : encode_vars) (b : list Z) (m p : Z) : encode_vars :=
  mkVars (e_sp v) (e_src v) (e_dst v) b m p (e_s v) (e_r v) (e_len v).

(** [for (i = 0; i < code_buf_ptr; i++) if (dst < dstend) *dst++ = code_buf[i]; else goto finish;]
    The flag tells whether the loop came to its end. *)
Fixpoint send (n : nat) (dstlen i : Z) (buf dst : list Z) : outcome (list Z * bool) :=
  match n with
  | O => Ok (dst, true)
  | S n =>
      if zlen dst <? dstlen then
        c ← aget buf i;
        send n dstlen (i + 1) buf (dst ++ [c])
      else Ok (dst, false)
  end.

(** [for (len = 0; len < UPLIM && src < srcend; len++) sp->text_buf[r + len] = *src++;] *)
Fixpoint read_ahead (n : nat) (r len : Z) (sp : encode_state) (src : list Z)
  : outcome (encode_state * list Z * Z) :=
  match n, src with
  | S n, c :: src => sp ← set_text sp (r + len) c; read_ahead n r (len + 1) sp src
  | _, _ => Ok (sp, src, len)
  end.

(** The unit for the longest match, put into [code_buf]. *)
Definition put_unit (v : encode_vars) : outcome encode_vars :=
  let sp := e_sp v in
  let sp := if e_len v <? match_length sp then set_match sp (match_position sp) (e_len v) else sp in
  if match_length sp <=? THRESHOLD then
    let sp := set_match sp (match_position sp) 1 in
    f ← aget (code_buf v) 0;
    b ← aset (code_buf v) 0 (f .| mask v);
    c ← aget (text_buf sp) (e_r v);
    b ← aset b (code_buf_ptr v) c;
    Ok (with_code (with_sp v sp) b (mask v) (code_buf_ptr v + 1))
  else
    b ← aset (code_buf v) (code_buf_ptr v) (u8 (match_position sp));
    b ← aset b (code_buf_ptr v + 1)
      (u8 (((match_position sp >> 4) & 0xF0) .| u64 (match_length sp - (THRESHOLD + 1))));
    Ok (with_code (with_sp v sp) b (mask v) (code_buf_ptr v + 2)).

(** [if ((mask <<= 1) == 0) { ... }]: [false] is [goto finish]. *)
Definition flush (dstlen : Z) (v : encode_vars) : outcome (encode_vars * bool) :=
  let v := with_code v (code_buf v) (u8 (mask v << 1)) (code_buf_ptr v) in
  if mask v =? 0 then
    x ← send (Z.to_nat (code_buf_ptr v)) dstlen 0 (code_buf v) (e_dst v);
    let '(dst, ok) := x in
    let v := mkVars (e_sp v) (e_src v) dst (code_buf v) (mask v) (code_buf_ptr v) (e_s v) (e_r v) (e_len v) in
    if ok : bool then
      b ← aset (code_buf v) 0 0;
      Ok (with_code v b 1 1, true)
    else Ok (v, false)
  else Ok (v, true).

(** The loop that reads a byte for every byte of the match: the rounds that
    are left when the source is at its end. *)
Fixpoint slide (n : nat) (v : encode_vars) : outcome (nat * encode_vars) :=
  match n with
  | O => Ok (O, v)
  | S m =>
      match e_src v with
      | [] => Ok (n, v)
      | c :: src =>
          sp ← delete_node (e_sp v) (e_s v);
          sp ← set_text sp (e_s v) c;
          sp ← (if e_s v <? UPLIM - 1 then set_text sp (e_s v + RBSIZE) c else Ok sp);
          let s := (e_s v + 1) & (RBSIZE - 1) in
          let r := (e_r v + 1) & (RBSIZE - 1) in
          sp ← insert_node sp r;
          slide m (mkVars sp src (e_dst v) (code_buf v) (mask v) (code_buf_ptr v) s r (e_len v))
      end
  end.

(** [while (i++ < last_match_length) { ... }] *)
Fixpoint drain (n : nat) (v : encode_vars) : outcome encode_vars :=
  match n with
  | O => Ok v
  | S n =>
      sp ← delete_node (e_sp v) (e_s v);
      let s := (e_s v + 1) & (RBSIZE - 1) in
      let r := (e_r v + 1) & (RBSIZE - 1) in
      let len := e_len v - 1 in
      sp ← (if ctrue len then insert_node sp r else Ok sp);
      drain n (mkVars sp (e_src v) (e_dst v) (code_buf v) (mask v) (code_buf_ptr v) s r len)
  end.

(** [do { ... } while (len > 0);]: [false] is [goto finish]. *)
Fixpoint encode_loop (fuel : nat) (dstlen : Z) (v : encode_vars) : outcome (encode_vars * bool) :=
  match fuel with
  | O => NoFuel
  | S fuel =>
      v ← put_unit v;
      x ← flush dstlen v;
      let '(v, ok) := x in
      if ok : bool then
        y ← slide (Z.to_nat (match_length (e_sp v))) v;
        let '(n, v) := y in
        v ← drain n v;
        if 0 <? e_len v then encode_loop fuel dstlen v else Ok (v, true)
      else Ok (v, false)
  end.

(** [alloc] tells whether the state was allocated, [junk] what the
    uninitialised [code_buf] holds.  The result is the bytes written and
    whether the function returns their end (or null). *)
Definition compress_lzss (alloc : bool) (junk : list Z) (dstlen : Z) (src : list Z) : outcome (list Z * bool) :=
  if alloc then
    sp ← init_state;
    b ← aset junk 0 0;
    let r := RBSIZE - UPLIM in
    x ← read_ahead (Z.to_nat UPLIM) r 0 sp src;
    let '(sp, rest, len) := x in
    if len =? 0 then Ok ([], false)
    else
      sp ← cfor (Z.to_nat UPLIM) 1 (fun i sp => insert_node sp (r - i)) sp;
      sp ← insert_node sp r;
      y ← encode_loop (S (length src)) dstlen (mkVars sp rest [] b 1 1 0 r len);
      let '(v, ok) := y in
      if ok : bool then
        if 1 <? code_buf_ptr v then send (Z.to_nat (code_buf_ptr v)) dstlen 0 (code_buf v) (e_dst v)
        else Ok (e_dst v, true)
      else Ok (e_dst v, false)
  else Ok ([], false).

(** "abcabcabcabc" and spaces, there and back *)
Example lzss_ex :
  let text := [32; 32; 32; 32; 97; 98; 99; 97; 98; 99; 97; 98; 99; 97; 98; 99; 97; 98; 99; 97; 98; 99; 97; 98; 99] in
  ∃ c, compress_lzss true (replicate 17 7) 100 text = Ok (c, true) ∧
    c = [0x0e; 0xed; 0xf1; 97; 98; 99; 0xf2; 0xff] ∧
    decompress_lzss (replicate (Z.to_nat 4113) 7) 100 c = Ok text.
Proof. eexists. split_conj; vm_compute; reflexivity. Qed.

End Lzss.
