(* ===== verification/LzssTree.v ===== *)
(** * The search trees of the LZSS compressor

    The 256 trees of [encode_state] as a forest given by its child and
    parent functions: taking out a node with one child, putting a node in
    the place of another and adding a leaf keep it a forest.  With these
    steps [insert_node] and [delete_node] of [Lzss] end, stay inside their
    arrays and keep the forest, and the match that [insert_node] reports is
    one. *)

From Stdlib Require Import ZArith Lia.
From S2P Require Import Prelude Lzss.

Module LzssTree.

Import Lzss.
Open Scope c_scope.

(** ** Forests

    [K true] is the right child, [K false] the left one, [D] the parent.  The
    numbers below [NIL] are nodes where [D] is not [NIL]; the roots, above
    [NIL], have a right child only.  [h] is a rank that falls from parent to
    child, [col] what the nodes of one tree have in common. *)

Definition upd (f : Z → Z) (i v j : Z) : Z := if i =? j then v else f j.
Definition updK (K : bool → Z → Z) (b : bool) (i v : Z) (b' : bool) : Z → Z :=
  if Bool.eqb b b' then upd (K b') i v else K b'.

Definition node (D : Z → Z) (p : Z) : Prop := 0 ≤ p < NIL ∧ D p ≠ NIL.
Definition root (q : Z) : Prop := NIL < q ≤ NIL + 256.
Definition spot (D : Z → Z) (b : bool) (q : Z) : Prop := node D q ∨ b = true ∧ root q.

Record forest (K : bool → Z → Z) (D h col : Z → Z) : Prop := mkForest {
  f_down b q : spot D b q → K b q ≠ NIL →
    node D (K b q) ∧ D (K b q) = q ∧ h (K b q) < h q ∧ col (K b q) = col q;
  f_up p : node D p → ∃ b, spot D b (D p) ∧ K b (D p) = p;
  f_two q : node D q → K true q = K false q → K true q = NIL
}.

Lemma upd_eq f i v : upd f i v i = v.
Proof. unfold upd. by rewrite Z.eqb_refl. Qed.
Lemma upd_ne f i v j : i ≠ j → upd f i v j = f j.
Proof. intros. unfold upd. by rewrite (proj2 (Z.eqb_neq i j)). Qed.
Lemma updK_eq K b i v : updK K b i v b i = v.
Proof. unfold updK. rewrite Bool.eqb_reflx. apply upd_eq. Qed.
Lemma updK_ne K b i v b' j : b ≠ b' ∨ i ≠ j → updK K b i v b' j = K b' j.
Proof.
  intros H. unfold updK. destruct (Bool.eqb_spec b b') as [->|]; [|done].
  destruct H; [done|by apply upd_ne].
Qed.

Section forest.
  Context (K : bool → Z → Z) (D h col : Z → Z).
  Hypothesis F : forest K D h col.

Lemma spot_not_NIL b q : spot D b q → q ≠ NIL.
Proof. unfold spot, node, root. lia. Qed.

(** Where a node hangs is determined. *)
Lemma link_unique b q b' q' : spot D b q → spot D b' q' → K b q = K b' q' → K b q ≠ NIL → b = b' ∧ q = q'.
Proof.
  intros H H' E Hn. destruct (f_down _ _ _ _ F b q H Hn) as (N & Dq & _).
  destruct (f_down _ _ _ _ F b' q' H' ltac:(congruence)) as (_ & Dq' & _).
  assert (q = q') as -> by congruence. split; [|done].
  destruct H as [H|[-> ?]], H' as [H'|[-> ?]]; [|unfold node, root in *; lia..|done].
  pose proof (f_two _ _ _ _ F q' H). destruct b, b'; try done; exfalso; naive_solver congruence.
Qed.

(** The side on which a node hangs, found as the code finds it. *)
Lemma link_side p : node D p →
  let b := K true (D p) =? p in spot D b (D p) ∧ K b (D p) = p ∧ h p < h (D p) ∧ col p = col (D p).
Proof.
  intros N b. destruct (f_up _ _ _ _ F p N) as (b0 & S & E).
  assert (b0 = b) as <-.
  { subst b. destruct b0; [by rewrite E, Z.eqb_refl|]. destruct (Z.eqb_spec (K true (D p)) p) as [Et|]; [|done].
    destruct S as [S|[? _]]; [|done]. pose proof (f_two _ _ _ _ F _ S). unfold node in N. naive_solver lia. }
  split_conj; [done..| |]; rewrite <- E at 1; eapply (f_down _ _ _ _ F b0); try done; rewrite E; unfold node in N; lia.
Qed.
End forest.

Lemma node_dec D p : node D p ∨ ¬ node D p.
Proof. destruct (decide (0 ≤ p < NIL ∧ D p ≠ NIL)); auto. Qed.

(** ** Taking out a node with at most one child *)
Section splice.
  Context (K : bool → Z → Z) (D h col : Z → Z) (q c : Z) (bc : bool).
  Hypothesis F : forest K D h col.
  Hypothesis Nq : node D q.
  Hypothesis Hc : c = K bc q.
  Hypothesis Hother : K (negb bc) q = NIL.

Let d := D q.
Let b := K true d =? q.
Let K' := updK K b d c.
Let D' := upd (upd D c d) q NIL.

Lemma splice_child : c ≠ NIL → node D c ∧ D c = q ∧ h c < h q ∧ col c = col q ∧ c ≠ q.
Proof.
  intros Hn. subst c. destruct (f_down _ _ _ _ F bc q ltac:(by left) Hn) as (? & ? & ? & ?).
  split_conj; try done. intros E. rewrite E in *. lia.
Qed.

Lemma splice_D x : 0 ≤ x < NIL → D' x = if q =? x then NIL else if c =? x then d else D x.
Proof. intros. unfold D', upd. done. Qed.

Lemma splice_node x : node D' x ↔ node D x ∧ x ≠ q.
Proof.
  destruct (link_side K D h col F q Nq) as (S & _). apply spot_not_NIL in S; [|done..].
  split.
  - intros [Hx Hd]. rewrite splice_D in Hd by done. destruct (Z.eqb_spec q x); [done|].
    split; [|done]. destruct (Z.eqb_spec c x) as [<-|]; [|done]. apply splice_child. lia.
  - intros [[Hx Hd] Hne]. split; [done|]. rewrite splice_D by done. zcases; done.
Qed.

Lemma splice_forest : forest K' D' h col.
Proof.
  destruct (link_side K D h col F q Nq) as (S & E & Hh & Hcol). fold d b in S, E, Hh, Hcol.
  assert (q ≠ NIL) as Hq by (unfold node in Nq; lia).
  assert (∀ b' x, spot D' b' x ↔ spot D b' x ∧ x ≠ q) as Hspot.
  { intros b' x. unfold spot. rewrite splice_node. unfold node, root in *. naive_solver lia. }
  assert (d ≠ q) as Hdq by (intros ->; lia).
  pose proof splice_child as Hch.
  constructor.
  - intros b' x [Sx Hx]%Hspot Hn. destruct (decide (b = b' ∧ d = x)) as [[<- <-]|Hne].
    + unfold K' in *. rewrite updK_eq in *. destruct (Hch Hn) as (Nc & Dc & ? & ? & ?).
      split_conj; [by apply splice_node| |lia|congruence].
      rewrite splice_D by apply Nc. zcases; congruence.
    + assert (K' b' x = K b' x) as EK.
      { unfold K'. apply updK_ne. destruct (decide (b = b')); [right|by left]. naive_solver. }
      rewrite EK in *. destruct (f_down _ _ _ _ F b' x Sx Hn) as (N & Dx & ? & ?).
      assert (K b' x ≠ q) as Hxq.
      { intros Eq. destruct (link_unique K D h col F b d b' x) as [-> ->]; try done; try congruence. naive_solver. }
      split_conj; [by apply splice_node| |done..]. rewrite splice_D by apply N.
      zcases; [congruence| |done]. exfalso. destruct (Hch ltac:(congruence)) as (_ & ? & _). congruence.
  - intros p [Np Hp]%splice_node. rewrite splice_D by apply Np. destruct (Z.eqb_spec q p); [congruence|].
    destruct (Z.eqb_spec c p) as [<-|Hcp].
    + exists b. split; [by apply Hspot|]. unfold K'. apply updK_eq.
    + destruct (f_up _ _ _ _ F p Np) as (b' & Sp & Ep). exists b'.
      assert (D p ≠ q) as Hd.
      { intros Ed. rewrite Ed in Ep. destruct (decide (b' = bc)) as [->|]; [congruence|].
        assert (b' = negb bc) as -> by (by destruct b', bc). unfold node in Np. lia. }
      split; [by apply Hspot|]. unfold K'. rewrite updK_ne; [done|].
      destruct (decide (b = b')) as [->|]; [right|by left]. intros ->. congruence.
  - intros x [Nx Hx]%splice_node. unfold K'. intros E2.
    destruct (decide (d = x)) as [<-|Hne].
    2:{ rewrite !updK_ne in * by (by right). by apply (f_two _ _ _ _ F). }
    assert (c = K (negb b) d → c = NIL) as Hcn.
    { intros Ec. destruct (decide (c = NIL)) as [|Hn]; [done|]. exfalso.
      destruct (Hch Hn) as (_ & Dc & _). rewrite Ec in Dc, Hn.
      destruct (f_down _ _ _ _ F (negb b) d ltac:(by left) Hn) as (_ & ? & _). congruence. }
    destruct b.
    + rewrite updK_eq in *. rewrite updK_ne in E2 by (by left). apply Hcn. done.
    + rewrite updK_eq in E2. rewrite updK_ne in * by (by left). rewrite E2. apply Hcn. done.
Qed.
End splice.

(** ** Putting a new node in the place of another *)
Section replace.
  Context (K : bool → Z → Z) (D h col : Z → Z) (p r : Z).
  Hypothesis F : forest K D h col.
  Hypothesis Np : node D p.
  Hypothesis Hr : 0 ≤ r < NIL.
  Hypothesis Hfree : D r = NIL.
  Hypothesis Hcol : col r = col p.

Let d := D p.
Let b := K true d =? p.
Let K' := updK (updK (updK K false r (K false p)) true r (K true p)) b d r.
Let D' := upd (upd (upd (upd D r d) (K false p) r) (K true p) r) p NIL.
Let h' := upd h r (h p).

Lemma replace_K b' x : d ≠ r →
  K' b' x = if decide (b = b' ∧ d = x) then r else if r =? x then K b' p else K b' x.
Proof.
  intros Hd. unfold K'. destruct (decide _) as [[<- <-]|Hn]; [apply updK_eq|].
  rewrite updK_ne by (destruct (decide (b = b')); [right|left]; naive_solver).
  destruct (Z.eqb_spec r x) as [<-|].
  - destruct b'; [apply updK_eq|]. rewrite updK_ne by (by left). apply updK_eq.
  - by rewrite !updK_ne by (by right).
Qed.

Lemma replace_child b' : K b' p ≠ NIL →
  node D (K b' p) ∧ D (K b' p) = p ∧ h (K b' p) < h p ∧ col (K b' p) = col p ∧ K b' p ≠ p ∧ K b' p ≠ r.
Proof.
  intros Hn. destruct (f_down _ _ _ _ F b' p ltac:(by left) Hn) as (N & ? & ? & ?).
  split_conj; try done; intros E; rewrite E in *; [lia|by destruct N].
Qed.

(** A node other than [p] keeps its parent, except the children of [p]. *)
Lemma replace_D x : p ≠ x → r ≠ x → node D x → D' x = if D x =? p then r else D x.
Proof.
  intros Hp Hx Nx. unfold D'. rewrite upd_ne by done. unfold upd.
  destruct (Z.eqb_spec (K true p) x) as [<-|Ht].
  { destruct (replace_child true) as (_ & -> & _); [unfold node in Nx; lia|]. by rewrite Z.eqb_refl. }
  destruct (Z.eqb_spec (K false p) x) as [<-|Hf].
  { destruct (replace_child false) as (_ & -> & _); [unfold node in Nx; lia|]. by rewrite Z.eqb_refl. }
  rewrite (proj2 (Z.eqb_neq r x)) by done. destruct (Z.eqb_spec (D x) p) as [E|]; [|done].
  destruct (f_up _ _ _ _ F x Nx) as ([] & _ & E2); rewrite E in E2; congruence.
Qed.

Lemma replace_D_new : D' r = d.
Proof.
  unfold D'. assert (p ≠ r) by (intros ->; by destruct Np).
  assert (∀ b', K b' p ≠ r) by (intros b' E; apply (replace_child b'); [lia|done]).
  rewrite !upd_ne by done. apply upd_eq.
Qed.

Lemma replace_node_iff x : node D' x ↔ node D x ∧ x ≠ p ∨ x = r.
Proof.
  destruct (link_side K D h col F p Np) as (S & _). apply spot_not_NIL in S; [|done..]. fold d in S.
  destruct (decide (p = x)) as [<-|Hp].
  { unfold node at 1. unfold D'. rewrite upd_eq. naive_solver. }
  destruct (decide (r = x)) as [<-|Hx].
  { unfold node at 1. rewrite replace_D_new. naive_solver. }
  destruct (node_dec D x) as [N|N].
  - split; [naive_solver|intros _]. split; [apply N|]. rewrite replace_D by done. case_bool; [lia|apply N].
  - split; [|naive_solver]. intros [Hx' Hd]. exfalso. apply Hd. unfold D'. rewrite upd_ne by done. unfold upd.
    destruct (Z.eqb_spec (K true p) x) as [<-|]; [exfalso; apply N; eapply replace_child; intros Ek; rewrite Ek in Hx'; lia|].
    destruct (Z.eqb_spec (K false p) x) as [<-|]; [exfalso; apply N; eapply replace_child; intros Ek; rewrite Ek in Hx'; lia|].
    rewrite (proj2 (Z.eqb_neq r x)) by done. destruct (decide (D x = NIL)); [done|by destruct N].
Qed.

Lemma replace_forest : forest K' D' h' col.
Proof.
  destruct (link_side K D h col F p Np) as (S & E & Hh & Hc). fold d b in S, E, Hh, Hc.
  assert (p ≠ r) as Hpr by (intros ->; by destruct Np).
  assert (d ≠ r) as Hdr by (intros Ed; destruct S as [[? S]|[_ S]]; [congruence|unfold root in S; lia]).
  assert (d ≠ p) as Hdp by (intros ->; lia).
  assert (∀ b' x, spot D' b' x ↔ spot D b' x ∧ x ≠ p ∨ x = r) as Hspot.
  { intros b' x. unfold spot. rewrite replace_node_iff. unfold node, root in *. naive_solver lia. }
  assert (∀ x, x ≠ r → h' x = h x) as Hh' by (intros; unfold h'; by rewrite upd_ne).
  assert (h' r = h p) as Hhr by apply upd_eq.
  constructor.
  - intros b' x Sx. rewrite replace_K by done. destruct (decide (b = b' ∧ d = x)) as [[<- <-]|Hne].
    { intros _. rewrite replace_D_new, Hhr, Hh' by done. split_conj; [apply replace_node_iff; by right|done|done|congruence]. }
    destruct (Z.eqb_spec r x) as [<-|Hrx].
    + intros Hn. destruct (replace_child b' Hn) as (N & Dk & Hk & Ck & Kp & Kr).
      rewrite replace_D, Dk, Z.eqb_refl, Hhr, Hh' by done. split_conj; [apply replace_node_iff; auto|done|done|congruence].
    + intros Hn. apply Hspot in Sx as [[Sx Hx]|?]; [|congruence].
      destruct (f_down _ _ _ _ F b' x Sx Hn) as (N & Dk & Hk & Ck).
      assert (K b' x ≠ p) as Kp.
      { intros Eq. destruct (link_unique K D h col F b d b' x) as [-> ->]; try done; try congruence. naive_solver. }
      assert (K b' x ≠ r) as Kr by (intros Eq; rewrite Eq in N; by destruct N).
      rewrite replace_D, Dk, (proj2 (Z.eqb_neq x p)), !Hh' by done. split_conj; [apply replace_node_iff; auto|done..].
  - intros x Nx. destruct (decide (r = x)) as [<-|Hx].
    { exists b. rewrite replace_D_new, Hspot, replace_K, decide_True by done. naive_solver. }
    apply replace_node_iff in Nx as [[Nx Hxp]|?]; [|done]. rewrite replace_D by done.
    destruct (f_up _ _ _ _ F x Nx) as (b' & Sx & Ex). exists b'. rewrite Hspot, replace_K by done.
    destruct (Z.eqb_spec (D x) p) as [Ed|Ed].
    + rewrite decide_False by naive_solver. rewrite Z.eqb_refl. rewrite Ed in Ex. naive_solver.
    + split; [by left|]. rewrite decide_False by (intros [Eb Ex2]; rewrite <- Eb, <- Ex2 in Ex; congruence).
      destruct (Z.eqb_spec r (D x)) as [Er|]; [|done]. exfalso.
      destruct Sx as [[? Sx]|[_ Sx]]; [congruence|unfold root in Sx; lia].
  - intros x Nx. rewrite !replace_K by done.
    destruct (Z.eqb_spec r x) as [<-|Hrx].
    { rewrite !decide_False by naive_solver. by apply (f_two _ _ _ _ F). }
    apply replace_node_iff in Nx as [[Nx Hxp]|?]; [|congruence].
    assert (∀ b', K b' x ≠ r) as Hnr.
    { intros b' Eq. destruct (f_down _ _ _ _ F b' x ltac:(by left) ltac:(lia)) as ([_ N] & _). congruence. }
    destruct (decide (b = true ∧ d = x)) as [[Eb Ex]|]; [rewrite decide_False by (intros [Eb2 _]; rewrite Eb in Eb2; done); intros Eq; by destruct (Hnr false)|].
    destruct (decide (b = false ∧ d = x)) as [|]; [intros Eq; by destruct (Hnr true)|]. by apply (f_two _ _ _ _ F).
Qed.
End replace.

(** ** Adding a leaf *)
Section leaf.
  Context (K : bool → Z → Z) (D h col : Z → Z) (q r : Z) (b : bool).
  Hypothesis F : forest K D h col.
  Hypothesis Sq : spot D b q.
  Hypothesis Hnone : K b q = NIL.
  Hypothesis Hr : 0 ≤ r < NIL.
  Hypothesis Hfree : D r = NIL.
  Hypothesis Hleaf : ∀ b, K b r = NIL.
  Hypothesis Hcol : col r = col q.

Let K' := updK K b q r.
Let D' := upd D r q.
Let h' := upd h r (h q - 1).

Lemma leaf_node_iff x : node D' x ↔ node D x ∨ x = r.
Proof.
  apply spot_not_NIL in Sq. unfold node, D', upd. destruct (Z.eqb_spec r x) as [<-|]; naive_solver.
Qed.

Lemma leaf_forest : forest K' D' h' col.
Proof.
  assert (q ≠ r) as Hqr by (intros Ed; destruct Sq as [[? S]|[_ S]]; [congruence|unfold root in S; lia]).
  assert (∀ b' x, spot D' b' x ↔ spot D b' x ∨ x = r) as Hspot.
  { intros b' x. unfold spot. rewrite leaf_node_iff. naive_solver. }
  assert (∀ x, node D x → x ≠ r) as Hold by (intros x [_ N] ->; done).
  assert (∀ x, x ≠ r → h' x = h x) as Hh' by (intros; unfold h'; by rewrite upd_ne).
  constructor.
  - intros b' x Sx. destruct (decide (b = b' ∧ q = x)) as [[<- <-]|Hne].
    { unfold K'. rewrite updK_eq. intros _. rewrite (Hh' q) by done. unfold D', h'. rewrite !upd_eq.
      split_conj; [apply leaf_node_iff; by right|done|lia|done]. }
    unfold K'. rewrite updK_ne by (destruct (decide (b = b')); [right|left]; naive_solver). intros Hn.
    apply Hspot in Sx as [Sx| ->]; [|by rewrite Hleaf in Hn].
    destruct (f_down _ _ _ _ F b' x Sx Hn) as (N & Dk & Hk & Ck). pose proof (Hold _ N).
    assert (x ≠ r) by (intros ->; by rewrite Hleaf in Hn).
    rewrite !Hh' by done. unfold D'. rewrite upd_ne by done. split_conj; [apply leaf_node_iff; by left|done..].
  - intros x [Nx| ->]%leaf_node_iff.
    + destruct (f_up _ _ _ _ F x Nx) as (b' & Sx & Ex). exists b'. unfold D', K'. rewrite upd_ne by (intros ->; by apply Hold in Nx).
      split; [apply Hspot; by left|]. rewrite updK_ne; [done|]. destruct (decide (b = b')) as [->|]; [right|by left].
      intros ->. unfold node in Nx. lia.
    + exists b. unfold D', K'. rewrite upd_eq, updK_eq. split; [apply Hspot; by left|done].
  - intros x [Nx| ->]%leaf_node_iff; unfold K'.
    + destruct (decide (q = x)) as [->|]; [|rewrite !updK_ne by (by right); by apply (f_two _ _ _ _ F)].
      assert (K (negb b) x ≠ r) as Hk.
      { intros Eq. destruct (f_down _ _ _ _ F (negb b) x ltac:(by left) ltac:(lia)) as ([_ N] & _). congruence. }
      destruct b; rewrite updK_eq, updK_ne by (by left); cbn in Hk; intros; congruence.
    + rewrite !updK_ne by (by right). by rewrite !Hleaf.
Qed.
End leaf.

(** ** Forests in the arrays *)

Definition kids (sp : encode_state) (b : bool) : Z → Z := zget (if b then rchild sp else lchild sp).
Definition par (sp : encode_state) : Z → Z := zget (parent sp).
Definition text (sp : encode_state) : Z → Z := zget (text_buf sp).
(** The first byte of the strings in a tree. *)
Definition first (sp : encode_state) (x : Z) : Z := if NIL <? x then x - (NIL + 1) else text sp x.

Definition put (b : bool) (sp : encode_state) (i v : Z) : encode_state :=
  if b then mkEnc (lchild sp) (<[Z.to_nat i := v]> (rchild sp)) (parent sp) (text_buf sp) (match_position sp) (match_length sp)
  else mkEnc (<[Z.to_nat i := v]> (lchild sp)) (rchild sp) (parent sp) (text_buf sp) (match_position sp) (match_length sp).
Definition putp (sp : encode_state) (i v : Z) : encode_state :=
  mkEnc (lchild sp) (rchild sp) (<[Z.to_nat i := v]> (parent sp)) (text_buf sp) (match_position sp) (match_length sp).

Record sized (sp : encode_state) : Prop := mkSized {
  sz_l : zlen (lchild sp) = NIL + 1;
  sz_r : zlen (rchild sp) = NIL + 257;
  sz_p : zlen (parent sp) = NIL + 1
}.

(** The indices of the two child arrays. *)
Definition slots (b : bool) (i : Z) : Prop := 0 ≤ i ≤ if b then NIL + 256 else NIL.

Create HintDb lzss discriminated.

Section access.
  Context (sp : encode_state) (Hs : sized sp).

Lemma sized_put b i v : sized (put b sp i v).
Proof using Hs. destruct Hs. destruct b; constructor; cbn; by rewrite ?zlen_insert. Qed.
Lemma sized_putp i v : sized (putp sp i v).
Proof using Hs. destruct Hs. constructor; cbn; by rewrite ?zlen_insert. Qed.
Lemma sized_match p l : sized (set_match sp p l).
Proof using Hs. by destruct Hs. Qed.

Lemma get_parent j : 0 ≤ j ≤ NIL → aget (parent sp) j = Ok (par sp j).
Proof using Hs. intros. apply aget_zget. rewrite sz_p by done. lia. Qed.
Lemma get_lchild j : 0 ≤ j ≤ NIL → aget (lchild sp) j = Ok (kids sp false j).
Proof using Hs. intros. apply aget_zget. rewrite sz_l by done. lia. Qed.
Lemma get_rchild j : 0 ≤ j ≤ NIL + 256 → aget (rchild sp) j = Ok (kids sp true j).
Proof using Hs. intros. apply aget_zget. rewrite sz_r by done. lia. Qed.
Lemma get_child b j : slots b j → child sp b j = Ok (kids sp b j).
Proof using Hs. destruct b; [apply get_rchild|apply get_lchild]. Qed.

Lemma set_parent_Ok i v : 0 ≤ i ≤ NIL → set_parent sp i v = Ok (putp sp i v).
Proof using Hs. intros. unfold set_parent. rewrite aset_Ok by (rewrite sz_p by done; lia). done. Qed.
Lemma set_lchild_Ok i v : 0 ≤ i ≤ NIL → set_lchild sp i v = Ok (put false sp i v).
Proof using Hs. intros. unfold set_lchild. rewrite aset_Ok by (rewrite sz_l by done; lia). done. Qed.
Lemma set_rchild_Ok i v : 0 ≤ i ≤ NIL + 256 → set_rchild sp i v = Ok (put true sp i v).
Proof using Hs. intros. unfold set_rchild. rewrite aset_Ok by (rewrite sz_r by done; lia). done. Qed.
Lemma set_child_Ok b i v : slots b i → set_child sp b i v = Ok (put b sp i v).
Proof using Hs. destruct b; [apply set_rchild_Ok|apply set_lchild_Ok]. Qed.

Lemma par_put_child b i v j : par (put b sp i v) j = par sp j.
Proof using. by destruct b. Qed.
Lemma par_putp i v j : 0 ≤ i ≤ NIL → 0 ≤ j → par (putp sp i v) j = upd (par sp) i v j.
Proof using Hs. intros. unfold par, putp, upd. cbn. rewrite zget_insert by (rewrite ?sz_p by done; lia). done. Qed.
Lemma kids_putp i v b j : kids (putp sp i v) b j = kids sp b j.
Proof using. by destruct b. Qed.
Lemma kids_put b i v b' j : slots b i → 0 ≤ j → kids (put b sp i v) b' j = updK (kids sp) b i v b' j.
Proof using Hs.
  unfold slots. intros. unfold kids, put, updK, upd. destruct b, b'; cbn; try done;
    rewrite zget_insert by (rewrite ?sz_r, ?sz_l by done; lia); done.
Qed.
End access.

#[export] Hint Resolve sized_put sized_putp sized_match : lzss.
#[export] Hint Extern 2 (slots _ _) => unfold slots; cbn; lia : lzss.
#[export] Hint Extern 2 (_ ≤ _ ≤ _) => lia : lzss.
#[export] Hint Extern 2 (_ ≤ _) => lia : lzss.

(** Read and write the arrays of a state, with indices in range. *)
Ltac tree_step :=
  first
    [ rewrite get_parent by auto 16 with lzss
    | rewrite get_lchild by auto 16 with lzss
    | rewrite get_rchild by auto 16 with lzss
    | rewrite set_parent_Ok by auto 16 with lzss
    | rewrite set_lchild_Ok by auto 16 with lzss
    | rewrite set_rchild_Ok by auto 16 with lzss ];
  cbn [mbind outcome_bind].

(** Reads of entries that were not written. *)
Ltac reads :=
  repeat first
    [ rewrite par_put_child | rewrite kids_putp
    | rewrite par_putp by auto 16 with lzss | rewrite kids_put by auto 16 with lzss
    | rewrite upd_ne by (done || auto) | rewrite updK_ne by (right; done || auto) | rewrite updK_ne by (by left) ].

Lemma upd_cong f g i v j : f j = g j → upd f i v j = upd g i v j.
Proof. unfold upd. by intros ->. Qed.
Lemma updK_cong K K' b i v b' j : K b' j = K' b' j → updK K b i v b' j = updK K' b i v b' j.
Proof. intros E. unfold updK, upd. destruct (Bool.eqb b b'); [by rewrite E|done]. Qed.

(** The same writes on the arrays and on the functions. *)
Ltac writes :=
  repeat first
    [ rewrite par_put_child | rewrite kids_putp
    | rewrite par_putp by auto 16 with lzss; apply upd_cong
    | rewrite kids_put by auto 16 with lzss; apply updK_cong ].

Lemma updK_if K b i v b' j : updK K b i v b' j = if decide (b = b' ∧ i = j) then v else K b' j.
Proof.
  destruct (decide _) as [[-> ->]|H]; [apply updK_eq|]. apply updK_ne.
  destruct (decide (b = b')); [right|left]; naive_solver.
Qed.

(** The links after a sequence of writes, as a chain of tests. *)
Ltac expand :=
  repeat first
    [ rewrite par_put_child | rewrite kids_putp
    | rewrite par_putp by auto 16 with lzss; unfold upd at 1
    | rewrite kids_put by auto 16 with lzss; rewrite updK_if ].

Lemma forest_ext K D h col K' D' col' :
  forest K D h col →
  (∀ p, 0 ≤ p < NIL → D' p = D p) →
  (∀ b q, spot D b q → K' b q = K b q) →
  (∀ b q, spot D b q → col' q = col q) →
  forest K' D' h col'.
Proof.
  intros F HD HK Hcol.
  assert (∀ p, node D' p ↔ node D p) as HN by (intros p; unfold node; naive_solver congruence).
  assert (∀ b q, spot D' b q ↔ spot D b q) as HS by (intros b q; unfold spot; by rewrite HN).
  constructor.
  - intros b q Sq. rewrite HS in Sq. rewrite HK by done. intros Hn.
    destruct (f_down _ _ _ _ F b q Sq Hn) as (N & ? & ? & ?).
    rewrite HN, HD, (Hcol b), (Hcol b q) by (done || by left || apply N). done.
  - intros p Np. rewrite HN in Np. rewrite HD by apply Np. destruct (f_up _ _ _ _ F p Np) as (b & Sp & E).
    exists b. by rewrite HS, HK.
  - intros q Nq. rewrite HN in Nq. rewrite !HK by (by left). by apply (f_two _ _ _ _ F).
Qed.

(** A step on the arrays that is one of the three on forests. *)
Definition tree (sp : encode_state) (h : Z → Z) : Prop :=
  sized sp ∧ forest (kids sp) (par sp) h (first sp).
Lemma tree_match sp h p l : tree sp h → tree (set_match sp p l) h.
Proof. intros [Hs F]. split; [by apply sized_match|exact F]. Qed.
Abbreviation in_tree sp := (node (par sp)).

Section ops.
  Context (sp : encode_state) (h : Z → Z).
  Hypothesis T : tree sp h.

Lemma in_tree_link p : in_tree sp p → let b := kids sp true (par sp p) =? p in
  spot (par sp) b (par sp p) ∧ kids sp b (par sp p) = p ∧ 0 ≤ par sp p ≤ NIL + 256 ∧ slots b (par sp p) ∧ par sp p ≠ p.
Proof using T.
  intros N b. destruct T as [_ F]. destruct (link_side _ _ _ _ F p N) as (S & E & Hh & _). fold b in S, E.
  assert (slots b (par sp p)) as Hsl.
  { unfold slots. destruct S as [[? _]|[-> ?]]; [destruct b; lia|unfold root in *]. assert (0 ≤ NIL) by done. lia. }
  assert (0 ≤ par sp p ≤ NIL + 256) by (unfold slots in Hsl; destruct b; lia).
  split_conj; [done|done|lia|lia|done|]. intros Ep. rewrite Ep in Hh. lia.
Qed.

Lemma in_tree_kid b q : spot (par sp) b q → kids sp b q ≠ NIL →
  in_tree sp (kids sp b q) ∧ par sp (kids sp b q) = q ∧ h (kids sp b q) < h q ∧ first sp (kids sp b q) = first sp q.
Proof using T. intros S Hn. destruct T as [_ F]. destruct (f_down _ _ _ _ F b q S Hn) as (? & ? & ? & ?). done. Qed.

Lemma kid_range b q : spot (par sp) b q → 0 ≤ kids sp b q ≤ NIL.
Proof using T.
  intros S. destruct (decide (kids sp b q = NIL)) as [->|Hn]; [done|].
  destruct (in_tree_kid b q S Hn) as ([? _] & _). lia.
Qed.

(** [relink] turns the link to [p] into one to [q]. *)
Lemma relink_Ok sp' p q : sized sp' → in_tree sp p → par sp' p = par sp p →
  kids sp' true (par sp p) = kids sp true (par sp p) →
  relink sp' p q = Ok (put (kids sp true (par sp p) =? p) sp' (par sp p) q).
Proof using T.
  intros Hs N Ep Ek. destruct (in_tree_link p N) as (_ & _ & Hd & Hsl & _). unfold relink.
  destruct N as [Hp _]. tree_step. rewrite Ep. tree_step. rewrite Ek.
  destruct (kids sp true (par sp p) =? p) eqn:E; unfold slots in Hsl; by tree_step.
Qed.
End ops.

(** What the operations on the trees leave alone. *)
Definition frame (sp sp' : encode_state) : Prop :=
  text_buf sp' = text_buf sp ∧ match_position sp' = match_position sp ∧ match_length sp' = match_length sp.
Lemma frame_put b sp sp' i v : frame sp sp' → frame sp (put b sp' i v).
Proof. by destruct b. Qed.
Lemma frame_putp sp sp' i v : frame sp sp' → frame sp (putp sp' i v).
Proof. done. Qed.
Lemma frame_refl sp : frame sp sp.
Proof. done. Qed.
#[export] Hint Resolve frame_put frame_putp frame_refl : lzss.

Lemma tree_of_forest sp sp' K' D' h' :
  sized sp' → text_buf sp' = text_buf sp → forest K' D' h' (first sp) →
  (∀ p, 0 ≤ p < NIL → par sp' p = D' p) →
  (∀ b q, spot D' b q → slots b q → kids sp' b q = K' b q) →
  tree sp' h' ∧ ∀ x, in_tree sp' x ↔ node D' x.
Proof.
  intros Hs Ht F HD HK. split.
  - split; [done|]. eapply forest_ext; [exact F|done| |].
    + intros b q S. apply HK; [done|]. assert (0 ≤ NIL) by done.
      unfold slots. destruct S as [[? _]|[-> ?]]; [destruct b; lia|unfold root in *; lia].
    + intros. unfold first, text. by rewrite Ht.
  - intros x. unfold node. split; intros [? E]; (split; [done|]); [by rewrite <- HD|by rewrite HD].
Qed.

Lemma slots_0 b q : slots b q → 0 ≤ q.
Proof. unfold slots. lia. Qed.
#[export] Hint Resolve slots_0 : lzss.

Lemma replace_node_spec sp h p r :
  tree sp h → in_tree sp p → 0 ≤ r < NIL → par sp r = NIL → first sp r = first sp p →
  ∃ sp', replace_node sp p r = Ok sp' ∧ tree sp' (upd h r (h p)) ∧ frame sp sp' ∧
    ∀ x, in_tree sp' x ↔ in_tree sp x ∧ x ≠ p ∨ x = r.
Proof.
  intros T N Hr Hfree Hcol. destruct T as [Hs F] eqn:ET. clear ET.
  destruct (in_tree_link sp h T p N) as (_ & _ & Hd & Hsl & Hdp).
  assert (p ≠ r) as Hpr by (intros ->; by destruct N).
  assert (par sp p ≠ r) as Hdr.
  { intros Ed. destruct (link_side _ _ _ _ F p N) as ([[? S]|[_ S]] & _); [congruence|unfold root in S; lia]. }
  assert (∀ b, 0 ≤ kids sp b p ≤ NIL) as Hk by (intros b; apply (kid_range sp h T); by left).
  pose proof (Hk true). pose proof (Hk false).
  assert (∀ b, kids sp b p ≠ p) as Hkp.
  { intros b E. destruct N as [? N']. destruct (in_tree_kid sp h T b p) as (_ & _ & Hh & _); [by left|lia|]. rewrite E in Hh. lia. }
  pose proof (replace_forest _ _ _ _ p r F N Hr Hfree Hcol) as F'.
  pose proof (replace_node_iff _ _ _ _ p r F N Hr Hfree Hcol) as N'.
  assert (0 ≤ p < NIL) as Hp by apply N. unfold replace_node.
  repeat (tree_step; reads).
  rewrite (relink_Ok sp h T); [|auto 16 with lzss|done|by reads|by reads]. cbn [mbind outcome_bind]. tree_step.
  eexists. split; [done|].
  match goal with |- tree ?s _ ∧ _ => apply (tree_of_forest sp s) in F' as [T' Hn] end; [|auto 16 with lzss|apply frame_putp, frame_put; auto 16 with lzss|intros x Hx; by writes|intros b x _ Hx%slots_0; by writes].
  split_conj; [done|auto 16 with lzss|]. intros x. by rewrite Hn.
Qed.

Lemma leaf_spec sp h q r b :
  tree sp h → spot (par sp) b q → kids sp b q = NIL → 0 ≤ r < NIL → par sp r = NIL →
  (∀ b, kids sp b r = NIL) → first sp r = first sp q →
  ∃ sp', (sp' ← set_child sp b q r; set_parent sp' r q) = Ok sp' ∧ tree sp' (upd h r (h q - 1)) ∧ frame sp sp' ∧
    ∀ x, in_tree sp' x ↔ in_tree sp x ∨ x = r.
Proof.
  intros [Hs F] S Hk Hr Hfree Hleaf Hcol.
  pose proof (leaf_forest _ _ _ _ q r b F S Hk Hr Hfree Hleaf Hcol) as F'.
  pose proof (leaf_node_iff (kids sp) (par sp) h q r b S Hr) as N'.
  assert (slots b q) as Hsl.
  { assert (0 ≤ NIL) by done. unfold slots. destruct S as [[? _]|[-> ?]]; [destruct b; lia|unfold root in *; lia]. }
  rewrite set_child_Ok by done. cbn [mbind outcome_bind]. tree_step.
  eexists. split; [done|].
  match goal with |- tree ?s _ ∧ _ => apply (tree_of_forest sp s) in F' as [T' Hn] end;
    [|auto 16 with lzss|by destruct b|intros x Hx; by writes|intros b' x _ Hx%slots_0; by writes].
  split_conj; [done|auto 16 with lzss|]. intros x. by rewrite Hn.
Qed.

(** ** Walks down a tree are short *)

Lemma few_nodes (vis : list Z) : NoDup vis → (∀ x, x ∈ vis → 0 ≤ x < NIL) → zlen vis ≤ NIL.
Proof.
  intros Hnd Hin. assert (vis ⊆+ seqZ 0 NIL) as Hsub.
  { apply NoDup_submseteq; [done|]. intros x Hx%Hin. apply elem_of_seqZ. lia. }
  apply submseteq_length in Hsub. rewrite length_seqZ in Hsub. assert (0 ≤ NIL) by done. unfold zlen. lia.
Qed.

(** The nodes seen so far, all above the place [p] where the walk is. *)
Record walk (h : Z → Z) (vis : list Z) (p : Z) : Prop := mkWalk {
  w_nodup : NoDup vis;
  w_range x : x ∈ vis → 0 ≤ x < NIL ∧ h p ≤ h x
}.

Lemma walk_nil h p : walk h [] p.
Proof. constructor; [constructor|intros x Hx; by apply not_elem_of_nil in Hx]. Qed.

Lemma walk_down h vis p c : walk h vis p → h c < h p → 0 ≤ c < NIL → walk h (c :: vis) c.
Proof.
  intros [Hnd Hr] Hh Hc. constructor.
  - apply NoDup_cons. split; [|done]. intros [_ ?]%Hr. lia.
  - intros x [->|[? ?]%Hr]%elem_of_cons; split; lia.
Qed.

Lemma walk_end h vis p (fuel : nat) : walk h vis p → NIL < Z.of_nat fuel + zlen vis → ∃ fuel', fuel = S fuel'.
Proof.
  intros [Hnd Hr] Hf. destruct fuel as [|f]; [|by exists f]. pose proof (few_nodes vis Hnd ltac:(intros x ?; by apply Hr)). lia.
Qed.

(** ** [insert_node] *)

Lemma compare_spec n tx r p i cmp :
  0 ≤ r → 0 ≤ p → 0 ≤ i → r + i + Z.of_nat n ≤ zlen tx → p + i + Z.of_nat n ≤ zlen tx →
  ∃ j c, compare n tx r p i cmp = Ok (j, c) ∧ i ≤ j ≤ i + Z.of_nat n ∧
    ∀ k, i ≤ k < j → zget tx (r + k) = zget tx (p + k).
Proof.
  revert i cmp. induction n as [|n IH]; intros i cmp Hr Hp Hi H1 H2; cbn [compare].
  { exists i, cmp. split_conj; [done|lia|lia|]. intros; lia. }
  rewrite !aget_zget by lia. cbn [mbind outcome_bind]. case_bool.
  { exists i, (zget tx (r + i) - zget tx (p + i)). split_conj; [done|lia|lia|]. intros; lia. }
  destruct (IH (i + 1) (zget tx (r + i) - zget tx (p + i))) as (j & c & -> & Hj & Hk); [lia..|].
  exists j, c. split_conj; [done|lia|lia|]. intros k Hk'. destruct (decide (k = i)) as [->|]; [lia|apply Hk; lia].
Qed.

(** The match on record: a node of [P] that agrees with the string at [r]. *)
Definition matched (P : Z → Prop) (sp : encode_state) (r : Z) : Prop :=
  0 ≤ match_length sp ≤ UPLIM ∧
  (0 < match_length sp → P (match_position sp) ∧
    ∀ k, 0 ≤ k < match_length sp → text sp (r + k) = text sp (match_position sp + k)).

Definition text_sized (sp : encode_state) : Prop := zlen (text_buf sp) = RBSIZE + UPLIM - 1.

Lemma insert_loop_spec P fuel sp h r p cmp vis :
  tree sp h → text_sized sp → (∀ x, in_tree sp x → P x) →
  0 ≤ r < NIL → par sp r = NIL → (∀ b, kids sp b r = NIL) →
  spot (par sp) (0 <=? cmp) p → first sp r = first sp p → matched P sp r → match_length sp < UPLIM →
  walk h vis p → NIL < Z.of_nat fuel + zlen vis →
  ∃ sp' o, insert_loop fuel sp r p cmp = Ok (sp', o) ∧ text_buf sp' = text_buf sp ∧ matched P sp' r ∧
    match o with
    | None => (∃ h', tree sp' h') ∧ ∀ x, in_tree sp' x ↔ in_tree sp x ∨ x = r
    | Some p => tree sp' h ∧ par sp' = par sp ∧ in_tree sp p ∧ first sp r = first sp p
    end.
Proof.
  revert sp p cmp vis. induction fuel as [|fuel IH]; intros sp p cmp vis T Ht HP Hr Hfree Hleaf S Hf M Hml W Hfuel;
    destruct (walk_end _ _ _ _ W Hfuel) as [f ?]; simplify_eq.
  cbn [insert_loop]. set (b := 0 <=? cmp) in *.
  assert (slots b p) as Hsl.
  { assert (0 ≤ NIL) by done. unfold slots. destruct S as [[? _]|[-> ?]]; [destruct b; lia|unfold root in *; lia]. }
  rewrite get_child by (apply T || done). cbn [mbind outcome_bind]. destruct (Z.eqb_spec (kids sp b p) NIL) as [E|E].
  - destruct (leaf_spec sp h p r b T S E Hr Hfree Hleaf Hf) as (sp' & Es & T' & (Etx & Emp & Eml) & Hn).
    exists sp', None. apply bind_Ok_inv in Es as (s1 & -> & Es). cbn [mbind outcome_bind]. rewrite Es.
    split_conj; [done|done| |by eexists|done]. unfold matched, text. by rewrite Etx, Emp, Eml.
  - set (c := kids sp b p) in *. destruct (in_tree_kid sp h T b p S E) as (Nc & Dc & Hc & Hcf). fold c in Nc, Dc, Hc, Hcf.
    assert (0 ≤ c < NIL) as Hcr by apply Nc.
    destruct (compare_spec (Z.to_nat (UPLIM - 1)) (text_buf sp) r c 1 cmp) as (j & cmp' & -> & Hj & Hk);
      [lia..|rewrite Ht; unfold UPLIM, NIL in *; lia|rewrite Ht; unfold UPLIM, NIL in *; lia|].
    cbn [mbind outcome_bind].
    assert (∀ s, text_buf s = text_buf sp → match_position s = c → match_length s = j → matched P s r) as Hm.
    { intros s E1 E2 E3. unfold matched, text. rewrite E1, E2, E3. unfold UPLIM in *. split; [lia|]. intros _. split; [by apply HP|].
      intros k Hk'. destruct (decide (k = 0)) as [->|]; [|apply Hk; lia]. rewrite !Z.add_0_r.
      unfold first in Hf, Hcf. rewrite (proj2 (Z.ltb_ge NIL r)) in Hf by lia.
      rewrite (proj2 (Z.ltb_ge NIL c)) in Hcf by lia. unfold text in *. congruence. }
    assert (spot (par sp) (0 <=? cmp') c) as Sc by (by left).
    destruct (Z.ltb_spec (match_length sp) j) as [Hlt|Hge]; [destruct (Z.leb_spec UPLIM j) as [Hu|Hu]|].
    + exists (set_match sp c j), (Some c). split_conj; [done|done|by apply Hm|by apply tree_match|done|exact Nc|congruence].
    + destruct (IH (set_match sp c j) c cmp' (c :: vis) (tree_match sp h c j T)) as (sp' & o & -> & Etx & M' & Ho); try done; [by rewrite <- Hcf in Hf|by apply Hm|by apply walk_down with p|unfold zlen in *; cbn [length]; lia|].
      exists sp', o. done.
    + destruct (IH sp c cmp' (c :: vis)) as (sp' & o & -> & Etx & M' & Ho); try done; [congruence|by apply walk_down with p|unfold zlen in *; cbn [length]; lia|].
      exists sp', o. done.
Qed.

(** ** [insert_node] *)

Lemma sized_text_range sp k : text_sized sp → 0 ≤ k < NIL → aget (text_buf sp) k = Ok (text sp k).
Proof. unfold text_sized. intros Ht Hk. apply aget_zget. rewrite Ht. unfold UPLIM, NIL in *. lia. Qed.

(** Clearing the children of a slot that is no node. *)
Lemma clear_slot sp h r : tree sp h → 0 ≤ r < NIL → par sp r = NIL →
  let sp' := put true (put false sp r NIL) r NIL in
  tree sp' h ∧ ∀ b, kids sp' b r = NIL.
Proof.
  intros [Hs F] Hr Hfree sp'.
  assert (∀ b j, 0 ≤ j → kids sp' b j = if r =? j then NIL else kids sp b j) as Hk.
  { intros b j Hj. unfold sp'. rewrite kids_put by auto 16 with lzss. unfold updK at 1, upd.
    destruct b; cbn [Bool.eqb]; rewrite kids_put by auto 16 with lzss; done. }
  split.
  - split; [unfold sp'; auto 16 with lzss|]. apply (forest_ext _ _ _ _ _ _ _ F); [done| |done].
    intros b q Sq. assert (q ≠ r) by (intros ->; destruct Sq as [[_ ?]|[_ ?]]; [done|unfold root in *; lia]).
    rewrite Hk; [by rewrite (proj2 (Z.eqb_neq r q)) by congruence|].
    assert (0 ≤ NIL) by done. destruct Sq as [[? _]|[_ ?]]; unfold root in *; lia.
  - intros b. rewrite Hk by lia. by rewrite Z.eqb_refl.
Qed.

Lemma insert_node_spec P sp h r :
  tree sp h → text_sized sp → bytes_ok (text_buf sp) → (∀ x, in_tree sp x → P x) →
  0 ≤ r < NIL → par sp r = NIL →
  ∃ sp' h', insert_node sp r = Ok sp' ∧ tree sp' h' ∧ text_buf sp' = text_buf sp ∧ matched P sp' r ∧
    ∀ x, in_tree sp' x → in_tree sp x ∨ x = r.
Proof.
  intros T Ht Hb HP Hr Hfree. assert (sized sp) as Hs by apply T. unfold insert_node. rewrite sized_text_range by done. cbn [mbind outcome_bind].
  do 2 tree_step. destruct (clear_slot sp h r T Hr Hfree) as [T1 Hk1].
  set (s1 := put true (put false sp r NIL) r NIL) in *.
  assert (in_u 8 (text sp r)) as Hbyte by (by apply bytes_ok_zget). unfold in_u in Hbyte.
  destruct (insert_loop_spec P (Z.to_nat (RBSIZE + 1)) (set_match s1 (match_position s1) 0) h r
    (RBSIZE + 1 + text sp r) 1 []) as (sp' & o & -> & Etx & M & Ho); try done.
  { by apply tree_match. }
  { right. split; [done|]. unfold root, NIL. lia. }
  { unfold first. rewrite (proj2 (Z.ltb_ge NIL r)) by lia. unfold NIL at 1. rewrite (proj2 (Z.ltb_lt RBSIZE _)) by lia.
    change (text (set_match s1 (match_position s1) 0) r) with (text sp r). unfold NIL. lia. }
  { apply walk_nil. }
  cbn [mbind outcome_bind]. destruct o as [p|].
  - destruct Ho as (T' & Ep & Np & Hf). destruct (replace_node_spec sp' h p r) as (sp2 & -> & T2 & (Etx2 & Emp & Eml) & Hn).
    { done. } { by rewrite Ep. } { done. } { by rewrite Ep. }
    { unfold first, text in *. by rewrite Etx. }
    eexists sp2, _. split_conj; [done|exact T2|by rewrite Etx2, Etx| |].
    { unfold matched, text. rewrite Etx2, Emp, Eml. exact M. }
    intros x Hx%Hn. rewrite Ep in Hx. change (in_tree sp x ∧ x ≠ p ∨ x = r) in Hx. naive_solver.
  - destruct Ho as ((h' & T') & Hn). exists sp', h'. split_conj; [done..|]. intros x Hx%Hn. exact Hx.
Qed.

(** ** [delete_node] *)

(** The last steps of [delete_node]: [q] gets the parent of [p]. *)
Definition unlink (sp : encode_state) (p q : Z) : outcome encode_state :=
  d ← aget (parent sp) p;
  sp ← set_parent sp q d;
  sp ← relink sp p q;
  set_parent sp p NIL.

Lemma unlink_Ok sp h sp' p q : tree sp h → sized sp' → in_tree sp p → 0 ≤ q ≤ NIL → q ≠ p →
  par sp' p = par sp p → kids sp' true (par sp p) = kids sp true (par sp p) →
  unlink sp' p q = Ok (putp (put (kids sp true (par sp p) =? p) (putp sp' q (par sp p)) (par sp p) q) p NIL).
Proof.
  intros T Hs N Hq Hqp Ep Ek. unfold unlink. assert (0 ≤ p < NIL) as Hp by apply N.
  tree_step. rewrite Ep. tree_step. rewrite (relink_Ok sp h T); [|auto 16 with lzss|done|reads; done|reads; done].
  cbn [mbind outcome_bind]. by tree_step.
Qed.

(** A node with at most one child. *)
Lemma unlink_single sp h p bc : tree sp h → in_tree sp p → kids sp (negb bc) p = NIL →
  ∃ sp', unlink sp p (kids sp bc p) = Ok sp' ∧ tree sp' h ∧ frame sp sp' ∧ ∀ x, in_tree sp' x ↔ in_tree sp x ∧ x ≠ p.
Proof.
  intros T N Ho. assert (T2 := T). destruct T2 as [Hs F]. set (c := kids sp bc p).
  assert (0 ≤ c ≤ NIL) as Hc by (apply (kid_range sp h T); by left).
  assert (0 ≤ p < NIL) as Hp by apply N.
  assert (c ≠ p) as Hcp.
  { intros E. destruct (in_tree_kid sp h T bc p) as (_ & _ & Hh & _); [by left|fold c; lia|]. fold c in Hh. rewrite E in Hh. lia. }
  destruct (in_tree_link sp h T p N) as (_ & _ & Hd & Hsl & Hdp).
  rewrite (unlink_Ok sp h) by done. eexists. split; [done|].
  pose proof (splice_forest _ _ _ _ p c bc F N eq_refl Ho) as F'.
  pose proof (splice_node _ _ _ _ p c bc F N eq_refl) as N'.
  match goal with |- tree ?s _ ∧ _ => apply (tree_of_forest sp s) in F' as [T' Hn] end;
    [|auto 16 with lzss|apply frame_putp, frame_put; auto 16 with lzss|intros x Hx; by writes|intros b' x _ Hx%slots_0; by writes].
  split_conj; [done|auto 16 with lzss|]. intros x. rewrite Hn. apply N'.
Qed.

(** The walk to the right ends in a node without a right child. *)
Lemma rightmost_spec fuel sp h q vis : tree sp h → in_tree sp q → kids sp true q ≠ NIL →
  walk h vis q → NIL < Z.of_nat fuel + zlen vis →
  ∃ q', rightmost fuel sp q = Ok q' ∧ in_tree sp q' ∧ kids sp true q' = NIL ∧ h q' < h q ∧
    kids sp true (par sp q') = q' ∧ h (par sp q') ≤ h q ∧ first sp q' = first sp q.
Proof.
  intros T. assert (sized sp) as Hs by apply T. assert (0 ≤ NIL) as HN by done.
  revert q vis. induction fuel as [|fuel IH]; intros q vis N Hk W Hf;
    destruct (walk_end _ _ _ _ W Hf) as [f ?]; simplify_eq. cbn [rightmost].
  assert (0 ≤ q < NIL) as Hq by apply N. tree_step.
  destruct (in_tree_kid sp h T true q) as (Nc & Dc & Hc & Hcf); [by left|done|]. set (c := kids sp true q) in *.
  assert (0 ≤ c < NIL) as Hcr by apply Nc. tree_step. destruct (Z.eqb_spec (kids sp true c) NIL) as [E|E].
  - exists c. rewrite Dc. split_conj; [done..|lia|done].
  - destruct (IH c (c :: vis) Nc E) as (q' & -> & ? & ? & ? & ? & ? & ?); [by apply walk_down with q|unfold zlen in *; cbn [length]; lia|].
    exists q'. split_conj; try done; lia || congruence.
Qed.

(** A node with two children: [q] is taken out and put in the place of [p]. *)
Section promote.
  Context (sp : encode_state) (h : Z → Z) (p q : Z).
  Hypothesis T : tree sp h.
  Hypothesis Np : in_tree sp p.
  Hypothesis Nq : in_tree sp q.
  Hypothesis Hq : kids sp true q = NIL.
  Hypothesis Hlt : h q < h p.
  Hypothesis Hfirst : first sp q = first sp p.

Let K := kids sp.
Let D := par sp.
Let c := K false q.
Let b0 := K true (D q) =? q.
Let K1 := updK K b0 (D q) c.
Let D1 := upd (upd D c (D q)) q NIL.

Lemma promote_facts : q ≠ p ∧ c ≠ p ∧ c ≠ q ∧ D p ≠ p ∧ D p ≠ q ∧ D q ≠ q ∧ h p < h (D p) ∧ 0 ≤ c ≤ NIL ∧
  slots (K true (D p) =? p) (D p).
Proof.
  destruct (in_tree_link sp h T p Np) as (_ & _ & Hd & Hsl & Hdp). assert (T2 := T). destruct T2 as [Hs F].
  destruct (link_side _ _ _ _ F p Np) as (_ & _ & Hh & _). destruct (link_side _ _ _ _ F q Nq) as (_ & _ & Hh2 & _).
  assert (∀ x, x = p ∨ x = q → c ≠ x) as Hc.
  { intros x Hx E. destruct (in_tree_kid sp h T false q) as (_ & _ & Hk & _); [by left| |].
    - unfold c, K in E. rewrite E. destruct Hx as [->| ->]; [destruct Np|destruct Nq]; lia.
    - unfold c, K in E. rewrite E in Hk. destruct Hx as [->| ->]; lia. }
  assert (0 ≤ c ≤ NIL) by (apply (kid_range sp h T); by left).
  assert (p ≠ q) by (intros ->; lia).
  split_conj; try done; try (apply Hc; auto); try lia; intros E; unfold D in E; [rewrite E in Hh; lia|rewrite E in Hh2; lia].
Qed.

Lemma promote_forest sp' :
  sized sp' → text_buf sp' = text_buf sp →
  let l := K1 false p in let r := K1 true p in
  (∀ x, 0 ≤ x < NIL → par sp' x =
     if x =? p then NIL else if x =? r then q else if x =? l then q else if x =? q then D p
     else if x =? c then D q else D x) →
  (∀ b x, x ≠ p → slots b x → kids sp' b x =
     if decide ((K1 true (D p) =? p) = b ∧ D p = x) then q
     else if x =? q then (if b then r else l) else K1 b x) →
  tree sp' (upd h q (h p)) ∧ ∀ x, in_tree sp' x ↔ in_tree sp x ∧ x ≠ p.
Proof.
  intros Hs' Ht l r HD HK. destruct promote_facts as (Hqp & Hcp & Hcq & Hdp & Hdq & Hqq & _).
  assert (T2 := T). destruct T2 as [Hs F].
  pose proof (splice_forest _ _ _ _ q c false F Nq eq_refl Hq) as F1.
  pose proof (splice_node _ _ _ _ q c false F Nq eq_refl) as N1.
  fold K D b0 K1 D1 in F1, N1.
  assert (D1 p = D p) as Ed by (unfold D1; by rewrite !upd_ne by congruence).
  assert (node D1 p) as Np1 by (by apply N1).
  assert (D1 q = NIL) as Dq by apply upd_eq.
  assert (0 ≤ q < NIL) as Hq' by apply Nq.
  pose proof (replace_forest _ _ _ _ p q F1 Np1 Hq' Dq Hfirst) as F2.
  pose proof (replace_node_iff _ _ _ _ p q F1 Np1 Hq' Dq Hfirst) as N2.
  apply (tree_of_forest sp sp') in F2 as [T' Hn]; [|done|done| |].
  - split; [done|]. intros x. rewrite Hn, N2, N1.
    split; [intros [[[? ?] ?]| ->]; done|intros [? ?]; destruct (decide (x = q)); [by right|by left]].
  - intros x Hx. rewrite HD, Ed by done. unfold D1, upd. rewrite !(Z.eqb_sym x). fold l r. by destruct (q =? x).
  - intros b x Sx Hsl. rewrite HK; [|intros ->|done].
    + rewrite (replace_K K1 D1 h p q) by congruence. rewrite Ed, (Z.eqb_sym x). unfold l, r. by destruct b.
    + destruct Sx as [[[_ ?]| ?]%N2|[_ Sx]]; [done..|]. unfold root in Sx. destruct Np. lia.
Qed.
End promote.

Section two_children.
  Context (sp : encode_state) (h : Z → Z) (p : Z).
  Hypothesis T : tree sp h.
  Hypothesis Np : in_tree sp p.
Let l := kids sp false p.
Let r := kids sp true p.
  Hypothesis Hl : l ≠ NIL.
  Hypothesis Hr : r ≠ NIL.

Lemma two_facts : in_tree sp l ∧ in_tree sp r ∧ par sp l = p ∧ par sp r = p ∧ h l < h p ∧ h r < h p ∧
  first sp l = first sp p ∧ l ≠ r ∧ l ≠ p ∧ r ≠ p ∧ 0 ≤ l < NIL ∧ 0 ≤ r < NIL ∧ 0 ≤ p < NIL.
Proof.
  destruct (in_tree_kid sp h T false p ltac:(by left) Hl) as (Nl & Dl & ? & ?).
  destruct (in_tree_kid sp h T true p ltac:(by left) Hr) as (Nr & Dr & ? & ?).
  assert (l ≠ r) as Hlr.
  { intros E. destruct T as [_ F]. apply Hr. apply (f_two _ _ _ _ F p Np). by symmetry. }
  assert (l ≠ p) by (intros E; unfold l in E; rewrite E in *; lia).
  assert (r ≠ p) by (intros E; unfold r in E; rewrite E in *; lia).
  split_conj; try done; (apply Nl || apply Nr || apply Np).
Qed.

Definition deleted (q : Z) : Prop :=
  ∃ sp1 sp' h', successor sp p = Ok (sp1, q) ∧ unlink sp1 p q = Ok sp' ∧ tree sp' h' ∧ frame sp sp' ∧
    ∀ x, in_tree sp' x ↔ in_tree sp x ∧ x ≠ p.

(** The left child has no right child. *)
Lemma delete_near : kids sp true l = NIL → deleted l.
Proof.
  intros Hq. destruct two_facts as (Nl & Nr & Dl & Dr & Hhl & Hhr & Hfl & Hlr & Hlp & Hrp & Rl & Rr & Rp).
  assert (sized sp) as Hs by apply T.
  destruct (promote_facts sp h p l T Np Nl Hhl Hfl) as (_ & Hcp & Hcq & Hdp & Hdq & _ & _ & Hc & Hsl).
  destruct (in_tree_link sp h T p Np) as (_ & _ & Hd & _).
  pose proof (promote_forest sp h p l T Np Nl Hq Hhl Hfl) as Hfin.
  assert (r =? l = false) as Elr by (apply Z.eqb_neq; congruence).
  assert (∀ x, kids sp false l = x → x < NIL → par sp x = l) as Hcl.
  { intros x <- E. apply (in_tree_kid sp h T false l); [by left|lia]. }
  unfold deleted, successor. tree_step. fold l. tree_step. rewrite Hq, Z.eqb_refl. cbn [mbind outcome_bind].
  tree_step. fold r. tree_step. reads. tree_step. reads. fold r. tree_step.
  eexists _, _, (upd h l (h p)). split; [done|]. rewrite (unlink_Ok sp h); [|done|auto 16 with lzss|done|lia|done|reads; done|reads; done].
  split; [done|].
  match goal with |- tree ?s _ ∧ _ => destruct (Hfin s) as [T' Hn] end.
  { auto 16 with lzss. } { apply frame_putp, frame_put; auto 16 with lzss. }
  { intros x Hx. rewrite Dl. fold l r. rewrite Elr, updK_eq, updK_ne by (by left). fold r. expand. rewrite !(Z.eqb_sym x).
    zcases; try congruence. apply Hcl; [done|lia]. }
  { intros b x Hx Hx2%slots_0. rewrite Dl. fold l r. rewrite Elr, updK_eq, !updK_ne by (by left). expand.
    destruct (decide (_ ∧ par sp p = x)); [done|]. rewrite updK_ne by (right; congruence).
    destruct (Z.eqb_spec x l) as [->|]; [|by rewrite decide_False by (intros [_ ?]; congruence)].
    destruct b; [by rewrite decide_True|by rewrite decide_False by (intros [? _]; congruence)]. }
  split_conj; [done|auto 16 with lzss|done].
Qed.

(** The left child has a right child: the successor is further down. *)
Lemma delete_far : kids sp true l ≠ NIL → ∃ q, deleted q.
Proof.
  intros Hn. destruct two_facts as (Nl & Nr & Dl & Dr & Hhl & Hhr & Hfl & Hlr & Hlp & Hrp & Rl & Rr & Rp).
  assert (sized sp) as Hs by apply T.
  destruct (rightmost_spec (Z.to_nat RBSIZE) sp h l [l] T Nl Hn) as (q & Eq & Nq & Hq & Hql & Hkq & Hdl & Hfq).
  { apply walk_down with p; [apply walk_nil|done|done]. } { done. }
  assert (h q < h p) as Hqp by lia. assert (first sp q = first sp p) as Hf by congruence.
  destruct (promote_facts sp h p q T Np Nq Hqp Hf) as (Hpq & Hcp & Hcq & Hdp & Hdq & Hqq & Hhd & Hc & Hsl).
  destruct (in_tree_link sp h T p Np) as (_ & _ & Hd & _).
  destruct (in_tree_link sp h T q Nq) as (_ & _ & Hd2 & Hsl2 & _).
  pose proof (promote_forest sp h p q T Np Nq Hq Hqp Hf) as Hfin.
  rewrite Hkq, Z.eqb_refl in *. set (c := kids sp false q) in *. set (d := par sp q) in *.
  assert (d ≠ p) as Hdp2 by (intros E; rewrite E in Hdl; lia).
  assert (d ≠ par sp p) as Hdd by (intros E; rewrite E in Hdl; lia).
  assert (q ≠ l) as Hne by (intros ->; lia). assert (q ≠ r) as Hnr by (intros E; apply Hdp2; unfold d; by rewrite E).
  assert (0 ≤ q < NIL) as Rq by apply Nq.
  assert (∀ x, c = x → x < NIL → par sp x = q) as Hcl.
  { intros x <- E. apply (in_tree_kid sp h T false q); [by left|fold c; lia]. }
  exists q. unfold deleted, successor. tree_step. fold l. tree_step. rewrite (proj2 (Z.eqb_neq _ NIL) Hn).
  rewrite Eq. cbn [mbind outcome_bind]. repeat (tree_step; reads; fold l r c d).
  eexists _, _, (upd h q (h p)). split; [done|]. rewrite (unlink_Ok sp h); [|done|auto 16 with lzss|done|lia|done|reads; done|reads; done].
  split; [done|].
  match goal with |- tree ?s _ ∧ _ => destruct (Hfin s) as [T' Hin] end.
  { auto 16 with lzss. } { apply frame_putp, frame_put; auto 16 with lzss. }
  { intros x Hx. rewrite (updK_ne _ _ _ _ false p), (updK_ne _ _ _ _ true p) by auto. fold l r. expand. rewrite !(Z.eqb_sym x).
    zcases; congruence. }
  { intros b x Hx Hx2%slots_0. rewrite (updK_ne _ _ _ _ false p), !(updK_ne _ _ _ _ true) by auto. fold l r. expand. rewrite ?updK_if.
    destruct (decide (_ ∧ par sp p = x)); [done|].
    destruct (Z.eqb_spec x q) as [->|]; destruct b; repeat first [rewrite decide_True by done | rewrite decide_False by (intros [? ?]; congruence)]; done. }
  split_conj; [done|auto 16 with lzss|done].
Qed.
End two_children.

Lemma delete_node_spec sp h p : tree sp h → 0 ≤ p < NIL →
  ∃ sp' h', delete_node sp p = Ok sp' ∧ tree sp' h' ∧ frame sp sp' ∧ ∀ x, in_tree sp' x ↔ in_tree sp x ∧ x ≠ p.
Proof.
  intros T Hp. assert (sized sp) as Hs by apply T. unfold delete_node. tree_step.
  destruct (Z.eqb_spec (par sp p) NIL) as [E|E].
  { exists sp, h. split_conj; [done..|]. intros x. split; [|by intros [? _]]. intros Hx. split; [done|]. intros ->. by destruct Hx. }
  assert (in_tree sp p) as N by done. do 2 tree_step.
  destruct (Z.eqb_spec (kids sp true p) NIL) as [Er|Er]; [|destruct (Z.eqb_spec (kids sp false p) NIL) as [El|El]].
  - destruct (unlink_single sp h p false T N Er) as (sp' & Eu & ?). exists sp', h. by split.
  - destruct (unlink_single sp h p true T N El) as (sp' & Eu & ?). exists sp', h. by split.
  - assert (∃ q, deleted sp p q) as (q & sp1 & sp' & h' & -> & Eu & ?).
    { destruct (decide (kids sp true (kids sp false p) = NIL)) as [En|En].
      - exists (kids sp false p). by apply (delete_near sp h p T N).
      - by apply (delete_far sp h p T N). }
    exists sp', h'. by split.
Qed.


End LzssTree.
