(* ===== verification/LzssWindow.v ===== *)
(** * The window of the LZSS compressor

    What the ring buffer and the trees of [Lzss] hold while the compressor
    moves over a text: the last bytes read, at their slots, and as nodes the
    positions that the window still holds.  One step of the window takes out
    the oldest position, reads a byte and inserts the next position, and the
    match that is found lies in the window. *)

From Stdlib Require Import ZArith Lia.
From S2P Require Import Prelude Lzss LzssTree.

Module LzssWindow.

Import Lzss LzssTree.
Open Scope c_scope.

(** The slot of position [A] of the text; the text starts at slot
    [RBSIZE - UPLIM]. *)
Definition slot (A : Z) : Z := (A + (RBSIZE - UPLIM)) mod RBSIZE.

Ltac slots := unfold slot, NIL, RBSIZE, UPLIM in *; zdiv.

Lemma slot_range A : 0 ≤ slot A < NIL.
Proof. slots. Qed.

Lemma slot_next A : (slot A + 1) & (RBSIZE - 1) = slot (A + 1).
Proof. change (RBSIZE - 1) with (Z.ones 12). rewrite land_ones_wrap by lia. unfold wrap. change (2 ^ 12) with RBSIZE. slots. Qed.

Lemma slot_inj A B : slot A = slot B → A - RBSIZE < B < A + RBSIZE → A = B.
Proof. slots. Qed.

Lemma fill_spec a lo n v : 0 ≤ lo → lo + Z.of_nat n ≤ zlen a →
  ∃ a', fill a lo n v = Ok a' ∧ zlen a' = zlen a ∧
    ∀ j, 0 ≤ j → zget a' j = if (lo <=? j) && (j <? lo + Z.of_nat n) then v else zget a j.
Proof.
  intros Hlo Hn. unfold fill.
  destruct (cfor_inv (λ i a', zlen a' = zlen a ∧ ∀ j, 0 ≤ j → zget a' j = if (lo <=? j) && (j <? i) then v else zget a j)
    n lo (fun i a => aset a i v) a) as (a' & -> & H); [| |by exists a'].
  - split; [done|]. intros j Hj. zcases; (done || lia).
  - intros i b Hi [Hl Hb]. rewrite aset_Ok by lia. eexists. split; [done|]. rewrite zlen_insert. split; [done|].
    intros j Hj. rewrite zget_insert by lia. rewrite Hb by done. zcases; (done || lia).
Qed.

Section window.
  Context (X : list Z).
  Hypothesis HX : bytes_ok X.
Let n := zlen X.

(** The text, with the spaces that the buffer starts with before it. *)
Definition V (A : Z) : Z := if A <? 0 then 32 else zget X A.

(** The positions that are nodes when position [R] is about to be coded. *)
Definition cand (R x : Z) : Prop := ∃ A, -UPLIM ≤ A < R ∧ R - (RBSIZE - UPLIM) ≤ A ∧ x = slot A.

(** [E] bytes of the text were read. *)
Record bytes_at (tx : list Z) (E : Z) : Prop := mkBytes {
  b_size : zlen tx = RBSIZE + UPLIM - 1;
  b_bytes : bytes_ok tx;
  b_ring A : - (RBSIZE - UPLIM) ≤ A < E → E - RBSIZE ≤ A → zget tx (slot A) = V A;
  b_ext A : UPLIM ≤ A < E → E - RBSIZE ≤ A → slot A < UPLIM - 1 → zget tx (slot A + RBSIZE) = V A
}.

Definition win (sp : encode_state) (R E : Z) : Prop :=
  bytes_at (text_buf sp) E ∧ (∃ h, tree sp h) ∧ ∀ x, in_tree sp x → cand R x ∨ x = slot R.

(** The string at a position, read past the end of the ring. *)
Lemma bytes_string tx E A k : bytes_at tx E → -UPLIM ≤ A → E - RBSIZE ≤ A → 0 ≤ k < UPLIM → A + k < E →
  zget tx (slot A + k) = V (A + k).
Proof.
  intros B HA HE Hk HAk. destruct (Z.lt_ge_cases (slot A + k) RBSIZE) as [Hlt|Hge].
  - replace (slot A + k) with (slot (A + k)) by slots. apply (b_ring _ _ B); unfold UPLIM, RBSIZE in *; lia.
  - replace (slot A + k) with (slot (A + k) + RBSIZE) by slots. apply (b_ext _ _ B); slots.
Qed.

Lemma V_byte A : in_u 8 (V A).
Proof. unfold V. case_bool; [by unfold in_u|by apply bytes_ok_zget]. Qed.

Lemma not_node sp x : ¬ in_tree sp x → 0 ≤ x < NIL → par sp x = NIL.
Proof. intros N Hx. destruct (decide (par sp x = NIL)); [done|]. by destruct N. Qed.

(** ** The match found for position [R] *)
Definition found (sp : encode_state) (R : Z) : Prop := matched (cand R) sp (slot R).

Lemma found_match sp R E : bytes_at (text_buf sp) E → found sp R → 0 < match_length sp → 0 ≤ R → E ≤ R + UPLIM →
  ∃ A, match_position sp = slot A ∧ -UPLIM ≤ A < R ∧ R - (RBSIZE - UPLIM) ≤ A ∧
    ∀ k, 0 ≤ k < match_length sp → R + k < E → V (R + k) = V (A + k).
Proof.
  intros B [Hl Hm] Hpos HR HE. destruct (Hm Hpos) as [(A & HA & HA2 & EA) Heq]. exists A. split_conj; try lia.
  intros k Hk Hr. specialize (Heq k Hk). unfold text in Heq. rewrite EA in Heq.
  rewrite !(bytes_string _ E) in Heq; try done; unfold UPLIM, RBSIZE in *; lia.
Qed.

(** ** Steps *)

Lemma insert_step sp R E P : bytes_at (text_buf sp) E → (∃ h, tree sp h) → ¬ in_tree sp (slot R) →
  (∀ x, in_tree sp x → P x) →
  ∃ sp', insert_node sp (slot R) = Ok sp' ∧ bytes_at (text_buf sp') E ∧ (∃ h, tree sp' h) ∧
    matched P sp' (slot R) ∧ ∀ x, in_tree sp' x → P x ∨ x = slot R.
Proof.
  intros B (h & T) N HP. destruct (insert_node_spec P sp h (slot R) T) as (sp' & h' & -> & T' & Et & M & Hn);
    [apply B|apply B|done|apply slot_range|by apply not_node; [|apply slot_range]|].
  exists sp'. rewrite Et. split_conj; [done|done|by exists h'|done|]. intros x [Hx|Hx]%Hn; [left; by apply HP|by right].
Qed.

Lemma cand_not_slot R : ¬ cand R (slot R).
Proof. intros (A & HA & HA2 & E). apply slot_inj in E; unfold RBSIZE, UPLIM in *; lia. Qed.

(** Insert position [R + 1]. *)
Lemma insert_next sp R E : bytes_at (text_buf sp) E → (∃ h, tree sp h) → (∀ x, in_tree sp x → cand (R + 1) x) → 
  - UPLIM ≤ R + 1 →
  ∃ sp', insert_node sp (slot (R + 1)) = Ok sp' ∧ bytes_at (text_buf sp') E ∧ (∃ h, tree sp' h) ∧ found sp' (R + 1) ∧
    ∀ x, in_tree sp' x → cand (R + 1) x ∨ x = slot (R + 1).
Proof.
  intros B T Hc HR. apply insert_step; [done..| |done]. intros N%Hc. by apply cand_not_slot in N.
Qed.

(** Take out the oldest position. *)
Lemma delete_oldest sp R E : win sp R E → - UPLIM ≤ R →
  ∃ sp', delete_node sp (slot (R + UPLIM)) = Ok sp' ∧ text_buf sp' = text_buf sp ∧ (∃ h, tree sp' h) ∧
    (∀ x, in_tree sp' x → cand (R + 1) x ∧ x ≠ slot (R + UPLIM)).
Proof.
  intros (B & (h & T) & Hc) HR.
  destruct (delete_node_spec sp h (slot (R + UPLIM)) T (slot_range _)) as (sp' & h' & -> & T' & (Et & _) & Hn).
  exists sp'. split_conj; [done|done|by exists h'|]. intros x [Hx Hne]%Hn. split; [|done].
  apply Hc in Hx as [(A & HA & HA2 & ->)| ->]; [|exists R; unfold RBSIZE, UPLIM in *; split_conj; (done || lia)].
  exists A. split_conj; try lia. destruct (decide (A = R - (RBSIZE - UPLIM))) as [->|]; [exfalso; apply Hne; slots|lia].
Qed.

(** The window moves on without reading: the end of the text is in it. *)
Lemma drain_step sp R E : win sp R E → 0 ≤ R →
  ∃ sp1, delete_node sp (slot (R + UPLIM)) = Ok sp1 ∧
  ∃ sp2, insert_node sp1 (slot (R + 1)) = Ok sp2 ∧ win sp2 (R + 1) E ∧ found sp2 (R + 1).
Proof.
  intros W HR. destruct (delete_oldest sp R E W) as (sp1 & -> & Et & T & Hc); [unfold UPLIM; lia|]. exists sp1. split; [done|].
  destruct (insert_next sp1 R E) as (sp2 & -> & B & T2 & F & Hn).
  { rewrite Et. apply W. } { done. } { intros x Hx. by apply Hc. } { unfold UPLIM. lia. }
  exists sp2. by split_conj.
Qed.

(** ** Reading a byte *)

Definition put_text (sp : encode_state) (i c : Z) : encode_state :=
  mkEnc (lchild sp) (rchild sp) (parent sp) (<[Z.to_nat i := c]> (text_buf sp)) (match_position sp) (match_length sp).

Lemma set_text_Ok sp i c : text_sized sp → 0 ≤ i < RBSIZE + UPLIM - 1 → set_text sp i c = Ok (put_text sp i c).
Proof. unfold text_sized. intros Ht Hi. unfold set_text. rewrite aset_Ok by lia. done. Qed.

Lemma put_text_tree sp h i c : tree sp h → text_sized sp → 0 ≤ i < RBSIZE + UPLIM - 1 → ¬ in_tree sp i → tree (put_text sp i c) h.
Proof.
  unfold text_sized. intros [Hs F] Ht Hi N. split; [by destruct Hs|]. apply (forest_ext _ _ _ _ _ _ _ F); [done|done|].
  intros b q Sq. unfold first. case_bool; [done|]. unfold text, put_text. cbn [text_buf].
  destruct Sq as [[Hq Sq]|[_ Sq]]; [|unfold root in Sq; lia]. rewrite zget_insert by lia. case_bool; [|done].
  exfalso. apply N. subst. done.
Qed.

(** The byte read at the end of the window, mirrored behind the ring. *)
Definition read_byte (sp : encode_state) (s c : Z) : encode_state :=
  let sp := put_text sp s c in if s <? UPLIM - 1 then put_text sp (s + RBSIZE) c else sp.

Lemma read_bytes tx E s : bytes_at tx E → UPLIM ≤ E → s = slot E →
  let tx1 := <[Z.to_nat s := V E]> tx in
  bytes_at (if s <? UPLIM - 1 then <[Z.to_nat (s + RBSIZE) := V E]> tx1 else tx1) (E + 1).
Proof.
  intros [Hsz Hb Hr He] HE -> tx1. pose proof (slot_range E) as Hs. unfold NIL in Hs. pose proof (V_byte E) as HV.
  set (tx2 := if slot E <? UPLIM - 1 then _ else _).
  assert (zlen tx2 = zlen tx) as Hl by (unfold tx2, tx1; case_bool; by rewrite ?zlen_insert).
  assert (∀ j, 0 ≤ j → zget tx2 j = if (j =? slot E) || (j =? slot E + RBSIZE) && (slot E <? UPLIM - 1) then V E else zget tx j) as Hj.
  { intros j Hj. unfold tx2, tx1. unfold RBSIZE, UPLIM in *. case_bool.
    - rewrite zget_insert by (rewrite ?zlen_insert; lia). rewrite zget_insert by lia. zcases; (done || lia).
    - rewrite zget_insert by lia. zcases; (done || lia). }
  constructor; [congruence|unfold tx2, tx1; case_bool; repeat apply bytes_ok_insert; done| |].
  - intros A HA HA2. rewrite Hj by (apply slot_range). pose proof (slot_range A) as HsA. unfold NIL in HsA.
    destruct (decide (A = E)) as [->|Hne]; [by rewrite Z.eqb_refl|].
    rewrite (proj2 (Z.eqb_neq (slot A) (slot E))) by (intros Es; apply slot_inj in Es; lia).
    rewrite (proj2 (Z.eqb_neq (slot A) (slot E + RBSIZE))) by lia. apply Hr; lia.
  - intros A HA HA2 HsA. pose proof (slot_range A) as HA0. unfold NIL in HA0. rewrite Hj by (unfold RBSIZE; lia).
    rewrite (proj2 (Z.eqb_neq (slot A + RBSIZE) (slot E))) by lia.
    destruct (decide (A = E)) as [->|Hne].
    { by rewrite Z.eqb_refl, (proj2 (Z.ltb_lt _ _)). }
    rewrite (proj2 (Z.eqb_neq (slot A + RBSIZE) (slot E + RBSIZE))) by (intros Es; assert (slot A = slot E) as Es2 by lia; apply slot_inj in Es2; lia).
    apply He; lia.
Qed.

Lemma slide_step sp R : win sp R (R + UPLIM) → 0 ≤ R →
  let s := slot (R + UPLIM) in let c := V (R + UPLIM) in
  ∃ sp1, delete_node sp s = Ok sp1 ∧
  ∃ sp2, set_text sp1 s c = Ok sp2 ∧
  ∃ sp3, (if s <? UPLIM - 1 then set_text sp2 (s + RBSIZE) c else Ok sp2) = Ok sp3 ∧
  ∃ sp4, insert_node sp3 (slot (R + 1)) = Ok sp4 ∧ win sp4 (R + 1) (R + 1 + UPLIM) ∧ found sp4 (R + 1).
Proof.
  intros W HR s c. destruct (delete_oldest sp R _ W) as (sp1 & E1 & Et & (h & T) & Hc); [unfold UPLIM; lia|].
  assert (bytes_at (text_buf sp1) (R + UPLIM)) as B by (rewrite Et; apply W).
  pose proof (slot_range (R + UPLIM)) as Hs. unfold NIL in Hs. fold s in Hs.
  assert (text_sized sp1) as Hsz by apply B. assert (UPLIM = 18) as EU by done.
  assert (text_sized (put_text sp1 s c)) as Hsz2 by (unfold text_sized; cbn; by rewrite zlen_insert).
  exists sp1. split; [exact E1|]. eexists. split; [apply set_text_Ok; [done|lia]|].
  exists (read_byte sp1 s c). split; [unfold read_byte; case_bool; [apply set_text_Ok; [done|lia]|done]|].
  assert (par (read_byte sp1 s c) = par sp1) as Ep by (unfold read_byte; by case_bool).
  destruct (insert_next (read_byte sp1 s c) R (R + UPLIM + 1)) as (sp4 & -> & B4 & T4 & F4 & Hn).
  { pose proof (read_bytes _ _ s B ltac:(lia) eq_refl) as B2. unfold read_byte. by case_bool. }
  { exists h. unfold read_byte. assert (tree (put_text sp1 s c) h) as T1.
    { apply put_text_tree; [done|done|lia|]. intros N%Hc. by destruct N. }
    case_bool; [|done]. apply put_text_tree; [done|done|lia|]. intros [? _]. unfold NIL in *. lia. }
  { rewrite Ep. intros x Hx. by apply Hc. } { lia. }
  exists sp4. split; [done|]. replace (R + 1 + UPLIM) with (R + UPLIM + 1) by lia. by split.
Qed.

(** ** The first window *)

(** The buffer while the first bytes are read into its last part. *)
Definition start (tx : list Z) (m : Z) : Prop :=
  zlen tx = RBSIZE + UPLIM - 1 ∧ bytes_ok tx ∧ ∀ j, 0 ≤ j < RBSIZE - UPLIM + m → zget tx j = V (j - (RBSIZE - UPLIM)).

Lemma start_bytes tx m : start tx m → m ≤ UPLIM → bytes_at tx m.
Proof.
  intros (Hl & Hb & Hj) Hm. constructor; [done|done| |].
  - intros A HA _. assert (slot A = A + (RBSIZE - UPLIM)) as -> by slots. rewrite Hj by lia. f_equal. lia.
  - intros; lia.
Qed.

Lemma init_state_spec : ∃ sp, init_state = Ok sp ∧ start (text_buf sp) 0 ∧ tree sp (λ _, 0) ∧ ∀ x, ¬ in_tree sp x.
Proof.
  unfold init_state. assert (∀ k v, zlen (replicate k v : list Z) = Z.of_nat k) as Hz by (intros; unfold zlen; by rewrite length_replicate).
  destruct (fill_spec (replicate (Z.to_nat (RBSIZE + UPLIM - 1)) 0) 0 (Z.to_nat (RBSIZE - UPLIM)) 32) as (t & Et & Ht & Hgt);
    [done|by rewrite Hz|].
  destruct (fill_spec (replicate (Z.to_nat (RBSIZE + 257)) 0) (RBSIZE + 1) (Z.to_nat 256) NIL) as (rc & Er & Hr & Hgr);
    [done|by rewrite Hz|].
  destruct (fill_spec (replicate (Z.to_nat (RBSIZE + 1)) 0) 0 (Z.to_nat RBSIZE) NIL) as (pa & Ep & Hp & Hgp);
    [done|by rewrite Hz|].
  rewrite Et, Er, Ep. cbn [mbind outcome_bind]. eexists. split; [reflexivity|]. clear Et Er Ep. cbn [text_buf].
  assert (∀ x, 0 ≤ x < NIL → zget pa x = NIL) as Hpa.
  { intros x Hx. rewrite Hgp by lia. rewrite (proj2 (Z.leb_le 0 x)), (proj2 (Z.ltb_lt x _)) by (unfold NIL, RBSIZE in *; lia). done. }
  assert (∀ x, ¬ node (zget pa) x) as Hnone by (intros x [Hx Hn]; by apply Hn, Hpa).
  unfold start. split_conj; [by rewrite Ht, Hz| | | |].
  - apply Forall_forall. intros b Hb. apply list_elem_of_lookup in Hb as [i Hi].
    assert (zget t (Z.of_nat i) = b) as <- by (unfold zget; by rewrite Nat2Z.id, Hi).
    rewrite Hgt by lia. case_bool; [unfold in_u; lia|]. apply bytes_ok_zget, Forall_replicate. unfold in_u. lia.
  - intros j Hj. rewrite Hgt by lia. unfold V. rewrite (proj2 (Z.leb_le 0 j)), (proj2 (Z.ltb_lt j _)), (proj2 (Z.ltb_lt _ 0)) by (unfold RBSIZE, UPLIM in *; lia). done.
  - split; [constructor; cbn [lchild rchild parent]; [by rewrite Hz|by rewrite Hr, Hz|by rewrite Hp, Hz]|].
    constructor.
    + intros b q [Hq|[-> Hq]] Hn; [by apply Hnone in Hq|]. exfalso. apply Hn. unfold kids. cbn [rchild].
      unfold root, NIL, RBSIZE in *. rewrite Hgr by lia. rewrite (proj2 (Z.leb_le _ q)), (proj2 (Z.ltb_lt q _)) by lia. done.
    + intros q Hq. by apply Hnone in Hq.
    + intros q Hq. by apply Hnone in Hq.
  - exact Hnone.
Qed.

Lemma read_ahead_spec k sp m src h : tree sp h → (∀ x, ¬ in_tree sp x) → start (text_buf sp) m → 0 ≤ m ≤ n →
  m + Z.of_nat k ≤ UPLIM → src = drop (Z.to_nat m) X →
  ∃ sp' m', read_ahead k (RBSIZE - UPLIM) m sp src = Ok (sp', drop (Z.to_nat m') X, m') ∧ m' = Z.min (m + Z.of_nat k) n ∧
    tree sp' h ∧ (∀ x, ¬ in_tree sp' x) ∧ start (text_buf sp') m'.
Proof.
  revert sp m src. induction k as [|k IH]; intros sp m src T N St Hm Hk ->.
  { cbn [read_ahead]. exists sp, m. split_conj; [done|lia|done..]. }
  cbn [read_ahead]. destruct (drop (Z.to_nat m) X) as [|c src] eqn:Ed.
  { exists sp, m. rewrite Ed. assert (m = n); [|split_conj; [done|lia|done..]].
    apply (f_equal length) in Ed. rewrite length_drop in Ed. cbn in Ed. unfold n, zlen in *. lia. }
  assert (m < n) as Hlt by (apply (f_equal length) in Ed; rewrite length_drop in Ed; cbn in Ed; unfold n, zlen in *; lia).
  assert (c = V m) as ->.
  { unfold V. rewrite (proj2 (Z.ltb_ge m 0)) by lia. unfold zget. rewrite <- (Nat.add_0_r (Z.to_nat m)), <- lookup_drop, Ed. done. }
  assert (src = drop (Z.to_nat (m + 1)) X) as ->.
  { replace (Z.to_nat (m + 1)) with (Z.to_nat m + 1)%nat by lia. by rewrite <- drop_drop, Ed. }
  destruct St as (Hl & Hb & Hj). rewrite set_text_Ok by (try done; unfold RBSIZE, UPLIM in *; lia). cbn [mbind outcome_bind].
  destruct (IH (put_text sp (RBSIZE - UPLIM + m) (V m)) (m + 1) (drop (Z.to_nat (m + 1)) X)) as (sp' & m' & -> & ? & ? & ? & ?); try done; try lia.
  - apply put_text_tree; [done|done|unfold RBSIZE, UPLIM in *; lia|apply N].
  - unfold start, put_text. cbn [text_buf]. split_conj; [by rewrite zlen_insert|by apply bytes_ok_insert; [|apply V_byte]|].
    intros j Hj2. rewrite zget_insert by (unfold RBSIZE, UPLIM in *; lia). case_bool; [f_equal; lia|apply Hj; lia].
  - exists sp', m'. split_conj; [done|lia|done..].
Qed.

Lemma first_inserts sp m : bytes_at (text_buf sp) m → (∃ h, tree sp h) → (∀ x, ¬ in_tree sp x) →
  ∃ sp1, cfor (Z.to_nat UPLIM) 1 (fun i sp => insert_node sp (RBSIZE - UPLIM - i)) sp = Ok sp1 ∧
  ∃ sp2, insert_node sp1 (RBSIZE - UPLIM) = Ok sp2 ∧ win sp2 0 m ∧ found sp2 0.
Proof.
  intros B T N.
  destruct (cfor_inv (λ i sp, bytes_at (text_buf sp) m ∧ (∃ h, tree sp h) ∧ ∀ x, in_tree sp x → ∃ j, 1 ≤ j < i ∧ x = slot (- j))
    (Z.to_nat UPLIM) 1 (fun i sp => insert_node sp (RBSIZE - UPLIM - i)) sp) as (sp1 & -> & B1 & T1 & N1).
  - split_conj; [done|done|]. intros x Hx. by apply N in Hx.
  - intros i s Hi (Bs & Ts & Ns). replace (RBSIZE - UPLIM - i) with (slot (- i)) by slots.
    destruct (insert_step s (- i) m (λ x, ∃ j, 1 ≤ j < i ∧ x = slot (- j)) Bs Ts) as (s' & -> & B' & T' & _ & N').
    + intros (j & Hj & E)%Ns. apply slot_inj in E; unfold RBSIZE, UPLIM in *; lia.
    + done.
    + exists s'. split_conj; [done|done|done|]. intros x [(j & Hj & ->)| ->]%N'; [exists j|exists i]; split; (done || lia).
  - exists sp1. split; [done|]. change (RBSIZE - UPLIM) with (slot (-1 + 1)).
    destruct (insert_next sp1 (-1) m) as (sp2 & -> & B2 & T2 & F2 & N2); [done|done| |done|by exists sp2].
    intros x (j & Hj & ->)%N1. exists (- j). unfold RBSIZE, UPLIM in *. split_conj; (done || lia).
Qed.
End window.
End LzssWindow.
