(* ===== verification/LzssEncode.v ===== *)
(** * The output of the LZSS compressor

    [compress_lzss] of [Lzss] writes groups of a flag byte and up to eight
    units; each unit is a byte of the text or a match inside the window.
    The main loop ends, stays inside its buffers and covers the text. *)

From Stdlib Require Import ZArith Lia.
From S2P Require Import Prelude Lzss LzssTree LzssWindow.

Module LzssEncode.

Import Lzss LzssTree LzssWindow.
Open Scope c_scope.

(** ** Units *)

(** A byte, or [l] bytes of the text from position [A] on. *)
Inductive code_unit := Lit (c : Z) | Copy (A l : Z).

Definition size (u : code_unit) : Z := match u with Lit _ => 1 | Copy _ l => l end.
Definition is_lit (u : code_unit) : bool := match u with Lit _ => true | Copy _ _ => false end.
Definition code (u : code_unit) : list Z :=
  match u with
  | Lit c => [c]
  | Copy A l => [u8 (slot A); u8 (((slot A >> 4) & 0xF0) .| u64 (l - (THRESHOLD + 1)))]
  end.
Definition codes (us : list code_unit) : list Z := us ≫= code.

(** The flag byte: bit [j] is set where unit [j] is a byte. *)
Definition flagged (c : Z) (us : list code_unit) : Prop :=
  in_u 8 c ∧ ∀ j, Z.testbit c (Z.of_nat j) = match us !! j with Some u => is_lit u | None => false end.

Section units.
  Context (X : list Z).
  Hypothesis HX : bytes_ok X.
Let n := zlen X.
  Abbreviation V := (V X).

(** What a unit at position [R] of the text may be. *)
Definition valid (R : Z) (u : code_unit) : Prop :=
  match u with
  | Lit c => c = V R ∧ R < n
  | Copy A l => THRESHOLD < l ≤ UPLIM ∧ -UPLIM ≤ A < R ∧ R - (RBSIZE - UPLIM) ≤ A ∧ R + l ≤ n ∧
      ∀ k, 0 ≤ k < l → V (R + k) = V (A + k)
  end.

(** Units that cover the text from one position to another. *)
Inductive units : Z → list code_unit → Z → Prop :=
| units_nil R : units R [] R
| units_cons R u us R' : valid R u → units (R + size u) us R' → units R (u :: us) R'.

(** Whole groups, from the start of the text. *)
Inductive groups : list Z → Z → Prop :=
| groups_nil : groups [] 0
| groups_snoc bs R c us R' :
    groups bs R → flagged c us → length us = 8%nat → units R us R' → groups (bs ++ c :: codes us) R'.

(** The compressed text: whole groups and maybe a shorter one. *)
Definition stream (bs : list Z) : Prop :=
  ∃ bs0 R0, groups bs0 R0 ∧
    (bs = bs0 ∧ R0 = n ∨ ∃ c us, flagged c us ∧ us ≠ [] ∧ (length us < 8)%nat ∧ units R0 us n ∧ bs = bs0 ++ c :: codes us).

Lemma valid_size R u : valid R u → 1 ≤ size u ∧ R + size u ≤ n ∧ zlen (code u) ≤ size u.
Proof. destruct u; cbn [valid size code]; [unfold zlen; cbn; lia|]. unfold THRESHOLD, zlen. cbn. lia. Qed.

Lemma code_short u : zlen (code u) ≤ 2.
Proof. destruct u; unfold zlen; cbn; lia. Qed.

Lemma codes_snoc us u : codes (us ++ [u]) = codes us ++ code u.
Proof. unfold codes. rewrite bind_app. cbn. by rewrite app_nil_r. Qed.

Lemma codes_short us : zlen (codes us) ≤ 2 * Z.of_nat (length us).
Proof.
  induction us as [|u us IH]; [done|]. unfold codes in *. cbn [mbind list_bind length]. rewrite zlen_app. pose proof (code_short u). lia.
Qed.

Lemma units_snoc R us R' u : units R us R' → valid R' u → units R (us ++ [u]) (R' + size u).
Proof. induction 1; intros Hv; cbn [app]; econstructor; eauto using units_nil. Qed.

Lemma units_length R us R' : units R us R' → Z.of_nat (length us) ≤ R' - R ∧ zlen (codes us) ≤ R' - R.
Proof.
  induction 1 as [|R u us R' Hv Hu IH]; [unfold zlen; cbn; lia|]. destruct (valid_size _ _ Hv) as (? & ? & ?).
  unfold codes in *. cbn [mbind list_bind length]. rewrite zlen_app. lia.
Qed.

Lemma units_le R us R' : units R us R' → R ≤ n → R' ≤ n.
Proof. induction 1 as [|R u us R' Hv Hu IH]; [done|]. destruct (valid_size _ _ Hv) as (? & ? & ?). intros. apply IH. lia. Qed.

Lemma flagged_snoc c us u : flagged c us → (length us < 8)%nat →
  flagged (if is_lit u then c .| 2 ^ Z.of_nat (length us) else c) (us ++ [u]).
Proof.
  intros [Hc Hb] Hl. split.
  { case_bool; [|done]. apply in_u_lor; [lia|done|]. unfold in_u. split; [apply Z.pow_nonneg; lia|apply Z.pow_lt_mono_r; lia]. }
  intros j. assert (Z.testbit (if is_lit u then c .| 2 ^ Z.of_nat (length us) else c) (Z.of_nat j) =
    Z.testbit c (Z.of_nat j) || is_lit u && bool_decide (j = length us)) as ->.
  { destruct (is_lit u); [|by rewrite orb_false_r]. rewrite Z.lor_spec. f_equal. cbn [andb]. rewrite Z.pow2_bits_eqb by lia.
    destruct (bool_decide_reflect (j = length us)) as [->|]; [apply Z.eqb_refl|apply Z.eqb_neq; lia]. }
  rewrite Hb. destruct (decide (j < length us)%nat) as [Hlt|Hge].
  - rewrite lookup_app_l by done. rewrite bool_decide_eq_false_2 by lia. by rewrite andb_false_r, orb_false_r.
  - rewrite lookup_app_r by lia. rewrite (lookup_ge_None_2 us) by lia. destruct (decide (j = length us)) as [->|].
    + rewrite Nat.sub_diag, bool_decide_eq_true_2 by done. cbn. by rewrite andb_true_r.
    + rewrite bool_decide_eq_false_2 by done. rewrite andb_false_r. destruct (j - length us)%nat eqn:E; [lia|done].
Qed.

(** ** The code buffer *)

Record buffered (v : encode_vars) (R0 : Z) (us : list code_unit) (R : Z) : Prop := mkBuf {
  bf_units : units R0 us R;
  bf_short : (length us < 8)%nat;
  bf_size : zlen (code_buf v) = 17;
  bf_mask : mask v = 2 ^ Z.of_nat (length us);
  bf_ptr : code_buf_ptr v = 1 + zlen (codes us);
  bf_codes : ∃ c, flagged c us ∧ take (Z.to_nat (code_buf_ptr v)) (code_buf v) = c :: codes us
}.

Lemma take_insert_next (b : list Z) p x : 0 ≤ p < zlen b →
  take (Z.to_nat (p + 1)) (<[Z.to_nat p := x]> b) = take (Z.to_nat p) b ++ [x].
Proof.
  unfold zlen. intros Hp. replace (Z.to_nat (p + 1)) with (S (Z.to_nat p)) by lia.
  rewrite (take_S_r _ _ x) by (apply list_lookup_insert_eq; lia). by rewrite take_insert_ge.
Qed.

Lemma take_first (b : list Z) p c cs : take (Z.to_nat p) b = c :: cs → zget b 0 = c.
Proof. destruct b as [|y b], (Z.to_nat p) as [|m]; try done. cbn. by intros [= -> _]. Qed.

Lemma take_insert_first (b : list Z) p x c cs : take (Z.to_nat p) b = c :: cs → take (Z.to_nat p) (<[0%nat := x]> b) = x :: cs.
Proof. destruct b as [|y b], (Z.to_nat p) as [|m]; try done. cbn. by intros [= -> ->]. Qed.

(** ** Positions *)

(** The loop is at position [R], [E] bytes were read. *)
Record at_pos (v : encode_vars) (R E : Z) : Prop := mkPos {
  ap_win : win X (e_sp v) R E;
  ap_r : e_r v = slot R;
  ap_s : e_s v = slot (R + UPLIM);
  ap_len : e_len v = E - R;
  ap_src : e_src v = drop (Z.to_nat E) X;
  ap_end : E = Z.min (R + UPLIM) n;
  ap_range : 0 ≤ R < E
}.

Lemma win_match sp p l R E : win X sp R E → win X (set_match sp p l) R E.
Proof. intros (B & (h & T) & Hc). unfold win. split_conj; [exact B| |exact Hc]. exists h. by apply tree_match. Qed.

(** The unit that [put_unit] chooses: the longest match, cut at the end of
    the text, where that is worth it. *)
Definition chosen (v : encode_vars) (R : Z) (u : code_unit) : Prop :=
  let l := Z.min (match_length (e_sp v)) (e_len v) in
  match u with
  | Lit c => l ≤ THRESHOLD ∧ c = V R
  | Copy A m => m = l ∧ match_position (e_sp v) = slot A ∧ THRESHOLD < l
  end.

Lemma chosen_valid v R E : at_pos v R E → found (e_sp v) R → ∃ u, chosen v R u ∧ valid R u ∧ size u ≤ E - R.
Proof.
  intros P F. destruct (ap_win _ _ _ P) as (B & _). pose proof (ap_len _ _ _ P) as Hl. pose proof (ap_end _ _ _ P) as HE.
  pose proof (ap_range _ _ _ P) as HR. unfold chosen. set (l := Z.min (match_length (e_sp v)) (e_len v)) in *.
  destruct (Z.le_gt_cases l THRESHOLD) as [Hle|Hgt].
  - exists (Lit (V R)). cbn [valid size]. split_conj; done || lia.
  - assert (0 < match_length (e_sp v)) as Hpos by (unfold THRESHOLD in *; lia).
    destruct (found_match X (e_sp v) R E B F Hpos) as (A & EA & HA & HA2 & Hk); [lia|lia|].
    exists (Copy A l). destruct F as [Hml _]. cbn [valid size]. split_conj; try done; try lia.
    intros k Hkl. apply Hk; lia.
Qed.

Definition after_unit (v v' : encode_vars) (R E : Z) (us : list code_unit) (u : code_unit) : Prop :=
  at_pos v' R E ∧ match_length (e_sp v') = size u ∧ e_dst v' = e_dst v ∧ mask v' = mask v ∧ zlen (code_buf v') = 17 ∧
  code_buf_ptr v' = 1 + zlen (codes (us ++ [u])) ∧
  ∃ c, flagged c (us ++ [u]) ∧ take (Z.to_nat (code_buf_ptr v')) (code_buf v') = c :: codes (us ++ [u]).

Lemma put_unit_spec v R E R0 us u : at_pos v R E → chosen v R u → valid R u → buffered v R0 us R →
  ∃ v', put_unit v = Ok v' ∧ after_unit v v' R E us u.
Proof.
  intros P Hch Hv [Hun Hsh Hsz Hm Hp (c & Hc & Ht)].
  destruct (ap_win _ _ _ P) as (B & _). pose proof (ap_range _ _ _ P) as HR. pose proof (ap_end _ _ _ P) as HE.
  pose proof (codes_short us) as Hcs. pose proof (zlen_nonneg (codes us)) as Hc0.
  unfold put_unit. set (sp := if e_len v <? match_length (e_sp v) then _ else _).
  assert (match_length sp = Z.min (match_length (e_sp v)) (e_len v)) as El by (unfold sp; case_bool; cbn; lia).
  assert (match_position sp = match_position (e_sp v)) as Ep by (unfold sp; by case_bool).
  assert (text_buf sp = text_buf (e_sp v)) as Et by (unfold sp; by case_bool).
  assert (win X sp R E) as W by (unfold sp; case_bool; [by apply win_match, P|apply P]).
  rewrite El. unfold chosen in Hch. set (l := Z.min (match_length (e_sp v)) (e_len v)) in *.
  assert (∀ sp' b m q, win X sp' R E → at_pos (with_code (with_sp v sp') b m q) R E) as Hat.
  { intros sp' b m q W'. destruct P. by constructor. }
  destruct u as [x|A m]; cbn [valid] in Hv.
  - destruct Hch as [Hle ->]. rewrite (proj2 (Z.leb_le _ _) Hle). rewrite (aget_zget (code_buf v)) by lia. cbn [mbind outcome_bind].
    assert (zget (code_buf v) 0 = c) as -> by (by apply take_first in Ht).
    rewrite aset_Ok by lia. cbn [mbind outcome_bind text_buf set_match]. rewrite Et, (ap_r _ _ _ P).
    rewrite aget_zget by (rewrite (b_size _ _ _ B); pose proof (slot_range R); unfold NIL, UPLIM in *; lia).
    rewrite <- (Z.add_0_r (slot R)), (bytes_string X _ E) by (try done; unfold UPLIM, RBSIZE in *; lia). rewrite Z.add_0_r. cbn [mbind outcome_bind].
    rewrite aset_Ok by (rewrite zlen_insert; lia). cbn [mbind outcome_bind]. eexists. split; [reflexivity|].
    split; [apply Hat; by apply win_match|]. cbn [e_sp with_code with_sp set_match match_length size e_dst mask code_buf code_buf_ptr].
    rewrite codes_snoc. cbn [code]. rewrite zlen_app. split_conj; [done..|by rewrite !zlen_insert|unfold zlen at 2; cbn; lia|].
    exists (c .| mask v). rewrite Hm. split; [by apply (flagged_snoc c us (Lit (V R)))|].
    rewrite take_insert_next by (rewrite zlen_insert; lia). change (Z.to_nat 0) with 0%nat. by rewrite (take_insert_first _ _ _ _ _ Ht).
  - destruct Hch as (-> & EA & Hgt). rewrite (proj2 (Z.leb_gt _ _) Hgt), Ep, EA.
    rewrite aset_Ok by lia. cbn [mbind outcome_bind]. rewrite aset_Ok by (rewrite zlen_insert; lia). cbn [mbind outcome_bind].
    eexists. split; [reflexivity|]. split; [by apply Hat|].
    cbn [e_sp with_code with_sp set_match match_length size e_dst mask code_buf code_buf_ptr]. rewrite codes_snoc. cbn [code]. rewrite zlen_app.
    split_conj; [done..|by rewrite !zlen_insert|unfold zlen at 2; cbn; lia|].
    exists c. split; [by apply (flagged_snoc c us (Copy A l))|].
    replace (code_buf_ptr v + 2) with (code_buf_ptr v + 1 + 1) by lia.
    rewrite take_insert_next by (rewrite zlen_insert; lia). rewrite take_insert_next by lia. rewrite Ht. by rewrite <- app_assoc.
Qed.

(** ** Sending a group *)

Lemma send_spec k dstlen i buf dst : 0 ≤ i → i + Z.of_nat k ≤ zlen buf → zlen dst ≤ dstlen →
  ∃ dst' ok, send k dstlen i buf dst = Ok (dst', ok) ∧ zlen dst' ≤ dstlen ∧
    (ok = true → dst' = dst ++ take k (drop (Z.to_nat i) buf)) ∧ (zlen dst + Z.of_nat k ≤ dstlen → ok = true).
Proof.
  revert i dst. induction k as [|k IH]; intros i dst Hi Hb Hd; cbn [send].
  { exists dst, true. split_conj; try done. intros _. by rewrite take_0, app_nil_r. }
  destruct (Z.ltb_spec (zlen dst) dstlen) as [Hlt|Hge].
  2:{ exists dst, false. split_conj; [done|done|done|lia]. }
  rewrite aget_zget by lia. cbn [mbind outcome_bind].
  destruct (IH (i + 1) (dst ++ [zget buf i])) as (dst' & ok & -> & Hl & Hok & Hroom); [lia|lia|rewrite zlen_app; unfold zlen in *; cbn; lia|].
  exists dst', ok. split_conj; [done|done| |].
  - intros E. rewrite (Hok E), <- app_assoc. f_equal.
    destruct (lookup_lt_is_Some_2 buf (Z.to_nat i)) as [x Hx]; [unfold zlen in *; lia|].
    rewrite (drop_S buf x (Z.to_nat i)) by done. unfold zget. rewrite Hx. cbn. do 3 f_equal. lia.
  - intros ?. apply Hroom. rewrite zlen_app. unfold zlen in *. cbn. lia.
Qed.

Lemma groups_size bs R : groups bs R → 0 ≤ R ∧ zlen bs ≤ R + R / 8 ∧ R ≤ n.
Proof.
  induction 1 as [|bs R c us R' Hg (HR & Hl & Hn) Hf H8 Hu]; [split_conj; [done..|apply zlen_nonneg]|].
  destruct (units_length _ _ _ Hu) as [H1 H2]. rewrite H8 in H1. rewrite zlen_app.
  replace (zlen (c :: codes us)) with (1 + zlen (codes us)) by (unfold zlen; cbn [length]; lia).
  pose proof (units_le _ _ _ Hu Hn). split_conj; [lia| |done]. zdiv.
Qed.

Lemma flagged_nil : flagged 0 [].
Proof. split; [by unfold in_u|]. intros j. by rewrite Z.bits_0, lookup_nil. Qed.

Lemma flush_spec dstlen v R E R0 us u :
  at_pos v R E → match_length (e_sp v) = size u → zlen (code_buf v) = 17 → (length us < 8)%nat →
  mask v = 2 ^ Z.of_nat (length us) → units R0 (us ++ [u]) (R + size u) → groups (e_dst v) R0 → zlen (e_dst v) ≤ dstlen →
  code_buf_ptr v = 1 + zlen (codes (us ++ [u])) →
  (∃ c, flagged c (us ++ [u]) ∧ take (Z.to_nat (code_buf_ptr v)) (code_buf v) = c :: codes (us ++ [u])) →
  ∃ v' ok, flush dstlen v = Ok (v', ok) ∧ zlen (e_dst v') ≤ dstlen ∧ (n + n / 8 ≤ dstlen → ok = true) ∧
    (ok = true → at_pos v' R E ∧ match_length (e_sp v') = size u ∧
      ∃ R1 us1, groups (e_dst v') R1 ∧ buffered v' R1 us1 (R + size u)).
Proof.
  intros P Hml Hsz Hlt Hm Hu Hg Hd Hp (c & Hc & Ht). unfold flush. cbn [with_code mask code_buf code_buf_ptr e_dst e_sp e_src e_s e_r e_len].
  assert (at_pos (with_code v (code_buf v) (u8 (mask v << 1)) (code_buf_ptr v)) R E) as P1 by (by destruct P; constructor).
  assert (u8 (mask v << 1) = if decide (length us = 7%nat) then 0 else 2 ^ Z.of_nat (length (us ++ [u]))) as Em.
  { rewrite Hm, length_app, Nat.add_1_r. do 8 (destruct us as [|? us]; [done|]). cbn in Hlt. lia. }
  pose proof (codes_short (us ++ [u])) as Hcs. rewrite length_app in Hcs. cbn [length] in Hcs.
  pose proof (zlen_nonneg (codes (us ++ [u]))) as Hc0.
  rewrite Em. destruct (decide (length us = 7%nat)) as [H7|H7].
  - cbn [Z.eqb]. destruct (send_spec (Z.to_nat (code_buf_ptr v)) dstlen 0 (code_buf v) (e_dst v)) as (dst' & ok & -> & Hl & Hok & Hroom);
      [lia|lia|done|]. cbn [mbind outcome_bind]. change (drop (Z.to_nat 0) (code_buf v)) with (code_buf v) in Hok. rewrite Ht in Hok.
    assert (groups (e_dst v ++ c :: codes (us ++ [u])) (R + size u)) as Hg2.
    { apply groups_snoc with R0; [done|done| |done]. rewrite length_app. cbn. lia. }
    destruct (groups_size _ _ Hg2) as (Hr0 & Hgs & Hn). rewrite zlen_app in Hgs.
    replace (zlen (c :: codes (us ++ [u]))) with (code_buf_ptr v) in Hgs by (rewrite Hp; unfold zlen; cbn [length]; lia).
    assert (n + n / 8 ≤ dstlen → ok = true) as Hroom2 by (intros Hn8; apply Hroom; clear - Hgs Hn Hn8 Hp Hc0 Hr0; zdiv).
    destruct ok.
    + rewrite aset_Ok by lia. cbn [mbind outcome_bind]. eexists _, true. split; [reflexivity|].
      split_conj; [done|done|]. intros _. split; [by destruct P; constructor|]. split; [done|].
      exists (R + size u), []. cbn [e_dst with_code]. rewrite Hok by done. split; [done|].
      constructor; cbn; [constructor|lia|by rewrite zlen_insert|done|done|].
      exists 0. split; [apply flagged_nil|]. destruct (code_buf v); [done|]. done.
    + eexists _, false. split; [reflexivity|]. split_conj; done.
  - rewrite (proj2 (Z.eqb_neq _ 0)) by (apply Z.pow_nonzero; lia). eexists _, true. split; [reflexivity|]. split_conj; [done|done|].
    intros _. split; [by destruct P; constructor|]. split; [done|]. exists R0, (us ++ [u]). split; [done|].
    constructor; cbn [mask code_buf code_buf_ptr with_code]; [done|rewrite length_app; cbn; lia|done|done|done|by exists c].
Qed.

(** ** Moving the window *)

Definition same_code (v v' : encode_vars) : Prop :=
  e_dst v' = e_dst v ∧ code_buf v' = code_buf v ∧ mask v' = mask v ∧ code_buf_ptr v' = code_buf_ptr v.

Lemma drop_cons_inv E c src : 0 ≤ E → drop (Z.to_nat E) X = c :: src → E < n ∧ c = V E ∧ src = drop (Z.to_nat (E + 1)) X.
Proof.
  intros HE Ed. split_conj.
  - apply (f_equal length) in Ed. rewrite length_drop in Ed. cbn in Ed. unfold n, zlen. lia.
  - unfold LzssWindow.V. rewrite (proj2 (Z.ltb_ge E 0)) by lia. unfold zget. by rewrite <- (Nat.add_0_r (Z.to_nat E)), <- lookup_drop, Ed.
  - replace (Z.to_nat (E + 1)) with (Z.to_nat E + 1)%nat by lia. by rewrite <- drop_drop, Ed.
Qed.

Lemma drop_nil_inv E : 0 ≤ E → drop (Z.to_nat E) X = [] → n ≤ E.
Proof. intros HE Ed. apply (f_equal length) in Ed. rewrite length_drop in Ed. cbn in Ed. unfold n, zlen. lia. Qed.

Lemma slide_spec k v R E : at_pos v R E → Z.of_nat k ≤ E - R →
  ∃ j v' E', slide k v = Ok (j, v') ∧ (j ≤ k)%nat ∧ same_code v v' ∧ at_pos v' (R + Z.of_nat (k - j)) E' ∧
    Z.of_nat j ≤ E' - (R + Z.of_nat (k - j)) ∧ (found (e_sp v) R ∨ (j < k)%nat → found (e_sp v') (R + Z.of_nat (k - j))) ∧
    ((0 < j)%nat → E' = n).
Proof.
  revert v R E. induction k as [|k IH]; intros v R E P Hk; cbn [slide].
  { exists O, v, E. cbn. rewrite Z.add_0_r. split_conj; try done; try lia. intros [?|?]; [done|lia]. }
  pose proof (ap_range _ _ _ P) as HR. pose proof (ap_end _ _ _ P) as HE. rewrite (ap_src _ _ _ P).
  destruct (drop (Z.to_nat E) X) as [|c src] eqn:Ed.
  { apply drop_nil_inv in Ed; [|lia]. exists (S k), v, E. rewrite Nat.sub_diag, Z.add_0_r. split_conj; try done; try lia. intros [?|?]; [done|lia]. }
  apply drop_cons_inv in Ed as (Hlt & -> & ->); [|lia]. assert (E = R + UPLIM) as -> by lia.
  destruct (slide_step X HX (e_sp v) R (ap_win _ _ _ P)) as (sp1 & E1 & sp2 & E2 & sp3 & E3 & sp4 & E4 & W & F); [lia|].
  rewrite (ap_s _ _ _ P), (ap_r _ _ _ P), E1. cbn [mbind outcome_bind]. rewrite E2. cbn [mbind outcome_bind]. rewrite E3. cbn [mbind outcome_bind].
  rewrite !slot_next, E4. cbn [mbind outcome_bind].
  set (v1 := mkVars _ _ _ _ _ _ _ _ _).
  assert (at_pos v1 (R + 1) (R + 1 + UPLIM)) as P1.
  { constructor; cbn; [done|done|f_equal; lia|rewrite (ap_len _ _ _ P); lia|do 2 f_equal; lia|lia|unfold UPLIM; lia]. }
  destruct (IH v1 (R + 1) (R + 1 + UPLIM) P1) as (j & v' & E' & -> & Hj & Hs & P' & Hj2 & F' & HE'); [lia|].
  exists j, v', E'. replace (R + 1 + Z.of_nat (k - j)) with (R + Z.of_nat (S k - j)) in * by lia.
  split_conj; [done|lia|done|done|done| |done]. intros _. apply F'. by left.
Qed.

Lemma drain_spec k v R : at_pos v R n → Z.of_nat k ≤ n - R →
  ∃ v', drain k v = Ok v' ∧ same_code v v' ∧ e_len v' = n - (R + Z.of_nat k) ∧
    (R + Z.of_nat k < n → at_pos v' (R + Z.of_nat k) n ∧ (found (e_sp v) R ∨ (0 < k)%nat → found (e_sp v') (R + Z.of_nat k))).
Proof.
  revert v R. induction k as [|k IH]; intros v R P Hk; cbn [drain].
  { exists v. cbn. rewrite Z.add_0_r. split_conj; [done..|apply P|]. intros _. split; [done|]. intros [?|?]; [done|lia]. }
  pose proof (ap_range _ _ _ P) as HR. pose proof (ap_end _ _ _ P) as HE.
  destruct (drain_step X (e_sp v) R n (ap_win _ _ _ P)) as (sp1 & E1 & sp2 & E2 & W & F); [lia|].
  rewrite (ap_s _ _ _ P), (ap_r _ _ _ P), E1. cbn [mbind outcome_bind]. rewrite !slot_next, E2, (ap_len _ _ _ P).
  destruct (decide (k = O ∧ R + 1 = n)) as [[-> Hn]|Hmore].
  { replace (n - R - 1) with 0 by lia. cbn. eexists. split; [reflexivity|]. split_conj; [done..|cbn; lia|lia]. }
  destruct (ctrue (n - R - 1)) eqn:Ec; zify_bools; [|exfalso; lia]. cbn [mbind outcome_bind].
  set (v1 := mkVars _ _ _ _ _ _ _ _ _).
  assert (at_pos v1 (R + 1) n) as P1.
  { constructor; cbn; [done|done|f_equal; lia|lia|apply P|lia|lia]. }
  destruct (IH v1 (R + 1) P1) as (v' & -> & Hs & Hl & Hp); [lia|].
  exists v'. replace (R + 1 + Z.of_nat k) with (R + Z.of_nat (S k)) in * by lia. split_conj; [done|done|done|].
  intros Hlt. destruct (Hp Hlt) as [? F']. split; [done|]. intros _. apply F'. by left.
Qed.

(** ** The main loop *)

Lemma same_code_trans v v1 v2 : same_code v v1 → same_code v1 v2 → same_code v v2.
Proof. unfold same_code. intuition congruence. Qed.

(** The window moves over the unit just coded. *)
Lemma move_spec v R E m : at_pos v R E → 1 ≤ m ≤ E - R →
  ∃ j v1 v2, slide (Z.to_nat m) v = Ok (j, v1) ∧ drain j v1 = Ok v2 ∧ same_code v v2 ∧ (0 <? e_len v2) = (R + m <? n) ∧
    (R + m < n → ∃ E', at_pos v2 (R + m) E' ∧ found (e_sp v2) (R + m)).
Proof.
  intros P Hm. destruct (slide_spec (Z.to_nat m) v R E P) as (j & v1 & E1 & -> & Hj & Hs & P1 & Hj1 & F1 & HE1); [lia|].
  pose proof (ap_range _ _ _ P1) as HR. pose proof (ap_end _ _ _ P1) as HE.
  destruct j as [|j].
  - exists O, v1, v1. cbn [drain]. replace (R + Z.of_nat (Z.to_nat m - 0)) with (R + m) in * by lia.
    split_conj; [done..| |].
    + rewrite (ap_len _ _ _ P1). zcases; (done || lia).
    + intros _. exists E1. split; [done|]. apply F1. right. lia.
  - assert (E1 = n) as -> by (apply HE1; lia).
    destruct (drain_spec (S j) v1 _ P1) as (v2 & Ed & Hs2 & Hl & Hp); [lia|]. exists (S j), v1, v2.
    replace (R + Z.of_nat (Z.to_nat m - S j) + Z.of_nat (S j)) with (R + m) in * by lia.
    split_conj; [done|done|by eapply same_code_trans| |].
    + rewrite Hl. zcases; (done || lia).
    + intros Hlt. destruct (Hp Hlt) as [? F2]. exists n. split; [done|]. apply F2. right. lia.
Qed.

Lemma buffered_same v v' R0 us R : same_code v v' → buffered v R0 us R → buffered v' R0 us R.
Proof. intros (_ & Eb & Em & Ep) []. constructor; rewrite ?Eb, ?Em, ?Ep; done. Qed.

Lemma encode_loop_spec fuel dstlen v R E R0 us :
  at_pos v R E → found (e_sp v) R → buffered v R0 us R → groups (e_dst v) R0 → zlen (e_dst v) ≤ dstlen → n - R < Z.of_nat fuel →
  ∃ v' ok, encode_loop fuel dstlen v = Ok (v', ok) ∧ zlen (e_dst v') ≤ dstlen ∧ (n + n / 8 ≤ dstlen → ok = true) ∧
    (ok = true → ∃ R1 us1, groups (e_dst v') R1 ∧ buffered v' R1 us1 n).
Proof.
  revert v R E R0 us. induction fuel as [|fuel IH]; intros v R E R0 us P F Bf Hg Hd Hf;
    pose proof (ap_range _ _ _ P) as HR; pose proof (ap_end _ _ _ P) as HE; [lia|]. cbn [encode_loop].
  destruct (chosen_valid v R E P F) as (u & Hch & Hv & Hsz).
  destruct (put_unit_spec v R E R0 us u P Hch Hv Bf) as (v1 & -> & P1 & Hml & Hd1 & Hm1 & Hs1 & Hp1 & Hc1). cbn [mbind outcome_bind].
  destruct (valid_size _ _ Hv) as (Hu1 & Hun & _).
  destruct (flush_spec dstlen v1 R E R0 us u) as (v2 & ok & -> & Hl2 & Hroom & Hok);
    [done..|apply Bf|rewrite Hm1; apply Bf|apply units_snoc; [apply Bf|done]|by rewrite Hd1|by rewrite Hd1|done|done|].
  cbn [mbind outcome_bind]. destruct ok; [|by exists v2, false].
  destruct (Hok eq_refl) as (P2 & Hml2 & R1 & us1 & Hg1 & Bf1). rewrite Hml2.
  destruct (move_spec v2 R E (size u) P2) as (j & v3 & v4 & -> & Edr & Hs & Hlen & Hnext); [lia|].
  cbn [mbind outcome_bind]. rewrite Edr. cbn [mbind outcome_bind]. rewrite Hlen.
  apply (buffered_same v2 v4) in Bf1; [|done]. destruct Hs as (Hdst & _). rewrite <- Hdst in Hg1, Hl2.
  destruct (Z.ltb_spec (R + size u) n) as [Hlt|Hge].
  - destruct (Hnext Hlt) as (E' & P4 & F4). apply (IH v4 (R + size u) E' R1 us1); try done. lia.
  - assert (R + size u = n) as En by lia. rewrite En in Bf1. exists v4, true. split_conj; [done..|]. intros _. by exists R1, us1.
Qed.

(** ** The compressor *)

(** What [compress_lzss] returns: always a result, within the destination;
    where it reports success the code of the text; success, when there is
    room for the flags. *)
Lemma compress_lzss_spec junk dstlen : zlen junk = 17 → 0 ≤ dstlen →
  ∃ bs ok, compress_lzss true junk dstlen X = Ok (bs, ok) ∧ zlen bs ≤ dstlen ∧
    (ok = true → 0 < n ∧ stream bs) ∧ (0 < n → n + (n + 7) / 8 ≤ dstlen → ok = true).
Proof.
  intros Hj Hd. unfold compress_lzss. destruct (init_state_spec X) as (sp0 & -> & S0 & T0 & N0). cbn [mbind outcome_bind].
  rewrite aset_Ok by lia. cbn [mbind outcome_bind]. pose proof (zlen_nonneg X) as Hn. fold n in Hn.
  destruct (read_ahead_spec X HX (Z.to_nat UPLIM) sp0 0 X (λ _, 0)) as (sp1 & m & -> & Hm & T1 & N1 & S1); try done.
  cbn [mbind outcome_bind]. fold n in Hm. replace (0 + Z.of_nat (Z.to_nat UPLIM)) with UPLIM in Hm by done.
  assert (UPLIM = 18) as EU by done.
  destruct (Z.eqb_spec m 0) as [Hz|Hnz].
  { exists [], false. split_conj; [done|done|done|]. intros; lia. }
  destruct (first_inserts X sp1 m) as (sp2 & Ec & sp3 & Ei & W & F); [apply start_bytes; [done|lia]|by eexists|done|].
  rewrite Ec. cbn [mbind outcome_bind]. rewrite Ei. cbn [mbind outcome_bind].
  destruct (encode_loop_spec (S (length X)) dstlen (mkVars sp3 (drop (Z.to_nat m) X) [] (<[Z.to_nat 0:=0]> junk) 1 1 0 (RBSIZE - UPLIM) m) 0 m 0 [])
    as (v & ok & -> & Hl & Hroom & Hok).
  { constructor; cbn; [done|done|done|lia|done|lia|lia]. }
  { done. }
  { constructor; cbn; [constructor|lia|by rewrite zlen_insert|done|done|]. exists 0. split; [apply flagged_nil|]. by destruct junk. }
  { constructor. } { done. } { unfold n, zlen. lia. }
  cbn [mbind outcome_bind]. destruct ok.
  2:{ exists (e_dst v), false. split_conj; [done..|]. intros _ Hr. apply Hroom. clear - Hr Hn. zdiv. }
  destruct (Hok eq_refl) as (R1 & us1 & Hg & Bf). destruct (bf_codes _ _ _ _ Bf) as (c & Hfl & Htk).
  pose proof (bf_ptr _ _ _ _ Bf) as Hp. pose proof (bf_short _ _ _ _ Bf) as H8. pose proof (codes_short us1) as Hcs.
  pose proof (zlen_nonneg (codes us1)) as Hc0. destruct (groups_size _ _ Hg) as (HR1 & Hgs & HRn).
  destruct (Z.ltb_spec 1 (code_buf_ptr v)) as [Hlt|Hge].
  - destruct (send_spec (Z.to_nat (code_buf_ptr v)) dstlen 0 (code_buf v) (e_dst v)) as (bs & ok & -> & Hbl & Hbs & Hbroom);
      [done|rewrite (bf_size _ _ _ _ Bf); lia|done|].
    exists bs, ok. split_conj; [done|done| |].
    + intros E. split; [lia|]. exists (e_dst v), R1. split; [done|]. right. exists c, us1. split_conj; [done|intros ->; unfold zlen in *; cbn in *; lia|done|apply Bf|].
      rewrite (Hbs E). f_equal. exact Htk.
    + intros _ Hr. apply Hbroom. destruct (units_length _ _ _ (bf_units _ _ _ _ Bf)) as [Hl1 Hl2].
      assert (1 ≤ Z.of_nat (length us1)) by (destruct us1; [unfold zlen in *; cbn in *; lia|cbn; lia]).
      clear - Hgs Hl1 Hl2 Hp Hr HR1 H Hlt. zdiv.
  - exists (e_dst v), true. split_conj; [done|done| |done]. intros _. split; [lia|]. exists (e_dst v), R1. split; [done|]. left. split; [done|].
    assert (us1 = []) as ->.
    { destruct us1 as [|u us1]; [done|]. exfalso. unfold codes in *. cbn [mbind list_bind] in *. rewrite zlen_app in *.
      pose proof (zlen_nonneg (us1 ≫= code)). assert (1 ≤ zlen (code u)) by (destruct u; unfold zlen; cbn; lia). lia. }
    pose proof (bf_units _ _ _ _ Bf) as Hu. by inversion Hu.
Qed.
End units.
End LzssEncode.
