(* ===== verification/LzssDecode.v ===== *)
(** * The LZSS decoder, and back

    [decompress_lzss] of [Lzss] is safe on any input, and on what
    [compress_lzss] wrote it gives the text back. *)

From Stdlib Require Import ZArith Lia.
From S2P Require Import Prelude Lzss LzssTree LzssWindow LzssEncode.

Module LzssDecode.

Import Lzss LzssWindow LzssEncode.
Open Scope c_scope.

Lemma mask_range x : 0 ≤ (x & (RBSIZE - 1)) < RBSIZE.
Proof. change (RBSIZE - 1) with (Z.ones 12). rewrite land_ones_wrap by lia. by apply (wrap_range 12). Qed.

(** ** Any input *)

Section safe.
  Context (dstlen : Z).

Record sane (v : decode_vars) : Prop := mkSane {
  sn_text : zlen (d_text v) = RBSIZE + UPLIM - 1;
  sn_bytes : bytes_ok (d_text v);
  sn_r : 0 ≤ d_r v < RBSIZE;
  sn_src : bytes_ok (d_src v);
  sn_dst : bytes_ok (d_dst v);
  sn_room : zlen (d_dst v) ≤ dstlen
}.

Lemma sane_flags v f : sane v → sane (set_flags v f).
Proof. intros []. by constructor. Qed.

Lemma put_byte_sane c v : sane v → in_u 8 c →
  ∃ o, put_byte dstlen c v = Ok o ∧ match o with Some v' => sane v' ∧ d_src v' = d_src v | None => True end.
Proof.
  intros [Ht Hb Hr Hs Hd Hl] Hc. unfold put_byte. case_bool; [|by exists None].
  rewrite aset_Ok by (unfold UPLIM in *; lia). eexists. split; [reflexivity|]. split; [|done].
  constructor; cbn; [by rewrite zlen_insert|by apply bytes_ok_insert|apply mask_range|done|by apply Forall_app; auto|].
  rewrite zlen_app. unfold zlen at 2. cbn. lia.
Qed.

Lemma copy_match_sane k i o v : sane v → ∃ v', copy_match k dstlen i o v = Ok v' ∧ sane v' ∧ d_src v' = d_src v.
Proof.
  revert o v. induction k as [|k IH]; intros o v Hv; cbn [copy_match]; [by exists v|].
  pose proof (mask_range (i + o)) as Hm. rewrite aget_zget by (rewrite (sn_text _ Hv); unfold UPLIM; lia). cbn [mbind outcome_bind].
  destruct (put_byte_sane (zget (d_text v) ((i + o) & (RBSIZE - 1))) v Hv) as ([v'|] & -> & Ho); [apply bytes_ok_zget, Hv| |by exists v].
  destruct Ho as [Hv' Es]. cbn [mbind outcome_bind]. destruct (IH (o + 1) v' Hv') as (v2 & -> & ? & ?). exists v2. split_conj; [done..|congruence].
Qed.

Lemma next_byte_sane v : sane v →
  match next_byte v with
  | Some (c, v') => in_u 8 c ∧ sane v' ∧ length (d_src v) = S (length (d_src v'))
  | None => True
  end.
Proof.
  intros [Ht Hb Hr Hs Hd Hl]. unfold next_byte. destruct (d_src v) as [|c rest]; [done|]. inversion_clear Hs. split_conj; [done| |done]. by constructor.
Qed.

(** A round that goes on has read a byte. *)
Definition progress (k : nat) (o : outcome (decode_vars + decode_vars)) : Prop :=
  ∃ s, o = Ok s ∧ match s with inl v => sane v ∧ (length (d_src v) < k)%nat | inr v => sane v end.

Lemma decode_unit_sane v : sane v → progress (length (d_src v)) (decode_unit dstlen v).
Proof.
  intros Hv. unfold decode_unit, progress. pose proof (next_byte_sane v Hv) as H1. case_bool.
  - destruct (next_byte v) as [[c v1]|]; [|by eexists]. destruct H1 as (Hc & Hv1 & Hl).
    destruct (put_byte_sane c v1 Hv1 Hc) as ([v2|] & -> & Ho); cbn [mbind outcome_bind]; eexists; (split; [reflexivity|]); [|done].
    destruct Ho as [? ->]. split; [done|lia].
  - destruct (next_byte v) as [[c v1]|]; [|by eexists]. destruct H1 as (Hc & Hv1 & Hl).
    pose proof (next_byte_sane v1 Hv1) as H2. destruct (next_byte v1) as [[j v2]|]; [|by eexists]. destruct H2 as (Hc2 & Hv2 & Hl2).
    destruct (copy_match_sane (Z.to_nat ((j & 0x0F) + THRESHOLD + 1)) (c .| ((j & 0xF0) << 4)) 0 v2 Hv2) as (v3 & -> & Hv3 & Es).
    cbn [mbind outcome_bind]. exists (inl v3). split; [reflexivity|]. split; [done|]. rewrite Es. lia.
Qed.

Lemma decode_round_sane v : sane v → progress (length (d_src v)) (decode_round dstlen v).
Proof.
  intros Hv. unfold decode_round. set (v0 := set_flags v (d_flags v >> 1)).
  assert (sane v0) as Hv0 by (by apply sane_flags). case_bool; [|exact (decode_unit_sane v0 Hv0)].
  pose proof (next_byte_sane v0 Hv0) as H1. destruct (next_byte v0) as [[c v1]|]; [|by eexists].
  destruct H1 as (Hc & Hv1 & Hl). destruct (decode_unit_sane (set_flags v1 (c .| 0xFF00)) (sane_flags _ _ Hv1)) as (s & -> & Hs).
  eexists. split; [reflexivity|]. destruct s as [v2|v2]; [|done]. destruct Hs as [? Hlt]. split; [done|]. cbn in Hl, Hlt. lia.
Qed.

Lemma decode_loop_sane fuel v : sane v → (length (d_src v) < fuel)%nat → ∃ v', decode_loop fuel dstlen v = Ok v' ∧ sane v'.
Proof.
  revert v. induction fuel as [|fuel IH]; intros v Hv Hf; [lia|]. cbn [decode_loop].
  destruct (decode_round_sane v Hv) as (s & -> & Hs). cbn [mbind outcome_bind]. destruct s as [v1|v1]; [|by exists v1].
  destruct Hs as [Hv1 Hl]. apply IH; [done|lia].
Qed.
End safe.

(** The ring buffer that the decoder starts with. *)
Lemma decode_start junk : zlen junk = RBSIZE + UPLIM - 1 →
  ∃ t, fill junk 0 (Z.to_nat (RBSIZE - UPLIM)) 32 = Ok t ∧ zlen t = zlen junk ∧ (bytes_ok junk → bytes_ok t) ∧
    ∀ j, 0 ≤ j < RBSIZE - UPLIM → zget t j = 32.
Proof.
  intros Hj. destruct (fill_spec junk 0 (Z.to_nat (RBSIZE - UPLIM)) 32) as (t & -> & Hl & Hg);
    [lia|rewrite Hj; unfold RBSIZE, UPLIM; lia|].
  exists t. split_conj; [done|done| |].
  - intros Hb. apply Forall_forall. intros b Hin. apply list_elem_of_lookup in Hin as [i Hi].
    assert (zget t (Z.of_nat i) = b) as <- by (unfold zget; by rewrite Nat2Z.id, Hi).
    rewrite Hg by lia. case_bool; [unfold in_u; lia|by apply bytes_ok_zget].
  - intros j Hr. rewrite Hg by lia. rewrite (proj2 (Z.leb_le 0 j)), (proj2 (Z.ltb_lt j _)) by (unfold RBSIZE, UPLIM in *; lia). done.
Qed.

Lemma decompress_lzss_total (junk src : list Z) (dstlen : Z) :
  zlen junk = RBSIZE + UPLIM - 1 → bytes_ok junk → bytes_ok src → 0 ≤ dstlen →
  ∃ out, decompress_lzss junk dstlen src = Ok out ∧ zlen out ≤ dstlen ∧ bytes_ok out.
Proof.
  intros Hj Hb Hs Hd. unfold decompress_lzss. destruct (decode_start junk Hj) as (t & -> & Hl & Hbt & _). cbn [mbind outcome_bind].
  destruct (decode_loop_sane dstlen (S (length src)) (mkDec src [] t (RBSIZE - UPLIM) 0)) as (v & -> & Hv).
  { constructor; cbn; [congruence|by apply Hbt|done|done|constructor|done]. } { cbn. lia. }
  exists (d_dst v). split_conj; [done|apply Hv..].
Qed.

(** On any bytes, [decompress_lzss] reads and writes only inside its
    buffers, ends within one round per source byte and writes no more bytes
    than the destination holds. *)
Theorem decompress_lzss_safe (junk src : list Z) (dstlen : Z) :
  zlen junk = RBSIZE + UPLIM - 1 → bytes_ok junk → bytes_ok src → 0 ≤ dstlen →
  ∃ out, decompress_lzss junk dstlen src = Ok out ∧ zlen out ≤ dstlen ∧ bytes_ok out.
Proof. apply decompress_lzss_total. Qed.

Lemma decompress_lzss_safe_witness :
  ∃ out, decompress_lzss (replicate (Z.to_nat 4113) 7) 5 [2; 0xfe; 0xff; 65; 0] = Ok out ∧ zlen out ≤ 5 ∧ bytes_ok out.
Proof.
  apply (decompress_lzss_safe (replicate (Z.to_nat 4113) 7) [2; 0xfe; 0xff; 65; 0] 5);
    [vm_compute; reflexivity|apply Forall_replicate; unfold in_u; lia|repeat constructor; unfold in_u; lia|done].
Defined.

(** ** The compressor's output *)

Lemma bit8 x : ((x & 0x100) =? 0) = negb (Z.testbit x 8).
Proof.
  destruct (Z.testbit x 8) eqn:E; cbn [negb].
  - apply Z.eqb_neq. intros H. apply (f_equal (λ y, Z.testbit y 8)) in H. rewrite Z.land_spec, E in H. done.
  - apply Z.eqb_eq. apply Z.bits_inj_0. intros i. rewrite Z.land_spec. change 0x100 with (2 ^ 8).
    destruct (decide (i = 8)) as [->|]; [by rewrite E|]. by rewrite Z.pow2_bits_false, andb_false_r by lia.
Qed.

Lemma bit0 x : ctrue (x & 1) = Z.testbit x 0.
Proof. change 1 with (Z.ones 1). rewrite land_ones_wrap by lia. unfold wrap, ctrue. rewrite Z.bit0_odd, Zmod_odd. by destruct (Z.odd x). Qed.

(** The flags as they are counted down. *)
Definition flags (c j : Z) : Z := (c .| 0xFF00) >> j.

Lemma flags_bit c j i : in_u 8 c → 0 ≤ j → 0 ≤ i →
  Z.testbit (flags c j) i = if i + j <? 8 then Z.testbit c (i + j) else i + j <? 16.
Proof.
  intros Hc Hj Hi. unfold flags. rewrite Z.shiftr_spec, Z.lor_spec by lia. change 0xFF00 with (Z.ones 8 << 8).
  rewrite Z.shiftl_spec by lia. destruct (Z.ltb_spec (i + j) 8) as [Hlt|Hge].
  - by rewrite (Z.testbit_neg_r (Z.ones 8)), orb_false_r by lia.
  - rewrite (testbit_in_u 8 c) by (done || lia). cbn [orb]. destruct (Z.ltb_spec (i + j) 16).
    + apply Z.ones_spec_low. lia.
    + apply Z.ones_spec_high. lia.
Qed.

Lemma flags_next c j : 0 ≤ j → flags c j >> 1 = flags c (j + 1).
Proof. intros. unfold flags. by rewrite Z.shiftr_shiftr by lia. Qed.

(** Position and length of a match, from the two bytes. *)
Lemma match_code p l : 0 ≤ p < RBSIZE → THRESHOLD < l ≤ UPLIM →
  let i := u8 p in let j := u8 (((p >> 4) & 0xF0) .| u64 (l - (THRESHOLD + 1))) in
  i .| ((j & 0xF0) << 4) = p ∧ (j & 0x0F) + THRESHOLD + 1 = l.
Proof.
  intros Hp Hl. assert (forallb (fun p => forallb (fun l =>
      let i := u8 p in let j := u8 (((p >> 4) & 0xF0) .| u64 (l - (THRESHOLD + 1))) in
      (i .| ((j & 0xF0) << 4) =? p) && ((j & 0x0F) + THRESHOLD + 1 =? l)) (seqZ 3 16)) (seqZ 0 RBSIZE) = true) as H
    by (vm_compute; reflexivity).
  rewrite forallb_forall in H. specialize (H p). rewrite forallb_forall in H.
  assert (((λ l, let i := u8 p in let j := u8 (((p >> 4) & 0xF0) .| u64 (l - (THRESHOLD + 1))) in
      (i .| ((j & 0xF0) << 4) =? p) && ((j & 0x0F) + THRESHOLD + 1 =? l)) l) = true) as E.
  { apply H; apply list_elem_of_In, elem_of_seqZ; unfold THRESHOLD, UPLIM in *; lia. }
  cbv zeta beta in E. intros i j. apply andb_true_iff in E as [E1 E2]. split; by apply Z.eqb_eq.
Qed.

Section decode.
  Context (X : list Z) (dstlen : Z).
Let n := zlen X.
  Abbreviation V := (V X).
  Hypothesis Hroom : n ≤ dstlen.

(** The decoder has written the text up to position [R]. *)
Record decoded (v : decode_vars) (R : Z) : Prop := mkDecoded {
  dc_dst : d_dst v = take (Z.to_nat R) X;
  dc_r : d_r v = slot R;
  dc_size : zlen (d_text v) = RBSIZE + UPLIM - 1;
  dc_ring A : - (RBSIZE - UPLIM) ≤ A < R → R - RBSIZE ≤ A → zget (d_text v) (slot A) = V A;
  dc_range : 0 ≤ R ≤ n
}.

Lemma decoded_same v v' R : d_dst v' = d_dst v → d_r v' = d_r v → d_text v' = d_text v → decoded v R → decoded v' R.
Proof. intros E1 E2 E3 []. constructor; rewrite ?E1, ?E2, ?E3; done. Qed.

Lemma put_byte_decoded v R : decoded v R → R < n →
  ∃ v', put_byte dstlen (V R) v = Ok (Some v') ∧ decoded v' (R + 1) ∧ d_src v' = d_src v ∧ d_flags v' = d_flags v.
Proof.
  intros [Hd Hr Hs Hg HR] Hlt. pose proof (slot_range R) as Hsl. unfold put_byte.
  assert (zlen (d_dst v) = R) as -> by (rewrite Hd; unfold n, zlen in *; rewrite length_take; lia).
  rewrite (proj2 (Z.ltb_lt R dstlen)), Hr by lia. rewrite aset_Ok by (rewrite Hs; unfold NIL, UPLIM in *; lia). cbn [mbind outcome_bind].
  eexists. split; [reflexivity|]. split; [|done]. constructor; cbn [d_dst d_r d_text].
  - rewrite Hd. replace (Z.to_nat (R + 1)) with (S (Z.to_nat R)) by lia. symmetry. apply take_S_r.
    destruct (lookup_lt_is_Some_2 X (Z.to_nat R)) as [x Hx]; [unfold n, zlen in *; lia|].
    unfold LzssWindow.V. rewrite (proj2 (Z.ltb_ge R 0)) by lia. unfold zget. by rewrite Hx.
  - apply slot_next.
  - by rewrite zlen_insert.
  - intros A HA HA2. pose proof (slot_range A). rewrite zget_insert by (rewrite ?Hs; unfold NIL, UPLIM in *; lia).
    destruct (Z.eqb_spec (slot R) (slot A)) as [E|E].
    + apply slot_inj in E; [by rewrite E|lia].
    + apply Hg; [|lia]. assert (A ≠ R) by congruence. lia.
  - lia.
Qed.

Lemma copy_match_decoded k o v R A : decoded v R → R + Z.of_nat k ≤ n →
  -UPLIM ≤ A → A + o < R → R - (RBSIZE - UPLIM) ≤ A + o → 0 ≤ o →
  (∀ i, 0 ≤ i < Z.of_nat k → V (R + i) = V (A + o + i)) →
  ∃ v', copy_match k dstlen (slot A) o v = Ok v' ∧ decoded v' (R + Z.of_nat k) ∧ d_src v' = d_src v ∧ d_flags v' = d_flags v.
Proof.
  revert o v R. induction k as [|k IH]; intros o v R Hv Hn HA Hlt Hlo Ho Heq; cbn [copy_match].
  { exists v. by rewrite Z.add_0_r. }
  assert ((slot A + o) & (RBSIZE - 1) = slot (A + o)) as ->.
  { change (RBSIZE - 1) with (Z.ones 12). rewrite land_ones_wrap by lia. unfold wrap. change (2 ^ 12) with RBSIZE. slots. }
  pose proof (slot_range (A + o)). rewrite aget_zget by (rewrite (dc_size _ _ Hv); unfold NIL, UPLIM in *; lia). cbn [mbind outcome_bind].
  rewrite (dc_ring _ _ Hv) by (unfold RBSIZE, UPLIM in *; lia).
  replace (V (A + o)) with (V R) by (rewrite <- (Z.add_0_r R), Heq by lia; f_equal; lia).
  destruct (put_byte_decoded v R Hv) as (v1 & -> & Hv1 & Es & Ef); [lia|]. cbn [mbind outcome_bind].
  destruct (IH (o + 1) v1 (R + 1) Hv1) as (v2 & -> & Hv2 & Es2 & Ef2); try lia.
  { intros i Hi. replace (R + 1 + i) with (R + (i + 1)) by lia. rewrite Heq by lia. f_equal. lia. }
  exists v2. replace (R + Z.of_nat (S k)) with (R + 1 + Z.of_nat k) by lia. split_conj; [done|done|congruence..].
Qed.

Lemma decode_unit_decoded v R u rest : decoded v R → valid X R u → d_src v = code u ++ rest → Z.testbit (d_flags v) 0 = is_lit u →
  ∃ v', decode_unit dstlen v = Ok (inl v') ∧ decoded v' (R + size u) ∧ d_src v' = rest ∧ d_flags v' = d_flags v.
Proof.
  intros Hv Hu Es Hb. unfold decode_unit. rewrite bit0, Hb. unfold next_byte. rewrite Es. destruct u as [c|A l]; cbn [is_lit code app].
  - destruct Hu as [-> Hlt]. destruct (put_byte_decoded (mkDec rest (d_dst v) (d_text v) (d_r v) (d_flags v)) R) as (v' & -> & ?); [by apply (decoded_same v)|done|].
    by exists v'.
  - destruct Hu as (Hl & HA & HA2 & Hn & Heq). cbn [d_src d_dst d_text d_r d_flags].
    destruct (match_code (slot A) l) as [-> ->]; [apply slot_range|done|].
    destruct (copy_match_decoded (Z.to_nat l) 0 (mkDec rest (d_dst v) (d_text v) (d_r v) (d_flags v)) R A) as (v' & -> & Hv' & ?);
      try (unfold THRESHOLD in *; lia); [by apply (decoded_same v)|intros i Hi; rewrite Z.add_0_r; apply Heq; lia|].
    exists v'. replace (R + Z.of_nat (Z.to_nat l)) with (R + l) in Hv' by (unfold THRESHOLD in *; lia). done.
Qed.

(** [k] rounds of the loop lead from one state to another. *)
Definition runs (k : nat) (v v' : decode_vars) : Prop :=
  ∀ fuel, decode_loop (k + fuel) dstlen v = decode_loop fuel dstlen v'.

Lemma runs_trans k k' v1 v2 v3 : runs k v1 v2 → runs k' v2 v3 → runs (k + k') v1 v3.
Proof. intros H1 H2 fuel. by rewrite <- Nat.add_assoc, H1, H2. Qed.

Lemma runs_round v v' : decode_round dstlen v = Ok (inl v') → runs 1 v v'.
Proof. intros E fuel. cbn [Nat.add decode_loop]. by rewrite E. Qed.

(** The rest of a group: [j] of its units are behind. *)
Lemma units_decoded us : ∀ v R R' c j rest, decoded v R → units X R us R' → in_u 8 c →
  1 ≤ j → j + Z.of_nat (length us) ≤ 8 → d_flags v = flags c (j - 1) → d_src v = codes us ++ rest →
  (∀ i u, us !! i = Some u → Z.testbit c (j + Z.of_nat i) = is_lit u) →
  ∃ k v', runs k v v' ∧ (k ≤ length (codes us))%nat ∧ decoded v' R' ∧ d_src v' = rest ∧
    d_flags v' = flags c (j + Z.of_nat (length us) - 1).
Proof.
  induction us as [|u us IH]; intros v R R' c j rest Hv Hu Hc Hj H8 Hf Hs Hb.
  { inversion Hu; subst. exists O, v. cbn [length]. rewrite Z.add_0_r. by split_conj. }
  inversion_clear Hu as [|? ? ? ? Hvu Hus]. cbn [length] in *. unfold codes in *. cbn [mbind list_bind] in *. rewrite <- app_assoc in Hs.
  set (v0 := set_flags v (flags c j)).
  destruct (decode_unit_decoded v0 R u ((us ≫= code) ++ rest)) as (v1 & E1 & Hv1 & Es1 & Ef1);
    [by apply (decoded_same v)|done|done| |].
  { change (d_flags v0) with (flags c j). rewrite flags_bit by (done || lia). rewrite (proj2 (Z.ltb_lt (0 + j) 8)) by lia. rewrite Z.add_0_l, <- (Z.add_0_r j). by apply (Hb O). }
  assert (runs 1 v v1) as Hr1.
  { apply runs_round. unfold decode_round. rewrite Hf, flags_next by lia. replace (j - 1 + 1) with j by lia. fold v0.
    change (d_flags v0) with (flags c j). rewrite bit8, flags_bit by (done || lia).
    rewrite (proj2 (Z.ltb_ge (8 + j) 8)), (proj2 (Z.ltb_lt (8 + j) 16)) by lia. exact E1. }
  destruct (IH v1 (R + size u) R' c (j + 1) rest) as (k & v2 & Hr2 & Hk & Hv2 & Es2 & Ef2); try done; try lia.
  { rewrite Ef1. cbn. f_equal. lia. }
  { intros i w Hi. rewrite <- (Hb (S i) w Hi). f_equal. lia. }
  exists (1 + k)%nat, v2. split_conj; [by eapply runs_trans| |done|done|rewrite Ef2; f_equal; lia].
  rewrite length_app. assert (1 ≤ length (code u))%nat by (destruct u; cbn; lia). lia.
Qed.

(** The flags ask for a new flag byte. *)
Definition boundary (v : decode_vars) : Prop := Z.testbit (d_flags v) 9 = false.

Lemma group_decoded us v R R' c rest : decoded v R → boundary v → units X R us R' → flagged c us →
  us ≠ [] → (length us ≤ 8)%nat → d_src v = c :: codes us ++ rest →
  ∃ k v', runs k v v' ∧ (k ≤ length (codes us))%nat ∧ decoded v' R' ∧ d_src v' = rest ∧ (length us = 8%nat → boundary v').
Proof.
  intros Hv Hbd Hu [Hc Hb] Hne H8 Hs. destruct us as [|u us]; [done|]. inversion_clear Hu as [|? ? ? ? Hvu Hus].
  unfold codes in *. cbn [mbind list_bind length] in *. rewrite <- app_assoc in Hs.
  set (v0 := set_flags (mkDec (code u ++ (us ≫= code) ++ rest) (d_dst v) (d_text v) (d_r v) (d_flags v >> 1)) (flags c 0)).
  destruct (decode_unit_decoded v0 R u ((us ≫= code) ++ rest)) as (v1 & E1 & Hv1 & Es1 & Ef1);
    [by apply (decoded_same v)|done|done| |].
  { change (d_flags v0) with (flags c 0). rewrite flags_bit by (done || lia). exact (Hb O). }
  assert (runs 1 v v1) as Hr1.
  { apply runs_round. unfold decode_round. cbn [set_flags d_flags]. rewrite bit8, Z.shiftr_spec by lia.
    change (8 + 1) with 9. rewrite Hbd. cbn [negb]. unfold next_byte. cbn [set_flags d_src d_dst d_text d_r d_flags]. rewrite Hs. exact E1. }
  destruct (units_decoded us v1 (R + size u) R' c 1 rest) as (k & v2 & Hr2 & Hk & Hv2 & Es2 & Ef2); try done; try lia.
  { intros i w Hi. replace (1 + Z.of_nat i) with (Z.of_nat (S i)) by lia. rewrite Hb. change ((u :: us) !! S i) with (us !! i). by rewrite Hi. }
  exists (1 + k)%nat, v2. split_conj; [by eapply runs_trans| |done|done|].
  - rewrite length_app. assert (1 ≤ length (code u))%nat by (destruct u; cbn; lia). unfold codes in Hk. lia.
  - intros Hl. unfold boundary. rewrite Ef2, flags_bit by (done || lia). replace (Z.of_nat (length us)) with 7 by lia. done.
Qed.

Lemma groups_decoded bs R : groups X bs R → ∀ v rest, decoded v 0 → boundary v → d_src v = bs ++ rest →
  ∃ k v', runs k v v' ∧ (k ≤ length bs)%nat ∧ decoded v' R ∧ boundary v' ∧ d_src v' = rest.
Proof.
  induction 1 as [|bs R c us R' Hg IH Hf H8 Hu]; intros v rest Hv Hb Hs.
  { exists O, v. by split_conj. }
  rewrite <- app_assoc in Hs. destruct (IH v _ Hv Hb Hs) as (k & v1 & Hr1 & Hk & Hv1 & Hb1 & Es1).
  destruct (group_decoded us v1 R R' c rest) as (k2 & v2 & Hr2 & Hk2 & Hv2 & Es2 & Hb2); try done; [by destruct us|lia|].
  exists (k + k2)%nat, v2. split_conj; [by eapply runs_trans| |done|by apply Hb2|done]. rewrite length_app. cbn. lia.
Qed.

(** At the end of the source the loop stops. *)
Lemma decode_end fuel v : d_src v = [] → ∃ v', decode_loop (S fuel) dstlen v = Ok v' ∧ d_dst v' = d_dst v.
Proof.
  intros Hs. cbn [decode_loop]. unfold decode_round, decode_unit, next_byte. cbn [set_flags d_src d_dst d_text d_r d_flags]. rewrite Hs.
  repeat case_bool; cbn; by eexists.
Qed.

Lemma stream_decoded junk bs : stream X bs → zlen junk = RBSIZE + UPLIM - 1 → decompress_lzss junk dstlen bs = Ok X.
Proof.
  intros (bs0 & R0 & Hg & Hbs) Hj. unfold decompress_lzss. destruct (decode_start junk Hj) as (t & -> & Hl & _ & Ht). cbn [mbind outcome_bind].
  set (v0 := mkDec bs [] t (RBSIZE - UPLIM) 0). pose proof (zlen_nonneg X) as Hn.
  assert (decoded v0 0) as Hv0.
  { constructor; cbn; [done|done|congruence| |fold n in Hn; lia]. intros A HA _.
    assert (slot A = A + (RBSIZE - UPLIM)) as -> by slots. rewrite Ht by lia. unfold LzssWindow.V. by rewrite (proj2 (Z.ltb_lt A 0)) by lia. }
  assert (∃ k v', runs k v0 v' ∧ (k ≤ length bs)%nat ∧ decoded v' n ∧ d_src v' = []) as (k & v1 & Hr & Hk & Hv1 & Es).
  { destruct Hbs as [[-> ->]|(c & us & Hf & Hne & H8 & Hu & ->)].
    - destruct (groups_decoded bs0 n Hg v0 []) as (k & v1 & ?); [done|done|by rewrite app_nil_r|]. exists k, v1. naive_solver.
    - destruct (groups_decoded bs0 R0 Hg v0 (c :: codes us)) as (k & v1 & Hr1 & Hk1 & Hv1 & Hb1 & Es1); [done..|].
      destruct (group_decoded us v1 R0 n c []) as (k2 & v2 & Hr2 & Hk2 & Hv2 & Es2 & _); try done; [lia|by rewrite app_nil_r|].
      exists (k + k2)%nat, v2. split_conj; [by eapply runs_trans| |done|done]. rewrite length_app. cbn [length]. lia. }
  assert (S (length bs) = k + S (length bs - k))%nat as -> by lia. rewrite Hr.
  destruct (decode_end (length bs - k) v1 Es) as (v2 & -> & Ed). cbn [mbind outcome_bind].
  rewrite Ed, (dc_dst _ _ Hv1). f_equal. apply take_ge. unfold n, zlen. lia.
Qed.
End decode.

(** ** Round trip *)

(** The bytes decode to the text, in any destination with room for it and
    whatever the uninitialised part of the ring buffer holds. *)
Definition decodes_to (bs X : list Z) : Prop :=
  ∀ junk room, zlen junk = RBSIZE + UPLIM - 1 → zlen X ≤ room → decompress_lzss junk room bs = Ok X.

(** C4: For any text and any destination, [compress_lzss] ends without touching
    anything outside its arrays, the trees and the ring buffer included, and
    writes no more than the destination holds.  Where it reports success,
    [decompress_lzss] turns what was written back into the text, whatever
    the uninitialised stack holds; and it succeeds on every text that is not
    empty when the destination has room for the text and one flag byte for
    each eight bytes begun. *)
Theorem lzss_roundtrip (X junk : list Z) (cap : Z) : bytes_ok X → zlen junk = 17 → 0 ≤ cap →
  ∃ bs ok, compress_lzss true junk cap X = Ok (bs, ok) ∧ zlen bs ≤ cap ∧
    (ok = true → 0 < zlen X ∧ decodes_to bs X) ∧
    (0 < zlen X → zlen X + (zlen X + 7) / 8 ≤ cap → ok = true).
Proof.
  intros HX Hj Hc. destruct (compress_lzss_spec X HX junk cap Hj Hc) as (bs & ok & E & Hl & Hok & Hroom).
  exists bs, ok. split_conj; [done|done| |done]. intros Eok. destruct (Hok Eok) as [? Hs]. split; [done|].
  intros junk' room Hj' Hr. by apply (stream_decoded X room Hr).
Qed.

Lemma lzss_roundtrip_witness :
  let X := [97; 98; 97; 98; 97; 98; 97; 98; 33] in
  ∃ bs ok, compress_lzss true (replicate 17 0) 11 X = Ok (bs, ok) ∧ zlen bs ≤ 11 ∧
    (ok = true → 0 < 9 ∧ decodes_to bs X) ∧
    (0 < 9 → 9 + 2 ≤ 11 → ok = true).
Proof.
  apply (lzss_roundtrip [97; 98; 97; 98; 97; 98; 97; 98; 33] (replicate 17 0) 11); [|done|done].
  repeat constructor; unfold in_u; lia.
Defined.

(** A match that points at the part of the ring buffer that is not
    initialised copies what the stack holds into the output. *)
Theorem decompress_lzss_reads_stack (b : Z) :
  decompress_lzss (replicate (Z.to_nat (RBSIZE + UPLIM - 1)) b) 3 [0; 0xEE; 0xF0] = Ok [b; b; b].
Proof. vm_compute. reflexivity. Qed.

End LzssDecode.
