(* ===== verification/LiluCompression.v ===== *)
(** * Lilu's compression interface ([Lilu.kext/Lilu/Sources/kern_compression.cpp])

    [Compression::decompress], [Compression::compress] and [decompressInternal]
    with the buffers they allocate, on the LZSS coder of [Lzss] and the LZVN
    decoder of [Lzvn]; zlib is the kernel's. *)

From Stdlib Require Import ZArith Lia.
From S2P Require Import Prelude Lzvn Lzss LzssTree LzssWindow LzssEncode LzssDecode.

Module LiluCompression.

Import Lzss LzssDecode.
Open Scope c_scope.

Definition ModeLZVN := 0x6E767A6C.
Definition ModeLZSS := 0x73737A6C.
Definition ModeZLIB := 0x9C787A6C.
Definition BufferMax := 1024 * 1024 * 1024.

(** [sizeof(encode_state)] *)
Definition sizeof_encode_state := 4 * (4097 + 4353 + 4097) + 4113 + 3 + 8.

(** The kernel: its allocator, its zlib, and what the stack holds. *)
Record kernel := mkKernel {
  kern_os_malloc : Z → option (list Z);
  kern_os_realloc : list Z → Z → option (list Z);
  inflateInit : Z;
  (** the result, [total_out] and the destination *)
  inflate : list Z → list Z → Z * Z * list Z;
  stack_ring : list Z;
  stack_code : list Z
}.

(** What the code relies on: blocks of the size asked for, [realloc] keeps
    the contents, and zlib stays within [avail_out]. *)
Record kernel_ok (k : kernel) : Prop := mkKernelOk {
  ok_malloc s b : kern_os_malloc k s = Some b → zlen b = s ∧ bytes_ok b;
  ok_realloc b s b' : kern_os_realloc k b s = Some b' → zlen b' = s ∧ ∀ m, 0 ≤ m ≤ s → m ≤ zlen b → take (Z.to_nat m) b' = take (Z.to_nat m) b;
  ok_inflate src dst r t dst' : inflate k src dst = (r, t, dst') → 0 ≤ t ≤ zlen dst ∧ zlen dst' = zlen dst;
  ok_ring : zlen (stack_ring k) = RBSIZE + UPLIM - 1 ∧ bytes_ok (stack_ring k);
  ok_code : zlen (stack_code k) = 17
}.

(** The pointer returned with the bytes behind it, the length passed back,
    the caller's buffer afterwards and how many blocks the call left
    allocated. *)
Record comp_result := mkRes {
  returned : option (list Z);
  length_out : Z;
  caller_buf : option (list Z);
  live : Z
}.

Section compression.
  Context (k : kernel).

(** [Buffer::create<uint8_t>] *)
Definition Buffer_create (size : Z) : option (list Z) :=
  if BufferMax <? size then None else kern_os_malloc k size.

(** [Buffer::resize], whose result the caller ignores *)
Definition Buffer_resize (buf : list Z) (size : Z) : list Z :=
  if BufferMax <? size then buf
  else match kern_os_realloc k buf size with Some b => b | None => buf end.

(** Bytes written to the start of a buffer. *)
Definition overwrite (buf out : list Z) : list Z := out ++ drop (length out) buf.

Definition Z_OK := 0.
Definition Z_STREAM_END := 1.

Definition decompress_zlib (dst src : list Z) : Z * list Z :=
  if negb (inflateInit k =? Z_OK) then (0, dst)
  else
    let '(r, total_out, dst) := inflate k src dst in
    if (r =? Z_STREAM_END) || (r =? Z_OK) then (total_out, dst) else (0, dst).

(** zlib's allocation callbacks.  [IOMalloc] gives an address or zero, [m]
    holds the words at block starts: [alloc_size] of [z_mem], in front of the
    data.  [sizeof(zmem)] is the size of a pointer. *)
Definition z_alloc (IOMalloc : Z → Z) (m : Z → Z) (num_items size : Z) : Z * (Z → Z) :=
  let total := u32 (num_items * size) in
  let allocSize := u32 (total + 8) in
  let zmem := IOMalloc allocSize in
  if ctrue zmem then (zmem + 4, LzssTree.upd m zmem allocSize) else (0, m).

(** The arguments of [IOFree]. *)
Definition z_free (m : Z → Z) (ptr : Z) : Z * Z :=
  let zmem := ptr - 4 in (zmem, m zmem).

(** The [switch]: the size and the buffer. *)
Definition decode (compression : Z) (buf : list Z) (dstlen : Z) (src : list Z) : outcome (Z * list Z) :=
  if compression =? ModeLZSS then
    out ← decompress_lzss (stack_ring k) dstlen src; Ok (zlen out, overwrite buf out)
  else if compression =? ModeLZVN then Lzvn.lzvn_decode_buffer buf dstlen src (zlen src)
  else if compression =? ModeZLIB then Ok (decompress_zlib buf src)
  else Ok (0, buf).

(** [buffer] is the caller's buffer or null. *)
Definition decompressInternal (compression dstlen : Z) (src : list Z) (buffer : option (list Z)) (checkResult : bool)
  : outcome comp_result :=
  let decompressedBuf := match buffer with Some b => Some b | None => Buffer_create dstlen end in
  match decompressedBuf with
  | Some buf =>
      x ← decode compression buf dstlen src;
      let '(size, buf) := x in
      let own := match buffer with Some _ => 0 | None => 1 end in
      let caller := match buffer with Some _ => Some buf | None => None end in
      if negb checkResult || (size =? dstlen) then Ok (mkRes (Some buf) (u32 size) caller own)
      else Ok (mkRes None dstlen caller 0)
  | None => Ok (mkRes None dstlen None 0)
  end.

Definition decompress_exact (compression dstlen : Z) (src : list Z) (buffer : option (list Z)) : outcome comp_result :=
  decompressInternal compression dstlen src buffer true.
Definition decompress_upto (compression dstlen : Z) (src : list Z) (buffer : option (list Z)) : outcome comp_result :=
  decompressInternal compression dstlen src buffer false.

(** [Buffer::create<encode_state>(1)] *)
Definition state_allocated : bool :=
  if BufferMax <? sizeof_encode_state then false
  else match kern_os_malloc k sizeof_encode_state with Some _ => true | None => false end.

Definition compress (compression dstlen : Z) (src : list Z) (buffer : option (list Z)) : outcome comp_result :=
  let compressedBuf := match buffer with Some b => Some b | None => Buffer_create dstlen end in
  match compressedBuf with
  | Some buf =>
      x ← (if compression =? ModeLZSS then compress_lzss state_allocated (stack_code k) dstlen src
           else Ok ([], false));
      let '(out, endptr) := x in
      let buf := overwrite buf out in
      if endptr : bool then
        let dstlen := u32 (zlen out) in
        match buffer with
        | Some _ => Ok (mkRes (Some buf) dstlen (Some buf) 0)
        | None => Ok (mkRes (Some (Buffer_resize buf dstlen)) dstlen None 1)
        end
      else Ok (mkRes None dstlen (match buffer with Some _ => Some buf | None => None end) 0)
  | None => Ok (mkRes None dstlen None 0)
  end.
End compression.

(** ** Properties *)

Lemma overwrite_zlen buf out : zlen out ≤ zlen buf → zlen (overwrite buf out) = zlen buf.
Proof. unfold overwrite, zlen. rewrite length_app, length_drop. lia. Qed.

Lemma overwrite_take buf out : take (length out) (overwrite buf out) = out.
Proof. unfold overwrite. by rewrite take_app_length. Qed.

Lemma overwrite_full buf out : zlen out = zlen buf → overwrite buf out = out.
Proof. unfold overwrite, zlen. intros E. rewrite drop_ge by lia. apply app_nil_r. Qed.

Section laws.
  Context (k : kernel).
  Hypothesis Hk : kernel_ok k.

(** The block the call works on: the caller's, or a new one. *)
Definition work_buf (buffer : option (list Z)) (size : Z) : option (list Z) :=
  match buffer with Some b => Some b | None => Buffer_create k size end.

Lemma work_buf_ok buffer size b : (∀ b, buffer = Some b → zlen b = size ∧ bytes_ok b) →
  work_buf buffer size = Some b → zlen b = size ∧ bytes_ok b.
Proof using Hk.
  intros Hb. destruct buffer as [c|]; cbn; [intros [= <-]; by apply Hb|]. unfold Buffer_create. case_bool; [done|]. apply (ok_malloc _ Hk).
Qed.

Lemma decode_spec compression buf dstlen src :
  zlen buf = dstlen → bytes_ok buf → dstlen < 2 ^ 32 → bytes_ok src → zlen src < 2 ^ 32 →
  ∃ size buf', decode k compression buf dstlen src = Ok (size, buf') ∧ 0 ≤ size ≤ dstlen ∧ zlen buf' = dstlen.
Proof using Hk.
  intros Hl Hb Hd Hs Hsl. pose proof (zlen_nonneg buf) as H0. unfold decode. repeat case_bool.
  - destruct (ok_ring _ Hk) as [Hr Hrb]. destruct (decompress_lzss_total (stack_ring k) src dstlen) as (out & -> & Ho & _); [done..|lia|].
    cbn [mbind outcome_bind]. eexists _, _. split; [reflexivity|]. split; [split; [apply zlen_nonneg|done]|]. rewrite overwrite_zlen; lia.
  - destruct (Lzvn.decode_buffer_agrees src dstlen buf) as (out' & o' & -> & Ho & _); [done|lia|done|done|lia|].
    eexists _, _. split; [reflexivity|]. pose proof (Lzvn.holds_len _ _ _ Ho). destruct Ho. split; [split; [apply zlen_nonneg|done]|done].
  - unfold decompress_zlib. destruct (negb (inflateInit k =? Z_OK)); [eexists _, _; split; [reflexivity|split; lia]|].
    destruct (inflate k src buf) as [[r t] d] eqn:Ei. apply (ok_inflate _ Hk) in Ei as [Ht Ed].
    case_bool; eexists _, _; (split; [reflexivity|]); split; lia.
  - eexists _, _. split; [reflexivity|split; lia].
Qed.
End laws.

(** C21: Whatever the format and the data, [decompress] ends without leaving its
    buffers: it passes back a length within the one given; null comes with
    nothing left allocated, a pointer with a block of the full size, which is
    the caller's if there was one and otherwise the only block left
    allocated; with the checked variant the block was filled to its end. *)
Theorem decompress_correct (k : kernel) (compression dstlen : Z) (src : list Z) (buffer : option (list Z)) (checkResult : bool) :
  kernel_ok k → 0 ≤ dstlen < 2 ^ 32 → bytes_ok src → zlen src < 2 ^ 32 →
  (∀ b, buffer = Some b → zlen b = dstlen ∧ bytes_ok b) →
  ∃ res, decompressInternal k compression dstlen src buffer checkResult = Ok res ∧
    0 ≤ length_out res ≤ dstlen ∧
    match returned res with
    | None => live res = 0 ∧ length_out res = dstlen ∧ (work_buf k buffer dstlen ≠ None → checkResult = true)
    | Some b => zlen b = dstlen ∧ (checkResult = true → length_out res = dstlen) ∧
        live res = (if buffer is Some _ then 0 else 1) ∧ (buffer ≠ None → caller_buf res = Some b)
    end.
Proof.
  intros Hk Hd Hs Hsl Hb. unfold decompressInternal. fold (work_buf k buffer dstlen).
  destruct (work_buf k buffer dstlen) as [buf|] eqn:Ew; [|eexists; split; [reflexivity|]; cbn; split_conj; done || lia].
  destruct (work_buf_ok k Hk buffer dstlen buf Hb Ew) as [Hl Hbb].
  destruct (decode_spec k Hk compression buf dstlen src) as (size & buf' & -> & Hsz & Hl'); [done..|lia|done|done|].
  cbn [mbind outcome_bind]. destruct (negb checkResult || (size =? dstlen)) eqn:E; (eexists; split; [reflexivity|]); cbn [returned length_out live caller_buf].
  - rewrite wrap_small by (unfold in_u; lia). split; [lia|]. split_conj; [done| |by destruct buffer|by destruct buffer].
    intros ->. cbn in E. by zify_bools.
  - apply orb_false_iff in E as [E _]. split; [lia|]. split_conj; [done|done|]. intros _. by destruct checkResult.
Qed.

(** A kernel with memory of zeroes and a zlib that fails. *)
Definition demo_kernel : kernel :=
  mkKernel (fun s => if 0 <=? s then Some (replicate (Z.to_nat s) 0) else None)
    (fun b s => if 0 <=? s then Some (take (Z.to_nat s) b ++ replicate (Z.to_nat s - length b) 0) else None)
    0 (fun _ dst => (-3, 0, dst)) (replicate (Z.to_nat (RBSIZE + UPLIM - 1)) 0) (replicate 17 0).

Lemma demo_kernel_ok : kernel_ok demo_kernel.
Proof.
  constructor.
  - cbn. intros s b. case_bool; intros [= <-]. unfold zlen. rewrite length_replicate. split; [lia|]. apply Forall_replicate. unfold in_u. lia.
  - cbn. intros b s b'. case_bool; intros [= <-]. unfold zlen. rewrite length_app, length_take, length_replicate. split; [lia|].
    intros m Hm Hb. rewrite take_app_le by (rewrite length_take; lia). rewrite take_take. f_equal. lia.
  - cbn. intros src dst r t dst' [= <- <- <-]. pose proof (zlen_nonneg dst). split; [lia|done].
  - split; [vm_compute; reflexivity|]. apply Forall_replicate. unfold in_u. lia.
  - done.
Qed.

Lemma decompress_correct_witness :
  ∃ res, decompressInternal demo_kernel ModeLZVN 4 [0xe4; 1; 2; 3] None true = Ok res ∧ 0 ≤ length_out res ≤ 4 ∧
    match returned res with
    | None => live res = 0 ∧ length_out res = 4 ∧ (work_buf demo_kernel None 4 ≠ None → true = true)
    | Some b => zlen b = 4 ∧ (true = true → length_out res = 4) ∧ live res = 1 ∧ (@None (list Z) ≠ None → caller_buf res = Some b)
    end.
Proof.
  apply (decompress_correct demo_kernel ModeLZVN 4 [0xe4; 1; 2; 3] None true);
    [apply demo_kernel_ok|done|repeat constructor; unfold in_u; lia|done|done].
Defined.



(** The variant that passes the length back reports a format it does not
    know as a success of length zero. *)
Theorem decompress_upto_unsupported (k : kernel) (compression : Z) (src buf : list Z) :
  compression ≠ ModeLZSS → compression ≠ ModeLZVN → compression ≠ ModeZLIB →
  decompress_upto k compression (zlen buf) src (Some buf) = Ok (mkRes (Some buf) 0 (Some buf) 0).
Proof.
  intros H1 H2 H3. unfold decompress_upto, decompressInternal, decode. by rewrite !(proj2 (Z.eqb_neq _ _)) by done.
Qed.

(** A block of [z_alloc] is freed at its address with its size, and it holds
    the items where their size does not wrap around; where it does, the block
    is too small. *)
Theorem z_alloc_free (IOMalloc m : Z → Z) (num_items size : Z) :
  let '(p, m') := z_alloc IOMalloc m num_items size in
  p ≠ 0 →
  ∃ s, z_free m' p = (IOMalloc s, s) ∧ (0 ≤ num_items * size < 2 ^ 32 - 8 → p + num_items * size ≤ IOMalloc s + s).
Proof.
  unfold z_alloc. case_bool; [|done]. intros _. eexists. split.
  - unfold z_free. rewrite Z.add_simpl_r, LzssTree.upd_eq. reflexivity.
  - intros H. rewrite (wrap_small 32 (num_items * size)) by (unfold in_u; lia). rewrite (wrap_small 32) by (unfold in_u; lia). lia.
Qed.

Example z_alloc_wraps : z_alloc (fun s => if s =? 8 then 4096 else 0) (fun _ => 0) 65536 65536 ≠ (0, fun _ => 0).
Proof. vm_compute. congruence. Qed.

End LiluCompression.
